(* ===== verification/_CoqProject ===== *)
-Q . S2P
Prelude.v
Trace.v
Json.v
Kafka.v
Versioning.v
Auth.v
CloudEvents.v
Events.v
Store.v
Outbox.v
Registry.v
Management.v
Admin.v
Lifecycle.v
Guarantees.v
Select.v
Labels.v
WorkQueue.v
Reconcile.v
Operators.v
OperatorNotices.v
TopicOperators.v
KnativeOperator.v
DittoClient.v
DittoOperator.v
DeviceState.v
StateClient.v
StateSystem.v
DeviceAuth.v
AccessToken.v
Commands.v
CommandWait.v
Pipeline.v
EventStream.v
KafkaConfig.v
EventLoop.v
MqttSession.v
MqttInbox.v
Downstream.v
EndpointAuth.v
HttpEndpoint.v
CoapEndpoint.v
Transport.v
MqttConnect.v
MqttServer.v
CommandSend.v
Ttn.v
MqttIntegration.v
WebSocket.v
Listing.v
RegistryApi.v
AuthWire.v
UserAuth.v
Services.v
Server.v
Console.v
ConsoleAdmin.v
ConsolePages.v
ConsoleDialogs.v
ConsoleExamples.v
ConsoleBackend.v
ConsoleShell.v
StateWitnesses.v
EndpointWitnesses.v
Witnesses.v
ApiWitnesses.v
ConsoleWitnesses.v
AccessWitnesses.v
IntegrationWitnesses.v
OperatorWitnesses.v
