(* ===== verification/Prelude.v ===== *)
(** * Drogue Cloud: a verification development

    Drogue Cloud connects devices to applications.  Devices talk to protocol
    endpoints (MQTT, HTTP, CoAP); the endpoints authenticate them, turn what
    they publish into cloud events, run these through the rules of the
    application and hand them to a sink (Kafka), and deliver commands to them.
    Applications read the events and send the commands through integrations
    (MQTT, WebSocket, HTTP).  A registry, managed by users over an API and a
    console, holds the applications and devices.  Changes of the registry are
    announced as events, which operators (controllers) turn into work.  This
    library models the parts of the system that decide something, in the order
    below, and proves that they do what their callers rely on.

    [Prelude] has the notations, tactics, hints and the shared lemmas on
    strings, lists, maps and results; [Json] the values of [serde_json];
    [Trace] programs that call other services, whose answers may be any.

    ** The registry

    - [Versioning]: [database-common/src/models/gen.rs] and [diff.rs].  The two
      counters of a record, as wrapping u64, and the changed paths of an update.
    - [Auth]: [database-common/src/auth.rs].  Owners, members, roles.
    - [Store]: [database-common/src/models/app.rs], [device.rs].  The tables as
      finite maps, and every statement of the accessors as a function on them.
    - [CloudEvents], [Events]: [registry-events/src/lib.rs], [db.rs].  Change
      events and their encodings.
    - [Outbox]: [database-common/src/models/outbox.rs], the database event
      sender, the event loop of [registry-events/src/stream/mod.rs], and the
      re-sender of [outbox-controller/src/resend.rs].
    - [Registry], [Management], [Admin]:
      [device-management-service/src/service].  The resources of the API, their
      conversions and version checks; the handlers that create, read, update
      and delete; ownership transfer and members.
    - [Labels], [Select], [Listing]: [service-api/src/labels/parser.rs],
      [database-common/src/models/sql.rs] and the list handlers.  The parser of
      label selectors, the SQL text of the list queries, its meaning on rows,
      and the lists the API returns.
    - [Lifecycle], [Guarantees]: the theorems about the handlers together.
    - [RegistryApi]: [device-management-service/src/endpoints], [admin-service]:
      the HTTP API.  [Kafka]: [service-api/src/kafka], the names of the Kafka
      resources of an application.

    A handler takes the database, the identity of the caller, the request and
    an environment (the time and the random UUIDs drawn), and returns a
    [Response]: the database after it, the events it sent after its commit, and
    its answer.  [Lifecycle.handle_request] dispatches the requests of both
    services; [Lifecycle.reachable] are the databases they can reach.

    The theorems: an event is kept and sent again until it, or the event for the
    same names and path that took its row, is acknowledged
    ([Outbox.outbox_at_least_once], [Lifecycle.sent_events_persisted],
    [Outbox.outbox_drains]); the tables stay consistent
    ([Lifecycle.registry_consistent]); no update is lost and only changes of the
    specification count as new generations ([Guarantees.device_no_lost_update],
    [Lifecycle.update_device_effect], [Versioning.advance_from_diff_correct],
    [Guarantees.device_read_write_noop]); who may do what
    ([Auth.authorize_allow_iff], [Guarantees.unauthorized_no_effect],
    [Guarantees.devices_hidden], [Admin.transfer_then_accept]); deletion with
    finalizers ([Guarantees.delete_app_outcome],
    [Guarantees.last_device_collects_app]); the lists
    ([Labels.labels_roundtrip], [Select.app_query_correct],
    [Listing.list_apps_correct]); applications share no Kafka resource but the
    topic for commands ([RegistryApi.api_resources_distinct]).

    ** Users

    - [AccessToken]: [access-token-service/src].  Tokens and their lifecycle.
    - [UserAuth]: [user-auth-service/src], the endpoints of access tokens, and
      the Keycloak client, which is shown to have the laws [Admin] relies on.
    - [Console], [ConsoleAdmin], [ConsolePages]: [console-frontend/src].  How
      requests are made and answers become messages, paging and quoting; the
      pages for the members and the ownership of an application, the list and
      the editor of devices, and the events of an application.  The page of the
      members is composed with [RegistryApi]: when a user adds a member, the
      registry has exactly the members shown and that one, or is unchanged and
      the page tells why ([ConsoleAdmin.add_member_end_to_end]), and answers to
      requests that were replaced are ignored
      ([ConsoleAdmin.replaced_requests_ignored]).
    - [ConsoleDialogs]: the dialogs that create, clone and delete applications
      and devices, access tokens, the list of applications and the page of one.
      What a dialog says is what the registry did
      ([ConsoleDialogs.Dialog.delete_device_end_to_end] and its companions); a
      second click asks again, and the answer to the first is not heard
      ([ConsoleDialogs.Dialog.second_click]).
    - [ConsoleExamples]: the command lines the console offers, read by a model of
      the shell: they have the words that were meant, and their topics are those
      the endpoints accept.
    - [ConsoleBackend]: [console-backend/src], [console-common/src/info.rs] and the
      start of the console; what the backend writes is what the console reads.
    - [ConsoleShell]: [console.rs] and [components], the frame around the pages:
      routes, menu, login and the state of resources.  What the pages and dialogs
      ask of it is carried out: after a device was created its page is shown
      ([ConsoleShell.Frame.created_device_shown]), but not that of a device whose
      name looks like an escape ([ConsoleShell.Routes.escaped_name_misread]).

    ** Operators

    - [WorkQueue]: [operator-common/src/controller/base/queue.rs] and
      [base/mod.rs].  The persistent queue of keys and the retry loop.
    - [Reconcile]: [operator-common/src/controller/reconciler] and
      [base/conditions.rs].  Construct or deconstruct, steps and conditions.
    - [Operators], [OperatorNotices], [EventLoop], [KafkaConfig]: which changes
      an operator is told of, the stream of change events and the base
      controller, and the settings of its consumer.
    - [TopicOperators], [KnativeOperator], [Ttn], [DittoClient],
      [DittoOperator]: the operators for Kafka topics and users, Knative
      sources, The Things Network and Eclipse Ditto.

    Creations, deletions and relevant updates are told
    ([OperatorNotices.registry_tells_operators]); an event is acknowledged only
    when its work is done, failed for good, or queued
    ([EventLoop.operator_at_least_once]); added work is not lost when writers,
    readers and acknowledgements interleave, with one reader or with clocks of
    the writers that are not behind ([WorkQueue.added_work_not_lost]); fetching
    returns the key that is due for longest unless acknowledging unreadable keys
    keeps failing ([WorkQueue.fetch_correct]); a resource is ready only if
    all of its steps are complete ([Reconcile.ready_iff_complete]); a finalizer
    is taken off only after the external service has removed what it had
    ([Ttn.ttn_finalizer_last], [DittoOperator.ditto_app_removed]).

    ** Devices

    - [DeviceAuth], [AuthWire]: [authentication-service/src], its messages and
      its client.  [EndpointAuth]: [endpoint-common/src/auth.rs], [psk.rs].
    - [DeviceState], [StateClient], [StateSystem]: the device state service, its
      client in the endpoints ([service-common/src/state]), and both over a
      network that loses messages.
    - [Commands], [CommandWait]: [endpoint-common/src/command], and devices that
      wait for a command after publishing.
    - [Pipeline], [Downstream]: [endpoint-common/src/sender], [sink].  Building
      and processing events, external endpoints, Kafka.
    - [HttpEndpoint], [CoapEndpoint], [Transport]: the endpoints, and TLS, DTLS
      and pre-shared keys below them.
    - [MqttSession], [MqttInbox], [MqttConnect], [MqttServer]:
      [mqtt-endpoint/src/service] and [mqtt-common/src].

    A device that passes is the one whose credentials were presented
    ([EndpointAuth.endpoint_auth_sound], [MqttConnect.connect_sound]); an event
    that is published names its origin, unless the rules of the application
    change it ([HttpEndpoint.http_publish_origin]); connection events alternate
    as long as the application is there, sessions that are not expired are not
    pruned, and two endpoints never both believe to have a device
    ([DeviceState.connection_events_alternate], [DeviceState.prune_correct],
    [StateSystem.device_exclusive]); commands reach exactly the subscriptions
    that ask for them ([Commands.commands_routed], [CommandWait.waiting_sound],
    [MqttServer.server_inbox]).

    ** Integrations

    - [EventStream]: [event-common/src/stream/mod.rs].
    - [CommandSend]: [integration-common/src/commands], [command-endpoint].
    - [MqttIntegration], [WebSocket]: the integrations of these names.

    A command that was accepted is on its way to every device that waits for it
    ([CommandSend.command_reaches_subscribers]); streams run only for who may
    read them and at least once ([MqttIntegration.session_streams_authorized],
    [MqttIntegration.stream_at_least_once],
    [WebSocket.System.streams_match_connections],
    [WebSocket.connection_bounded]).

    ** All together

    - [Services]: the routes of the HTTP services and the middleware before
      them, the check of tokens, and the endpoints that are announced.  With an
      authenticator, no handler for users that is not public is reached by anyone
      it does not vouch for ([Services.Tables.routes_protected]).
    - [Server]: [server/src], all services in one process: arguments,
      configuration, the set-up of Keycloak, and what is started.  Services start
      after the set-up, no two of them share an address or a consumer group, each
      is given the addresses of those it calls, and what is announced is served.

    Some theorems state what the code does where that is not what it means to
    do: [Guarantees.change_event_uids], [Admin.accept_anonymous_disowns],
    [Select.auth_read_not_aligned], [WorkQueue.device_key_roundtrip],
    [WorkQueue.second_reader_loses_work],
    [AccessToken.is_valid_panics], [MqttSession.own_inbox_gets_all],
    [AuthWire.X509.front_certificate_impersonates], [KafkaConfig.two_spellings],
    [Transport.long_wait_unanswered], [ConsoleAdmin.members_lost_update],
    [Console.Shell.quote_broken].

    ** Parameters

    Code outside of the repository is a class of operations, with a class of
    the documented laws the code relies on where a theorem needs them, and
    executable instances in the witnesses: the cloud events SDK ([CloudEventsSdk]), UUIDs
    ([UuidCodec]), the typed sections and certificates of the client library
    ([ClientApi], [AuthApi], [DeviceAttributes], [PublishSections]), Keycloak
    ([Keycloak], [KeycloakRealm], [KeycloakApi]), token checksums and hashes
    ([TokenApi]), conditions ([ConditionsApi]), MQTT topic filters
    ([MqttTopics]), the LRU cache ([LruCache]), the [nom] combinators ([Nom]),
    digests and lower case ([Text]), JSON and other codecs ([ApiCodecs],
    [RegJson], [ConsoleCodecs], [AuthCodecs], [CoapCodecs]), HTTP clients ([Web],
    [TtnWeb], [DittoWeb], [Reqwest]), routing and the middleware of the HTTP
    services ([Router], [Middleware]), Kubernetes ([KubeApi], [KnativeWorld]) and
    the parsers of the pipeline ([Externals]).  The traits of the code are
    classes too, with the implementations as instances ([SessionApi],
    [DeviceStateClient], [RegistryClient], [Key], [Diffable]).  The files whose
    names end in [Witnesses] instantiate the theorems that have hypotheses.

    ** Bounds and abstractions

    - Loops of the code that are not structural take fuel, and theorems show
      how much is enough: one more than the rows of the queue and the failing
      acknowledgements for [WorkQueue.fetch] (with ever failing ones none is, as
      the loop does not end), one more than the sessions for [DeviceState.prune],
      eleven attempts for [EventLoop.inner_process] (a first one and ten
      retries), the length of the text for the repetitions of [Labels], three
      messages for a page ([ConsolePages.Index.dispatch]).
      [Outbox.handle_event] takes the attempts it may use.
    - A transaction is atomic.  The row locks the handlers take make those on
      the same object run one after the other, which is how they are modelled;
      a failing handler leaves the database as it was.
    - Times are arguments.  In the work queue the writers have clocks of their
      own beside that of the database; elsewhere a service and its database
      read one clock.  Each query of [WorkQueue.fetch] and each round of
      [DeviceState.prune] has its own time.
    - In [StateSystem] the registry knows the applications and the sender takes
      the events; [DeviceState] has their failures.
    - Tables are maps from primary keys to rows; the lengths of VARCHAR columns
      and connection failures are not modelled.  JSON numbers are integers.
    - Subscription IDs are drawn from a list of draws, as the code draws again
      while an ID is taken.
    - Integers are kept at their width where they wrap or overflow; counters
      that cannot reach their bound in practice are natural numbers.

    ** Not modelled

    The servers and protocols below the handlers ([ntex], [actix], the WebSocket
    and DTLS transports, the Kafka client) and the messages of Ditto
    ([ditto-registry-operator/src/ditto/protocol.rs]) are third-party code or
    plain data.  The structures a service reads its configuration into, the
    [main] functions of the single services ([Server] has that of all of them),
    the parser of the command line, metrics, tracing, the database migrations
    and connections ([database-common/src/lib.rs]) are I/O or declarations.  Of
    the console, the HTML of the views is not modelled, but for the menus and the
    texts of the examples.  Mocks and test helpers ([test-common],
    [registry-events/src/mock.rs]) only serve tests. *)

From Stdlib Require Export Strings.Ascii.
From Corelib Require Export ssreflect.
From stdpp Require Export base tactics strings list gmap.
From Stdlib Require Export ZArith Lia.

Declare Scope drogue_scope.
Delimit Scope drogue_scope with drogue.

(** ** Fallible code: Rust's [Result] *)

Inductive result (A E : Type) : Type :=
| Ok (a : A)
| Err (e : E).

Arguments Ok {A E} a.
Arguments Err {A E} e.

Definition rbind {A B E} (c : result A E) (k : A → result B E) : result B E :=
  match c with
  | Ok a => k a
  | Err e => Err e
  end.

Definition map_err {A E F} (f : E → F) (c : result A E) : result A F :=
  match c with
  | Ok a => Ok a
  | Err e => Err (f e)
  end.

Definition ok_or {A E} (e : E) (o : option A) : result A E :=
  match o with
  | Some a => Ok a
  | None => Err e
  end.

(** [let? x := c in k] is the [?] operator: stop with the error of [c]. *)
Notation "'let?' x := c 'in' k" := (rbind c (fun x => k))
  (at level 10, x pattern, c at level 100, k at level 200) : drogue_scope.
Notation "'guard?' c 'else' e 'in' k" := (if c then k else Err e)
  (at level 10, c at level 100, e at level 100, k at level 200) : drogue_scope.

Open Scope drogue_scope.

Lemma rbind_ok_inv {A B E} (c : result A E) (k : A → result B E) b :
  rbind c k = Ok b → ∃ a, c = Ok a ∧ k a = Ok b.
Proof. destruct c; simpl; [eauto | discriminate]. Qed.

Lemma rbind_err_inv {A B E} (c : result A E) (k : A → result B E) e :
  rbind c k = Err e → c = Err e ∨ ∃ a, c = Ok a ∧ k a = Err e.
Proof. destruct c; simpl; naive_solver. Qed.

Lemma ok_or_ok {A E} (e : E) (o : option A) a : ok_or e o = Ok a ↔ o = Some a.
Proof. destruct o; simpl; naive_solver. Qed.

(** ** Tactics of the development *)

(** Split one [match], [if] or bind of a hypothesis or of the goal. *)
Ltac split_step :=
  match goal with
  | H : Ok _ = Ok _ |- _ => injection H as H; subst
  | H : Err _ = Err _ |- _ => injection H as H; subst
  | H : Ok _ = Err _ |- _ => discriminate H
  | H : Err _ = Ok _ |- _ => discriminate H
  | H : rbind _ _ = Ok _ |- _ =>
      let a := fresh "a" in let Ha := fresh "Hbind" in
      apply rbind_ok_inv in H; destruct H as (a & Ha & H)
  | H : context [match ?x with _ => _ end] |- _ => destruct x eqn:?; simplify_eq/=
  | |- context [match ?x with _ => _ end] => destruct x eqn:?; simplify_eq/=
  end.
Ltac split_all := repeat split_step.

(** Decide a closed proposition by evaluation. *)
Ltac by_eval := vm_compute; reflexivity.
Ltac by_decide := apply (bool_decide_unpack _); vm_compute; exact I.

Create HintDb drogue.
#[export] Hint Extern 5 (_ ≤ _)%Z => lia : drogue.
#[export] Hint Extern 5 (_ < _)%Z => lia : drogue.

(** ** Machine integers *)

Definition two64 : Z := Eval vm_compute in (2 ^ 64)%Z.
Definition two63 : Z := Eval vm_compute in (2 ^ 63)%Z.

(** [u64] addition wraps (the release profile has no overflow checks). *)
Definition u64_add (x y : Z) : Z := ((x + y) mod two64)%Z.
Definition u64_sub (x y : Z) : Z := ((x - y) mod two64)%Z.
Definition is_u64 (x : Z) : Prop := (0 ≤ x < two64)%Z.

(** [x as i64] of a [u64] and [x as u64] of an [i64]: the casts of the
    BIGINT columns. *)
Definition as_i64 (x : Z) : Z := if (x <? two63)%Z then x else (x - two64)%Z.
Definition as_u64 (x : Z) : Z := (x mod two64)%Z.

Lemma as_u64_as_i64 x : is_u64 x → as_u64 (as_i64 x) = x.
Proof.
  unfold is_u64, as_u64, as_i64. intros H.
  destruct (Z.ltb_spec x two63).
  - apply Z.mod_small. unfold two64, two63 in *. lia.
  - replace (x - two64)%Z with (x + (-1) * two64)%Z by lia.
    rw Z.mod_add; [unfold two64; lia | by apply Z.mod_small].
Qed.

Lemma u64_add_small x y : is_u64 x → (0 ≤ y)%Z → (x + y < two64)%Z → u64_add x y = (x + y)%Z.
Proof. unfold u64_add, is_u64. intros. apply Z.mod_small. lia. Qed.

Lemma u64_add_range x y : is_u64 (u64_add x y).
Proof. unfold is_u64, u64_add. apply Z.mod_pos_bound. unfold two64. lia. Qed.

#[export] Hint Resolve u64_add_range : drogue.

(** ** Strings: the [str] methods the code uses *)

Definition string_eqb (a b : string) : bool := bool_decide (a = b).

Definition is_empty (s : string) : bool :=
  match s with EmptyString => true | String _ _ => false end.

Fixpoint starts_with (p s : string) : bool :=
  match p, s with
  | EmptyString, _ => true
  | String a p', String b s' => bool_decide (a = b) && starts_with p' s'
  | String _ _, EmptyString => false
  end.

Fixpoint ends_with (suf s : string) : bool :=
  string_eqb suf s || match s with EmptyString => false | String _ s' => ends_with suf s' end.

Fixpoint has_char (c : ascii) (s : string) : bool :=
  match s with
  | EmptyString => false
  | String a s' => bool_decide (a = c) || has_char c s'
  end.

(** [s.split(c)]: one segment more than there are separators. *)
Fixpoint split (c : ascii) (s : string) : list string :=
  match s with
  | EmptyString => [EmptyString]
  | String a s' =>
      if bool_decide (a = c) then EmptyString :: split c s'
      else match split c s' with
           | h :: t => String a h :: t
           | [] => [String a EmptyString]
           end
  end.

(** [s.split_once(c)]; [s.splitn(2, c)] has two parts exactly when it is
    [Some]. *)
Fixpoint split_once (c : ascii) (s : string) : option (string * string) :=
  match s with
  | EmptyString => None
  | String a s' =>
      if bool_decide (a = c) then Some (EmptyString, s')
      else match split_once c s' with
           | Some (h, t) => Some (String a h, t)
           | None => None
           end
  end.

Fixpoint strip_prefix (p s : string) : option string :=
  match p, s with
  | EmptyString, _ => Some s
  | String a p', String b s' => if bool_decide (a = b) then strip_prefix p' s' else None
  | String _ _, EmptyString => None
  end.

Fixpoint join (sep : string) (l : list string) : string :=
  match l with
  | [] => EmptyString
  | [s] => s
  | s :: l' => s +:+ sep +:+ join sep l'
  end.

Lemma string_eqb_eq a b : string_eqb a b = true ↔ a = b.
Proof. apply bool_decide_eq_true. Qed.

Lemma string_eqb_spec a b : reflect (a = b) (string_eqb a b).
Proof. apply bool_decide_reflect. Qed.

Lemma string_eqb_refl a : string_eqb a a = true.
Proof. by apply string_eqb_eq. Qed.

Lemma string_compare_refl s : Stdlib.Strings.String.compare s s = Eq.
Proof.
  pose proof (Stdlib.Strings.String.compare_antisym s s) as H.
  by destruct (Stdlib.Strings.String.compare s s).
Qed.

Lemma is_empty_true s : is_empty s = true ↔ s = EmptyString.
Proof. by destruct s. Qed.

Lemma app_cons a s t : String a s +:+ t = String a (s +:+ t).
Proof. done. Qed.

Lemma app_empty_l s : EmptyString +:+ s = s.
Proof. done. Qed.

Lemma app_empty_r s : s +:+ EmptyString = s.
Proof. induction s; [done|]. by rw app_cons IHs. Qed.

Lemma str_app_assoc a b c : (a +:+ b) +:+ c = a +:+ b +:+ c.
Proof. induction a; [done|]. by rw !app_cons IHa. Qed.

Lemma starts_with_app p s : starts_with p (p +:+ s) = true.
Proof. induction p; [done|]. rw app_cons /=. by rw bool_decide_true. Qed.

Lemma strip_prefix_app p s : strip_prefix p (p +:+ s) = Some s.
Proof. induction p; [done|]. rw app_cons /=. by rw bool_decide_true. Qed.

Lemma strip_prefix_some p s t : strip_prefix p s = Some t → s = p +:+ t.
Proof.
  revert s. induction p as [|a p IH]; intros [|b s]; simpl; try done; [by intros [= <-]..|].
  destruct (decide (a = b)) as [->|]; [|by rewrite bool_decide_eq_false_2].
  rewrite bool_decide_eq_true_2 //. intros Ht%IH. by rw app_cons -Ht.
Qed.

Lemma str_length_app a b : String.length (a +:+ b) = (String.length a + String.length b)%nat.
Proof. induction a as [|c a IH]; [done|]. by rw app_cons /= IH. Qed.

Lemma split_nonempty c s : split c s ≠ [].
Proof. destruct s; simpl; [done|]. by repeat case_match. Qed.

Lemma has_char_app c a b : has_char c (a +:+ b) = has_char c a || has_char c b.
Proof. induction a; [done|]. rw app_cons /= IHa. apply orb_assoc. Qed.

Lemma split_no_sep c s : has_char c s = false → split c s = [s].
Proof.
  induction s as [|a s IH]; [done|]. simpl. intros H.
  apply orb_false_iff in H as [-> ?]. by rw IH.
Qed.

Lemma split_segment c s x : x ∈ split c s → has_char c x = false.
Proof.
  revert x. induction s as [|a s IH]; intros x; simpl.
  - by intros ->%list_elem_of_singleton.
  - case_bool_decide as Ha; [intros [->|?]%elem_of_cons; [done|eauto]|].
    destruct (split c s) as [|h t] eqn:E; [by apply split_nonempty in E|].
    intros [->|?]%elem_of_cons; [|apply IH; set_solver]. simpl.
    rw bool_decide_false // IH //. set_solver.
Qed.

Lemma split_app c a b :
  has_char c a = false → split c (a +:+ String c b) = a :: split c b.
Proof.
  induction a as [|x a IH]; intros H.
  - rw app_empty_l /=. by rw bool_decide_true.
  - simpl in H. apply orb_false_iff in H as [Hx Ha].
    rw app_cons /= Hx IH; done.
Qed.

Lemma split_once_app c a b :
  has_char c a = false → split_once c (a +:+ String c b) = Some (a, b).
Proof.
  induction a as [|x a IH]; intros H.
  - rw app_empty_l /=. by rw bool_decide_true.
  - simpl in H. apply orb_false_iff in H as [Hx Ha]. rw app_cons /= Hx IH; done.
Qed.

Lemma split_once_none c s : has_char c s = false → split_once c s = None.
Proof.
  induction s as [|a s IH]; [done|]. simpl. intros H.
  apply orb_false_iff in H as [-> ?]. by rw IH.
Qed.

Lemma split_once_some c s a b :
  split_once c s = Some (a, b) → s = a +:+ String c b ∧ has_char c a = false.
Proof.
  revert a. induction s as [|x s IH]; intros a H; simpl in H; [done|].
  case_bool_decide as Hx; [by simplify_eq|].
  destruct (split_once c s) as [[h t]|]; simplify_eq.
  destruct (IH h eq_refl) as [-> Hh]. split; [done|].
  simpl. by rw bool_decide_false.
Qed.

Lemma join_split c s : join (String c EmptyString) (split c s) = s.
Proof.
  induction s as [|a s IH]; [done|]. simpl. case_bool_decide as Ha.
  - subst. destruct (split c s) eqn:E; [by apply split_nonempty in E|].
    change (String c (join (String c EmptyString) (s0 :: l)) = String c s). by rw IH.
  - destruct (split c s) as [|h [|h' t]] eqn:E; [by apply split_nonempty in E| |].
    + simpl in *. by subst.
    + cbn [join] in *. by rw app_cons IH.
Qed.

(** ** Lists without duplicates *)

Lemma NoDup_omap {A B} (f : A → option B) (l : list A) :
  NoDup l → (∀ x y z, x ∈ l → y ∈ l → f x = Some z → f y = Some z → x = y) → NoDup (omap f l).
Proof.
  induction 1 as [|x l Hx Hl IH]; intros Hinj; simpl; [constructor|].
  assert (IH' : NoDup (omap f l)) by (apply IH; intros ? ? ? ? ?; apply Hinj; by right).
  destruct (f x) as [z|] eqn:E; [|done]. constructor; [|done].
  intros (y & Hy & Hyz)%list_elem_of_omap. apply Hx.
  rw (Hinj x y z) //; [by left|by right].
Qed.

Lemma NoDup_fmap_inj {A B} (f : A → B) (l : list A) x y :
  NoDup (f <$> l) → x ∈ l → y ∈ l → f x = f y → x = y.
Proof.
  induction l as [|a l IH]; intros Hnd Hx Hy Hf; [by apply elem_of_nil in Hx|].
  apply NoDup_cons in Hnd as [Ha Hnd].
  apply elem_of_cons in Hx as [->|Hx]; apply elem_of_cons in Hy as [->|Hy]; try done.
  - destruct Ha. rw Hf. by apply list_elem_of_fmap_2.
  - destruct Ha. rw -Hf. by apply list_elem_of_fmap_2.
  - by apply IH.
Qed.

(** ** Insertion-ordered maps: [indexmap::IndexMap] *)

Section IndexMap.
Context {V : Type}.

Fixpoint im_get (k : string) (m : list (string * V)) : option V :=
  match m with
  | [] => None
  | (k', v) :: m' => if string_eqb k k' then Some v else im_get k m'
  end.

(** [insert] keeps the position of an existing key and appends a new one. *)
Fixpoint im_insert (k : string) (v : V) (m : list (string * V)) : list (string * V) :=
  match m with
  | [] => [(k, v)]
  | (k', v') :: m' => if string_eqb k k' then (k', v) :: m' else (k', v') :: im_insert k v m'
  end.

Lemma im_get_insert k k' v m :
  im_get k (im_insert k' v m) = if string_eqb k k' then Some v else im_get k m.
Proof.
  induction m as [|[k1 v1] m IH]; simpl; [done|].
  destruct (string_eqb_spec k' k1) as [->|Hne]; simpl.
  - by destruct (string_eqb k k1).
  - rw IH. destruct (string_eqb_spec k k1), (string_eqb_spec k k'); congruence.
Qed.

Lemma im_get_in k v m : im_get k m = Some v → (k, v) ∈ m.
Proof.
  induction m as [|[k1 v1] m IH]; simpl; [done|]. intros H.
  destruct (string_eqb k k1) eqn:E.
  - apply string_eqb_eq in E. simplify_eq. left.
  - right. auto.
Qed.
End IndexMap.

#[global] Arguments starts_with : simpl never.
#[global] Arguments ends_with : simpl never.
#[global] Arguments string_eqb : simpl never.
#[global] Arguments u64_add : simpl never.
