(* ===== verification/Trace.v ===== *)
(** * Programs that call other services

    A computation takes the calls made so far, appends those it makes, and
    returns a result: a service may answer in any way, depending on everything
    that was asked before, and the calls are the observable behaviour. *)

From S2P Require Import Prelude.

Section Monad.
Context {Call E : Type}.

Definition Traced (A : Type) : Type := list Call → list Call * result A E.
Definition ret {A} (a : A) : Traced A := λ l, (l, Ok a).
Definition fail {A} (e : E) : Traced A := λ l, (l, Err e).
Definition bind {A B} (m : Traced A) (k : A → Traced B) : Traced B := λ l,
  match m l with
  | (l, Ok a) => k a l
  | (l, Err e) => (l, Err e)
  end.
Definition from_result {A} (r : result A E) : Traced A := λ l, (l, r).

(** One call, and what is made of its answer. *)
Definition call {A} (c : Call) (answer : list Call → result A E) : Traced A := λ l, (l ++ [c], answer l).

Implicit Types l : list Call.

Lemma bind_ok {A B} (m : Traced A) (k : A → Traced B) l l' b :
  bind m k l = (l', Ok b) → ∃ l1 a, m l = (l1, Ok a) ∧ k a l1 = (l', Ok b).
Proof. unfold bind. destruct (m l) as [l1 [a|e]]; naive_solver. Qed.

Lemma bind_run {A B} (m : Traced A) (k : A → Traced B) l l1 a :
  m l = (l1, Ok a) → bind m k l = k a l1.
Proof. unfold bind. by intros ->. Qed.

Lemma bind_err {A B} (m : Traced A) (k : A → Traced B) l l1 e :
  m l = (l1, Err e) → bind m k l = (l1, Err e).
Proof. unfold bind. by intros ->. Qed.

Lemma from_result_ok {A} (r : result A E) l l' a : from_result r l = (l', Ok a) → l' = l ∧ r = Ok a.
Proof. unfold from_result. naive_solver. Qed.

Lemma call_ok {A} c (answer : list Call → result A E) l l' a :
  call c answer l = (l', Ok a) → l' = l ++ [c] ∧ answer l = Ok a.
Proof. unfold call. naive_solver. Qed.

(** Every call of the computation satisfies [P], and so does every error [Q]. *)
Definition calls_only {A} (P : Call → Prop) (Q : E → Prop) (m : Traced A) : Prop :=
  ∀ l, (∃ news, (m l).1 = l ++ news ∧ Forall P news) ∧ ∀ e, (m l).2 = Err e → Q e.

Section CallsOnly.
Context (P : Call → Prop) (Q : E → Prop).

Lemma calls_only_ret {A} (a : A) : calls_only P Q (ret a).
Proof. intros l. split; [|done]. exists []. simpl. by rw app_nil_r. Qed.

Lemma calls_only_fail {A} e : Q e → calls_only P Q (fail e : Traced A).
Proof. intros He l. split; [|by intros ? [= <-]]. exists []. simpl. by rw app_nil_r. Qed.

Lemma calls_only_result {A} (r : result A E) : (∀ e, r = Err e → Q e) → calls_only P Q (from_result r).
Proof. intros He l. split; [|done]. exists []. simpl. by rw app_nil_r. Qed.

Lemma calls_only_call {A} c (answer : list Call → result A E) :
  P c → (∀ l e, answer l = Err e → Q e) → calls_only P Q (call c answer).
Proof. intros Hc He l. split; [|apply He]. exists [c]. split; [done|]. by constructor. Qed.

Lemma calls_only_bind {A B} (m : Traced A) (k : A → Traced B) :
  calls_only P Q m → (∀ a, calls_only P Q (k a)) → calls_only P Q (bind m k).
Proof.
  intros Hm Hk l. unfold bind. destruct (Hm l) as [(news & Hl & Hn) He]. destruct (m l) as [l1 [a|e]]; simpl in *.
  - destruct (Hk a l1) as [(news' & Hl' & Hn') He']. split; [|done].
    exists (news ++ news'). rw Hl' Hl app_assoc. split; [done|]. by apply Forall_app.
  - split; [by exists news|]. intros e' [= <-]. by apply He.
Qed.
End CallsOnly.
End Monad.
Arguments Traced : clear implicits.

Notation "'let!' x := c 'in' k" := (bind c (fun x => k))
  (at level 200, x pattern, c at level 100, k at level 200) : stdpp_scope.
