(* ===== verification/Json.v ===== *)
(** * JSON values

    [serde_json::Value] and its [Map] (a [BTreeMap]: the [preserve_order]
    feature is not enabled), as far as the registry uses them: the payload of
    applications and devices, the diffing of two payloads, the sections of a
    resource.  Numbers are integers. *)

From S2P Require Import Prelude.

Inductive Value : Type :=
| Null
| Bool (b : bool)
| Number (n : Z)
| Str (s : string)
| Array (l : list Value)
| Object (m : list (string * Value)).

(** An object's fields, in the key order of the [BTreeMap]. *)
Abbreviation Map := (list (string * Value)).

(** ** Induction through arrays and objects *)

Section ValueInd.
Context (P : Value → Prop).
Hypothesis HNull : P Null.
Hypothesis HBool : ∀ b, P (Bool b).
Hypothesis HNumber : ∀ n, P (Number n).
Hypothesis HStr : ∀ s, P (Str s).
Hypothesis HArray : ∀ l, Forall P l → P (Array l).
Hypothesis HObject : ∀ m, Forall (λ kv, P kv.2) m → P (Object m).

Fixpoint value_ind' (v : Value) : P v :=
  match v with
  | Null => HNull
  | Bool b => HBool b
  | Number n => HNumber n
  | Str s => HStr s
  | Array l =>
      HArray l ((fix go l : Forall P l :=
        match l with
        | [] => Forall_nil_2 _
        | x :: l' => Forall_cons_2 _ _ _ (value_ind' x) (go l')
        end) l)
  | Object m =>
      HObject m ((fix go m : Forall (λ kv, P kv.2) m :=
        match m with
        | [] => Forall_nil_2 _
        | kv :: m' => Forall_cons_2 _ _ _ (value_ind' kv.2) (go m')
        end) m)
  end.
End ValueInd.

(** ** Equality, [PartialEq for Value] *)

Fixpoint value_eqb (a b : Value) : bool :=
  match a, b with
  | Null, Null => true
  | Bool x, Bool y => Bool.eqb x y
  | Number x, Number y => Z.eqb x y
  | Str x, Str y => string_eqb x y
  | Array l, Array k =>
      (fix go l k :=
         match l, k with
         | [], [] => true
         | x :: l', y :: k' => value_eqb x y && go l' k'
         | _, _ => false
         end) l k
  | Object m, Object n =>
      (fix go m n :=
         match m, n with
         | [], [] => true
         | (k1, v1) :: m', (k2, v2) :: n' => string_eqb k1 k2 && value_eqb v1 v2 && go m' n'
         | _, _ => false
         end) m n
  | _, _ => false
  end.

Lemma value_eqb_eq a b : value_eqb a b = true ↔ a = b.
Proof.
  revert b. induction a as [| | | |l IH|m IH] using value_ind'; intros c; destruct c; simpl;
    try done; rw ?eqb_true_iff ?Z.eqb_eq ?string_eqb_eq; try naive_solver.
  - revert l0. induction IH as [|x l Hx _ IHl]; intros [|y k]; try done.
    rw andb_true_iff Hx IHl. naive_solver.
  - revert m0. induction IH as [|[k1 v1] m Hx _ IHm]; intros [|[k2 v2] n]; try done.
    simpl in Hx. rw !andb_true_iff string_eqb_eq Hx IHm. naive_solver.
Qed.

#[global] Instance Value_eq_dec : EqDecision Value.
Proof.
  intros a b. destruct (value_eqb a b) eqn:E.
  - left. by apply value_eqb_eq.
  - right. intros H. apply value_eqb_eq in H. congruence.
Defined.

(** ** Maps *)

(** [Map::get] *)
Definition map_get (k : string) (m : Map) : option Value := im_get k m.

Definition map_keys (m : Map) : list string := m.*1.

(** [Map::insert]: in key order, replacing the value of a present key. *)
Fixpoint map_insert (k : string) (v : Value) (m : Map) : Map :=
  match m with
  | [] => [(k, v)]
  | (k', v') :: m' =>
      match Stdlib.Strings.String.compare k k' with
      | Lt => (k, v) :: m
      | Eq => (k', v) :: m'
      | Gt => (k', v') :: map_insert k v m'
      end
  end.

(** [Map::remove] *)
Definition map_remove (k : string) (m : Map) : Map :=
  filter (λ kv, kv.1 ≠ k) m.

(** [Value::as_object] *)
Definition as_object (v : Value) : option Map :=
  match v with
  | Object m => Some m
  | _ => None
  end.

(** [v.as_object().unwrap_or(&Map::new())] *)
Definition object_or_empty (v : Value) : Map := default [] (as_object v).

(** The map invariant the proofs use: every key occurs once. *)
Definition map_ok (m : Map) : Prop := NoDup (map_keys m).

(** The [json!] macro: the fields in the order of the map. *)
Definition json_object (fields : list (string * Value)) : Value :=
  Object (foldl (λ m '(k, v), map_insert k v m) [] fields).

Lemma map_get_insert k k' v m :
  map_get k (map_insert k' v m) = if string_eqb k k' then Some v else map_get k m.
Proof.
  unfold map_get. induction m as [|[k1 v1] m IH]; simpl; [done|].
  destruct (Stdlib.Strings.String.compare k' k1) eqn:E; simpl.
  - apply Stdlib.Strings.String.compare_eq_iff in E as ->.
    by destruct (string_eqb k k1).
  - done.
  - rw IH. destruct (string_eqb_spec k k1), (string_eqb_spec k k'); try done.
    subst. by rw string_compare_refl in E.
Qed.

Lemma map_get_remove k k' m :
  map_get k (map_remove k' m) = if string_eqb k k' then None else map_get k m.
Proof.
  unfold map_get, map_remove. induction m as [|[k1 v1] m IH]; simpl.
  { by destruct (string_eqb k k'). }
  destruct (decide (k1 = k')) as [->|Hne].
  - rw filter_cons_False; [by intros H; apply H|]. rw IH.
    by destruct (string_eqb k k').
  - rw filter_cons_True //= IH.
    destruct (string_eqb_spec k k1), (string_eqb_spec k k'); congruence.
Qed.

Lemma map_get_elem k v m : map_get k m = Some v → (k, v) ∈ m.
Proof. apply im_get_in. Qed.

Lemma map_get_is_some k m : is_Some (map_get k m) ↔ k ∈ map_keys m.
Proof.
  unfold map_get, map_keys. induction m as [|[k1 v1] m IH]; simpl.
  - split; [by intros [? ?]|]. intros H. by apply elem_of_nil in H.
  - rw elem_of_cons -IH. destruct (string_eqb_spec k k1) as [->|]; naive_solver.
Qed.

Lemma map_get_none k m : map_get k m = None ↔ k ∉ map_keys m.
Proof. rw -map_get_is_some eq_None_not_Some. done. Qed.

(** In a map with distinct keys every entry is found by its key. *)
Lemma map_get_of_elem k v m : map_ok m → (k, v) ∈ m → map_get k m = Some v.
Proof.
  unfold map_ok, map_keys, map_get.
  induction m as [|[k1 v1] m IH]; simpl; intros Hnd Hin.
  { by apply elem_of_nil in Hin. }
  apply NoDup_cons in Hnd as [Hk Hnd]. apply elem_of_cons in Hin as [Heq|Hin].
  - simplify_eq. by rw string_eqb_refl.
  - destruct (string_eqb_spec k k1) as [->|]; [|by apply IH].
    exfalso. apply Hk. apply list_elem_of_fmap. by exists (k1, v).
Qed.
