(* ===== verification/Kafka.v ===== *)
(** * Kafka resource names

    [service-api/src/kafka/mod.rs]: the names of the topics, users and passwords
    of an application.  Kubernetes and Kafka restrict names, so that names that
    do not fit are hashed and cleaned up.  Strings are UTF-8 bytes; the MD5
    digest and lower case of text that is not ASCII are parameters; regular
    expressions are matched as the [regex] crate documents them. *)

From S2P Require Import Prelude.

(** ** Regular expressions *)

Module Re.
Inductive re : Type :=
| Empty
| Eps
| Chr (f : ascii → bool)
| Seq (a b : re)
| Alt (a b : re)
| Star (a : re).

Definition Opt (a : re) : re := Alt Eps a.

Fixpoint nullable (r : re) : bool :=
  match r with
  | Empty | Chr _ => false
  | Eps | Star _ => true
  | Seq a b => nullable a && nullable b
  | Alt a b => nullable a || nullable b
  end.

Fixpoint deriv (c : ascii) (r : re) : re :=
  match r with
  | Empty | Eps => Empty
  | Chr f => if f c then Eps else Empty
  | Seq a b => if nullable a then Alt (Seq (deriv c a) b) (deriv c b) else Seq (deriv c a) b
  | Alt a b => Alt (deriv c a) (deriv c b)
  | Star a => Seq (deriv c a) (Star a)
  end.

(** The whole text matches. *)
Fixpoint is_match (r : re) (s : string) : bool :=
  match s with
  | EmptyString => nullable r
  | String c s => is_match (deriv c r) s
  end.

Inductive lang : re → string → Prop :=
| l_eps : lang Eps ""
| l_chr f c : f c = true → lang (Chr f) (String c "")
| l_seq a b s t : lang a s → lang b t → lang (Seq a b) (s +:+ t)
| l_alt_l a b s : lang a s → lang (Alt a b) s
| l_alt_r a b s : lang b s → lang (Alt a b) s
| l_star_nil a : lang (Star a) ""
| l_star_cons a s t : lang a s → lang (Star a) t → lang (Star a) (s +:+ t).

Lemma nullable_lang r : nullable r = true ↔ lang r "".
Proof.
  split.
  - induction r as [| |f|a IHa b IHb|a IHa b IHb|a IHa]; simpl; try done.
    + intros _. constructor.
    + intros [Ha Hb]%andb_true_iff. apply (l_seq a b "" ""); auto.
    + intros [Ha|Hb]%orb_true_iff; [apply l_alt_l|apply l_alt_r]; auto.
    + intros _. constructor.
  - remember "" as s eqn:Hs. intros Hl. induction Hl as [| |a b s t _ IHa _ IHb|a b s _ IH|a b s _ IH| |]; simpl;
      try done.
    + destruct s; [|done]. rw app_empty_l in Hs. by rw IHa // IHb.
    + by rw IH.
    + rw IH //. apply orb_true_r.
Qed.

Lemma lang_star_cons a c s :
  lang (Star a) (String c s) → ∃ x y, s = x +:+ y ∧ lang a (String c x) ∧ lang (Star a) y.
Proof.
  remember (Star a) as r eqn:Hr. remember (String c s) as u eqn:Hu. intros Hl. revert s Hu.
  induction Hl as [| | | | | |a' x y Ha _ Hs IH]; intros v Hu; try done. injection Hr as ->.
  destruct x as [|c' x].
  - rw app_empty_l in Hu. by apply IH.
  - rw app_cons in Hu. injection Hu as -> <-. by exists x, y.
Qed.

Lemma deriv_lang r : ∀ c s, lang (deriv c r) s ↔ lang r (String c s).
Proof.
  induction r as [| |f|a IHa b IHb|a IHa b IHb|a IHa]; intros c s; cbn [deriv].
  - split; inversion 1.
  - split; inversion 1.
  - destruct (f c) eqn:Hf; split; inversion 1; subst; try (by constructor); congruence.
  - assert (Hseq : lang (Seq (deriv c a) b) s ↔
      ∃ x y, s = x +:+ y ∧ lang a (String c x) ∧ lang b y).
    { split.
      - inversion 1; subst. do 2 eexists. split; [done|]. split; [by apply IHa|done].
      - intros (x & y & -> & Hx & Hy). constructor; [by apply IHa|done]. }
    assert (Hsplit : lang (Seq a b) (String c s) ↔
      (∃ x y, s = x +:+ y ∧ lang a (String c x) ∧ lang b y) ∨ (lang a "" ∧ lang b (String c s))).
    { split.
      - inversion 1 as [| |? ? x y Hx Hy| | | |]; subst. destruct x as [|c' x].
        + right. rw app_empty_l in H2. by subst.
        + left. rw app_cons in H2. injection H2 as -> <-. by exists x, y.
      - intros [(x & y & -> & Hx & Hy)|[Hx Hy]].
        + apply (l_seq a b (String c x) y Hx Hy).
        + apply (l_seq a b "" (String c s) Hx Hy). }
    rw Hsplit. destruct (nullable a) eqn:Hn.
    + rewrite -Hseq -IHb. apply nullable_lang in Hn. split; [inversion 1; subst; auto|].
      intros [?|[_ ?]]; [by apply l_alt_l|by apply l_alt_r].
    + rewrite Hseq. split; [auto|]. intros [?|[Hx _]]; [done|]. apply nullable_lang in Hx. congruence.
  - split; inversion 1; subst; (apply l_alt_l + apply l_alt_r); by apply IHa || apply IHb.
  - split.
    + inversion 1 as [| |? ? x y Hx Hy| | | |]; subst.
      apply (l_star_cons a (String c x) y); [by apply IHa|done].
    + intros (x & y & -> & Hx & Hy)%lang_star_cons. constructor; [by apply IHa|done].
Qed.

Lemma is_match_lang r s : is_match r s = true ↔ lang r s.
Proof.
  revert r. induction s as [|c s IH]; intros r; cbn [is_match]; [apply nullable_lang|].
  rw IH. apply deriv_lang.
Qed.
End Re.

(** ** Text *)

(** [str::to_lowercase] and [md5::compute] with the format [{:x}].  The
    documentation of both promises what [TextLaws] states: a digest is 16 bytes,
    and ASCII text at the start of a string is lowered byte by byte, whatever
    text follows. *)
Class Text : Type := {
  to_lowercase : string → string;
  md5_hex : string → string;
}.

Definition between (a b c : ascii) : bool :=
  (N_of_ascii a <=? N_of_ascii c)%N && (N_of_ascii c <=? N_of_ascii b)%N.

Definition is_ascii (c : ascii) : bool := (N_of_ascii c <? 128)%N.
Definition ascii_lower (c : ascii) : ascii :=
  if between "A" "Z" c then ascii_of_N (N_of_ascii c + 32) else c.
Definition is_hex (c : ascii) : bool := between "0" "9" c || between "a" "f" c.

Fixpoint all_chars (f : ascii → bool) (s : string) : bool :=
  match s with EmptyString => true | String c s => f c && all_chars f s end.
Fixpoint map_chars (f : ascii → ascii) (s : string) : string :=
  match s with EmptyString => "" | String c s => String (f c) (map_chars f s) end.

Class TextLaws (T : Text) : Prop := {
  md5_hex_chars s : all_chars is_hex (md5_hex s) = true;
  md5_hex_length s : String.length (md5_hex s) = 32;
  lower_ascii a b : all_chars is_ascii a = true →
    ∃ t, to_lowercase (a +:+ b) = map_chars ascii_lower a +:+ t;
  lower_all_ascii a : all_chars is_ascii a = true → to_lowercase a = map_chars ascii_lower a;
}.

(** ** The names *)

Inductive ResourceType :=
| REvents (app : string)
| RCommands (app : string)
| RUsers (app : string)
| RPasswords (app : string).

Definition app_name (r : ResourceType) : string :=
  match r with RCommands app | REvents app | RUsers app | RPasswords app => app end.

Inductive KafkaEventType := KCommands | KEvents.

Definition MAX_NAME_LEN : nat := 63.

Definition alnum (c : ascii) : bool := between "a" "z" c || between "0" "9" c.
Definition name_char (c : ascii) : bool := bool_decide (c = "-"%char) || alnum c.

Section regexp.
Import Re.

(** [.] of the pattern: one character of UTF-8 text but the line feed. *)
Definition cont_byte : re := Chr (fun c => between "128" "191" c).
Definition any_char : re :=
  Alt (Chr (fun c => is_ascii c && negb (bool_decide (c = "010"%char))))
    (Alt (Seq (Chr (fun c => between "192" "223" c)) cont_byte)
      (Alt (Seq (Chr (fun c => between "224" "239" c)) (Seq cont_byte cont_byte))
        (Seq (Chr (fun c => between "240" "247" c)) (Seq cont_byte (Seq cont_byte cont_byte))))).

Definition label : re :=
  Seq (Chr alnum) (Opt (Seq (Star (Chr name_char)) (Chr alnum))).

(** The source writes the pattern as a raw string, in which two backslashes
    before the dot match a backslash, and the dot then matches anything. *)
Definition NAME_REGEXP : re :=
  Seq label (Star (Seq (Chr (fun c => bool_decide (c = "\"%char))) (Seq any_char label))).
End regexp.

(** Mapping the characters: bytes that continue a character count with its
    first byte. *)
Fixpoint clean (s : string) : string :=
  match s with
  | EmptyString => ""
  | String c s =>
      if between "128" "191" c then clean s
      else String (if name_char c then c else "-"%char) (clean s)
  end.

Fixpoint take_chars (n : nat) (s : string) : string :=
  match n, s with
  | S n, String c s => String c (take_chars n s)
  | _, _ => ""
  end.

Fixpoint trim_end (x : ascii) (s : string) : string :=
  match s with
  | EmptyString => ""
  | String c s =>
      let t := trim_end x s in
      if bool_decide (c = x) && is_empty t then "" else String c t
  end.

Section names.
Context `{T : Text}.

Definition resource_name (prefix hashed_prefix resource : string) : string :=
  let name := prefix +:+ "-" +:+ resource in
  if (String.length name <? MAX_NAME_LEN) && Re.is_match NAME_REGEXP resource then name
  else hashed_prefix +:+ "-" +:+ md5_hex resource +:+ "-" +:+ resource.

Definition finish (name : string) : string :=
  trim_end "-" (take_chars MAX_NAME_LEN (clean (to_lowercase name))).

Definition make_kafka_resource_name (target : ResourceType) : string :=
  match target with
  | REvents app => finish (resource_name "events" "evt" app)
  | RUsers app => finish (resource_name "user" "usr" app)
  | RPasswords app => finish (resource_name "password" "pwd" app)
  | RCommands _ => "iot-commands"
  end.

Definition make_topic (k : KafkaEventType) (name : string) : string :=
  make_kafka_resource_name
    match k with KCommands => RCommands name | KEvents => REvents name end.
End names.

(** ** Lemmas on text *)

Lemma all_chars_app f a b : all_chars f (a +:+ b) = all_chars f a && all_chars f b.
Proof. induction a as [|c a IH]; [done|]. rw app_cons /= IH. apply andb_assoc. Qed.

Lemma all_chars_impl (f g : ascii → bool) s :
  (∀ c, f c = true → g c = true) → all_chars f s = true → all_chars g s = true.
Proof.
  intros Hfg. induction s as [|c s IH]; [done|]. simpl.
  intros [Hc Hs]%andb_true_iff. by rw (Hfg c Hc) IH.
Qed.

Lemma map_chars_id f g s : (∀ c, g c = true → f c = c) → all_chars g s = true → map_chars f s = s.
Proof.
  intros Hid. induction s as [|c s IH]; [done|]. simpl.
  intros [Hc Hs]%andb_true_iff. by rw (Hid c Hc) IH.
Qed.

(** The facts on single characters are checked on all 256 bytes. *)
Ltac each_byte := intros [[] [] [] [] [] [] [] []]; vm_compute; congruence.

Lemma name_char_ascii : ∀ c, name_char c = true → is_ascii c = true.
Proof. each_byte. Qed.
Lemma name_char_lower : ∀ c, name_char c = true → ascii_lower c = c.
Proof. each_byte. Qed.
Lemma name_char_first : ∀ c, name_char c = true → between "128" "191" c = false.
Proof. each_byte. Qed.
Lemma hex_alnum : ∀ c, is_hex c = true → alnum c = true.
Proof. each_byte. Qed.
Lemma alnum_name_char : ∀ c, alnum c = true → name_char c = true.
Proof. each_byte. Qed.
Lemma alnum_no_dash : ∀ c, alnum c = true → c ≠ "-"%char.
Proof. each_byte. Qed.
Lemma name_char_no_backslash : ∀ c, name_char c = true → c ≠ "\"%char.
Proof. each_byte. Qed.

Lemma clean_app a b : clean (a +:+ b) = clean a +:+ clean b.
Proof.
  induction a as [|c a IH]; [done|]. rw app_cons /=. destruct (between "128" "191" c); [done|].
  by rw app_cons IH.
Qed.

Lemma clean_id s : all_chars name_char s = true → clean s = s.
Proof.
  induction s as [|c s IH]; [done|]. simpl. intros [Hc Hs]%andb_true_iff.
  by rw (name_char_first c Hc) Hc IH.
Qed.

Lemma clean_chars s : all_chars name_char (clean s) = true.
Proof.
  induction s as [|c s IH]; [done|]. simpl. destruct (between _ _ c); [done|]. simpl.
  by destruct (name_char c) eqn:Hc; rw ?Hc IH.
Qed.

Lemma take_chars_chars f n s : all_chars f s = true → all_chars f (take_chars n s) = true.
Proof.
  revert s. induction n as [|n IH]; intros [|c s]; try done. simpl.
  intros [Hc Hs]%andb_true_iff. by rw Hc IH.
Qed.

Lemma take_chars_length n s : (String.length (take_chars n s) ≤ n)%nat.
Proof. revert s. induction n as [|n IH]; intros [|c s]; simpl; try lia. specialize (IH s). lia. Qed.

Lemma take_chars_all n s : (String.length s ≤ n)%nat → take_chars n s = s.
Proof.
  revert s. induction n as [|n IH]; intros [|c s]; simpl; try done; try lia. intros ?. rw IH //. lia.
Qed.

Lemma take_chars_app n a b :
  (String.length a ≤ n)%nat → take_chars n (a +:+ b) = a +:+ take_chars (n - String.length a) b.
Proof.
  revert a. induction n as [|n IH]; intros [|c a]; simpl; try done; try lia. intros ?.
  rw !app_cons /= IH //. lia.
Qed.

Lemma trim_end_chars f x s : all_chars f s = true → all_chars f (trim_end x s) = true.
Proof.
  induction s as [|c s IH]; [done|]. simpl. intros [Hc Hs]%andb_true_iff.
  destruct (_ && _); [done|]. by rw /= Hc IH.
Qed.

Lemma trim_end_length x s : (String.length (trim_end x s) ≤ String.length s)%nat.
Proof. induction s as [|c s IH]; simpl; [done|]. destruct (_ && _); simpl; lia. Qed.

(** The last character, where there is one. *)
Fixpoint last_char (s : string) : option ascii :=
  match s with
  | EmptyString => None
  | String c s => if is_empty s then Some c else last_char s
  end.

Lemma last_char_app a b : b ≠ "" → last_char (a +:+ b) = last_char b.
Proof.
  intros Hb. induction a as [|c a IH]; [done|]. rw app_cons /=.
  destruct a; [by destruct b|]. by rw app_cons in IH |- *.
Qed.

Lemma last_char_nonempty s c : last_char s = Some c → s ≠ "".
Proof. by destruct s. Qed.

Lemma trim_end_last x s : last_char (trim_end x s) ≠ Some x.
Proof.
  induction s as [|c s IH]; [done|]. simpl. case_bool_decide as Hc; simpl.
  - destruct (trim_end x s) eqn:Ht; simpl in *; done.
  - destruct (trim_end x s) eqn:Ht; simpl in *; congruence.
Qed.

(** Trimming leaves text that does not end in the character, and what precedes
    it. *)
Lemma trim_end_app x a b c :
  last_char a = Some c → c ≠ x → trim_end x (a +:+ b) = a +:+ trim_end x b.
Proof.
  intros Ha Hc. induction a as [|d a IH]; [done|]. rw app_cons /=. simpl in Ha.
  destruct a as [|e a]; simpl in Ha.
  - injection Ha as ->. rw app_empty_l. by rw bool_decide_eq_false_2.
  - rw IH // app_cons /=. by rw andb_false_r.
Qed.

Lemma trim_end_id x a c : last_char a = Some c → c ≠ x → trim_end x a = a.
Proof. intros Ha Hc. rw -{1}(app_empty_r a) (trim_end_app x a "" c) //= app_empty_r //. Qed.

Lemma str_app_inj a b x y :
  String.length a = String.length b → a +:+ x = b +:+ y → a = b ∧ x = y.
Proof.
  revert b. induction a as [|c a IH]; intros [|d b]; simpl; try done; intros [= Hl].
  rw !app_cons. intros [= -> H]. by destruct (IH b Hl H) as [-> ->].
Qed.

(** ** Names that match the pattern *)

Lemma star_chars f t : Re.lang (Re.Star (Re.Chr f)) t ↔ all_chars f t = true.
Proof.
  split.
  - intros Ht. remember (Re.Star _) as r eqn:Hr. induction Ht as [| | | | | |a s' t Ha _ Hs IH]; try done.
    injection Hr as ->. rw all_chars_app IH // andb_true_r. inversion Ha; subst. by rw /= andb_true_r.
  - induction t as [|c t IH]; [constructor|]. simpl. intros [Hc Ht]%andb_true_iff.
    apply (Re.l_star_cons _ (String c "") t); [by constructor|auto].
Qed.

Lemma last_char_split s c : last_char s = Some c → ∃ u, s = u +:+ String c "".
Proof.
  induction s as [|d s IH]; [done|]. simpl. destruct s as [|e s]; simpl in *.
  - intros [= ->]. by exists "".
  - intros [u Hu]%IH. exists (String d u). by rw app_cons -Hu.
Qed.

(** A label is of name characters, with no dash at either end. *)
Lemma label_iff s :
  Re.lang label s ↔ all_chars name_char s = true ∧
    (∃ a t, s = String a t ∧ alnum a = true) ∧ ∃ c, last_char s = Some c ∧ alnum c = true.
Proof.
  split.
  - intros Hl. inversion Hl as [| |a b x y Hx Hy| | | |]; subst. inversion Hx as [|f c Hc| | | | |]; subst.
    rw app_cons app_empty_l. cbn [all_chars]. rw (alnum_name_char c Hc) andb_true_l.
    inversion Hy as [| | |? ? ? Hy'|? ? ? Hy'| |]; subst.
    + inversion Hy'; subst. simpl. eauto 10.
    + inversion Hy' as [| |? ? u v Hu Hv| | | |]; subst. inversion Hv as [|? d Hd| | | | |]; subst.
      apply star_chars in Hu. split_and!; [by rw all_chars_app Hu /= (alnum_name_char d Hd)|eauto|].
      exists d. split; [|done]. by rw -app_cons last_char_app.
  - intros (Hs & (a & t & -> & Ha) & c & Hc & Hn). apply (Re.l_seq _ _ (String a "") t); [by constructor|].
    destruct t as [|b t]; [apply Re.l_alt_l; constructor|]. apply Re.l_alt_r.
    change (name_char a && all_chars name_char (String b t) = true) in Hs. apply andb_true_iff in Hs as [_ Hs].
    destruct (last_char_split (String b t) c) as [u Hu]; [done|]. rw Hu in Hs |- *.
    rw all_chars_app in Hs. apply andb_true_iff in Hs as [Hs _].
    apply Re.l_seq; [by apply star_chars|by constructor].
Qed.

(** Without a backslash there is one label only. *)
Lemma pattern_label s :
  has_char "\" s = false → Re.is_match NAME_REGEXP s = true → Re.lang label s.
Proof.
  intros Hb Hm%Re.is_match_lang. inversion Hm as [| |a b x y Hx Hy| | | |]; subst.
  rw has_char_app in Hb. apply orb_false_iff in Hb as [_ Hb].
  inversion Hy as [| | | | | |a s' t Ha _]; subst; [by rw app_empty_r|]. exfalso.
  inversion Ha as [| |? ? u v Hu _| | | |]; subst. inversion Hu as [|? c Hc| | | | |]; subst.
  apply bool_decide_eq_true in Hc as ->. done.
Qed.

Lemma label_pattern s : Re.lang label s → Re.is_match NAME_REGEXP s = true.
Proof.
  intros Hl. apply Re.is_match_lang. rw -(app_empty_r s).
  apply Re.l_seq; [done|apply Re.l_star_nil].
Qed.

Section name_lemmas.
Context {T : Text} {HT : TextLaws T}.

(** The clean-up keeps a prefix of name characters that does not end in a
    dash. *)
Lemma finish_prefix p r c :
  all_chars name_char p = true → last_char p = Some c → c ≠ "-"%char →
  (String.length p ≤ MAX_NAME_LEN)%nat → ∃ t, finish (p +:+ r) = p +:+ t.
Proof.
  intros Hp Hl Hc Hlen. destruct (lower_ascii p r) as [t Ht].
  { exact (all_chars_impl _ _ _ name_char_ascii Hp). }
  eexists. rw /finish Ht (map_chars_id _ _ _ name_char_lower Hp) clean_app (clean_id p Hp).
  rw take_chars_app //. by apply (trim_end_app _ _ _ c).
Qed.

Lemma finish_id p c :
  all_chars name_char p = true → last_char p = Some c → c ≠ "-"%char →
  (String.length p ≤ MAX_NAME_LEN)%nat → finish p = p.
Proof.
  intros Hp Hl Hc Hlen. rw /finish lower_all_ascii.
  { exact (all_chars_impl _ _ _ name_char_ascii Hp). }
  rw (map_chars_id _ _ _ name_char_lower Hp) (clean_id p Hp) take_chars_all //.
  by apply (trim_end_id _ _ c).
Qed.

Lemma md5_last s : ∃ c, last_char (md5_hex s) = Some c ∧ alnum c = true.
Proof.
  pose proof (md5_hex_length s) as Hl. pose proof (md5_hex_chars s) as Hc.
  assert (Hne : md5_hex s ≠ "") by (intros H; rw H in Hl; done). clear Hl.
  induction (md5_hex s) as [|c t IH]; [done|]. simpl in *. apply andb_true_iff in Hc as [Hc Ht].
  destruct t as [|d t]; [|by apply IH]. exists c. by split; [|apply hex_alnum].
Qed.

(** The two shapes of names. *)
Inductive shape (prefix hashed_prefix app : string) : string → Prop :=
| sh_simple : all_chars name_char app = true →
    shape prefix hashed_prefix app (prefix +:+ "-" +:+ app)
| sh_hashed t : shape prefix hashed_prefix app (hashed_prefix +:+ "-" +:+ md5_hex app +:+ t).

Lemma finish_hashed hp app :
  all_chars name_char hp = true → (String.length hp ≤ 10)%nat →
  ∃ t, finish (hp +:+ "-" +:+ md5_hex app +:+ "-" +:+ app) = hp +:+ "-" +:+ md5_hex app +:+ t.
Proof.
  intros Hhp Hlen. destruct (md5_last app) as (c & Hc & Ha).
  destruct (finish_prefix (hp +:+ "-" +:+ md5_hex app) ("-" +:+ app) c) as [t Ht].
  - rw !all_chars_app Hhp /=. eapply all_chars_impl, md5_hex_chars.
    intros ? ?. by apply alnum_name_char, hex_alnum.
  - rw !last_char_app //; by eapply last_char_nonempty.
  - by apply alnum_no_dash.
  - rw !str_length_app md5_hex_length /MAX_NAME_LEN /=. lia.
  - exists t. by rw !str_app_assoc in Ht.
Qed.

Lemma resource_shape p hp app :
  has_char "\" app = false →
  all_chars name_char p = true → all_chars name_char hp = true → (String.length hp ≤ 10)%nat →
  shape p hp app (finish (resource_name p hp app)).
Proof.
  intros Hb Hp Hhp Hlen. rw /resource_name.
  destruct (_ && _) eqn:Hs.
  - apply andb_true_iff in Hs as [Hl%Nat.ltb_lt Hm].
    destruct (proj1 (label_iff _) (pattern_label _ Hb Hm)) as (Ha & _ & c & Hc & Hn).
    rw (finish_id _ c); [..|by constructor].
    + by rw !all_chars_app Hp Ha.
    + rw !last_char_app //; by eapply last_char_nonempty.
    + by apply alnum_no_dash.
    + lia.
  - destruct (finish_hashed hp app Hhp Hlen) as [t ->]. constructor.
Qed.

Lemma resource_finish_prefix p hp app c d :
  all_chars name_char p = true → last_char p = Some c → c ≠ "-"%char →
  all_chars name_char hp = true → last_char hp = Some d → d ≠ "-"%char →
  (String.length p ≤ 10)%nat → (String.length hp ≤ 10)%nat →
  ∃ t, finish (resource_name p hp app) = p +:+ t ∨ finish (resource_name p hp app) = hp +:+ t.
Proof.
  intros Hp Hc Hcd Hhp Hd Hdd Hl1 Hl2. rw /resource_name. destruct (_ && _).
  - destruct (finish_prefix p ("-" +:+ app) c) as [t ->]; eauto. rw /MAX_NAME_LEN. lia.
  - destruct (finish_prefix hp ("-" +:+ md5_hex app +:+ "-" +:+ app) d) as [t ->]; eauto.
    rw /MAX_NAME_LEN. lia.
Qed.

Definition valid_name (n : string) : Prop :=
  (String.length n ≤ MAX_NAME_LEN)%nat ∧ all_chars name_char n = true ∧
  last_char n ≠ Some "-"%char ∧ ∃ c t, n = String c t ∧ between "a" "z" c = true.

Lemma finish_valid n p t c p' :
  finish n = p +:+ t → p = String c p' → between "a" "z" c = true → valid_name (finish n).
Proof.
  intros Hf -> Hc. split_and!.
  - rw /finish. etrans; [apply trim_end_length|]. apply take_chars_length.
  - apply trim_end_chars, take_chars_chars, clean_chars.
  - apply trim_end_last.
  - rw Hf app_cons. eauto.
Qed.

(** Every resource name is one that Kafka and Kubernetes accept, whatever the application is
    called: 1 to 63 characters, lower case letters, digits and dashes, the first a letter and the last
    not a dash. *)
Theorem resource_names_valid (r : ResourceType) : valid_name (make_kafka_resource_name r).
Proof.
  destruct r as [app|app|app|app]; cbn [make_kafka_resource_name].
  - destruct (resource_finish_prefix "events" "evt" app "s" "t") as [t [H|H]]; try done;
      try (simpl; lia); by eapply finish_valid.
  - split_and!; [vm_compute; lia|done..|]. by exists "i"%char, "ot-commands".
  - destruct (resource_finish_prefix "user" "usr" app "r" "r") as [t [H|H]]; try done;
      try (simpl; lia); by eapply finish_valid.
  - destruct (resource_finish_prefix "password" "pwd" app "d" "d") as [t [H|H]]; try done;
      try (simpl; lia); by eapply finish_valid.
Qed.

(** Two applications with the same name have the same MD5 digest, or are the same. *)
Lemma shape_inj p hp a b n :
  shape p hp a n → shape p hp b n → (∀ x y, p +:+ "-" +:+ x ≠ hp +:+ "-" +:+ y) →
  (md5_hex a = md5_hex b → a = b) → a = b.
Proof.
  intros Ha Hb Hp Hmd5. destruct Ha as [Ha|t]; inversion Hb as [Hb' Heq|u Heq].
  - by apply str_app_inj in Heq as [_ [_ Heq]%str_app_inj].
  - by destruct (Hp a (md5_hex b +:+ u)).
  - by destruct (Hp b (md5_hex a +:+ t)).
  - apply str_app_inj in Heq as [_ [_ Heq]%str_app_inj]; [|done..].
    apply str_app_inj in Heq as [Heq _]; [|by rw !md5_hex_length]. auto.
Qed.

Lemma make_shape r :
  has_char "\" (app_name r) = false →
  let n := make_kafka_resource_name r in
  match r with
  | REvents a => shape "events" "evt" a n
  | RUsers a => shape "user" "usr" a n
  | RPasswords a => shape "password" "pwd" a n
  | RCommands _ => n = "iot-commands"
  end.
Proof. destruct r; simpl; intros ?; try done; apply resource_shape; try done; simpl; lia. Qed.

(** Topics of events are told apart by the application. *)
Lemma events_topic_inj a b :
  has_char "\" a = false → has_char "\" b = false → (md5_hex a = md5_hex b → a = b) →
  make_kafka_resource_name (REvents a) = make_kafka_resource_name (REvents b) → a = b.
Proof.
  intros Ha%(make_shape (REvents a)) Hb%(make_shape (REvents b)) Hmd5 Heq. cbv beta iota zeta in Ha, Hb.
  rw -Heq in Hb. by eapply shape_inj.
Qed.

(** Resources of different kinds or of different applications never share a name, as long as no
    two application names have the same MD5 digest and none has a backslash in it; only the topic of
    commands is one for all. *)
Theorem resource_names_distinct (r r' : ResourceType) :
  has_char "\" (app_name r) = false → has_char "\" (app_name r') = false →
  (md5_hex (app_name r) = md5_hex (app_name r') → app_name r = app_name r') →
  make_kafka_resource_name r = make_kafka_resource_name r' →
  r = r' ∨ ∃ a b, r = RCommands a ∧ r' = RCommands b.
Proof.
  intros Hr%make_shape Hr'%make_shape Hmd5 Heq. cbv zeta in *. rw Heq in Hr. clear Heq.
  set (n := make_kafka_resource_name r') in *. clearbody n.
  destruct r as [a|a|a|a], r' as [b|b|b|b]; simpl in Hmd5; try (right; by eauto); left;
    try (f_equal; by eapply shape_inj); exfalso;
    first [ rewrite Hr in Hr'; by inversion Hr' | rewrite Hr' in Hr; by inversion Hr
          | destruct Hr; by inversion Hr' ].
Qed.

Lemma label_dash l1 l2 c :
  Re.lang label l1 → Re.lang label l2 → name_char c = true →
  Re.lang label (l1 +:+ "-" +:+ String c l2).
Proof.
  intros (H1 & (a & t & -> & Ha) & _)%label_iff (H2 & _ & d & Hd & Hn)%label_iff Hc.
  apply label_iff. split_and!.
  - rw all_chars_app H1 /= Hc. done.
  - rw app_cons. eauto.
  - exists d. split; [|done]. rw !last_char_app //=. by destruct l2.
Qed.

Lemma name_char_any : ∀ c, name_char c = true → is_ascii c && negb (bool_decide (c = "010"%char)) = true.
Proof. each_byte. Qed.

Lemma backslash_matches l1 l2 c :
  Re.lang label l1 → Re.lang label l2 → name_char c = true →
  Re.is_match NAME_REGEXP (l1 +:+ "\" +:+ String c l2) = true.
Proof.
  intros H1 H2 Hc. apply Re.is_match_lang, Re.l_seq; [done|].
  rw -(app_empty_r ("\" +:+ String c l2)). apply Re.l_star_cons; [|constructor].
  apply Re.l_seq; [by constructor|]. apply (Re.l_seq _ _ (String c "") l2); [|done].
  apply Re.l_alt_l. constructor. by apply name_char_any.
Qed.

Definition backslash_char (c : ascii) : bool := name_char c || bool_decide (c = "\"%char).

Lemma backslash_char_lower : ∀ c, backslash_char c = true → ascii_lower c = c.
Proof. each_byte. Qed.
Lemma backslash_char_ascii : ∀ c, backslash_char c = true → is_ascii c = true.
Proof. each_byte. Qed.

Lemma finish_backslash p q :
  all_chars name_char p = true → all_chars name_char q = true →
  finish (p +:+ "\" +:+ q) = finish (p +:+ "-" +:+ q).
Proof.
  assert (Himpl : ∀ s, all_chars name_char s = true → all_chars backslash_char s = true).
  { intros s. apply all_chars_impl. intros c Hc. by rw /backslash_char Hc. }
  assert (Hlow : ∀ s, all_chars backslash_char s = true → to_lowercase s = s).
  { intros s Hs. rewrite lower_all_ascii; [exact (all_chars_impl _ _ _ backslash_char_ascii Hs)|].
    by apply (map_chars_id _ _ _ backslash_char_lower). }
  intros Hp Hq. rw /finish (Hlow (p +:+ "\" +:+ q)).
  { by rw !all_chars_app (Himpl p Hp) (Himpl q Hq). }
  rw (Hlow (p +:+ "-" +:+ q)); [by rw !all_chars_app (Himpl p Hp) (Himpl q Hq)|]. by rw !clean_app.
Qed.

Lemma simple_topic app :
  Re.is_match NAME_REGEXP app = true → (String.length app < 56)%nat →
  make_topic KEvents app = finish ("events-" +:+ app).
Proof.
  intros Hm Hlen. rw /make_topic /= /resource_name Hm andb_true_r (proj2 (Nat.ltb_lt _ _)) //.
  rw !str_length_app /MAX_NAME_LEN /=. lia.
Qed.

(** A name with a backslash between two labels matches the pattern as well, is not hashed, and
    the clean-up gives it the topic of the application that has a dash instead. *)
Theorem backslash_shares_topic (l1 l2 : string) (c : ascii) :
  Re.lang label l1 → Re.lang label l2 → name_char c = true →
  (String.length (l1 +:+ l2) < 54)%nat →
  make_topic KEvents (l1 +:+ "\" +:+ String c l2) = "events-" +:+ l1 +:+ "-" +:+ String c l2 ∧
  make_topic KEvents (l1 +:+ "-" +:+ String c l2) = "events-" +:+ l1 +:+ "-" +:+ String c l2.
Proof.
  intros H1 H2 Hc Hlen. rw str_length_app in Hlen.
  pose proof (label_dash _ _ _ H1 H2 Hc) as Hd. pose proof (proj1 (label_iff _) Hd) as (Hn & _ & d & Hl & Ha).
  assert (Hf : finish ("events-" +:+ l1 +:+ "-" +:+ String c l2) = "events-" +:+ l1 +:+ "-" +:+ String c l2).
  { apply (finish_id _ d); [done| |by apply alnum_no_dash|].
    - rw last_char_app //. by eapply last_char_nonempty.
    - rw !str_length_app /MAX_NAME_LEN /=. lia. }
  rewrite (simple_topic _ (backslash_matches _ _ _ H1 H2 Hc)); [rw !str_length_app /=; lia|].
  rewrite (simple_topic _ (label_pattern _ Hd)); [rw !str_length_app /=; lia|].
  split; [|done]. apply label_iff in H1 as [H1 _], H2 as [H2 _].
  rw -Hf -!(str_app_assoc "events-"). apply finish_backslash; [done|]. by rw /= Hc.
Qed.
End name_lemmas.

(** ** Text for the examples and witnesses *)

(** Lower case of ASCII; the digests the tests of the source name. *)
Definition test_text : Text := {|
  to_lowercase := map_chars ascii_lower;
  md5_hex s :=
    if string_eqb s "FOO" then "901890a8e9c8cf6d5a1a542b229febff"
    else if string_eqb s "foo-" then "03f19ca8da08c40c2d036c8915d383e2"
    else "109eb12c10c45d94ddac8eca7b818bed";
|}.

Lemma map_chars_app f a b : map_chars f (a +:+ b) = map_chars f a +:+ map_chars f b.
Proof. induction a as [|c a IH]; [done|]. by rw app_cons /= IH app_cons. Qed.

#[export] Instance test_text_laws : TextLaws test_text.
Proof.
  constructor.
  - intros s. simpl. by repeat destruct (string_eqb s _).
  - intros s. simpl. by repeat destruct (string_eqb s _).
  - intros a b _. eexists. apply map_chars_app.
  - done.
Qed.

(** The names the tests of the source expect, and those of dotted names. *)
Example topic_names :
  let topic := make_topic (T := test_text) KEvents in
  topic "foo" = "events-foo" ∧ topic "00foo" = "events-00foo" ∧
  topic "0123456789012345678901234567890123456789012345678901234567890123456789" =
    "evt-109eb12c10c45d94ddac8eca7b818bed-01234567890123456789012345" ∧
  topic "FOO" = "evt-901890a8e9c8cf6d5a1a542b229febff-foo" ∧
  topic "foo-" = "evt-03f19ca8da08c40c2d036c8915d383e2-foo" ∧
  Re.is_match NAME_REGEXP "my.app" = false.
Proof. split_and!; by_eval. Qed.

Lemma resource_names_distinct_witness :
  make_kafka_resource_name (T := test_text) (REvents "FOO") ≠
  make_kafka_resource_name (T := test_text) (REvents "foo-").
Proof.
  intros Heq. destruct (resource_names_distinct (T := test_text) (REvents "FOO") (REvents "foo-")) as [H|H];
    [done..|exact Heq|done|]. destruct H as (a & b & H & _). done.
Defined.

Lemma backslash_shares_topic_witness :
  make_topic (T := test_text) KEvents "my\xapp" = "events-my-xapp" ∧
  make_topic (T := test_text) KEvents "my-xapp" = "events-my-xapp".
Proof.
  apply (backslash_shares_topic (T := test_text) "my" "app" "x"); [..|done|vm_compute; lia];
    apply label_iff; split_and!; [by_eval|by eexists _, _|by eexists|by_eval|by eexists _, _|by eexists].
Defined.
