(* ===== verification/Versioning.v ===== *)
(** * Generations, revisions and diffs

    [database-common/src/models/gen.rs] and
    [database-common/src/models/diff.rs]: how an update of an application or
    a device finds out what changed, and how it advances the two counters of
    the record.  Both are generic over traits of the entity, which are classes
    here; [Store] has the instances. *)

From S2P Require Import Prelude Json.

(** ** [gen.rs] *)

Inductive AdvanceError : Type :=
| NotIncrementing (current desired : Z).

(** The accessor half of the [Generation] and [Revision] traits; the setters
    are the bodies the [generation!] and [revision!] macros generate. *)
Class Generation (T : Type) := {
  generation : T → Z;
  put_generation : Z → T → T;
}.

Class Revision (T : Type) := {
  revision : T → Z;
  put_revision : Z → T → T;
}.

(** What the macros guarantee about the field they are given. *)
Class VersionedLaws (T : Type) `{Generation T, Revision T} := {
  generation_put x t : generation (put_generation x t) = x;
  revision_put x t : revision (put_revision x t) = x;
  generation_put_revision x t : generation (put_revision x t) = generation t;
  revision_put_generation x t : revision (put_generation x t) = revision t;
}.

(** Push the accessors through the updates of a record. *)
Ltac versioned :=
  rw ?generation_put ?revision_put_generation ?revision_put ?generation_put_revision.

Section Gen.
Context {T : Type} `{Generation T, Revision T}.

(** The generation may stay the same, but not decrease. *)
Definition set_generation (g : Z) (self : T) : T * result Z AdvanceError :=
  let current := generation self in
  if (current <=? g)%Z then (put_generation g self, Ok g)
  else (self, Err (NotIncrementing current g)).

(** The revision must always increment. *)
Definition set_revision (r : Z) (self : T) : T * result Z AdvanceError :=
  let current := revision self in
  if (current <? r)%Z then (put_revision r self, Ok r)
  else (self, Err (NotIncrementing current r)).

(** [advance_from]: the revision result is kept until the end, an error of
    [set_generation] returns at once. *)
Definition advance_from {S : Type} `{Generation S, Revision S}
    (paths : list string) (current : S) (self : T) : T * result Z AdvanceError :=
  let '(self, res) := set_revision (u64_add (revision current) 1) self in
  let g := if existsb (starts_with ".spec") paths
           then u64_add (generation current) 1 else generation current in
  let '(self, gres) := set_generation g self in
  match gres with
  | Ok _ => (self, res)
  | Err e => (self, Err e)
  end.

Definition advance_revision (self : T) : T * result Z AdvanceError :=
  set_revision (u64_add (revision self) 1) self.
End Gen.

(** ** [diff.rs] *)

Class Diffable (D : Type) := {
  labels : D → gmap string string;
  annotations : D → gmap string string;
  finalizers : D → list string;
  data : D → Value;
}.

(** [format!("{}.{}", prefix, k)] *)
Definition sub_path (prefix k : string) : string := prefix +:+ "." +:+ k.

(** [diff_maps]: check last level maps.  [paths] is the vector passed by
    mutable reference, [checked] the set of keys seen in [current]. *)
Definition diff_maps (current new : Map) (paths : list string) (prefix : string)
    : list string :=
  let '(checked, paths) :=
    foldl (λ '(checked, paths) '(k, v),
        let checked : gset string := {[k]} ∪ checked in
        match map_get k new with
        | Some other =>
            if bool_decide (v = other) then (checked, paths)
            else (checked, paths ++ [sub_path prefix k])
        | None => (checked, paths ++ [sub_path prefix k])
        end) (∅, paths) current in
  foldl (λ paths k,
      if bool_decide (k ∈ checked) then paths else paths ++ [sub_path prefix k])
    paths (map_keys new).

Definition diff_maps_data (current new : Value) (paths : list string) (prefix : string)
    : list string :=
  match current, new with
  | Object current, Object new => diff_maps current new paths prefix
  | Object current, _ => paths ++ map (sub_path prefix) (map_keys current)
  | _, Object new => paths ++ map (sub_path prefix) (map_keys new)
  | _, _ => paths
  end.

Definition diff_section (current new : Map) (paths : list string) : list string :=
  let '(checked, paths) :=
    foldl (λ '(checked, paths) '(k, v),
        let checked : gset string := {[k]} ∪ checked in
        let other := default Null (map_get k new) in
        (checked, diff_maps_data v other paths ("." +:+ k))) (∅, paths) current in
  foldl (λ paths '(k, v),
      if bool_decide (k ∈ checked) then paths
      else
        let other := default Null (map_get k current) in
        diff_maps_data other v paths ("." +:+ k))
    paths new.

Definition diff_data (current new : Value) (paths : list string) : list string :=
  diff_section (object_or_empty current) (object_or_empty new) paths.

Definition diff_paths {D} `{Diffable D} (current new : D) : list string :=
  let result :=
    if negb (bool_decide (annotations current = annotations new))
       || negb (bool_decide (labels current = labels new))
       || negb (bool_decide (finalizers current = finalizers new))
    then [".metadata"] else [] in
  diff_data (data current) (data new) result.

(** ** Advancing *)

Section AdvanceProofs.
Context {T : Type} `{VersionedLaws T} {S : Type} `{Generation S, Revision S}.

Lemma set_revision_ok r (self self' : T) x :
  set_revision r self = (self', Ok x) →
  x = r ∧ self' = put_revision r self ∧ (revision self < r)%Z.
Proof. unfold set_revision. intros. split_all. naive_solver lia. Qed.

Lemma advance_from_ok paths (current : S) (self self' : T) r :
  advance_from paths current self = (self', Ok r) →
  r = u64_add (revision current) 1 ∧ revision self' = r ∧ (revision self < r)%Z ∧
  generation self' =
    (if existsb (starts_with ".spec") paths
     then u64_add (generation current) 1 else generation current) ∧
  (generation self ≤ generation self')%Z.
Proof.
  unfold advance_from, set_revision, set_generation. intros Ha.
  split_all; rw ?generation_put_revision in Heqb; versioned; split_and?; try done; lia.
Qed.

(** Only the two counters change. *)
Lemma advance_from_put paths (current : S) (self self' : T) r :
  advance_from paths current self = (self', Ok r) →
  self' = put_generation (generation self') (put_revision r self).
Proof.
  unfold advance_from, set_revision, set_generation. intros Ha. split_all; by versioned.
Qed.

Lemma u64_succ x : is_u64 x → (0 < u64_add x 1)%Z → u64_add x 1 = (x + 1)%Z.
Proof.
  intros Hx Hpos. destruct (decide (x + 1 < two64)%Z); [apply u64_add_small; by try lia|].
  unfold is_u64, u64_add in *. replace (x + 1)%Z with two64 in Hpos by lia. done.
Qed.

(** Advancing a well-formed record does not wrap, and keeps the generation
    below the revision. *)
Lemma advance_from_counters paths (current : S) (self self' : T) r :
  advance_from paths current self = (self', Ok r) →
  is_u64 (revision current) → is_u64 (generation current) →
  (generation current ≤ revision current)%Z → (0 ≤ revision self)%Z →
  revision self' = (revision current + 1)%Z ∧ is_u64 (revision self') ∧
  is_u64 (generation self') ∧ (generation self' ≤ revision self')%Z.
Proof.
  intros Ha Hr Hg Hle Hz. apply advance_from_ok in Ha as (-> & Hr' & Hlt & Hg' & _).
  assert (Hs : u64_add (revision current) 1 = (revision current + 1)%Z) by (apply u64_succ; by try lia).
  assert (Hi := u64_add_range (revision current) 1). rw Hr' Hg' Hs. rw Hs in Hi.
  destruct (existsb _ _); [|by split_and!; try lia].
  rw u64_add_small //; [unfold is_u64 in *; lia|]. unfold is_u64 in *. lia.
Qed.

Lemma advance_revision_ok (self self' : T) r :
  advance_revision self = (self', Ok r) →
  is_u64 (revision self) →
  r = (revision self + 1)%Z ∧ self' = put_revision r self ∧ is_u64 r.
Proof.
  intros Ha Hr. assert (Hi := u64_add_range (revision self) 1).
  apply set_revision_ok in Ha as (-> & -> & Hlt). rw u64_succ in Hi *; try done.
  unfold is_u64 in *. lia.
Qed.
End AdvanceProofs.

(** ** What a diff reports *)

(** A loop that inserts the key into [checked] and updates [paths] can be
    read as two independent loops. *)
Lemma foldl_checked {V}
    (f : gset string * list string → string * V → gset string * list string)
    (g : list string → string * V → list string) (l : list (string * V)) c p :
  (∀ c p kv, f (c, p) kv = ({[kv.1]} ∪ c, g p kv)) →
  foldl f (c, p) l = (list_to_set (l.*1) ∪ c, foldl g p l).
Proof.
  intros Hf. revert c p. induction l as [|kv l IH]; intros c p; simpl.
  - f_equal. set_solver.
  - rw Hf IH. f_equal. set_solver.
Qed.

(** A loop whose every step adds the elements [Q x] adds all of them. *)
Lemma elem_of_foldl {A B} (f : list A → B → list A) (Q : B → A → Prop) (l : list B) acc p :
  (∀ acc x, x ∈ l → p ∈ f acc x ↔ p ∈ acc ∨ Q x p) →
  p ∈ foldl f acc l ↔ p ∈ acc ∨ ∃ x, x ∈ l ∧ Q x p.
Proof.
  revert acc. induction l as [|x l IH]; intros acc Hf; simpl.
  - set_solver.
  - rw IH; [set_solver|]. rw Hf; [set_solver|]. set_solver.
Qed.

Lemma elem_of_diff_maps current new paths prefix p :
  map_ok current →
  p ∈ diff_maps current new paths prefix ↔
  p ∈ paths ∨ ∃ k, p = sub_path prefix k ∧ map_get k current ≠ map_get k new.
Proof.
  intros Hok. unfold diff_maps.
  rw (foldl_checked _ (λ paths kv,
    if bool_decide (Some kv.2 = map_get kv.1 new) then paths
    else paths ++ [sub_path prefix kv.1])).
  { intros c p0 [k v]. simpl. destruct (map_get k new); repeat case_bool_decide; congruence. }
  rw (elem_of_foldl _ (λ k q, k ∉ map_keys current ∧ q = sub_path prefix k)).
  { intros acc k _. unfold map_keys. case_bool_decide; set_solver. }
  rw (elem_of_foldl _ (λ kv q, Some kv.2 ≠ map_get kv.1 new ∧ q = sub_path prefix kv.1)).
  { intros acc [k v] _. simpl. case_bool_decide; set_solver. }
  split.
  - intros [[?|([k v] & Hin & Hne & ->)]|(k & Hin & Hnin & ->)]; [by left| |]; right; exists k.
    + by rw (map_get_of_elem k v).
    + split; [done|]. rw (proj2 (map_get_none k current) Hnin).
      apply map_get_is_some in Hin as [v Hv]. by rw Hv.
  - intros [?|(k & -> & Hne)]; [by left; left|].
    destruct (map_get k current) as [v|] eqn:Hk.
    + left; right. exists (k, v). split; [by apply map_get_elem|]. done.
    + right. exists k. rw -map_get_is_some -map_get_none.
      split; [|done]. destruct (map_get k new); [eauto|congruence].
Qed.

Lemma elem_of_diff_maps_data current new paths prefix p :
  map_ok (object_or_empty current) →
  p ∈ diff_maps_data current new paths prefix ↔
  p ∈ paths ∨ ∃ k, p = sub_path prefix k ∧
    map_get k (object_or_empty current) ≠ map_get k (object_or_empty new).
Proof.
  intros Hok.
  assert (Hkeys : ∀ m, p ∈ map (sub_path prefix) (map_keys m) ↔
    ∃ k, p = sub_path prefix k ∧ map_get k m ≠ None).
  { intros m. rw list_elem_of_fmap. setoid_rewrite <- map_get_is_some.
    by setoid_rewrite <- not_eq_None_Some. }
  destruct current, new; simpl in *; try (by apply elem_of_diff_maps).
  all: rw ?elem_of_app ?Hkeys; unfold map_get; simpl; naive_solver.
Qed.

(** The section [a] of a payload, an empty map if it is not an object. *)
Definition section_of (v : Value) (a : string) : Map :=
  object_or_empty (default Null (map_get a (object_or_empty v))).

(** A payload whose maps have distinct keys, as a [serde_json::Map] does. *)
Definition payload_ok (v : Value) : Prop :=
  map_ok (object_or_empty v) ∧ ∀ a, map_ok (section_of v a).

Lemma elem_of_diff_data current new paths p :
  payload_ok current → payload_ok new →
  p ∈ diff_data current new paths ↔
  p ∈ paths ∨ ∃ a k, p = sub_path ("." +:+ a) k ∧
    map_get k (section_of current a) ≠ map_get k (section_of new a).
Proof.
  intros [Hc Hcs] [Hn Hns]. unfold diff_data, diff_section.
  pose (Q := λ (kv : string * Value) q, ∃ k, q = sub_path ("." +:+ kv.1) k ∧
    map_get k (section_of current kv.1) ≠ map_get k (section_of new kv.1)).
  rw (foldl_checked _ (λ paths kv, diff_maps_data kv.2
    (default Null (map_get kv.1 (object_or_empty new))) paths ("." +:+ kv.1))).
  { by intros c p0 [k v]. }
  rw (elem_of_foldl _ (λ kv q, kv.1 ∉ map_keys (object_or_empty current) ∧ Q kv q)).
  { intros acc [a v] Hin. simpl. unfold Q, section_of. simpl.
    rw (map_get_of_elem _ _ _ Hn Hin) /=.
    case_bool_decide as Hch.
    - set_solver.
    - rw elem_of_diff_maps_data; [apply (Hcs a)|]. set_solver. }
  rw (elem_of_foldl _ Q).
  { intros acc [a v] Hin. simpl. unfold Q, section_of. simpl.
    rw (map_get_of_elem _ _ _ Hc Hin) /=. apply elem_of_diff_maps_data.
    specialize (Hcs a). unfold section_of in Hcs. by rw (map_get_of_elem _ _ _ Hc Hin) in Hcs. }
  unfold Q. split; [naive_solver|].
  intros [?|(a & k & -> & Hne)]; [by left; left|].
  destruct (map_get a (object_or_empty current)) as [v|] eqn:Ea.
  - left; right. exists (a, v). split; [by apply map_get_elem|]. eauto.
  - right. destruct (map_get a (object_or_empty new)) as [v|] eqn:En.
    + exists (a, v). split; [by apply map_get_elem|]. rw -map_get_none. eauto.
    + exfalso. apply Hne. unfold section_of. by rw Ea En.
Qed.

(** The payload the registry stores: [json!({"spec": .., "status": ..})]. *)
Definition entity_data (spec status : Map) : Value :=
  Object [("spec", Object spec); ("status", Object status)].

Lemma section_of_entity spec status a :
  section_of (entity_data spec status) a =
    if string_eqb a "spec" then spec else if string_eqb a "status" then status else [].
Proof.
  unfold section_of, map_get. cbn -[string_eqb].
  by destruct (string_eqb a "spec"), (string_eqb a "status").
Qed.

Lemma entity_payload_ok spec status :
  map_ok spec → map_ok status → payload_ok (entity_data spec status).
Proof.
  intros Hs Ht. split.
  - unfold map_ok. simpl. by apply (bool_decide_unpack (NoDup ["spec"; "status"])).
  - intros a. rw section_of_entity. by destruct (string_eqb a "spec"), (string_eqb a "status");
      try done; apply NoDup_nil.
Qed.

Lemma spec_path_iff a k :
  starts_with ".spec" (sub_path ("." +:+ a) k) = starts_with "spec" (sub_path a k).
Proof. unfold sub_path. rw !app_cons !app_empty_l. done. Qed.

Section DiffProofs.
Context {D : Type} `{Diffable D}.
Implicit Types current new : D.

(** The parts of a resource the diff looks at agree. *)
Definition same_metadata current new : Prop :=
  annotations current = annotations new ∧ labels current = labels new ∧
  finalizers current = finalizers new.

Lemma elem_of_diff_paths current new p :
  payload_ok (data current) → payload_ok (data new) →
  p ∈ diff_paths current new ↔
  (p = ".metadata" ∧ ¬ same_metadata current new) ∨
  ∃ a k, p = sub_path ("." +:+ a) k ∧
    map_get k (section_of (data current) a) ≠ map_get k (section_of (data new) a).
Proof.
  intros Hc Hn. unfold diff_paths, same_metadata. rw elem_of_diff_data //.
  apply Morphisms_Prop.or_iff_morphism; [|done].
  repeat case_bool_decide; simpl; rw ?elem_of_cons ?elem_of_nil; naive_solver.
Qed.

(** [diff_paths] finds no change exactly when the metadata and every entry of
    every section agree. *)
Lemma diff_paths_nil current new :
  payload_ok (data current) → payload_ok (data new) →
  diff_paths current new = [] ↔
  same_metadata current new ∧
  ∀ a k, map_get k (section_of (data current) a) = map_get k (section_of (data new) a).
Proof.
  intros Hc Hn. split.
  - intros Hnil.
    assert (Hno : ∀ p, p ∉ diff_paths current new) by (rw Hnil; set_solver).
    split.
    + destruct (decide (annotations current = annotations new));
        destruct (decide (labels current = labels new));
        destruct (decide (finalizers current = finalizers new)); try done.
      all: exfalso; apply (Hno ".metadata"), elem_of_diff_paths; try done; left;
        unfold same_metadata; naive_solver.
    + intros a k. destruct (decide (map_get k (section_of (data current) a) =
        map_get k (section_of (data new) a))); [done|].
      exfalso. apply (Hno (sub_path ("." +:+ a) k)), elem_of_diff_paths; try done. eauto.
  - intros [Hm Hs]. destruct (diff_paths current new) as [|p l] eqn:E; [done|].
    assert (Hin : p ∈ diff_paths current new) by (rw E; set_solver).
    apply elem_of_diff_paths in Hin; naive_solver.
Qed.

Lemma spec_paths_changed current new spec status spec' status' :
  data current = entity_data spec status → data new = entity_data spec' status' →
  map_ok spec → map_ok status → map_ok spec' → map_ok status' →
  existsb (starts_with ".spec") (diff_paths current new) = true ↔
  ∃ k, map_get k spec ≠ map_get k spec'.
Proof.
  intros Hd Hd' ? ? ? ?. rw existsb_exists.
  setoid_rewrite <- list_elem_of_In. setoid_rewrite elem_of_diff_paths;
    rw ?Hd ?Hd'; try by apply entity_payload_ok.
  setoid_rewrite section_of_entity. split.
  - intros (p & [[-> _]|(a & k & -> & Hne)] & Hp); [done|].
    rw spec_path_iff in Hp. destruct (string_eqb_spec a "spec") as [->|]; [eauto|].
    destruct (string_eqb_spec a "status") as [->|]; done.
  - intros (k & Hk). exists (sub_path ("." +:+ "spec") k). split; [|done].
    right. by exists "spec", k.
Qed.
End DiffProofs.

(** The claim below is about records with all the traits: an entity. *)
Section Entity.
Context {T : Type} `{VersionedLaws T} `{!Diffable T}.
Implicit Types current new : T.

(** An update advances the revision by exactly one, and the generation by
    exactly one if an entry of the spec section was added, removed or changed,
    and not at all otherwise (whatever happened to the status section, the
    labels, the annotations or the finalizers).  [new] is the record built
    from the request, which starts at revision and generation zero. *)
Theorem advance_from_diff_correct current new spec status spec' status' :
  data current = entity_data spec status → data new = entity_data spec' status' →
  map_ok spec → map_ok status → map_ok spec' → map_ok status' →
  revision new = 0%Z → generation new = 0%Z →
  (0 ≤ revision current)%Z → (revision current + 1 < two64)%Z →
  (0 ≤ generation current)%Z → (generation current + 1 < two64)%Z →
  ∃ new', advance_from (diff_paths current new) current new
            = (new', Ok (revision current + 1)%Z) ∧
    revision new' = (revision current + 1)%Z ∧
    ((∃ k, map_get k spec ≠ map_get k spec') → generation new' = (generation current + 1)%Z) ∧
    ((∀ k, map_get k spec = map_get k spec') → generation new' = generation current).
Proof.
  intros Hd Hd' Hs Ht Hs' Ht' Hr Hg ? ? ? ?.
  pose proof (spec_paths_changed current new _ _ _ _ Hd Hd' Hs Ht Hs' Ht') as Hspec.
  unfold advance_from, set_revision, set_generation.
  rw Hr !u64_add_small; try (unfold is_u64; lia).
  rw (proj2 (Z.ltb_lt 0 (revision current + 1))); [lia|]. versioned. rw Hg.
  destruct (existsb _ _) eqn:E.
  - rw (proj2 (Z.leb_le 0 (generation current + 1))); [lia|].
    eexists; split; [done|]. versioned. split; [done|]. split; [done|].
    intros Hno. exfalso. destruct (proj1 Hspec eq_refl) as [k Hk]. by apply Hk.
  - rw (proj2 (Z.leb_le 0 (generation current))); [lia|].
    eexists; split; [done|]. versioned. split; [done|]. split; [|done].
    intros Hyes. apply Hspec in Hyes. congruence.
Qed.
End Entity.
