(* ===== verification/Auth.v ===== *)
(** * Authorization of users

    [database-common/src/auth.rs]: who may do what with an application; the
    roles of [service-api/src/admin/mod.rs] and the administrator check of
    [service-api/src/auth/user/mod.rs].  The list query's restriction,
    [SelectBuilder::auth_read] of [database-common/src/models/sql.rs], is the
    same policy as a SQL condition: [Select] models it and compares the two. *)

From S2P Require Import Prelude.

(** ** Users *)

Record UserDetails := mkUserDetails {
  ud_user_id : string;
  ud_roles : list string;
}.

Inductive UserInformation : Type :=
| Authenticated (details : UserDetails)
| Anonymous.

(** [UserInformation::user_id] *)
Definition user_id (u : UserInformation) : option string :=
  match u with
  | Authenticated d => Some (ud_user_id d)
  | Anonymous => None
  end.

Definition is_admin_details (d : UserDetails) : bool :=
  existsb (string_eqb "drogue-admin") (ud_roles d).

Definition is_admin (u : UserInformation) : bool :=
  match u with
  | Authenticated d => is_admin_details d
  | Anonymous => false
  end.

(** ** Roles, permissions, outcomes *)

Inductive Role : Type := Admin | Manager | Reader.

Record MemberEntry := mkMember { role : Role }.

Module Permission.
Inductive t : Type := Owner | Admin | Write | Read.
End Permission.

Inductive Outcome : Type := Allow | Deny.

#[global] Instance Role_eq_dec : EqDecision Role.
Proof. solve_decision. Defined.
#[global] Instance MemberEntry_eq_dec : EqDecision MemberEntry.
Proof. solve_decision. Defined.
#[global] Instance Permission_eq_dec : EqDecision Permission.t.
Proof. solve_decision. Defined.
#[global] Instance Outcome_eq_dec : EqDecision Outcome.
Proof. solve_decision. Defined.

(** The [Resource] trait: what authorization looks at. *)
Class Resource (R : Type) := {
  res_owner : R → option string;
  res_members : R → list (string * MemberEntry);
}.

(** ** Errors of the registry, [database-common/src/error.rs]

    [Database] carries the SQL state of the failed statement, the part the
    code inspects. *)

Inductive SqlState : Type :=
| UNIQUE_VIOLATION
| FOREIGN_KEY_VIOLATION
| OTHER_STATE.

Inductive ServiceError : Type :=
| Internal (msg : string)
| Pool
| Database (state : option SqlState)
| NotAuthorized
| NotFound
| Conflict (msg : string)
| ReferenceNotFound
| BadRequest (msg : string)
| OptimisticLockFailed.

(** [ServiceError::sql_state] *)
Definition sql_state (e : ServiceError) : option SqlState :=
  match e with
  | Database st => st
  | _ => None
  end.

(** The HTTP status of [ServiceError::error_response]. *)
Definition error_response (e : ServiceError) : Z :=
  match e with
  | Internal _ => 500
  | Pool => 503
  | Database _ => 503
  | NotAuthorized => 403
  | NotFound => 404
  | Conflict _ => 409
  | ReferenceNotFound => 404
  | BadRequest _ => 400
  | OptimisticLockFailed => 409
  end.

(** ** Authorization *)

Section Authorize.
Context {R : Type} `{Resource R}.

(** The check of the member list, for a resource with an owner. *)
Definition authorize_member (resource : R) (user : option string)
    (permission : Permission.t) : Outcome :=
  let user := default "" user in
  match im_get user (res_members resource) with
  | Some member =>
      match permission with
      | Permission.Owner => Deny
      | Permission.Admin => match role member with Admin => Allow | _ => Deny end
      | Permission.Write => match role member with Admin | Manager => Allow | _ => Deny end
      | Permission.Read => Allow
      end
  | None => Deny
  end.

Definition authorize (resource : R) (identity : UserInformation)
    (permission : Permission.t) : Outcome :=
  if is_admin identity then Allow
  else
    match res_owner resource, user_id identity with
    | None, _ => Allow
    | Some owner, Some user =>
        if string_eqb owner user then Allow
        else if bool_decide (permission = Permission.Owner) then Deny
        else authorize_member resource (Some user) permission
    | Some owner, None =>
        if bool_decide (permission = Permission.Owner) then Deny
        else authorize_member resource None permission
    end.

Definition ensure_with (resource : R) (identity : UserInformation)
    (permission : Permission.t) (f : ServiceError) : result unit ServiceError :=
  match authorize resource identity permission with
  | Allow => Ok tt
  | Deny => Err f
  end.

Definition ensure (resource : R) (identity : UserInformation)
    (permission : Permission.t) : result unit ServiceError :=
  ensure_with resource identity permission NotAuthorized.

(** ** The policy *)

(** How much a permission asks for. *)
Definition rank (p : Permission.t) : nat :=
  match p with
  | Permission.Read => 0
  | Permission.Write => 1
  | Permission.Admin => 2
  | Permission.Owner => 3
  end.

(** The most a role of the member list grants. *)
Definition role_rank (r : Role) : nat :=
  match r with
  | Reader => 0
  | Manager => 1
  | Admin => 2
  end.

Lemma authorize_member_allow resource user p :
  authorize_member resource user p = Allow ↔
  ∃ m, im_get (default "" user) (res_members resource) = Some m ∧ rank p ≤ role_rank (role m).
Proof.
  unfold authorize_member. destruct (im_get _ _) as [[r]|]; [|naive_solver].
  destruct p, r; simpl; naive_solver lia.
Qed.

Lemma ensure_with_ok resource identity p f u :
  ensure_with resource identity p f = Ok u → authorize resource identity p = Allow.
Proof. unfold ensure_with. by destruct (authorize _ _ _). Qed.

Lemma authorize_spec resource identity p :
  authorize resource identity p = Allow ↔
  is_admin identity = true ∨
  res_owner resource = None ∨
  (is_Some (res_owner resource) ∧ res_owner resource = user_id identity) ∨
  (∃ m, im_get (default "" (user_id identity)) (res_members resource) = Some m ∧
        rank p ≤ role_rank (role m)).
Proof.
  unfold authorize. destruct (is_admin identity); [naive_solver|].
  assert (Hown : ∀ m, rank Permission.Owner ≤ role_rank (role m) → False)
    by (intros [[]]; simpl; lia).
  destruct (res_owner resource) as [o|]; [|naive_solver].
  destruct (user_id identity) as [u|]; simpl.
  - destruct (string_eqb_spec o u) as [->|]; [naive_solver|].
    case_bool_decide; subst; [|rw authorize_member_allow]; naive_solver.
  - case_bool_decide; subst; [|rw authorize_member_allow]; naive_solver.
Qed.

(** C7: access is granted exactly to system administrators, to everyone if
    the resource has no owner, to the owner, and to a member (an anonymous
    user is the member with the empty name) whose role covers the permission;
    no role covers the owner permission. *)
Theorem authorize_allow_iff resource identity p :
  authorize resource identity p = Allow ↔
  is_admin identity = true ∨
  res_owner resource = None ∨
  (is_Some (res_owner resource) ∧ res_owner resource = user_id identity) ∨
  (∃ m, im_get (default "" (user_id identity)) (res_members resource) = Some m ∧
        rank p ≤ role_rank (role m)).
Proof. apply authorize_spec. Qed.

(** Permissions are ordered: whoever may own may administer, whoever may
    administer may write, whoever may write may read. *)
Theorem authorize_monotone resource identity p q :
  rank q ≤ rank p →
  authorize resource identity p = Allow → authorize resource identity q = Allow.
Proof. rw !authorize_spec. naive_solver lia. Qed.
End Authorize.
