(* ===== verification/CloudEvents.v ===== *)
(** * Cloud events

    The [cloudevents] SDK as the code uses it: the event as a record of
    attributes, extensions and data, and the V10 builder.  The SDK is a
    third-party crate: its [build] is a parameter, with the documented law that
    a builder with the required attributes builds the event it describes. *)

From S2P Require Import Prelude Json.

Module CE.
Inductive Data : Type :=
| Binary (b : string)
| String (s : string)
| Json (v : Value).

Inductive ExtensionValue : Type :=
| ExtString (s : string)
| ExtBoolean (b : bool)
| ExtInteger (z : Z).

Record Event := mkEvent {
  id : string;
  ty : string;
  source : string;
  subject : option string;
  time : option Z;
  datacontenttype : option string;
  dataschema : option string;
  data : option Data;
  extensions : gmap string ExtensionValue;
}.

(** [EventBuilderV10] *)
Record Builder := mkBuilder {
  b_id : option string;
  b_ty : option string;
  b_source : option string;
  b_subject : option string;
  b_time : option Z;
  b_datacontenttype : option string;
  b_data : option Data;
  b_extensions : gmap string ExtensionValue;
}.

Definition new : Builder := mkBuilder None None None None None None None ∅.

Definition with_id x b := mkBuilder (Some x) (b_ty b) (b_source b) (b_subject b) (b_time b)
  (b_datacontenttype b) (b_data b) (b_extensions b).
Definition with_ty x b := mkBuilder (b_id b) (Some x) (b_source b) (b_subject b) (b_time b)
  (b_datacontenttype b) (b_data b) (b_extensions b).
Definition with_source x b := mkBuilder (b_id b) (b_ty b) (Some x) (b_subject b) (b_time b)
  (b_datacontenttype b) (b_data b) (b_extensions b).
Definition with_subject x b := mkBuilder (b_id b) (b_ty b) (b_source b) (Some x) (b_time b)
  (b_datacontenttype b) (b_data b) (b_extensions b).
Definition with_time x b := mkBuilder (b_id b) (b_ty b) (b_source b) (b_subject b) (Some x)
  (b_datacontenttype b) (b_data b) (b_extensions b).
Definition with_data ct d b := mkBuilder (b_id b) (b_ty b) (b_source b) (b_subject b) (b_time b)
  (Some ct) (Some d) (b_extensions b).
Definition with_extension k v b := mkBuilder (b_id b) (b_ty b) (b_source b) (b_subject b)
  (b_time b) (b_datacontenttype b) (b_data b) (<[k := ExtString v]> (b_extensions b)).

(** [event.extension(name)] *)
Definition extension (k : string) (e : Event) : option ExtensionValue := extensions e !! k.

(** [Display for ExtensionValue] of a string value is the string. *)
Definition ext_to_string (v : ExtensionValue) : string :=
  match v with
  | ExtString s => s
  | ExtBoolean b => if b then "true" else "false"
  | ExtInteger z => pretty.pretty z
  end.
End CE.

(** The builder's [build]; the error is the SDK's. *)
Class CloudEventsSdk := {
  ce_build : CE.Builder → result CE.Event string;
}.

Class CloudEventsLaws `{CloudEventsSdk} := {
  ce_build_ok b i t s :
    CE.b_id b = Some i → CE.b_ty b = Some t → CE.b_source b = Some s →
    ce_build b = Ok (CE.mkEvent i t s (CE.b_subject b) (CE.b_time b) (CE.b_datacontenttype b)
                      None (CE.b_data b) (CE.b_extensions b));
}.

(** A builder that checks the required attributes and nothing else: it shows
    that the law can hold. *)
Definition ref_build (b : CE.Builder) : result CE.Event string :=
  match CE.b_id b, CE.b_ty b, CE.b_source b with
  | Some i, Some t, Some s =>
      Ok (CE.mkEvent i t s (CE.b_subject b) (CE.b_time b) (CE.b_datacontenttype b)
            None (CE.b_data b) (CE.b_extensions b))
  | _, _, _ => Err "missing required attribute"
  end.

Definition ref_sdk : CloudEventsSdk := {| ce_build := ref_build |}.

Lemma ref_sdk_laws : @CloudEventsLaws ref_sdk.
Proof. constructor. intros b i t s Hi Ht Hs. simpl. unfold ref_build. by rw Hi Ht Hs. Qed.

(** Extension names the services use, [service-api/src/id.rs]. *)
Definition EXT_INSTANCE : string := "instance".
Definition EXT_APPLICATION : string := "application".
Definition EXT_DEVICE : string := "device".
Definition EXT_SENDER : string := "sender".
Definition EXT_APPLICATION_UID : string := "applicationuid".
Definition EXT_DEVICE_UID : string := "deviceuid".
Definition EXT_SENDER_UID : string := "senderuid".
Definition EXT_PARTITIONKEY : string := "partitionkey".

(** [service-common/src/id.rs]: the scoped device id of an event. *)
Record Id := mkId { app_id : string; device_id : string }.

#[global] Instance Id_eq_dec : EqDecision Id.
Proof. solve_decision. Defined.
#[global] Instance Id_countable : Countable Id.
Proof.
  apply (inj_countable' (λ i, (app_id i, device_id i)) (λ p, mkId p.1 p.2)). by intros [].
Defined.

Definition id_from_event (e : CE.Event) : option Id :=
  match CE.extension EXT_APPLICATION e, CE.extension EXT_DEVICE e with
  | Some (CE.ExtString a), Some (CE.ExtString d) => Some (mkId a d)
  | _, _ => None
  end.

(** [IdInjector::inject] *)
Definition inject (i : Id) (b : CE.Builder) : CE.Builder :=
  CE.with_extension EXT_DEVICE (device_id i) (CE.with_extension EXT_APPLICATION (app_id i) b).
