(* ===== verification/Events.v ===== *)
(** * Registry events

    [registry-events/src/lib.rs] and [registry-events/src/db.rs]: the change
    events of the registry, their transport encoding as cloud events, and
    their persisted form, the outbox entry of
    [database-common/src/models/outbox.rs]. *)

From S2P Require Import Prelude Json CloudEvents.

Module Event.
Inductive t : Type :=
| Application (instance application uid path : string) (revision : Z)
| Device (instance application device uid path : string) (revision : Z).

Definition revision (e : t) : Z :=
  match e with
  | Application _ _ _ _ r => r
  | Device _ _ _ _ _ r => r
  end.

Definition path (e : t) : string :=
  match e with
  | Application _ _ _ p _ => p
  | Device _ _ _ _ p _ => p
  end.

Definition uid (e : t) : string :=
  match e with
  | Application _ _ u _ _ => u
  | Device _ _ _ u _ _ => u
  end.
End Event.

#[global] Instance Event_eq_dec : EqDecision Event.t.
Proof. solve_decision. Defined.

Definition EVENT_TYPE_APPLICATION : string := "io.drogue.registry.change.application".
Definition EVENT_TYPE_DEVICE : string := "io.drogue.registry.change.device".

Inductive EventError : Type :=
| Parse (msg : string)
| Builder (err : string)
| UnknownType (ty : string).

Definition missing_field (field : string) : EventError :=
  Parse ("Missing field: '" +:+ field +:+ "'").

(** ** Creating events *)

Definition new_change (paths : list string) (c : string → Event.t) : list Event.t :=
  match paths with
  | [] => [c "."]
  | _ => map c paths
  end.

Definition new_app (instance app uid : string) (revision : Z) (paths : list string)
    : list Event.t :=
  new_change paths (λ path, Event.Application instance app uid path revision).

Definition new_device (instance app device uid : string) (revision : Z) (paths : list string)
    : list Event.t :=
  new_change paths (λ path, Event.Device instance app device uid path revision).

(** ** The cloud event encoding *)

(** [EventData], and its derived serde codec: [revision] may be spelled
    [generation] when decoding. *)
Record EventData := mkEventData { ed_revision : Z; ed_uid : string }.

Definition encode_data (d : EventData) : Value :=
  Object [("revision", Number (ed_revision d)); ("uid", Str (ed_uid d))].

Definition decode_data (v : Value) : option EventData :=
  match v with
  | Object m =>
      match (match map_get "revision" m with
             | Some r => Some r
             | None => map_get "generation" m
             end), map_get "uid" m with
      | Some (Number r), Some (Str u) =>
          if ((0 <=? r) && (r <? two64))%Z then Some (mkEventData r u) else None
      | _, _ => None
      end
  | _ => None
  end.

Section Transport.
Context `{CloudEventsSdk}.
(** [serde_json::from_slice] and [serde_json::from_str], up to the value. *)
Context (from_slice from_str : string → option Value).

Definition get_data (event : CE.Event) : result EventData EventError :=
  ok_or (Parse "Missing or unrecognized event payload")
    (match CE.data event with
     | Some (CE.Json json) => decode_data json
     | Some (CE.Binary json) => from_slice json ≫= decode_data
     | Some (CE.String json) => from_str json ≫= decode_data
     | None => None
     end).

Definition ext_field (field : string) (event : CE.Event) : result string EventError :=
  ok_or (missing_field field) (CE.ext_to_string <$> CE.extension field event).

Definition from_app (event : CE.Event) : result Event.t EventError :=
  let? data := get_data event in
  let? instance := ext_field EXT_INSTANCE event in
  let? application := ext_field EXT_APPLICATION event in
  let? path := ok_or (missing_field "subject") (CE.subject event) in
  Ok (Event.Application instance application (ed_uid data) path (ed_revision data)).

Definition from_device (event : CE.Event) : result Event.t EventError :=
  let? data := get_data event in
  let? instance := ext_field EXT_INSTANCE event in
  let? application := ext_field EXT_APPLICATION event in
  let? device := ext_field EXT_DEVICE event in
  let? path := ok_or (missing_field "subject") (CE.subject event) in
  Ok (Event.Device instance application device (ed_uid data) path (ed_revision data)).

(** [TryFrom<Event> for cloudevents::Event]; [fresh] is the new UUID's
    string, [now] the current time. *)
Definition into_cloud_event (fresh : string) (now : Z) (value : Event.t)
    : result CE.Event EventError :=
  let builder := CE.with_time now (CE.with_id fresh CE.new) in
  let builder :=
    match value with
    | Event.Application instance application uid path revision =>
        CE.with_data "application/json" (CE.Json (encode_data (mkEventData revision uid)))
        (CE.with_extension EXT_APPLICATION application
        (CE.with_extension EXT_INSTANCE instance
        (CE.with_extension EXT_PARTITIONKEY (instance +:+ "/" +:+ application)
        (CE.with_subject path
        (CE.with_source ("drogue:/" +:+ instance +:+ "/" +:+ application)
        (CE.with_ty EVENT_TYPE_APPLICATION builder))))))
    | Event.Device instance application device uid path revision =>
        CE.with_data "application/json" (CE.Json (encode_data (mkEventData revision uid)))
        (CE.with_extension EXT_DEVICE device
        (CE.with_extension EXT_APPLICATION application
        (CE.with_extension EXT_INSTANCE instance
        (CE.with_extension EXT_PARTITIONKEY
           (instance +:+ "/" +:+ application +:+ "/" +:+ device)
        (CE.with_subject path
        (CE.with_source ("drogue:/" +:+ instance +:+ "/" +:+ application +:+ "/" +:+ device)
        (CE.with_ty EVENT_TYPE_DEVICE builder)))))))
    end in
  map_err Builder (ce_build builder).

(** [TryFrom<cloudevents::Event> for Event] *)
Definition from_cloud_event (event : CE.Event) : result Event.t EventError :=
  if string_eqb (CE.ty event) EVENT_TYPE_APPLICATION then from_app event
  else if string_eqb (CE.ty event) EVENT_TYPE_DEVICE then from_device event
  else Err (UnknownType (CE.ty event)).

Lemma get_data_encoded e r u :
  is_u64 r → CE.data e = Some (CE.Json (encode_data (mkEventData r u))) →
  get_data e = Ok (mkEventData r u).
Proof.
  intros Hr He. unfold is_u64 in Hr.
  assert (E : ((0 <=? r) && (r <? two64))%Z = true) by lia.
  unfold get_data. rw He. cbn [encode_data decode_data ed_revision ed_uid].
  change (map_get "revision" _) with (Some (Number r)).
  change (map_get "uid" _) with (Some (Str u)). cbn match. by rw E.
Qed.

(** C36: a registry event survives its transport encoding: decoding the cloud
    event it is sent as gives back the event, for applications and devices,
    for every revision of a [u64]. *)
Theorem event_cloud_roundtrip `{!CloudEventsLaws} fresh now ev :
  is_u64 (Event.revision ev) →
  ∃ ce, into_cloud_event fresh now ev = Ok ce ∧ from_cloud_event ce = Ok ev.
Proof.
  intros Hr. destruct ev as [i a u p r|i a d u p r]; unfold into_cloud_event.
  all: erewrite ce_build_ok by reflexivity; eexists; split; [reflexivity|].
  all: unfold from_cloud_event, from_app, from_device, ext_field, CE.extension.
  all: erewrite (get_data_encoded _ r u Hr) by reflexivity.
  all: cbn -[string_eqb EXT_INSTANCE EXT_APPLICATION EXT_DEVICE EXT_PARTITIONKEY].
  all: rw ?string_eqb_refl //=.
  all: rw ?(proj2 (not_true_iff_false (string_eqb EVENT_TYPE_DEVICE EVENT_TYPE_APPLICATION)))
    //=.
  all: by simplify_map_eq.
Qed.
End Transport.

(** ** The outbox form *)

Record OutboxEntry := mkOutboxEntry {
  oe_instance : string;
  oe_app : string;
  oe_device : option string;
  oe_path : string;
  oe_revision : Z;
  oe_uid : string;
}.

(** [From<Event> for OutboxEntry] *)
Definition entry_of_event (e : Event.t) : OutboxEntry :=
  match e with
  | Event.Application instance application uid path revision =>
      mkOutboxEntry instance application None path revision uid
  | Event.Device instance application device uid path revision =>
      mkOutboxEntry instance application (Some device) path revision uid
  end.

(** [From<OutboxEntry> for Event] *)
Definition event_of_entry (entry : OutboxEntry) : Event.t :=
  match oe_device entry with
  | Some device =>
      Event.Device (oe_instance entry) (oe_app entry) device (oe_uid entry) (oe_path entry)
        (oe_revision entry)
  | None =>
      Event.Application (oe_instance entry) (oe_app entry) (oe_uid entry) (oe_path entry)
        (oe_revision entry)
  end.

Lemma event_of_entry_of_event e : event_of_entry (entry_of_event e) = e.
Proof. by destruct e. Qed.

Lemma new_change_revision paths c r e :
  (∀ p, Event.revision (c p) = r) → e ∈ new_change paths c → Event.revision e = r.
Proof.
  intros Hc. unfold new_change. destruct paths as [|p ps].
  - intros ->%list_elem_of_singleton. apply Hc.
  - intros (q & -> & _)%list_elem_of_fmap. apply Hc.
Qed.

Lemma new_change_nonempty paths c : new_change paths c ≠ [].
Proof. by destruct paths. Qed.
