(* ===== verification/Store.v ===== *)
(** * The registry database

    The tables of [database-common/migrations] and the two accessors of
    [database-common/src/models/app.rs] and
    [database-common/src/models/device.rs].  A table is a finite map from its
    primary key to the row; every SQL statement of the accessors is a function
    on the tables, with the primary key, foreign key and [ON DELETE CASCADE]
    behaviour the migrations declare.  The lengths of the VARCHAR columns are
    not modelled.  Random UUIDs and the current time are arguments. *)

From S2P Require Import Prelude Json Versioning Auth Events.

(** ** UUIDs

    The [uuid] crate prints and parses them. *)

Abbreviation Uuid := Z.
Definition uuid_nil : Uuid := 0%Z.

Class UuidCodec := {
  uuid_to_string : Uuid → string;
  uuid_parse_str : string → option Uuid;
}.

Class UuidLaws `{UuidCodec} := {
  uuid_parse_to_string u : uuid_parse_str (uuid_to_string u) = Some u;
  uuid_parse_empty : uuid_parse_str "" = None;
}.

(** A codec for concrete runs: the binary digits. *)
Fixpoint bits_of (p : positive) : string :=
  match p with
  | xH => "h"
  | xO p => String "0"%char (bits_of p)
  | xI p => String "1"%char (bits_of p)
  end.

Fixpoint parse_bits (s : string) : option positive :=
  match s with
  | String "h"%char EmptyString => Some xH
  | String "0"%char s => xO <$> parse_bits s
  | String "1"%char s => xI <$> parse_bits s
  | _ => None
  end.

Definition bits_codec : UuidCodec := {|
  uuid_to_string u :=
    match u with
    | Z0 => "z"
    | Zpos p => String "p"%char (bits_of p)
    | Zneg p => String "n"%char (bits_of p)
    end;
  uuid_parse_str s :=
    match s with
    | String "z"%char EmptyString => Some Z0
    | String "p"%char s => Zpos <$> parse_bits s
    | String "n"%char s => Zneg <$> parse_bits s
    | _ => None
    end;
|}.

Lemma parse_bits_of p : parse_bits (bits_of p) = Some p.
Proof. induction p as [p IH|p IH|]; simpl; [by rw IH..|done]. Qed.

#[global] Instance bits_codec_laws : @UuidLaws bits_codec.
Proof. split; [|done]. intros [|p|p]; simpl; by rw ?parse_bits_of. Qed.

(** ** Entities *)

Record TypedAlias := mkAlias { alias_type : string; alias_value : string }.

#[global] Instance TypedAlias_eq_dec : EqDecision TypedAlias.
Proof. solve_decision. Defined.
#[global] Instance TypedAlias_countable : Countable TypedAlias.
Proof.
  apply (inj_countable' (λ a, (alias_type a, alias_value a)) (λ p, mkAlias p.1 p.2)).
  by intros [].
Defined.

Module App.
Record t := mk {
  uid : Uuid;
  name : string;
  labels : gmap string string;
  annotations : gmap string string;
  creation_timestamp : Z;
  resource_version : Uuid;
  generation : Z;
  revision : Z;
  deletion_timestamp : option Z;
  finalizers : list string;
  owner : option string;
  transfer_owner : option string;
  members : list (string * MemberEntry);
  data : Value;
}.

Definition set_uid x a := mk x (name a) (labels a) (annotations a) (creation_timestamp a)
  (resource_version a) (generation a) (revision a) (deletion_timestamp a) (finalizers a)
  (owner a) (transfer_owner a) (members a) (data a).
Definition set_generation_f x a := mk (uid a) (name a) (labels a) (annotations a)
  (creation_timestamp a) (resource_version a) x (revision a) (deletion_timestamp a)
  (finalizers a) (owner a) (transfer_owner a) (members a) (data a).
Definition set_revision_f x a := mk (uid a) (name a) (labels a) (annotations a)
  (creation_timestamp a) (resource_version a) (generation a) x (deletion_timestamp a)
  (finalizers a) (owner a) (transfer_owner a) (members a) (data a).
Definition set_deletion x a := mk (uid a) (name a) (labels a) (annotations a)
  (creation_timestamp a) (resource_version a) (generation a) (revision a) x
  (finalizers a) (owner a) (transfer_owner a) (members a) (data a).
Definition set_finalizers x a := mk (uid a) (name a) (labels a) (annotations a)
  (creation_timestamp a) (resource_version a) (generation a) (revision a)
  (deletion_timestamp a) x (owner a) (transfer_owner a) (members a) (data a).
Definition set_owner x a := mk (uid a) (name a) (labels a) (annotations a)
  (creation_timestamp a) (resource_version a) (generation a) (revision a)
  (deletion_timestamp a) (finalizers a) x (transfer_owner a) (members a) (data a).
End App.

Module Dev.
Record t := mk {
  application : string;
  uid : Uuid;
  name : string;
  labels : gmap string string;
  annotations : gmap string string;
  creation_timestamp : Z;
  resource_version : Uuid;
  generation : Z;
  revision : Z;
  deletion_timestamp : option Z;
  finalizers : list string;
  data : Value;
}.

Definition set_uid x d := mk (application d) x (name d) (labels d) (annotations d)
  (creation_timestamp d) (resource_version d) (generation d) (revision d)
  (deletion_timestamp d) (finalizers d) (data d).
Definition set_generation_f x d := mk (application d) (uid d) (name d) (labels d)
  (annotations d) (creation_timestamp d) (resource_version d) x (revision d)
  (deletion_timestamp d) (finalizers d) (data d).
Definition set_revision_f x d := mk (application d) (uid d) (name d) (labels d)
  (annotations d) (creation_timestamp d) (resource_version d) (generation d) x
  (deletion_timestamp d) (finalizers d) (data d).
Definition set_deletion x d := mk (application d) (uid d) (name d) (labels d)
  (annotations d) (creation_timestamp d) (resource_version d) (generation d) (revision d)
  x (finalizers d) (data d).
End Dev.

(** The traits of the entities: [diffable!], [generation!], [revision!]. *)
#[global] Instance app_generation : Generation App.t :=
  {| generation := App.generation; put_generation := App.set_generation_f |}.
#[global] Instance app_revision : Revision App.t :=
  {| revision := App.revision; put_revision := App.set_revision_f |}.
#[global] Instance app_versioned : VersionedLaws App.t.
Proof. by split. Qed.
#[global] Instance app_diffable : Diffable App.t :=
  {| labels := App.labels; annotations := App.annotations;
     finalizers := App.finalizers; data := App.data |}.
#[global] Instance app_resource : Resource App.t :=
  {| res_owner := App.owner; res_members := App.members |}.

#[global] Instance dev_generation : Generation Dev.t :=
  {| generation := Dev.generation; put_generation := Dev.set_generation_f |}.
#[global] Instance dev_revision : Revision Dev.t :=
  {| revision := Dev.revision; put_revision := Dev.set_revision_f |}.
#[global] Instance dev_versioned : VersionedLaws Dev.t.
Proof. by split. Qed.
#[global] Instance dev_diffable : Diffable Dev.t :=
  {| labels := Dev.labels; annotations := Dev.annotations;
     finalizers := Dev.finalizers; data := Dev.data |}.

(** ** Rows and tables

    BIGINT columns hold the [i64] cast of the counters; LABELS, ANNOTATIONS
    and MEMBERS are nullable. *)

Record AppRow := mkAppRow {
  ar_uid : Uuid;
  ar_labels : option (gmap string string);
  ar_annotations : option (gmap string string);
  ar_creation_timestamp : Z;
  ar_resource_version : Uuid;
  ar_generation : Z;
  ar_revision : Z;
  ar_deletion_timestamp : option Z;
  ar_finalizers : list string;
  ar_owner : option string;
  ar_transfer_owner : option string;
  ar_members : option (list (string * MemberEntry));
  ar_data : Value;
}.

Record DevRow := mkDevRow {
  dr_uid : Uuid;
  dr_labels : option (gmap string string);
  dr_annotations : option (gmap string string);
  dr_creation_timestamp : Z;
  dr_resource_version : Uuid;
  dr_generation : Z;
  dr_revision : Z;
  dr_deletion_timestamp : option Z;
  dr_finalizers : list string;
  dr_data : Value;
}.

Record OutboxRow := mkOutboxRow {
  or_instance : string;
  or_uid : string;
  or_revision : Z;
  or_ts : Z;
}.

(** Primary keys: applications by name, application aliases by alias, devices
    by application and name, device aliases by application and alias, outbox
    entries by application, device and path. *)
Record Db := mkDb {
  applications : gmap string AppRow;
  application_aliases : gmap string (string * string);
  devices : gmap (string * string) DevRow;
  device_aliases : gmap (string * string) (string * string);
  outbox : gmap (string * string * string) OutboxRow;
}.

Definition with_applications x db :=
  mkDb x (application_aliases db) (devices db) (device_aliases db) (outbox db).
Definition with_application_aliases x db :=
  mkDb (applications db) x (devices db) (device_aliases db) (outbox db).
Definition with_devices x db :=
  mkDb (applications db) (application_aliases db) x (device_aliases db) (outbox db).
Definition with_device_aliases x db :=
  mkDb (applications db) (application_aliases db) (devices db) x (outbox db).
Definition with_outbox x db :=
  mkDb (applications db) (application_aliases db) (devices db) (device_aliases db) x.

Definition empty_db : Db := mkDb ∅ ∅ ∅ ∅ ∅.

(** [update_aliases!]: nothing found, found without alias change, found with
    an alias change. *)
Definition update_aliases (count : Z) {A} (aliases : option A)
    (code : A → result Db ServiceError) (db : Db) : result Db ServiceError :=
  match (0 <? count)%Z, aliases with
  | true, Some a => code a
  | true, None => Ok db
  | false, _ => Err NotFound
  end.

(** ** [PostgresApplicationAccessor] *)

Module AppAccessor.
Definition from_row (name : string) (row : AppRow) : App.t :=
  App.mk (ar_uid row) name (default ∅ (ar_labels row)) (default ∅ (ar_annotations row))
    (ar_creation_timestamp row) (ar_resource_version row)
    (as_u64 (ar_generation row)) (as_u64 (ar_revision row))
    (ar_deletion_timestamp row) (ar_finalizers row) (ar_owner row) (ar_transfer_owner row)
    (default [] (ar_members row)) (ar_data row).

Definition get (name : string) (db : Db) : option App.t :=
  from_row name <$> applications db !! name.

(** The join of the alias table with the applications. *)
Definition lookup (alias : string) (db : Db) : option App.t :=
  match application_aliases db !! alias with
  | Some (_, app) => get app db
  | None => None
  end.

(** One INSERT per alias; a present alias violates the primary key. *)
Fixpoint insert_aliases (id : string) (aliases : list TypedAlias) (db : Db)
    : result Db ServiceError :=
  match aliases with
  | [] => Ok db
  | a :: rest =>
      match application_aliases db !! alias_value a with
      | Some _ => Err (Database (Some UNIQUE_VIOLATION))
      | None =>
          insert_aliases id rest
            (with_application_aliases
               (<[alias_value a := (alias_type a, id)]> (application_aliases db)) db)
      end
  end.

(** DELETE, cascading to the aliases, the devices and their aliases. *)
Definition delete_row (id : string) (db : Db) : Db :=
  mkDb (base.delete id (applications db))
    (filter (λ '(_, (_, app)), app ≠ id) (application_aliases db))
    (filter (λ '((app, _), _), app ≠ id) (devices db))
    (filter (λ '((app, _), _), app ≠ id) (device_aliases db))
    (outbox db).

Definition delete (id : string) (db : Db) : result Db ServiceError :=
  match applications db !! id with
  | Some _ => Ok (delete_row id db)
  | None => Err NotFound
  end.

(** [create]: TRANSFER_OWNER, MEMBERS and DELETION_TIMESTAMP are not part of
    the INSERT. [fresh] is the new resource version. *)
Definition create (now : Z) (fresh : Uuid) (a : App.t) (aliases : list TypedAlias) (db : Db)
    : result Db ServiceError :=
  match applications db !! App.name a with
  | Some _ => Err (Database (Some UNIQUE_VIOLATION))
  | None =>
      let row := mkAppRow (App.uid a) (Some (App.labels a)) (Some (App.annotations a)) now fresh
        (as_i64 (App.generation a)) (as_i64 (App.revision a)) None (App.finalizers a)
        (App.owner a) None None (App.data a) in
      insert_aliases (App.name a) aliases
        (with_applications (<[App.name a := row]> (applications db)) db)
  end.

(** The UPDATE of [update_data] on the row it finds. *)
Definition updated_row (fresh : Uuid) (a : App.t) (row : AppRow) : AppRow :=
  mkAppRow (ar_uid row) (Some (App.labels a)) (Some (App.annotations a))
    (ar_creation_timestamp row) fresh (as_i64 (App.generation a)) (as_i64 (App.revision a))
    (App.deletion_timestamp a) (App.finalizers a) (ar_owner row) (ar_transfer_owner row)
    (ar_members row) (App.data a).

Definition clear_aliases (id : string) (db : Db) : Db :=
  with_application_aliases (filter (λ '(_, (_, app)), app ≠ id) (application_aliases db)) db.

Definition update_data (fresh : Uuid) (a : App.t) (aliases : option (list TypedAlias)) (db : Db)
    : result Db ServiceError :=
  match applications db !! App.name a with
  | Some row =>
      let db :=
        with_applications (<[App.name a := updated_row fresh a row]> (applications db)) db in
      update_aliases 1 aliases
        (λ al, insert_aliases (App.name a) al (clear_aliases (App.name a) db)) db
  | None => update_aliases 0 aliases (λ _, Ok db) db
  end.

(** [update_transfer] and [set_members] return the number of rows, which no
    caller looks at. *)
Definition update_transfer (app : string) (owner transfer_owner : option string) (db : Db) : Db :=
  with_applications
    (alter (λ r, mkAppRow (ar_uid r) (ar_labels r) (ar_annotations r) (ar_creation_timestamp r)
        (ar_resource_version r) (ar_generation r) (ar_revision r) (ar_deletion_timestamp r)
        (ar_finalizers r) owner transfer_owner (ar_members r) (ar_data r))
      app (applications db)) db.

Definition set_members (app : string) (m : list (string * MemberEntry)) (db : Db) : Db :=
  with_applications
    (alter (λ r, mkAppRow (ar_uid r) (ar_labels r) (ar_annotations r) (ar_creation_timestamp r)
        (ar_resource_version r) (ar_generation r) (ar_revision r) (ar_deletion_timestamp r)
        (ar_finalizers r) (ar_owner r) (ar_transfer_owner r) (Some m) (ar_data r))
      app (applications db)) db.
End AppAccessor.

(** ** [PostgresDeviceAccessor] *)

Module DevAccessor.
Definition from_row (app name : string) (row : DevRow) : Dev.t :=
  Dev.mk app (dr_uid row) name (default ∅ (dr_labels row)) (default ∅ (dr_annotations row))
    (dr_creation_timestamp row) (dr_resource_version row)
    (as_u64 (dr_generation row)) (as_u64 (dr_revision row))
    (dr_deletion_timestamp row) (dr_finalizers row) (dr_data row).

Definition get (app name : string) (db : Db) : option Dev.t :=
  from_row app name <$> devices db !! (app, name).

Definition lookup (app alias : string) (db : Db) : option Dev.t :=
  match device_aliases db !! (app, alias) with
  | Some (_, device) => get app device db
  | None => None
  end.

Fixpoint insert_aliases (app device : string) (aliases : list TypedAlias) (db : Db)
    : result Db ServiceError :=
  match aliases with
  | [] => Ok db
  | a :: rest =>
      match device_aliases db !! (app, alias_value a) with
      | Some _ => Err (Database (Some UNIQUE_VIOLATION))
      | None =>
          insert_aliases app device rest
            (with_device_aliases
               (<[(app, alias_value a) := (alias_type a, device)]> (device_aliases db)) db)
      end
  end.

Definition clear_aliases (app device : string) (db : Db) : Db :=
  with_device_aliases
    (filter (λ '((a, _), (_, d)), ¬ (a = app ∧ d = device)) (device_aliases db)) db.

Definition delete (app device : string) (db : Db) : result Db ServiceError :=
  match devices db !! (app, device) with
  | Some _ =>
      Ok (clear_aliases app device (with_devices (base.delete (app, device) (devices db)) db))
  | None => Err NotFound
  end.

(** [create]: the INSERT does not list the UID column, whose default is
    [gen_random_uuid()]: [db_uid] is the value the database draws. *)
Definition create (now : Z) (fresh db_uid : Uuid) (d : Dev.t) (aliases : list TypedAlias)
    (db : Db) : result Db ServiceError :=
  match devices db !! (Dev.application d, Dev.name d) with
  | Some _ => Err (Database (Some UNIQUE_VIOLATION))
  | None =>
      match applications db !! Dev.application d with
      | None => Err (Database (Some FOREIGN_KEY_VIOLATION))
      | Some _ =>
          let row := mkDevRow db_uid (Some (Dev.labels d)) (Some (Dev.annotations d)) now fresh
            (as_i64 (Dev.generation d)) (as_i64 (Dev.revision d)) None (Dev.finalizers d)
            (Dev.data d) in
          insert_aliases (Dev.application d) (Dev.name d) aliases
            (with_devices (<[(Dev.application d, Dev.name d) := row]> (devices db)) db)
      end
  end.

Definition updated_row (fresh : Uuid) (d : Dev.t) (row : DevRow) : DevRow :=
  mkDevRow (dr_uid row) (Some (Dev.labels d)) (Some (Dev.annotations d))
    (dr_creation_timestamp row) fresh (as_i64 (Dev.generation d)) (as_i64 (Dev.revision d))
    (Dev.deletion_timestamp d) (Dev.finalizers d) (Dev.data d).

Definition update (fresh : Uuid) (d : Dev.t) (aliases : option (list TypedAlias)) (db : Db)
    : result Db ServiceError :=
  let key := (Dev.application d, Dev.name d) in
  match devices db !! key with
  | Some row =>
      let db := with_devices (<[key := updated_row fresh d row]> (devices db)) db in
      update_aliases 1 aliases
        (λ al, insert_aliases (Dev.application d) (Dev.name d) al
                 (clear_aliases (Dev.application d) (Dev.name d) db)) db
  | None => update_aliases 0 aliases (λ _, Ok db) db
  end.

(** [count_devices] *)
Definition count_devices (app : string) (db : Db) : Z :=
  Z.of_nat (size (filter (λ '((a, _), _), a = app) (devices db))).

(** A device [delete_app] removes: of the application, without finalizers. *)
Definition removable (app : string) (key : string * string) (row : DevRow) : Prop :=
  key.1 = app ∧ dr_finalizers row = [].

#[global] Instance removable_dec app key row : Decision (removable app key row).
Proof. unfold removable. apply _. Defined.

(** [delete_app]: DELETE the devices without finalizers (cascading to their
    aliases), then count the remaining ones. *)
Definition delete_app (app : string) (db : Db) : Db * Z :=
  let gone := filter (λ '(key, row), removable app key row) (devices db) in
  let db := with_device_aliases
    (filter (λ '((a, _), (_, d)), gone !! (a, d) = None) (device_aliases db))
    (with_devices (filter (λ '(key, row), ¬ removable app key row) (devices db)) db) in
  (db, count_devices app db).
End DevAccessor.

(** ** Facts about the statements *)

(** Inserting aliases one by one: all of them are there afterwards, nothing
    else changed, and none of them was there before. *)
Lemma app_insert_aliases_ok id l db db' :
  AppAccessor.insert_aliases id l db = Ok db' →
  applications db' = applications db ∧ devices db' = devices db ∧
  device_aliases db' = device_aliases db ∧ outbox db' = outbox db ∧
  (∀ a, a ∈ l → application_aliases db' !! alias_value a = Some (alias_type a, id)) ∧
  (∀ k v, application_aliases db !! k = Some v → application_aliases db' !! k = Some v) ∧
  (∀ k v, application_aliases db' !! k = Some v →
     application_aliases db !! k = Some v ∨ v.2 = id).
Proof.
  revert db. induction l as [|a l IH]; intros db H; simpl in H.
  - simplify_eq. split_and!; try done; [set_solver|auto].
  - destruct (application_aliases db !! alias_value a) eqn:Ha; [done|].
    apply IH in H as (Ha1 & Hd1 & Hda1 & Ho1 & Hin & Hkeep & Hold); simpl in *.
    split_and!; try done.
    + intros a' [->|Hin']%elem_of_cons; [|by apply Hin]. apply Hkeep. by simplify_map_eq.
    + intros k v Hk. apply Hkeep. rw lookup_insert_ne; [congruence|done].
    + intros k v [Hk|]%Hold; [|by right].
      apply lookup_insert_Some in Hk as [[_ <-]|[_ ?]]; [by right|by left].
Qed.

Lemma dev_insert_aliases_ok app id l db db' :
  DevAccessor.insert_aliases app id l db = Ok db' →
  applications db' = applications db ∧ devices db' = devices db ∧
  application_aliases db' = application_aliases db ∧ outbox db' = outbox db ∧
  (∀ a, a ∈ l → device_aliases db' !! (app, alias_value a) = Some (alias_type a, id)) ∧
  (∀ k v, device_aliases db !! k = Some v → device_aliases db' !! k = Some v) ∧
  (∀ k v, device_aliases db' !! k = Some v →
     device_aliases db !! k = Some v ∨ k.1 = app ∧ v.2 = id).
Proof.
  revert db. induction l as [|a l IH]; intros db H; simpl in H.
  - simplify_eq. split_and!; try done; [set_solver|auto].
  - destruct (device_aliases db !! (app, alias_value a)) eqn:Ha; [done|].
    apply IH in H as (Ha1 & Hd1 & Hda1 & Ho1 & Hin & Hkeep & Hold); simpl in *.
    split_and!; try done.
    + intros a' [->|Hin']%elem_of_cons; [|by apply Hin]. apply Hkeep. by simplify_map_eq.
    + intros k v Hk. apply Hkeep. rw lookup_insert_ne; [congruence|done].
    + intros k v [Hk|]%Hold; [|by right].
      apply lookup_insert_Some in Hk as [[<- <-]|[_ ?]]; [by right|by left].
Qed.

(** ** The database invariant *)

(** A record marked for deletion still has finalizers (else it would be gone),
    and never had more generations than revisions. *)
Definition row_counters_ok (generation revision : Z) : Prop :=
  (as_u64 generation ≤ as_u64 revision)%Z.
Definition app_row_ok (row : AppRow) : Prop :=
  (is_Some (ar_deletion_timestamp row) → ar_finalizers row ≠ []) ∧
  row_counters_ok (ar_generation row) (ar_revision row).
Definition dev_row_ok (row : DevRow) : Prop :=
  (is_Some (dr_deletion_timestamp row) → dr_finalizers row ≠ []) ∧
  row_counters_ok (dr_generation row) (dr_revision row).

(** Referential integrity, names are aliases, and the rows are well-formed. *)
Record db_ok (db : Db) : Prop := {
  ok_app_alias k v : application_aliases db !! k = Some v → is_Some (applications db !! v.2);
  ok_device_app k row : devices db !! k = Some row → is_Some (applications db !! k.1);
  ok_dev_alias k v : device_aliases db !! k = Some v → is_Some (devices db !! (k.1, v.2));
  ok_app_name n row : applications db !! n = Some row →
    application_aliases db !! n = Some ("name", n);
  ok_dev_name a n row : devices db !! (a, n) = Some row →
    device_aliases db !! (a, n) = Some ("name", n);
  ok_app_row n row : applications db !! n = Some row → app_row_ok row;
  ok_dev_row k row : devices db !! k = Some row → dev_row_ok row;
}.

Lemma empty_db_ok : db_ok empty_db.
Proof. by split. Qed.

Lemma db_ok_outbox t db : db_ok db → db_ok (with_outbox t db).
Proof. by intros []; split. Qed.

Lemma app_create_ok now fresh a al db db' :
  db_ok db → AppAccessor.create now fresh a al db = Ok db' →
  mkAlias "name" (App.name a) ∈ al → App.generation a = 0%Z → App.revision a = 0%Z →
  db_ok db'.
Proof.
  intros [] Hc Hname Hg Hr. unfold AppAccessor.create in Hc.
  destruct (applications db !! App.name a) eqn:Hnone; [done|].
  apply app_insert_aliases_ok in Hc as (Ha & Hd & Hda & _ & Hin & Hkeep & Hold); simpl in *.
  assert (Hsome : ∀ k, is_Some (applications db !! k) → is_Some (applications db' !! k)).
  { intros k. rw Ha lookup_insert_is_Some'. by right. }
  split; rw ?Hd ?Hda; intros; eauto.
  - apply Hold in H as [H|H]; [by eauto|]. rw H Ha lookup_insert_is_Some'. by left.
  - rw Ha in H. apply lookup_insert_Some in H as [[<- _]|[_ ?]]; [by apply (Hin _ Hname)|eauto].
  - rw Ha in H. apply lookup_insert_Some in H as [[_ <-]|[_ ?]]; [|eauto].
    rw Hg Hr. split; [by intros []|]. unfold row_counters_ok; simpl. done.
Qed.

Lemma app_update_ok fresh a al db db' :
  db_ok db → AppAccessor.update_data fresh a al db = Ok db' →
  (∀ l, al = Some l → mkAlias "name" (App.name a) ∈ l) →
  (∀ row, applications db !! App.name a = Some row → app_row_ok (AppAccessor.updated_row fresh a row)) →
  db_ok db'.
Proof.
  intros [] Hu Hname Hrow. unfold AppAccessor.update_data in Hu.
  destruct (applications db !! App.name a) as [row|] eqn:Hsome; [|done].
  specialize (Hrow row eq_refl).
  set (row' := AppAccessor.updated_row fresh a row) in *.
  set (apps := <[App.name a := row']> (applications db)) in *.
  assert (Hin : ∀ k, is_Some (applications db !! k) → is_Some (apps !! k)).
  { intros k. unfold apps. rw lookup_insert_is_Some'. by right. }
  assert (Hnam : ∀ n r, apps !! n = Some r → n = App.name a ∧ r = row' ∨
    n ≠ App.name a ∧ applications db !! n = Some r).
  { intros n r Hn. apply lookup_insert_Some in Hn as [[? ?]|[? ?]]; naive_solver. }
  destruct al as [l|]; simpl in Hu; [|injection Hu as <-].
  - apply app_insert_aliases_ok in Hu as (Ha & Hd & Hda & _ & Hal & Hkeep & Hold); simpl in *.
    split; rw ?Ha ?Hd ?Hda; intros; eauto.
    + apply Hold in H as [H|H]; [apply map_lookup_filter_Some in H as [H _]; eauto|].
      rw H. apply Hin. by rw Hsome.
    + apply Hnam in H as [[-> ->]|[Hne H]]; [by apply (Hal _ (Hname l eq_refl))|].
      apply Hkeep, map_lookup_filter_Some. split; [eauto|done].
    + apply Hnam in H as [[-> ->]|[Hne H]]; eauto.
  - split; simpl; intros; eauto.
    + apply Hnam in H as [[-> ->]|[Hne H]]; eauto.
    + apply Hnam in H as [[-> ->]|[Hne H]]; eauto.
Qed.

Lemma app_delete_ok id db db' :
  db_ok db → AppAccessor.delete id db = Ok db' → db_ok db'.
Proof.
  intros [] Hd. unfold AppAccessor.delete in Hd.
  destruct (applications db !! id) eqn:Hid; simplify_eq.
  split; simpl; intros *.
  - intros [H Hne]%map_lookup_filter_Some. destruct v as [ty app]; simpl in *.
    rw lookup_delete_ne; [done|]. apply (ok_app_alias0 _ _ H).
  - intros [H Hne]%map_lookup_filter_Some. destruct k as [app d]; simpl in *.
    rw lookup_delete_ne; [done|]. apply (ok_device_app0 _ _ H).
  - intros [H Hne]%map_lookup_filter_Some. destruct k as [app al], v as [ty d]; simpl in *.
    destruct (ok_dev_alias0 _ _ H) as [r Hr]. exists r. by apply map_lookup_filter_Some.
  - intros [Hne H]%lookup_delete_Some. apply map_lookup_filter_Some. split; [eauto|done].
  - intros [H Hne]%map_lookup_filter_Some. apply map_lookup_filter_Some. split; [eauto|done].
  - intros [Hne H]%lookup_delete_Some. eauto.
  - intros [H Hne]%map_lookup_filter_Some. eauto.
Qed.

Lemma dev_create_ok now fresh u d al db db' :
  db_ok db → DevAccessor.create now fresh u d al db = Ok db' →
  mkAlias "name" (Dev.name d) ∈ al → Dev.generation d = 0%Z → Dev.revision d = 0%Z →
  db_ok db'.
Proof.
  intros [] Hc Hname Hg Hr. unfold DevAccessor.create in Hc.
  destruct (devices db !! _) eqn:Hnone; [done|].
  destruct (applications db !! _) eqn:Happ; [|done].
  apply dev_insert_aliases_ok in Hc as (Ha & Hd & Haa & _ & Hin & Hkeep & Hold); simpl in *.
  assert (Hsome : ∀ k, is_Some (devices db !! k) → is_Some (devices db' !! k)).
  { intros k. rw Hd lookup_insert_is_Some'. by right. }
  split; rw ?Ha ?Haa; intros *; eauto.
  - rw Hd. intros [[<- _]|[_ ?]]%lookup_insert_Some; [by rw Happ|eauto].
  - intros [H|[-> ->]]%Hold; [by eauto|]. rw Hd lookup_insert_is_Some'. by left.
  - rw Hd. intros [[? _]|[_ ?]]%lookup_insert_Some; [simplify_eq; by apply (Hin _ Hname)|eauto].
  - rw Hd. intros [[_ <-]|[_ ?]]%lookup_insert_Some; [|eauto].
    rw Hg Hr. split; [by intros []|]. unfold row_counters_ok; simpl. done.
Qed.

Lemma dev_update_ok fresh d al db db' :
  db_ok db → DevAccessor.update fresh d al db = Ok db' →
  (∀ l, al = Some l → mkAlias "name" (Dev.name d) ∈ l) →
  (∀ row, devices db !! (Dev.application d, Dev.name d) = Some row →
     dev_row_ok (DevAccessor.updated_row fresh d row)) →
  db_ok db'.
Proof.
  intros [] Hu Hname Hrow. unfold DevAccessor.update in Hu.
  destruct (devices db !! _) as [row|] eqn:Hsome; [|done].
  specialize (Hrow row eq_refl).
  set (row' := DevAccessor.updated_row fresh d row) in *.
  set (key := (Dev.application d, Dev.name d)) in *.
  set (devs := <[key := row']> (devices db)) in *.
  assert (Hin : ∀ k, is_Some (devices db !! k) → is_Some (devs !! k)).
  { intros k. unfold devs. rw lookup_insert_is_Some'. by right. }
  assert (Hnam : ∀ n r, devs !! n = Some r → n = key ∧ r = row' ∨
    n ≠ key ∧ devices db !! n = Some r).
  { intros n r Hn. apply lookup_insert_Some in Hn as [[? ?]|[? ?]]; naive_solver. }
  destruct al as [l|]; simpl in Hu; [|injection Hu as <-].
  - apply dev_insert_aliases_ok in Hu as (Ha & Hd & Hda & _ & Hal & Hkeep & Hold); simpl in *.
    split; rw ?Ha ?Hd ?Hda; intros *; eauto.
    + intros [[-> ->]|[Hne H]]%Hnam; eauto.
    + intros [H|[-> ->]]%Hold; [apply map_lookup_filter_Some in H as [H _]; eauto|].
      apply Hin. by rw Hsome.
    + intros [[Hk ->]|[Hne H]]%Hnam.
      * unfold key in Hk. simplify_eq. by apply (Hal _ (Hname l eq_refl)).
      * apply Hkeep, map_lookup_filter_Some. split; [eauto|]. unfold key in Hne. naive_solver.
    + intros [[-> ->]|[Hne H]]%Hnam; eauto.
  - split; simpl; intros *; eauto.
    + intros [[-> ->]|[Hne H]]%Hnam; eauto.
    + intros [[Hk ->]|[Hne H]]%Hnam; eauto. unfold key in Hk. simplify_eq. eauto.
    + intros [[-> ->]|[Hne H]]%Hnam; eauto.
Qed.

Lemma dev_delete_ok app d db db' :
  db_ok db → DevAccessor.delete app d db = Ok db' → db_ok db'.
Proof.
  intros [] Hd. unfold DevAccessor.delete in Hd.
  destruct (devices db !! _) eqn:Hid; simplify_eq.
  split; simpl; intros *; eauto.
  - intros [Hne H]%lookup_delete_Some. eauto.
  - intros [H Hne]%map_lookup_filter_Some. destruct k as [a al], v as [ty dv]; simpl in *.
    rw lookup_delete_ne; [naive_solver|]. apply (ok_dev_alias0 _ _ H).
  - intros [Hne H]%lookup_delete_Some. apply map_lookup_filter_Some.
    split; [eauto|naive_solver].
  - intros [Hne H]%lookup_delete_Some. eauto.
Qed.

Lemma dev_delete_app_ok app db : db_ok db → db_ok (DevAccessor.delete_app app db).1.
Proof.
  intros []. unfold DevAccessor.delete_app. simpl. split; simpl; intros *; eauto.
  - intros [H _]%map_lookup_filter_Some. eauto.
  - intros [H Hg]%map_lookup_filter_Some. destruct k as [a al], v as [ty d]; simpl in *.
    destruct (ok_dev_alias0 _ _ H) as [row Hrow]. simpl in Hrow. exists row.
    apply map_lookup_filter_Some. split; [done|]. intros Hrem.
    apply map_lookup_filter_None in Hg as [Hg|Hg]; [congruence|]. by apply (Hg row).
  - intros [H Hr]%map_lookup_filter_Some. apply map_lookup_filter_Some.
    split; [eauto|]. apply map_lookup_filter_None. right. intros. by simplify_eq.
  - intros [H _]%map_lookup_filter_Some. eauto.
Qed.
