(* ===== verification/Outbox.v ===== *)
(** * The outbox

    [database-common/src/models/outbox.rs] (the table and its three
    statements), the event sender of [registry-events/src/db.rs] that writes to
    it, the event loop of [registry-events/src/stream/mod.rs] that reads events
    back, and the re-sender of [outbox-controller]: change events are written
    to the outbox in the transaction of the change, removed once they were seen
    on the event stream, and sent again while they were not. *)

From Stdlib Require Import Sorting.Sorted.
From stdpp Require Import pretty.
From S2P Require Import Prelude Auth Events Store.

Abbreviation OutboxTable := (gmap (string * string * string) OutboxRow).

(** ** The statements *)

(** The primary key of an entry; DEVICE is the empty string for an
    application. *)
Definition entry_key (entry : OutboxEntry) : string * string * string :=
  (oe_app entry, default "" (oe_device entry), oe_path entry).

Definition row_of_entry (now : Z) (entry : OutboxEntry) : OutboxRow :=
  mkOutboxRow (oe_instance entry) (oe_uid entry) (as_i64 (oe_revision entry)) now.

(** [create]: INSERT .. ON CONFLICT DO UPDATE, when the revision is newer or
    the UID differs.  The UPDATE keeps the INSTANCE of the present row. *)
Definition outbox_create (now : Z) (entry : OutboxEntry) (t : OutboxTable) : OutboxTable :=
  let excluded := row_of_entry now entry in
  match t !! entry_key entry with
  | None => <[entry_key entry := excluded]> t
  | Some row =>
      if (or_revision row <? or_revision excluded)%Z
         || negb (string_eqb (or_uid row) (or_uid excluded))
      then <[entry_key entry :=
              mkOutboxRow (or_instance row) (or_uid excluded) (or_revision excluded)
                (or_ts excluded)]> t
      else t
  end.

(** [mark_seen]: DELETE the entry up to the seen revision, of the same UID. *)
Definition outbox_mark_seen (entry : OutboxEntry) (t : OutboxTable) : OutboxTable * bool :=
  match t !! entry_key entry with
  | Some row =>
      if (or_revision row <=? as_i64 (oe_revision entry))%Z
         && string_eqb (or_uid row) (oe_uid entry)
      then (base.delete (entry_key entry) t, true)
      else (t, false)
  | None => (t, false)
  end.

(** [TryFrom<Row> for OutboxEntry] *)
Definition entry_of_row (key : string * string * string) (row : OutboxRow) : OutboxEntry :=
  let '(app, device, path) := key in
  mkOutboxEntry (or_instance row) app (if is_empty device then None else Some device) path
    (as_u64 (or_revision row)) (or_uid row).

(** Insertion sort by timestamp: ORDER BY TS ASC. *)
Fixpoint insert_by_ts (x : Z * OutboxEntry) (l : list (Z * OutboxEntry)) :=
  match l with
  | [] => [x]
  | y :: l' => if (x.1 <=? y.1)%Z then x :: l else y :: insert_by_ts x l'
  end.

Definition order_by_ts (l : list (Z * OutboxEntry)) : list (Z * OutboxEntry) :=
  foldr insert_by_ts [] l.

(** [fetch_unread]: the entries older than [duration], oldest first. *)
Definition fetch_unread (now duration : Z) (t : OutboxTable) : list OutboxEntry :=
  let beginning := (now - duration)%Z in
  (order_by_ts
     (map (λ '(k, row), (or_ts row, entry_of_row k row))
        (filter (λ '(_, row), (or_ts row < beginning)%Z) (map_to_list t)))).*2.

(** ** Sending to the outbox

    The [EventSender] of an outbox accessor creates the entries in order. *)
Definition notify (now : Z) (events : list Event.t) (t : OutboxTable) : OutboxTable :=
  foldl (λ t e, outbox_create now (entry_of_event e) t) t events.

Definition send_to_outbox (now : Z) (events : list Event.t) (db : Db) : Db :=
  with_outbox (notify now events (outbox db)) db.

(** ** The re-sender *)

Section Resend.
(** The configured event sender: the message of its error, or success. *)
Context (sender : Event.t → result unit string).

(** The loop of [Resender::process] over the unseen entries, [n] of them done:
    the events handed to the sender, and the outcome; the first failure ends
    the round. *)
Fixpoint resend_loop (n : nat) (entries : list OutboxEntry)
    : list Event.t * result unit ServiceError :=
  match entries with
  | [] => ([], Ok tt)
  | entry :: rest =>
      let event := event_of_entry entry in
      match sender event with
      | Ok _ => let '(sent, r) := resend_loop (S n) rest in (event :: sent, r)
      | Err e =>
          ([event], Err (Internal ("Failed to send event (n = " +:+ pretty n +:+ "): " +:+ e)))
      end
  end.

(** [Resender::process]: it reads the outbox, and does not change it. *)
Definition resend_process (now before : Z) (t : OutboxTable)
    : list Event.t * result unit ServiceError :=
  resend_loop 0 (fetch_unread now before t).
End Resend.

(** ** The event loop

    [KafkaEventStream::run] hands an event to the handler until it succeeds;
    [attempt i] is the outcome of the [i]-th call.  [Some n]: acknowledged
    after [n] calls; [None]: gave up, the stream ends without an
    acknowledgement. *)
Fixpoint handle_event (attempt : nat → bool) (fuel calls cnt : nat) : option (option nat) :=
  match fuel with
  | 0 => None
  | S fuel =>
      if attempt calls then Some (Some (S calls))
      else if (10 <? cnt)%nat then Some None
      else handle_event attempt fuel (S calls) (S cnt)
  end.

(** ** Facts about the statements *)

Lemma entry_of_row_of_entry now e :
  is_u64 (oe_revision e) → oe_device e ≠ Some "" →
  entry_of_row (entry_key e) (row_of_entry now e) = e.
Proof.
  intros Hr Hd. destruct e as [i a d p r u]. cbn -[as_u64 as_i64] in *.
  rw as_u64_as_i64 //. destruct d as [d|]; [|done]. by destruct d.
Qed.

Lemma outbox_create_other now e t k :
  k ≠ entry_key e → outbox_create now e t !! k = t !! k.
Proof. intros Hk. unfold outbox_create. repeat case_match; by simplify_map_eq. Qed.

Lemma outbox_mark_seen_other e t k :
  k ≠ entry_key e → (outbox_mark_seen e t).1 !! k = t !! k.
Proof. intros Hk. unfold outbox_mark_seen. repeat case_match; by simplify_map_eq/=. Qed.

(** An entry is covered by a row: same UID, and at least its revision. *)
Definition covered (e : OutboxEntry) (row : OutboxRow) : Prop :=
  or_uid row = oe_uid e ∧ (as_i64 (oe_revision e) ≤ or_revision row)%Z.

Lemma outbox_create_covers now e t :
  ∃ row, outbox_create now e t !! entry_key e = Some row ∧ covered e row.
Proof.
  unfold outbox_create, covered. destruct (t !! entry_key e) as [row|] eqn:Hrow.
  - destruct (_ || _) eqn:Hc; simplify_map_eq; eexists; (split; [done|]); simpl; [done|].
    apply orb_false_iff in Hc as [Hlt Hu]. apply negb_false_iff, string_eqb_eq in Hu.
    simpl in *. split; [done|lia].
  - simplify_map_eq. eexists; split; [done|]. done.
Qed.

Lemma outbox_create_keeps now e e' t row :
  t !! entry_key e = Some row → covered e row →
  (entry_key e' = entry_key e → oe_uid e' = oe_uid e) →
  ∃ row', outbox_create now e' t !! entry_key e = Some row' ∧ covered e row'.
Proof.
  intros Hrow [Hu Hr] Huid. destruct (decide (entry_key e' = entry_key e)) as [Hk|Hk].
  - specialize (Huid Hk). destruct (outbox_create_covers now e' t) as (row' & Hrow' & Hu' & Hr').
    rw Hk in Hrow'. exists row'. split; [done|]. split; [by rw Hu'|].
    revert Hrow'. unfold outbox_create. rw Hk Hrow /=.
    destruct (_ || _) eqn:Hc; simplify_map_eq; intros; simplify_eq/=; [|done].
    rw Hu Huid string_eqb_refl orb_false_r in Hc. lia.
  - exists row. by rw outbox_create_other; [congruence|].
Qed.

Lemma outbox_mark_seen_keeps e e' t row :
  t !! entry_key e = Some row → covered e row →
  ¬ (entry_key e' = entry_key e ∧ oe_uid e' = oe_uid e ∧
     (as_i64 (oe_revision e) ≤ as_i64 (oe_revision e'))%Z) →
  ∃ row', (outbox_mark_seen e' t).1 !! entry_key e = Some row' ∧ covered e row'.
Proof.
  intros Hrow [Hu Hr] Hno. destruct (decide (entry_key e' = entry_key e)) as [Hk|Hk].
  - exists row. split; [|done]. unfold outbox_mark_seen. rw Hk Hrow.
    destruct (_ && _) eqn:Hc; [|done]. exfalso. apply Hno.
    apply andb_true_iff in Hc as [? Hs%string_eqb_eq]. split_and!; [done|congruence|lia].
  - exists row. by rw outbox_mark_seen_other; [congruence|].
Qed.

(** ** The outbox over time *)

(** What happens to the outbox: the registry creates entries, the controller
    marks the events it saw on the stream ([OutboxService::mark_seen]). *)
Inductive OutboxOp : Type :=
| OpCreate (now : Z) (e : OutboxEntry)
| OpSeen (e : Event.t).

Definition outbox_step (t : OutboxTable) (op : OutboxOp) : OutboxTable :=
  match op with
  | OpCreate now e => outbox_create now e t
  | OpSeen ev => (outbox_mark_seen (entry_of_event ev) t).1
  end.

Definition outbox_run (ops : list OutboxOp) (t : OutboxTable) : OutboxTable :=
  foldl outbox_step t ops.

(** The acknowledgement of [e]: it, or a later change of the same object at
    the same path, was seen on the event stream. *)
Definition acknowledges (e : OutboxEntry) (op : OutboxOp) : Prop :=
  match op with
  | OpCreate _ _ => False
  | OpSeen ev =>
      let e' := entry_of_event ev in
      entry_key e' = entry_key e ∧ oe_uid e' = oe_uid e ∧
      (as_i64 (oe_revision e) ≤ as_i64 (oe_revision e'))%Z
  end.

(** A create that takes the row of [e], unacknowledged as it may be: an event
    for the same names and path with another UID. *)
Definition replaces (e : OutboxEntry) (op : OutboxOp) : Prop :=
  match op with
  | OpCreate _ e' => entry_key e' = entry_key e ∧ oe_uid e' ≠ oe_uid e
  | OpSeen _ => False
  end.

#[global] Instance acknowledges_dec e op : Decision (acknowledges e op).
Proof. destruct op; simpl; apply _. Defined.

#[global] Instance replaces_dec e op : Decision (replaces e op).
Proof. destruct op; simpl; apply _. Defined.

(** The entries fetched are those of the rows old enough. *)
Lemma insert_by_ts_perm x l : insert_by_ts x l ≡ₚ x :: l.
Proof.
  induction l as [|y l IH]; simpl; [done|]. case_match; [done|].
  rw IH. apply Permutation_swap.
Qed.

Lemma order_by_ts_perm l : order_by_ts l ≡ₚ l.
Proof. induction l as [|x l IH]; simpl; [done|]. by rw insert_by_ts_perm IH. Qed.

Lemma insert_by_ts_sorted x l :
  Sorted (λ a b, (a.1 ≤ b.1)%Z) l → Sorted (λ a b, (a.1 ≤ b.1)%Z) (insert_by_ts x l).
Proof.
  induction 1 as [|y l Hl IH Hy]; simpl; [by repeat constructor|].
  destruct (Z.leb_spec x.1 y.1); [by repeat constructor|].
  constructor; [done|]. destruct l as [|z l]; simpl in *; [constructor; lia|].
  inversion Hy; subst. case_match; constructor; simpl in *; lia.
Qed.

Lemma order_by_ts_sorted l : Sorted (λ a b, (a.1 ≤ b.1)%Z) (order_by_ts l).
Proof. induction l; simpl; [constructor|by apply insert_by_ts_sorted]. Qed.

Lemma elem_of_fetch_unread now duration t e :
  e ∈ fetch_unread now duration t ↔
  ∃ k row, t !! k = Some row ∧ (or_ts row < now - duration)%Z ∧ e = entry_of_row k row.
Proof.
  unfold fetch_unread. rw list_elem_of_fmap. setoid_rewrite order_by_ts_perm.
  split.
  - intros ([ts e'] & -> & Hin). apply list_elem_of_fmap in Hin as ([k row] & Heq & Hin).
    apply list_elem_of_filter in Hin as [Hts Hin]. apply elem_of_map_to_list in Hin.
    simplify_eq. eauto 10.
  - intros (k & row & Hk & Hts & ->). exists (or_ts row, entry_of_row k row). split; [done|].
    apply list_elem_of_fmap. exists (k, row). split; [done|].
    apply list_elem_of_filter. split; [done|]. by apply elem_of_map_to_list.
Qed.

Lemma outbox_step_keeps e op t row :
  t !! entry_key e = Some row → covered e row → ¬ acknowledges e op → ¬ replaces e op →
  ∃ row', outbox_step t op !! entry_key e = Some row' ∧ covered e row'.
Proof.
  intros Hrow Hc Ha Hd. destruct op as [now e'|ev]; simpl.
  - eapply outbox_create_keeps; [done..|]. intros Hk.
    destruct (decide (oe_uid e' = oe_uid e)) as [|Hu]; [done|]. by destruct Hd.
  - by eapply outbox_mark_seen_keeps.
Qed.

Lemma outbox_run_keeps e ops t row :
  t !! entry_key e = Some row → covered e row →
  ¬ Exists (acknowledges e) ops → ¬ Exists (replaces e) ops →
  ∃ row', outbox_run ops t !! entry_key e = Some row' ∧ covered e row'.
Proof.
  revert t row. induction ops as [|op ops IH]; intros t row Hrow Hc Ha Hd; [by eauto|].
  rw Exists_cons in Ha. rw Exists_cons in Hd.
  destruct (outbox_step_keeps e op t row Hrow Hc) as (row' & Hrow' & Hc'); [tauto..|].
  eapply IH; [done|done|tauto..].
Qed.

(** Rows hold what a BIGINT column holds, and the time they were written. *)
Definition is_i64 (x : Z) : Prop := (- two63 ≤ x < two63)%Z.
Definition row_ok (bound : Z) (row : OutboxRow) : Prop :=
  is_i64 (or_revision row) ∧ (or_ts row < bound)%Z.
Definition op_ok (bound : Z) (op : OutboxOp) : Prop :=
  match op with
  | OpCreate now e => is_u64 (oe_revision e) ∧ (now < bound)%Z
  | OpSeen _ => True
  end.

Lemma as_i64_range x : is_u64 x → is_i64 (as_i64 x).
Proof. unfold is_u64, is_i64, as_i64, two63, two64. intros. case_match; lia. Qed.

Lemma as_i64_as_u64 x : is_i64 x → as_i64 (as_u64 x) = x.
Proof.
  unfold is_i64, as_i64, as_u64. intros H. destruct (decide (0 ≤ x)%Z).
  - rw Z.mod_small; [unfold two64, two63 in *; lia|]. case_match; lia.
  - replace (x mod two64)%Z with (x + two64)%Z.
    + case_match; unfold two63, two64 in *; lia.
    + apply (Z.mod_unique _ _ (-1)); unfold two63, two64 in *; lia.
Qed.

Lemma outbox_step_ok b op t :
  op_ok b op → map_Forall (λ _, row_ok b) t → map_Forall (λ _, row_ok b) (outbox_step t op).
Proof.
  intros Hop Ht. destruct op as [now e|ev]; simpl in *.
  - destruct Hop as [Hr%as_i64_range Hn]. unfold outbox_create.
    destruct (t !! entry_key e); [case_match; [|done]|]; by apply map_Forall_insert_2.
  - unfold outbox_mark_seen. repeat case_match; simpl; try done. by apply map_Forall_delete.
Qed.

Lemma outbox_run_ok b ops t :
  Forall (op_ok b) ops → map_Forall (λ _, row_ok b) t →
  map_Forall (λ _, row_ok b) (outbox_run ops t).
Proof.
  intros Hops. revert t. induction Hops as [|op ops Hop Hops IH]; intros t Ht; [done|].
  by apply IH, outbox_step_ok.
Qed.

Lemma outbox_run_app ops1 ops2 t :
  outbox_run (ops1 ++ ops2) t = outbox_run ops2 (outbox_run ops1 t).
Proof. apply foldl_app. Qed.

Lemma entry_key_of_row k row : entry_key (entry_of_row k row) = k.
Proof. destruct k as [[a d] p]. cbn. by destruct d. Qed.

Lemma entry_revision_of_row k row : oe_revision (entry_of_row k row) = as_u64 (or_revision row).
Proof. by destruct k as [[a d] p]. Qed.

Lemma entry_uid_of_row k row : oe_uid (entry_of_row k row) = or_uid row.
Proof. by destruct k as [[a d] p]. Qed.

Lemma entry_of_event_of_entry e : entry_of_event (event_of_entry e) = e.
Proof. by destruct e as [? ? [?|] ? ? ?]. Qed.

Lemma event_uid_entry ev : Event.uid ev = oe_uid (entry_of_event ev).
Proof. by destruct ev. Qed.

Lemma event_revision_entry ev : Event.revision ev = oe_revision (entry_of_event ev).
Proof. by destruct ev. Qed.

Lemma resend_loop_all n l : resend_loop (λ _, Ok tt) n l = (event_of_entry <$> l, Ok tt).
Proof. revert n. induction l as [|e l IH]; intros n; simpl; [done|]. by rw IH. Qed.

(** Acknowledgements only remove rows. *)
Lemma outbox_run_seen_sub evs t k row :
  outbox_run (map OpSeen evs) t !! k = Some row → t !! k = Some row.
Proof.
  revert t. induction evs as [|ev evs IH]; intros t H; [done|]. apply IH in H. simpl in H.
  unfold outbox_mark_seen in H. repeat case_match; simplify_map_eq/=; try done.
  by apply lookup_delete_Some in H as [].
Qed.

Lemma outbox_run_seen_gone evs t k ev :
  ev ∈ evs → entry_key (entry_of_event ev) = k →
  (∀ row, t !! k = Some row → or_uid row = oe_uid (entry_of_event ev) ∧
     (or_revision row ≤ as_i64 (oe_revision (entry_of_event ev)))%Z) →
  outbox_run (map OpSeen evs) t !! k = None.
Proof.
  intros Hin Hk. revert t. induction Hin as [ev evs|ev ev' evs Hin IH]; intros t Ht.
  - apply eq_None_not_Some. intros [row Hrow].
    apply (outbox_run_seen_sub evs (outbox_step t (OpSeen ev))) in Hrow. revert Hrow. simpl.
    unfold outbox_mark_seen. subst k. destruct (t !! _) as [row'|] eqn:E; simpl; [|by rw E].
    destruct (Ht row' eq_refl) as [-> Hr]. rw string_eqb_refl andb_true_r.
    rw (proj2 (Z.leb_le _ _) Hr) /=. by rw lookup_delete_eq.
  - apply (IH Hk). intros row Hrow. apply Ht. revert Hrow.
    apply (outbox_run_seen_sub [ev'] t k row).
Qed.

(** Of the entries written for a key, there is a last one no other UID took the
    row of. *)
Lemma last_unreplaced now e ops :
  ∃ ops3 now' e' ops4,
    OpCreate now e :: ops = ops3 ++ OpCreate now' e' :: ops4 ∧
    entry_key e' = entry_key e ∧ ¬ Exists (replaces e') ops4 ∧
    (¬ Exists (replaces e) ops → ops3 = []).
Proof.
  remember (length ops) as n eqn:Hn. revert now e ops Hn.
  induction (lt_wf n) as [n _ IH]; intros now e ops ->.
  destruct (decide (Exists (replaces e) ops)) as [Hd|Hd]; [|by exists [], now, e, ops].
  pose proof Hd as ([now1 e1|] & Hin & Hop)%Exists_exists; [|done]. destruct Hop as [Hk _].
  apply list_elem_of_split in Hin as (l1 & l2 & ->).
  destruct (IH (length l2)) with (now := now1) (e := e1) (ops := l2)
    as (ops3 & now' & e' & ops4 & Heq & Hk' & Hlast & _); [rw length_app /=; lia|done|].
  exists (OpCreate now e :: l1 ++ ops3), now', e', ops4.
  split_and!; [|congruence|done|done]. by rw -app_comm_cons -app_assoc -Heq.
Qed.

(** An entry that nobody acknowledged or replaced is handed to the sender by a
    round of the re-sender at a late enough time. *)
Lemma unacknowledged_resent ops1 now e ops2 later before :
  Forall (op_ok (later - before)) (ops1 ++ OpCreate now e :: ops2) →
  ¬ Exists (acknowledges e) ops2 → ¬ Exists (replaces e) ops2 →
  ∃ ev', ev' ∈ (resend_process (λ _, Ok tt) later before
                 (outbox_run (ops1 ++ OpCreate now e :: ops2) ∅)).1 ∧
    entry_key (entry_of_event ev') = entry_key e ∧ Event.uid ev' = oe_uid e ∧
    (as_i64 (oe_revision e) ≤ as_i64 (Event.revision ev'))%Z.
Proof.
  intros H Ha Hd. set (t := outbox_run _ _).
  destruct (outbox_create_covers now e (outbox_run ops1 ∅)) as (row1 & Hrow1 & Hc1).
  destruct (outbox_run_keeps _ ops2 _ row1 Hrow1 Hc1 Ha Hd) as (row & Hrow & Hu & Hr).
  assert (Ht : t !! entry_key e = Some row) by (unfold t; rw outbox_run_app; done).
  destruct (outbox_run_ok _ _ ∅ H (map_Forall_empty _) _ _ Ht) as [Hi Hts].
  exists (event_of_entry (entry_of_row (entry_key e) row)). split.
  - unfold resend_process. rw resend_loop_all. apply list_elem_of_fmap_2.
    apply elem_of_fetch_unread. eauto.
  - rw !event_uid_entry !event_revision_entry !entry_of_event_of_entry.
    by rw entry_key_of_row entry_uid_of_row entry_revision_of_row as_i64_as_u64.
Qed.



(** The outbox drains.  Once every event of a successful resend round was
    seen on the stream, the next round (for the same cut-off) has nothing to
    send. *)
Theorem outbox_drains (ops : list OutboxOp) (bound now before : Z)
    (H : Forall (op_ok bound) ops) :
  let t := outbox_run ops ∅ in
  let sent := (resend_process (λ _, Ok tt) now before t).1 in
  resend_process (λ _, Ok tt) now before (outbox_run (map OpSeen sent) t) = ([], Ok tt).
Proof.
  intros t sent. assert (Ht : map_Forall (λ _, row_ok bound) t) by
    (apply outbox_run_ok; [done|apply map_Forall_empty]).
  unfold resend_process. destruct (fetch_unread now before _) as [|e l] eqn:E; [done|].
  assert (Hin : e ∈ e :: l) by left. rw -E in Hin.
  apply elem_of_fetch_unread in Hin as (k & row & Hk & Hts & ->). exfalso.
  assert (Hkt := Hk). apply outbox_run_seen_sub in Hkt.
  revert Hk. apply eq_None_ne_Some. 
  apply (outbox_run_seen_gone _ _ _ (event_of_entry (entry_of_row k row)));
    rw ?entry_of_event_of_entry ?entry_key_of_row //.
  - unfold sent, resend_process. rw resend_loop_all. apply list_elem_of_fmap_2.
    apply elem_of_fetch_unread. eauto.
  - intros row' Hrow'. simplify_eq. rw entry_uid_of_row entry_revision_of_row as_i64_as_u64 //.
    by apply (Ht k).
Qed.

Lemma outbox_drains_witness :
  let t := outbox_run [OpCreate 0 (entry_of_event (Event.Application "i" "a" "u" "." 1));
                       OpCreate 1 (entry_of_event (Event.Device "i" "a" "d" "u" "." 1))] ∅ in
  let sent := (resend_process (λ _, Ok tt) 100 60 t).1 in
  length sent = 2 ∧
  resend_process (λ _, Ok tt) 100 60 (outbox_run (map OpSeen sent) t) = ([], Ok tt).
Proof.
  split; [vm_compute; reflexivity|]. apply (outbox_drains _ 10).
  repeat constructor; simpl; unfold is_u64, two64; lia.
Defined.

(** The persisted form of an event is the event: what the re-sender reads
    back from the row written for an event is the event itself, for every
    [u64] revision and every non-empty device name. *)
Theorem outbox_event_roundtrip (now : Z) (ev : Event.t)
    (Hr : is_u64 (Event.revision ev)) (Hd : oe_device (entry_of_event ev) ≠ Some "") :
  let t := outbox_create now (entry_of_event ev) ∅ in
  event_of_entry <$> fetch_unread (now + 1) 0 t = [ev].
Proof.
  intros t. unfold t, outbox_create. rw lookup_empty. unfold fetch_unread.
  rw (insert_empty (M := gmap _) (entry_key _)) map_to_list_singleton.
  rw filter_cons_True; [simpl; lia|]. cbn [filter list_filter map order_by_ts foldr insert_by_ts].
  cbn [fmap list_fmap snd].
  rw event_revision_entry in Hr. by rw entry_of_row_of_entry // event_of_entry_of_event.
Qed.

Lemma outbox_event_roundtrip_witness :
  let t := outbox_create 5 (entry_of_event (Event.Device "i" "a" "d" "u" ".spec" (two64 - 1))) ∅ in
  event_of_entry <$> fetch_unread (5 + 1) 0 t
    = [Event.Device "i" "a" "d" "u" ".spec" (two64 - 1)].
Proof. apply outbox_event_roundtrip; [simpl; unfold is_u64, two64; lia | done]. Defined.

(** A resend round hands entries to the sender oldest first, up to and
    including the first the sender refuses; it succeeds exactly when the
    sender takes them all. *)
Theorem resend_process_prefix (sender : Event.t → result unit string) (now before : Z)
    (t : OutboxTable) :
  let '(sent, r) := resend_process sender now before t in
  ∃ rest, event_of_entry <$> fetch_unread now before t = sent ++ rest ∧
    match r with
    | Ok _ => rest = [] ∧ Forall (λ ev, sender ev = Ok tt) sent
    | Err _ => ∃ done bad m, sent = done ++ [bad] ∧ sender bad = Err m ∧
        Forall (λ ev, sender ev = Ok tt) done
    end.
Proof.
  unfold resend_process. generalize 0 at 1. generalize (fetch_unread now before t).
  intros l. induction l as [|e l IH]; intros n; simpl; [by exists []|].
  destruct (sender (event_of_entry e)) as [[]|m] eqn:Hs.
  - specialize (IH (S n)). destruct (resend_loop sender (S n) l) as [sent r].
    destruct IH as (rest & Heq & Hr). exists rest. split; [exact (f_equal (cons _) Heq)|].
    destruct r; [naive_solver|]. destruct Hr as (d & b & m & -> & Hb & Hd).
    exists (event_of_entry e :: d), b, m. by auto.
  - eexists. split; [done|]. by exists [], (event_of_entry e), m.
Qed.

(** An event is acknowledged after the first call of the handler that
    succeeds, and only then; after twelve failures the stream ends with the
    event unacknowledged, to be delivered again. *)
Theorem handle_event_spec (attempt : nat → bool) :
  handle_event attempt 12 0 0 =
    Some (match list_find (λ i, attempt i = true) (seq 0 12) with
          | Some (_, i) => Some (S i)
          | None => None
          end).
Proof.
  cbn [handle_event seq list_find Nat.ltb Nat.leb].
  repeat match goal with |- context [attempt ?i] => destruct (attempt i); [done|] end.
  done.
Qed.
