(* ===== verification/Registry.v ===== *)
(** * Registry resources

    The API resources of the registry ([drogue_client]'s
    [registry::v1::Application] and [registry::v1::Device], with the fields
    the service reads and writes), their conversion to and from the entities
    of the database ([device-management-service/src/service/mod.rs],
    [database-common/src/models/app.rs] and [device.rs]), the trust anchors of
    [service/x509.rs], and the version checks of [service/utils.rs]. *)

From S2P Require Import Prelude Json Versioning Auth Store.

(** ** API resources *)

Module Reg.
Record Application := mkApplication {
  a_uid : string;
  a_name : string;
  a_labels : gmap string string;
  a_annotations : gmap string string;
  a_creation_timestamp : Z;
  a_generation : Z;
  a_resource_version : string;
  a_deletion_timestamp : option Z;
  a_finalizers : list string;
  a_spec : Map;
  a_status : Map;
}.

Record Device := mkDevice {
  d_uid : string;
  d_name : string;
  d_application : string;
  d_labels : gmap string string;
  d_annotations : gmap string string;
  d_creation_timestamp : Z;
  d_generation : Z;
  d_resource_version : string;
  d_deletion_timestamp : option Z;
  d_finalizers : list string;
  d_spec : Map;
  d_status : Map;
}.

(** The credentials of a device. *)
Inductive Password : Type :=
| Plain (plain : string)
| BCrypt (hashed : string)
| Sha512 (hashed : string).

Record PreSharedKey := mkPsk {
  psk_key : string;
  psk_validity : option (Z * Z);
}.

Inductive Credential : Type :=
| UsernamePassword (username : string) (password : Password) (unique : bool)
| PasswordOnly (password : Password)
| Psk (key : PreSharedKey)
| OtherCredential.

(** [ApplicationStatusTrustAnchorEntry] *)
Inductive AnchorEntry : Type :=
| Valid (subject certificate : string) (not_before not_after : Z)
| Invalid (error message : string).
End Reg.

Record Pem := mkPem { pem_tag : string; pem_contents : string }.
Record Certificate := mkCertificate {
  cert_subject : string; cert_not_before : Z; cert_not_after : Z }.

(** The typed sections of a resource are decoded by [drogue_client], PEM and
    X.509 data by the [pem] and [x509_parser] crates, and the anchor status is
    encoded by [serde_json]. *)
Class ClientApi := {
  section_anchors : Reg.Application → option (result (list string) string);
  section_aliases : Reg.Device → option (result (list string) string);
  get_authentication : Reg.Device → option (result (list Reg.Credential) string);
  pem_parse_many : string → result (list Pem) string;
  parse_x509_certificate : string → result Certificate string;
  anchors_to_value : list Reg.AnchorEntry → result Value string;
}.

(** A client for resources without any of the typed sections. *)
Definition plain_client : ClientApi := {|
  section_anchors := λ _, None;
  section_aliases := λ _, None;
  get_authentication := λ _, None;
  pem_parse_many := λ _, Ok [];
  parse_x509_certificate := λ _, Err "no certificate";
  anchors_to_value := λ _, Ok (Array []);
|}.

(** [HashSet::insert]; the set is kept in insertion order. *)
Definition set_insert {A} `{EqDecision A} (x : A) (l : list A) : list A :=
  if bool_decide (x ∈ l) then l else l ++ [x].

Lemma elem_of_set_insert {A} `{EqDecision A} (x y : A) l : y ∈ set_insert x l ↔ y = x ∨ y ∈ l.
Proof. unfold set_insert. case_bool_decide; set_solver. Qed.

Lemma set_insert_NoDup {A} `{EqDecision A} (x : A) l : NoDup l → NoDup (set_insert x l).
Proof.
  unfold set_insert. case_bool_decide; [done|]. intros. apply NoDup_app.
  split_and!; [done|set_solver|apply NoDup_singleton].
Qed.

(** ** Trust anchors, [x509.rs] *)

Section Anchors.
Context `{ClientApi}.

(** The loop over the PEM blocks: the first certificate decides. *)
Fixpoint first_certificate (certs : string) (pems : list Pem)
    : result Reg.AnchorEntry string :=
  match pems with
  | [] => Ok (Reg.Invalid "NoCertificateFound" "No PEM encoded certificate was found")
  | pem :: rest =>
      if string_eqb (pem_tag pem) "CERTIFICATE" then
        let? cert := map_err (λ err, "Failed to parse certificate: " +:+ err)
          (parse_x509_certificate (pem_contents pem)) in
        Ok (Reg.Valid (cert_subject cert) certs (cert_not_before cert) (cert_not_after cert))
      else first_certificate certs rest
  end.

Definition process_anchor (certs : string) : result Reg.AnchorEntry string :=
  let? pems := map_err (λ err, "Failed to parse PEM: " +:+ err) (pem_parse_many certs) in
  first_certificate certs pems.

(** The loop body of [process_anchors], on the anchors and the aliases. *)
Definition process_one (acc : list Reg.AnchorEntry * list TypedAlias) (certificate : string)
    : list Reg.AnchorEntry * list TypedAlias :=
  let '(anchors, aliases) := acc in
  match process_anchor certificate with
  | Ok ta =>
      (anchors ++ [ta],
       match ta with
       | Reg.Valid subject _ _ _ => set_insert (mkAlias "x509/ca" subject) aliases
       | Reg.Invalid _ _ => aliases
       end)
  | Err message => (anchors ++ [Reg.Invalid "Failed" message], aliases)
  end.

Definition process_anchors (spec : list string) : list Reg.AnchorEntry * list TypedAlias :=
  foldl process_one ([], []) spec.

(** ** Resources to entities *)

Definition app_to_entity (app : Reg.Application)
    : result (App.t * list TypedAlias) ServiceError :=
  let aliases := [mkAlias "name" (Reg.a_name app)] in
  let? (status, aliases) :=
    match section_anchors app with
    | Some (Ok anchors) =>
        let '(entries, more) := process_anchors anchors in
        let? v := map_err BadRequest (anchors_to_value entries) in
        Ok (map_insert "trustAnchors" v (Reg.a_status app),
            foldl (λ l a, set_insert a l) aliases more)
    | _ => Ok (Reg.a_status app, aliases)
    end in
  Ok (App.mk uuid_nil (Reg.a_name app) (Reg.a_labels app) (Reg.a_annotations app) 0 uuid_nil
        0 0 None (Reg.a_finalizers app) None None []
        (entity_data (Reg.a_spec app) status), aliases).

Definition credential_alias (aliases : list TypedAlias) (c : Reg.Credential)
    : list TypedAlias :=
  match c with
  | Reg.UsernamePassword username _ true => set_insert (mkAlias "username" username) aliases
  | _ => aliases
  end.

Definition device_to_entity (device : Reg.Device)
    : result (Dev.t * list TypedAlias) ServiceError :=
  let aliases := [mkAlias "name" (Reg.d_name device)] in
  let aliases :=
    match section_aliases device with
    | Some (Ok l) => foldl (λ aliases alias, set_insert (mkAlias "alias" alias) aliases) aliases l
    | _ => aliases
    end in
  let aliases :=
    match get_authentication device with
    | Some (Ok credentials) => foldl credential_alias aliases credentials
    | _ => aliases
    end in
  Ok (Dev.mk (Reg.d_application device) uuid_nil (Reg.d_name device) (Reg.d_labels device)
        (Reg.d_annotations device) 0 uuid_nil 0 0 None (Reg.d_finalizers device)
        (entity_data (Reg.d_spec device) (Reg.d_status device)), aliases).

(** Conversions keep the name, start the counters at zero, and make the name
    an alias. *)
Lemma foldl_set_insert {A B} `{EqDecision B} (f : A → B) (l : list A) (init : list B) x :
  x ∈ init → x ∈ foldl (λ acc a, set_insert (f a) acc) init l.
Proof.
  revert init. induction l as [|a l IH]; intros init Hx; simpl; [done|].
  apply IH, elem_of_set_insert. by right.
Qed.

Lemma app_to_entity_ok app a aliases :
  app_to_entity app = Ok (a, aliases) →
  App.name a = Reg.a_name app ∧ App.generation a = 0%Z ∧ App.revision a = 0%Z ∧
  App.deletion_timestamp a = None ∧ App.finalizers a = Reg.a_finalizers app ∧
  App.uid a = uuid_nil ∧ App.owner a = None ∧
  (∃ status, App.data a = entity_data (Reg.a_spec app) status) ∧
  mkAlias "name" (Reg.a_name app) ∈ aliases.
Proof.
  unfold app_to_entity. intros Ha. split_all; simpl; split_and!; try done; eauto; [|by left..].
  apply (foldl_set_insert (λ a, a)). left.
Qed.

Lemma credential_aliases_keep l aliases x :
  x ∈ aliases → x ∈ foldl credential_alias aliases l.
Proof.
  revert aliases. induction l as [|c l IH]; intros aliases Hx; simpl; [done|].
  apply IH. destruct c as [u p []|p|k|]; simpl; try done. apply elem_of_set_insert. by right.
Qed.

Lemma device_to_entity_ok device d aliases :
  device_to_entity device = Ok (d, aliases) →
  Dev.name d = Reg.d_name device ∧ Dev.application d = Reg.d_application device ∧
  Dev.generation d = 0%Z ∧ Dev.revision d = 0%Z ∧ Dev.deletion_timestamp d = None ∧
  Dev.finalizers d = Reg.d_finalizers device ∧
  Dev.data d = entity_data (Reg.d_spec device) (Reg.d_status device) ∧
  mkAlias "name" (Reg.d_name device) ∈ aliases.
Proof.
  unfold device_to_entity. intros Hd.
  assert (Hal : mkAlias "name" (Reg.d_name device) ∈ aliases).
  { injection Hd as _ <-. destruct (get_authentication device) as [[|]|];
      [apply credential_aliases_keep| |];
      (destruct (section_aliases device) as [[|]|]; [apply foldl_set_insert|..]); left. }
  injection Hd as <- _. by split_and!.
Qed.
End Anchors.

(** ** Entities to resources *)

Section Convert.
Context `{UuidCodec}.

(** [extract_sect]: take the section out of the data. *)
Definition extract_sect (app : App.t) (key : string) : option Map :=
  match map_get key (object_or_empty (App.data app)) with
  | Some (Object m) => Some m
  | _ => None
  end.

Definition app_into (app : App.t) : Reg.Application :=
  Reg.mkApplication (uuid_to_string (App.uid app)) (App.name app) (App.labels app)
    (App.annotations app) (App.creation_timestamp app) (App.generation app)
    (uuid_to_string (App.resource_version app)) (App.deletion_timestamp app)
    (App.finalizers app)
    (default [] (extract_sect app "spec")) (default [] (extract_sect app "status")).

(** [device.data[key].as_object().cloned().unwrap_or_default()] *)
Definition device_sect (d : Dev.t) (key : string) : Map := section_of (Dev.data d) key.

Definition device_into (d : Dev.t) : Reg.Device :=
  Reg.mkDevice (uuid_to_string (Dev.uid d)) (Dev.name d) (Dev.application d) (Dev.labels d)
    (Dev.annotations d) (Dev.creation_timestamp d) (Dev.generation d)
    (uuid_to_string (Dev.resource_version d)) (Dev.deletion_timestamp d) (Dev.finalizers d)
    (device_sect d "spec") (device_sect d "status").

(** ** Version checks, [utils.rs] *)

Definition is_ok_and_equal (expected : string) (actual : Uuid) : option Uuid :=
  if is_empty expected then Some actual
  else
    match uuid_parse_str expected with
    | Some expected => if (expected =? actual)%Z then Some expected else None
    | None => None
    end.

Record Constraints := mkConstraints { c_uid : Uuid; c_resource_version : Uuid }.

Definition check_versions (expected_uid expected_resource_version : string)
    (current_uid current_version : Uuid) : result Constraints ServiceError :=
  let? uid :=
    if negb (is_empty expected_uid) then
      match is_ok_and_equal expected_uid current_uid with
      | Some uid => Ok uid
      | None =>
          Err (Conflict ("Update request for non-existent ID - current: "
            +:+ uuid_to_string current_uid +:+ ", requested: " +:+ expected_uid))
      end
    else Ok current_uid in
  let? resource_version :=
    match is_ok_and_equal expected_resource_version current_version with
    | Some v => Ok v
    | None =>
        Err (Conflict ("Update request for modified object - current: "
          +:+ uuid_to_string current_version +:+ ", requested: " +:+ expected_resource_version))
    end in
  Ok (mkConstraints uid resource_version).

Record Preconditions := mkPreconditions { p_uid : string; p_resource_version : string }.

Definition check_preconditions (preconditions : option Preconditions)
    (current_uid current_version : Uuid) : result Constraints ServiceError :=
  check_versions (from_option p_uid "" preconditions)
    (from_option p_resource_version "" preconditions) current_uid current_version.

(** What an expected UUID asks of the actual one. *)
Definition expects (expected : string) (actual : Uuid) : Prop :=
  expected = "" ∨ uuid_parse_str expected = Some actual.

Lemma is_ok_and_equal_spec expected actual :
  is_ok_and_equal expected actual = Some actual ∧ expects expected actual ∨
  is_ok_and_equal expected actual = None ∧ ¬ expects expected actual.
Proof.
  unfold is_ok_and_equal, expects. destruct expected as [|c s]; [by auto|]. simpl.
  destruct (uuid_parse_str _) as [u|]; [|naive_solver].
  destruct (Z.eqb_spec u actual); [subst|]; naive_solver.
Qed.

(** The check succeeds exactly if both expectations are met, and then returns
    the current versions. *)
Lemma check_versions_spec eu ev u v :
  (check_versions eu ev u v = Ok (mkConstraints u v) ∧ expects eu u ∧ expects ev v) ∨
  ((∃ m, check_versions eu ev u v = Err (Conflict m)) ∧ ¬ (expects eu u ∧ expects ev v)).
Proof.
  unfold check_versions.
  destruct (is_ok_and_equal_spec eu u) as [[Hu Eu]|[Hu Eu]];
  destruct (is_ok_and_equal_spec ev v) as [[Hv Ev]|[Hv Ev]];
  destruct (is_empty eu) eqn:He; rw ?Hu ?Hv /=; try naive_solver.
  all: exfalso; apply Eu; left; by apply is_empty_true.
Qed.

Lemma check_versions_ok eu ev u v c :
  check_versions eu ev u v = Ok c → expects eu u ∧ expects ev v.
Proof.
  intros Hc. destruct (check_versions_spec eu ev u v) as [?|[[m Hm] _]]; [naive_solver|congruence].
Qed.

Lemma device_into_to_entity `{ClientApi} (d : Dev.t) spec status :
  Dev.data d = entity_data spec status →
  ∃ d' aliases, device_to_entity (device_into d) = Ok (d', aliases) ∧
    Dev.data d' = Dev.data d ∧ Dev.name d' = Dev.name d ∧
    Dev.application d' = Dev.application d ∧ same_metadata d d'.
Proof.
  intros Hd. unfold device_to_entity, device_into, device_sect. do 2 eexists.
  split; [done|]. simpl. rw Hd !section_of_entity. by split_and!.
Qed.

(** Optimistic locking: the version check fails with a conflict exactly
    when an expected UID or resource version is given that is not the current
    one; it succeeds otherwise, with the current versions as constraints. *)
Theorem check_preconditions_correct (pre : option Preconditions) (u v : Uuid) :
  (check_preconditions pre u v = Ok (mkConstraints u v) ↔
     expects (from_option p_uid "" pre) u ∧ expects (from_option p_resource_version "" pre) v) ∧
  ((∃ m, check_preconditions pre u v = Err (Conflict m)) ↔
     ¬ (expects (from_option p_uid "" pre) u ∧
        expects (from_option p_resource_version "" pre) v)).
Proof.
  unfold check_preconditions.
  destruct (check_versions_spec (from_option p_uid "" pre)
    (from_option p_resource_version "" pre) u v) as [(-> & ? & ?)|[[m ->] ?]]; naive_solver.
Qed.
End Convert.
