(* ===== verification/Management.v ===== *)
(** * The management service

    [device-management-service/src/service/mod.rs] and
    [service/management/mod.rs]: creating, reading, updating and deleting
    applications and devices.  A handler runs in a database transaction: it
    reads and writes the tables, writes its change events to the outbox and
    commits; only then it hands the events to the event sender.  A handler
    that fails before the commit leaves the database as it was.  The row locks
    it takes make handlers on the same object run one after the other, which
    is how they are modelled. *)

From stdpp Require Import pretty.
From S2P Require Import Prelude Json Versioning Auth Events Store Outbox Registry.

(** ** Errors *)

(** [PostgresManagementServiceError]; [E] is the error of the event sender. *)
Inductive MgmtError (E : Type) : Type :=
| Service (e : ServiceError)
| EventSender (e : E).
Arguments Service {E} e.
Arguments EventSender {E} e.

(** The HTTP status of [error_response]. *)
Definition mgmt_error_response {E} (e : MgmtError E) : Z :=
  match e with
  | Service e => error_response e
  | EventSender _ => 502
  end.

(** [From<AdvanceError> for ServiceError] *)
Definition advance_err (e : AdvanceError) : ServiceError :=
  match e with
  | NotIncrementing current desired =>
      Internal ("not incrementing (was: " +:+ pretty current +:+ ", desired: "
        +:+ pretty desired +:+ ")")
  end.

(** The [map_err] of the writing statements. *)
Definition unique_conflict (err : ServiceError) : ServiceError :=
  match sql_state err with
  | Some UNIQUE_VIOLATION => Conflict "Unique key violation"
  | _ => err
  end.

Definition create_device_err (err : ServiceError) : ServiceError :=
  match sql_state err with
  | Some UNIQUE_VIOLATION => Conflict "Unique key violation"
  | Some FOREIGN_KEY_VIOLATION => ReferenceNotFound
  | _ => err
  end.

(** What a handler draws from its surroundings: the current time, fresh
    UUIDs (for the object, for the resource version, and the one the database
    draws for a new device). *)
Record Env := mkEnv {
  env_now : Z;
  env_uid : Uuid;
  env_version : Uuid;
  env_db_uid : Uuid;
}.

Section Service.
Context `{UuidCodec, ClientApi} {E : Type}.
(** [self.instance] and [self.sender]. *)
Context (instance : string) (sender : list Event.t → result unit E).

(** What a handler leaves: the database, what it handed to the sender (if it
    got that far), and its result. *)
Record Response := mkResponse {
  r_db : Db;
  r_sent : option (list Event.t);
  r_result : result unit (MgmtError E);
}.

(** The body of a transaction: the database to commit, and the events to hand
    to the sender after the commit ([None] for the paths that do not send). *)
Abbreviation Tx := (result (Db * option (list Event.t)) ServiceError).

Definition commit (db : Db) (tx : Tx) : Response :=
  match tx with
  | Err e => mkResponse db None (Err (Service e))
  | Ok (db', None) => mkResponse db' None (Ok tt)
  | Ok (db', Some events) => mkResponse db' (Some events) (map_err EventSender (sender events))
  end.

(** ** Applications *)

Definition create_app_tx (env : Env) (identity : UserInformation)
    (application : Reg.Application) (db : Db) : Tx :=
  let? (app, aliases) := app_to_entity application in
  let generation := App.generation app in
  let name := App.name app in
  let uid := env_uid env in
  let app := App.set_owner (user_id identity) (App.set_uid uid app) in
  let? db := map_err unique_conflict
    (AppAccessor.create (env_now env) (env_version env) app aliases db) in
  let events := new_app instance name (uuid_to_string uid) generation [] in
  Ok (send_to_outbox (env_now env) events db, Some events).

Definition create_app env identity application db : Response :=
  commit db (create_app_tx env identity application db).

Definition get_app (identity : UserInformation) (name : string) (db : Db)
    : result (option Reg.Application) ServiceError :=
  match AppAccessor.get name db with
  | Some app => let? _ := ensure app identity Permission.Read in Ok (Some (app_into app))
  | None => Ok None
  end.

(** [perform_update_app] within a transaction: the database after it and the
    events of the change. *)
Definition perform_update_app (env : Env) (identity : option UserInformation)
    (app : App.t) (aliases : option (list TypedAlias))
    (expected_uid expected_resource_version : string) (db : Db)
    : result (Db * list Event.t) ServiceError :=
  let? current := ok_or NotFound (AppAccessor.get (App.name app) db) in
  let? _ :=
    match identity with
    | Some identity => ensure current identity Permission.Write
    | None => Ok tt
    end in
  let? _ := check_versions expected_uid expected_resource_version
    (App.uid current) (App.resource_version current) in
  let app := App.set_deletion (App.deletion_timestamp current) app in
  if bool_decide (is_Some (App.deletion_timestamp app))
     && bool_decide (App.finalizers app = [])
  then
    let? db := AppAccessor.delete (App.name app) db in
    Ok (db, [])
  else
    let paths := diff_paths current app in
    if bool_decide (paths = []) then Ok (db, [])
    else
      match advance_from paths current app with
      | (_, Err e) => Err (advance_err e)
      | (app, Ok revision) =>
          let name := App.name app in
          let uid := App.uid app in
          let? db := map_err unique_conflict
            (AppAccessor.update_data (env_version env) app aliases db) in
          Ok (db, new_app instance name (uuid_to_string uid) revision paths)
      end.

Definition update_app_tx (env : Env) (identity : UserInformation)
    (application : Reg.Application) (db : Db) : Tx :=
  let? (app, aliases) := app_to_entity application in
  let? (db, events) := perform_update_app env (Some identity) app (Some aliases)
    (Reg.a_uid application) (Reg.a_resource_version application) db in
  Ok (send_to_outbox (env_now env) events db, Some events).

Definition update_app env identity application db : Response :=
  commit db (update_app_tx env identity application db).

Definition delete_app_tx (env : Env) (identity : UserInformation) (id : string)
    (preconditions : option Preconditions) (db : Db) : Tx :=
  let? current := ok_or NotFound (AppAccessor.get id db) in
  guard? bool_decide (App.deletion_timestamp current = None) else NotFound in
  let? _ := ensure current identity Permission.Admin in
  let? _ := check_preconditions preconditions (App.uid current)
    (App.resource_version current) in
  let '(db, remaining_devices) := DevAccessor.delete_app id db in
  let current :=
    if (0 <? remaining_devices)%Z
    then App.set_finalizers (App.finalizers current ++ ["has-devices"]) current
    else current in
  match advance_revision current with
  | (_, Err e) => Err (advance_err e)
  | (current, Ok revision) =>
      let uid := App.uid current in
      let? (db, paths) :=
        if bool_decide (App.finalizers current = []) then
          let? db := AppAccessor.delete id db in Ok (db, [])
        else
          let current := App.set_deletion (Some (env_now env)) current in
          let? db := AppAccessor.update_data (env_version env) current None db in
          Ok (db, [".metadata"]) in
      let events := new_app instance id (uuid_to_string uid) revision paths in
      Ok (send_to_outbox (env_now env) events db, Some events)
  end.

Definition delete_app env identity id preconditions db : Response :=
  commit db (delete_app_tx env identity id preconditions db).

(** [check_clean_app]: a device was deleted; drop the application's
    [has-devices] finalizer with the last of its devices.  The events of the
    inner update are dropped. *)
Definition check_clean_app (env : Env) (app_id : string) (db : Db)
    : result Db ServiceError :=
  match AppAccessor.get app_id db with
  | None => Ok db
  | Some app =>
      if bool_decide (App.deletion_timestamp app = None) then Ok db
      else if (0 <? DevAccessor.count_devices app_id db)%Z then Ok db
      else
        let app :=
          App.set_finalizers
            (filter (λ f, f ≠ "has-devices") (App.finalizers app)) app in
        let? (db, _) := perform_update_app env None app None "" "" db in
        Ok db
  end.

(** ** Devices *)

Definition create_device_tx (env : Env) (identity : UserInformation) (device : Reg.Device)
    (db : Db) : Tx :=
  let? (device, aliases) := device_to_entity device in
  let generation := Dev.generation device in
  let application := Dev.application device in
  let? app :=
    match AppAccessor.get application db with
    | Some app =>
        if bool_decide (App.deletion_timestamp app = None) then Ok app
        else Err ReferenceNotFound
    | None => Err ReferenceNotFound
    end in
  let? _ := ensure_with app identity Permission.Write ReferenceNotFound in
  let name := Dev.name device in
  let uid := env_uid env in
  let device := Dev.set_uid uid device in
  let? db := map_err create_device_err
    (DevAccessor.create (env_now env) (env_version env) (env_db_uid env) device aliases db) in
  let events := new_device instance application name (uuid_to_string uid) generation [] in
  Ok (send_to_outbox (env_now env) events db, Some events).

Definition create_device env identity device db : Response :=
  commit db (create_device_tx env identity device db).

Definition get_device (identity : UserInformation) (app_id device_id : string) (db : Db)
    : result (option Reg.Device) ServiceError :=
  let? app := ok_or NotFound (AppAccessor.get app_id db) in
  let? _ := ensure_with app identity Permission.Read NotFound in
  Ok (device_into <$> DevAccessor.get app_id device_id db).

Definition update_device_tx (env : Env) (identity : UserInformation) (device : Reg.Device)
    (db : Db) : Tx :=
  let expected_resource_version := Reg.d_resource_version device in
  let expected_uid := Reg.d_uid device in
  let? (device, aliases) := device_to_entity device in
  let application := Dev.application device in
  let name := Dev.name device in
  let? current := ok_or NotFound (AppAccessor.get application db) in
  let? _ := ensure_with current identity Permission.Write NotFound in
  let? current := ok_or NotFound (DevAccessor.get application name db) in
  let? _ := check_versions expected_uid expected_resource_version
    (Dev.uid current) (Dev.resource_version current) in
  let device := Dev.set_deletion (Dev.deletion_timestamp current) device in
  if bool_decide (is_Some (Dev.deletion_timestamp device))
     && bool_decide (Dev.finalizers device = [])
  then
    let? db := DevAccessor.delete application name db in
    let? db := check_clean_app env application db in
    Ok (db, None)
  else
    let paths := diff_paths current device in
    if bool_decide (paths = []) then Ok (db, None)
    else
      match advance_from paths current device with
      | (_, Err e) => Err (advance_err e)
      | (device, Ok revision) =>
          let uid := Dev.uid current in
          let? db := map_err unique_conflict
            (DevAccessor.update (env_version env) device (Some aliases) db) in
          let events :=
            new_device instance application name (uuid_to_string uid) revision paths in
          Ok (send_to_outbox (env_now env) events db, Some events)
      end.

Definition update_device env identity device db : Response :=
  commit db (update_device_tx env identity device db).

Definition delete_device_tx (env : Env) (identity : UserInformation)
    (application device : string) (preconditions : option Preconditions) (db : Db) : Tx :=
  let? current := ok_or NotFound (DevAccessor.get application device db) in
  guard? bool_decide (Dev.deletion_timestamp current = None) else NotFound in
  let? app := ok_or NotFound (AppAccessor.get application db) in
  let? _ := ensure_with app identity Permission.Write NotFound in
  let? _ := check_preconditions preconditions (Dev.uid current)
    (Dev.resource_version current) in
  match advance_revision current with
  | (_, Err e) => Err (advance_err e)
  | (current, Ok revision) =>
      let uid := Dev.uid current in
      let? (db, path) :=
        if bool_decide (Dev.finalizers current = []) then
          let? db := DevAccessor.delete application device db in Ok (db, [])
        else
          let current := Dev.set_deletion (Some (env_now env)) current in
          let? db := DevAccessor.update (env_version env) current None db in
          Ok (db, [".metadata"]) in
      let events := new_device instance application device (uuid_to_string uid) revision path in
      Ok (send_to_outbox (env_now env) events db, Some events)
  end.

Definition delete_device env identity application device preconditions db : Response :=
  commit db (delete_device_tx env identity application device preconditions db).

(** ** The handlers preserve the database invariant *)

Lemma as_u64_range x : is_u64 (as_u64 x).
Proof. unfold is_u64, as_u64. apply Z.mod_pos_bound. unfold two64. lia. Qed.

Lemma as_u64_pos x : (0 ≤ as_u64 x)%Z.
Proof. apply as_u64_range. Qed.

Lemma row_counters_cast g r :
  is_u64 g → is_u64 r → (g ≤ r)%Z → row_counters_ok (as_i64 g) (as_i64 r).
Proof. intros. unfold row_counters_ok. by rw !as_u64_as_i64. Qed.

Lemma app_get_some name db app :
  AppAccessor.get name db = Some app →
  ∃ row, applications db !! name = Some row ∧ app = AppAccessor.from_row name row.
Proof. unfold AppAccessor.get. intros (row & ? & ?)%fmap_Some. eauto. Qed.

Lemma dev_get_some app name db d :
  DevAccessor.get app name db = Some d →
  ∃ row, devices db !! (app, name) = Some row ∧ d = DevAccessor.from_row app name row.
Proof. unfold DevAccessor.get. intros (row & ? & ?)%fmap_Some. eauto. Qed.

(** The record that [update_data] is called with after advancing. *)
Lemma app_advanced paths row name (app app' : App.t) r :
  advance_from paths (AppAccessor.from_row name row) app = (app', Ok r) →
  app_row_ok row → (0 ≤ App.revision app)%Z →
  app' = App.set_generation_f (App.generation app') (App.set_revision_f r app) ∧
  r = (as_u64 (ar_revision row) + 1)%Z ∧
  row_counters_ok (as_i64 (App.generation app')) (as_i64 (App.revision app')).
Proof.
  intros Ha [_ Hc] Hz. pose proof (advance_from_put _ _ _ _ _ Ha) as Hput.
  destruct (advance_from_counters _ _ _ _ _ Ha) as (Hr & ? & ? & ?);
    [apply as_u64_range..|done|done|].
  split_and!; [done| |by apply row_counters_cast].
  apply advance_from_ok in Ha as (? & Hr' & _). simpl in *. congruence.
Qed.

Lemma perform_update_app_ok env identity app aliases eu ev db db' events :
  db_ok db → perform_update_app env identity app aliases eu ev db = Ok (db', events) →
  (0 ≤ App.revision app)%Z →
  (∀ l, aliases = Some l → mkAlias "name" (App.name app) ∈ l) →
  db_ok db'.
Proof.
  intros Hok Hp Hz Hal. unfold perform_update_app in Hp.
  apply rbind_ok_inv in Hp as (current & Hcur%ok_or_ok%app_get_some & Hp).
  destruct Hcur as (row & Hrow & ->).
  apply rbind_ok_inv in Hp as ([] & _ & Hp). apply rbind_ok_inv in Hp as (c & _ & Hp).
  set (app1 := App.set_deletion _ app) in *.
  destruct (bool_decide (is_Some (App.deletion_timestamp app1)) && _) eqn:Hdel.
  - apply rbind_ok_inv in Hp as (db1 & Hdb1 & [= <- _]). by eapply app_delete_ok.
  - case_bool_decide; [by simplify_eq|].
    destruct (advance_from _ _ app1) as [app2 [r|e]] eqn:Ha; [|done].
    apply rbind_ok_inv in Hp as (db1 & Hdb1 & [= <- _]).
    destruct (AppAccessor.update_data _ app2 aliases db) eqn:Hu; [|done]. simplify_eq/=.
    apply app_advanced in Ha as (Happ2 & _ & Hcnt); [|by eapply ok_app_row|done].
    assert (Hdf : App.deletion_timestamp app2 = App.deletion_timestamp app1 ∧
      App.finalizers app2 = App.finalizers app1 ∧ App.name app2 = App.name app)
      by (rw Happ2; done).
    destruct Hdf as (Hd2 & Hf2 & Hn2).
    eapply app_update_ok; [done..| |]; rw ?Hn2; [done|].
    intros row' _. split; simpl; [|done]. rw Hd2 Hf2. intros Hs Hf.
    rw !bool_decide_true in Hdel; done.
Qed.

Lemma check_clean_app_ok env id db db' :
  db_ok db → check_clean_app env id db = Ok db' → db_ok db'.
Proof.
  intros Hok Hc. unfold check_clean_app in Hc.
  destruct (AppAccessor.get id db) as [app|] eqn:Hg; [|by simplify_eq].
  case_bool_decide; [by simplify_eq|]. case_match; [by simplify_eq|].
  apply rbind_ok_inv in Hc as ([db1 evs] & Hp & [= <-]).
  eapply perform_update_app_ok; [done..| |done].
  apply app_get_some in Hg as (row & _ & ->). apply as_u64_pos.
Qed.

(** A transaction body that keeps the invariant. *)
Definition tx_ok (tx : Db → Tx) : Prop :=
  ∀ db db' evs, db_ok db → tx db = Ok (db', evs) → db_ok db'.

Lemma commit_ok tx db : tx_ok tx → db_ok db → db_ok (r_db (commit db (tx db))).
Proof. intros Htx Hok. unfold commit. destruct (tx db) as [[db' [evs|]]|e] eqn:Etx; simpl; eauto. Qed.

Lemma create_app_tx_ok env identity application : tx_ok (create_app_tx env identity application).
Proof.
  intros db db' evs Hok Htx. unfold create_app_tx in Htx.
  apply rbind_ok_inv in Htx as ([app al] & He & Htx).
  apply rbind_ok_inv in Htx as (db1 & Hdb1 & [= <- _]).
  destruct (AppAccessor.create _ _ _ _ _) eqn:Hc; [|done]. simplify_eq/=.
  apply app_to_entity_ok in He as (Hn & Hg & Hr & _ & _ & _ & _ & _ & Hal).
  apply db_ok_outbox. eapply app_create_ok; [done..| |done|done]. simpl. by rw Hn.
Qed.

Lemma update_app_tx_ok env identity application : tx_ok (update_app_tx env identity application).
Proof.
  intros db db' evs Hok Htx. unfold update_app_tx in Htx.
  apply rbind_ok_inv in Htx as ([app al] & He & Htx).
  apply rbind_ok_inv in Htx as ([db1 events] & Hp & [= <- _]).
  apply app_to_entity_ok in He as (Hn & Hg & Hr & _ & _ & _ & _ & _ & Hal).
  apply db_ok_outbox. eapply perform_update_app_ok; [done..| |]; [lia|].
  intros l [= <-]. by rw Hn.
Qed.

Lemma delete_app_tx_ok env identity id pre : tx_ok (delete_app_tx env identity id pre).
Proof.
  intros db db' evs Hok Htx. unfold delete_app_tx in Htx.
  apply rbind_ok_inv in Htx as (current & Hcur%ok_or_ok%app_get_some & Htx).
  destruct Hcur as (row & Hrow & ->). case_bool_decide; [|done].
  apply rbind_ok_inv in Htx as ([] & _ & Htx). apply rbind_ok_inv in Htx as (c & _ & Htx).
  pose proof (dev_delete_app_ok id db Hok) as Hok1.
  destruct (DevAccessor.delete_app id db) as [db1 n] eqn:Hd. simpl in Hok1.
  assert (Hrow1 : applications db1 !! id = Some row) by (unfold DevAccessor.delete_app in Hd; by simplify_eq/=).
  set (cur := if (0 <? n)%Z then _ else _) in *.
  assert (Hcur : App.revision cur = as_u64 (ar_revision row) ∧
    App.generation cur = as_u64 (ar_generation row) ∧ App.name cur = id)
    by (unfold cur; destruct (0 <? n)%Z; by split_and!).
  destruct Hcur as (Hr & Hg & Hn).
  destruct (advance_revision cur) as [cur' [r|e]] eqn:Ha; [|done].
  apply rbind_ok_inv in Htx as ([db2 paths] & Hp & [= <- _]). apply db_ok_outbox.
  apply advance_revision_ok in Ha as (Hr' & -> & Hi); [|simpl; rw Hr; apply as_u64_range].
  case_bool_decide as Hfin.
  - apply rbind_ok_inv in Hp as (db3 & Hdel & [= <- _]). by eapply app_delete_ok.
  - apply rbind_ok_inv in Hp as (db3 & Hu & [= <- _]).
    eapply app_update_ok; [done..| |]; [done|]. intros row' _.
    destruct (ok_app_row _ Hok1 _ _ Hrow1) as [_ Hc]. unfold row_counters_ok in Hc.
    split; simpl in *; [done|]. rw Hg. apply row_counters_cast; [apply as_u64_range|done|lia].
Qed.

Lemma create_device_tx_ok env identity device : tx_ok (create_device_tx env identity device).
Proof.
  intros db db' evs Hok Htx. unfold create_device_tx in Htx.
  apply rbind_ok_inv in Htx as ([d al] & He & Htx).
  apply rbind_ok_inv in Htx as (app & _ & Htx). apply rbind_ok_inv in Htx as ([] & _ & Htx).
  apply rbind_ok_inv in Htx as (db1 & Hdb1 & [= <- _]).
  destruct (DevAccessor.create _ _ _ _ _ _) eqn:Hc; [|done]. simplify_eq/=.
  apply device_to_entity_ok in He as (Hn & _ & Hg & Hr & _ & _ & _ & Hal).
  apply db_ok_outbox. eapply dev_create_ok; [done..| |done|done]. simpl. by rw Hn.
Qed.

Lemma update_device_tx_ok env identity device : tx_ok (update_device_tx env identity device).
Proof.
  intros db db' evs Hok Htx. unfold update_device_tx in Htx.
  apply rbind_ok_inv in Htx as ([d al] & He & Htx).
  apply device_to_entity_ok in He as (Hn & _ & Hg & Hr & _ & _ & _ & Hal). rw -Hn in Hal.
  apply rbind_ok_inv in Htx as (app & _ & Htx). apply rbind_ok_inv in Htx as ([] & _ & Htx).
  apply rbind_ok_inv in Htx as (current & Hcur%ok_or_ok%dev_get_some & Htx).
  destruct Hcur as (row & Hrow & ->). apply rbind_ok_inv in Htx as (c & _ & Htx).
  set (d1 := Dev.set_deletion _ d) in *.
  destruct (bool_decide (is_Some (Dev.deletion_timestamp d1)) && _) eqn:Hdel.
  - apply rbind_ok_inv in Htx as (db1 & Hdb1 & Htx).
    apply rbind_ok_inv in Htx as (db2 & Hdb2 & [= <- _]).
    eapply check_clean_app_ok; [|done]. by eapply dev_delete_ok.
  - case_bool_decide; [by simplify_eq|].
    destruct (advance_from _ _ d1) as [d2 [r|e]] eqn:Ha; [|done].
    apply rbind_ok_inv in Htx as (db1 & Hdb1 & [= <- _]). apply db_ok_outbox.
    destruct (DevAccessor.update _ d2 _ db) eqn:Hu; [|done]. simplify_eq/=.
    pose proof (advance_from_put _ _ _ _ _ Ha) as Hput.
    destruct (ok_dev_row _ Hok _ _ Hrow) as [_ Hcnt].
    destruct (advance_from_counters _ _ _ _ _ Ha) as (_ & ? & ? & ?);
      [apply as_u64_range..|done|simpl; lia|].
    assert (Hdf : Dev.deletion_timestamp d2 = Dev.deletion_timestamp d1 ∧
      Dev.finalizers d2 = Dev.finalizers d1 ∧ Dev.name d2 = Dev.name d) by (rw Hput; done).
    destruct Hdf as (Hd2 & Hf2 & Hn2).
    eapply dev_update_ok; [done..| |]; rw ?Hn2; [by intros l [= <-]|].
    intros row' _. split; simpl; [|by apply row_counters_cast]. rw Hd2 Hf2. intros Hs Hf.
    rw !bool_decide_true in Hdel; done.
Qed.

Lemma delete_device_tx_ok env identity app device pre :
  tx_ok (delete_device_tx env identity app device pre).
Proof.
  intros db db' evs Hok Htx. unfold delete_device_tx in Htx.
  apply rbind_ok_inv in Htx as (current & Hcur%ok_or_ok%dev_get_some & Htx).
  destruct Hcur as (row & Hrow & ->). case_bool_decide; [|done].
  apply rbind_ok_inv in Htx as (a & _ & Htx). apply rbind_ok_inv in Htx as ([] & _ & Htx).
  apply rbind_ok_inv in Htx as (c & _ & Htx).
  destruct (advance_revision _) as [cur' [r|e]] eqn:Ha; [|done].
  apply rbind_ok_inv in Htx as ([db2 paths] & Hp & [= <- _]). apply db_ok_outbox.
  apply advance_revision_ok in Ha as (Hr' & -> & Hi); [|apply as_u64_range].
  case_bool_decide as Hfin.
  - apply rbind_ok_inv in Hp as (db3 & Hdel & [= <- _]). by eapply dev_delete_ok.
  - apply rbind_ok_inv in Hp as (db3 & Hu & [= <- _]).
    eapply dev_update_ok; [done..| |]; [done|]. intros row' _.
    destruct (ok_dev_row _ Hok _ _ Hrow) as [_ Hc]. unfold row_counters_ok in Hc.
    split; simpl in *; [done|]. apply row_counters_cast; [apply as_u64_range|done|lia].
Qed.
End Service.
