(* ===== verification/Admin.v ===== *)
(** * Application administration

    [device-management-service/src/service/admin/mod.rs]: transferring the
    ownership of an application from one user to another (initiate, read,
    cancel, accept), and its member list.  Keycloak, which maps user names to
    user IDs and back, is a parameter. *)

From S2P Require Import Prelude Json Versioning Auth Events Store Outbox Registry Management.

(** [KeycloakClient], as far as the service uses it. *)
Class Keycloak := {
  id_from_username : string → option string;
  username_from_id : string → option string;
}.

(** User names and IDs are unique and assigned to each other. *)
Class KeycloakLaws `{Keycloak} := {
  keycloak_username u i : id_from_username u = Some i → username_from_id i = Some u;
  keycloak_id u i : username_from_id i = Some u → id_from_username u = Some i;
  keycloak_named u i : username_from_id i = Some u → u ≠ "";
  keycloak_nonempty u i : id_from_username u = Some i → i ≠ "";
}.

(** A realm whose users are called by their own ID. *)
Definition identity_keycloak : Keycloak := {|
  id_from_username := λ u, if is_empty u then None else Some u;
  username_from_id := λ i, if is_empty i then None else Some i;
|}.

#[global] Instance identity_keycloak_laws : @KeycloakLaws identity_keycloak.
Proof. split; simpl; intros u i; destruct u, i; simpl; congruence. Qed.

(** [service-api/src/admin/mod.rs] *)
Record Members := mkMembers {
  m_resource_version : option string;
  m_members : list (string * MemberEntry);
}.

Section Admin.
Context `{UuidCodec, Keycloak}.

(** ** Ownership transfer

    The handlers return the database of the committed transaction. *)

Definition transfer (identity : UserInformation) (app_id new_user : string) (db : Db)
    : result Db ServiceError :=
  guard? negb (is_empty new_user) else BadRequest "Invalid user id" in
  let? app := ok_or NotFound (AppAccessor.get app_id db) in
  let? _ := ensure_with app identity Permission.Owner NotFound in
  match id_from_username new_user with
  | Some u => Ok (AppAccessor.update_transfer (App.name app) (user_id identity) (Some u) db)
  | None => Err (BadRequest ("Username " +:+ new_user +:+ " does not exist"))
  end.

(** The owner or the receiver of a transfer. *)
Definition is_party (app : App.t) (identity : UserInformation) : bool :=
  bool_decide (App.transfer_owner app = user_id identity)
  || bool_decide (App.owner app = user_id identity).

Definition read_transfer_state (identity : UserInformation) (app_id : string) (db : Db)
    : result (option string) ServiceError :=
  let? app := ok_or NotFound (AppAccessor.get app_id db) in
  if is_party app identity then
    match App.transfer_owner app with
    | Some new_user =>
        match username_from_id new_user with
        | Some u => Ok (Some u)
        | None => Err (Internal "Transfer owner is no longer a keycloak user")
        end
    | None => Ok None
    end
  else Err NotFound.

Definition cancel (identity : UserInformation) (app_id : string) (db : Db)
    : result Db ServiceError :=
  let? app := ok_or NotFound (AppAccessor.get app_id db) in
  if is_party app identity then
    Ok (AppAccessor.update_transfer (App.name app) (App.owner app) None db)
  else Err NotFound.

Definition accept (identity : UserInformation) (app_id : string) (db : Db)
    : result Db ServiceError :=
  let? app := ok_or NotFound (AppAccessor.get app_id db) in
  if bool_decide (App.transfer_owner app = user_id identity) then
    Ok (AppAccessor.update_transfer (App.name app) (user_id identity) None db)
  else Err NotFound.

(** ** Members *)

(** The loop of [get_members]: members unknown to Keycloak are skipped. *)
Definition members_to_names (members : list (string * MemberEntry))
    : list (string * MemberEntry) :=
  foldl (λ acc '(k, v),
      if is_empty k then im_insert k v acc
      else
        match username_from_id k with
        | Some u => im_insert u v acc
        | None => acc
        end) [] members.

Definition get_members (identity : UserInformation) (app_id : string) (db : Db)
    : result Members ServiceError :=
  let? app := ok_or NotFound (AppAccessor.get app_id db) in
  let? _ := ensure_with app identity Permission.Admin NotFound in
  Ok (mkMembers (Some (uuid_to_string (App.resource_version app)))
        (members_to_names (App.members app))).

(** The loop of [set_members]: an unknown user name is an error. *)
Fixpoint names_to_members (members : list (string * MemberEntry))
    (acc : list (string * MemberEntry)) : result (list (string * MemberEntry)) ServiceError :=
  match members with
  | [] => Ok acc
  | (k, v) :: rest =>
      if is_empty k then names_to_members rest (im_insert k v acc)
      else
        match id_from_username k with
        | Some u => names_to_members rest (im_insert u v acc)
        | None => Err (BadRequest ("Username " +:+ k +:+ " does not exist"))
        end
  end.

Definition set_members (identity : UserInformation) (app_id : string) (members : Members)
    (db : Db) : result Db ServiceError :=
  let? app := ok_or NotFound (AppAccessor.get app_id db) in
  let? _ :=
    match m_resource_version members with
    | Some expected =>
        if string_eqb expected (uuid_to_string (App.resource_version app)) then Ok tt
        else Err OptimisticLockFailed
    | None => Ok tt
    end in
  let? _ := ensure_with app identity Permission.Admin NotFound in
  let? id_members := names_to_members (m_members members) [] in
  Ok (AppAccessor.set_members app_id id_members db).

(** ** Facts *)

Lemma with_applications_alter_ok f app db :
  (∀ r, app_row_ok r → app_row_ok (f r)) →
  db_ok db → db_ok (with_applications (alter f app (applications db)) db).
Proof.
  intros Hf []. assert (Hs : ∀ k, is_Some (applications db !! k) →
    is_Some (alter f app (applications db) !! k)) by (intros; by apply lookup_alter_is_Some).
  split; simpl; intros *; eauto.
  - intros [(-> & r & Hr & ->)|[_ Hr]]%lookup_alter_Some; eauto.
  - intros [(-> & r & Hr & ->)|[_ Hr]]%lookup_alter_Some; eauto.
Qed.

Lemma update_transfer_ok app o t db : db_ok db → db_ok (AppAccessor.update_transfer app o t db).
Proof. by apply with_applications_alter_ok. Qed.

Lemma admin_set_members_ok app m db : db_ok db → db_ok (AppAccessor.set_members app m db).
Proof. by apply with_applications_alter_ok. Qed.

Lemma get_update_transfer app o t db :
  AppAccessor.get app (AppAccessor.update_transfer app o t db) =
  (λ a, App.mk (App.uid a) (App.name a) (App.labels a) (App.annotations a)
     (App.creation_timestamp a) (App.resource_version a) (App.generation a) (App.revision a)
     (App.deletion_timestamp a) (App.finalizers a) o t (App.members a) (App.data a))
  <$> AppAccessor.get app db.
Proof.
  unfold AppAccessor.get, AppAccessor.update_transfer. simpl. rw lookup_alter_eq.
  by destruct (applications db !! app).
Qed.

Lemma get_set_members app m db :
  AppAccessor.get app (AppAccessor.set_members app m db) =
  (λ a, App.mk (App.uid a) (App.name a) (App.labels a) (App.annotations a)
     (App.creation_timestamp a) (App.resource_version a) (App.generation a) (App.revision a)
     (App.deletion_timestamp a) (App.finalizers a) (App.owner a) (App.transfer_owner a) m
     (App.data a))
  <$> AppAccessor.get app db.
Proof.
  unfold AppAccessor.get, AppAccessor.set_members. simpl. rw lookup_alter_eq.
  by destruct (applications db !! app).
Qed.

(** Mapping names to IDs and back; the empty name stands for everyone. *)
Definition member_id (k : string) : option string :=
  if is_empty k then Some k else id_from_username k.
Definition member_name (k : string) : option string :=
  if is_empty k then Some k else username_from_id k.
Definition same_member (m n : string * MemberEntry) : Prop :=
  member_id m.1 = Some n.1 ∧ m.2 = n.2.

Lemma im_insert_new {V} k (v : V) m : k ∉ m.*1 → im_insert k v m = m ++ [(k, v)].
Proof.
  induction m as [|[k' v'] m IH]; simpl; intros Hk; [done|].
  destruct (string_eqb_spec k k'); [set_solver|]. rw IH //. set_solver.
Qed.

Lemma names_to_members_cons k v rest acc :
  names_to_members ((k, v) :: rest) acc =
  match member_id k with
  | Some i => names_to_members rest (im_insert i v acc)
  | None => Err (BadRequest ("Username " +:+ k +:+ " does not exist"))
  end.
Proof. simpl. unfold member_id. by destruct (is_empty k). Qed.

Lemma member_name_id `{!KeycloakLaws} k i : member_id k = Some i → member_name i = Some k.
Proof.
  unfold member_id, member_name. destruct (is_empty k) eqn:Hk.
  - intros [= <-]. by rw Hk.
  - intros Hi. destruct (is_empty i) eqn:He; [|by apply keycloak_username].
    apply is_empty_true in He. by apply keycloak_nonempty in Hi.
Qed.

Lemma names_to_members_ok `{!KeycloakLaws} ms acc r :
  names_to_members ms acc = Ok r → NoDup ms.*1 →
  (∀ k i, k ∈ ms.*1 → member_id k = Some i → i ∉ acc.*1) →
  ∃ l, r = acc ++ l ∧ Forall2 same_member ms l.
Proof.
  revert acc. induction ms as [|[k v] ms IH]; intros acc Hr Hnd Hdis.
  - injection Hr as <-. exists []. by rw app_nil_r.
  - rw names_to_members_cons in Hr. destruct (member_id k) as [i|] eqn:Hi; [|done].
    apply NoDup_cons in Hnd as [Hk Hnd].
    rw im_insert_new in Hr; [apply (Hdis k); set_solver|].
    apply IH in Hr as (l & -> & Hl); [|done|].
    + exists ((i, v) :: l). split; [by rw -app_assoc|]. by constructor.
    + intros k' i' Hk' Hi'. rw fmap_app elem_of_app /=. intros [Hin|Hin].
      * by apply (Hdis k' i'); [set_solver|..].
      * apply list_elem_of_singleton in Hin as ->.
        apply member_name_id in Hi, Hi'. simplify_eq. done.
Qed.

Lemma members_to_names_ok `{!KeycloakLaws} ms l acc :
  Forall2 same_member ms l → NoDup (acc ++ ms).*1 →
  foldl (λ acc '(k, v),
      if is_empty k then im_insert k v acc
      else match username_from_id k with Some u => im_insert u v acc | None => acc end) acc l
  = acc ++ ms.
Proof.
  intros Hl. revert acc. induction Hl as [|[k v] [i w] ms l [Hi Hv] Hl IH]; intros acc Hnd; simpl in *.
  - by rw app_nil_r.
  - subst w. apply member_name_id in Hi. unfold member_name in Hi.
    assert (Hk : k ∉ acc.*1) by (rw fmap_app in Hnd; apply NoDup_app in Hnd; set_solver).
    destruct (is_empty i); rw ?Hi; [injection Hi as ->|]; rw im_insert_new // IH -app_assoc //.
Qed.

(** Setting the members of an application and reading them back gives the
    same member list, in the same order, for every list of known users (and
    possibly the empty name). *)
Theorem set_get_members `{!KeycloakLaws} identity app_id rv ms db db' :
  set_members identity app_id (mkMembers rv ms) db = Ok db' → NoDup ms.*1 →
  authorize (default (App.mk 0 "" ∅ ∅ 0 0 0 0 None [] None None [] Null)
    (AppAccessor.get app_id db')) identity Permission.Admin = Allow →
  ∃ rv', get_members identity app_id db' = Ok (mkMembers (Some rv') ms).
Proof.
  intros Hs Hnd Hau. unfold set_members in Hs.
  apply rbind_ok_inv in Hs as (app & Hget%ok_or_ok & Hs).
  apply rbind_ok_inv in Hs as ([] & _ & Hs). apply rbind_ok_inv in Hs as ([] & _ & Hs).
  apply rbind_ok_inv in Hs as (ids & Hn & [= <-]). simpl in Hn.
  apply names_to_members_ok in Hn as (l & -> & Hl); [|done|set_solver].
  unfold get_members. rw get_set_members Hget /= in Hau *. unfold ensure_with.
  rw Hau /=. eexists. do 2 f_equal. apply (members_to_names_ok ms l []); done.
Qed.
(** What the registry has to store for an ID when it is given names: the entry of the name that
    stands for it, of the last one if there are several. *)
Definition resolved (wanted : list (string * MemberEntry)) (i : string) : option MemberEntry :=
  last (filter (λ kv, member_id kv.1 = Some i) wanted).*2.

Lemma last_cons_default {A} (x : A) l : last (x :: l) = Some (default x (last l)).
Proof. destruct l as [|y l]; [done|]. rewrite last_cons_cons. by destruct (last (y :: l)) eqn:E; [|apply last_None in E]. Qed.

Lemma resolved_cons k v ms i :
  resolved ((k, v) :: ms) i = if bool_decide (member_id k = Some i) then Some (default v (resolved ms i)) else resolved ms i.
Proof.
  unfold resolved. rw filter_cons /=. case_decide; [rw bool_decide_true //|by rw bool_decide_false]. rw fmap_cons. apply last_cons_default.
Qed.

Lemma resolved_last ms k v i : member_id k = Some i → resolved (ms ++ [(k, v)]) i = Some v.
Proof. intros Hk. unfold resolved. rw filter_app fmap_app filter_cons_True // filter_nil /=. by rw last_snoc. Qed.

Lemma names_to_members_get ms acc r i :
  names_to_members ms acc = Ok r →
  im_get i r = match resolved ms i with Some v => Some v | None => im_get i acc end.
Proof.
  revert acc. induction ms as [|[k v] ms IH]; intros acc; [by intros [= <-]|].
  rw names_to_members_cons resolved_cons. destruct (member_id k) as [i'|] eqn:Hi; [|done].
  intros Hr. rw (IH _ Hr) im_get_insert. destruct (string_eqb_spec i i') as [->|Hne].
  - rw bool_decide_true //. by destruct (resolved ms i').
  - rw bool_decide_false //. congruence.
Qed.

Lemma names_to_members_err ms acc e :
  names_to_members ms acc = Err e →
  ∃ k, k ∈ ms.*1 ∧ member_id k = None ∧ e = BadRequest ("Username " +:+ k +:+ " does not exist").
Proof.
  revert acc. induction ms as [|[k v] ms IH]; intros acc; [done|]. rw names_to_members_cons fmap_cons.
  destruct (member_id k) as [i|] eqn:Hi.
  - intros (k' & Hin & Hk)%IH. exists k'. split; [by right|done].
  - intros [= <-]. exists k. split; [by left|done].
Qed.

Lemma names_to_members_known ms acc r k :
  names_to_members ms acc = Ok r → k ∈ ms.*1 → is_Some (member_id k).
Proof.
  revert acc. induction ms as [|[k' v] ms IH]; intros acc Hr Hin; [by apply elem_of_nil in Hin|].
  rw names_to_members_cons in Hr. destruct (member_id k') as [i|] eqn:Hi; [|done].
  rw fmap_cons in Hin. apply elem_of_cons in Hin as [->|Hin]; [by eexists|by eapply IH].
Qed.

(** The registry has these members, and is otherwise as it was. *)
Definition members_stored (app_id : string) (wanted : list (string * MemberEntry)) (db db' : Db) : Prop :=
  ∃ app app', AppAccessor.get app_id db = Some app ∧ AppAccessor.get app_id db' = Some app' ∧
    (∀ k, k ∈ wanted.*1 → is_Some (member_id k)) ∧ (∀ i, im_get i (App.members app') = resolved wanted i) ∧
    app_into app' = app_into app ∧ App.owner app' = App.owner app ∧
    App.transfer_owner app' = App.transfer_owner app ∧
    (∀ n, n ≠ app_id → AppAccessor.get n db' = AppAccessor.get n db) ∧
    devices db' = devices db ∧ outbox db' = outbox db.

(** Why members are refused. *)
Definition members_refused (identity : UserInformation) (app_id : string) (members : Members) (db : Db)
    (e : ServiceError) : Prop :=
  match AppAccessor.get app_id db with
  | None => e = NotFound
  | Some app =>
      e = OptimisticLockFailed ∧ (∃ v, m_resource_version members = Some v ∧ v ≠ uuid_to_string (App.resource_version app)) ∨
      e = NotFound ∧ authorize app identity Permission.Admin = Deny ∨
      ∃ k, k ∈ (m_members members).*1 ∧ member_id k = None ∧ e = BadRequest ("Username " +:+ k +:+ " does not exist")
  end.

(** Setting the members: those resolved are stored, if the version is the current one and the
    user may administrate the application, or nothing is changed. *)
Lemma set_members_outcome identity app_id members db :
  match set_members identity app_id members db with
  | Ok db' => members_stored app_id (m_members members) db db' ∧
      ∃ app, AppAccessor.get app_id db = Some app ∧ authorize app identity Permission.Admin = Allow ∧
        ∀ v, m_resource_version members = Some v → v = uuid_to_string (App.resource_version app)
  | Err e => members_refused identity app_id members db e
  end.
Proof.
  unfold set_members, members_refused. destruct (AppAccessor.get app_id db) as [app|] eqn:Hget; [|done]. simpl.
  destruct (match m_resource_version members with Some _ => _ | None => _ end) as [[]|e] eqn:Hrv; simpl; cycle 1.
  { left. destruct (m_resource_version members) as [v|]; [|done].
    destruct (string_eqb_spec v (uuid_to_string (App.resource_version app))); [done|]. injection Hrv as <-. split; [done|]. by exists v. }
  unfold ensure_with. destruct (authorize app identity Permission.Admin) eqn:Ha; simpl; [|by right; left].
  destruct (names_to_members (m_members members) []) as [l|e] eqn:Hn; simpl; [|right; right; by apply names_to_members_err in Hn].
  split.
  - exists app. rw Hget get_set_members Hget /=. eexists. split_and!; try done.
    + intros k. by eapply names_to_members_known.
    + intros i. simpl. rw (names_to_members_get _ _ _ i Hn). by destruct (resolved _ i).
    + intros n Hne. unfold AppAccessor.get, AppAccessor.set_members. simpl. by rw lookup_alter_ne.
  - exists app. split_and!; [done..|]. intros v Hm. rw Hm in Hrv.
    by destruct (string_eqb_spec v (uuid_to_string (App.resource_version app))).
Qed.
End Admin.

Section Transfer.
Context `{UuidCodec, Keycloak}.

(** Handing over an application: the owner offers it to a user, who
    accepts.  The receiver then is the owner, no transfer is pending, nothing
    else about the application changed, and the former owner (if neither a
    system administrator nor a member) has no access any more. *)
Theorem transfer_then_accept (owner receiver : UserDetails) new_user app_id (app : App.t) db :
  AppAccessor.get app_id db = Some app → App.owner app = Some (ud_user_id owner) →
  new_user ≠ "" → id_from_username new_user = Some (ud_user_id receiver) →
  ∃ db1 db2 app2,
    transfer (Authenticated owner) app_id new_user db = Ok db1 ∧
    accept (Authenticated receiver) app_id db1 = Ok db2 ∧
    AppAccessor.get app_id db2 = Some app2 ∧
    App.owner app2 = Some (ud_user_id receiver) ∧ App.transfer_owner app2 = None ∧
    app_into app2 = app_into app ∧ App.members app2 = App.members app ∧
    (∀ p, ud_user_id owner ≠ ud_user_id receiver → is_admin_details owner = false →
       im_get (ud_user_id owner) (App.members app) = None →
       authorize app2 (Authenticated owner) p = Deny).
Proof.
  intros Hget Hown Hne Hid. unfold transfer. rw Hget /=.
  assert (Hn : App.name app = app_id) by (apply app_get_some in Hget as (? & _ & ->); done).
  assert (He : is_empty new_user = false) by (by destruct new_user).
  rw He /= Hid. unfold ensure_with.
  assert (Hall : authorize app (Authenticated owner) Permission.Owner = Allow).
  { apply authorize_spec. right; right; left. simpl. by rw Hown. }
  rw Hall /= Hn. do 3 eexists. split; [done|].
  unfold accept. rw get_update_transfer Hget /= bool_decide_true // Hn.
  split; [done|]. rw !get_update_transfer Hget /=. split; [done|].
  split_and!; try done. intros p Hdiff Hadm Hmem.
  clear Hall.  destruct (authorize _ _ _) eqn:Ha; [|done].
  apply authorize_spec in Ha as [Ha|[Ha|[[_ Ha]|(m & Hm & _)]]]; cbn in *; congruence.
Qed.

(** An ownership transfer is completed only by the user it was offered to:
    if an authenticated user's [accept] succeeds, that user was the pending
    receiver, and becomes the owner. *)
Theorem accept_only_receiver (user : UserDetails) app_id db db' :
  accept (Authenticated user) app_id db = Ok db' →
  (∃ app, AppAccessor.get app_id db = Some app ∧
     App.transfer_owner app = Some (ud_user_id user)) ∧
  (∃ app', AppAccessor.get app_id db' = Some app' ∧
     App.owner app' = Some (ud_user_id user) ∧ App.transfer_owner app' = None).
Proof.
  unfold accept. intros Ha. apply rbind_ok_inv in Ha as (app & Hget%ok_or_ok & Ha).
  case_bool_decide as Ht; [|done]. injection Ha as <-.
  assert (Hn : App.name app = app_id) by (apply app_get_some in Hget as (? & _ & ->); done).
  split; [eauto|]. rw Hn get_update_transfer Hget /=. eauto.
Qed.

(** The check of [accept] compares two optional user IDs, and an anonymous
    user has none: on an application without a pending transfer the call
    succeeds, removes the owner, and thereby gives everyone every permission. *)
Theorem accept_anonymous_disowns app_id (app : App.t) db :
  AppAccessor.get app_id db = Some app → App.transfer_owner app = None →
  ∃ db' app', accept Anonymous app_id db = Ok db' ∧
    AppAccessor.get app_id db' = Some app' ∧ App.owner app' = None ∧
    ∀ identity p, authorize app' identity p = Allow.
Proof.
  intros Hget Ht. unfold accept. rw Hget /= bool_decide_true //.
  assert (Hn : App.name app = app_id) by (apply app_get_some in Hget as (? & _ & ->); done).
  do 2 eexists. split; [done|]. rw Hn get_update_transfer Hget /=. split_and!; try done.
  intros identity p. apply authorize_spec. by right; left.
Qed.
End Transfer.
