(* ===== verification/Lifecycle.v ===== *)
(** * The registry over time

    The requests of the management and the administration service, one after
    the other, against the registry database: what holds in every reachable
    state, and what a client of the service can rely on. *)

From S2P Require Import Prelude Json Versioning Auth Events Store Outbox Registry Management Admin.

(** ** Requests *)

Inductive Request : Type :=
| CreateApp (application : Reg.Application)
| UpdateApp (application : Reg.Application)
| DeleteApp (id : string) (preconditions : option Preconditions)
| CreateDevice (device : Reg.Device)
| UpdateDevice (device : Reg.Device)
| DeleteDevice (application device : string) (preconditions : option Preconditions)
| Transfer (app_id new_user : string)
| Cancel (app_id : string)
| Accept (app_id : string)
| SetMembers (app_id : string) (members : Members).

Section Registry.
Context `{UuidCodec, ClientApi, Keycloak} {E : Type}.
Context (instance : string) (sender : list Event.t → result unit E).

(** The administrative requests do not send events. *)
Definition admin_response (db : Db) (r : result Db ServiceError) : Response (E := E) :=
  match r with
  | Ok db' => mkResponse db' None (Ok tt)
  | Err e => mkResponse db None (Err (Service e))
  end.

Definition handle_request (env : Env) (identity : UserInformation) (r : Request) (db : Db)
    : Response (E := E) :=
  match r with
  | CreateApp a => create_app instance sender env identity a db
  | UpdateApp a => update_app instance sender env identity a db
  | DeleteApp id pre => delete_app instance sender env identity id pre db
  | CreateDevice d => create_device instance sender env identity d db
  | UpdateDevice d => update_device instance sender env identity d db
  | DeleteDevice a d pre => delete_device instance sender env identity a d pre db
  | Transfer a u => admin_response db (transfer identity a u db)
  | Cancel a => admin_response db (cancel identity a db)
  | Accept a => admin_response db (accept identity a db)
  | SetMembers a m => admin_response db (set_members identity a m db)
  end.

(** The states of the registry, from an empty database; the outbox controller
    removes entries in between. *)
Inductive reachable : Db → Prop :=
| reachable_empty : reachable empty_db
| reachable_request env identity r db :
    reachable db → reachable (r_db (handle_request env identity r db))
| reachable_seen ev db :
    reachable db → reachable (with_outbox (outbox_mark_seen (entry_of_event ev) (outbox db)).1 db).

(** ** The invariant *)

Lemma admin_response_ok db r :
  db_ok db → (∀ db', r = Ok db' → db_ok db') → db_ok (r_db (admin_response db r)).
Proof. destruct r; simpl; auto. Qed.

Lemma transfer_ok identity a u db db' : db_ok db → transfer identity a u db = Ok db' → db_ok db'.
Proof. unfold transfer. intros Hok Ht. split_all. by apply update_transfer_ok. Qed.

Lemma cancel_ok identity a db db' : db_ok db → cancel identity a db = Ok db' → db_ok db'.
Proof. unfold cancel. intros Hok Ht. split_all. by apply update_transfer_ok. Qed.

Lemma accept_ok identity a db db' : db_ok db → accept identity a db = Ok db' → db_ok db'.
Proof. unfold accept. intros Hok Ht. split_all. by apply update_transfer_ok. Qed.

Lemma set_members_ok identity a m db db' :
  db_ok db → set_members identity a m db = Ok db' → db_ok db'.
Proof. unfold set_members. intros Hok Ht. split_all; by apply admin_set_members_ok. Qed.

Lemma handle_request_ok env identity r db :
  db_ok db → db_ok (r_db (handle_request env identity r db)).
Proof.
  intros Hok. destruct r; simpl.
  - by apply commit_ok; [apply create_app_tx_ok|].
  - by apply commit_ok; [apply update_app_tx_ok|].
  - by apply commit_ok; [apply delete_app_tx_ok|].
  - by apply commit_ok; [apply create_device_tx_ok|].
  - by apply commit_ok; [apply update_device_tx_ok|].
  - by apply commit_ok; [apply delete_device_tx_ok|].
  - apply admin_response_ok; [done|]. intros db'. by apply transfer_ok.
  - apply admin_response_ok; [done|]. intros db'. by apply cancel_ok.
  - apply admin_response_ok; [done|]. intros db'. by apply accept_ok.
  - apply admin_response_ok; [done|]. intros db'. by apply set_members_ok.
Qed.

Lemma reachable_db_ok db : reachable db → db_ok db.
Proof.
  induction 1; [apply empty_db_ok|by apply handle_request_ok|by apply db_ok_outbox].
Qed.

(** C3: in every reachable state the registry is consistent: aliases point to
    existing objects, devices belong to existing applications, an object is
    found under its own name by alias lookup, an object marked for deletion
    still has finalizers, and generations do not exceed revisions. *)
Theorem registry_consistent db : reachable db →
  db_ok db ∧
  (∀ n, is_Some (applications db !! n) →
     AppAccessor.lookup n db = AppAccessor.get n db) ∧
  (∀ a n, is_Some (devices db !! (a, n)) →
     DevAccessor.lookup a n db = DevAccessor.get a n db).
Proof.
  intros Hr%reachable_db_ok. split; [done|]. split.
  - intros n [row Hn]. unfold AppAccessor.lookup. by rw (ok_app_name _ Hr _ _ Hn).
  - intros a n [row Hn]. unfold DevAccessor.lookup. by rw (ok_dev_name _ Hr _ _ _ Hn).
Qed.

(** ** Case analysis of the updating handlers *)

Lemma update_device_tx_inv env identity d db db' evs :
  update_device_tx instance env identity d db = Ok (db', evs) →
  let k := (Reg.d_application d, Reg.d_name d) in
  ∃ dev al app row,
    device_to_entity d = Ok (dev, al) ∧
    AppAccessor.get (Reg.d_application d) db = Some app ∧
    authorize app identity Permission.Write = Allow ∧
    devices db !! k = Some row ∧
    expects (Reg.d_uid d) (dr_uid row) ∧
    expects (Reg.d_resource_version d) (dr_resource_version row) ∧
    let current := DevAccessor.from_row k.1 k.2 row in
    let dev1 := Dev.set_deletion (dr_deletion_timestamp row) dev in
    (is_Some (dr_deletion_timestamp row) ∧ Reg.d_finalizers d = [] ∧ evs = None ∧
       ∃ db1, DevAccessor.delete k.1 k.2 db = Ok db1 ∧ check_clean_app instance env k.1 db1 = Ok db') ∨
    (diff_paths current dev1 = [] ∧ evs = None ∧ db' = db) ∨
    (∃ dev2 r db1, diff_paths current dev1 ≠ [] ∧
       advance_from (diff_paths current dev1) current dev1 = (dev2, Ok r) ∧
       DevAccessor.update (env_version env) dev2 (Some al) db = Ok db1 ∧
       let events := new_device instance k.1 k.2 (uuid_to_string (dr_uid row)) r
         (diff_paths current dev1) in
       evs = Some events ∧ db' = send_to_outbox (env_now env) events db1).
Proof.
  intros Htx k. unfold update_device_tx in Htx.
  apply rbind_ok_inv in Htx as ([dev al] & He & Htx).
  destruct (device_to_entity_ok _ _ _ He) as (Hn & Ha & _ & _ & _ & Hf & _). rw Hn Ha in Htx.
  apply rbind_ok_inv in Htx as (app & Happ%ok_or_ok & Htx).
  apply rbind_ok_inv in Htx as ([] & Hau%ensure_with_ok & Htx).
  apply rbind_ok_inv in Htx as (current & Hcur%ok_or_ok%dev_get_some & Htx).
  destruct Hcur as (row & Hrow & ->).
  apply rbind_ok_inv in Htx as (c & [Hu Hv]%check_versions_ok & Htx).
  exists dev, al, app, row. split_and!; try done. cbn zeta in Htx |- *.
  destruct (_ && _) eqn:Hdel.
  - apply andb_true_iff in Hdel as [Hd1%bool_decide_eq_true Hd2%bool_decide_eq_true].
    apply rbind_ok_inv in Htx as (db1 & Hdb1 & Htx).
    apply rbind_ok_inv in Htx as (db2 & Hdb2 & [= <- <-]). simpl in Hd2. left. split_and!; try done.
    + congruence.
    + eauto.
  - case_bool_decide; [right; left; by simplify_eq|]. right; right.
    destruct (advance_from _ _ _) as [dev2 [r|e]] eqn:Hadv; [|done].
    apply rbind_ok_inv in Htx as (db1 & Hdb1 & [= <- <-]).
    destruct (DevAccessor.update _ dev2 _ db) eqn:Hup; [|done]. simplify_eq/=. eauto 10.
Qed.

Lemma perform_update_app_inv env identity app al eu ev db db' events :
  perform_update_app instance env identity app al eu ev db = Ok (db', events) →
  ∃ row, applications db !! App.name app = Some row ∧
    let current := AppAccessor.from_row (App.name app) row in
    let app1 := App.set_deletion (ar_deletion_timestamp row) app in
    (∀ i, identity = Some i → authorize current i Permission.Write = Allow) ∧
    expects eu (ar_uid row) ∧ expects ev (ar_resource_version row) ∧
    ((is_Some (ar_deletion_timestamp row) ∧ App.finalizers app = [] ∧ events = [] ∧
       AppAccessor.delete (App.name app) db = Ok db') ∨
     (diff_paths current app1 = [] ∧ events = [] ∧ db' = db) ∨
     (∃ app2 r, diff_paths current app1 ≠ [] ∧
        advance_from (diff_paths current app1) current app1 = (app2, Ok r) ∧
        AppAccessor.update_data (env_version env) app2 al db = Ok db' ∧
        events = new_app instance (App.name app2) (uuid_to_string (App.uid app2)) r
          (diff_paths current app1))).
Proof.
  intros Hp. unfold perform_update_app in Hp.
  apply rbind_ok_inv in Hp as (current & Hcur%ok_or_ok%app_get_some & Hp).
  destruct Hcur as (row & Hrow & ->).
  apply rbind_ok_inv in Hp as ([] & Hau & Hp).
  apply rbind_ok_inv in Hp as (c & [Hu Hv]%check_versions_ok & Hp).
  exists row. split; [done|]. cbn zeta in Hp |- *. split_and!; try done.
  { intros i ->. by apply ensure_with_ok in Hau. }
  destruct (_ && _) eqn:Hdel.
  - apply andb_true_iff in Hdel as [Hd1%bool_decide_eq_true Hd2%bool_decide_eq_true].
    apply rbind_ok_inv in Hp as (db1 & Hdb1 & [= <- <-]). by left.
  - case_bool_decide; [right; left; by simplify_eq|]. right; right.
    destruct (advance_from _ _ _) as [app2 [r|e]] eqn:Hadv; [|done].
    apply rbind_ok_inv in Hp as (db1 & Hdb1 & [= <- <-]).
    destruct (AppAccessor.update_data _ app2 _ db) eqn:Hup; [|done]. simplify_eq/=. eauto 10.
Qed.

(** ** Events *)

(** The events of one transaction are about one object. *)
Definition one_object (events : list Event.t) : Prop :=
  ∃ u, ∀ e, e ∈ events → Event.uid e = u.

Lemma new_app_elem i a u r ps e :
  e ∈ new_app i a u r ps → Event.uid e = u ∧ Event.revision e = r.
Proof.
  unfold new_app, new_change. destruct ps.
  - by intros ->%list_elem_of_singleton.
  - by intros (p & -> & _)%list_elem_of_fmap.
Qed.

Lemma new_device_elem i a d u r ps e :
  e ∈ new_device i a d u r ps → Event.uid e = u ∧ Event.revision e = r.
Proof.
  unfold new_device, new_change. destruct ps.
  - by intros ->%list_elem_of_singleton.
  - by intros (p & -> & _)%list_elem_of_fmap.
Qed.

Lemma new_app_one_object i a u r ps : one_object (new_app i a u r ps).
Proof. exists u. intros e. apply new_app_elem. Qed.

Lemma new_device_one_object i a d u r ps : one_object (new_device i a d u r ps).
Proof. exists u. intros e. apply new_device_elem. Qed.

(** All events of a batch are in the outbox after [notify]. *)
Lemma notify_covers now events t e :
  one_object events → e ∈ events →
  ∃ row, notify now events t !! entry_key (entry_of_event e) = Some row ∧
    covered (entry_of_event e) row.
Proof.
  intros [u Hu]. unfold notify. revert t Hu.
  assert (Hkeep : ∀ events t row, (∀ e', e' ∈ events → Event.uid e' = Event.uid e) →
    t !! entry_key (entry_of_event e) = Some row → covered (entry_of_event e) row →
    ∃ row', notify now events t !! entry_key (entry_of_event e) = Some row' ∧
      covered (entry_of_event e) row').
  { intros evs. induction evs as [|e1 evs IH]; intros t row Hu Hrow Hc; [by eauto|].
    destruct (outbox_create_keeps now (entry_of_event e) (entry_of_event e1) t row Hrow Hc)
      as (row1 & Hrow1 & Hc1).
    - intros _. rw -!event_uid_entry. apply Hu. set_solver.
    - eapply (IH _ row1); [|done..]. set_solver. }
  induction events as [|e1 events IH]; intros t Hu Hin; [set_solver|].
  apply elem_of_cons in Hin as [->|Hin]; [|apply IH; set_solver].
  destruct (outbox_create_covers now (entry_of_event e1) t) as (row & Hrow & Hc).
  eapply (Hkeep _ _ row); [|done..]. intros e' He'.
  rw (Hu e1); [set_solver|]. apply Hu. set_solver.
Qed.

(** A transaction that sends events writes exactly these to the outbox. *)
Definition tx_logged (env : Env) (tx : Db → result (Db * option (list Event.t)) ServiceError)
    : Prop :=
  ∀ db db' events, tx db = Ok (db', Some events) →
    one_object events ∧ ∃ db1, db' = send_to_outbox (env_now env) events db1.

Lemma create_app_logged env identity a : tx_logged env (create_app_tx instance env identity a).
Proof.
  intros db db' events Htx. unfold create_app_tx in Htx.
  apply rbind_ok_inv in Htx as ([app al] & _ & Htx).
  apply rbind_ok_inv in Htx as (db1 & _ & [= <- <-]).
  split; [apply (new_app_one_object instance _ _ _ [])|eauto].
Qed.

Lemma update_app_logged env identity a : tx_logged env (update_app_tx instance env identity a).
Proof.
  intros db db' events Htx. unfold update_app_tx in Htx.
  apply rbind_ok_inv in Htx as ([app al] & _ & Htx).
  apply rbind_ok_inv in Htx as ([db1 evs] & Hp & [= <- <-]). split; [|eauto].
  apply perform_update_app_inv in Hp as (row & _ & _ & _ & _ & [Hp|[Hp|Hp]]).
  - destruct Hp as (_ & _ & -> & _). exists "". set_solver.
  - destruct Hp as (_ & -> & _). exists "". set_solver.
  - destruct Hp as (? & ? & _ & _ & _ & ->). apply new_app_one_object.
Qed.

Lemma delete_app_logged env identity id pre : tx_logged env (delete_app_tx instance env identity id pre).
Proof.
  intros db db' events Htx. unfold delete_app_tx in Htx.
  apply rbind_ok_inv in Htx as (current & _ & Htx). case_bool_decide; [|done].
  apply rbind_ok_inv in Htx as ([] & _ & Htx). apply rbind_ok_inv in Htx as (c & _ & Htx).
  destruct (DevAccessor.delete_app id db) as [db1 n].
  destruct (advance_revision _) as [cur' [r|e]]; [|done].
  apply rbind_ok_inv in Htx as ([db2 paths] & _ & [= <- <-]).
  split; [apply new_app_one_object|eauto].
Qed.

Lemma create_device_logged env identity d : tx_logged env (create_device_tx instance env identity d).
Proof.
  intros db db' events Htx. unfold create_device_tx in Htx.
  apply rbind_ok_inv in Htx as ([dev al] & _ & Htx).
  apply rbind_ok_inv in Htx as (app & _ & Htx). apply rbind_ok_inv in Htx as ([] & _ & Htx).
  apply rbind_ok_inv in Htx as (db1 & _ & [= <- <-]).
  split; [apply (new_device_one_object instance _ _ _ _ [])|eauto].
Qed.

Lemma update_device_logged env identity d : tx_logged env (update_device_tx instance env identity d).
Proof.
  intros db db' events Htx.
  apply update_device_tx_inv in Htx as (dev & al & app & row & _ & _ & _ & _ & _ & _ & Hc).
  destruct Hc as [Hc|[Hc|Hc]]; [naive_solver|naive_solver|].
  destruct Hc as (dev2 & r & db1 & _ & _ & _ & [= ->] & ->).
  split; [apply new_device_one_object|eauto].
Qed.

Lemma delete_device_logged env identity a d pre :
  tx_logged env (delete_device_tx instance env identity a d pre).
Proof.
  intros db db' events Htx. unfold delete_device_tx in Htx.
  apply rbind_ok_inv in Htx as (current & _ & Htx). case_bool_decide; [|done].
  apply rbind_ok_inv in Htx as (app & _ & Htx). apply rbind_ok_inv in Htx as ([] & _ & Htx).
  apply rbind_ok_inv in Htx as (c & _ & Htx).
  destruct (advance_revision _) as [cur' [r|e]]; [|done].
  apply rbind_ok_inv in Htx as ([db2 paths] & _ & [= <- <-]).
  split; [apply new_device_one_object|eauto].
Qed.

Lemma commit_logged env tx db events :
  tx_logged env tx → r_sent (commit sender db (tx db)) = Some events →
  one_object events ∧ ∃ db1, r_db (commit sender db (tx db)) = send_to_outbox (env_now env) events db1.
Proof.
  intros Htx Hs. unfold commit in *. destruct (tx db) as [[db' [evs|]]|e] eqn:Etx; simplify_eq/=.
  by apply Htx in Etx.
Qed.

(** C2: the transactional outbox: whatever a request hands to the event sender
    after its commit is in the outbox of the committed database, each event
    with its object, path, UID and at least its revision, whether or not the
    sender then fails. *)
Theorem sent_events_persisted env identity r db events e :
  r_sent (handle_request env identity r db) = Some events → e ∈ events →
  ∃ row, outbox (r_db (handle_request env identity r db)) !! entry_key (entry_of_event e)
           = Some row ∧ covered (entry_of_event e) row.
Proof.
  intros Hs He.
  assert (Hl : one_object events ∧ ∃ db1, r_db (handle_request env identity r db)
    = send_to_outbox (env_now env) events db1).
  { destruct r; simpl in *;
      try (unfold admin_response in Hs; repeat case_match; by simplify_eq/=).
    - by apply (commit_logged _ _ _ _ (create_app_logged _ _ _)).
    - by apply (commit_logged _ _ _ _ (update_app_logged _ _ _)).
    - by apply (commit_logged _ _ _ _ (delete_app_logged _ _ _ _)).
    - by apply (commit_logged _ _ _ _ (create_device_logged _ _ _)).
    - by apply (commit_logged _ _ _ _ (update_device_logged _ _ _)).
    - by apply (commit_logged _ _ _ _ (delete_device_logged _ _ _ _ _)). }
  destruct Hl as [Ho (db1 & ->)]. by apply notify_covers.
Qed.

(** ** Updating a device *)

Lemma dev_update_lookup fresh d al db db' k row :
  DevAccessor.update fresh d al db = Ok db' → k = (Dev.application d, Dev.name d) →
  devices db !! k = Some row → devices db' !! k = Some (DevAccessor.updated_row fresh d row).
Proof.
  intros Hu -> Hrow. unfold DevAccessor.update in Hu. rw Hrow in Hu.
  destruct al as [l|]; simpl in Hu.
  - apply dev_insert_aliases_ok in Hu as (_ & -> & _). by simplify_map_eq/=.
  - injection Hu as <-. by simplify_map_eq/=.
Qed.

Lemma app_update_lookup fresh a al db db' row :
  AppAccessor.update_data fresh a al db = Ok db' →
  applications db !! App.name a = Some row →
  applications db' !! App.name a = Some (AppAccessor.updated_row fresh a row) ∧
  devices db' = devices db.
Proof.
  intros Hu Hrow. unfold AppAccessor.update_data in Hu. rw Hrow in Hu.
  destruct al as [l|]; simpl in Hu.
  - apply app_insert_aliases_ok in Hu as (-> & -> & _). by simplify_map_eq/=.
  - injection Hu as <-. by simplify_map_eq/=.
Qed.

Lemma dev_delete_lookup a d db db' :
  DevAccessor.delete a d db = Ok db' →
  devices db' = base.delete (a, d) (devices db) ∧ applications db' = applications db.
Proof. unfold DevAccessor.delete. intros Hd. by destruct (devices db !! _); simplify_eq/=. Qed.

Lemma app_delete_lookup id db db' k :
  AppAccessor.delete id db = Ok db' →
  applications db' !! id = None ∧ (devices db !! k = None → devices db' !! k = None).
Proof.
  unfold AppAccessor.delete. intros Hd. destruct (applications db !! id); simplify_eq/=.
  rw lookup_delete_eq map_lookup_filter. split; [done|]. by intros ->.
Qed.

(** Cleaning up an application does not bring back a device. *)
Lemma check_clean_app_none env id db db' k :
  check_clean_app instance env id db = Ok db' → devices db !! k = None → devices db' !! k = None.
Proof.
  intros Hc Hk. unfold check_clean_app in Hc.
  destruct (AppAccessor.get id db) as [app|] eqn:Hget; [|by simplify_eq].
  case_bool_decide; [by simplify_eq|]. case_match; [by simplify_eq|].
  apply rbind_ok_inv in Hc as ([db1 evs] & Hp & [= <-]).
  apply perform_update_app_inv in Hp as (row & Hrow & _ & _ & _ & [Hp|[Hp|Hp]]).
  - destruct Hp as (_ & _ & _ & Hd). by apply (app_delete_lookup _ _ _ k) in Hd as [_ ?]; auto.
  - by destruct Hp as (_ & _ & ->).
  - destruct Hp as (app2 & r & _ & Ha & Hu & _).
    apply advance_from_put in Ha. apply (app_update_lookup _ _ _ _ _ row) in Hu as [_ ->]; [done|].
    by rw Ha.
Qed.

Lemma update_device_row env identity d db row row' :
  let k := (Reg.d_application d, Reg.d_name d) in
  let resp := update_device instance sender env identity d db in
  devices db !! k = Some row → devices (r_db resp) !! k = Some row' → row' ≠ row →
  ∃ dev al dev2 r, device_to_entity d = Ok (dev, al) ∧
    let current := DevAccessor.from_row k.1 k.2 row in
    let dev1 := Dev.set_deletion (dr_deletion_timestamp row) dev in
    advance_from (diff_paths current dev1) current dev1 = (dev2, Ok r) ∧
    row' = DevAccessor.updated_row (env_version env) dev2 row ∧
    r_sent resp = Some (new_device instance k.1 k.2 (uuid_to_string (dr_uid row)) r
      (diff_paths current dev1)).
Proof.
  intros k resp Hrow Hrow' Hne. unfold resp, update_device in *.
  destruct (update_device_tx instance env identity d db) as [[db' evs]|e] eqn:Htx;
    [|simpl in Hrow'; congruence].
  assert (Hdb : devices db' !! k = Some row') by (by destruct evs).
  apply update_device_tx_inv in Htx as (dev & al & app & row0 & He & _ & _ & Hr0 & _ & _ & Hc).
  assert (row0 = row) as -> by (unfold k in Hrow; congruence).
  destruct Hc as [Hc|[Hc|Hc]].
  - destruct Hc as (_ & _ & _ & db1 & Hdel & Hcl).
    apply dev_delete_lookup in Hdel as [Hdel _].
    apply (check_clean_app_none _ _ _ _ k) in Hcl; [congruence|]. rw Hdel. apply lookup_delete_eq.
  - destruct Hc as (_ & _ & ->). congruence.
  - destruct Hc as (dev2 & r & db1 & _ & Ha & Hu & -> & ->).
    exists dev, al, dev2, r. split_and!; try done.
    change (devices db1 !! k = Some row') in Hdb.
    apply device_to_entity_ok in He as (Hn & Hap & _). pose proof (advance_from_put _ _ _ _ _ Ha) as Hp.
    assert (Hk : k = (Dev.application dev2, Dev.name dev2)) by (rw Hp /= Hn Hap; done).
    pose proof (dev_update_lookup _ _ _ _ _ k row Hu Hk Hrow). congruence.
Qed.

(** C5: what a successful, effective update of a device stores: the request's
    labels, annotations, finalizers and payload, a new resource version, the
    next revision, and the next generation exactly if the spec changed; UID,
    creation time and deletion mark stay.  It sends at least one event, and
    all of them carry the device's UID and the new revision. *)
Theorem update_device_effect env identity d db row row' spec status :
  let k := (Reg.d_application d, Reg.d_name d) in
  let resp := update_device instance sender env identity d db in
  devices db !! k = Some row → dev_row_ok row → dr_data row = entity_data spec status →
  map_ok spec → map_ok status → map_ok (Reg.d_spec d) → map_ok (Reg.d_status d) →
  devices (r_db resp) !! k = Some row' → row' ≠ row →
  dr_labels row' = Some (Reg.d_labels d) ∧ dr_annotations row' = Some (Reg.d_annotations d) ∧
  dr_finalizers row' = Reg.d_finalizers d ∧
  dr_data row' = entity_data (Reg.d_spec d) (Reg.d_status d) ∧
  dr_uid row' = dr_uid row ∧ dr_creation_timestamp row' = dr_creation_timestamp row ∧
  dr_deletion_timestamp row' = dr_deletion_timestamp row ∧
  dr_resource_version row' = env_version env ∧
  as_u64 (dr_revision row') = (as_u64 (dr_revision row) + 1)%Z ∧
  ((∃ x, map_get x spec ≠ map_get x (Reg.d_spec d)) →
     as_u64 (dr_generation row') = (as_u64 (dr_generation row) + 1)%Z) ∧
  ((∀ x, map_get x spec = map_get x (Reg.d_spec d)) →
     as_u64 (dr_generation row') = as_u64 (dr_generation row)) ∧
  ∃ events, r_sent resp = Some events ∧ events ≠ [] ∧
    ∀ e, e ∈ events → Event.uid e = uuid_to_string (dr_uid row) ∧
      Event.revision e = as_u64 (dr_revision row').
Proof.
  intros k resp Hrow [_ Hcnt] Hdata Hs Ht Hs' Ht' Hrow' Hne.
  destruct (update_device_row env identity d db row row' Hrow Hrow' Hne)
    as (dev & al & dev2 & r & He & Ha & -> & Hsent).
  apply device_to_entity_ok in He as Hdev. destruct Hdev as (Hn & Hap & Hg0 & Hr0 & _ & Hf & Hd & _).
  pose proof (advance_from_put _ _ _ _ _ Ha) as Hp.
  pose proof (advance_from_ok _ _ _ _ _ Ha) as (Hr & Hr2 & _ & Hg2 & _).
  destruct (advance_from_counters _ _ _ _ _ Ha) as (Hrev & Hri & Hgi & Hle);
    [apply as_u64_range..|done|simpl; lia|]. simpl in Hrev, Hri, Hgi, Hle.
  pose proof (spec_paths_changed (DevAccessor.from_row k.1 k.2 row)
    (Dev.set_deletion (dr_deletion_timestamp row) dev) _ _ _ _ Hdata Hd Hs Ht Hs' Ht') as Hspec.
  assert (Hfields : device_to_entity d = Ok (dev, al)) by done.
  unfold device_to_entity in Hfields. injection Hfields as Hdev _.
  assert (Hg' : is_u64 (as_u64 (dr_generation row))) by apply as_u64_range.
  simpl in Hg2. unfold DevAccessor.updated_row; cbn [dr_labels dr_annotations dr_finalizers dr_data
    dr_uid dr_creation_timestamp dr_deletion_timestamp dr_resource_version dr_revision
    dr_generation].
  rw !as_u64_as_i64 //. split_and!; try done; try (rw Hp -Hdev; done).
  - intros Hx. apply Hspec in Hx. rw Hx in Hg2. rw Hg2. apply u64_succ; [done|].
    rw -Hg2. unfold row_counters_ok in Hcnt.
    destruct (decide (Dev.generation dev2 = 0%Z)) as [Hz|]; [|unfold is_u64 in *; lia].
    exfalso. rw Hg2 in Hz. unfold u64_add in Hz. apply Z.mod_divide in Hz as [q Hq];
      [|unfold two64; lia]. assert (Hru := as_u64_range (dr_revision row)).
    unfold is_u64, two64 in *. lia.
  - intros Hx. destruct (existsb _ _) eqn:Ex; [|done].
    exfalso. destruct (proj1 Hspec eq_refl) as [x Hxx]. by apply Hxx.
  - eexists. split; [exact Hsent|]. split; [apply new_change_nonempty|].
    intros e [? ->]%new_device_elem. by rw -Hr2.
Qed.
End Registry.
