(* ===== verification/Guarantees.v ===== *)
(** * Guarantees to the clients of the registry

    Optimistic locking, access control, the hiding of devices from users
    without access, and the life of an application from its deletion to its
    removal, for the handlers of [Management] and [Admin]. *)

From S2P Require Import Prelude Json Versioning Auth Events Store Outbox Registry Management Admin Lifecycle.

Section Guarantees.
Context `{UuidCodec, ClientApi, Keycloak} {E : Type}.
Context (instance : string) (sender : list Event.t → result unit E).

(** ** Optimistic locking *)

Lemma expects_to_string (Hp : ∀ u, uuid_parse_str (uuid_to_string u) = Some u)
    (He : uuid_parse_str "" = None) u v :
  expects (uuid_to_string u) v → u = v.
Proof.
  unfold expects. intros [Hs|Hs]; [|specialize (Hp u); congruence].
  specialize (Hp u). rw Hs in Hp. congruence.
Qed.

(** C4: no lost update: of two clients that read a device in the same version
    and write it back, the second is refused, and changes nothing, once the
    first write took effect (under a new resource version). *)
Theorem device_no_lost_update env1 env2 id1 id2 d1 d2 db row row1 `{!UuidLaws} :
  let k := (Reg.d_application d1, Reg.d_name d1) in
  let db1 := r_db (update_device instance sender env1 id1 d1 db) in
  (Reg.d_application d2, Reg.d_name d2) = k →
  Reg.d_resource_version d2 = uuid_to_string (dr_resource_version row) →
  devices db !! k = Some row → devices db1 !! k = Some row1 → row1 ≠ row →
  env_version env1 ≠ dr_resource_version row →
  ∃ e, update_device instance sender env2 id2 d2 db1 = mkResponse db1 None (Err (Service e)).
Proof.
  intros k db1 Hk Hv Hrow Hrow1 Hne Hfresh.
  destruct (update_device_row instance sender env1 id1 d1 db row row1 Hrow Hrow1 Hne)
    as (dev & al & dev2 & r & _ & _ & Hr1 & _).
  unfold update_device. destruct (update_device_tx instance env2 id2 d2 db1) as [[db2 evs]|e] eqn:Htx;
    [|by exists e].
  apply update_device_tx_inv in Htx as (? & ? & ? & row2 & _ & _ & _ & Hrow2 & _ & Hx & _).
  rw Hk Hrow1 in Hrow2. injection Hrow2 as <-. rw Hv in Hx.
  apply expects_to_string in Hx; [|apply uuid_parse_to_string|apply uuid_parse_empty].
  rw Hr1 /= in Hx. congruence.
Qed.

(** Writing back what was read is a no-op: the answer of [get_device],
    sent to [update_device] by a user with write access, neither changes the
    database nor sends an event. *)
Theorem device_read_write_noop env identity app_id name db d app row spec status `{!UuidLaws} :
  get_device identity app_id name db = Ok (Some d) →
  AppAccessor.get app_id db = Some app → authorize app identity Permission.Write = Allow →
  devices db !! (app_id, name) = Some row → dev_row_ok row →
  dr_data row = entity_data spec status → map_ok spec → map_ok status →
  update_device instance sender env identity d db = mkResponse db None (Ok tt).
Proof.
  intros Hget Happ Hau Hrow [Hfin _] Hdata Hs Ht.
  unfold get_device in Hget. rw Happ /= in Hget.
  apply rbind_ok_inv in Hget as ([] & _ & [= Hd]).
  unfold DevAccessor.get in Hd. rw Hrow /= in Hd. injection Hd as <-.
  set (cur := DevAccessor.from_row app_id name row).
  destruct (device_into_to_entity cur spec status Hdata) as (dev & al & He & Hdt & Hn & Ha & Hm).
  destruct (device_to_entity_ok _ _ _ He) as (_ & _ & _ & _ & _ & Hf & _).
  unfold update_device, update_device_tx. rw He /= Ha Hn /= Happ /=.
  unfold ensure_with. rw Hau /= /DevAccessor.get Hrow /=.
  destruct (check_versions_spec (uuid_to_string (dr_uid row))
    (uuid_to_string (dr_resource_version row)) (dr_uid row) (dr_resource_version row))
    as [(-> & _)|[_ Hno]];
    [|exfalso; apply Hno; split; right; apply uuid_parse_to_string]. simpl.
  destruct (bool_decide (is_Some (dr_deletion_timestamp row)) &&
    bool_decide (Dev.finalizers dev = [])) eqn:Hdel.
  - apply andb_true_iff in Hdel as [Hd1%bool_decide_eq_true Hd2%bool_decide_eq_true].
    exfalso. apply (Hfin Hd1). by rw Hf /= in Hd2.
  - rw (proj2 (diff_paths_nil cur (Dev.set_deletion (dr_deletion_timestamp row) dev) _ _)) //.
    + simpl. rw Hdata. by apply entity_payload_ok.
    + simpl. rw Hdt /= Hdata. by apply entity_payload_ok.
    + split; [done|]. intros a x. simpl. by rw Hdt.
Qed.

(** ** Access control *)

(** The application a request is about, and the permission it needs there;
    the remaining requests have rules of their own. *)
Definition required (r : Request) : option (string * Permission.t) :=
  match r with
  | UpdateApp a => Some (Reg.a_name a, Permission.Write)
  | DeleteApp id _ => Some (id, Permission.Admin)
  | CreateDevice d => Some (Reg.d_application d, Permission.Write)
  | UpdateDevice d => Some (Reg.d_application d, Permission.Write)
  | DeleteDevice a _ _ => Some (a, Permission.Write)
  | Transfer a _ => Some (a, Permission.Owner)
  | SetMembers a _ => Some (a, Permission.Admin)
  | CreateApp _ | Cancel _ | Accept _ => None
  end.

Lemma ensure_with_deny {R} `{Resource R} (res : R) identity p f :
  authorize res identity p = Deny → ensure_with res identity p f = Err f.
Proof. unfold ensure_with. by intros ->. Qed.

(** C6: access control is enforced: a request of a user without the permission
    it needs fails with an error, leaves the database as it was, and sends
    nothing. *)
Theorem unauthorized_no_effect env identity r app_id p app db :
  required r = Some (app_id, p) →
  AppAccessor.get app_id db = Some app → authorize app identity p = Deny →
  ∃ e, handle_request instance sender env identity r db = mkResponse db None (Err (Service e)).
Proof.
  intros Hreq Hget Hau.
  assert (Hens : ∀ f, ensure_with app identity p f = Err f) by (intros; by apply ensure_with_deny).
  destruct r; simplify_eq/=.
  - unfold update_app, update_app_tx. destruct (app_to_entity application) as [[a al]|] eqn:He;
      [|simpl; eauto].
    apply app_to_entity_ok in He as (Hn & _). simpl. unfold perform_update_app, ensure.
    rw Hn Hget /= Hens /=. eauto.
  - unfold delete_app, delete_app_tx, ensure. rw Hget /=. case_bool_decide; [|simpl; eauto].
    rw Hens /=. eauto.
  - unfold create_device, create_device_tx. destruct (device_to_entity device) as [[d al]|] eqn:He;
      [|simpl; eauto].
    apply device_to_entity_ok in He as (_ & Ha & _). simpl. rw Ha Hget /=.
    case_bool_decide; simpl; [rw Hens /=|]; eauto.
  - unfold update_device, update_device_tx. destruct (device_to_entity device) as [[d al]|] eqn:He;
      [|simpl; eauto].
    apply device_to_entity_ok in He as (_ & Ha & _). simpl. rw Ha Hget /= Hens /=. eauto.
  - unfold delete_device, delete_device_tx.
    destruct (DevAccessor.get _ _ _); simpl; [|eauto].
    case_bool_decide; [|simpl; eauto]. rw Hget /= Hens /=. eauto.
  - unfold transfer. rw Hget /= Hens. destruct (negb _); simpl; eauto.
  - unfold set_members. rw Hget /= Hens. repeat case_match; simpl; eauto.
Qed.

(** Devices are hidden from users without access to the application: for
    such a user reading, updating or deleting a device answers "not found",
    whatever devices there are, and also if there is no such application. *)
Theorem devices_hidden env identity app_id name (d : Reg.Device) pre db :
  Reg.d_application d = app_id →
  (∀ app, AppAccessor.get app_id db = Some app →
     authorize app identity Permission.Read = Deny) →
  get_device identity app_id name db = Err NotFound ∧
  r_result (update_device instance sender env identity d db) = Err (Service NotFound) ∧
  r_result (delete_device instance sender env identity app_id name pre db)
    = Err (Service NotFound).
Proof.
  intros Hd Hau.
  assert (Hens : ∀ app p, AppAccessor.get app_id db = Some app →
    ensure_with app identity p NotFound = Err NotFound).
  { intros app p Hget. apply ensure_with_deny. destruct (authorize app identity p) eqn:Ha; [|done].
    specialize (Hau app Hget).
    rw -Hau. symmetry. apply authorize_spec. apply authorize_spec in Ha. simpl.
    destruct Ha as [?|[?|[?|(m & Hm & _)]]]; [by left|by right; left|by right; right; left|].
    right; right; right. exists m. split; [done|lia]. }
  split_and!.
  - unfold get_device. destruct (AppAccessor.get app_id db) eqn:Hget; simpl; [|done].
    by rw Hens.
  - unfold update_device, update_device_tx. destruct (device_to_entity d) as [[dev al]|] eqn:He;
      [|done].
    apply device_to_entity_ok in He as (_ & Ha & _). simpl. rw Ha Hd.
    destruct (AppAccessor.get app_id db) eqn:Hget; simpl; [|done]. by rw Hens.
  - unfold delete_device, delete_device_tx. destruct (DevAccessor.get _ _ _); simpl; [|done].
    case_bool_decide; [|done].
    destruct (AppAccessor.get app_id db) eqn:Hget; simpl; [|done]. by rw Hens.
Qed.

(** ** Deleting applications *)

Lemma count_devices_pos app db :
  (0 < DevAccessor.count_devices app db)%Z ↔ ∃ n, is_Some (devices db !! (app, n)).
Proof.
  unfold DevAccessor.count_devices.
  set (m := filter _ _). assert (Hm : (0 < Z.of_nat (size m))%Z ↔ m ≠ ∅).
  { rw -map_size_non_empty_iff. lia. }
  rw Hm. clear Hm. split.
  - intros ([a n] & row & Hin)%map_choose. apply map_lookup_filter_Some in Hin as [Hin ->]. eauto.
  - intros (n & row & Hn) He. assert (Hl : m !! (app, n) = Some row) by (by apply map_lookup_filter_Some).
    by rw He lookup_empty in Hl.
Qed.

(** What [delete_app] of the device accessor leaves. *)
Lemma delete_app_devices app db k :
  devices (DevAccessor.delete_app app db).1 !! k =
  match devices db !! k with
  | Some row => if bool_decide (k.1 = app ∧ dr_finalizers row = []) then None else Some row
  | None => None
  end.
Proof.
  unfold DevAccessor.delete_app; simpl. rw map_lookup_filter.
  destruct (devices db !! k) as [row|]; simpl; [|done].
  unfold DevAccessor.removable. destruct k as [a n]. simpl.
  case_guard; case_bool_decide; naive_solver.
Qed.

(** An application that cannot be removed at once: it has finalizers, or one
    of its devices has. *)
Definition blocked (id : string) (row : AppRow) (db : Db) : Prop :=
  ar_finalizers row ≠ [] ∨
  ∃ n drow, devices db !! (id, n) = Some drow ∧ dr_finalizers drow ≠ [].

(** The devices that stay have finalizers, and they block the application. *)
Lemma delete_app_keeps id db k drow :
  k.1 = id → devices (DevAccessor.delete_app id db).1 !! k = Some drow ↔
    devices db !! k = Some drow ∧ dr_finalizers drow ≠ [].
Proof.
  intros Hk. rw delete_app_devices. destruct (devices db !! k) as [d0|]; [|naive_solver].
  case_bool_decide; naive_solver.
Qed.

Lemma blocked_finalizers id row db :
  (if (0 <? DevAccessor.count_devices id (DevAccessor.delete_app id db).1)%Z
   then ar_finalizers row ++ ["has-devices"] else ar_finalizers row) ≠ [] ↔ blocked id row db.
Proof.
  pose proof (count_devices_pos id (DevAccessor.delete_app id db).1) as Hcnt. unfold blocked.
  destruct (Z.ltb_spec 0 (DevAccessor.count_devices id (DevAccessor.delete_app id db).1)) as [Hlt|Hge].
  - split; [|by destruct (ar_finalizers row)]. intros _. right.
    apply Hcnt in Hlt as (n & drow & Hn). exists n, drow. by apply (delete_app_keeps id db (id, n) drow eq_refl).
  - split; [by left|]. intros [?|(n & drow & Hn)]; [done|].
    apply (delete_app_keeps id db (id, n) drow eq_refl) in Hn.
    assert (0 < DevAccessor.count_devices id (DevAccessor.delete_app id db).1)%Z by (apply Hcnt; eauto). lia.
Qed.

Lemma delete_app_tx_inv env identity id pre db db' evs :
  delete_app_tx instance env identity id pre db = Ok (db', evs) →
  ∃ row cur r db2 paths, applications db !! id = Some row ∧ ar_deletion_timestamp row = None ∧
    let '(db1, n) := DevAccessor.delete_app id db in
    App.finalizers cur =
      (if (0 <? n)%Z then ar_finalizers row ++ ["has-devices"] else ar_finalizers row) ∧
    App.name cur = id ∧
    db' = send_to_outbox (env_now env) (new_app instance id (uuid_to_string (ar_uid row)) r paths) db2 ∧
    evs = Some (new_app instance id (uuid_to_string (ar_uid row)) r paths) ∧
    ((App.finalizers cur = [] ∧ paths = [] ∧ AppAccessor.delete id db1 = Ok db2) ∨
     (App.finalizers cur ≠ [] ∧ paths = [".metadata"] ∧
      AppAccessor.update_data (env_version env) (App.set_deletion (Some (env_now env)) cur)
        None db1 = Ok db2)).
Proof.
  intros Htx. unfold delete_app_tx in Htx.
  apply rbind_ok_inv in Htx as (current & Hcur%ok_or_ok%app_get_some & Htx).
  destruct Hcur as (row & Hrow & ->). case_bool_decide as Hdel; [|done].
  apply rbind_ok_inv in Htx as ([] & _ & Htx). apply rbind_ok_inv in Htx as (c & _ & Htx).
  destruct (DevAccessor.delete_app id db) as [db1 n] eqn:Hd.
  set (cur0 := if (0 <? n)%Z then _ else _) in *.
  destruct (advance_revision cur0) as [cur [r|e]] eqn:Ha; [|done].
  apply set_revision_ok in Ha as (_ & Hc & _).
  assert (Hf : App.finalizers cur = (if (0 <? n)%Z then ar_finalizers row ++ ["has-devices"]
    else ar_finalizers row) ∧ App.name cur = id ∧ App.uid cur = ar_uid row)
    by (rw Hc; unfold cur0; by destruct (0 <? n)%Z).
  destruct Hf as (Hf & Hn & Hu). rw Hu in Htx.
  apply rbind_ok_inv in Htx as ([db2 paths] & Hp & [= <- <-]).
  exists row, cur, r, db2, paths. split_and!; try done.
  case_bool_decide; [left|right]; apply rbind_ok_inv in Hp as (db3 & Hdb3 & [= <- <-]); done.
Qed.

(** C8: deleting an application removes its devices without finalizers at once
    and keeps the others as they are.  If nothing blocks the deletion, the
    application is gone too; otherwise it is marked with the deletion time,
    and has the finalizer [has-devices] exactly when devices remain that it
    did not have before.  Devices of other applications are not touched. *)
Theorem delete_app_outcome env identity id pre db db' evs row :
  delete_app_tx instance env identity id pre db = Ok (db', evs) →
  applications db !! id = Some row →
  (∀ k, k.1 ≠ id → devices db' !! k = devices db !! k) ∧
  (¬ blocked id row db →
     applications db' !! id = None ∧ (∀ n, devices db' !! (id, n) = None)) ∧
  (blocked id row db → ∃ row',
     applications db' !! id = Some row' ∧ ar_deletion_timestamp row' = Some (env_now env) ∧
     (∀ n drow, devices db' !! (id, n) = Some drow ↔
        devices db !! (id, n) = Some drow ∧ dr_finalizers drow ≠ []) ∧
     ((∃ n, is_Some (devices db' !! (id, n))) →
        ar_finalizers row' = ar_finalizers row ++ ["has-devices"]) ∧
     ((∀ n, devices db' !! (id, n) = None) → ar_finalizers row' = ar_finalizers row)).
Proof.
  intros Htx Hrow. apply delete_app_tx_inv in Htx as (row0 & cur & r & db2 & paths & Hr0 & _ & Htx).
  assert (row0 = row) as -> by congruence. pose proof (delete_app_devices id db) as Hdev.
  pose proof (λ n, delete_app_keeps id db (id, n)) as Hrest.
  pose proof (blocked_finalizers id row db) as Hb.
  assert (Happ : applications (DevAccessor.delete_app id db).1 = applications db) by done.
  assert (Hn : (DevAccessor.delete_app id db).2
    = DevAccessor.count_devices id (DevAccessor.delete_app id db).1) by done.
  destruct (DevAccessor.delete_app id db) as [db1 n]; simpl in Hdev, Happ, Hn, Hrest, Hb. subst n.
  destruct Htx as (Hfin & Hname & -> & _ & Hc). rewrite -Hfin in Hb.
  change (devices (send_to_outbox _ _ db2)) with (devices db2).
  change (applications (send_to_outbox _ _ db2)) with (applications db2).
  pose proof (count_devices_pos id db1) as Hcnt.
  destruct Hc as [(Hf & _ & Hdel)|(Hf & _ & Hup)].
  - assert (Hnb : ¬ blocked id row db) by (rw -Hb; naive_solver).
    pose proof (λ k, app_delete_lookup _ _ _ k Hdel) as Hgone.
    unfold AppAccessor.delete in Hdel. destruct (applications db1 !! id) as [?|]; [|done]. injection Hdel as <-.
    split_and!; [|intros _|done].
    + intros [b n] Hk. simpl in Hk |- *. rw map_lookup_filter Hdev /=.
      destruct (devices db !! (b, n)); simpl; [|done]. rw bool_decide_false; [naive_solver|].
      simpl. by rw option_guard_True.
    + split; [apply (Hgone (id, ""))|]. intros n. simpl. apply map_lookup_filter_None. right.
      intros x _. naive_solver.
  - assert (Hyes : blocked id row db) by by apply Hb.
    apply (app_update_lookup _ _ _ _ _ row) in Hup as [Hup Hdd];
      [|simpl; rw Hname Happ; done]. simpl in Hup. rw Hname in Hup.
    split_and!; [|done|intros _].
    + intros [a n] Hk. rw Hdd Hdev. simpl in Hk. destruct (devices db !! (a, n)); [|done].
      rw bool_decide_false //. naive_solver.
    + eexists. split; [exact Hup|]. simpl. split; [done|]. rw Hdd. split; [|rw Hfin; split].
      * intros n drow. by apply Hrest.
      * intros Hs%Hcnt. by rw (proj2 (Z.ltb_lt _ _) Hs).
      * intros Hs. destruct (Z.ltb_spec 0 (DevAccessor.count_devices id db1)) as [Hlt|]; [|done].
        apply Hcnt in Hlt as (n & x & Hx). by rw Hs in Hx.
Qed.

(** An application marked for deletion accepts no new devices, and cannot
    be deleted a second time; both answers leave the database as it is. *)
Theorem deleted_app_is_closed env identity app_id app d pre db :
  AppAccessor.get app_id db = Some app → App.deletion_timestamp app ≠ None →
  Reg.d_application d = app_id →
  create_device instance sender env identity d db
    = mkResponse db None (Err (Service ReferenceNotFound)) ∧
  delete_app instance sender env identity app_id pre db
    = mkResponse db None (Err (Service NotFound)).
Proof.
  intros Hget Hdel Hd. split.
  - unfold create_device, create_device_tx. destruct (device_to_entity d) as [[dev al]|] eqn:He.
    + apply device_to_entity_ok in He as (_ & Ha & _). simpl. rw Ha Hd Hget bool_decide_false //.
    + by unfold device_to_entity in He.
  - unfold delete_app, delete_app_tx. rw Hget /= bool_decide_false //.
Qed.

(** Removing the last finalizer of a pending application removes it. *)
Lemma perform_update_app_collects env app db row :
  applications db !! App.name app = Some row → is_Some (ar_deletion_timestamp row) →
  App.finalizers app = [] →
  perform_update_app instance env None app None "" "" db
    = Ok (AppAccessor.delete_row (App.name app) db, []).
Proof.
  intros Hrow Hdel Hfin. unfold perform_update_app, AppAccessor.get, AppAccessor.delete.
  rw Hrow /= (bool_decide_true (is_Some _)) // (bool_decide_true (App.finalizers _ = [])) //.
Qed.


(** ** Two places where the UID of an event is not the object's *)

(** The event of a created application carries its UID; the events of its
    updates do not: they carry the nil UUID of the record built from the
    request, whatever the UID of the application. *)
Lemma update_app_event_uid_nil env identity a db events :
  r_sent (update_app instance sender env identity a db) = Some events →
  ∀ e, e ∈ events → Event.uid e = uuid_to_string uuid_nil.
Proof.
  unfold update_app, commit. destruct (update_app_tx _ _ _ _ _) as [[db' evs]|] eqn:Htx; [|done].
  destruct evs as [evs|]; [|done]. intros [= ->] e He. unfold update_app_tx in Htx.
  apply rbind_ok_inv in Htx as ([app al] & Hent & Htx).
  apply rbind_ok_inv in Htx as ([db1 evs] & Hp & [= _ ->]).
  apply app_to_entity_ok in Hent as (_ & _ & _ & _ & _ & Huid & _).
  apply perform_update_app_inv in Hp as (row & _ & _ & _ & _ & [Hp|[Hp|Hp]]).
  - destruct Hp as (_ & _ & -> & _). set_solver.
  - destruct Hp as (_ & -> & _). set_solver.
  - destruct Hp as (app2 & r & _ & Ha & _ & ->). apply new_app_elem in He as [-> _].
    apply advance_from_put in Ha. rw Ha /=. by rw Huid.
Qed.

(** The event of a created device carries the UID the service drew, while
    the stored device has the UID drawn by the database. *)
Lemma create_device_event_uid env identity d db db' events :
  create_device_tx instance env identity d db = Ok (db', Some events) →
  (∃ row, devices db' !! (Reg.d_application d, Reg.d_name d) = Some row ∧
     dr_uid row = env_db_uid env) ∧
  ∀ e, e ∈ events → Event.uid e = uuid_to_string (env_uid env).
Proof.
  intros Htx. unfold create_device_tx in Htx.
  apply rbind_ok_inv in Htx as ([dev al] & He & Htx).
  apply device_to_entity_ok in He as (Hn & Ha & _).
  apply rbind_ok_inv in Htx as (app & _ & Htx). apply rbind_ok_inv in Htx as ([] & _ & Htx).
  apply rbind_ok_inv in Htx as (db1 & Hdb1 & Htx). injection Htx as <- <-. split.
  - destruct (DevAccessor.create _ _ _ _ _ _) eqn:Hc; [|done]. simplify_eq/=.
    unfold DevAccessor.create in Hc. simpl in Hc. rw Hn Ha in Hc.
    destruct (devices db !! _); [done|]. destruct (applications db !! _); [|done].
    apply dev_insert_aliases_ok in Hc as (_ & Hd & _). rw Hd /=. eexists.
    split; [apply lookup_insert_eq|done].
  - by intros e ->%list_elem_of_singleton.
Qed.

(** The UIDs of change events are not those of the objects: the events of
    an update of an application carry the nil UUID, and the event of a created
    device carries a UID the device does not get (it gets the one the database
    draws). *)
Theorem change_event_uids env identity db :
  (∀ a events, r_sent (update_app instance sender env identity a db) = Some events →
     ∀ e, e ∈ events → Event.uid e = uuid_to_string uuid_nil) ∧
  (∀ d db' events, create_device_tx instance env identity d db = Ok (db', Some events) →
     (∃ row, devices db' !! (Reg.d_application d, Reg.d_name d) = Some row ∧
        dr_uid row = env_db_uid env) ∧
     ∀ e, e ∈ events → Event.uid e = uuid_to_string (env_uid env)).
Proof.
  split; [intros a events; apply update_app_event_uid_nil|].
  intros d db' events. apply create_device_event_uid.
Qed.
End Guarantees.
