(* ===== verification/Select.v ===== *)
(** * Queries

    [database-common/src/models/sql.rs]: the builder of the list queries (a
    name, label selectors, the access of a user), and the listing of
    applications and devices with it.  The SQL text and its parameters are
    built as in the code; a condition is also a syntax tree, whose rendering
    is the text the builder appends and whose value on a row follows SQL's
    three-valued logic. *)

From stdpp Require Import pretty.
From S2P Require Import Prelude Json Versioning Auth Store Registry Management.

(** [service-api/src/labels/mod.rs] *)
Inductive Operation : Type :=
| Eq (label value : string)
| NotEq (label value : string)
| In (label : string) (values : list string)
| NotIn (label : string) (values : list string)
| Exists (label : string)
| NotExists (label : string).

Inductive SqlParam : Type :=
| PVarchar (s : string)
| PVarcharArray (l : list string).

Inductive SqlType : Type := VARCHAR | VARCHAR_ARRAY.

Module Lock.
Inductive t : Type := None | ForUpdate | ForShare.

Definition as_ref (l : t) : string :=
  match l with
  | None => ""
  | ForUpdate => "FOR UPDATE"
  | ForShare => "FOR SHARE"
  end.
End Lock.

Definition nl : string := String "010"%char "".

Module SelectBuilder.
Record t := mk {
  select : string;
  params : list SqlParam;
  types : list SqlType;
  have_where : bool;
  sort_by : list string;
  lock_mode : Lock.t;
  limit_to : option nat;
  offset_by : option nat;
}.

Definition new (select : string) (params : list SqlParam) (types : list SqlType) : t :=
  mk select params types false [] Lock.None None None.

Definition has_where (b : t) : t :=
  mk (select b) (params b) (types b) true (sort_by b) (lock_mode b) (limit_to b) (offset_by b).

Definition push_str (s : string) (b : t) : t :=
  mk (select b +:+ s) (params b) (types b) (have_where b) (sort_by b) (lock_mode b)
    (limit_to b) (offset_by b).

(** [params.push(..); types.push(..)] *)
Definition push_param (p : SqlParam) (ty : SqlType) (b : t) : t :=
  mk (select b) (params b ++ [p]) (types b ++ [ty]) (have_where b) (sort_by b) (lock_mode b)
    (limit_to b) (offset_by b).

Definition ensure_where_or_and (b : t) : t :=
  if have_where b then push_str (nl +:+ "AND") b
  else has_where (push_str (nl +:+ "WHERE") b).

Definition limit (l : option nat) (b : t) : t :=
  mk (select b) (params b) (types b) (have_where b) (sort_by b) (lock_mode b) l (offset_by b).
Definition offset (o : option nat) (b : t) : t :=
  mk (select b) (params b) (types b) (have_where b) (sort_by b) (lock_mode b) (limit_to b) o.
Definition lock (l : Lock.t) (b : t) : t :=
  mk (select b) (params b) (types b) (have_where b) (sort_by b) l (limit_to b) (offset_by b).
Definition sort (s : list string) (b : t) : t :=
  mk (select b) (params b) (types b) (have_where b) s (lock_mode b) (limit_to b) (offset_by b).

(** [params.len()] in a format string *)
Definition arg (i : nat) : string := "$" +:+ pretty i.

Definition auth_text (idx : nat) : string :=
  nl +:+ "    (" +:+ nl +:+ "        OWNER=" +:+ arg idx +:+ nl +:+ "    OR" +:+ nl
  +:+ "        MEMBERS->" +:+ arg idx +:+ "->>'role' IN ('reader', 'manager', 'admin')" +:+ nl
  +:+ "    OR" +:+ nl
  +:+ "        MEMBERS->''->>'role' IN ('reader', 'manager', 'admin')" +:+ nl
  +:+ "    )" +:+ nl.

Definition auth_read (user : option UserInformation) (b : t) : t :=
  match user with
  | None => b
  | Some user =>
      if is_admin user then b
      else
        let b := ensure_where_or_and b in
        let b :=
          match user with
          | Authenticated d => push_param (PVarchar (ud_user_id d)) VARCHAR b
          | Anonymous => push_param (PVarchar "") VARCHAR b
          end in
        let idx := length (params b) in
        push_str (auth_text idx) b
  end.

Definition name (n : option string) (b : t) : t :=
  match n with
  | Some n =>
      let b := ensure_where_or_and b in
      let b := push_param (PVarchar n) VARCHAR b in
      push_str (" NAME=" +:+ arg (length (params b))) b
  | None => b
  end.

(** The loop body of [labels]. *)
Definition label_op (b : t) (op : Operation) : t :=
  let b := ensure_where_or_and b in
  match op with
  | Exists label =>
      let b := push_param (PVarchar label) VARCHAR b in
      push_str (" LABELS ? " +:+ arg (length (params b))) b
  | NotExists label =>
      let b := push_param (PVarchar label) VARCHAR b in
      push_str (" (NOT LABELS ? " +:+ arg (length (params b)) +:+ ")") b
  | Eq label value =>
      let b := push_param (PVarchar value) VARCHAR (push_param (PVarchar label) VARCHAR b) in
      push_str (" LABELS ->> " +:+ arg (length (params b) - 1) +:+ " = "
        +:+ arg (length (params b))) b
  | NotEq label value =>
      let b := push_param (PVarchar value) VARCHAR (push_param (PVarchar label) VARCHAR b) in
      push_str (" LABELS ->> " +:+ arg (length (params b) - 1) +:+ " <> "
        +:+ arg (length (params b))) b
  | In label values =>
      let b := push_param (PVarcharArray values) VARCHAR_ARRAY
        (push_param (PVarchar label) VARCHAR b) in
      push_str (" LABELS ->> " +:+ arg (length (params b) - 1) +:+ " = ANY ("
        +:+ arg (length (params b)) +:+ ")") b
  | NotIn label values =>
      let b := push_param (PVarcharArray values) VARCHAR_ARRAY
        (push_param (PVarchar label) VARCHAR b) in
      push_str (" NOT(LABELS ->> " +:+ arg (length (params b) - 1) +:+ " = ANY ("
        +:+ arg (length (params b)) +:+ "))") b
  end.

Definition labels (ops : list Operation) (b : t) : t := foldl label_op b ops.

Definition build (b : t) : string * list SqlParam * list SqlType :=
  let select := select b in
  let select :=
    match sort_by b with
    | [] => select
    | s => select +:+ nl +:+ "ORDER BY " +:+ join "," s
    end in
  let select :=
    match limit_to b with
    | Some l => select +:+ nl +:+ "LIMIT " +:+ pretty l
    | None => select
    end in
  let select :=
    match offset_by b with
    | Some o => select +:+ nl +:+ "OFFSET " +:+ pretty o
    | None => select
    end in
  (select +:+ nl +:+ Lock.as_ref (lock_mode b), params b, types b).
End SelectBuilder.

(** ** Conditions *)

(** The conditions the builder appends; numbers are parameter positions,
    counted from one. *)
Inductive Cond : Type :=
| CName (i : nat)
| CExists (i : nat)
| CNotExists (i : nat)
| CEq (i j : nat)
| CNotEq (i j : nat)
| CIn (i j : nat)
| CNotIn (i j : nat)
| CAuth (i : nat).

Definition cond_text (c : Cond) : string :=
  match c with
  | CName i => " NAME=" +:+ SelectBuilder.arg i
  | CExists i => " LABELS ? " +:+ SelectBuilder.arg i
  | CNotExists i => " (NOT LABELS ? " +:+ SelectBuilder.arg i +:+ ")"
  | CEq i j => " LABELS ->> " +:+ SelectBuilder.arg i +:+ " = " +:+ SelectBuilder.arg j
  | CNotEq i j => " LABELS ->> " +:+ SelectBuilder.arg i +:+ " <> " +:+ SelectBuilder.arg j
  | CIn i j => " LABELS ->> " +:+ SelectBuilder.arg i +:+ " = ANY (" +:+ SelectBuilder.arg j +:+ ")"
  | CNotIn i j =>
      " NOT(LABELS ->> " +:+ SelectBuilder.arg i +:+ " = ANY (" +:+ SelectBuilder.arg j +:+ "))"
  | CAuth i => SelectBuilder.auth_text i
  end.

(** The text of a conjunction; the first condition follows [WHERE] unless
    there is one already. *)
Fixpoint conds_text (have_where : bool) (cs : list Cond) : string :=
  match cs with
  | [] => ""
  | c :: cs =>
      (nl +:+ (if have_where then "AND" else "WHERE")) +:+ cond_text c +:+ conds_text true cs
  end.

(** The columns a condition looks at. *)
Record SqlRow := mkSqlRow {
  sr_name : string;
  sr_labels : option (gmap string string);
  sr_owner : option string;
  sr_members : option (list (string * MemberEntry));
}.

(** Three-valued logic: [None] is SQL's NULL. *)
Definition sql_not (x : option bool) : option bool := negb <$> x.
Definition sql_or (x y : option bool) : option bool :=
  match x, y with
  | Some true, _ | _, Some true => Some true
  | Some false, Some false => Some false
  | _, _ => None
  end.

Definition varchar (ps : list SqlParam) (i : nat) : option string :=
  match ps !! (i - 1) with
  | Some (PVarchar s) => Some s
  | _ => None
  end.
Definition varchar_array (ps : list SqlParam) (i : nat) : option (list string) :=
  match ps !! (i - 1) with
  | Some (PVarcharArray l) => Some l
  | _ => None
  end.

(** The stored name of a role, as serde renames it. *)
Definition role_name (r : Role) : string :=
  match r with
  | Admin => "admin"
  | Manager => "manager"
  | Reader => "reader"
  end.

(** [MEMBERS -> k ->> 'role' IN ('reader', 'manager', 'admin')] *)
Definition role_in (ms : option (list (string * MemberEntry))) (k : string) : option bool :=
  members ← ms; m ← im_get k members;
  Some (existsb (string_eqb (role_name (role m))) ["reader"; "manager"; "admin"]).

Definition label (r : SqlRow) (k : string) : option string := sr_labels r ≫= (!!) k.

Definition eval_cond (ps : list SqlParam) (r : SqlRow) (c : Cond) : option bool :=
  match c with
  | CName i => n ← varchar ps i; Some (string_eqb (sr_name r) n)
  | CExists i => k ← varchar ps i; ls ← sr_labels r; Some (bool_decide (is_Some (ls !! k)))
  | CNotExists i =>
      k ← varchar ps i; ls ← sr_labels r; Some (negb (bool_decide (is_Some (ls !! k))))
  | CEq i j => k ← varchar ps i; v ← varchar ps j; x ← label r k; Some (string_eqb x v)
  | CNotEq i j =>
      k ← varchar ps i; v ← varchar ps j; x ← label r k; Some (negb (string_eqb x v))
  | CIn i j =>
      k ← varchar ps i; vs ← varchar_array ps j; x ← label r k; Some (existsb (string_eqb x) vs)
  | CNotIn i j =>
      sql_not (k ← varchar ps i; vs ← varchar_array ps j; x ← label r k;
               Some (existsb (string_eqb x) vs))
  | CAuth i =>
      u ← varchar ps i;
      sql_or (o ← sr_owner r; Some (string_eqb o u))
        (sql_or (role_in (sr_members r) u) (role_in (sr_members r) ""))
  end.

(** A row is selected if every condition is true (neither false nor NULL). *)
Definition selected (ps : list SqlParam) (r : SqlRow) (cs : list Cond) : Prop :=
  Forall (λ c, eval_cond ps r c = Some true) cs.

(** ** What the selectors mean *)

Definition op_matches (ls : gmap string string) (op : Operation) : Prop :=
  match op with
  | Eq k v => ls !! k = Some v
  | NotEq k v => ∃ x, ls !! k = Some x ∧ x ≠ v
  | In k vs => ∃ x, ls !! k = Some x ∧ x ∈ vs
  | NotIn k vs => ∃ x, ls !! k = Some x ∧ x ∉ vs
  | Exists k => is_Some (ls !! k)
  | NotExists k => ls !! k = None
  end.

(** A row as what [authorize] decides on. *)
#[global] Instance sql_resource : Resource SqlRow :=
  {| res_owner := sr_owner; res_members r := default [] (sr_members r) |}.

(** The row has an entry for the user among its members, and for everyone (the member
    with the empty name). *)
Definition member_of (r : SqlRow) (u : UserInformation) : Prop :=
  is_Some (im_get (default "" (user_id u)) (res_members r)).
Definition open_to_all (r : SqlRow) : Prop := is_Some (im_get "" (res_members r)).

(** Who gets a row in a list: administrators, and those who may read it if it has an owner;
    but also the members of a row without owner, everyone if there is an entry for the empty
    member, and anonymous users if the owner is the empty name. *)
Definition row_listed (r : SqlRow) (u : UserInformation) : Prop :=
  is_admin u = true ∨ (is_Some (sr_owner r) ∧ authorize r u Permission.Read = Allow) ∨
  member_of r u ∨ open_to_all r ∨ (u = Anonymous ∧ sr_owner r = Some "").

Lemma row_listed_sql r u :
  row_listed r u ↔ is_admin u = true ∨ sr_owner r = Some (default "" (user_id u)) ∨
    (∃ ms k, sr_members r = Some ms ∧ is_Some (im_get k ms) ∧ (k = default "" (user_id u) ∨ k = "")).
Proof.
  assert (Hm : ∀ k, is_Some (im_get k (res_members r)) ↔ ∃ ms, sr_members r = Some ms ∧ is_Some (im_get k ms)).
  { intros k. simpl. destruct (sr_members r) as [ms|]; simpl; [naive_solver|]. split; [by intros []|naive_solver]. }
  unfold row_listed, member_of, open_to_all. rw !Hm authorize_spec. split.
  - intros [?|[[Hs Ha]|[(ms & ? & ?)|[(ms & ? & ?)|[-> ?]]]]].
    + by left.
    + destruct Ha as [?|[Ho|[[_ Ho]|(m & Hk & _)]]].
      * by left.
      * cbn in Ho. rw Ho in Hs. by destruct Hs.
      * right; left. cbn in Ho. rw Ho in Hs |- *. by destruct (user_id u); [|destruct Hs].
      * right; right. destruct (proj1 (Hm _) (ex_intro _ m Hk)) as (ms & ? & ?). exists ms, (default "" (user_id u)). auto.
    + right; right. exists ms, (default "" (user_id u)). auto.
    + right; right. exists ms, "". auto.
    + by right; left.
  - intros [?|[Ho|(ms & k & ? & ? & [-> | ->])]].
    + by left.
    + destruct u as [d|]; [|by do 4 right]. right; left. rw Ho. split; [by eexists|].
      right; right; left. cbn. rw Ho. by split; [eexists|].
    + do 2 right. left. by exists ms.
    + do 3 right. left. by exists ms.
Qed.

(** It is what [authorize] says, but for rows without owner, shared with everyone, or owned
    by the empty name. *)
Lemma row_listed_readable r u :
  is_Some (sr_owner r) → ¬ open_to_all r → sr_owner r ≠ Some "" ∨ u ≠ Anonymous →
  row_listed r u ↔ authorize r u Permission.Read = Allow.
Proof.
  intros Ho Hopen Hanon. unfold row_listed. split; [|by auto].
  intros [Ha|[[_ ?]|[Hm|[?|[-> ?]]]]]; [|done| |done|by destruct Hanon].
  - apply authorize_spec. by left.
  - apply authorize_spec. destruct Hm as [m Hm]. do 3 right. exists m. split; [done|]. simpl. lia.
Qed.

Lemma role_in_true ms k :
  role_in ms k = Some true ↔ ∃ l, ms = Some l ∧ is_Some (im_get k l).
Proof.
  unfold role_in. destruct ms as [l|]; simpl; [|naive_solver].
  destruct (im_get k l) as [[r]|] eqn:Hk; simpl; [destruct r; naive_solver|].
  split; [done|]. intros (l' & [= <-] & x & Hx). congruence.
Qed.

Lemma sql_or_true x y : sql_or x y = Some true ↔ x = Some true ∨ y = Some true.
Proof. destruct x as [[]|], y as [[]|]; simpl; naive_solver. Qed.

Lemma existsb_string x l : existsb (string_eqb x) l = true ↔ x ∈ l.
Proof.
  rw existsb_exists. setoid_rewrite string_eqb_eq. setoid_rewrite <- list_elem_of_In. naive_solver.
Qed.

(** ** The builder appends the conditions of its arguments *)

Definition param_type (p : SqlParam) : SqlType :=
  match p with
  | PVarchar _ => VARCHAR
  | PVarcharArray _ => VARCHAR_ARRAY
  end.

(** From [b] to [b'] the conditions [cs] were appended, with the parameters
    they refer to; together they mean [P], whatever parameters follow. *)
Record appends (b b' : SelectBuilder.t) (cs : list Cond) (P : SqlRow → Prop) : Prop := {
  app_text : SelectBuilder.select b' =
    SelectBuilder.select b +:+ conds_text (SelectBuilder.have_where b) cs;
  app_where : SelectBuilder.have_where b' =
    SelectBuilder.have_where b || negb (bool_decide (cs = []));
  app_params : ∃ ps, SelectBuilder.params b' = SelectBuilder.params b ++ ps ∧
    SelectBuilder.types b' = SelectBuilder.types b ++ map param_type ps;
  app_eval : ∀ more r, selected (SelectBuilder.params b' ++ more) r cs ↔ P r;
}.

#[global] Instance Cond_eq_dec : EqDecision Cond.
Proof. solve_decision. Defined.

Lemma conds_text_app hw cs cs' :
  conds_text hw (cs ++ cs') =
  conds_text hw cs +:+ conds_text (hw || negb (bool_decide (cs = []))) cs'.
Proof.
  revert hw. induction cs as [|c cs IH]; intros hw.
  - rw bool_decide_true // orb_false_r app_empty_l //.
  - rw bool_decide_false //= orb_true_r. cbn [app conds_text]. rw IH /= !str_app_assoc //.
Qed.

Lemma appends_refl b : appends b b [] (λ _, True).
Proof.
  split; [by rw app_empty_r|by rw bool_decide_true // orb_false_r| |].
  - exists []. by rw !app_nil_r.
  - intros. split; [done|constructor].
Qed.

Lemma appends_trans b b1 b2 cs1 cs2 P1 P2 :
  appends b b1 cs1 P1 → appends b1 b2 cs2 P2 →
  appends b b2 (cs1 ++ cs2) (λ r, P1 r ∧ P2 r).
Proof.
  intros [Ht1 Hw1 (ps1 & Hp1 & Hty1) He1] [Ht2 Hw2 (ps2 & Hp2 & Hty2) He2]. split.
  - by rw Ht2 Ht1 Hw1 conds_text_app str_app_assoc.
  - rw Hw2 Hw1. destruct cs1, cs2; by destruct (SelectBuilder.have_where b).
  - exists (ps1 ++ ps2). by rw Hp2 Hp1 Hty2 Hty1 map_app !app_assoc.
  - intros more r. unfold selected in *. rw Forall_app (He2 more r).
    rw Hp2 -app_assoc (He1 (ps2 ++ more) r) //.
Qed.

(** One condition [c] with the parameters [ps]. *)
Lemma appends_one b ps c P b' :
  b' = SelectBuilder.mk
    (SelectBuilder.select b +:+ (nl +:+ (if SelectBuilder.have_where b then "AND" else "WHERE"))
       +:+ cond_text c)
    (SelectBuilder.params b ++ ps) (SelectBuilder.types b ++ map param_type ps) true
    (SelectBuilder.sort_by b) (SelectBuilder.lock_mode b) (SelectBuilder.limit_to b)
    (SelectBuilder.offset_by b) →
  (∀ more r, eval_cond ((SelectBuilder.params b ++ ps) ++ more) r c = Some true ↔ P r) →
  appends b b' [c] P.
Proof.
  intros -> He. split; simpl.
  - by rw app_empty_r.
  - by rw orb_true_r.
  - by exists ps.
  - intros more r. unfold selected. by rw Forall_singleton He.
Qed.

(** Looking up the parameters pushed last. *)
Lemma param_at (ps : list SqlParam) p qs more i :
  i = length ps → ((ps ++ p :: qs) ++ more) !! i = Some p.
Proof. intros ->. rw -app_assoc list_lookup_middle //. Qed.

Lemma param_next (ps : list SqlParam) p q qs more i :
  i = S (length ps) → ((ps ++ p :: q :: qs) ++ more) !! i = Some q.
Proof.
  intros ->. replace (ps ++ p :: q :: qs) with ((ps ++ [p]) ++ q :: qs) by by rw -app_assoc.
  apply param_at. rw length_app /=. lia.
Qed.

Lemma ensure_where_eq b :
  SelectBuilder.ensure_where_or_and b =
  SelectBuilder.mk
    (SelectBuilder.select b +:+ (nl +:+ (if SelectBuilder.have_where b then "AND" else "WHERE")))
    (SelectBuilder.params b) (SelectBuilder.types b) true (SelectBuilder.sort_by b)
    (SelectBuilder.lock_mode b) (SelectBuilder.limit_to b) (SelectBuilder.offset_by b).
Proof. destruct b as [s ps ts [] so l li o]; done. Qed.

Lemma name_appends n b :
  ∃ cs, appends b (SelectBuilder.name n b) cs (λ r, ∀ x, n = Some x → sr_name r = x).
Proof.
  destruct n as [x|]; simpl.
  - exists [CName (length (SelectBuilder.params b ++ [PVarchar x]))].
    apply (appends_one _ [PVarchar x]).
    + rw ensure_where_eq /SelectBuilder.push_str /=. by rw str_app_assoc.
    + intros more r. simpl. unfold varchar. rw param_at; [rw length_app /=; lia|]. simpl.
      destruct (string_eqb_spec (sr_name r) x); naive_solver.
  - exists []. destruct (appends_refl b) as [? ? ? He]. split; try done.
    intros more r. rw He. naive_solver.
Qed.

Lemma ex_some {A} (x : A) (Q : A → Prop) : (∃ y, Some x = Some y ∧ Q y) ↔ Q x.
Proof. naive_solver. Qed.

Lemma label_op_appends op b :
  ∃ cs, appends b (SelectBuilder.label_op b op) cs
    (λ r, ∃ ls, sr_labels r = Some ls ∧ op_matches ls op).
Proof.
  set (n := length (SelectBuilder.params b)).
  assert (Hv : ∀ s qs more, varchar ((SelectBuilder.params b ++ PVarchar s :: qs) ++ more) (S n) = Some s).
  { intros. unfold varchar. rw param_at //=. lia. }
  destruct op as [k v|k v|k vs|k vs|k|k].
  all: match goal with
  | |- context [Eq ?k ?v] =>
      exists [CEq (S n) (S (S n))]; apply (appends_one _ [PVarchar k; PVarchar v])
  | |- context [NotEq ?k ?v] =>
      exists [CNotEq (S n) (S (S n))]; apply (appends_one _ [PVarchar k; PVarchar v])
  | |- context [In ?k ?v] =>
      exists [CIn (S n) (S (S n))]; apply (appends_one _ [PVarchar k; PVarcharArray v])
  | |- context [NotIn ?k ?v] =>
      exists [CNotIn (S n) (S (S n))]; apply (appends_one _ [PVarchar k; PVarcharArray v])
  | |- context [Exists ?k] => exists [CExists (S n)]; apply (appends_one _ [PVarchar k])
  | |- context [NotExists ?k] => exists [CNotExists (S n)]; apply (appends_one _ [PVarchar k])
  end.
  all: try (unfold SelectBuilder.label_op; rw ensure_where_eq;
    unfold SelectBuilder.push_str, SelectBuilder.push_param; cbn;
    rw -?app_assoc ?length_app /= ?(Nat.add_comm _ 1) ?(Nat.add_comm _ 2) ?str_app_assoc //).
  all: intros more r; cbn; rw ?Hv; cbn; unfold varchar, varchar_array, label;
    rw ?param_next /=; try (cbn; lia); destruct (sr_labels r) as [ls|]; cbn; try naive_solver.
  all: rw ex_some; destruct (ls !! k) as [x|]; cbn.
  - destruct (string_eqb_spec x v); cbn; naive_solver.
  - naive_solver.
  - rw ex_some. destruct (string_eqb_spec x v); cbn; naive_solver.
  - naive_solver.
  - rw ex_some -existsb_string. by split; intros [= ->] || (intros ->).
  - naive_solver.
  - rw ex_some -existsb_string. destruct (existsb _ _); cbn; naive_solver.
  - naive_solver.
  - by split; eauto.
  - split; [done|by intros []].
  - done.
  - done.
Qed.

Lemma labels_appends ops b :
  ∃ cs, appends b (SelectBuilder.labels ops b) cs
    (λ r, ∀ op, op ∈ ops → ∃ ls, sr_labels r = Some ls ∧ op_matches ls op).
Proof.
  revert b. induction ops as [|op ops IH]; intros b; simpl.
  - exists []. destruct (appends_refl b) as [? ? ? He]. split; try done.
    intros more r. rw He. set_solver.
  - destruct (label_op_appends op b) as [cs1 H1].
    destruct (IH (SelectBuilder.label_op b op)) as [cs2 H2].
    exists (cs1 ++ cs2). destruct (appends_trans _ _ _ _ _ _ _ H1 H2) as [? ? ? He].
    split; try done. intros more r. rw He. set_solver.
Qed.

Lemma auth_read_appends user b :
  ∃ cs, appends b (SelectBuilder.auth_read user b) cs
    (λ r, ∀ u, user = Some u → row_listed r u).
Proof.
  unfold SelectBuilder.auth_read.
  assert (Hnone : ∀ P : SqlRow → Prop, (∀ r, P r) → appends b b [] P).
  { intros P HP. destruct (appends_refl b) as [? ? ? He]. split; try done.
    intros more r. rw He. naive_solver. }
  destruct user as [u|]; [|exists []; apply Hnone; naive_solver].
  destruct (is_admin u) eqn:Hadm.
  { exists []. apply Hnone. intros r u' [= <-]. by left. }
  set (n := length (SelectBuilder.params b)).
  exists [CAuth (S n)]. apply (appends_one _ [PVarchar (default "" (user_id u))]).
  - destruct u as [d|]; rw ensure_where_eq /SelectBuilder.push_str /SelectBuilder.push_param;
      cbn [SelectBuilder.params SelectBuilder.select SelectBuilder.types SelectBuilder.have_where
        SelectBuilder.sort_by SelectBuilder.lock_mode SelectBuilder.limit_to
        SelectBuilder.offset_by user_id default cond_text map param_type];
      rw length_app Nat.add_1_r str_app_assoc //.
  - intros more r. cbn. unfold varchar. rw param_at; [cbn; lia|]. cbn.
    assert (Hall : (∀ u', Some u = Some u' → row_listed r u') ↔ row_listed r u) by naive_solver.
    rw Hall row_listed_sql !sql_or_true !role_in_true Hadm.
    assert (Ho : (o ← sr_owner r; Some (string_eqb o (default "" (user_id u)))) = Some true ↔
      sr_owner r = Some (default "" (user_id u))).
    { destruct (sr_owner r) as [o|]; cbn; [|done].
      destruct (string_eqb_spec o (default "" (user_id u))); naive_solver. }
    cbn in Ho. rw Ho. naive_solver.
Qed.

(** ** Listing *)

(** The tail [build] appends. *)
Definition build_tail (b : SelectBuilder.t) : string :=
  match SelectBuilder.sort_by b with
  | [] => ""
  | s => nl +:+ "ORDER BY " +:+ join "," s
  end
  +:+ match SelectBuilder.limit_to b with
      | Some l => nl +:+ "LIMIT " +:+ pretty l
      | None => ""
      end
  +:+ match SelectBuilder.offset_by b with
      | Some o => nl +:+ "OFFSET " +:+ pretty o
      | None => ""
      end
  +:+ nl +:+ Lock.as_ref (SelectBuilder.lock_mode b).

Lemma build_text b : (SelectBuilder.build b).1.1 = SelectBuilder.select b +:+ build_tail b.
Proof.
  unfold SelectBuilder.build, build_tail.
  destruct (SelectBuilder.sort_by b), (SelectBuilder.limit_to b), (SelectBuilder.offset_by b);
    cbn [fst]; rw ?str_app_assoc ?app_empty_l ?str_app_assoc //.
Qed.

(** The query of [PostgresApplicationAccessor::list]. *)
Definition app_query (columns : string) (name : option string) (labels : list Operation)
    (limit offset : option nat) (id : option UserInformation) (lock : Lock.t)
    (sort : list string) : SelectBuilder.t :=
  SelectBuilder.offset offset (SelectBuilder.limit limit (SelectBuilder.sort sort
    (SelectBuilder.lock lock (SelectBuilder.auth_read id (SelectBuilder.labels labels
      (SelectBuilder.name name (SelectBuilder.new columns [] []))))))).

(** The query of [PostgresDeviceAccessor::list], whose text has a first
    condition and its parameter already. *)
Definition device_query (columns app : string) (name : option string) (labels : list Operation)
    (limit offset : option nat) (lock : Lock.t) : SelectBuilder.t :=
  SelectBuilder.offset offset (SelectBuilder.limit limit (SelectBuilder.sort ["NAME"]
    (SelectBuilder.lock lock (SelectBuilder.labels labels (SelectBuilder.name name
      (SelectBuilder.has_where (SelectBuilder.new columns [PVarchar app] [VARCHAR]))))))).

(** C26: the list query is what it is asked for.  Its text is the columns, a
    WHERE clause and the tail; every parameter has the type declared for it;
    and on the parameters it is sent with, the clause selects exactly the rows
    of the given name, with labels matching every selector, that are listed for
    the user.  For a row with an owner (not the empty name, or the user is signed
    in) and without an entry for the empty member these are the rows [authorize]
    lets the user read; a row without owner, which everyone may read, is listed
    only for administrators and its members; and one with an entry for the empty
    member is listed for everyone. *)
Theorem app_query_correct columns name labels limit offset id lock sort :
  let b := app_query columns name labels limit offset id lock sort in
  let '(text, params, types) := SelectBuilder.build b in
  ∃ cs, text = columns +:+ conds_text false cs +:+ build_tail b ∧
    types = map param_type params ∧
    (∀ r, selected params r cs ↔
      (∀ n, name = Some n → sr_name r = n) ∧
      (∀ op, op ∈ labels → ∃ ls, sr_labels r = Some ls ∧ op_matches ls op) ∧
      (∀ u, id = Some u → row_listed r u)) ∧
  (∀ r u, is_Some (sr_owner r) → ¬ open_to_all r → sr_owner r ≠ Some "" ∨ u ≠ Anonymous →
     row_listed r u ↔ authorize r u Permission.Read = Allow) ∧
  (∀ r u, sr_owner r = None → authorize r u Permission.Read = Allow ∧
     (row_listed r u ↔ is_admin u = true ∨ member_of r u ∨ open_to_all r)) ∧
  (∀ r u, open_to_all r → row_listed r u).
Proof.
  intros b. pose proof (build_text b) as Htext.
  destruct (name_appends name (SelectBuilder.new columns [] [])) as [cs1 H1].
  destruct (labels_appends labels (SelectBuilder.name name (SelectBuilder.new columns [] [])))
    as [cs2 H2].
  destruct (auth_read_appends id (SelectBuilder.labels labels
    (SelectBuilder.name name (SelectBuilder.new columns [] [])))) as [cs3 H3].
  pose proof (appends_trans _ _ _ _ _ _ _ H1 (appends_trans _ _ _ _ _ _ _ H2 H3)) as [Ht _ Hp He].
  exists (cs1 ++ cs2 ++ cs3). split_and!.
  - simpl in Htext. rw Htext. unfold b, app_query.
    cbn [SelectBuilder.offset SelectBuilder.limit SelectBuilder.sort SelectBuilder.lock
      SelectBuilder.select]. by rw Ht str_app_assoc.
  - destruct Hp as (ps & Hps & Hty). simpl in *. by rw Hps Hty.
  - intros r. specialize (He [] r). rw app_nil_r in He. exact He.
  - apply row_listed_readable.
  - intros r u Ho. split; [apply authorize_spec; by right; left|]. unfold row_listed. rw Ho.
    split; [intros [?|[[[] _]|[?|[?|[_ ?]]]]]; by auto|intros [?|[?|?]]; by auto].
  - intros r u Ha. unfold row_listed. by auto.
Qed.

(** *** The alignment with [authorize]

    [auth_read]'s comment: it must be aligned with [authorize]. *)

Definition sql_row (name : string) (row : AppRow) : SqlRow :=
  mkSqlRow name (ar_labels row) (ar_owner row) (ar_members row).

(** For an application with an owner and without a member entry for
    everyone, a signed-in user sees it in a list exactly if [authorize]
    grants reading it. *)
Theorem auth_read_aligned (row : AppRow) name (d : UserDetails) :
  ar_owner row ≠ None → im_get "" (default [] (ar_members row)) = None →
  row_listed (sql_row name row) (Authenticated d) ↔
  authorize (AppAccessor.from_row name row) (Authenticated d) Permission.Read = Allow.
Proof.
  intros Ho He. rw row_listed_readable.
  - by apply not_eq_None_Some.
  - unfold open_to_all. simpl. rw He. by intros [].
  - by right.
  - by rw !authorize_spec.
Qed.

(** Outside of that the two are not aligned: an application without owner
    may be read by everyone and is listed for no ordinary user; and one shared
    with the empty member is listed for every signed-in user, who may not read
    it unless listed by name. *)
Theorem auth_read_not_aligned name (d : UserDetails) :
  is_admin_details d = false →
  (∃ row, ar_owner row = None ∧ ¬ row_listed (sql_row name row) (Authenticated d) ∧
     authorize (AppAccessor.from_row name row) (Authenticated d) Permission.Read = Allow) ∧
  (ud_user_id d ≠ "" → ∃ row, is_Some (ar_owner row) ∧
     row_listed (sql_row name row) (Authenticated d) ∧
     authorize (AppAccessor.from_row name row) (Authenticated d) Permission.Read = Deny).
Proof.
  intros Hadm. split.
  - exists (mkAppRow 0 None None 0 0 0 0 None [] None None None Null). split; [done|]. split.
    + rw row_listed_sql. cbn. intros [?|[?|(ms & k & ? & _)]]; congruence.
    + apply authorize_spec. by right; left.
  - intros Hu.
    exists (mkAppRow 0 None None 0 0 0 0 None [] (Some (ud_user_id d +:+ "!")) None
      (Some [("", mkMember Reader)]) Null).
    assert (Hne : ud_user_id d +:+ "!" ≠ ud_user_id d).
    { generalize (ud_user_id d). intros s. induction s; [done|]. rw app_cons. congruence. }
    split; [done|]. split.
    + rw row_listed_sql. right; right. exists [("", mkMember Reader)], "". cbn. eauto.
    + destruct (authorize _ _ _) eqn:Ha; [|done]. apply authorize_spec in Ha. cbn in Ha.
      destruct Ha as [?|[?|[[_ ?]|(m & Hm & _)]]]; try congruence.
      destruct (string_eqb_spec (ud_user_id d) ""); done.
Qed.
