(* ===== verification/Labels.v ===== *)
(** * Label selectors

    [service-api/src/labels/parser.rs]: the parser of the label selectors of the
    list operations.  It is written with the combinators of the [nom] crate,
    which are an interface here, with their documented behaviour as laws and a
    reference implementation. *)

From S2P Require Import Prelude Json Versioning Auth Store Registry Management Select.

(** ** The combinators *)

(** The rest of the input and the result.  The only errors are recoverable
    ones. *)
Definition Parser (A : Type) : Type := string → option (string * A).

Class Nom := {
  tag : string → Parser string;
  space0 : Parser string;
  space1 : Parser string;
  alpha1 : Parser string;
  alphanumeric1 : Parser string;
  satisfy : (ascii → bool) → Parser ascii;
  many0 : ∀ {A}, Parser A → Parser (list A);
  opt : ∀ {A}, Parser A → Parser (option A);
  map : ∀ {A B}, Parser A → (A → B) → Parser B;
  preceded : ∀ {A B}, Parser A → Parser B → Parser B;
  pair : ∀ {A B}, Parser A → Parser B → Parser (A * B);
  alt : ∀ {A}, list (Parser A) → Parser A;
  recognize : ∀ {A}, Parser A → Parser string;
  separated_list0 : ∀ {A B}, Parser A → Parser B → Parser (list B);
}.

(** *** Characters *)

Definition in_range (lo hi : nat) (c : ascii) : bool :=
  (lo <=? Ascii.nat_of_ascii c) && (Ascii.nat_of_ascii c <=? hi).

Definition is_space (c : ascii) : bool := in_range 32 32 c || in_range 9 9 c.
Definition is_alpha (c : ascii) : bool := in_range 65 90 c || in_range 97 122 c.
Definition is_alphanum (c : ascii) : bool := is_alpha c || in_range 48 57 c.

(** The longest prefix of such characters, and the rest. *)
Fixpoint span (f : ascii → bool) (s : string) : string * string :=
  match s with
  | EmptyString => (EmptyString, EmptyString)
  | String c s' => if f c then (String c (span f s').1, (span f s').2) else (EmptyString, s)
  end.

Definition some_of (f : ascii → bool) (s : string) : option (string * string) :=
  if is_empty (span f s).1 then None else Some ((span f s).2, (span f s).1).

(** [tuple], by nesting. *)
Declare Scope parser_scope.
Notation "p ⊗ q" := (pair p q) (at level 62, right associativity) : parser_scope.
#[local] Open Scope parser_scope.

(** A parser that does not make up input. *)
Definition shrinks {A} (p : Parser A) : Prop :=
  ∀ s r a, p s = Some (r, a) → String.length r ≤ String.length s.

Class NomLaws `{Nom} := {
  tag_law t s : tag t s = (λ r, (r, t)) <$> strip_prefix t s;
  space0_law s : space0 s = Some ((span is_space s).2, (span is_space s).1);
  space1_law s : space1 s = some_of is_space s;
  alpha1_law s : alpha1 s = some_of is_alpha s;
  alphanumeric1_law s : alphanumeric1 s = some_of is_alphanum s;
  satisfy_law f s :
    satisfy f s = match s with String c r => if f c then Some (r, c) else None | EmptyString => None end;
  (** a parser that accepts without consuming is an error *)
  many0_law {A} (p : Parser A) s :
    shrinks p → many0 p s =
      match p s with
      | None => Some (s, [])
      | Some (r, a) =>
          if String.length r =? String.length s then None else '(r, l) ← many0 p r; Some (r, a :: l)
      end;
  opt_law {A} (p : Parser A) s :
    opt p s = Some match p s with Some (r, a) => (r, Some a) | None => (s, None) end;
  map_law {A B} (p : Parser A) (f : A → B) s : map p f s = (λ '(r, a), (r, f a)) <$> p s;
  preceded_law {A B} (p : Parser A) (q : Parser B) s : preceded p q s = '(r, _) ← p s; q r;
  pair_law {A B} (p : Parser A) (q : Parser B) s :
    pair p q s = '(r, a) ← p s; '(r, b) ← q r; Some (r, (a, b));
  alt_nil_law {A} s : alt (@nil (Parser A)) s = None;
  alt_cons_law {A} (p : Parser A) l s :
    alt (p :: l) s = match p s with Some x => Some x | None => alt l s end;
  (** the part of the input that was consumed *)
  recognize_law {A} (p : Parser A) s :
    recognize p s =
      (λ '(r, _), (r, Stdlib.Strings.String.substring 0 (String.length s - String.length r) s)) <$> p s;
  separated_list0_law {A B} (sep : Parser A) (p : Parser B) s :
    shrinks sep → shrinks p → separated_list0 sep p s =
      match p s with
      | None => Some (s, [])
      | Some (r, b) =>
          match sep r with
          | None => Some (r, [b])
          | Some (r1, _) =>
              if String.length r1 =? String.length r then None
              else
                match p r1 with
                | None => Some (r, [b])
                | Some _ => '(r2, l) ← separated_list0 sep p r1; Some (r2, b :: l)
                end
          end
      end;
}.

(** ** The parser *)

Record ParserError := mkParserError { details : string }.

Section Parser.
Context `{Nom}.

Definition value_char (c : ascii) : bool :=
  is_alphanum c || bool_decide (c = "_"%char) || bool_decide (c = "-"%char) || bool_decide (c = "."%char).
Definition prefix_char (c : ascii) : bool := is_alphanum c || bool_decide (c = "."%char).

Definition parse_raw_value : Parser string :=
  recognize (preceded alphanumeric1 (many0 (satisfy value_char))).

Definition parse_value : Parser string :=
  map (space0 ⊗ parse_raw_value ⊗ space0) (λ '(_, (result, _)), result).

Definition parse_label : Parser string :=
  preceded space0
    (recognize (opt (preceded alpha1 (many0 (satisfy prefix_char)) ⊗ tag "/") ⊗ parse_raw_value)).

Definition parse_exists : Parser Operation := map parse_label Exists.

Definition parse_not_exists : Parser Operation := map (preceded (tag "!") parse_label) NotExists.

Definition parse_equals : Parser Operation :=
  map (parse_label ⊗ space0 ⊗ tag "=" ⊗ parse_value) (λ '(label, (_, (_, value))), Eq label value).

Definition parse_not_equals : Parser Operation :=
  map (parse_label ⊗ space0 ⊗ tag "!=" ⊗ parse_value)
    (λ '(label, (_, (_, value))), NotEq label value).

Definition parse_in : Parser Operation :=
  map (parse_label ⊗ space1 ⊗ tag "in" ⊗ space0 ⊗ tag "(" ⊗
       separated_list0 (tag ",") parse_value ⊗ tag ")")
    (λ '(label, (_, (_, (_, (_, (value, _)))))), In label value).

Definition parse_not_in : Parser Operation :=
  map (parse_label ⊗ space1 ⊗ tag "notin" ⊗ space0 ⊗ tag "(" ⊗
       separated_list0 (tag ",") parse_value ⊗ tag ")")
    (λ '(label, (_, (_, (_, (_, (value, _)))))), NotIn label value).

Definition parse_one : Parser Operation :=
  alt [parse_in; parse_not_in; parse_equals; parse_not_equals; parse_exists; parse_not_exists].

Definition parse : Parser (list Operation) := separated_list0 (tag ",") parse_one.

(** The text of [nom]'s error is a parameter. *)
Definition parse_from (nom_error : string → string) (value : string)
    : result (list Operation) ParserError :=
  let? (remain, ops) := ok_or (mkParserError (nom_error value)) (parse value) in
  if is_empty remain then Ok ops
  else Err (mkParserError ("Unparsable remaining content: '" +:+ remain +:+ "'")).
End Parser.

(** ** Strings of characters *)

Fixpoint str_all (f : ascii → bool) (s : string) : bool :=
  match s with
  | EmptyString => true
  | String c s => f c && str_all f s
  end.

(** The input does not go on with such a character. *)
Definition stops (f : ascii → bool) (s : string) : bool :=
  match s with
  | EmptyString => true
  | String c _ => negb (f c)
  end.

Lemma span_app f a r : str_all f a = true → stops f r = true → span f (a +:+ r) = (a, r).
Proof.
  induction a as [|c a IH]; intros Ha Hr.
  - rw app_empty_l. destruct r as [|c r]; [done|]. simpl in *. by destruct (f c).
  - rw app_cons. simpl in *. apply andb_true_iff in Ha as [-> Ha]. by rw IH.
Qed.

Lemma span_spec f s :
  s = (span f s).1 +:+ (span f s).2 ∧ str_all f (span f s).1 = true ∧ stops f (span f s).2 = true.
Proof.
  induction s as [|c s IH]; [done|]. simpl. destruct (f c) eqn:Hc; simpl; rw ?Hc; [|done].
  destruct IH as (IH1 & IH2 & IH3). rw app_cons. split_and!; try done. by rw -IH1.
Qed.

(** Taking some characters first makes no difference. *)
Lemma span_span f g s :
  (∀ c, f c = true → g c = true) →
  span g s = ((span f s).1 +:+ (span g (span f s).2).1, (span g (span f s).2).2).
Proof.
  intros Hfg. induction s as [|c s IH]; [done|]. simpl. destruct (f c) eqn:Hf; simpl.
  - rw (Hfg c Hf). rw app_cons. by rw {1 2}IH.
  - rw app_empty_l. by destruct (g c).
Qed.

Lemma substring_app a r :
  Stdlib.Strings.String.substring 0 (String.length (a +:+ r) - String.length r) (a +:+ r) = a.
Proof.
  rw str_length_app Nat.add_sub. induction a as [|c a IH]; [by destruct r|]. rw app_cons. simpl. by rw IH.
Qed.

Lemma substring_rest s a r :
  s = a +:+ r → Stdlib.Strings.String.substring 0 (String.length s - String.length r) s = a.
Proof. intros ->. apply substring_app. Qed.

Lemma span_shorter f s : String.length (span f s).2 ≤ String.length s.
Proof. destruct (span_spec f s) as [Hs _]. rw {2}Hs str_length_app. lia. Qed.

(** ** What the parsers accept *)

Definition valid_value (v : string) : bool :=
  match v with
  | EmptyString => false
  | String c _ => is_alphanum c && str_all value_char v
  end.

Definition valid_prefix (p : string) : bool :=
  match p with
  | EmptyString => false
  | String c _ => is_alpha c && str_all prefix_char p
  end.

(** A value, or a prefix, a slash and a value. *)
Definition valid_label (l : string) : bool :=
  valid_value l ||
  match split_once "/" l with
  | Some (p, v) => valid_prefix p && valid_value v
  | None => false
  end.

Definition well_formed (op : Operation) : bool :=
  match op with
  | Eq label value | NotEq label value => valid_label label && valid_value value
  | In label values | NotIn label values => valid_label label && forallb valid_value values
  | Exists label | NotExists label => valid_label label
  end.

Section Facts.
Context `{NomLaws}.

Lemma shrinks_satisfy f : shrinks (satisfy f).
Proof.
  intros s r a. rw satisfy_law. destruct s as [|c s]; [done|]. destruct (f c); [|done].
  intros [= <- <-]. simpl. lia.
Qed.

Lemma many0_satisfy f s : ∃ l, many0 (satisfy f) s = Some ((span f s).2, l).
Proof.
  induction s as [|c s [l IH]]; rw many0_law ?satisfy_law; try apply shrinks_satisfy; [by eexists|].
  simpl. destruct (f c) eqn:Hc; simpl; [|by eexists].
  rw (proj2 (Nat.eqb_neq _ _)); [lia|]. rw IH /=. by eexists.
Qed.

Lemma some_of_spec f s :
  some_of f s = match s with
                | EmptyString => None
                | String c _ => if f c then Some ((span f s).2, (span f s).1) else None
                end.
Proof. unfold some_of. destruct s as [|c s]; [done|]. simpl. by destruct (f c). Qed.

(** One or more of the first kind of characters, then any number of the
    second. *)
Lemma some_then_many (p : Parser string) f g s :
  p s = some_of f s → (∀ c, f c = true → g c = true) →
  ∃ l, preceded p (many0 (satisfy g)) s =
    if stops f s then None else Some ((span g s).2, l).
Proof.
  intros Hp Hfg. rw preceded_law Hp some_of_spec. destruct s as [|c s]; [by exists []|].
  cbn [stops]. destruct (f c) eqn:Hc; cbn [negb]; [|by exists []]. cbn [mbind option_bind].
  destruct (many0_satisfy g (span f (String c s)).2) as [l Hl]. exists l. rw Hl.
  by rw (span_span f g (String c s) Hfg).
Qed.

Lemma recognize_rest {A} (p : Parser A) s r a x :
  p s = Some (r, x) → s = a +:+ r → recognize p s = Some (r, a).
Proof. intros Hp Hs. rw recognize_law Hp. simpl. by rw (substring_rest s a r Hs). Qed.

Lemma raw_value_spec s :
  parse_raw_value s = if stops is_alphanum s then None else Some ((span value_char s).2, (span value_char s).1).
Proof.
  unfold parse_raw_value.
  destruct (some_then_many alphanumeric1 is_alphanum value_char s) as [l Hl]; [apply alphanumeric1_law| |].
  { intros c Hc. unfold value_char. by rw Hc. }
  destruct (stops is_alphanum s) eqn:Hs; [by rw recognize_law Hl|].
  eapply recognize_rest; [exact Hl|]. apply span_spec.
Qed.

(** A prefix with its slash. *)
Definition split_prefix (s : string) : option (string * string) :=
  if stops is_alpha s then None
  else
    match (span prefix_char s).2 with
    | String c r => if bool_decide (c = "/"%char) then Some ((span prefix_char s).1, r) else None
    | EmptyString => None
    end.

Lemma split_prefix_app s p r : split_prefix s = Some (p, r) → s = p +:+ "/" +:+ r ∧ valid_prefix p = true.
Proof.
  unfold split_prefix. destruct (stops is_alpha s) eqn:Hs; [done|].
  destruct (span_spec prefix_char s) as (Happ & Hall & _).
  destruct (span prefix_char s) as [q t]. simpl in *. destruct t as [|c t]; [done|].
  case_bool_decide; [|done]. intros [= <- <-]. subst c. split; [done|].
  destruct q as [|c q]; simpl in *.
  - subst s. simpl in Hs. done.
  - rw app_cons in Happ. subst s. simpl in Hs. apply negb_false_iff in Hs. by rw Hs.
Qed.

Lemma prefix_spec s :
  ∃ x, opt (preceded alpha1 (many0 (satisfy prefix_char)) ⊗ tag "/") s =
    Some match split_prefix s with Some (p, r) => (r, Some x) | None => (s, None) end.
Proof.
  unfold split_prefix.
  destruct (some_then_many alpha1 is_alpha prefix_char s) as [l Hl]; [apply alpha1_law| |].
  { intros c Hc. unfold prefix_char, is_alphanum. by rw Hc. }
  exists (l, "/"). rw opt_law pair_law Hl. destruct (stops is_alpha s); [done|]. cbn [mbind option_bind].
  rw tag_law. destruct (span prefix_char s).2 as [|c r]; [done|]. simpl.
  destruct (decide (c = "/"%char)) as [->|Hne]; [done|].
  rw !bool_decide_false //; congruence.
Qed.

Lemma label_spec s :
  let t := (span is_space s).2 in
  parse_label s =
    match split_prefix t with
    | Some (p, r) => '(r', v) ← parse_raw_value r; Some (r', p +:+ "/" +:+ v)
    | None => parse_raw_value t
    end.
Proof.
  intros t. unfold parse_label. rw preceded_law space0_law. cbn [mbind option_bind]. fold t.
  destruct (prefix_spec t) as [x Hx]. rw recognize_law pair_law Hx. cbn [mbind option_bind].
  destruct (split_prefix t) as [[p r]|] eqn:Hp.
  - apply split_prefix_app in Hp as [Ht _]. rw !raw_value_spec. destruct (stops is_alphanum r); [done|]. simpl.
    destruct (span_spec value_char r) as [Hr _]. do 2 f_equal.
    apply substring_rest. by rw !str_app_assoc -Hr.
  - rw raw_value_spec. destruct (stops is_alphanum t); [done|]. simpl.
    do 2 f_equal. apply substring_rest. apply span_spec.
Qed.

Lemma value_spec s :
  parse_value s =
    '(r, v) ← parse_raw_value (span is_space s).2; Some ((span is_space r).2, v).
Proof.
  unfold parse_value. rw map_law pair_law space0_law. cbn [mbind option_bind]. rw pair_law.
  destruct (parse_raw_value _) as [[r v]|]; [|done]. simpl. by rw space0_law.
Qed.

(** *** Everything parsed is well-formed *)

Lemma tag_some t s r x : tag t s = Some (r, x) → s = t +:+ r.
Proof.
  rw tag_law. destruct (strip_prefix t s) as [q|] eqn:Hs; [|done]. intros [= <- _]. revert s Hs.
  induction t as [|c t IH]; intros s Hs; simpl in Hs; [by simplify_eq|]. destruct s as [|c' s]; [done|].
  case_bool_decide; [|done]. subst. rw app_cons. f_equal. by apply IH.
Qed.

Lemma shrinks_tag t : shrinks (tag t).
Proof. intros s r a ->%tag_some. rw str_length_app. lia. Qed.

Lemma raw_value_ok s r v :
  parse_raw_value s = Some (r, v) → s = v +:+ r ∧ valid_value v = true ∧ stops value_char r = true.
Proof.
  rw raw_value_spec. destruct (stops is_alphanum s) eqn:Hs; [done|]. intros [= <- <-].
  destruct (span_spec value_char s) as (Happ & Hall & Hst). split_and!; try done.
  destruct s as [|c s]; [done|]. simpl in Hs. apply negb_false_iff in Hs.
  destruct (span value_char (String c s)) as [a t]. simpl in *. destruct a as [|c' a].
  - rw app_empty_l in Happ. subst t. simpl in Hst. unfold value_char in Hst. by rw Hs in Hst.
  - rw app_cons in Happ. injection Happ as <- _. simpl in *. by rw Hs.
Qed.

Lemma str_all_no_char f c s : str_all f s = true → f c = false → has_char c s = false.
Proof.
  intros Hs Hc. induction s as [|a s IH]; [done|]. simpl in *. apply andb_true_iff in Hs as [Ha Hs].
  rw IH // orb_false_r bool_decide_false //. congruence.
Qed.

Lemma label_ok s r l :
  parse_label s = Some (r, l) → valid_label l = true ∧ String.length r ≤ String.length s.
Proof.
  rw label_spec. pose proof (span_shorter is_space s) as Hlen.
  destruct (split_prefix _) as [[p t]|] eqn:Hp.
  - apply split_prefix_app in Hp as [Ht Hvp]. destruct (parse_raw_value t) as [[r' v]|] eqn:Hv; [|done].
    intros [= <- <-]. apply raw_value_ok in Hv as (-> & Hv & _). rw Ht !str_length_app in Hlen.
    split; [|lia]. unfold valid_label. rw split_once_app; [|by rw Hvp Hv orb_true_r].
    destruct p as [|c p]; [done|]. simpl in Hvp. apply andb_true_iff in Hvp as [_ Hall].
    by eapply (str_all_no_char prefix_char).
  - intros (Hs & Hv & _)%raw_value_ok. rw Hs str_length_app in Hlen. split; [|lia].
    unfold valid_label. by rw Hv.
Qed.

Lemma value_ok s r v :
  parse_value s = Some (r, v) → valid_value v = true ∧ String.length r ≤ String.length s.
Proof.
  rw value_spec. pose proof (span_shorter is_space s) as Hlen.
  destruct (parse_raw_value _) as [[r' v']|] eqn:Hv; [|done]. intros [= <- <-].
  apply raw_value_ok in Hv as (Hs & Hv & _). rw Hs str_length_app in Hlen.
  pose proof (span_shorter is_space r'). split; [done|lia].
Qed.

Lemma shrinks_value : shrinks parse_value.
Proof. intros s r v Hv. by apply (value_ok s r v). Qed.

(** A list separated by commas is always accepted, and what is in it was
    accepted one by one. *)
Lemma separated_ok {A} (p : Parser A) (P : A → Prop) s :
  shrinks p → (∀ s r a, p s = Some (r, a) → P a) →
  ∃ r l, separated_list0 (tag ",") p s = Some (r, l) ∧ Forall P l ∧ String.length r ≤ String.length s.
Proof.
  intros Hp HP. remember (String.length s) as n eqn:Hn. revert s Hn.
  induction n as [n IH] using lt_wf_ind. intros s ->.
  rw separated_list0_law; [apply shrinks_tag|done|].
  destruct (p s) as [[r a]|] eqn:Hs; [|by exists s, []].
  pose proof (Hp _ _ _ Hs) as Hle. pose proof (HP _ _ _ Hs) as Ha.
  destruct (tag "," r) as [[r1 x]|] eqn:Ht; [|exists r, [a]; split_and!; auto; by apply Forall_singleton].
  apply tag_some in Ht as ->. rw str_length_app in Hle. simpl in Hle.
  rw (proj2 (Nat.eqb_neq _ _)); [rw str_length_app /=; lia|].
  destruct (p r1) as [y|] eqn:Hr1.
  - destruct (IH (String.length r1)) with (s := r1) as (r2 & l & Hl & HF & Hlen); [lia|done|].
    rw Hl /=. exists r2, (a :: l). split_and!; [done|by constructor|lia].
  - exists ("," +:+ r1), [a]. split_and!; [done|by apply Forall_singleton|rw str_length_app /=; lia].
Qed.

Lemma pair_some {A B} (p : Parser A) (q : Parser B) s r x :
  (p ⊗ q) s = Some (r, x) ↔ ∃ t, p s = Some (t, x.1) ∧ q t = Some (r, x.2).
Proof.
  rw pair_law. destruct x as [a b]. simpl. split.
  - intros ([t a'] & Hp & ([r' b'] & Hq & [= <- <- <-])%bind_Some)%bind_Some. by exists t.
  - intros (t & -> & Hq). simpl. by rw Hq.
Qed.

Lemma map_some {A B} (p : Parser A) (f : A → B) s r b :
  map p f s = Some (r, b) ↔ ∃ a, p s = Some (r, a) ∧ b = f a.
Proof.
  rw map_law. destruct (p s) as [[r' a]|]; simpl; [|naive_solver]. split; [|naive_solver].
  intros [= <- <-]. by exists a.
Qed.

Lemma space0_le s r x : space0 s = Some (r, x) → String.length r ≤ String.length s.
Proof. rw space0_law. intros [= <- _]. apply span_shorter. Qed.

Lemma space1_le s r x : space1 s = Some (r, x) → String.length r ≤ String.length s.
Proof.
  rw space1_law. unfold some_of. case_match; [done|]. intros [= <- _]. apply span_shorter.
Qed.

Lemma forallb_Forall {A} (f : A → bool) l : forallb f l = true ↔ Forall (λ x, f x = true) l.
Proof. induction l; simpl; rw ?andb_true_iff ?Forall_cons ?IHl; naive_solver. Qed.

Lemma in_list_ok kw s r x :
  (parse_label ⊗ space1 ⊗ tag kw ⊗ space0 ⊗ tag "(" ⊗ separated_list0 (tag ",") parse_value ⊗ tag ")") s
    = Some (r, x) →
  valid_label x.1 = true ∧ forallb valid_value x.2.2.2.2.2.1 = true ∧ String.length r ≤ String.length s.
Proof.
  destruct x as (label & a & b & c & d & vs & e). rw !pair_some. simpl.
  intros (t1 & [Hl Hlen]%label_ok & Hx). apply pair_some in Hx as (t2 & H2%space1_le & Hx).
  apply pair_some in Hx as (t3 & H3%shrinks_tag & Hx). apply pair_some in Hx as (t4 & H4%space0_le & Hx).
  apply pair_some in Hx as (t5 & H5%shrinks_tag & Hx). apply pair_some in Hx as (t6 & H6 & H7%shrinks_tag).
  destruct (separated_ok parse_value (λ v, valid_value v = true) t5) as (r' & l & Hs & Hall & Hle).
  { apply shrinks_value. } { intros ? ? ? Hv. by apply value_ok in Hv as [? _]. }
  simpl in *. rw Hs in H6. injection H6 as -> ->. split_and!; [done| |lia].
  by apply forallb_Forall.
Qed.

Lemma eq_ok op s r x :
  (parse_label ⊗ space0 ⊗ tag op ⊗ parse_value) s = Some (r, x) →
  valid_label x.1 = true ∧ valid_value x.2.2.2 = true ∧ String.length r ≤ String.length s.
Proof.
  destruct x as (label & a & b & v). rw !pair_some. simpl.
  intros (t1 & [Hl Hlen]%label_ok & Hx). apply pair_some in Hx as (t2 & H2%space0_le & Hx).
  apply pair_some in Hx as (t3 & H3%shrinks_tag & [Hv H4]%value_ok). simpl in *. split_and!; [done..|lia].
Qed.

Lemma alt_some {A} (l : list (Parser A)) s x : alt l s = Some x → ∃ p, p ∈ l ∧ p s = Some x.
Proof.
  induction l as [|p l IH]; [by rw alt_nil_law|]. rw alt_cons_law. destruct (p s) as [y|] eqn:Hp.
  - intros [= ->]. exists p. split; [by left|done].
  - intros (q & Hq & Hs)%IH. exists q. split; [by right|done].
Qed.

Lemma one_ok s r op : parse_one s = Some (r, op) → well_formed op = true ∧ String.length r ≤ String.length s.
Proof.
  intros (p & Hp & Ho)%alt_some. rw !elem_of_cons elem_of_nil in Hp.
  destruct Hp as [-> |[-> |[-> |[-> |[-> |[-> |[]]]]]]]; apply map_some in Ho as (x & Hx & ->).
  1-2: apply in_list_ok in Hx as (Hl & Hv & Hlen); destruct x as (? & ? & ? & ? & ? & ? & ?); simpl in *;
    by rw Hl Hv.
  1-2: apply eq_ok in Hx as (Hl & Hv & Hlen); destruct x as (? & ? & ? & ?); simpl in *; by rw Hl Hv.
  - by apply label_ok in Hx.
  - rw preceded_law in Hx. apply bind_Some in Hx as ([t y] & Ht%shrinks_tag & [Hl Hlen]%label_ok).
    split; [done|lia].
Qed.

Lemma shrinks_one : shrinks parse_one.
Proof. intros s r op Ho. by apply (one_ok s r op). Qed.

(** C38: a label selector that is accepted is well-formed: every label is a value, or
    a prefix (that starts with a letter) and a value with a slash between them,
    every value starts with a letter or a digit and has no other characters than
    those, and underscores, dashes and dots; and the only error there is is
    input that is left. *)
Theorem parse_well_formed nom_error value :
  (∀ ops, parse_from nom_error value = Ok ops → forallb well_formed ops = true) ∧
  (∀ e, parse_from nom_error value = Err e →
     ∃ remain, remain ≠ "" ∧ e = mkParserError ("Unparsable remaining content: '" +:+ remain +:+ "'")).
Proof.
  unfold parse_from, parse.
  destruct (separated_ok parse_one (λ op, well_formed op = true) value) as (r & l & Hl & HF & _).
  { apply shrinks_one. } { intros s r op Ho. by apply one_ok in Ho as [? _]. }
  rw Hl. cbn [ok_or rbind]. destruct (is_empty r) eqn:Hr; split; try done.
  - intros ops [= <-]. by apply forallb_Forall.
  - intros e [= <-]. exists r. split; [|done]. by intros ->.
Qed.

(** *** Everything well-formed can be written *)

(** How an operation is written, without optional blanks. *)
Definition print_op (op : Operation) : string :=
  match op with
  | Eq label value => label +:+ "=" +:+ value
  | NotEq label value => label +:+ "!=" +:+ value
  | In label values => label +:+ " in (" +:+ join "," values +:+ ")"
  | NotIn label values => label +:+ " notin (" +:+ join "," values +:+ ")"
  | Exists label => label
  | NotExists label => "!" +:+ label
  end.

Definition print (ops : list Operation) : string := join "," (print_op <$> ops).

(** The rest of the input ends a label and what precedes it. *)
Definition ends (r : string) : bool :=
  stops (λ c, value_char c || bool_decide (c = "/"%char)) r.

Lemma ends_value r : ends r = true → stops value_char r = true ∧ stops prefix_char r = true ∧
  stops (λ c, bool_decide (c = "/"%char)) r = true.
Proof.
  unfold ends. destruct r as [|c r]; [done|]. simpl. rw !negb_true_iff orb_false_iff. intros [Hv Hs].
  split_and!; [done| |done]. unfold value_char, prefix_char in *. rw !orb_false_iff in Hv |- *. naive_solver.
Qed.

Lemma raw_value_app v r :
  valid_value v = true → stops value_char r = true → parse_raw_value (v +:+ r) = Some (r, v).
Proof.
  intros Hv Hr. destruct v as [|c v]; [done|]. cbn [valid_value] in Hv. apply andb_true_iff in Hv as [Hc Hv].
  rw raw_value_spec (span_app _ _ _ Hv Hr). simpl. by rw Hc.
Qed.

Lemma span_stops f s : stops f s = true → span f s = (EmptyString, s).
Proof. destruct s as [|c s]; [done|]. simpl. by destruct (f c). Qed.

Lemma span_app_r f l r : stops f r = true → span f (l +:+ r) = ((span f l).1, (span f l).2 +:+ r).
Proof.
  intros Hr. induction l as [|c l IH]; [by rw app_empty_l span_stops|]. rw app_cons. simpl.
  destruct (f c); [|done]. by rw IH.
Qed.

Lemma alphanum_not_space c : is_alphanum c = true → is_space c = false.
Proof.
  unfold is_alphanum, is_alpha, is_space, in_range. rw !orb_true_iff !andb_true_iff !Nat.leb_le.
  intros Hc. apply orb_false_iff. rw !andb_false_iff !Nat.leb_gt. lia.
Qed.

Lemma valid_value_first v r : valid_value v = true → stops is_space (v +:+ r) = true.
Proof.
  destruct v as [|c v]; [done|]. cbn [valid_value]. intros [Hc _]%andb_true_iff. rw app_cons. simpl.
  by rw alphanum_not_space.
Qed.

Lemma value_no_prefix l r : valid_value l = true → ends r = true → split_prefix (l +:+ r) = None.
Proof.
  intros Hl (_ & Hp & Hs)%ends_value. unfold split_prefix. case_match; [done|].
  rw span_app_r //. simpl. destruct (span_spec prefix_char l) as (Happ & _ & _).
  destruct (span prefix_char l) as [a b]. simpl in *. destruct b as [|c b].
  - rw app_empty_l. destruct r as [|c r]; [done|]. simpl in Hs. by case_bool_decide.
  - rw app_cons. rw bool_decide_false //. intros ->.
    assert (Hall : str_all value_char l = true).
    { destruct l; [done|]. cbn [valid_value] in Hl. by apply andb_true_iff in Hl as [_ ?]. }
    assert (Hn : has_char "/" l = false) by (by apply (str_all_no_char value_char)).
    rw Happ has_char_app /= orb_true_r in Hn. done.
Qed.

Lemma label_app l r : valid_label l = true → ends r = true → parse_label (l +:+ r) = Some (r, l).
Proof.
  intros Hl Hr. destruct (ends_value r Hr) as (Hv & _ & _). rw label_spec. apply orb_true_iff in Hl as [Hl|Hl].
  - rw span_stops /=; [by apply valid_value_first|]. rw value_no_prefix //. by apply raw_value_app.
  - destruct (split_once "/" l) as [[p v]|] eqn:Hs; [|done]. apply andb_true_iff in Hl as [Hp Hval].
    apply split_once_some in Hs as [-> _]. rw str_app_assoc app_cons.
    destruct p as [|c p]; [done|]. cbn [valid_prefix] in Hp. apply andb_true_iff in Hp as [Hc Hp].
    assert (Hsp : stops is_space (String c p +:+ String "/" (v +:+ r)) = true).
    { rw app_cons. simpl. rw alphanum_not_space //. unfold is_alphanum. by rw Hc. }
    rw span_stops //. cbn [snd]. unfold split_prefix. rw span_app //. rw app_cons. cbn [stops]. rw Hc. simpl.
    by rw raw_value_app.
Qed.

Lemma value_app v r :
  valid_value v = true → stops value_char r = true → stops is_space r = true →
  parse_value (v +:+ r) = Some (r, v).
Proof.
  intros Hv Hr Hs. rw value_spec (span_stops is_space (v +:+ r)); [by apply valid_value_first|].
  cbn [snd]. rw raw_value_app //. simpl. by rw span_stops.
Qed.

(** Lists of things that can be parsed one by one, up to an end. *)
Lemma separated_app {A} (p : Parser A) (pr : A → string) (P : A → Prop) e l :
  shrinks p → p e = None → tag "," e = None →
  (∀ a r, P a → (r = e ∨ ∃ r', r = "," +:+ r') → p (pr a +:+ r) = Some (r, a)) →
  Forall P l → separated_list0 (tag ",") p (join "," (pr <$> l) +:+ e) = Some (e, l).
Proof.
  intros Hsh He Hte Hone. induction 1 as [|a l Ha Hl IH]; rw separated_list0_law; try apply shrinks_tag;
    try done; [by rw app_empty_l He|].
  destruct l as [|b l]; [by rw /= Hone ?Hte; auto|].
  change (join "," (pr <$> a :: b :: l)) with (pr a +:+ "," +:+ join "," (pr <$> b :: l)).
  rw !str_app_assoc. apply Forall_cons in Hl as [Hb _].
  assert (Hp : ∃ y, p (join "," (pr <$> b :: l) +:+ e) = Some y).
  { destruct l as [|c l]; [eexists; apply Hone; auto|].
    change (join "," (pr <$> b :: c :: l)) with (pr b +:+ "," +:+ join "," (pr <$> c :: l)).
    rw !str_app_assoc. eexists. apply Hone; [done|right; by eexists]. }
  destruct Hp as [y Hy]. revert IH Hy. generalize (join "," (pr <$> b :: l) +:+ e). intros t IH Hy.
  rw Hone; [done|right; by eexists|].
  rw tag_law strip_prefix_app. cbn [fmap option_fmap option_map]. rw (proj2 (Nat.eqb_neq _ _));
    [rw !str_length_app /=; lia|]. by rw Hy IH.
Qed.

(** The end of an operation. *)
Definition op_end (r : string) : Prop := r = "" ∨ ∃ r', r = "," +:+ r'.

Lemma op_end_stops r : op_end r → ends r = true ∧ stops value_char r = true ∧ stops is_space r = true.
Proof. by intros [-> |[r' ->]]. Qed.

Lemma values_app vs r :
  forallb valid_value vs = true →
  separated_list0 (tag ",") parse_value (join "," vs +:+ ")" +:+ r) = Some (")" +:+ r, vs).
Proof.
  intros Hvs%forallb_Forall. rewrite -{1}(list_fmap_id vs).
  apply (separated_app parse_value id (λ v, valid_value v = true)); [apply shrinks_value| | | |done].
  - rw value_spec. simpl. by rw raw_value_spec.
  - by rw tag_law.
  - intros v t Hv Ht. apply value_app; [done|..]; by destruct Ht as [-> |[t' ->]].
Qed.

(** The alternatives that fail before the right one. *)
Lemma no_in kw l t :
  valid_label l = true → ends t = true → stops is_space t = true →
  (parse_label ⊗ space1 ⊗ tag kw ⊗ space0 ⊗ tag "(" ⊗ separated_list0 (tag ",") parse_value ⊗ tag ")")
    (l +:+ t) = None.
Proof.
  intros Hl Ht Hs. rw pair_law label_app //. cbn [mbind option_bind].
  rw pair_law space1_law some_of_spec. destruct t as [|c t]; [done|]. simpl in *. by destruct (is_space c).
Qed.

Lemma no_eq op l t :
  valid_label l = true → ends t = true → tag op (span is_space t).2 = None →
  (parse_label ⊗ space0 ⊗ tag op ⊗ parse_value) (l +:+ t) = None.
Proof.
  intros Hl Ht Hop. rw pair_law label_app //. cbn [mbind option_bind].
  rw pair_law space0_law. cbn [mbind option_bind]. rw pair_law. by rw Hop.
Qed.

Lemma map_none {A B} (p : Parser A) (f : A → B) s : p s = None → map p f s = None.
Proof. intros Hp. by rw map_law Hp. Qed.

Lemma in_app kw l vs r :
  (∀ t, stops is_space (kw +:+ t) = true) → valid_label l = true → forallb valid_value vs = true →
  ∃ x, (parse_label ⊗ space1 ⊗ tag kw ⊗ space0 ⊗ tag "(" ⊗ separated_list0 (tag ",") parse_value ⊗ tag ")")
    (l +:+ " " +:+ kw +:+ " " +:+ "(" +:+ join "," vs +:+ ")" +:+ r) = Some (r, x) ∧
    x.1 = l ∧ x.2.2.2.2.2.1 = vs.
Proof.
  intros Hkw Hl Hvs. exists (l, (" ", (kw, (" ", ("(", (vs, ")")))))). split; [|done].
  apply pair_some. eexists. split; [by apply label_app|]. apply pair_some. eexists. split.
  { rw space1_law. unfold some_of. by rw span_app. }
  apply pair_some. eexists. split; [by rw tag_law strip_prefix_app|]. apply pair_some. eexists. split.
  { rw space0_law. by rw span_app. }
  apply pair_some. eexists. split; [by rw tag_law strip_prefix_app|]. apply pair_some.
  eexists. split; [by apply values_app|]. by rw tag_law strip_prefix_app.
Qed.

Lemma eq_app op l v r :
  ends (op +:+ v +:+ r) = true → stops is_space (op +:+ v +:+ r) = true →
  valid_label l = true → valid_value v = true → op_end r →
  ∃ x, (parse_label ⊗ space0 ⊗ tag op ⊗ parse_value) (l +:+ op +:+ v +:+ r) = Some (r, x) ∧
    x.1 = l ∧ x.2.2.2 = v.
Proof.
  intros He Hs Hl Hv (_ & Hr1 & Hr2)%op_end_stops. exists (l, ("", (op, v))). split; [|done].
  apply pair_some. eexists. split; [by apply label_app|]. apply pair_some. eexists. split.
  { rw space0_law. by rw span_stops. }
  apply pair_some. eexists. split; [by rw tag_law strip_prefix_app|]. by apply value_app.
Qed.

(** No label starts with an exclamation mark. *)
Lemma bang_no_label {A} (q : Parser A) t : (parse_label ⊗ q) ("!" +:+ t) = None.
Proof. rw pair_law label_spec. simpl. by rw raw_value_spec. Qed.

Lemma one_app op r : well_formed op = true → op_end r → parse_one (print_op op +:+ r) = Some (r, op).
Proof.
  intros Hop Hr. destruct (op_end_stops r Hr) as (He & _ & Hsp).
  unfold parse_one. rw !alt_cons_law. unfold parse_in, parse_not_in, parse_equals, parse_not_equals.
  destruct op as [l v|l v|l vs|l vs|l|l]; cbn [print_op well_formed] in *; rw ?str_app_assoc;
    try (apply andb_true_iff in Hop as [Hl Hv]).
  - rw !(map_none _ _ _ (no_in _ l _ Hl _ _)) //.
    destruct (eq_app "=" l v r) as (x & Hx & <- & <-); [done..|]. rw map_law Hx. by destruct x as (? & ? & ? & ?).
  - rw !(map_none _ _ _ (no_in _ l _ Hl _ _)) //. rw (map_none _ _ _ (no_eq "=" l _ Hl _ _)) //; [by rw tag_law|].
    destruct (eq_app "!=" l v r) as (x & Hx & <- & <-); [done..|]. rw map_law Hx. by destruct x as (? & ? & ? & ?).
  - destruct (in_app "in" l vs r) as (x & Hx & <- & <-); [done..|].
    rw map_law. rw Hx. by destruct x as (? & ? & ? & ? & ? & ? & ?).
  - destruct (in_app "notin" l vs r) as (x & Hx & <- & <-); [done..|].
    rw (map_none _ _ (x.1 +:+ _)); [|rw map_law Hx; by destruct x as (? & ? & ? & ? & ? & ? & ?)].
    rw pair_law label_app //. cbn [mbind option_bind]. rw pair_law space1_law. unfold some_of.
    rw (span_app is_space " ") //. cbn [fst snd is_empty mbind option_bind]. rw pair_law. by rw tag_law.
  - rw !(map_none _ _ _ (no_in _ l _ Hop _ _)) //.
    rw (map_none _ _ _ (no_eq "=" l _ Hop _ _)) //; [destruct Hr as [-> |[r' ->]]; by rw tag_law|].
    rw (map_none _ _ _ (no_eq "!=" l _ Hop _ _)) //; [destruct Hr as [-> |[r' ->]]; by rw tag_law|].
    unfold parse_exists. rw map_law label_app //.
  - rw !(map_none _ _ _ (bang_no_label _ _)). unfold parse_exists, parse_not_exists.
    rw (map_none parse_label); [rw label_spec; simpl; by rw raw_value_spec|].
    rw map_law preceded_law tag_law strip_prefix_app. cbn [fmap option_fmap option_map mbind option_bind].
    by rw label_app.
Qed.

(** C37: every well-formed label selector can be written down: printing the
    operations and parsing the text gives them back. *)
Theorem labels_roundtrip nom_error ops :
  forallb well_formed ops = true → parse_from nom_error (print ops) = Ok ops.
Proof.
  intros Hops%forallb_Forall. unfold parse_from, parse, print.
  rewrite -(app_empty_r (join "," _)).
  rw (separated_app parse_one print_op (λ op, well_formed op = true) "" ops) //.
  - apply shrinks_one.
  - unfold parse_one. rw !alt_cons_law alt_nil_law.
    unfold parse_in, parse_not_in, parse_equals, parse_not_equals, parse_exists, parse_not_exists.
    rw !map_law !pair_law !preceded_law tag_law label_spec. simpl. by rw raw_value_spec.
  - by rw tag_law.
  - intros op r Hop Hr. by apply one_app.
Qed.
End Facts.

(** ** A reference implementation of the combinators *)

Module Ref.
Fixpoint many0 {A} (fuel : nat) (p : Parser A) (s : string) : option (string * list A) :=
  match fuel with
  | 0 => None
  | S fuel =>
      match p s with
      | None => Some (s, [])
      | Some (r, a) =>
          if String.length r =? String.length s then None
          else '(r, l) ← many0 fuel p r; Some (r, a :: l)
      end
  end.

Fixpoint separated {A B} (fuel : nat) (sep : Parser A) (p : Parser B) (s : string)
    : option (string * list B) :=
  match fuel with
  | 0 => None
  | S fuel =>
      match p s with
      | None => Some (s, [])
      | Some (r, b) =>
          match sep r with
          | None => Some (r, [b])
          | Some (r1, _) =>
              if String.length r1 =? String.length r then None
              else
                match p r1 with
                | None => Some (r, [b])
                | Some _ => '(r2, l) ← separated fuel sep p r1; Some (r2, b :: l)
                end
          end
      end
  end.

Fixpoint alt {A} (l : list (Parser A)) (s : string) : option (string * A) :=
  match l with
  | [] => None
  | p :: l => match p s with Some x => Some x | None => alt l s end
  end.

(** More fuel than the length of the input makes no difference. *)
Lemma many0_fuel {A} (p : Parser A) n m s :
  shrinks p → String.length s < n → String.length s < m → many0 n p s = many0 m p s.
Proof.
  intros Hp. revert m s. induction n as [|n IH]; intros m s Hn Hm; [lia|]. destruct m as [|m]; [lia|].
  cbn [many0]. destruct (p s) as [[r a]|] eqn:Hs; [|done]. specialize (Hp s r a Hs).
  destruct (Nat.eqb_spec (String.length r) (String.length s)); [done|]. rw (IH m r); [lia|lia|done].
Qed.

Lemma separated_fuel {A B} (sep : Parser A) (p : Parser B) n m s :
  shrinks sep → shrinks p → String.length s < n → String.length s < m →
  separated n sep p s = separated m sep p s.
Proof.
  intros Hsep Hp. revert m s. induction n as [|n IH]; intros m s Hn Hm; [lia|]. destruct m as [|m]; [lia|].
  cbn [separated]. destruct (p s) as [[r b]|] eqn:Hs; [|done]. specialize (Hp s r b Hs).
  destruct (sep r) as [[r1 x]|] eqn:Hr; [|done]. specialize (Hsep r r1 x Hr).
  destruct (Nat.eqb_spec (String.length r1) (String.length r)); [done|].
  destruct (p r1); [|done]. rw (IH m r1); [lia|lia|done].
Qed.
End Ref.

Definition ref_nom : Nom := {|
  tag := λ t s, (λ r, (r, t)) <$> strip_prefix t s;
  space0 := λ s, Some ((span is_space s).2, (span is_space s).1);
  space1 := some_of is_space;
  alpha1 := some_of is_alpha;
  alphanumeric1 := some_of is_alphanum;
  satisfy := λ f s, match s with String c r => if f c then Some (r, c) else None | EmptyString => None end;
  many0 := λ A p s, Ref.many0 (S (String.length s)) p s;
  opt := λ A p s, Some match p s with Some (r, a) => (r, Some a) | None => (s, None) end;
  map := λ A B p f s, (λ '(r, a), (r, f a)) <$> p s;
  preceded := λ A B p q s, '(r, _) ← p s; q r;
  pair := λ A B p q s, '(r, a) ← p s; '(r, b) ← q r; Some (r, (a, b));
  alt := λ A, Ref.alt;
  recognize := λ A p s,
    (λ '(r, _), (r, Stdlib.Strings.String.substring 0 (String.length s - String.length r) s)) <$> p s;
  separated_list0 := λ A B sep p s, Ref.separated (S (String.length s)) sep p s;
|}.

Lemma ref_nom_laws : @NomLaws ref_nom.
Proof.
  split; try done.
  - intros A p s Hp. cbn [many0 ref_nom]. cbn [Ref.many0]. destruct (p s) as [[r a]|] eqn:Hs; [|done].
    specialize (Hp s r a Hs) as Hle. destruct (Nat.eqb_spec (String.length r) (String.length s)); [done|].
    by rw (Ref.many0_fuel p (String.length s) (S (String.length r)) r Hp ltac:(lia) ltac:(lia)).
  - intros A B sep p s Hsep Hp.
    change (separated_list0 sep p s) with (Ref.separated (S (String.length s)) sep p s). cbn [Ref.separated].
    destruct (p s) as [[r b]|] eqn:Hs; [|done]. specialize (Hp s r b Hs) as Hle.
    destruct (sep r) as [[r1 x]|] eqn:Hr; [|done]. specialize (Hsep r r1 x Hr) as Hle1.
    destruct (Nat.eqb_spec (String.length r1) (String.length r)); [done|].
    rw (Ref.separated_fuel sep p (String.length s) (S (String.length r1)) r1 Hsep Hp ltac:(lia) ltac:(lia)).
    done.
Qed.

(** The selectors of the tests of the parser. *)
Definition ref_parse (s : string) : option (list Operation) :=
  match @parse_from ref_nom (λ _, "error") s with Ok ops => Some ops | Err _ => None end.

Example parse_examples :
  ref_parse "" = Some [] ∧ ref_parse "foo.baz/bar.baz" = Some [Exists "foo.baz/bar.baz"] ∧
  ref_parse "foo-bar/baz" = None ∧ ref_parse "foo/bar/bar" = None ∧ ref_parse "foo," = None ∧
  ref_parse "foo=bar,bar!=baz,foo/bar.baz = baz" =
    Some [Eq "foo" "bar"; NotEq "bar" "baz"; Eq "foo/bar.baz" "baz"] ∧
  ref_parse "foo, foo in (bar, baz), foo notin (baz, bar)" =
    Some [Exists "foo"; In "foo" ["bar"; "baz"]; NotIn "foo" ["baz"; "bar"]].
Proof. split_and!; by_eval. Qed.

Lemma labels_roundtrip_witness :
  @parse_from ref_nom (λ _, "error") (print [NotIn "example.com/kind" ["a"; "b-1"]; NotExists "x"])
    = Ok [NotIn "example.com/kind" ["a"; "b-1"]; NotExists "x"].
Proof. apply (@labels_roundtrip ref_nom ref_nom_laws). reflexivity. Defined.

Lemma parse_well_formed_witness : forallb well_formed [Eq "foo" "bar"; Exists "a/b"] = true.
Proof.
  apply (proj1 (@parse_well_formed ref_nom ref_nom_laws (λ _, "error") "foo= bar,a/b")). by_eval.
Defined.
