(* ===== verification/WorkQueue.v ===== *)
(** * The work queue of the operators

    [operator-common/src/controller/base/queue.rs] and
    [operator-common/src/controller/base/mod.rs]: keys to process are rows of
    the table WORKQUEUE, with the time they are due and a revision.  Writers
    add keys, a reader fetches the next due key, hands it to the handler, and
    acknowledges it by deleting the row, unless it was written again in the
    meantime.  The handler runs the controller's operation, retrying a bounded
    number of times. *)

From Stdlib Require Import Sorting.Sorted.
From S2P Require Import Prelude.

(** ** Keys *)

Class Key (K : Type) := {
  to_string : K → string;
  from_string : string → result K string;
}.

(** An application: its name. *)
#[global] Instance key_string : Key string := {|
  to_string := λ s, s;
  from_string := λ s, Ok s;
|}.

(** A device: application and name. *)
#[global] Instance key_pair : Key (string * string) := {|
  to_string := λ k, k.1 +:+ "/" +:+ k.2;
  from_string := λ s,
    match split "/" s with
    | [a; b] => Ok (a, b)
    | _ => Err "missing slash?"
    end;
|}.

(** ** The table *)

Record QRow := mkQRow { q_ts : Z; q_rev : Z }.

#[global] Instance QRow_eq_dec : EqDecision QRow.
Proof. solve_decision. Defined.

(** The rows of one instance and type, by key. *)
Abbreviation Queue := (gmap string QRow).

(** The statement of [WorkQueueWriter::insert]; the column REV starts at zero.  [utc] is
    the clock of the writer ([Utc::now]), [now] that of the database ([now()]). *)
Definition insert (utc now : Z) (key : string) (after : Z) (q : Queue) : Queue :=
  let ts := (utc + after)%Z in
  match q !! key with
  | None => <[key := mkQRow ts 0]> q
  | Some row =>
      if (ts <? q_ts row)%Z || (q_ts row <? now)%Z
      then <[key := mkQRow ts (q_rev row + 1)]> q
      else q
  end.

(** The statement of [InnerReader::do_ack]. *)
Definition do_ack (key : string) (ts rev : Z) (q : Queue) : Queue :=
  match q !! key with
  | Some row =>
      if (q_ts row <=? ts)%Z && (q_rev row =? rev)%Z then base.delete key q else q
  | None => q
  end.

(** The due row that comes first: ORDER BY TS ASC LIMIT 1. *)
Definition earlier (best : option (string * QRow)) (kv : string * QRow) : option (string * QRow) :=
  match best with
  | None => Some kv
  | Some b => if (q_ts kv.2 <? q_ts b.2)%Z then Some kv else best
  end.

Definition next_due (now : Z) (q : Queue) : option (string * QRow) :=
  foldl earlier None (filter (λ kv, (q_ts kv.2 < now)%Z) (map_to_list q)).

Section Reader.
Context {K : Type} `{Key K}.

Record Entry := mkEntry { e_key : K; e_ts : Z; e_rev : Z }.

(** One turn of the loop of [fetch]: the time of the database, whether the query could be
    made, and whether the acknowledgement of an unreadable key was. *)
Record Turn := mkTurn { tn_now : Z; tn_query : bool; tn_ack : bool }.

(** The statement fails, or is carried out; the reader goes on either way. *)
Definition try_ack (up : bool) (key : string) (ts rev : Z) (q : Queue) : Queue :=
  if up then do_ack key ts rev q else q.

(** [InnerReader::fetch]: rows whose key cannot be read are acknowledged (and so removed) on
    the way, and looked at again if that failed; an error of the query ends it.  [fuel]
    bounds the number of turns, of which there may be any number. *)
Fixpoint fetch (turns : nat → Turn) (fuel i : nat) (q : Queue) : option (Queue * result (option Entry) unit) :=
  match fuel with
  | 0 => None
  | S fuel =>
      let turn := turns i in
      if negb (tn_query turn) then Some (q, Err tt)
      else
        match next_due (tn_now turn) q with
        | None => Some (q, Ok None)
        | Some (key, row) =>
            match from_string key with
            | Ok k => Some (q, Ok (Some (mkEntry k (q_ts row) (q_rev row))))
            | Err _ => fetch turns fuel (S i) (try_ack (tn_ack turn) key (q_ts row) (q_rev row) q)
            end
        end
  end.

(** [InnerReader::next]: fetch until there is an entry, or the reader was dropped; the turns
    of the [j]-th fetch are [rounds j]. *)
Fixpoint next (running : nat → bool) (rounds : nat → nat → Turn) (limit fuel j : nat) (q : Queue)
    : option (Queue * option Entry) :=
  match fuel with
  | 0 => None
  | S fuel =>
      if running j then
        match fetch (rounds j) limit 0 q with
        | Some (q, Ok (Some entry)) => Some (q, Some entry)
        | Some (q, _) => next running rounds limit fuel (S j) q
        | None => None
        end
      else Some (q, None)
  end.

(** [InnerReader::ack] *)
Definition ack (up : bool) (entry : Entry) (q : Queue) : Queue :=
  try_ack up (to_string (e_key entry)) (e_ts entry) (e_rev entry) q.

(** One turn of the worker loop, after the handler returned: reschedule, acknowledge, or
    leave the row; [add_up] and [ack_up] tell whether the statements could be made. *)
Definition worker_done (add_up ack_up : bool) (utc now : Z) (entry : Entry) (r : result (option (K * Z)) unit)
    (q : Queue) : Queue :=
  match r with
  | Ok (Some (rt, after)) =>
      if add_up then ack ack_up entry (insert utc now (to_string rt) after q) else q
  | Ok None => ack ack_up entry q
  | Err _ => q
  end.
End Reader.
Arguments Entry K : clear implicits.

(** ** Processing *)

Inductive ReconcileError : Type :=
| Permanent (msg : string)
| Temporary (msg : string).

Inductive OperationOutcome : Type :=
| Complete
| RetryNow
| RetryLater (delay : Z).

Definition retry (delay : option Z) : OperationOutcome :=
  match delay with
  | Some delay => if negb (delay =? 0)%Z then RetryLater delay else RetryNow
  | None => RetryNow
  end.

Definition MAX_RETRIES : nat := 10.

(** [InnerBaseController::process]: [attempt i] is the outcome of the [i]-th
    run of the operation. *)
Fixpoint process_loop {K} (attempt : nat → result OperationOutcome ReconcileError) (key : K)
    (fuel retries : nat) : option (result (option (K * Z)) unit) :=
  match fuel with
  | 0 => None
  | S fuel =>
      match attempt retries with
      | Ok Complete | Err (Permanent _) => Some (Ok None)
      | Ok RetryNow | Err (Temporary _) =>
          let retries := S retries in
          if (MAX_RETRIES <? retries)%nat then Some (Ok (Some (key, 0%Z)))
          else process_loop attempt key fuel retries
      | Ok (RetryLater delay) => Some (Ok (Some (key, delay)))
      end
  end.

Inductive ProcessOutcome (T : Type) : Type :=
| PComplete (outcome : T)
| PRetry (outcome : T) (delay : option Z).
Arguments PComplete {T} outcome.
Arguments PRetry {T} outcome delay.

(** [ControllerOperation::process] over the operations of a controller;
    [St] is the outside world they change. *)
Section Operation.
Context {K RI RO St CE : Type}.

Record ControllerOps := mkOps {
  op_get : K → St → St * result (option RI) CE;
  op_update_if : RO → RO → St → St * result unit ReconcileError;
  op_ref_output : RI → RO;
  op_process_resource : RI → St → St * result (ProcessOutcome RO) ReconcileError;
  op_recover : string → RI → St → St * result RO unit;
}.

(** Store the outcome, then report [r]. *)
Definition store (ops : ControllerOps) (resource : RI) (outcome : RO) (r : OperationOutcome) (st : St)
    : St * result OperationOutcome ReconcileError :=
  match op_update_if ops (op_ref_output ops resource) outcome st with
  | (st, Ok _) => (st, Ok r)
  | (st, Err e) => (st, Err e)
  end.

Definition recover_with (ops : ControllerOps) (msg : string) (resource : RI) (r : OperationOutcome)
    (st : St) : St * result OperationOutcome ReconcileError :=
  match op_recover ops msg resource st with
  | (st, Ok outcome) => store ops resource outcome r st
  | (st, Err _) => (st, Err (Permanent "Failed to recover"))
  end.

Definition process (ops : ControllerOps) (key : K) (st : St)
    : St * result OperationOutcome ReconcileError :=
  match op_get ops key st with
  | (st, Ok (Some resource)) =>
      match op_process_resource ops resource st with
      | (st, Ok (PComplete outcome)) => store ops resource outcome Complete st
      | (st, Ok (PRetry outcome delay)) => store ops resource outcome (retry delay) st
      | (st, Err (Temporary msg)) => recover_with ops msg resource RetryNow st
      | (st, Err (Permanent msg)) => recover_with ops msg resource Complete st
      end
  | (st, Ok None) => (st, Ok Complete)
  | (st, Err _) => (st, Ok RetryNow)
  end.
End Operation.

(** ** Facts *)

(** The row of a key that was inserted: written, or not yet due and due no later. *)
Lemma insert_row utc now key after q :
  ∃ row, insert utc now key after q !! key = Some row ∧
    (row = mkQRow (utc + after) (from_option (λ r, q_rev r + 1) 0 (q !! key))%Z ∨
     q !! key = Some row ∧ (now ≤ q_ts row ≤ utc + after)%Z).
Proof.
  unfold insert. destruct (q !! key) as [row|] eqn:Hq.
  - destruct (_ || _) eqn:Hc; simplify_map_eq; eexists; (split; [done|]); [by left|right]. split; [done|lia].
  - simplify_map_eq. eexists; split; [done|]. by left.
Qed.

Lemma insert_other utc now key key' after q : key' ≠ key → insert utc now key after q !! key' = q !! key'.
Proof. intros. unfold insert. repeat case_match; by simplify_map_eq. Qed.

(** A row that is due when its key is inserted again gets a new revision. *)
Lemma insert_due utc now key after q row :
  q !! key = Some row → (q_ts row < now)%Z →
  insert utc now key after q !! key = Some (mkQRow (utc + after) (q_rev row + 1)).
Proof.
  intros Hq Hts. unfold insert. rw Hq. rw (proj2 (Z.ltb_lt _ _) Hts) orb_true_r. by simplify_map_eq.
Qed.

Lemma do_ack_other key key' ts rev q : key' ≠ key → do_ack key ts rev q !! key' = q !! key'.
Proof. intros. unfold do_ack. repeat case_match; by simplify_map_eq. Qed.

Lemma do_ack_later key ts rev q row :
  q !! key = Some row → (ts < q_ts row)%Z → do_ack key ts rev q !! key = Some row.
Proof.
  intros Hq Hlt. unfold do_ack. rw Hq. destruct (_ && _) eqn:Hc; [|done]. lia.
Qed.

Lemma do_ack_newer key ts rev q row :
  q !! key = Some row → q_rev row ≠ rev → do_ack key ts rev q !! key = Some row.
Proof.
  intros Hq Hne. unfold do_ack. rw Hq. destruct (_ && _) eqn:Hc; [|done]. lia.
Qed.

Lemma try_ack_other up key key' ts rev q : key' ≠ key → try_ack up key ts rev q !! key' = q !! key'.
Proof. intros. destruct up; [by apply do_ack_other|done]. Qed.

Lemma earlier_fold l best kv :
  foldl earlier best l = Some kv →
  (best = Some kv ∨ kv ∈ l) ∧ (∀ kv', best = Some kv' ∨ kv' ∈ l → (q_ts kv.2 ≤ q_ts kv'.2)%Z).
Proof.
  revert best. induction l as [|x l IH]; intros best Hf; simpl in Hf.
  - subst. split; [by left|]. intros kv' [[= ->]|Hin]; [lia|set_solver].
  - apply IH in Hf as [Hin Hmin]. unfold earlier in *. destruct best as [b|].
    + destruct (Z.ltb_spec (q_ts x.2) (q_ts b.2)).
      * split; [set_solver|]. intros kv' [[= <-]|[->|Hk]%elem_of_cons]; [|by apply Hmin; left|by apply Hmin; right].
        assert (q_ts kv.2 ≤ q_ts x.2)%Z by (apply Hmin; by left). lia.
      * split; [set_solver|]. intros kv' [[= <-]|[->|Hk]%elem_of_cons]; [by apply Hmin; left| |by apply Hmin; right].
        assert (q_ts kv.2 ≤ q_ts b.2)%Z by (apply Hmin; by left). lia.
    + split; [set_solver|]. intros kv' [?|[->|Hk]%elem_of_cons]; [done|by apply Hmin; left|by apply Hmin; right].
Qed.

Lemma earlier_fold_none l best : foldl earlier best l = None → best = None ∧ l = [].
Proof.
  revert best. induction l as [|x l IH]; intros best Hf; simpl in Hf; [done|].
  apply IH in Hf as [Hb _]. unfold earlier in Hb. repeat case_match; done.
Qed.

Lemma next_due_some now q key row :
  next_due now q = Some (key, row) →
  q !! key = Some row ∧ (q_ts row < now)%Z ∧
  ∀ key' row', q !! key' = Some row' → (q_ts row' < now)%Z → (q_ts row ≤ q_ts row')%Z.
Proof.
  intros Hn. apply earlier_fold in Hn as [[?|Hin] Hmin]; [done|].
  apply list_elem_of_filter in Hin as [Hts Hin%elem_of_map_to_list]. split_and!; try done.
  intros key' row' Hk' Hts'. apply (Hmin (key', row')). right.
  apply list_elem_of_filter. split; [done|]. by apply elem_of_map_to_list.
Qed.

Lemma next_due_none now q key row :
  next_due now q = None → q !! key = Some row → (now ≤ q_ts row)%Z.
Proof.
  intros Hn Hk. apply earlier_fold_none in Hn as [_ Hnil].
  destruct (decide (q_ts row < now)%Z) as [Hlt|]; [|lia].
  assert (Hin : (key, row) ∈ filter (λ kv, (q_ts kv.2 < now)%Z) (map_to_list q)).
  { apply list_elem_of_filter. split; [done|]. by apply elem_of_map_to_list. }
  rw Hnil in Hin. set_solver.
Qed.

Lemma do_ack_due key row q : q !! key = Some row → do_ack key (q_ts row) (q_rev row) q = base.delete key q.
Proof. intros Hq. unfold do_ack. rw Hq Z.leb_refl Z.eqb_refl //. Qed.

(** What a key type guarantees: valid keys are read back, and a key that was
    read prints as the text it was read from. *)
Class KeyLaws (K : Type) `{Key K} := {
  key_valid : K → Prop;
  from_to_string k : key_valid k → from_string (to_string k) = Ok k;
  to_from_string s k : from_string s = Ok k → to_string k = s;
}.

#[global] Instance key_string_laws : KeyLaws string.
Proof.
  refine {| key_valid := λ _, True; from_to_string := _; to_from_string := _ |}.
  - done.
  - intros s k [= ->]. done.
Defined.

Lemma split_slash_pair a b :
  has_char "/" a = false → has_char "/" b = false → split "/" (a +:+ "/" +:+ b) = [a; b].
Proof.
  intros Ha Hb. change (a +:+ "/" +:+ b) with (a +:+ String "/" b).
  by rw split_app // split_no_sep.
Qed.

#[global] Instance key_pair_laws : KeyLaws (string * string).
Proof.
  refine {| key_valid := λ k, has_char "/" k.1 = false ∧ has_char "/" k.2 = false;
    from_to_string := _; to_from_string := _ |}.
  - intros [a b] [Ha Hb]. simpl in *. by rw split_slash_pair.
  - intros s k. simpl. pose proof (join_split "/" s) as Hj.
    destruct (split "/" s) as [|a [|b [|? ?]]]; try done. intros [= <-]. simpl in *. done.
Defined.

Section QueueProofs.
Context {K : Type} `{KeyLaws K}.

(** Fetching removes nothing but unreadable rows. *)
Lemma fetch_keeps turns fuel i q q' (r : result (option (Entry K)) unit) key k :
  fetch turns fuel i q = Some (q', r) → from_string key = Ok k → q' !! key = q !! key.
Proof.
  revert i q. induction fuel as [|fuel IH]; intros i q Hf Hk; [done|]. simpl in Hf.
  destruct (tn_query (turns i)); simpl in Hf; [|by simplify_eq].
  destruct (next_due _ q) as [[key' row]|]; [|by simplify_eq].
  destruct (from_string key') as [k'|] eqn:Hk'; [by simplify_eq|].
  rw (IH _ _ Hf Hk) try_ack_other //. intros ->. congruence.
Qed.

(** What fetching returns, as the database saw it at the last turn. *)
Definition fetched (q : Queue) (now : Z) (r : option (Entry K)) : Prop :=
  match r with
  | Some e =>
      q !! to_string (e_key e) = Some (mkQRow (e_ts e) (e_rev e)) ∧ (e_ts e < now)%Z ∧
      from_string (to_string (e_key e)) = Ok (e_key e) ∧
      ∀ key k row, from_string (K := K) key = Ok k → q !! key = Some row →
        (q_ts row < now)%Z → (e_ts e ≤ q_ts row)%Z
  | None => ∀ key k row, from_string (K := K) key = Ok k → q !! key = Some row → (now ≤ q_ts row)%Z
  end.

Lemma fetch_result turns fuel i q q' (r : result (option (Entry K)) unit) :
  fetch turns fuel i q = Some (q', r) →
  ∃ j, i ≤ j < i + fuel ∧
    match r with
    | Ok r => fetched q (tn_now (turns j)) r
    | Err _ => tn_query (turns j) = false
    end.
Proof.
  revert i q. induction fuel as [|fuel IH]; intros i q Hf; [done|]. simpl in Hf.
  destruct (tn_query (turns i)) eqn:Hquery; simpl in Hf; [|simplify_eq; exists i; split; [lia|done]].
  destruct (next_due (tn_now (turns i)) q) as [[key row]|] eqn:Hn.
  - apply next_due_some in Hn as (Hq & Hts & Hmin). destruct (from_string key) as [k|] eqn:Hk.
    + simplify_eq/=. exists i. split; [lia|]. simpl. rw (to_from_string _ _ Hk).
      split_and!; [by destruct row|done|done|]. intros key' k' row' _. apply Hmin.
    + apply IH in Hf as (j & Hj & Hr). exists j. split; [lia|].
      assert (Hother : ∀ key' k', from_string (K := K) key' = Ok k' →
        try_ack (tn_ack (turns i)) key (q_ts row) (q_rev row) q !! key' = q !! key').
      { intros key' k' Hk'. apply try_ack_other. intros ->. congruence. }
      destruct r as [[ent|]|]; [|by intros key' k' row' Hk'; rewrite <- (Hother key' k' Hk'); apply (Hr key' k')|done].
      destruct Hr as (He & Hlt & Hek & Hmin'). unfold fetched.
      split_and!; [by rewrite <- (Hother _ _ Hek)|done|done|].
      intros key' k' row' Hk'. rewrite <- (Hother key' k' Hk'). by apply (Hmin' key' k').
  - simplify_eq. exists i. split; [lia|]. intros key k row _. by apply next_due_none.
Qed.

(** The acknowledgements that fail among the first [n] turns. *)
Definition failed_acks (turns : nat → Turn) (i n : nat) : nat :=
  length (filter (λ j, tn_ack (turns j) = false) (seq i n)).

Lemma failed_acks_cons turns i n :
  failed_acks turns i (S n) = (if tn_ack (turns i) then 0 else 1) + failed_acks turns (S i) n.
Proof. unfold failed_acks. cbn [seq]. rw filter_cons. destruct (tn_ack (turns i)); by case_decide. Qed.

(** Every turn ends the loop, removes a row, or is one of the failures. *)
Lemma fetch_total turns fuel i q :
  size q + failed_acks turns i fuel < fuel →
  is_Some (fetch turns fuel i q : option (Queue * result (option (Entry K)) unit)).
Proof.
  revert i q. induction fuel as [|fuel IH]; intros i q Hlt; [lia|]. rw failed_acks_cons in Hlt. simpl.
  destruct (tn_query (turns i)); [simpl|by eexists].
  destruct (next_due _ q) as [[key row]|] eqn:Hd; [|by eexists].
  destruct (from_string key); [by eexists|]. apply IH. destruct (tn_ack (turns i)); simpl; [|lia].
  apply next_due_some in Hd as (Hq & _). rw do_ack_due // map_size_delete_Some; [by rw Hq|].
  assert (size q ≠ 0); [|lia]. apply map_size_non_empty_iff. intros ->. by rw lookup_empty in Hq.
Qed.

Lemma fetch_loops turns fuel i q :
  (∀ j, tn_query (turns j) = true ∧ tn_ack (turns j) = false ∧
     ∃ key row err, next_due (tn_now (turns j)) q = Some (key, row) ∧ from_string (K := K) key = Err err) →
  (fetch turns fuel i q : option (Queue * result (option (Entry K)) unit)) = None.
Proof.
  intros Hall. revert i. induction fuel as [|fuel IH]; intros i; [done|]. simpl.
  destruct (Hall i) as (-> & -> & key & row & err & -> & Herr). simpl. rw Herr. apply IH.
Qed.

(** C30: fetching returns if not too many acknowledgements of unreadable keys fail on the
    way: with at most [f] failures it takes at most one turn for each row of the queue, one
    for each failure, and one more.  What it returns is what the database said at one of
    the turns: the key that is due for longest among the readable ones, with the timestamp
    and revision of its row, or that none of them is due, or an error if the query failed;
    readable rows are left alone.  If the first key that is due cannot be read and no
    acknowledgement succeeds, it never returns. *)
Theorem fetch_correct (turns : nat → Turn) (q : Queue) :
  (∀ f, failed_acks turns 0 (S (size q + f)) ≤ f →
     ∃ q' (r : result (option (Entry K)) unit) j, fetch turns (S (size q + f)) 0 q = Some (q', r) ∧
       (∀ key k, from_string (K := K) key = Ok k → q' !! key = q !! key) ∧ j ≤ size q + f ∧
       match r with
       | Ok r => fetched q (tn_now (turns j)) r
       | Err _ => tn_query (turns j) = false
       end) ∧
  ((∀ j, tn_query (turns j) = true ∧ tn_ack (turns j) = false ∧
      ∃ key row err, next_due (tn_now (turns j)) q = Some (key, row) ∧ from_string (K := K) key = Err err) →
   ∀ fuel, (fetch turns fuel 0 q : option (Queue * result (option (Entry K)) unit)) = None).
Proof.
  split; [|by intros Hall fuel; apply fetch_loops].
  intros f Hf. destruct (fetch_total turns (S (size q + f)) 0 q) as [[q' r] Hfetch]; [lia|].
  destruct (fetch_result _ _ _ _ _ _ Hfetch) as (j & Hj & Hr).
  exists q', r, j. split_and!; [done| |lia|done]. intros key k. by eapply fetch_keeps.
Qed.

(** ** The queue over time

    Writers and readers, in any order, statement by statement.  A reader selects the row
    that is due first, and acknowledges it some time later (after the handler is done with
    it, or because its key cannot be read), once or not at all.  The clock of the database
    does not go back; writers have clocks of their own.  Statements that fail are no steps. *)
Record QState := mkQState {
  qs_queue : Queue;
  (** The rows selected and neither acknowledged nor given up. *)
  qs_selected : list (string * QRow);
  qs_clock : Z;
}.

Inductive QLabel : Type :=
| LAdd (utc now : Z) (key : string) (after : Z)
| LSelect (now : Z) (r : option (string * QRow))
| LAck (key : string) (row : QRow)
| LGiveUp (key : string) (row : QRow).

Inductive qstep : QState → QLabel → QState → Prop :=
| qstep_add q sel c utc now key after :
    (c ≤ now)%Z → (0 ≤ after)%Z →
    qstep (mkQState q sel c) (LAdd utc now key after) (mkQState (insert utc now key after q) sel now)
| qstep_select q sel c now :
    (c ≤ now)%Z →
    qstep (mkQState q sel c) (LSelect now (next_due now q)) (mkQState q (option_list (next_due now q) ++ sel) now)
| qstep_ack q l1 l2 c key row :
    qstep (mkQState q (l1 ++ (key, row) :: l2) c) (LAck key row)
      (mkQState (do_ack key (q_ts row) (q_rev row) q) (l1 ++ l2) c)
| qstep_give_up q l1 l2 c key row :
    qstep (mkQState q (l1 ++ (key, row) :: l2) c) (LGiveUp key row) (mkQState q (l1 ++ l2) c).

Inductive qrun : QState → list QLabel → QState → Prop :=
| qrun_nil s : qrun s [] s
| qrun_cons s l s1 ls s2 : qstep s l s1 → qrun s1 ls s2 → qrun s (l :: ls) s2.

Lemma qrun_app s ls1 s1 ls2 s2 : qrun s ls1 s1 → qrun s1 ls2 s2 → qrun s (ls1 ++ ls2) s2.
Proof. induction 1; [done|]. intros. simpl. econstructor; eauto. Qed.

Lemma qrun_app_inv s ls1 ls2 s2 : qrun s (ls1 ++ ls2) s2 → ∃ s1, qrun s ls1 s1 ∧ qrun s1 ls2 s2.
Proof.
  revert s. induction ls1 as [|l ls1 IH]; intros s Hr; [by exists s; split; [constructor|]|].
  simpl in Hr. inversion Hr as [|? ? s1 ? ? Hs Hr1]; subst. destruct (IH _ Hr1) as (s3 & ? & ?).
  exists s3. split; [by econstructor|done].
Qed.

(** A fetch is made of such steps: what it returns is the row it selected last. *)
Lemma fetch_run turns fuel i q q' (r : result (option (Entry K)) unit) sel c :
  fetch turns fuel i q = Some (q', r) → (∀ j, i ≤ j → (c ≤ tn_now (turns j) ≤ tn_now (turns (S j)))%Z) →
  ∃ ls c', qrun (mkQState q sel c) ls
    (mkQState q' (match r with
                  | Ok (Some e) => (to_string (e_key e), mkQRow (e_ts e) (e_rev e)) :: sel
                  | _ => sel
                  end) c').
Proof.
  revert i q c. induction fuel as [|fuel IH]; intros i q c Hf Hmono; [done|]. simpl in Hf.
  destruct (tn_query (turns i)); simpl in Hf; [|simplify_eq; by exists [], c; constructor].
  assert (Hsel : qstep (mkQState q sel c) (LSelect (tn_now (turns i)) (next_due (tn_now (turns i)) q))
    (mkQState q (option_list (next_due (tn_now (turns i)) q) ++ sel) (tn_now (turns i)))).
  { constructor. by apply Hmono. }
  destruct (next_due (tn_now (turns i)) q) as [[key row]|].
  - destruct (from_string key) as [k|] eqn:Hk.
    + simplify_eq/=. rw (to_from_string _ _ Hk). eexists [_], _. eapply qrun_cons; [exact Hsel|].
      destruct row. constructor.
    + apply (IH _ _ (tn_now (turns i))) in Hf as (ls & c' & Hrun).
      2: { intros j Hj. split; [|by apply Hmono; lia]. clear -Hj Hmono.
           induction Hj as [|j Hj IHj]; [by apply Hmono; lia|].
           assert (tn_now (turns j) ≤ tn_now (turns (S j)))%Z by (apply Hmono; lia). lia. }
      exists (LSelect (tn_now (turns i)) (Some (key, row)) ::
        (if tn_ack (turns i) then LAck key row else LGiveUp key row) :: ls), c'.
      eapply qrun_cons; [exact Hsel|]. simpl. eapply qrun_cons; [|exact Hrun].
      destruct (tn_ack (turns i)); [apply (qstep_ack _ [])|apply (qstep_give_up _ [])].
  - simplify_eq/=. eexists [_], _. eapply qrun_cons; [exact Hsel|constructor].
Qed.

(** *** Work that is pending *)

(** No row that was selected stands for the row of the key any more: an
    acknowledgement of it does not remove the row, as it is of another revision ([newer]
    compares the revisions) or due later ([newer] compares the timestamps). *)
Definition pending (newer : QRow → QRow → Prop) (key : string) (s : QState) : Prop :=
  ∃ row, qs_queue s !! key = Some row ∧ ∀ x, (key, x) ∈ qs_selected s → newer x row.

Definition newer_rev (x row : QRow) : Prop := (q_rev x < q_rev row)%Z.
Definition newer_ts (x row : QRow) : Prop := (q_ts x < q_ts row)%Z.

Definition selects (key : string) (l : QLabel) : Prop :=
  match l with LSelect _ (Some (key', _)) => key' = key | _ => False end.

(** The clock of the writer is not behind that of the database. *)
Definition writer_ahead (l : QLabel) : Prop :=
  match l with LAdd utc now _ _ => (now ≤ utc)%Z | _ => True end.

(** Work stays pending under every step but the selection of its key, if a row stays newer
    when its key is added again. *)
Lemma qstep_pending newer key s l s' :
  (∀ x row q, newer x row → q !! key = Some row → do_ack key (q_ts x) (q_rev x) q !! key = Some row) →
  (∀ utc now after x row row', l = LAdd utc now key after → (key, x) ∈ qs_selected s →
     qs_queue s !! key = Some row → newer x row →
     insert utc now key after (qs_queue s) !! key = Some row' → newer x row') →
  pending newer key s → qstep s l s' → ¬ selects key l → pending newer key s'.
Proof.
  intros Hack Hadd (row & Hrow & Hsel) Hs Hl. inversion Hs; subst; cbn [qs_selected qs_clock qs_queue selects] in *.
  - destruct (decide (key0 = key)) as [->|Hne].
    2: { exists row. cbn [qs_queue qs_selected]. by rw insert_other. }
    destruct (insert_row utc now key after q) as (row' & Hrow' & _). exists row'. split; [done|].
    cbn [qs_selected]. intros x Hx. eapply Hadd; [done..|by apply Hsel|done].
  - exists row. split; [done|]. cbn [qs_selected]. intros x [Hx|Hx]%elem_of_app; [|by apply Hsel].
    destruct (next_due now q) as [[k r]|]; simpl in Hx; [|by apply elem_of_nil in Hx].
    apply list_elem_of_singleton in Hx. by simplify_eq.
  - exists row. cbn [qs_queue qs_selected]. split; [|intros x Hx; apply Hsel; set_solver].
    destruct (decide (key0 = key)) as [->|Hne]; [|by rw do_ack_other].
    apply Hack; [|done]. apply Hsel. set_solver.
  - exists row. split; [done|]. cbn [qs_selected]. intros x Hx. apply Hsel. set_solver.
Qed.

(** Selected rows were due. *)
Definition selected_due (s : QState) : Prop := ∀ key x, (key, x) ∈ qs_selected s → (q_ts x < qs_clock s)%Z.

Lemma qstep_selected_due s l s' : selected_due s → qstep s l s' → selected_due s'.
Proof.
  intros Hok Hs. inversion Hs; subst; unfold selected_due in *; cbn [qs_selected qs_clock] in *.
  - intros k x Hx. specialize (Hok k x Hx). lia.
  - intros k x [Hx|Hx]%elem_of_app; [|specialize (Hok k x Hx); lia].
    destruct (next_due now q) as [[k' r]|] eqn:Hn; simpl in Hx; [|by apply elem_of_nil in Hx].
    apply list_elem_of_singleton in Hx. simplify_eq. by apply next_due_some in Hn as (_ & ? & _).
  - intros k x Hx. apply (Hok k x). set_solver.
  - intros k x Hx. apply (Hok k x). set_solver.
Qed.

(** *** One reader *)

(** A reader selects only after it is done with what it selected before. *)
Inductive qrun_single : QState → list QLabel → QState → Prop :=
| single_nil s : qrun_single s [] s
| single_cons s l s1 ls s2 :
    (∀ now r, l = LSelect now r → qs_selected s = []) →
    qstep s l s1 → qrun_single s1 ls s2 → qrun_single s (l :: ls) s2.

Lemma qrun_single_run s ls s' : qrun_single s ls s' → qrun s ls s'.
Proof. induction 1; econstructor; eauto. Qed.

(** Then the row that is selected is there, as it was selected or with a newer revision. *)
Definition single_ok (s : QState) : Prop :=
  qs_selected s = [] ∨ ∃ key x row, qs_selected s = [(key, x)] ∧ qs_queue s !! key = Some row ∧
    (row = x ∧ (q_ts x < qs_clock s)%Z ∨ (q_rev x < q_rev row)%Z).

Lemma qstep_single_ok s l s' :
  single_ok s → qstep s l s' → (∀ now r, l = LSelect now r → qs_selected s = []) → single_ok s'.
Proof.
  intros Hok Hs Hl. inversion Hs; subst; unfold single_ok in *; cbn [qs_selected qs_queue qs_clock] in *.
  - destruct Hok as [->|(k & x & row & -> & Hrow & Hx)]; [by left|right].
    destruct (decide (k = key)) as [->|Hne].
    2: { exists k, x, row. rw insert_other //. split_and!; [done..|]. destruct Hx as [[-> ?]|?]; [left; split; [done|lia]|by right]. }
    destruct (insert_row utc now key after q) as (row' & Hrow' & Hnew). exists key, x, row'.
    split_and!; [done..|]. rw Hrow /= in Hnew. destruct Hx as [[-> Hts]|Hrev].
    + right. destruct Hnew as [->|[[= <-] Hb]]; [simpl; lia|lia].
    + right. destruct Hnew as [->|[[= <-] _]]; simpl; lia.
  - rw (Hl now _ eq_refl). destruct (next_due now q) as [[k r]|] eqn:Hn; [right|by left].
    apply next_due_some in Hn as (Hq & Hts & _). exists k, r, r. split_and!; [done..|]. by left.
  - destruct Hok as [Hnil|(k & x & r & Hone & _)]; left; [by apply app_nil in Hnil as [_ ?]|].
    destruct l1 as [|? [|]], l2; by simplify_list_eq.
  - destruct Hok as [Hnil|(k & x & r & Hone & _)]; left; [by apply app_nil in Hnil as [_ ?]|].
    destruct l1 as [|? [|]], l2; by simplify_list_eq.
Qed.

Lemma qstep_pending_rev key s l s' :
  pending newer_rev key s → qstep s l s' → ¬ selects key l → pending newer_rev key s'.
Proof.
  apply qstep_pending.
  - intros x row q Hr Hq. unfold newer_rev in Hr. apply do_ack_newer; [done|lia].
  - intros utc now after x row row' _ _ Hrow Hr Hrow'. unfold newer_rev in *.
    destruct (insert_row utc now key after (qs_queue s)) as (r & Hr' & Hnew). rw Hrow' in Hr'. simplify_eq.
    rw Hrow /= in Hnew. destruct Hnew as [->|[[= <-] _]]; simpl; lia.
Qed.

Lemma qstep_pending_ts key s l s' :
  selected_due s → writer_ahead l →
  pending newer_ts key s → qstep s l s' → ¬ selects key l → pending newer_ts key s'.
Proof.
  intros Hdue Hahead Hp Hs Hl. eapply qstep_pending; [| |exact Hp|exact Hs|exact Hl].
  - intros x row q Hr Hq. by apply do_ack_later.
  - intros utc now after x row row' -> Hx Hrow Hr Hrow'. unfold newer_ts in *. apply Hdue in Hx.
    assert (qs_clock s ≤ now ∧ 0 ≤ after)%Z as [Hc Ha] by (by inversion Hs; subst). simpl in Hahead.
    destruct (insert_row utc now key after (qs_queue s)) as (r & Hr' & Hnew). rw Hrow' in Hr'. simplify_eq.
    rw Hrow /= in Hnew. destruct Hnew as [->|[[= <-] _]]; simpl; lia.
Qed.

(** After an addition the work is pending. *)
Lemma added_pending_rev s utc now key after s' :
  single_ok s → qstep s (LAdd utc now key after) s' → pending newer_rev key s'.
Proof.
  intros Hok Hs. inversion Hs; subst. unfold single_ok in Hok. cbn [qs_selected qs_queue qs_clock] in Hok.
  destruct (insert_row utc now key after q) as (row' & Hrow' & Hnew). exists row'. split; [done|].
  cbn [qs_selected]. intros x Hx. destruct Hok as [->|(k & y & row & -> & Hrow & Hy)]; [by apply elem_of_nil in Hx|].
  apply list_elem_of_singleton in Hx. simplify_eq. unfold newer_rev. rw Hrow /= in Hnew.
  destruct Hy as [[-> Hts]|Hrev]; destruct Hnew as [->|[[= <-] ?]]; simpl; lia.
Qed.

Lemma added_pending_ts s utc now key after s' :
  selected_due s → (now ≤ utc)%Z → qstep s (LAdd utc now key after) s' → pending newer_ts key s'.
Proof.
  intros Hdue Hahead Hs. inversion Hs; subst.
  destruct (insert_row utc now key after q) as (row' & Hrow' & Hnew). exists row'. split; [done|].
  cbn [qs_selected]. intros x Hx. apply Hdue in Hx. simpl in Hx. unfold newer_ts.
  destruct Hnew as [->|[_ ?]]; simpl; lia.
Qed.

Lemma qrun_single_pending key s ls s' :
  pending newer_rev key s → qrun_single s ls s' → Forall (λ l, ¬ selects key l) ls → pending newer_rev key s'.
Proof.
  intros Hp Hr. induction Hr as [|s l s1 ls s2 _ Hs Hr IH]; intros Hl; [done|].
  apply Forall_cons in Hl as [Hl Hls]. apply IH; [|done]. by eapply qstep_pending_rev.
Qed.

Lemma qrun_pending key s ls s' :
  selected_due s → pending newer_ts key s → qrun s ls s' → Forall writer_ahead ls →
  Forall (λ l, ¬ selects key l) ls → pending newer_ts key s'.
Proof.
  intros Hdue Hp Hr. induction Hr as [|s l s1 ls s2 Hs Hr IH]; intros Ha Hl; [done|].
  apply Forall_cons in Hl as [Hl Hls]. apply Forall_cons in Ha as [Ha Has].
  apply IH; [by eapply qstep_selected_due|by eapply qstep_pending_ts|done..].
Qed.

Lemma qrun_single_split s ls1 l ls2 s' :
  single_ok s → qrun_single s (ls1 ++ l :: ls2) s' →
  ∃ s1 s2, single_ok s1 ∧ qstep s1 l s2 ∧ qrun_single s2 ls2 s'.
Proof.
  revert s. induction ls1 as [|l1 ls1 IH]; intros s Hok Hr; simpl in Hr;
    inversion Hr as [|? ? s1 ? ? Hsel Hs Hr1]; subst; [by exists s, s1|].
  eapply IH; [|done]. by eapply qstep_single_ok.
Qed.

Lemma qrun_selected_due s ls s' : selected_due s → qrun s ls s' → selected_due s'.
Proof. intros Hok Hr. induction Hr; [done|]. eauto using qstep_selected_due. Qed.

(** C28: no work is lost.  After a key was added, its row stays in the queue until a reader
    selects it again, if there is one reader, whatever the clocks of the writers say, or if
    the clocks of the writers are not behind that of the database, with any number of
    readers: acknowledging rows that were selected before does not remove it.  A key that
    can be read is then handed to the handler; the row of one that cannot (a device whose
    names have a slash) is removed when it is selected. *)
Theorem added_work_not_lost key ls1 ls2 utc now after s :
  qrun_single (mkQState ∅ [] 0) (ls1 ++ LAdd utc now key after :: ls2) s ∨
  (qrun (mkQState ∅ [] 0) (ls1 ++ LAdd utc now key after :: ls2) s ∧
   Forall writer_ahead (LAdd utc now key after :: ls2)) →
  Forall (λ l, ¬ selects key l) ls2 →
  is_Some (qs_queue s !! key).
Proof.
  intros [Hr|[Hr [Ha Has]%Forall_cons]] Hls.
  - apply qrun_single_split in Hr as (s1 & s2 & Hok & Hs & Hr); [|by left].
    apply added_pending_rev in Hs; [|done].
    destruct (qrun_single_pending _ _ _ _ Hs Hr Hls) as (row & Hrow & _). by eexists.
  - apply qrun_app_inv in Hr as (s1 & Hr1 & Hr). apply qrun_selected_due in Hr1; [|by intros ? ? ?%elem_of_nil].
    inversion Hr as [|? ? s2 ? ? Hs Hr2]; subst.
    pose proof (qstep_selected_due _ _ _ Hr1 Hs) as Hdue. apply added_pending_ts in Hs; [|done..].
    destruct (qrun_pending _ _ _ _ Hdue Hs Hr2 Has Hls) as (row & Hrow & _). by eexists.
Qed.

(** The end of a turn.  If nothing happened to the key since it was fetched, a completed
    entry is removed, one to be retried is due after the delay, on the clock of the writer,
    in a new revision, whether or not the acknowledgement succeeds, and one whose handler
    failed, or that could not be added, stays as it was. *)
Theorem worker_done_correct turns fuel i now utc now' add_up ack_up (e : Entry K) q q' r :
  fetch turns fuel i q = Some (q', Ok (Some e)) → (∀ j, tn_now (turns j) ≤ now)%Z → (now ≤ now')%Z →
  (∀ rt after, r = Ok (Some (rt, after)) → rt = e_key e) →
  worker_done add_up ack_up utc now' e r q' !! to_string (e_key e) =
  match r with
  | Ok (Some (_, after)) =>
      Some (if add_up then mkQRow (utc + after) (e_rev e + 1) else mkQRow (e_ts e) (e_rev e))
  | Ok None => if ack_up then None else Some (mkQRow (e_ts e) (e_rev e))
  | Err _ => Some (mkQRow (e_ts e) (e_rev e))
  end.
Proof.
  intros Hf Hnow Hn Hr. pose proof (fetch_result _ _ _ _ _ _ Hf) as (j & _ & Hq & Hts & Hk & _).
  pose proof (fetch_keeps _ _ _ _ _ _ _ _ Hf Hk) as Hq'. rw Hq in Hq'. specialize (Hnow j).
  destruct r as [[[rt after]|]|]; simpl; [|..|done].
  - rw (Hr rt after eq_refl). destruct add_up; [|done]. unfold ack, try_ack.
    pose proof (insert_due utc now' _ after q' _ Hq') as Hd. simpl in Hd. specialize (Hd ltac:(lia)).
    destruct ack_up; [|done]. apply do_ack_newer; [done|simpl; lia].
  - unfold ack, try_ack. destruct ack_up; [|done].
    unfold do_ack. rw Hq' /= Z.leb_refl Z.eqb_refl /=. apply lookup_delete_eq.
Qed.
End QueueProofs.

Lemma split_app_all c a b : split c (a +:+ String c b) = split c a ++ split c b.
Proof.
  induction a as [|x a IH].
  - rw app_empty_l /=. by rw bool_decide_true.
  - rw app_cons /=. case_bool_decide; [by rw IH|]. rw IH.
    destruct (split c a) eqn:E; [by apply split_nonempty in E|done].
Qed.

Lemma split_singleton c s x : split c s = [x] → has_char c s = false.
Proof.
  intros Hs. pose proof (join_split c s) as Hj. rw Hs /= in Hj. subst.
  apply (split_segment c s). rw Hs. set_solver.
Qed.

Lemma from_pair_split s x y : from_string s = Ok (x, y) → split "/" s = [x; y].
Proof. simpl. intros Hf. repeat case_match; by simplify_eq. Qed.

(** A device key survives the queue exactly as long as neither name has a
    slash: otherwise it cannot be read back, and fetching drops the entry
    unprocessed. *)
Theorem device_key_roundtrip (k : string * string) :
  (from_string (to_string k) = Ok k ↔ has_char "/" k.1 = false ∧ has_char "/" k.2 = false) ∧
  (has_char "/" k.1 = true ∨ has_char "/" k.2 = true →
     ∀ ts now, (ts < now)%Z →
     fetch (K := string * string) (λ _, mkTurn now true true) 2 0 {[to_string k := mkQRow ts 0]} = Some (∅, Ok None)).
Proof.
  destruct k as [a b]. set (s := to_string (a, b)).
  assert (Hs : split "/" s = split "/" a ++ split "/" b) by apply split_app_all.
  assert (Hread : ∀ x y, from_string s = Ok (x, y) →
    has_char "/" a = false ∧ has_char "/" b = false).
  { intros x y Hf. apply from_pair_split in Hf. rw Hs in Hf.
    destruct (split "/" a) as [|a1 [|a2 l]] eqn:Ea; [by apply split_nonempty in Ea| |].
    - destruct (split "/" b) as [|b1 [|b2 l]] eqn:Eb; [by apply split_nonempty in Eb| |done].
      split; by eapply split_singleton.
    - destruct (split "/" b) eqn:Eb; [by apply split_nonempty in Eb|].
      by destruct l; simplify_list_eq. }
  split.
  - split; [intros Hf; by apply (Hread a b)|]. intros [Ha Hb]. by apply (from_to_string (a, b)).
  - intros Hno ts now Hts. destruct (from_string s) as [[x y]|err] eqn:Hf.
    { destruct (Hread x y eq_refl) as [Ha Hb]. simpl in Hno. rw Ha Hb in Hno. by destruct Hno. }
    cbn [fetch tn_query tn_now tn_ack negb]. unfold next_due. rw map_to_list_singleton filter_cons_True // filter_nil.
    cbn [foldl earlier]. fold s. rw Hf. unfold try_ack.
    rw do_ack_due; [by simplify_map_eq|]. rw delete_singleton_eq.
    by unfold next_due; rw map_to_list_empty.
Qed.

(** An outcome that asks to run the operation again at once. *)
Definition retries_now (r : result OperationOutcome ReconcileError) : bool :=
  match r with
  | Ok RetryNow | Err (Temporary _) => true
  | _ => false
  end.

(** What the first other outcome among the [runs] decides. *)
Definition decided {K} (attempt : nat → result OperationOutcome ReconcileError) (key : K)
    (runs : list nat) : option (K * Z) :=
  match list_find (λ i, retries_now (attempt i) = false) runs with
  | Some (_, i) =>
      match attempt i with
      | Ok (RetryLater delay) => Some (key, delay)
      | _ => None
      end
  | None => Some (key, 0%Z)
  end.

Lemma process_loop_decided {K} attempt (key : K) fuel retries :
  retries + fuel = MAX_RETRIES →
  process_loop attempt key (S fuel) retries =
    Some (Ok (decided attempt key (seq retries (S fuel)))).
Proof.
  revert retries. induction fuel as [|fuel IH]; intros retries Hr.
  - assert (Hlt : (MAX_RETRIES <? S retries)%nat = true) by (apply Nat.ltb_lt; lia).
    unfold decided. cbn [process_loop seq list_find].
    destruct (attempt retries) as [[]|[]] eqn:Ha; rw ?Hlt /= ?Ha //.
  - assert (Hlt : (MAX_RETRIES <? S retries)%nat = false) by (apply Nat.ltb_ge; lia).
    change (seq retries (S (S fuel))) with (retries :: seq (S retries) (S fuel)).
    unfold decided. cbn [list_find].
    destruct (decide (retries_now (attempt retries) = false)) as [Hn|Hn].
    + cbn [process_loop]. destruct (attempt retries) as [[]|[]] eqn:Ha; by rw /= ?Ha.
    + assert (Hstep : (if (MAX_RETRIES <? S retries)%nat then Some (Ok (Some (key, 0%Z)))
        else process_loop attempt key (S fuel) (S retries)) =
        Some (Ok (decided attempt key (seq (S retries) (S fuel)))))
        by (rw Hlt; apply IH; lia).
      unfold decided in Hstep. cbn [process_loop].
      destruct (attempt retries) as [[]|[]]; try done; cbn [process_loop] in Hstep; rw Hstep;
        by destruct (list_find _ _) as [[]|].
Qed.

(** Processing a key takes at most eleven runs of the operation: the first
    outcome that is not "retry now" decides (done, or a retry after the delay
    it asks for); if all of them ask to retry now, or fail temporarily, the
    key is put back into the queue without delay. *)
Theorem process_loop_bounded {K} (attempt : nat → result OperationOutcome ReconcileError) (key : K) :
  process_loop attempt key (S MAX_RETRIES) 0 =
    Some (Ok (decided attempt key (seq 0 (S MAX_RETRIES)))).
Proof. by apply process_loop_decided. Qed.

(** A revision starts again at zero with every new row: two readers select a row, one
    acknowledges it, a writer whose clock is behind adds the key again, and the other reader
    acknowledges its row: the new work is gone, and nobody has selected it. *)
Theorem second_reader_loses_work :
  ∃ s, qrun (mkQState ∅ [] 0)
    [LAdd 5 5 "dev" 0; LSelect 10 (Some ("dev", mkQRow 5 0)); LSelect 11 (Some ("dev", mkQRow 5 0));
     LAck "dev" (mkQRow 5 0); LAdd 4 20 "dev" 0; LAck "dev" (mkQRow 5 0)] s ∧
  qs_queue s !! "dev" = None.
Proof.
  eexists. split.
  - eapply qrun_cons; [by constructor|].
    eapply qrun_cons; [exact (qstep_select {["dev" := mkQRow 5 0]} [] 5 10 ltac:(lia))|].
    eapply qrun_cons; [exact (qstep_select {["dev" := mkQRow 5 0]} [("dev", mkQRow 5 0)] 10 11 ltac:(lia))|].
    eapply qrun_cons; [apply (qstep_ack _ [])|]. eapply qrun_cons; [by constructor|].
    eapply qrun_cons; [apply (qstep_ack _ [] [])|constructor].
  - reflexivity.
Qed.
