(* ===== verification/Reconcile.v ===== *)
(** * Reconciliation

    [operator-common/src/controller/reconciler]: deciding between
    constructing and deconstructing a resource, and running the steps of a
    construction one after the other, keeping a condition per step; with the
    readiness of [operator-common/src/controller/base/conditions.rs] and the
    finalizer step of [operation/finalizer.rs].  The condition list and its
    update are [drogue_client]'s. *)

From S2P Require Import Prelude WorkQueue.

(** ** Conditions *)

Record ConditionStatus := mkStatus {
  cs_status : option bool;
  cs_reason : option string;
  cs_message : option string;
}.

Definition default_status : ConditionStatus := mkStatus None None None.

Record Condition := mkCondition {
  c_type : string;
  c_status : string;
  c_reason : option string;
  c_message : option string;
}.

(** How a status is written. *)
Definition status_text (s : option bool) : string :=
  match s with
  | Some true => "True"
  | Some false => "False"
  | None => "Unknown"
  end.

(** [Conditions::update] sets the condition of a type, and adds it at the end
    if there is none. *)
Class ConditionsApi := {
  update : string → ConditionStatus → list Condition → list Condition;
}.

Class ConditionsLaws `{ConditionsApi} := {
  update_set t s cs : ∃ c, c ∈ update t s cs ∧ c_type c = t;
  update_status t s cs c : c ∈ update t s cs → c_type c = t → c_status c = status_text (cs_status s);
  update_other t s cs c : c_type c ≠ t → c ∈ update t s cs ↔ c ∈ cs;
}.

Fixpoint ref_update (t : string) (s : ConditionStatus) (cs : list Condition) : list Condition :=
  let new := mkCondition t (status_text (cs_status s)) (cs_reason s) (cs_message s) in
  match cs with
  | [] => [new]
  | c :: cs =>
      if string_eqb (c_type c) t then new :: filter (λ c, c_type c ≠ t) cs
      else c :: ref_update t s cs
  end.

Definition ref_conditions : ConditionsApi := {| update := ref_update |}.

#[global] Instance ref_conditions_laws : @ConditionsLaws ref_conditions.
Proof.
  split; intros t s cs.
  - induction cs as [|c cs IH]; simpl; [eexists; split; [by left|done]|].
    destruct (string_eqb_spec (c_type c) t); [eexists; split; [by left|done]|].
    destruct IH as (x & ? & ?). exists x. split; [by right|done].
  - intros x. induction cs as [|c cs IH]; simpl.
    + by intros ->%list_elem_of_singleton.
    + destruct (string_eqb_spec (c_type c) t); intros [->|Hin]%elem_of_cons Ht; try done; [|by apply IH].
      apply list_elem_of_filter in Hin as [? _]. done.
  - intros x Hx. induction cs as [|c cs IH]; simpl.
    + split; [|by intros ?%elem_of_nil]. intros ->%list_elem_of_singleton. done.
    + destruct (string_eqb_spec (c_type c) t) as [Hc|Hc]; rw !elem_of_cons.
      * rw list_elem_of_filter. split; [intros [->|[_ ?]]; [done|by right]|].
        intros [->|?]; [done|]. by right.
      * by rw IH.
Qed.

Definition CONDITION_RECONCILED : string := "Reconciled".

Inductive ReadyState : Type :=
| ReadyComplete
| ReadyProgressing
| ReadyFailed (msg : string).

(** [From<ReadyState> for ConditionStatus] *)
Definition ready_status (r : ReadyState) : ConditionStatus :=
  match r with
  | ReadyComplete => mkStatus (Some true) (Some "AsExpected") (Some "")
  | ReadyProgressing => mkStatus (Some false) (Some "Progressing") (Some "")
  | ReadyFailed msg => mkStatus (Some false) (Some "Failed") (Some msg)
  end.

(** [eval_ready]: the first condition to wait for, if any. *)
Fixpoint eval_ready (conditions : list Condition) : list string :=
  match conditions with
  | [] => []
  | c :: rest =>
      if string_eqb (c_type c) CONDITION_RECONCILED then eval_ready rest
      else if string_eqb (c_status c) "True" then eval_ready rest
      else [c_type c]
  end.

(** The status [finish_ready] writes for the ready condition. *)
Definition ready_state (conditions : list Condition) : ConditionStatus :=
  let waiting := eval_ready conditions in
  match waiting with
  | [] => mkStatus (Some true) None None
  | _ => mkStatus (Some false) (Some "WaitingForReady")
           (Some ("Waiting to become ready: " +:+ join ", " waiting))
  end.

(** [Display for ReconcileError] *)
Definition error_text (e : ReconcileError) : string :=
  match e with
  | Permanent msg => "Reconciliation failed with a permanent error: " +:+ msg
  | Temporary msg => "Reconciliation failed with a temporary error: " +:+ msg
  end.

(** ** Deciding what to do *)

Inductive ReconcileState (I C D : Type) : Type :=
| Ignore (i : I)
| Construct (c : C)
| Deconstruct (d : D).
Arguments Ignore {I C D} i.
Arguments Construct {I C D} c.
Arguments Deconstruct {I C D} d.

(** The metadata a decision looks at. *)
Class EvalMetadata (M : Type) := {
  finalizers : M → list string;
  deletion_timestamp : M → option Z;
}.

Definition eval_by_finalizer {M I C D} `{EvalMetadata M} (requested : bool) (ctx : M)
    (finalizer : string) (construct : M → C) (deconstruct : M → D) (ignore : M → I)
    : result (ReconcileState I C D) ReconcileError :=
  let configured := existsb (string_eqb finalizer) (finalizers ctx) in
  let deleted := bool_decide (is_Some (deletion_timestamp ctx)) in
  Ok (match requested, configured, deleted with
      | false, false, _ => Ignore (ignore ctx)
      | false, true, _ => Deconstruct (deconstruct ctx)
      | true, _, false => Construct (construct ctx)
      | _, _, true => Deconstruct (deconstruct ctx)
      end).

(** [ReconcileProcessor::reconcile] *)
Definition reconcile {In I C D} (eval_state : In → result (ReconcileState I C D) ReconcileError)
    (construct : C → result (ProcessOutcome I) ReconcileError)
    (deconstruct : D → result (ProcessOutcome I) ReconcileError) (input : In)
    : result (ProcessOutcome I) ReconcileError :=
  let? state := eval_state input in
  match state with
  | Ignore output => Ok (PComplete output)
  | Construct ctx => construct ctx
  | Deconstruct ctx => deconstruct ctx
  end.

(** ** Running the steps *)

Inductive StepOutcome (C : Type) : Type :=
| Continue (c : C)
| Retry (c : C) (when : option Z).
Arguments Continue {C} c.
Arguments Retry {C} c when.

(** [ProgressOperation] *)
Record Step (C : Type) := mkStep {
  type_name : string;
  run_step : C → result (StepOutcome C) ReconcileError;
  when_skipped : C → C * ConditionStatus;
  when_failed : ConditionStatus;
}.
Arguments type_name {C} s.
Arguments run_step {C} s.
Arguments when_skipped {C} s.
Arguments when_failed {C} s.

Inductive Progress (C : Type) : Type :=
| ProgComplete (c : C) (conditions : list Condition)
| ProgRetry (c : C) (when : option Z) (conditions : list Condition)
| ProgFailed (err : ReconcileError) (conditions : list Condition).
Arguments ProgComplete {C} c conditions.
Arguments ProgRetry {C} c when conditions.
Arguments ProgFailed {C} err conditions.

(** [(S, F)] as a step: the defaults of the trait. *)
Definition simple_step {C} (name : string) (f : C → result (StepOutcome C) ReconcileError) : Step C :=
  mkStep _ name f (λ c, (c, default_status)) default_status.

Section Progressor.
Context `{ConditionsApi} {C : Type}.

(** The two inner loops over the steps that are not run. *)
Definition skip_step (acc : C * list Condition) (s : Step C) : C * list Condition :=
  let '(context, conditions) := acc in
  let '(c, status) := when_skipped s context in
  (c, update (type_name s) status conditions).

Definition fail_step (conditions : list Condition) (s : Step C) : list Condition :=
  update (type_name s) (when_failed s) conditions.

(** [Progressor::run] *)
Fixpoint run (steps : list (Step C)) (conditions : list Condition) (context : C) : Progress C :=
  match steps with
  | [] => ProgComplete context conditions
  | s :: rest =>
      match run_step s context with
      | Ok (Continue context) =>
          run rest (update (type_name s) (mkStatus (Some true) None None) conditions) context
      | Ok (Retry context when) =>
          let conditions := update (type_name s) (mkStatus (Some false) None None) conditions in
          let '(context, conditions) := foldl skip_step (context, conditions) rest in
          ProgRetry context when conditions
      | Err err =>
          let conditions := update (type_name s)
            (mkStatus None (Some "Failed") (Some (error_text err))) conditions in
          ProgFailed err (foldl fail_step conditions rest)
      end
  end.

(** [RunConstructor::run_with] for a resource that is the context's; the
    status section is [finish]: it stores the conditions and the generation,
    and the ready condition. *)
Definition run_with {R} (resource : C → R) (conditions_of : C → list Condition)
    (finish : list Condition → ConditionStatus → R → result R ReconcileError)
    (steps : list (Step C)) (ctx : C) : result (ProcessOutcome R) ReconcileError :=
  let original := resource ctx in
  match run steps (conditions_of ctx) ctx with
  | ProgComplete context conditions =>
      let conditions := update CONDITION_RECONCILED (ready_status ReadyComplete) conditions in
      let? r := finish conditions (ready_state conditions) (resource context) in
      Ok (PComplete r)
  | ProgRetry context when conditions =>
      let conditions := update CONDITION_RECONCILED (ready_status ReadyProgressing) conditions in
      let? r := finish conditions (ready_state conditions) (resource context) in
      Ok (PRetry r when)
  | ProgFailed err conditions =>
      let conditions :=
        update CONDITION_RECONCILED (ready_status (ReadyFailed (error_text err))) conditions in
      let? r := finish conditions (ready_state conditions) original in
      match err with
      | Permanent _ => Ok (PComplete r)
      | Temporary _ => Ok (PRetry r None)
      end
  end.

(** [HasFinalizer]: [ensure_finalizer] adds the finalizer and tells whether
    it was missing. *)
Definition has_finalizer (ensure_finalizer : C → C * bool) : Step C :=
  simple_step "HasFinalizer" (λ ctx,
    let '(ctx, added) := ensure_finalizer ctx in
    if added then Ok (Retry ctx None) else Ok (Continue ctx)).
End Progressor.

(** The conditions a progress carries. *)
Definition progress_conditions {C} (p : Progress C) : list Condition :=
  match p with
  | ProgComplete _ cs | ProgRetry _ _ cs | ProgFailed _ cs => cs
  end.

Definition is_complete {C} (p : Progress C) : bool :=
  match p with ProgComplete _ _ => true | _ => false end.

(** ** Facts *)

Lemma eval_ready_nil cs :
  eval_ready cs = [] ↔ ∀ c, c ∈ cs → c_type c ≠ CONDITION_RECONCILED → c_status c = "True".
Proof.
  induction cs as [|c cs IH]; simpl; [set_solver|].
  destruct (string_eqb_spec (c_type c) CONDITION_RECONCILED) as [Ht|Ht].
  - rw IH. set_solver.
  - destruct (string_eqb_spec (c_status c) "True") as [Hs|Hs].
    + rw IH. set_solver.
    + split; [done|]. intros Hall. destruct Hs. apply Hall; [by left|done].
Qed.

Section ProgressProofs.
Context `{ConditionsLaws} {C : Type}.
Implicit Types (steps : list (Step C)) (cs : list Condition).

(** Every condition of type [t] has the status text [x], and there is one. *)
Definition has_status (t x : string) cs : Prop :=
  (∃ c, c ∈ cs ∧ c_type c = t) ∧ ∀ c, c ∈ cs → c_type c = t → c_status c = x.

Lemma update_has_status t s cs : has_status t (status_text (cs_status s)) (update t s cs).
Proof. split; [apply update_set|]. intros c. apply update_status. Qed.

Lemma update_keeps_status t t' s x cs :
  t' ≠ t → has_status t' x cs → has_status t' x (update t s cs).
Proof.
  intros Hne [(c & Hc & Ht) Hall]. split.
  - exists c. split; [|done]. apply update_other; [congruence|done].
  - intros c' Hc' Ht'. apply Hall; [|done]. apply (update_other t s cs); [congruence|done].
Qed.

Lemma skip_keeps_status t x steps c cs :
  t ∉ type_name <$> steps → has_status t x cs →
  has_status t x (foldl skip_step (c, cs) steps).2.
Proof.
  revert c cs. induction steps as [|s steps IH]; intros c cs Ht Hs; [done|].
  cbn [foldl]. unfold skip_step at 2. destruct (when_skipped s c) as [c1 st].
  apply IH; [set_solver|]. apply update_keeps_status; [set_solver|done].
Qed.

Lemma fail_keeps_status t x steps cs :
  t ∉ type_name <$> steps → has_status t x cs → has_status t x (foldl fail_step cs steps).
Proof.
  revert cs. induction steps as [|s steps IH]; intros cs Ht Hs; [done|].
  cbn [foldl]. apply IH; [set_solver|]. apply update_keeps_status; [set_solver|done].
Qed.

Lemma run_keeps_status t x steps cs c :
  t ∉ type_name <$> steps → has_status t x cs →
  has_status t x (progress_conditions (run steps cs c)).
Proof.
  revert cs c. induction steps as [|s steps IH]; intros cs c Ht Hs; [done|]. simpl.
  assert (t ∉ type_name <$> steps) by set_solver.
  assert (∀ st, has_status t x (update (type_name s) st cs))
    by (intros; apply update_keeps_status; [set_solver|done]).
  destruct (run_step s c) as [[c'|c' w]|e]; [by apply IH| |by apply fail_keeps_status].
  pose proof (skip_keeps_status t x steps c'
    (update (type_name s) (mkStatus (Some false) None None) cs)) as Hsk.
  destruct (foldl _ _ _) as [c2 cs2]. by apply Hsk.
Qed.

(** A completed run leaves every step true, any other run leaves a step that
    is not. *)
Lemma run_statuses steps cs c :
  NoDup (type_name <$> steps) →
  if is_complete (run steps cs c)
  then ∀ t, t ∈ type_name <$> steps → has_status t "True" (progress_conditions (run steps cs c))
  else ∃ t x, t ∈ type_name <$> steps ∧ x ≠ "True" ∧
         has_status t x (progress_conditions (run steps cs c)).
Proof.
  revert cs c. induction steps as [|s steps IH]; intros cs c Hnd; [set_solver|].
  apply NoDup_cons in Hnd as [Hs Hnd]. simpl.
  destruct (run_step s c) as [[c'|c' w]|e].
  - specialize (IH (update (type_name s) (mkStatus (Some true) None None) cs) c' Hnd).
    destruct (is_complete _) eqn:Hc.
    + intros t [->|Ht]%elem_of_cons; [|by apply IH].
      apply run_keeps_status; [done|]. apply (update_has_status _ (mkStatus (Some true) None None)).
    + destruct IH as (t & x & Ht & ?). exists t, x. split; [by right|done].
  - pose proof (skip_keeps_status (type_name s) "False" steps c'
      (update (type_name s) (mkStatus (Some false) None None) cs) Hs) as Hsk.
    destruct (foldl _ _ _) as [c2 cs2]. simpl in *. exists (type_name s), "False".
    split; [by left|]. split; [done|]. apply Hsk.
    apply (update_has_status _ (mkStatus (Some false) None None)).
  - simpl. exists (type_name s), "Unknown". split; [by left|]. split; [done|].
    apply fail_keeps_status; [done|].
    apply (update_has_status _ (mkStatus None (Some "Failed") (Some (error_text e)))).
Qed.

(** Conditions of other types are left alone. *)
Lemma run_other steps cs cx c :
  c_type c ∉ type_name <$> steps → c ∈ progress_conditions (run steps cs cx) ↔ c ∈ cs.
Proof.
  assert (Hskip : ∀ steps cs cx, c_type c ∉ type_name <$> steps →
    c ∈ (foldl skip_step (cx, cs) steps).2 ↔ c ∈ cs).
  { intros sts. induction sts as [|s sts IH]; intros cs0 cx0 Ht; [done|].
    cbn [foldl]. unfold skip_step at 2. destruct (when_skipped s cx0) as [c1 st].
    rw IH; [set_solver|]. apply update_other. set_solver. }
  assert (Hfail : ∀ steps cs, c_type c ∉ type_name <$> steps →
    c ∈ foldl fail_step cs steps ↔ c ∈ cs).
  { intros sts. induction sts as [|s sts IH]; intros cs0 Ht; [done|].
    cbn [foldl]. rw IH; [set_solver|]. apply update_other. set_solver. }
  revert cs cx. induction steps as [|s steps IH]; intros cs cx Ht; [done|]. simpl.
  destruct (run_step s cx) as [[c'|c' w]|e].
  - rw IH; [set_solver|]. apply update_other. set_solver.
  - pose proof (Hskip steps (update (type_name s) (mkStatus (Some false) None None) cs) c') as Hsk.
    destruct (foldl _ _ _) as [c2 cs2]. simpl in *. rw Hsk; [set_solver|]. apply update_other. set_solver.
  - simpl. rw Hfail; [set_solver|]. apply update_other. set_solver.
Qed.

(** Readiness.  After running the steps of a construction (steps with
    distinct names, none of them the summary condition), the resource is
    reported ready exactly if every step completed, provided the conditions it
    started with are of these steps only; and whatever it started with, it is
    never reported ready unless every step completed. *)
Theorem ready_iff_complete steps cs (c : C) st :
  NoDup (type_name <$> steps) → CONDITION_RECONCILED ∉ type_name <$> steps →
  let p := run steps cs c in
  let ready := cs_status (ready_state (update CONDITION_RECONCILED st (progress_conditions p))) in
  (ready = Some true → is_complete p = true) ∧
  ((∀ x, x ∈ cs → c_type x ∈ type_name <$> steps ∨ c_type x = CONDITION_RECONCILED) →
     is_complete p = true → ready = Some true).
Proof.
  intros Hnd Hrec p ready.
  assert (Hready : ready = Some true ↔ ∀ x, x ∈ progress_conditions p →
    c_type x ≠ CONDITION_RECONCILED → c_status x = "True").
  { unfold ready, ready_state. destruct (eval_ready _) eqn:He.
    - rw eval_ready_nil in He. split; [|done]. intros _ x Hx Ht. apply He; [|done].
      by apply update_other.
    - split; [done|]. intros Hall. exfalso.
      assert (eval_ready (update CONDITION_RECONCILED st (progress_conditions p)) = []); [|congruence].
      apply eval_ready_nil. intros x Hx Ht. apply Hall; [|done].
      by apply (update_other CONDITION_RECONCILED st). }
  pose proof (run_statuses steps cs c Hnd) as Hst. fold p in Hst. rw Hready. split.
  - intros Hall. destruct (is_complete p); [done|].
    destruct Hst as (t & x & Ht & Hx & ((y & Hy & Hty) & Hyx)).
    exfalso. apply Hx. rw -(Hyx y Hy Hty). apply Hall; [done|]. rw Hty. congruence.
  - intros Hinit Hc x Hx Ht. rw Hc in Hst.
    destruct (decide (c_type x ∈ type_name <$> steps)) as [Hin|Hin].
    + by apply (Hst (c_type x) Hin).
    + apply run_other in Hx; [|done]. destruct (Hinit x Hx); done.
Qed.

(** Nothing is constructed before the finalizer is stored: when the
    resource has no finalizer yet, the run stops after adding it, to be
    retried, and none of the later steps runs (only their skip handler). *)
Theorem finalizer_first ensure steps cs (c c1 : C) :
  ensure c = (c1, true) →
  Forall (λ s, ∀ x, (when_skipped s x).1 = x) steps →
  ∃ cs', run (has_finalizer ensure :: steps) cs c = ProgRetry c1 None cs'.
Proof.
  intros He Hsk. simpl. rw He.
  assert (Hf : ∀ cs0, (foldl skip_step (c1, cs0) steps).1 = c1).
  { induction Hsk as [|s steps Hs Hsk IH]; intros cs0; [done|]. cbn [foldl]. unfold skip_step at 2.
    specialize (Hs c1). destruct (when_skipped s c1) as [c2 st]. simpl in Hs. subst. apply IH. }
  match goal with |- context [foldl skip_step (c1, ?l) steps] => specialize (Hf l) end.
  destruct (foldl _ _ _) as [c2 cs2]. simpl in Hf. subst. eauto.
Qed.
End ProgressProofs.

(** The decision between construction and deconstruction: construct
    exactly what is requested and not deleted, leave alone exactly what is
    neither requested nor has the finalizer, and deconstruct everything else;
    in particular nothing that carries the finalizer is ever ignored, and
    nothing deleted is constructed. *)
Theorem eval_by_finalizer_correct {M I C D} `{EvalMetadata M} requested (ctx : M) f
    (c : M → C) (d : M → D) (i : M → I) :
  let configured := f ∈ finalizers ctx in
  let deleted := is_Some (deletion_timestamp ctx) in
  (eval_by_finalizer requested ctx f c d i = Ok (Construct (c ctx)) ↔ requested = true ∧ ¬ deleted) ∧
  (eval_by_finalizer requested ctx f c d i = Ok (Ignore (i ctx)) ↔
     requested = false ∧ ¬ configured) ∧
  (eval_by_finalizer requested ctx f c d i = Ok (Deconstruct (d ctx)) ↔
     (requested = true ∧ deleted) ∨ (requested = false ∧ configured)).
Proof.
  intros configured deleted. unfold eval_by_finalizer.
  assert (Hc : existsb (string_eqb f) (finalizers ctx) = true ↔ configured).
  { unfold configured. rw existsb_exists. setoid_rewrite string_eqb_eq.
    setoid_rewrite <- list_elem_of_In. naive_solver. }
  fold deleted. destruct (existsb _ _).
  - assert (configured) by by apply Hc. destruct requested; try case_bool_decide; naive_solver.
  - assert (¬ configured) by (intros Hx; apply Hc in Hx; done).
    destruct requested; try case_bool_decide; naive_solver.
Qed.
