(* ===== verification/Operators.v ===== *)
(** * How operators learn of changes, and how they write back

    [operator-common/src/controller/base]: the dispatch of events
    ([event]), the resource operations of applications and devices ([app.rs],
    [device.rs]); [watcher.rs]; and the filters of the operators ([is_relevant]
    of their [lib.rs]): an operator reads the change events of the registry,
    picks the paths it watches, and hands the key of the resource to the
    controller of its kind.  The theorems connect this to the diff of the
    registry: a change of what an operator watches reaches it. *)

From S2P Require Import Prelude Json Versioning Events Registry WorkQueue.

(** ** Dispatching, [event/mod.rs] and [event/processor.rs] *)

Section Dispatcher.
Context {E K St : Type}.

(** [EventProcessor::handle]: whether the event was taken. *)
Definition Processor : Type := E → St → St * result bool unit.

(** [FnEventProcessor::handle]; [process] is that of the controller. *)
Definition fn_processor (f : E → option K) (process : K → St → St * result unit unit) : Processor :=
  λ event st,
    match f event with
    | Some key =>
        match process key st with
        | (st, Ok _) => (st, Ok true)
        | (st, Err e) => (st, Err e)
        end
    | None => (st, Ok false)
    end.

(** [EventDispatcher::handle] *)
Fixpoint dispatch (processors : list Processor) (event : E) (st : St) : St * result unit unit :=
  match processors with
  | [] => (st, Ok tt)
  | processor :: rest =>
      match processor event st with
      | (st, Ok true) => (st, Ok tt)
      | (st, Ok false) => dispatch rest event st
      | (st, Err e) => (st, Err e)
      end
  end.
End Dispatcher.

(** The names of the resources of Kubernetes. *)
Inductive NameSource : Type :=
| SourceName
| SourceAnnotation (annotation : string)
| SourceLabel (label : string).

Record ObjectMeta := mkObjectMeta {
  om_name : option string;
  om_annotations : option (gmap string string);
  om_labels : option (gmap string string);
}.

(** [ResourceProcessor::extract] and [ResourceProcessor::handle] *)
Definition extract (source : NameSource) (meta : ObjectMeta) : option string :=
  match source with
  | SourceName => om_name meta
  | SourceAnnotation annotation => om_annotations meta ≫= (!!) annotation
  | SourceLabel label => om_labels meta ≫= (!!) label
  end.

Definition resource_processor {St} (source : NameSource) (process : string → St → St * result unit unit)
    : Processor (E:=ObjectMeta) (St:=St) := fn_processor (extract source) process.

(** ** Watching resources, [watcher.rs] *)

Inductive WatchEvent (R : Type) : Type :=
| Applied (resource : R)
| Deleted (resource : R)
| Restarted (resources : list R).
Arguments Applied {R} resource.
Arguments Deleted {R} resource.
Arguments Restarted {R} resources.

Definition expand {R} (event : WatchEvent R) : list R :=
  match event with
  | Applied resource | Deleted resource => [resource]
  | Restarted resources => resources
  end.

Inductive WatchEnd : Type := StreamFailed (e : string) | GaveUp | StreamEnded.

Section Watcher.
Context {R St : Type}.
Context (handle : R → St → St * result unit unit).

(** The attempts for one resource: [None] once the handler failed with the
    counter past 10. *)
Fixpoint attempts (fuel cnt : nat) (resource : R) (st : St) : option (St * bool) :=
  match fuel with
  | 0 => None
  | S fuel =>
      match handle resource st with
      | (st, Ok _) => Some (st, true)
      | (st, Err _) => if (10 <? cnt)%nat then Some (st, false) else attempts fuel (S cnt) resource st
      end
  end.

Fixpoint handle_all (resources : list R) (st : St) : option (St * bool) :=
  match resources with
  | [] => Some (st, true)
  | resource :: rest =>
      x ← attempts 12 0 resource st;
      let '(st, done) := x in
      if (done : bool) then handle_all rest st else Some (st, false)
  end.

(** [run_stream] on what the watch yields. *)
Fixpoint run_stream (events : list (result (WatchEvent R) string)) (st : St) : option (St * WatchEnd) :=
  match events with
  | [] => Some (st, StreamEnded)
  | Err e :: _ => Some (st, StreamFailed e)
  | Ok event :: rest =>
      x ← handle_all (expand event) st;
      let '(st, done) := x in
      if (done : bool) then run_stream rest st else Some (st, GaveUp)
  end.
End Watcher.

(** ** Resource operations, [app.rs] and [device.rs] *)

#[global] Instance Application_eq_dec : EqDecision Reg.Application.
Proof. solve_decision. Defined.
#[global] Instance Device_eq_dec : EqDecision Reg.Device.
Proof. solve_decision. Defined.

Inductive ClientError : Type := Syntax (msg : string) | OtherClientError (text : string).

(** The client of the registry, and the aggregation of the ready conditions
    into the conditions section, both of [drogue_client]. *)
Class RegistryClient (St : Type) := {
  rc_get_app : string → St → result (option Reg.Application) ClientError;
  rc_get_device : string → string → St → result (option Reg.Device) ClientError;
  rc_update_app : Reg.Application → St → St * result unit ClientError;
  rc_update_device : Reg.Device → St → St * result unit ClientError;
  aggregate_app : Reg.Application → result Reg.Application string;
  aggregate_device : Reg.Device → result Reg.Device string;
}.

Definition update_failed (err : ClientError) : ReconcileError :=
  match err with
  | Syntax msg => Permanent ("Failed to reconcile: " +:+ msg)
  | OtherClientError text => Temporary ("Failed to reconcile: " +:+ text)
  end.

Section ResourceOperations.
Context {St : Type} `{RegistryClient St}.

Definition get_app_resource (key : string) (st : St) : St * result (option Reg.Application) ClientError :=
  (st, rc_get_app key st).

Definition update_app_if (original current : Reg.Application) (st : St) : St * result unit ReconcileError :=
  match aggregate_app current with
  | Err e => (st, Err (Permanent e))
  | Ok current =>
      if bool_decide (original = current) then (st, Ok tt)
      else let '(st, r) := rc_update_app current st in (st, map_err update_failed r)
  end.

(** [try_join!] of the two requests; both have to be there. *)
Definition get_device_resource (key : string * string) (st : St)
    : St * result (option (Reg.Application * Reg.Device)) ClientError :=
  (st, let? app := rc_get_app key.1 st in
       let? device := rc_get_device key.1 key.2 st in
       Ok match app, device with
          | Some app, Some device => Some (app, device)
          | _, _ => None
          end).

Definition update_device_if (original current : Reg.Device) (st : St) : St * result unit ReconcileError :=
  match aggregate_device current with
  | Err e => (st, Err (Permanent e))
  | Ok current =>
      if bool_decide (original = current) then (st, Ok tt)
      else let '(st, r) := rc_update_device current st in (st, map_err update_failed r)
  end.
End ResourceOperations.

(** ** Metadata *)

Definition app_with_finalizers (l : list string) (a : Reg.Application) : Reg.Application :=
  Reg.mkApplication (Reg.a_uid a) (Reg.a_name a) (Reg.a_labels a) (Reg.a_annotations a)
    (Reg.a_creation_timestamp a) (Reg.a_generation a) (Reg.a_resource_version a) (Reg.a_deletion_timestamp a)
    l (Reg.a_spec a) (Reg.a_status a).

Definition device_with (l : list string) (spec status : Map) (d : Reg.Device) : Reg.Device :=
  Reg.mkDevice (Reg.d_uid d) (Reg.d_name d) (Reg.d_application d) (Reg.d_labels d) (Reg.d_annotations d)
    (Reg.d_creation_timestamp d) (Reg.d_generation d) (Reg.d_resource_version d) (Reg.d_deletion_timestamp d)
    l spec status.

Definition device_with_finalizers (l : list string) (d : Reg.Device) : Reg.Device :=
  device_with l (Reg.d_spec d) (Reg.d_status d) d.

(** [ensure_finalizer]: the new list, if the finalizer was missing; and [remove_finalizer]. *)
Definition ensure_finalizer (finalizer : string) (l : list string) : option (list string) :=
  if existsb (string_eqb finalizer) l then None else Some (l ++ [finalizer]).
Definition remove_finalizer (finalizer : string) (l : list string) : list string := filter (λ f, f ≠ finalizer) l.

(** ** What the operators watch *)

Definition app_relevant (watched : list string) (event : Event.t) : option string :=
  match event with
  | Event.Application _ application _ path _ =>
      if existsb (string_eqb path) watched then Some application else None
  | _ => None
  end.

Definition device_relevant (watched : list string) (event : Event.t) : option (string * string) :=
  match event with
  | Event.Device _ application device _ path _ =>
      if existsb (string_eqb path) watched then Some (application, device) else None
  | _ => None
  end.

Definition ttn_app_relevant : Event.t → option string := app_relevant ["."; ".metadata"; ".spec.ttn"].
Definition ttn_device_relevant : Event.t → option (string * string) :=
  device_relevant ["."; ".metadata"; ".spec.ttn"; ".spec.gatewaySelector"].
Definition ditto_app_relevant : Event.t → option string := app_relevant ["."; ".metadata"; ".spec.ditto"].
Definition ditto_device_relevant : Event.t → option (string * string) :=
  device_relevant ["."; ".metadata"; ".spec.ditto"].
Definition topic_admin_relevant : Event.t → option string := app_relevant ["."; ".metadata"].
Definition topic_strimzi_relevant : Event.t → option string :=
  app_relevant ["."; ".metadata"; ".spec.downstream"].
Definition knative_relevant : Event.t → option string := app_relevant ["."; ".metadata"; ".spec.knative"].

(** The dispatcher of the TTN operator, and that of the Ditto operator: devices first. *)
Definition two_kinds {St} (device_key : Event.t → option (string * string)) (app_key : Event.t → option string)
    (process_device : string * string → St → St * result unit unit)
    (process_app : string → St → St * result unit unit) : Event.t → St → St * result unit unit :=
  dispatch [fn_processor device_key process_device; fn_processor app_key process_app].

(** ** Facts *)

(** An event goes to the controller of its kind, and to no other. *)
Lemma two_kinds_spec {St} dw aw process_device process_app (event : Event.t) (st : St) :
  two_kinds (device_relevant dw) (app_relevant aw) process_device process_app event st =
  match event with
  | Event.Application _ app _ path _ =>
      if existsb (string_eqb path) aw then process_app app st else (st, Ok tt)
  | Event.Device _ app device _ path _ =>
      if existsb (string_eqb path) dw then process_device (app, device) st else (st, Ok tt)
  end.
Proof.
  unfold two_kinds, dispatch, fn_processor. destruct event; simpl; destruct (existsb _ _); try done.
  - by destruct (process_app _ _) as [? [[]|[]]].
  - by destruct (process_device _ _) as [? [[]|[]]].
Qed.

(** Twelve attempts are all there are: the watcher always comes to an end of a
    resource. *)
Lemma attempts_end {R St} (handle : R → St → St * result unit unit) fuel cnt resource st :
  12 ≤ fuel + cnt → 0 < fuel → is_Some (attempts handle fuel cnt resource st).
Proof.
  revert cnt st. induction fuel as [|fuel IH]; intros cnt st Hf Hpos; [lia|]. simpl.
  destruct (handle resource st) as [st' [u|e]]; [by eexists|].
  destruct (Nat.ltb_spec 10 cnt); [by eexists|]. apply IH; lia.
Qed.

Lemma handle_all_end {R St} (handle : R → St → St * result unit unit) resources st :
  is_Some (handle_all handle resources st).
Proof.
  revert st. induction resources as [|r rs IH]; intros st; cbn [handle_all]; [by eexists|].
  destruct (attempts_end handle 12 0 r st) as [[st' []] ->]; [lia..|simpl|simpl]; [apply IH|by eexists].
Qed.

(** A watch always ends, and never as a success: the operator restarts with
    everything listed again. *)
Theorem run_stream_ends {R St} (handle : R → St → St * result unit unit) events st :
  is_Some (run_stream handle events st).
Proof.
  revert st. induction events as [|[event|e] events IH]; intros st; cbn [run_stream]; [by eexists| |by eexists].
  destruct (handle_all_end handle (expand event) st) as [[st' []] ->]; simpl; [apply IH|by eexists].
Qed.

(** ** Changes reach the operators *)

Section Told.
Context {D : Type} `{Diffable D}.
Implicit Types current new : D.

Lemma elem_of_change paths c p : p ∈ paths → c p ∈ new_change paths c.
Proof. intros Hp. unfold new_change. destruct paths; [by apply elem_of_nil in Hp|by apply list_elem_of_fmap_2]. Qed.

Lemma change_elem paths c e : e ∈ new_change paths c → ∃ p, e = c p ∧ (p ∈ paths ∨ paths = [] ∧ p = ".").
Proof.
  unfold new_change. destruct paths as [|p0 paths].
  - intros ->%list_elem_of_singleton. eauto.
  - intros (p & -> & Hp)%list_elem_of_fmap. eauto.
Qed.

Lemma spec_changed_path current new spec status spec' status' k :
  data current = entity_data spec status → data new = entity_data spec' status' →
  map_ok spec → map_ok status → map_ok spec' → map_ok status' →
  map_get k spec ≠ map_get k spec' → sub_path ".spec" k ∈ diff_paths current new.
Proof.
  intros Hd Hd' ? ? ? ? Hne. apply elem_of_diff_paths; rw ?Hd ?Hd'; try by apply entity_payload_ok.
  right. exists "spec", k. split; [done|]. by rw !section_of_entity.
Qed.

Lemma metadata_changed_path current new :
  payload_ok (data current) → payload_ok (data new) →
  ¬ same_metadata current new → ".metadata" ∈ diff_paths current new.
Proof. intros. apply elem_of_diff_paths; [done..|]. by left. Qed.

(** What an operator that watches the entries [keys] of the spec section needs to know. *)
Definition concerns (keys : list string) current new spec spec' : Prop :=
  ¬ same_metadata current new ∨ ∃ k, k ∈ keys ∧ map_get k spec ≠ map_get k spec'.

Definition watched_paths (keys : list string) : list string :=
  "." :: ".metadata" :: (sub_path ".spec" <$> keys).

Lemma concerns_path keys current new spec status spec' status' :
  data current = entity_data spec status → data new = entity_data spec' status' →
  map_ok spec → map_ok status → map_ok spec' → map_ok status' →
  concerns keys current new spec spec' →
  ∃ p, p ∈ diff_paths current new ∧ existsb (string_eqb p) (watched_paths keys) = true.
Proof.
  intros Hd Hd' ? ? ? ? [Hm|(k & Hk & Hne)].
  - exists ".metadata". split; [|done].
    apply metadata_changed_path; [rw Hd|rw Hd'|done]; by apply entity_payload_ok.
  - exists (sub_path ".spec" k). split; [by eapply spec_changed_path|]. apply existsb_exists.
    exists (sub_path ".spec" k). split; [|apply string_eqb_refl]. right; right.
    apply list_elem_of_In. by apply list_elem_of_fmap_2.
Qed.

Lemma operator_told keys current new spec status spec' status' instance app uid revision :
  data current = entity_data spec status → data new = entity_data spec' status' →
  map_ok spec → map_ok status → map_ok spec' → map_ok status' →
  concerns keys current new spec spec' →
  ∃ e, e ∈ new_app instance app uid revision (diff_paths current new) ∧
    app_relevant (watched_paths keys) e = Some app.
Proof.
  intros. destruct (concerns_path keys current new spec status spec' status') as (p & Hp & Hw); try done.
  exists (Event.Application instance app uid p revision). split.
  - by apply (elem_of_change _ (λ path, Event.Application instance app uid path revision)).
  - unfold app_relevant. by rw Hw.
Qed.

Lemma device_operator_told keys current new spec status spec' status' instance app device uid revision :
  data current = entity_data spec status → data new = entity_data spec' status' →
  map_ok spec → map_ok status → map_ok spec' → map_ok status' →
  concerns keys current new spec spec' →
  ∃ e, e ∈ new_device instance app device uid revision (diff_paths current new) ∧
    device_relevant (watched_paths keys) e = Some (app, device).
Proof.
  intros. destruct (concerns_path keys current new spec status spec' status') as (p & Hp & Hw); try done.
  exists (Event.Device instance app device uid p revision). split.
  - by apply (elem_of_change _ (λ path, Event.Device instance app device uid path revision)).
  - unfold device_relevant. by rw Hw.
Qed.

(** The operators, with the entries of the spec section each is about. *)
Definition app_operators : list (list string * (Event.t → option string)) := [
  (["ttn"], ttn_app_relevant); (["ditto"], ditto_app_relevant); ([], topic_admin_relevant);
  (["downstream"], topic_strimzi_relevant); (["knative"], knative_relevant)].
Definition device_operators : list (list string * (Event.t → option (string * string))) := [
  (["ttn"; "gatewaySelector"], ttn_device_relevant); (["ditto"], ditto_device_relevant)].

(** An operator that writes its own entry of the status section is not woken by
    its own write: no event of a change of the status alone is relevant. *)
Theorem status_write_silent keys current new spec status status' instance app uid revision e :
  data current = entity_data spec status → data new = entity_data spec status' →
  map_ok spec → map_ok status → map_ok status' → diff_paths current new ≠ [] →
  same_metadata current new →
  e ∈ new_app instance app uid revision (diff_paths current new) →
  app_relevant (watched_paths keys) e = None.
Proof.
  intros Hd Hd' ? ? ? Hne Hm (p & -> & [Hp|[? _]])%change_elem; [|done].
  apply elem_of_diff_paths in Hp; rw ?Hd ?Hd'; try by apply entity_payload_ok.
  destruct Hp as [[_ ?]|(a & k & -> & Hk)]; [done|].
  rw Hd Hd' !section_of_entity in Hk. destruct (string_eqb_spec a "spec") as [|_]; [done|].
  destruct (string_eqb_spec a "status") as [->|_]; [|done]. unfold app_relevant.
  destruct (existsb _ _) eqn:Hw; [|done]. exfalso.
  apply existsb_exists in Hw as (q & Hq & Heq%string_eqb_eq). apply list_elem_of_In in Hq. subst q.
  unfold watched_paths in Hq. rewrite !elem_of_cons list_elem_of_fmap in Hq.
  by destruct Hq as [?|[?|(k' & ? & _)]].
Qed.
End Told.
