(* ===== verification/OperatorNotices.v ===== *)
(** * What the operators are told

    The handlers of the registry ([device-management-service/src/service/mod.rs])
    and the filters of the operators ([is_relevant] of their [lib.rs]) together:
    a request that creates, changes or deletes an application or a device hands
    the event sender an event that wakes every operator the change is about. *)

From S2P Require Import Prelude Json Versioning Auth Events Store Outbox Registry Management Admin Lifecycle Guarantees WorkQueue Operators.

Section Notices.
Context `{UuidCodec, ClientApi, Keycloak} {E : Type}.
Context (instance : string) (sender : list Event.t → result unit E).

(** The events a handler sent have one that an operator takes, for the given key. *)
Definition tells {K} (resp : Response (E := E)) (relevant : Event.t → option K) (key : K) : Prop :=
  ∃ events e, r_sent resp = Some events ∧ e ∈ events ∧ relevant e = Some key.

(** The rows of an application, or of a device, before and after a request differ
    in the labels, the annotations, the finalizers, or in an entry [keys] of the
    spec section. *)
Definition app_concerns (keys : list string) (row row' : AppRow) : Prop :=
  ∃ spec status spec' status', ar_data row = entity_data spec status ∧ ar_data row' = entity_data spec' status' ∧
    map_ok spec ∧ map_ok status ∧ map_ok spec' ∧ map_ok status' ∧
    concerns keys (AppAccessor.from_row "" row) (AppAccessor.from_row "" row') spec spec'.

Definition device_concerns (keys : list string) (row row' : DevRow) : Prop :=
  ∃ spec status spec' status', dr_data row = entity_data spec status ∧ dr_data row' = entity_data spec' status' ∧
    map_ok spec ∧ map_ok status ∧ map_ok spec' ∧ map_ok status' ∧
    concerns keys (DevAccessor.from_row "" "" row) (DevAccessor.from_row "" "" row') spec spec'.

Lemma app_concerns_changed keys row row' : app_concerns keys row row' → row' ≠ row.
Proof.
  intros (spec & status & spec' & status' & Hd & Hd' & _ & _ & _ & _ & Hc) ->.
  rw Hd in Hd'. injection Hd' as <- _. by destruct Hc as [[]|(k & _ & [])].
Qed.

Lemma device_concerns_changed keys row row' : device_concerns keys row row' → row' ≠ row.
Proof.
  intros (spec & status & spec' & status' & Hd & Hd' & _ & _ & _ & _ & Hc) ->.
  rw Hd in Hd'. injection Hd' as <- _. by destruct Hc as [[]|(k & _ & [])].
Qed.

(** ** Events the operators take *)

Lemma app_operator_paths keys relevant :
  (keys, relevant) ∈ app_operators → ∀ e, relevant e = app_relevant (watched_paths keys) e.
Proof.
  intros Hop e. unfold app_operators in Hop. rewrite !elem_of_cons in Hop.
  destruct_or! Hop; simplify_eq; done || by apply elem_of_nil in Hop.
Qed.

Lemma device_operator_paths keys relevant :
  (keys, relevant) ∈ device_operators → ∀ e, relevant e = device_relevant (watched_paths keys) e.
Proof.
  intros Hop e. unfold device_operators in Hop. rewrite !elem_of_cons in Hop.
  destruct_or! Hop; simplify_eq; done || by apply elem_of_nil in Hop.
Qed.

(** Every operator takes the events of a resource that is new, gone or being
    deleted. *)
Lemma whole_app_told resp app uid revision paths keys relevant :
  (keys, relevant) ∈ app_operators → paths = [] ∨ paths = [".metadata"] →
  r_sent resp = Some (new_app instance app uid revision paths) → tells resp relevant app.
Proof.
  intros Hop Hp Hs. exists (new_app instance app uid revision paths).
  destruct Hp as [-> | ->]; eexists; (split; [done|]); (split; [by left|]);
    by rw (app_operator_paths _ _ Hop).
Qed.

Lemma whole_device_told resp app device uid revision paths keys relevant :
  (keys, relevant) ∈ device_operators → paths = [] ∨ paths = [".metadata"] →
  r_sent resp = Some (new_device instance app device uid revision paths) → tells resp relevant (app, device).
Proof.
  intros Hop Hp Hs. exists (new_device instance app device uid revision paths).
  destruct Hp as [-> | ->]; eexists; (split; [done|]); (split; [by left|]);
    by rw (device_operator_paths _ _ Hop).
Qed.

(** ** Updates *)

Lemma update_app_row env identity a db row row' :
  let resp := update_app instance sender env identity a db in
  applications db !! Reg.a_name a = Some row → applications (r_db resp) !! Reg.a_name a = Some row' → row' ≠ row →
  ∃ app al app2 r, app_to_entity a = Ok (app, al) ∧
    let current := AppAccessor.from_row (Reg.a_name a) row in
    let app1 := App.set_deletion (ar_deletion_timestamp row) app in
    advance_from (diff_paths current app1) current app1 = (app2, Ok r) ∧
    row' = AppAccessor.updated_row (env_version env) app2 row ∧
    r_sent resp = Some (new_app instance (Reg.a_name a) (uuid_to_string (App.uid app2)) r
      (diff_paths current app1)).
Proof.
  intros resp Hrow Hrow' Hne. unfold resp, update_app in *.
  destruct (update_app_tx instance env identity a db) as [[db' evs]|e] eqn:Htx;
    [|simpl in Hrow'; congruence].
  assert (Hdb : applications db' !! Reg.a_name a = Some row') by (by destruct evs). clear Hrow'.
  unfold update_app_tx in Htx. apply rbind_ok_inv in Htx as ([app al] & He & Htx).
  apply rbind_ok_inv in Htx as ([db1 events] & Hp & [= <- <-]). simpl in Hdb.
  destruct (app_to_entity_ok _ _ _ He) as (Hn & _).
  apply perform_update_app_inv in Hp as (row0 & Hr0 & _ & _ & _ & Hc). rw Hn in Hr0 Hc.
  assert (row0 = row) as -> by congruence.
  destruct Hc as [(_ & _ & _ & Hdel)|[(_ & _ & ->)|(app2 & r & _ & Ha & Hu & ->)]].
  - apply (app_delete_lookup _ _ _ ("", "")) in Hdel as [Hnone _]. congruence.
  - congruence.
  - exists app, al, app2, r. pose proof (advance_from_put _ _ _ _ _ Ha) as Hput.
    assert (Hn2 : App.name app2 = Reg.a_name a) by (rw Hput /= Hn; done).
    split_and!; [done|done| |by rw Hn2].
    apply (app_update_lookup _ _ _ _ _ row) in Hu as [Hu _]; [|by rw Hn2]. rw Hn2 in Hu. congruence.
Qed.

Lemma update_app_tells env identity a db row row' keys relevant :
  let resp := update_app instance sender env identity a db in
  (keys, relevant) ∈ app_operators →
  applications db !! Reg.a_name a = Some row → applications (r_db resp) !! Reg.a_name a = Some row' →
  app_concerns keys row row' → tells resp relevant (Reg.a_name a).
Proof.
  intros resp Hop Hrow Hrow' Hc.
  destruct (update_app_row env identity a db row row' Hrow Hrow' (app_concerns_changed _ _ _ Hc))
    as (app & al & app2 & r & He & Ha & -> & Hsent).
  destruct Hc as (spec & status & spec' & status' & Hd & Hd' & ? & ? & ? & ? & Hc).
  pose proof (advance_from_put _ _ _ _ _ Ha) as Hput.
  destruct (operator_told keys (AppAccessor.from_row (Reg.a_name a) row)
    (App.set_deletion (ar_deletion_timestamp row) app) spec status spec' status' instance (Reg.a_name a)
    (uuid_to_string (App.uid app2)) r) as (e & Hin & Hrel); try done.
  - revert Hd'. simpl. by rw Hput.
  - revert Hc. unfold concerns, same_metadata. simpl. by rw Hput.
  - exists (new_app instance (Reg.a_name a) (uuid_to_string (App.uid app2)) r
      (diff_paths (AppAccessor.from_row (Reg.a_name a) row) (App.set_deletion (ar_deletion_timestamp row) app))), e.
    split_and!; [done..|]. by rw (app_operator_paths _ _ Hop).
Qed.

Lemma update_device_tells env identity d db row row' keys relevant :
  let k := (Reg.d_application d, Reg.d_name d) in
  let resp := update_device instance sender env identity d db in
  (keys, relevant) ∈ device_operators →
  devices db !! k = Some row → devices (r_db resp) !! k = Some row' →
  device_concerns keys row row' → tells resp relevant k.
Proof.
  intros k resp Hop Hrow Hrow' Hc.
  destruct (update_device_row instance sender env identity d db row row' Hrow Hrow'
    (device_concerns_changed _ _ _ Hc)) as (dev & al & dev2 & r & He & Ha & -> & Hsent).
  destruct Hc as (spec & status & spec' & status' & Hd & Hd' & ? & ? & ? & ? & Hc).
  pose proof (advance_from_put _ _ _ _ _ Ha) as Hput.
  destruct (device_operator_told keys (DevAccessor.from_row k.1 k.2 row)
    (Dev.set_deletion (dr_deletion_timestamp row) dev) spec status spec' status' instance k.1 k.2
    (uuid_to_string (dr_uid row)) r) as (e & Hin & Hrel); try done.
  - revert Hd'. simpl. by rw Hput.
  - revert Hc. unfold concerns, same_metadata. simpl. by rw Hput.
  - eexists _, e. split_and!; [done..|]. by rw (device_operator_paths _ _ Hop).
Qed.

(** ** Creations and deletions *)

Lemma create_app_tells env identity a db keys relevant :
  let resp := create_app instance sender env identity a db in
  (keys, relevant) ∈ app_operators →
  applications (r_db resp) !! Reg.a_name a ≠ applications db !! Reg.a_name a →
  tells resp relevant (Reg.a_name a).
Proof.
  intros resp Hop Hne. unfold resp, create_app in *.
  destruct (create_app_tx instance env identity a db) as [[db' evs]|e] eqn:Htx; [|done].
  unfold create_app_tx in Htx. apply rbind_ok_inv in Htx as ([app al] & He & Htx).
  apply rbind_ok_inv in Htx as (db1 & _ & [= <- <-]). destruct (app_to_entity_ok _ _ _ He) as (Hn & _).
  rewrite <- Hn. by eapply whole_app_told; [done|left|].
Qed.

Lemma create_device_tells env identity d db keys relevant :
  let k := (Reg.d_application d, Reg.d_name d) in
  let resp := create_device instance sender env identity d db in
  (keys, relevant) ∈ device_operators →
  devices (r_db resp) !! k ≠ devices db !! k → tells resp relevant k.
Proof.
  intros k resp Hop Hne. unfold resp, create_device in *.
  destruct (create_device_tx instance env identity d db) as [[db' evs]|e] eqn:Htx; [|done].
  unfold create_device_tx in Htx. apply rbind_ok_inv in Htx as ([dev al] & He & Htx).
  apply rbind_ok_inv in Htx as (app & _ & Htx). apply rbind_ok_inv in Htx as ([] & _ & Htx).
  apply rbind_ok_inv in Htx as (db1 & _ & [= <- <-]).
  destruct (device_to_entity_ok _ _ _ He) as (Hn & Ha & _). unfold k. rewrite <- Hn, <- Ha.
  by eapply whole_device_told; [done|left|].
Qed.

Lemma delete_app_tells env identity id pre db keys relevant :
  let resp := delete_app instance sender env identity id pre db in
  (keys, relevant) ∈ app_operators →
  applications (r_db resp) !! id ≠ applications db !! id → tells resp relevant id.
Proof.
  intros resp Hop Hne. unfold resp, delete_app in *.
  destruct (delete_app_tx instance env identity id pre db) as [[db' evs]|e] eqn:Htx; [|done].
  unfold delete_app_tx in Htx. apply rbind_ok_inv in Htx as (current & _ & Htx).
  case_bool_decide; [|done]. apply rbind_ok_inv in Htx as ([] & _ & Htx).
  apply rbind_ok_inv in Htx as (c & _ & Htx). destruct (DevAccessor.delete_app id db) as [db1 n].
  destruct (advance_revision _) as [cur [r|]]; [|done].
  apply rbind_ok_inv in Htx as ([db2 paths] & Hp & [= <- <-]).
  eapply whole_app_told; [done| |done].
  case_bool_decide; apply rbind_ok_inv in Hp as (? & _ & [= _ <-]); by [left|right].
Qed.

Lemma delete_device_tells env identity application device pre db keys relevant :
  let resp := delete_device instance sender env identity application device pre db in
  (keys, relevant) ∈ device_operators →
  devices (r_db resp) !! (application, device) ≠ devices db !! (application, device) →
  tells resp relevant (application, device).
Proof.
  intros resp Hop Hne. unfold resp, delete_device in *.
  destruct (delete_device_tx instance env identity application device pre db) as [[db' evs]|e] eqn:Htx; [|done].
  unfold delete_device_tx in Htx. apply rbind_ok_inv in Htx as (current & _ & Htx).
  case_bool_decide; [|done]. apply rbind_ok_inv in Htx as (app & _ & Htx).
  apply rbind_ok_inv in Htx as ([] & _ & Htx). apply rbind_ok_inv in Htx as (c & _ & Htx).
  destruct (advance_revision _) as [cur [r|]]; [|done].
  apply rbind_ok_inv in Htx as ([db2 paths] & Hp & [= <- <-]).
  eapply whole_device_told; [done| |done].
  case_bool_decide; apply rbind_ok_inv in Hp as (? & _ & [= _ <-]); by [left|right].
Qed.

(** Taking off the last finalizer of a resource that is being deleted removes
    it without an event. *)
Lemma final_update_silent env identity db :
  (∀ a row, applications db !! Reg.a_name a = Some row →
     let resp := update_app instance sender env identity a db in
     applications (r_db resp) !! Reg.a_name a = None →
     is_Some (ar_deletion_timestamp row) ∧ r_sent resp = Some []) ∧
  (∀ d row, devices db !! (Reg.d_application d, Reg.d_name d) = Some row →
     let resp := update_device instance sender env identity d db in
     devices (r_db resp) !! (Reg.d_application d, Reg.d_name d) = None →
     is_Some (dr_deletion_timestamp row) ∧ r_sent resp = None).
Proof.
  split.
  - intros a row Hrow resp Hnone. unfold resp, update_app in *.
    destruct (update_app_tx instance env identity a db) as [[db' evs]|e] eqn:Htx; [|simpl in Hnone; congruence].
    unfold update_app_tx in Htx. apply rbind_ok_inv in Htx as ([app al] & He & Htx).
    apply rbind_ok_inv in Htx as ([db1 events] & Hp & [= <- <-]). simpl in Hnone |- *.
    destruct (app_to_entity_ok _ _ _ He) as (Hn & _).
    apply perform_update_app_inv in Hp as (row0 & Hr0 & _ & _ & _ & Hc). rw Hn in Hr0 Hc.
    assert (row0 = row) as -> by congruence.
    destruct Hc as [(Hd & _ & -> & _)|[(_ & _ & ->)|(app2 & r & _ & Ha & Hu & _)]]; [done|congruence|].
    pose proof (advance_from_put _ _ _ _ _ Ha) as Hput.
    assert (Hn2 : App.name app2 = Reg.a_name a) by (rw Hput /= Hn; done).
    apply (app_update_lookup _ _ _ _ _ row) in Hu as [Hu _]; [|by rw Hn2]. rw Hn2 in Hu. congruence.
  - intros d row Hrow resp Hnone. unfold resp, update_device in *.
    destruct (update_device_tx instance env identity d db) as [[db' evs]|e] eqn:Htx; [|simpl in Hnone; congruence].
    assert (Hdb : devices db' !! (Reg.d_application d, Reg.d_name d) = None) by (by destruct evs).
    apply update_device_tx_inv in Htx as (dev & al & app & row0 & He & _ & _ & Hr0 & _ & _ & Hc).
    assert (row0 = row) as -> by congruence.
    destruct Hc as [(Hd & _ & -> & _)|[(_ & _ & ->)|(dev2 & r & db1 & _ & Ha & Hu & -> & ->)]]; [done|congruence|].
    apply device_to_entity_ok in He as (Hn & Hap & _). pose proof (advance_from_put _ _ _ _ _ Ha) as Hput.
    assert (Hk : (Reg.d_application d, Reg.d_name d) = (Dev.application dev2, Dev.name dev2))
      by (rw Hput /= Hn Hap; done).
    pose proof (dev_update_lookup _ _ _ _ _ _ row Hu Hk Hrow) as Hx. simpl in Hdb. congruence.
Qed.

(** C15: the operators learn of the changes requests make.  An update of an
    application that leaves its labels, annotations, finalizers, or an entry of
    the spec section an operator is about different sends an event that makes
    the operator process it; a creation, and a deletion that marks or removes
    the application, send one every operator takes; and the same for devices.
    The removal by an update that takes off the last finalizer is silent. *)
Theorem registry_tells_operators env identity db :
  (∀ keys relevant, (keys, relevant) ∈ app_operators →
     (∀ a row row', let resp := update_app instance sender env identity a db in
        applications db !! Reg.a_name a = Some row →
        applications (r_db resp) !! Reg.a_name a = Some row' →
        app_concerns keys row row' → tells resp relevant (Reg.a_name a)) ∧
     (∀ a, let resp := create_app instance sender env identity a db in
        applications (r_db resp) !! Reg.a_name a ≠ applications db !! Reg.a_name a →
        tells resp relevant (Reg.a_name a)) ∧
     (∀ id pre, let resp := delete_app instance sender env identity id pre db in
        applications (r_db resp) !! id ≠ applications db !! id → tells resp relevant id)) ∧
  (∀ keys relevant, (keys, relevant) ∈ device_operators →
     (∀ d row row', let k := (Reg.d_application d, Reg.d_name d) in
        let resp := update_device instance sender env identity d db in
        devices db !! k = Some row → devices (r_db resp) !! k = Some row' →
        device_concerns keys row row' → tells resp relevant k) ∧
     (∀ d, let k := (Reg.d_application d, Reg.d_name d) in
        let resp := create_device instance sender env identity d db in
        devices (r_db resp) !! k ≠ devices db !! k → tells resp relevant k) ∧
     (∀ app device pre, let resp := delete_device instance sender env identity app device pre db in
        devices (r_db resp) !! (app, device) ≠ devices db !! (app, device) →
        tells resp relevant (app, device))) ∧
  (∀ a row, let resp := update_app instance sender env identity a db in
     applications db !! Reg.a_name a = Some row → applications (r_db resp) !! Reg.a_name a = None →
     is_Some (ar_deletion_timestamp row) ∧ r_sent resp = Some []) ∧
  (∀ d row, let k := (Reg.d_application d, Reg.d_name d) in
     let resp := update_device instance sender env identity d db in
     devices db !! k = Some row → devices (r_db resp) !! k = None →
     is_Some (dr_deletion_timestamp row) ∧ r_sent resp = None).
Proof.
  destruct (final_update_silent env identity db) as [Hfa Hfd].
  split_and!; [intros keys relevant Hop; split_and!..|intros a row resp; apply Hfa|intros d row k resp; apply Hfd];
    cbn zeta; intros.
  - by eapply update_app_tells.
  - by eapply create_app_tells.
  - by eapply delete_app_tells.
  - by eapply update_device_tells.
  - by eapply create_device_tells.
  - by eapply delete_device_tells.
Qed.
End Notices.
