(* ===== verification/TopicOperators.v ===== *)
(** * The operators for Kafka topics

    [topic-admin-operator/src]: topics created and deleted with the admin API of
    Kafka.  [topic-strimzi-operator/src]: topics, and users with their secrets, as
    resources of Kubernetes that Strimzi turns into topics and users.  Both are
    constructions of [Reconcile]; the names are those of [Kafka].  The admin API,
    the API of Kubernetes with [operator_framework]'s [create_or_update], and the
    codecs of the sections are given. *)

From S2P Require Import Prelude Json Kafka Registry WorkQueue Reconcile Operators.

(** ** The status section, [drogue_client::registry::v1::KafkaAppStatus] *)

Record KafkaUserStatus := mkKafkaUser { ku_username : string; ku_password : string; ku_mechanism : string }.

Record KafkaAppStatus := mkKafkaStatus {
  ks_conditions : list Condition;
  ks_observed_generation : Z;
  ks_downstream : option Value;
  ks_user : option KafkaUserStatus;
}.
Definition default_kafka_status : KafkaAppStatus := mkKafkaStatus [] 0 None None.

Class KafkaSections := {
  kafka_status : Reg.Application → option (result KafkaAppStatus string);
  set_kafka_status : KafkaAppStatus → Reg.Application → result Reg.Application string;
  conditions_section : Reg.Application → option (result (list Condition) string);
  set_conditions_section : list Condition → Reg.Application → result Reg.Application string;
  downstream_password : Reg.Application → option (result (option string) string);
}.

(** [Translator::update_section]: a missing section is the default one. *)
Definition update_section {R S} (get : R → option (result S string)) (set : S → R → result R string)
    (dflt : S) (f : S → S) (app : R) : result R ReconcileError :=
  map_err Permanent
    match get app with
    | Some (Err e) => Err e
    | Some (Ok s) => set (f s) app
    | None => set (f dflt) app
    end.

(** [section().and_then(|s| s.ok())] *)
Definition section_value {A} (s : option (result A string)) : option A :=
  match s with Some (Ok a) => Some a | _ => None end.

#[global] Instance app_metadata : EvalMetadata Reg.Application :=
  {| finalizers := Reg.a_finalizers; deletion_timestamp := Reg.a_deletion_timestamp |}.

Section Status.
Context `{KafkaSections, ConditionsApi}.

Definition update_kafka (f : KafkaAppStatus → KafkaAppStatus) : Reg.Application → result Reg.Application ReconcileError :=
  update_section kafka_status set_kafka_status default_kafka_status f.

(** [set_status] and [finish_ready] for the status of Kafka. *)
Definition set_status (conditions : list Condition) (observed_generation : Z)
    : Reg.Application → result Reg.Application ReconcileError :=
  update_kafka (λ s, mkKafkaStatus conditions observed_generation (ks_downstream s) (ks_user s)).

Definition finish_ready (observed_generation : Z) (conditions : list Condition) (ready : ConditionStatus)
    (app : Reg.Application) : result Reg.Application ReconcileError :=
  let? app := set_status conditions observed_generation app in
  update_section conditions_section set_conditions_section [] (update "KafkaReady" ready) app.

(** [ResourceAccessor::conditions] *)
Definition conditions_of (app : Reg.Application) : list Condition :=
  ks_conditions (default default_kafka_status (section_value (kafka_status app))).

(** [ApplicationController::recover] of both operators. *)
Definition kafka_recover (message : string) (app : Reg.Application) : result Reg.Application unit :=
  let conditions := update CONDITION_RECONCILED (ready_status (ReadyFailed message)) (conditions_of app) in
  map_err (λ _, tt) (finish_ready (Reg.a_generation app) conditions (ready_state conditions) app).
End Status.

(** ** The admin API, [topic-admin-operator] *)

Inductive RDKafkaErrorCode : Type :=
| TopicAlreadyExists
| BrokerTransportFailure
| UnknownTopic
| UnknownTopicOrPartition
| OtherCode (code : Z).

Inductive KafkaError : Type :=
| AdminOp (code : RDKafkaErrorCode)
| AdminOpCreation (msg : string)
| OtherKafkaError (msg : string).

Definition TopicResult : Type := result string (string * RDKafkaErrorCode).

(** [single_topic_response]: [Vec::pop] takes the last. *)
Definition single_topic_response (r : result (list TopicResult) KafkaError) : result unit KafkaError :=
  let? r := r in
  match last r with
  | Some (Ok _) => Ok tt
  | Some (Err (_, err)) => Err (AdminOp err)
  | None => Err (AdminOpCreation "Missing response")
  end.

(** The properties in the order in which the hash map yields them. *)
Record AdminConfig := mkAdminConfig {
  ac_num_partitions : Z;
  ac_num_replicas : Z;
  ac_properties : list (string * string);
}.

Definition underscore_to_dot (k : string) : string :=
  map_chars (λ c, if bool_decide (c = "_"%char) then "."%char else c) k.

(** [ControllerConfig::translate]: a later key replaces an equal earlier one. *)
Definition translate (properties : list (string * string)) : gmap string string :=
  foldl (λ m '(k, v), <[underscore_to_dot k := v]> m) ∅ properties.

Record NewTopic := mkNewTopic {
  nt_name : string;
  nt_num_partitions : Z;
  nt_config : list (string * string);
  nt_replication : Z;
}.

(** [u32] to [i32], or the greatest. *)
Definition i32_or_max (x : Z) : Z := if (x <? 2 ^ 31)%Z then x else (2 ^ 31 - 1)%Z.

Definition ADMIN_FINALIZER : string := "kafka-topic".

Section AdminOperator.
Context `{T : Text} `{KafkaSections, ConditionsApi}.
Context (config : AdminConfig).
Context (create_topics : NewTopic → result (list TopicResult) KafkaError).
Context (delete_topics : string → result (list TopicResult) KafkaError).
Context (kafka_error_text : KafkaError → string).

Definition new_topic (app : Reg.Application) : NewTopic :=
  mkNewTopic (make_kafka_resource_name (REvents (Reg.a_name app))) (i32_or_max (ac_num_partitions config))
    (map_to_list (translate (ac_properties config))) (i32_or_max (ac_num_replicas config)).

(** [CreateTopic]; the context is the application. *)
Definition admin_create_topic : Step Reg.Application :=
  simple_step "CreateTopics" (λ app,
    match single_topic_response (create_topics (new_topic app)) with
    | Ok _ => Ok (Continue app)
    | Err (AdminOp TopicAlreadyExists) => Ok (Continue app)
    | Err (AdminOp BrokerTransportFailure) =>
        Err (Temporary ("Failed to create topic: " +:+ kafka_error_text (AdminOp BrokerTransportFailure)))
    | Err err => Err (Permanent ("Failed to create topic: " +:+ kafka_error_text err))
    end).

(** [HasFinalizer] for an application that is found in the context. *)
Definition ensure_app_finalizer (finalizer : string) (app : Reg.Application) : Reg.Application * bool :=
  match ensure_finalizer finalizer (Reg.a_finalizers app) with
  | Some l => (app_with_finalizers l app, true)
  | None => (app, false)
  end.

Definition admin_steps : list (Step Reg.Application) :=
  [has_finalizer (ensure_app_finalizer ADMIN_FINALIZER); admin_create_topic].

Definition admin_construct (app : Reg.Application) : result (ProcessOutcome Reg.Application) ReconcileError :=
  run_with id conditions_of (finish_ready (Reg.a_generation app)) admin_steps app.

Definition admin_deconstruct (app : Reg.Application) : result (ProcessOutcome Reg.Application) ReconcileError :=
  let removed := Ok (PComplete (app_with_finalizers (remove_finalizer ADMIN_FINALIZER (Reg.a_finalizers app)) app)) in
  match single_topic_response (delete_topics (make_kafka_resource_name (REvents (Reg.a_name app)))) with
  | Ok _ => removed
  | Err (AdminOp UnknownTopic) | Err (AdminOp UnknownTopicOrPartition) => removed
  | Err (AdminOp BrokerTransportFailure) =>
      Err (Temporary ("Failed to create topic: " +:+ kafka_error_text (AdminOp BrokerTransportFailure)))
  | Err err => Err (Permanent ("Failed to delete topic: " +:+ kafka_error_text err))
  end.

Definition admin_process (app : Reg.Application) : result (ProcessOutcome Reg.Application) ReconcileError :=
  reconcile (λ app, eval_by_finalizer true app ADMIN_FINALIZER id id id) admin_construct admin_deconstruct app.
End AdminOperator.

(** ** Strimzi, [topic-strimzi-operator] *)

(** The data of an object: a JSON object. *)
Record DynamicObject := mkObject {
  do_labels : option (gmap string string);
  do_annotations : option (gmap string string);
  do_data : Map;
}.

(** [Secret] as far as it is used. *)
Record Secret := mkSecret {
  se_annotations : option (gmap string string);
  se_data : option (gmap string string);
}.

(** [UseOrCreate::use_or_create] *)
Definition use_or_create (f : gmap string string → gmap string string) (m : option (gmap string string))
    : option (gmap string string) := Some (f (default ∅ m)).

Record StrimziConfig := mkStrimziConfig { sc_topic_namespace : string; sc_cluster_name : string }.

Definition STRIMZI_FINALIZER : string := "kafka".
Definition LABEL_KAFKA_CLUSTER : string := "strimzi.io/cluster".
Definition LABEL_MARKER : string := "drogue.io/auto-created".
Definition ANNOTATION_APP_NAME : string := "drogue.io/application-name".
Definition KEY_PASSWORD : string := "password".

Record ConstructContext := mkConstruct {
  cc_app : Reg.Application;
  cc_events_topic : option DynamicObject;
  cc_events_topic_name : option string;
  cc_app_user : option DynamicObject;
  cc_app_user_name : option string;
}.

Definition with_app (app : Reg.Application) (ctx : ConstructContext) : ConstructContext :=
  mkConstruct app (cc_events_topic ctx) (cc_events_topic_name ctx) (cc_app_user ctx) (cc_app_user_name ctx).

(** The metadata both kinds of resources get. *)
Definition mark (config : StrimziConfig) (app : string) (data : Map) (o : DynamicObject) : DynamicObject :=
  mkObject
    (use_or_create (λ l, <[LABEL_MARKER := "true"]> (<[LABEL_KAFKA_CLUSTER := sc_cluster_name config]> l)) (do_labels o))
    (use_or_create (<[ANNOTATION_APP_NAME := app]>) (do_annotations o)) data.

Section Names.
Context `{T : Text}.

(** The closures of [ensure_kafka_topic] and [ensure_kafka_user]. *)
Definition topic_spec (topic_name : string) : Value :=
  json_object [("config", Object []); ("partitions", Number 3); ("replicas", Number 1); ("topicName", Str topic_name)].

Definition topic_object (config : StrimziConfig) (target : ResourceType) (o : DynamicObject) : DynamicObject :=
  mark config (app_name target)
    (map_insert "spec" (topic_spec (make_kafka_resource_name target)) (do_data o)) o.

(** An entry of the access control list. *)
Definition acl (kind name : string) : Value :=
  json_object [("host", Str "*"); ("operation", Str "Read");
    ("resource", json_object [("type", Str kind); ("name", Str name); ("patternType", Str "literal")])].

Definition user_acls (app : string) : list Value :=
  [acl "topic" (make_kafka_resource_name (REvents app)); acl "group" "*"].

Definition user_authentication (app : string) (password : option string) : Value :=
  json_object (("type", Str "scram-sha-512") ::
    match password with
    | Some _ => [("password", json_object [("valueFrom", json_object [("secretKeyRef",
        json_object [("name", Str (make_kafka_resource_name (RPasswords app))); ("key", Str KEY_PASSWORD)])])])]
    | None => []
    end).

Definition user_spec (app : string) (password : option string) : Value :=
  json_object [
    ("authentication", user_authentication app password);
    ("authorization", json_object [("acls", Array (user_acls app)); ("type", Str "simple")]);
    ("template", json_object [("secret", json_object [("metadata", json_object [("annotations",
      json_object [(ANNOTATION_APP_NAME, Str app)])])])])].

Definition user_object (config : StrimziConfig) (app : string) (password : option string) (o : DynamicObject)
    : DynamicObject :=
  mark config app (map_insert "spec" (user_spec app password) (do_data o)) o.

Definition secret_object (app password : string) (s : Secret) : Secret :=
  mkSecret (use_or_create (<[ANNOTATION_APP_NAME := app]>) (se_annotations s))
    (use_or_create (λ _, {[KEY_PASSWORD := password]}) (se_data s)).
End Names.

(** [condition_ready]: the first condition of the type that is true or false.  [None]
    if a condition has no type, or no status: indexing a map panics. *)
Fixpoint find_condition (condition : string) (conditions : list Value) : option (option bool) :=
  match conditions with
  | [] => Some None
  | Object cond :: rest =>
      t ← map_get "type" cond;
      if bool_decide (t = Str condition) then
        s ← map_get "status" cond;
        match s with
        | Str "True" => Some (Some true)
        | Str "False" => Some (Some false)
        | _ => find_condition condition rest
        end
      else find_condition condition rest
  | _ :: rest => find_condition condition rest
  end.

(** Indexing a value that is not an object gives null. *)
Definition value_index (k : string) (v : Value) : Value :=
  match v with Object m => default Null (map_get k m) | _ => Null end.

Definition condition_ready (condition : string) (o : DynamicObject) : option (option bool) :=
  match value_index "conditions" (value_index "status" (Object (do_data o))) with
  | Array conditions => find_condition condition conditions
  | _ => Some None
  end.

(** [as_ref().and_then(condition_ready).unwrap_or_default()]; a panic ends the run
    of the task, here as an error nothing else reports. *)
Definition is_ready (o : option DynamicObject) : result bool ReconcileError :=
  match o with
  | Some o =>
      match condition_ready "Ready" o with
      | Some r => Ok (default false r)
      | None => Err (Permanent "panic")
      end
  | None => Ok false
  end.

(** [retry] *)
Definition retry_soon {C} (ctx : C) : result (StepOutcome C) ReconcileError := Ok (Retry ctx (Some 15%Z)).

(** The API of Kubernetes in the namespace of the topics: creating or updating an
    object with a closure, deleting one that may be there, and reading. *)
Class KubeApi := {
  apply_topic : string → (DynamicObject → DynamicObject) → result DynamicObject string;
  apply_user : string → (DynamicObject → DynamicObject) → result DynamicObject string;
  apply_secret : string → (Secret → Secret) → result Secret string;
  delete_topic : string → result bool string;
  delete_user : string → result bool string;
  delete_secret : string → result bool string;
  get_secret : string → result Secret string;
}.

Section StrimziOperator.
Context `{T : Text} `{KafkaSections, ConditionsApi, KubeApi}.
Context (config : StrimziConfig).

Definition events_target (app : Reg.Application) : ResourceType := REvents (Reg.a_name app).

(** [CreateTopic] *)
Definition strimzi_create_topic : Step ConstructContext :=
  simple_step "CreateTopics" (λ ctx,
    let target := events_target (cc_app ctx) in
    let topic_name := make_kafka_resource_name target in
    let? topic := map_err Permanent (apply_topic topic_name (topic_object config target)) in
    Ok (Continue (mkConstruct (cc_app ctx) (Some topic) (Some topic_name) (cc_app_user ctx) (cc_app_user_name ctx)))).

(** [TopicReady] *)
Definition strimzi_topic_ready : Step ConstructContext :=
  simple_step "TopicsReady" (λ ctx,
    let? events_ready := is_ready (cc_events_topic ctx) in
    let? app := update_kafka (λ s, mkKafkaStatus (ks_conditions s) (ks_observed_generation s) None (ks_user s))
      (cc_app ctx) in
    let ctx := with_app app ctx in
    if events_ready then Ok (Continue ctx) else retry_soon ctx).

(** [find_user_password] *)
Definition find_user_password (app : Reg.Application) : option string :=
  section_value (downstream_password app) ≫= id.

Definition ensure_kafka_user (app : string) (password : option string)
    : result (DynamicObject * string) ReconcileError :=
  let user_name := make_kafka_resource_name (RUsers app) in
  let password_name := make_kafka_resource_name (RPasswords app) in
  let? user := map_err Permanent (apply_user user_name (user_object config app password)) in
  match password with
  | Some password =>
      let? _ := map_err Permanent (apply_secret password_name (secret_object app password)) in
      Ok (user, user_name)
  | None =>
      let? _ := map_err Permanent (delete_secret password_name) in
      Ok (user, user_name)
  end.

(** [CreateUser] *)
Definition strimzi_create_user : Step ConstructContext :=
  simple_step "CreateUser" (λ ctx,
    let password := find_user_password (cc_app ctx) in
    let? (user, user_name) := ensure_kafka_user (Reg.a_name (cc_app ctx)) password in
    Ok (Continue (mkConstruct (cc_app ctx) (cc_events_topic ctx) (cc_events_topic_name ctx)
      (Some user) (Some user_name)))).

(** The credentials Strimzi stored for the user; [String::from_utf8] is the identity
    on the texts of the model. *)
Definition user_secret (user_name : option string) : option string :=
  name ← user_name;
  secret ← match get_secret name with Ok s => Some s | Err _ => None end;
  data ← se_data secret;
  data !! KEY_PASSWORD.

Definition user_status (user_ready : bool) (user_name : option string) : option KafkaUserStatus :=
  match user_ready, user_name, user_secret user_name with
  | true, Some username, Some password => Some (mkKafkaUser username password "SCRAM-SHA-512")
  | _, _, _ => None
  end.

(** [UserReady] *)
Definition strimzi_user_ready : Step ConstructContext :=
  simple_step "UserReady" (λ ctx,
    let? user_ready := is_ready (cc_app_user ctx) in
    let user := user_status user_ready (cc_app_user_name ctx) in
    let? app := update_kafka (λ s, mkKafkaStatus (ks_conditions s) (ks_observed_generation s) (ks_downstream s) user)
      (cc_app ctx) in
    let ctx := with_app app ctx in
    if user_ready && bool_decide (is_Some user) then Ok (Continue ctx) else retry_soon ctx).

Definition ensure_ctx_finalizer (ctx : ConstructContext) : ConstructContext * bool :=
  let '(app, added) := ensure_app_finalizer STRIMZI_FINALIZER (cc_app ctx) in (with_app app ctx, added).

Definition strimzi_steps : list (Step ConstructContext) :=
  [has_finalizer ensure_ctx_finalizer; strimzi_create_topic; strimzi_topic_ready; strimzi_create_user;
   strimzi_user_ready].

Definition strimzi_construct (ctx : ConstructContext) : result (ProcessOutcome Reg.Application) ReconcileError :=
  run_with cc_app (λ ctx, conditions_of (cc_app ctx)) (finish_ready (Reg.a_generation (cc_app ctx))) strimzi_steps ctx.

Definition strimzi_deconstruct (app : Reg.Application) : result (ProcessOutcome Reg.Application) ReconcileError :=
  let? _ := map_err Permanent (delete_topic (make_kafka_resource_name (REvents (Reg.a_name app)))) in
  let? _ := map_err Permanent (delete_user (make_kafka_resource_name (RUsers (Reg.a_name app)))) in
  let? _ := map_err Permanent (delete_secret (make_kafka_resource_name (RPasswords (Reg.a_name app)))) in
  Ok (PComplete (app_with_finalizers (remove_finalizer STRIMZI_FINALIZER (Reg.a_finalizers app)) app)).

Definition strimzi_process (app : Reg.Application) : result (ProcessOutcome Reg.Application) ReconcileError :=
  reconcile (λ app, eval_by_finalizer true app STRIMZI_FINALIZER
    (λ app, mkConstruct app None None None None) id id) strimzi_construct strimzi_deconstruct app.
End StrimziOperator.

(** ** Readiness *)

(** A run that is reported ready went through all steps. *)
Lemma ready_complete `{ConditionsLaws} {C} (steps : list (Step C)) cs (c : C) st :
  NoDup (type_name <$> steps) → CONDITION_RECONCILED ∉ type_name <$> steps →
  cs_status (ready_state (update CONDITION_RECONCILED st (progress_conditions (run steps cs c)))) = Some true →
  ∃ c' cs', run steps cs c = ProgComplete c' cs'.
Proof.
  intros Hnd Hrec Hready. pose proof (run_statuses steps cs c Hnd) as Hst.
  destruct (run steps cs c) as [c' cs'|c' w cs'|e cs']; simpl in *; [by eexists _, _|exfalso..].
  all: destruct Hst as (t & x & Ht & Hx & ((y & Hy & Hty) & Hyx)).
  all: unfold ready_state in Hready; destruct (eval_ready _) eqn:He; [|done]; rw eval_ready_nil in He;
    assert (Hne : c_type y ≠ CONDITION_RECONCILED) by (rw Hty; congruence);
    apply Hx; rw -(Hyx y Hy Hty); apply He; [by apply update_other|done].
Qed.

Lemma run_cons_complete `{ConditionsApi} {C} (s : Step C) rest cs c c' cs' :
  run (s :: rest) cs c = ProgComplete c' cs' →
  ∃ c1 cs1, run_step s c = Ok (Continue c1) ∧ run rest cs1 c1 = ProgComplete c' cs'.
Proof. cbn [run]. destruct (run_step s c) as [[c1|c1 w]|e]; [by eexists _, _| |done]. by destruct (foldl _ _ _). Qed.

Lemma has_finalizer_continue {C} (ensure : C → C * bool) c c' :
  run_step (has_finalizer ensure) c = Ok (Continue c') → ensure c = (c', false).
Proof. simpl. destruct (ensure c) as [c1 []]; naive_solver. Qed.

Lemma ensure_app_finalizer_false f app app' :
  ensure_app_finalizer f app = (app', false) → app' = app ∧ f ∈ Reg.a_finalizers app.
Proof.
  unfold ensure_app_finalizer, ensure_finalizer. destruct (existsb _ _) eqn:Hex; [|done].
  intros [= <-]. split; [done|]. apply existsb_exists in Hex as (x & Hx & ->%string_eqb_eq).
  by apply list_elem_of_In.
Qed.

Lemma eval_requested_deleted {M I C D} `{EvalMetadata M} (ctx : M) f (c : M → C) (d : M → D) (i : M → I) :
  is_Some (deletion_timestamp ctx) → eval_by_finalizer true ctx f c d i = Ok (Deconstruct (d ctx)).
Proof.
  intros Hdel. unfold eval_by_finalizer. by rewrite bool_decide_eq_true_2.
Qed.

Section AdminProofs.
Context `{T : Text} `{KafkaSections, ConditionsLaws}.
Context (config : AdminConfig).
Context (create_topics : NewTopic → result (list TopicResult) KafkaError).
Context (delete_topics : string → result (list TopicResult) KafkaError).
Context (kafka_error_text : KafkaError → string).

(** What the broker said means that the topic is there, or that it is gone. *)
Definition is_created (r : result (list TopicResult) KafkaError) : Prop :=
  single_topic_response r = Ok tt ∨ single_topic_response r = Err (AdminOp TopicAlreadyExists).
Definition is_deleted (r : result (list TopicResult) KafkaError) : Prop :=
  single_topic_response r = Ok tt ∨ single_topic_response r = Err (AdminOp UnknownTopic) ∨
  single_topic_response r = Err (AdminOp UnknownTopicOrPartition).

(** An application is ready only if the broker has its topic, and the finalizer
    that makes the operator remove it is stored. *)
Theorem admin_ready_sound app cs st :
  cs_status (ready_state (update CONDITION_RECONCILED st (progress_conditions
    (run (admin_steps config create_topics kafka_error_text) cs app)))) = Some true →
  is_created (create_topics (new_topic config app)) ∧ ADMIN_FINALIZER ∈ Reg.a_finalizers app.
Proof.
  intros (c' & cs' & Hrun)%ready_complete; [|by_decide|by_decide].
  apply run_cons_complete in Hrun as (a1 & cs1 & Hfin & Hrun).
  apply has_finalizer_continue, ensure_app_finalizer_false in Hfin as [-> Hin].
  apply run_cons_complete in Hrun as (a2 & cs2 & Hcreate & _). split; [|done].
  unfold is_created. simpl in Hcreate. destruct (single_topic_response _) as [[]|e]; [by left|right].
  destruct e as [[]| |]; by simplify_eq/=.
Qed.

(** An application that is deleted loses the finalizer only after the broker
    confirmed that its topic is gone; and every answer of a broker that is reached and
    does what it is told ends the deletion. *)
Theorem admin_removal app :
  is_Some (Reg.a_deletion_timestamp app) →
  let topic := make_kafka_resource_name (REvents (Reg.a_name app)) in
  let removed := app_with_finalizers (remove_finalizer ADMIN_FINALIZER (Reg.a_finalizers app)) app in
  ∀ out, admin_process config create_topics delete_topics kafka_error_text app = Ok out ↔
    out = PComplete removed ∧ is_deleted (delete_topics topic).
Proof.
  intros Hdel topic removed out. unfold admin_process, reconcile. rw eval_requested_deleted //. cbn [rbind].
  unfold admin_deconstruct, is_deleted. cbv [id]. fold topic. fold removed.
  destruct (single_topic_response (delete_topics topic)) as [[]|[[]|m|m]];
    (split; [intros Heq; simplify_eq; eauto|intros [-> Hd]; try done; by destruct Hd as [?|[?|?]]]).
Qed.
End AdminProofs.

Section StrimziProofs.
Context `{T : Text} `{KafkaSections, ConditionsLaws, KubeApi}.
Context (config : StrimziConfig).

(** The status section is a section: it is read as it was written, and writing it
    leaves the metadata and the configuration alone. *)
Definition kafka_sections_ok : Prop :=
  ∀ s app app', set_kafka_status s app = Ok app' →
    kafka_status app' = Some (Ok s) ∧ Reg.a_name app' = Reg.a_name app ∧
    downstream_password app' = downstream_password app.

Lemma update_kafka_ok f app app' :
  kafka_sections_ok → update_kafka f app = Ok app' →
  (∃ s, kafka_status app' = Some (Ok (f s))) ∧ Reg.a_name app' = Reg.a_name app ∧
  downstream_password app' = downstream_password app.
Proof.
  unfold update_kafka, update_section. intros Hok Hup.
  destruct (kafka_status app) as [[s|e]|]; simpl in Hup; [|done|].
  all: destruct (set_kafka_status _ app) eqn:Hset; simplify_eq/=; apply Hok in Hset as (? & ? & ?); eauto.
Qed.

Lemma is_ready_true o : is_ready o = Ok true → ∃ x, o = Some x ∧ condition_ready "Ready" x = Some (Some true).
Proof.
  unfold is_ready. destruct o as [x|]; [|done]. destruct (condition_ready "Ready" x) as [[[]|]|] eqn:Hr;
    simpl; naive_solver.
Qed.

(** The topic is there, and is ready. *)
Definition topic_done (app : Reg.Application) : Prop :=
  ∃ topic, apply_topic (make_kafka_resource_name (events_target app)) (topic_object config (events_target app)) = Ok topic ∧
    condition_ready "Ready" topic = Some (Some true).

(** The user is there with the password the application asks for, is ready, and its
    secret has the password [password]. *)
Definition user_done (app : Reg.Application) (password : string) : Prop :=
  let name := Reg.a_name app in
  ∃ user secret,
    apply_user (make_kafka_resource_name (RUsers name)) (user_object config name (find_user_password app)) = Ok user ∧
    condition_ready "Ready" user = Some (Some true) ∧
    get_secret (make_kafka_resource_name (RUsers name)) = Ok secret ∧
    (se_data secret ≫= λ data, data !! KEY_PASSWORD) = Some password ∧
    ∀ own, find_user_password app = Some own →
      ∃ secret, apply_secret (make_kafka_resource_name (RPasswords name)) (secret_object name own) = Ok secret.

Lemma topic_steps_continue c c1 c2 :
  kafka_sections_ok → run_step (strimzi_create_topic config) c = Ok (Continue c1) →
  run_step strimzi_topic_ready c1 = Ok (Continue c2) →
  topic_done (cc_app c) ∧ Reg.a_name (cc_app c2) = Reg.a_name (cc_app c) ∧
  downstream_password (cc_app c2) = downstream_password (cc_app c).
Proof.
  intros Hok Htopic Hready. cbn [run_step simple_step strimzi_create_topic strimzi_topic_ready] in *.
  apply rbind_ok_inv in Htopic as (topic & Htopic & [= <-]). cbn [cc_events_topic cc_app] in Hready.
  apply rbind_ok_inv in Hready as (ready & Hr & Hready).
  apply rbind_ok_inv in Hready as (app & Hup%update_kafka_ok & Hready); [|done].
  destruct ready; [|done]. injection Hready as <-. apply is_ready_true in Hr as (? & [= <-] & Hr).
  split; [|tauto]. exists topic. split; [|done]. by destruct (apply_topic _ _); simplify_eq/=.
Qed.

Lemma user_status_some ready name u :
  user_status ready name = Some u →
  ready = true ∧ ∃ n secret p, name = Some n ∧ get_secret n = Ok secret ∧
    (se_data secret ≫= λ data, data !! KEY_PASSWORD) = Some p ∧ u = mkKafkaUser n p "SCRAM-SHA-512".
Proof.
  unfold user_status. destruct ready, name as [n|]; try done.
  destruct (user_secret (Some n)) as [p|] eqn:Hs; [|done]. intros [= <-]. split; [done|].
  unfold user_secret in Hs. simpl in Hs. destruct (get_secret n) as [secret|] eqn:Hg; [|done].
  exists n, secret, p. by split_and!.
Qed.

Lemma user_steps_continue c c1 c2 :
  kafka_sections_ok → run_step (strimzi_create_user config) c = Ok (Continue c1) →
  run_step strimzi_user_ready c1 = Ok (Continue c2) →
  ∃ password s, user_done (cc_app c) password ∧ kafka_status (cc_app c2) = Some (Ok s) ∧
    ks_user s = Some (mkKafkaUser (make_kafka_resource_name (RUsers (Reg.a_name (cc_app c)))) password "SCRAM-SHA-512").
Proof.
  intros Hok Hcreate Hready. cbn [run_step simple_step strimzi_create_user strimzi_user_ready] in *.
  apply rbind_ok_inv in Hcreate as ([user name] & Hcreate & [= <-]).
  unfold ensure_kafka_user in Hcreate. apply rbind_ok_inv in Hcreate as (user' & Hu & Hcreate).
  cbn [cc_app_user cc_app_user_name cc_app] in Hready.
  apply rbind_ok_inv in Hready as (ready & Hr & Hready).
  apply rbind_ok_inv in Hready as (app & Hup%update_kafka_ok & Hready); [|done].
  destruct Hup as [[s Hs] _]. destruct ready; [|done]. cbn [andb] in Hready.
  destruct (user_status true (Some name)) as [u|] eqn:Hus; [|done].
  rewrite bool_decide_eq_true_2 in Hready; [by eexists|]. injection Hready as <-.
  apply is_ready_true in Hr as (? & [= <-] & Hr).
  apply user_status_some in Hus as (_ & n & secret & p & [= <-] & Hg & Hp & ->).
  exists p. eexists. split; [|split; [exact Hs|]].
  - exists user, secret. destruct (apply_user _ _); simplify_eq/=.
    destruct (find_user_password (cc_app c)) as [own|].
    + destruct (apply_secret _ _) as [sec|] eqn:Hsec; simplify_eq/=. split_and!; try done.
      intros own' [= <-]. eauto.
    + destruct (delete_secret _); simplify_eq/=. by split_and!.
  - simpl. destruct (find_user_password (cc_app c)).
    + destruct (apply_secret _ _); by simplify_eq/=.
    + destruct (delete_secret _); by simplify_eq/=.
Qed.

(** An application is ready only if its finalizer is stored, its topic and its user
    are ready, and its status has the name of the user and the password of the user's
    secret. *)
Theorem strimzi_ready_sound ctx cs st :
  kafka_sections_ok →
  let p := run (strimzi_steps config) cs ctx in
  cs_status (ready_state (update CONDITION_RECONCILED st (progress_conditions p))) = Some true →
  let app := cc_app ctx in
  STRIMZI_FINALIZER ∈ Reg.a_finalizers app ∧ topic_done app ∧
  ∃ ctx' cs' password s, p = ProgComplete ctx' cs' ∧ user_done app password ∧
    kafka_status (cc_app ctx') = Some (Ok s) ∧
    ks_user s = Some (mkKafkaUser (make_kafka_resource_name (RUsers (Reg.a_name app))) password "SCRAM-SHA-512").
Proof.
  intros Hok p Hready app. apply ready_complete in Hready as (ctx' & cs' & Hp); [|by_decide|by_decide].
  unfold p in *. pose proof Hp as Hrun. unfold strimzi_steps in Hrun.
  apply run_cons_complete in Hrun as (c1 & cs1 & Hfin & Hrun).
  apply has_finalizer_continue in Hfin. unfold ensure_ctx_finalizer in Hfin.
  destruct (ensure_app_finalizer _ _) as [a1 b] eqn:Hens. injection Hfin as <- ->.
  apply ensure_app_finalizer_false in Hens as [-> Hin].
  apply run_cons_complete in Hrun as (c2 & cs2 & Hc2 & Hrun).
  apply run_cons_complete in Hrun as (c3 & cs3 & Hc3 & Hrun).
  apply run_cons_complete in Hrun as (c4 & cs4 & Hc4 & Hrun).
  apply run_cons_complete in Hrun as (c5 & cs5 & Hc5 & Hrun). injection Hrun as -> _.
  destruct (topic_steps_continue _ _ _ Hok Hc2 Hc3) as (Htopic & Hname & Hpw).
  destruct (user_steps_continue _ _ _ Hok Hc4 Hc5) as (password & s & Huser & Hs & Hku).
  split_and!; [done..|]. exists ctx', cs', password, s. split; [done|].
  unfold user_done, find_user_password in *. rw Hname Hpw in Huser. rw Hname in Hku. done.
Qed.

(** ** Isolation *)

(** The resources the access control list of a user object names. *)
Definition acl_entry (v : Value) : Value * Value :=
  (value_index "type" (value_index "resource" v), value_index "name" (value_index "resource" v)).
Definition granted (o : DynamicObject) : list (Value * Value) :=
  match value_index "acls" (value_index "authorization" (value_index "spec" (Object (do_data o)))) with
  | Array l => acl_entry <$> l
  | _ => []
  end.

Lemma granted_user app password o :
  granted (user_object config app password o) =
    [(Str "topic", Str (make_kafka_resource_name (REvents app))); (Str "group", Str "*")].
Proof.
  unfold granted, user_object, mark. cbn [do_data value_index]. rw map_get_insert string_eqb_refl. done.
Qed.

(** Whatever user object was there before, the user of an application is given read
    access to a topic of events exactly if it is the topic of the application; as long
    as names do not collide under MD5, nor have a backslash. *)
Theorem kafka_user_isolated `{!TextLaws T} a b password o :
  has_char "\" a = false → has_char "\" b = false → (md5_hex a = md5_hex b → a = b) →
  (Str "topic", Str (make_kafka_resource_name (REvents b))) ∈ granted (user_object config a password o) ↔ a = b.
Proof.
  intros Ha Hb Hmd5. rw granted_user. split; [|intros ->; by left].
  intros [Heq|[Heq|?%elem_of_nil]%elem_of_cons]%elem_of_cons; [|done|done].
  symmetry in Heq. injection Heq as Heq. by eapply events_topic_inj.
Qed.
End StrimziProofs.

(** A condition without a status stops the task. *)
Example condition_without_status :
  condition_ready "Ready" (mkObject None None
    [("status", Object [("conditions", Array [Object [("type", Str "Ready")]])])]) = None.
Proof. reflexivity. Qed.
