(* ===== verification/KnativeOperator.v ===== *)
(** * The operator for Knative sources

    [knative-operator/src/controller/app]: for an application with a Knative
    section, a deployment of the event source that sends the events of the
    application to the endpoint the section names.  Environment variables and
    containers are changed with [operator_framework], deployments are stored by
    Kubernetes; both are given. *)

From S2P Require Import Prelude Json Kafka Registry WorkQueue Reconcile Operators TopicOperators.

(** ** The section, [drogue_client::registry::v1::KnativeAppSpec] *)

Inductive KnAuthentication : Type :=
| KnNone
| KnBasic (username : string) (password : option string)
| KnBearer (token : string).

Record KnTls := mkKnTls { kt_insecure : bool; kt_certificate : option string }.

Record KnEndpoint := mkKnEndpoint {
  ke_url : string;
  ke_auth : KnAuthentication;
  ke_tls : option KnTls;
  ke_method : option string;
  ke_timeout : option Z;
  ke_headers : list (string * string);
}.

Record KnativeAppSpec := mkKnativeSpec { kn_disabled : bool; kn_endpoint : KnEndpoint; kn_group_id : option string }.
Record KnativeAppStatus := mkKnativeStatus { kns_conditions : list Condition; kns_observed_generation : Z }.
Definition default_knative_status : KnativeAppStatus := mkKnativeStatus [] 0.

(** ** Deployments, as far as they are changed *)

Record EnvVar := mkEnv { ev_name : string; ev_value : option string }.

Record Container := mkContainer {
  co_image : option string;
  co_image_pull_policy : option string;
  co_args : option (list string);
  co_command : option (list string);
  co_working_dir : option string;
  co_env : option (list EnvVar);
}.

Record Deployment := mkDeployment {
  de_annotations : option (gmap string string);
  de_match_labels : option (gmap string string);
  de_pod_labels : option (gmap string string);
  de_containers : list (string * Container);
  de_conditions : option (list (string * string));
}.

Record KnConfig := mkKnConfig {
  kc_image : option string;
  kc_image_pull_policy : option string;
  kc_bootstrap_servers : string;
  kc_properties : list (string * string);
}.

Class KnativeWorld := {
  knative_spec : Reg.Application → option (result KnativeAppSpec string);
  knative_status : Reg.Application → option (result KnativeAppStatus string);
  set_knative_status : KnativeAppStatus → Reg.Application → result Reg.Application string;
  clear_knative_status : Reg.Application → Reg.Application;
  clear_ready : string → list Condition → list Condition;
  format_duration : Z → string;
  to_uppercase : string → string;
  add_env : string → string → Container → result Container string;
  set_env : string → option string → Container → result Container string;
  apply_container : string → (Container → result Container string) → Deployment → result Deployment string;
  apply_deployment : string → (Deployment → result Deployment string) → result Deployment string;
  delete_deployment : string → result bool string;
}.

Definition KNATIVE_FINALIZER : string := "knative".
Definition LABEL_APP_MARKER : string := "drogue.io/application".
Definition DEFAULT_IMAGE : string := "ghcr.io/drogue-iot/knative-event-source:latest".

(** The two prefixes of variables that are cleared first. *)
Definition HEADERS : string := "ENDPOINT__HEADERS__".
Definition PROPERTIES : string := "PROPERTIES__".

Definition is_stale (e : EnvVar) : bool := starts_with HEADERS (ev_name e) || starts_with PROPERTIES (ev_name e).

Section KnativeOperator.
Context `{T : Text} `{KafkaSections, ConditionsApi, KnativeWorld}.
Context (config : KnConfig).

Definition add_all (vars : list (string * string)) (c : Container) : result Container string :=
  foldl (λ r '(k, v), let? c := r in add_env k v c) (Ok c) vars.

(** User name, password and token. *)
Definition auth_parts (a : KnAuthentication) : option string * option string * option string :=
  match a with
  | KnNone => (None, None, None)
  | KnBasic username password => (Some username, password, None)
  | KnBearer token => (None, None, Some token)
  end.

(** The part of the container that is not its environment, and the clean-up. *)
Definition base_container (c : Container) : Container :=
  let image := default DEFAULT_IMAGE (kc_image config) in
  let policy := default (if ends_with ":latest" image then "Always" else "IfNotPresent")
    (kc_image_pull_policy config) in
  mkContainer (Some image) (Some policy) None None None (filter (λ e, is_stale e = false) <$> co_env c).

Definition header_vars (spec : KnativeAppSpec) : list (string * string) :=
  (λ '(n, v), (HEADERS +:+ n, v)) <$> ke_headers (kn_endpoint spec).
Definition property_vars : list (string * string) :=
  (λ '(k, v), (PROPERTIES +:+ to_uppercase k, v)) <$> kc_properties config.

(** The closure of [apply_container]. *)
Definition source_container (spec : KnativeAppSpec) (topic_name : string) (container : Container)
    : result Container string :=
  let endpoint := kn_endpoint spec in
  let '(username, password, bearer) := auth_parts (ke_auth endpoint) in
  let? c := add_env "MODE" "kafka" (base_container container) in
  let? c := add_env "K_SINK" (ke_url endpoint) c in
  let? c := set_env "ENDPOINT__USERNAME" username c in
  let? c := set_env "ENDPOINT__PASSWORD" password c in
  let? c := set_env "ENDPOINT__TOKEN" bearer c in
  let? c := add_env "ENDPOINT__TLS_INSECURE"
    (if default false (kt_insecure <$> ke_tls endpoint) then "true" else "false") c in
  let? c := set_env "ENDPOINT__TLS_CERTIFICATE" (ke_tls endpoint ≫= kt_certificate) c in
  let? c := set_env "ENDPOINT__METHOD" (ke_method endpoint) c in
  let? c := set_env "ENDPOINT__TIMEOUT" (format_duration <$> ke_timeout endpoint) c in
  let? c := add_all (header_vars spec) c in
  let? c := add_env "TOPIC" topic_name c in
  let? c := add_env "BOOTSTRAP_SERVERS" (kc_bootstrap_servers config) c in
  let? c := add_all property_vars c in
  add_env "PROPERTIES__GROUP_ID" (default "knative-source" (kn_group_id spec)) c.

Definition reconcile_deployment (app : Reg.Application) (spec : KnativeAppSpec) (topic_name : string)
    (d : Deployment) : result Deployment string :=
  let labels : gmap string string := <["name" := topic_name]> {[LABEL_APP_MARKER := ""]} in
  apply_container "source" (source_container spec topic_name)
    (mkDeployment (use_or_create (<[ANNOTATION_APP_NAME := Reg.a_name app]>) (de_annotations d))
       (Some labels) (Some labels) (de_containers d) (de_conditions d)).

Definition ensure_deployment (app : Reg.Application) (spec : KnativeAppSpec) : result Deployment ReconcileError :=
  let topic_name := make_kafka_resource_name (REvents (Reg.a_name app)) in
  map_err (λ err, Permanent ("Failed to reconcile source deployment: " +:+ err))
    (apply_deployment topic_name (reconcile_deployment app spec topic_name)).

Record KnContext := mkKnContext { kx_app : Reg.Application; kx_deployment : option Deployment }.

(** [CreateDeployment] *)
Definition create_deployment : Step KnContext :=
  simple_step "CreateDeployment" (λ ctx,
    let? spec :=
      match knative_spec (kx_app ctx) with
      | Some (Ok spec) => Ok spec
      | Some (Err e) => Err (Permanent e)
      | None => Err (Permanent "Missing spec section although it was detected earlier")
      end in
    let? deployment := ensure_deployment (kx_app ctx) spec in
    Ok (Continue (mkKnContext (kx_app ctx) (Some deployment)))).

Fixpoint deployment_condition (condition : string) (l : list (string * string)) : option bool :=
  match l with
  | [] => None
  | (t, s) :: rest =>
      if string_eqb t condition then
        if string_eqb s "True" then Some true
        else if string_eqb s "False" then Some false
        else deployment_condition condition rest
      else deployment_condition condition rest
  end.

(** [condition_ready] *)
Definition deployment_ready (condition : string) (d : Deployment) : option bool :=
  de_conditions d ≫= deployment_condition condition.

(** [SourceReady] *)
Definition source_ready : Step KnContext :=
  simple_step "SourceReady" (λ ctx,
    let ready := default false (kx_deployment ctx ≫= deployment_ready "Available") in
    let? app := update_kafka (λ s, mkKafkaStatus (ks_conditions s) (ks_observed_generation s) None (ks_user s))
      (kx_app ctx) in
    let ctx := mkKnContext app (kx_deployment ctx) in
    if ready then Ok (Continue ctx) else retry_soon ctx).

Definition knative_finish (observed_generation : Z) (conditions : list Condition) (ready : ConditionStatus)
    (app : Reg.Application) : result Reg.Application ReconcileError :=
  let? app := update_section knative_status set_knative_status default_knative_status
    (λ _, mkKnativeStatus conditions observed_generation) app in
  update_section conditions_section set_conditions_section [] (update "KnativeReady" ready) app.

Definition knative_conditions (app : Reg.Application) : list Condition :=
  kns_conditions (default default_knative_status (section_value (knative_status app))).

Definition knative_steps : list (Step KnContext) :=
  [has_finalizer (λ ctx, let '(app, added) := ensure_app_finalizer KNATIVE_FINALIZER (kx_app ctx) in
     (mkKnContext app (kx_deployment ctx), added));
   create_deployment; source_ready].

Definition knative_construct (ctx : KnContext) : result (ProcessOutcome Reg.Application) ReconcileError :=
  run_with kx_app (λ ctx, knative_conditions (kx_app ctx)) (knative_finish (Reg.a_generation (kx_app ctx)))
    knative_steps ctx.

Definition knative_deconstruct (app : Reg.Application) : result (ProcessOutcome Reg.Application) ReconcileError :=
  let? gone := map_err Permanent (delete_deployment (make_kafka_resource_name (REvents (Reg.a_name app)))) in
  if gone then
    let app := app_with_finalizers (remove_finalizer KNATIVE_FINALIZER (Reg.a_finalizers app)) app in
    let? app := update_section conditions_section set_conditions_section [] (clear_ready "KnativeReady") app in
    Ok (PComplete (clear_knative_status app))
  else Ok (PRetry app (Some 10%Z)).

Definition knative_requested (app : Reg.Application) : bool :=
  match knative_spec app with
  | Some (Ok spec) => negb (kn_disabled spec)
  | Some (Err _) => true
  | None => false
  end.

Definition knative_process (app : Reg.Application) : result (ProcessOutcome Reg.Application) ReconcileError :=
  reconcile (λ app, eval_by_finalizer (knative_requested app) app KNATIVE_FINALIZER
    (λ app, mkKnContext app None) id id) knative_construct knative_deconstruct app.

Definition knative_recover (message : string) (app : Reg.Application) : result Reg.Application unit :=
  let conditions := update CONDITION_RECONCILED (ready_status (ReadyFailed message)) (knative_conditions app) in
  map_err (λ _, tt) (knative_finish (Reg.a_generation app) conditions (ready_state conditions) app).
End KnativeOperator.

(** ** The environment of the source *)

(** The first variable of a name; [None] if there is none. *)
Fixpoint env_find (n : string) (l : list EnvVar) : option (option string) :=
  match l with
  | [] => None
  | e :: rest => if string_eqb (ev_name e) n then Some (ev_value e) else env_find n rest
  end.
Definition env_of (c : Container) (n : string) : option (option string) := env_find n (default [] (co_env c)).

(** [add_env] sets a variable, and [set_env] removes it if there is no value. *)
Class EnvLaws `{KnativeWorld} := {
  add_env_ok n v c c' : add_env n v c = Ok c' →
    ∀ m, env_of c' m = if string_eqb m n then Some (Some v) else env_of c m;
  set_env_ok n v c c' : set_env n v c = Ok c' →
    ∀ m, env_of c' m = if string_eqb m n then Some <$> v else env_of c m;
}.

(** The last assignment to a variable, if there is any. *)
Fixpoint assigned (n : string) (l : list (string * string)) : option string :=
  match l with
  | [] => None
  | (k, v) :: rest =>
      match assigned n rest with
      | Some w => Some w
      | None => if string_eqb n k then Some v else None
      end
  end.

Definition stale_name (n : string) : bool := starts_with HEADERS n || starts_with PROPERTIES n.

Lemma env_find_filter n l :
  env_find n (filter (λ e, is_stale e = false) l) = if stale_name n then None else env_find n l.
Proof.
  induction l as [|e l IH]; [by destruct (stale_name n)|]. rw filter_cons. destruct (is_stale e) eqn:He; simpl.
  - rw IH. destruct (string_eqb_spec (ev_name e) n) as [<-|]; [|done]. unfold stale_name.
    unfold is_stale in He. by rw He.
  - destruct (string_eqb_spec (ev_name e) n) as [<-|]; [|done]. unfold stale_name.
    unfold is_stale in He. by rw He.
Qed.

Section EnvProofs.
Context `{T : Text} `{EnvLaws}.
Context (config : KnConfig).

Lemma add_all_ok vars c c' :
  add_all vars c = Ok c' →
  ∀ m, env_of c' m = match assigned m vars with Some v => Some (Some v) | None => env_of c m end.
Proof.
  unfold add_all. revert c. induction vars as [|[k v] vars IH]; intros c Hadd m; [by injection Hadd as <-|].
  simpl in Hadd. destruct (add_env k v c) as [c1|e] eqn:Hk.
  - rw (IH c1 Hadd m) (add_env_ok _ _ _ _ Hk) /=. destruct (assigned m vars); [done|].
    by destruct (string_eqb m k).
  - exfalso. clear IH Hk. induction vars as [|[k' v'] vars IH]; [done|]. by apply IH.
Qed.

Lemma assigned_prefix p n vars :
  (∀ k v, (k, v) ∈ vars → starts_with p k = true) → starts_with p n = false → assigned n vars = None.
Proof.
  intros Hp Hn. induction vars as [|[k v] vars IH]; [done|]. simpl. rw IH.
  { intros k' v' Hin. apply (Hp k' v'). by right. }
  destruct (string_eqb_spec n k) as [->|]; [|done]. rewrite (Hp k v) // in Hn. by left.
Qed.

Lemma header_vars_prefix spec k v : (k, v) ∈ header_vars spec → starts_with HEADERS k = true.
Proof. unfold header_vars. intros ([n w] & [= -> ->] & _)%list_elem_of_fmap. apply starts_with_app. Qed.

Lemma property_vars_prefix k v : (k, v) ∈ property_vars config → starts_with PROPERTIES k = true.
Proof. unfold property_vars. intros ([n w] & [= -> ->] & _)%list_elem_of_fmap. apply starts_with_app. Qed.

Lemma prefix_neq p n k : starts_with p n = true → starts_with p k = false → string_eqb n k = false.
Proof. intros Hn Hk. destruct (string_eqb_spec n k); [congruence|done]. Qed.

(** The variables the source is started with, in the order in which they are set. *)
Definition endpoint_env (spec : KnativeAppSpec) (m : string) : option (option (option string)) :=
  let endpoint := kn_endpoint spec in
  let '(username, password, bearer) := auth_parts (ke_auth endpoint) in
  (λ kv, snd kv) <$> find (λ kv : string * option (option string), string_eqb m kv.1) [
    ("ENDPOINT__TIMEOUT", Some <$> (format_duration <$> ke_timeout endpoint));
    ("ENDPOINT__METHOD", Some <$> ke_method endpoint);
    ("ENDPOINT__TLS_CERTIFICATE", Some <$> (ke_tls endpoint ≫= kt_certificate));
    ("ENDPOINT__TLS_INSECURE",
      Some (Some (if default false (kt_insecure <$> ke_tls endpoint) then "true" else "false")));
    ("ENDPOINT__TOKEN", Some <$> bearer); ("ENDPOINT__PASSWORD", Some <$> password);
    ("ENDPOINT__USERNAME", Some <$> username); ("K_SINK", Some (Some (ke_url endpoint)));
    ("MODE", Some (Some "kafka"))].

Lemma source_container_env spec topic c c' m :
  source_container config spec topic c = Ok c' →
  env_of c' m =
    if string_eqb m "PROPERTIES__GROUP_ID" then Some (Some (default "knative-source" (kn_group_id spec)))
    else match assigned m (property_vars config) with
    | Some v => Some (Some v)
    | None =>
        if string_eqb m "BOOTSTRAP_SERVERS" then Some (Some (kc_bootstrap_servers config))
        else if string_eqb m "TOPIC" then Some (Some topic)
        else match assigned m (header_vars spec) with
        | Some v => Some (Some v)
        | None =>
            match endpoint_env spec m with
            | Some v => v
            | None => if stale_name m then None else env_of c m
            end
        end
    end.
Proof.
  unfold source_container, endpoint_env.
  destruct (auth_parts (ke_auth (kn_endpoint spec))) as [[username password] bearer].
  intros Hrun. repeat match goal with Hb : rbind _ _ = Ok _ |- _ =>
    let H1 := fresh "Hset" in apply rbind_ok_inv in Hb as (? & H1 & Hb) end.
  rw (add_env_ok _ _ _ _ Hrun m).
  repeat match goal with
  | Hb : add_all _ _ = Ok ?x |- context [env_of ?x] => rewrite (add_all_ok _ _ _ Hb m)
  | Hb : add_env _ _ _ = Ok ?x |- context [env_of ?x] => rewrite (add_env_ok _ _ _ _ Hb m)
  | Hb : set_env _ _ _ = Ok ?x |- context [env_of ?x] => rewrite (set_env_ok _ _ _ _ Hb m)
  end.
  assert (Hbase : env_of (base_container config c) m = if stale_name m then None else env_of c m).
  { unfold env_of. simpl. destruct (co_env c) as [l|]; simpl; [apply env_find_filter|by destruct (stale_name m)]. }
  rw Hbase. cbn [find fst snd fmap option_fmap option_map]. repeat (destruct (string_eqb m _); [done|]).
  done.
Qed.

(** The source of an application is started with exactly the headers of its section,
    whatever the deployment had before, with the credentials of the section and no
    others, with its endpoint, and with the topic it was given. *)
Theorem source_environment spec topic c c' :
  source_container config spec topic c = Ok c' →
  let '(username, password, bearer) := auth_parts (ke_auth (kn_endpoint spec)) in
  (∀ n, starts_with HEADERS n = true → env_of c' n = Some <$> assigned n (header_vars spec)) ∧
  env_of c' "ENDPOINT__USERNAME" = Some <$> username ∧
  env_of c' "ENDPOINT__PASSWORD" = Some <$> password ∧
  env_of c' "ENDPOINT__TOKEN" = Some <$> bearer ∧
  env_of c' "K_SINK" = Some (Some (ke_url (kn_endpoint spec))) ∧
  env_of c' "TOPIC" = Some (Some topic).
Proof.
  intros Hc. destruct (auth_parts (ke_auth (kn_endpoint spec))) as [[username password] bearer] eqn:Hauth.
  assert (Hprops : ∀ m, starts_with PROPERTIES m = false → assigned m (property_vars config) = None).
  { intros m. apply assigned_prefix, property_vars_prefix. }
  assert (Hheads : ∀ m, starts_with HEADERS m = false → assigned m (header_vars spec) = None).
  { intros m. apply assigned_prefix, header_vars_prefix. }
  split_and!; [|by rw (source_container_env spec topic c c' _ Hc) /endpoint_env Hauth Hprops // Hheads //..].
  intros n Hn. rw (source_container_env spec topic c c' n Hc) Hprops.
  { destruct (starts_with PROPERTIES n) eqn:Hp; [|done].
    unfold HEADERS, PROPERTIES in *. destruct n as [|a n]; [done|]. cbn [starts_with] in Hn, Hp.
    apply andb_true_iff in Hn as [Ha%bool_decide_eq_true _], Hp as [Hb%bool_decide_eq_true _]. congruence. }
  unfold endpoint_env. rw Hauth. cbn [find fst]. rw !(prefix_neq HEADERS n) //.
  destruct (assigned n (header_vars spec)); [done|]. unfold stale_name. by rw Hn.
Qed.
End EnvProofs.
