(* ===== verification/DittoClient.v ===== *)
(** * The client of Eclipse Ditto

    [ditto-registry-operator/src/ditto]: the entities of Ditto ([data]), the
    commands of its operations API ([devops.rs]) with their JSON, and the HTTP
    client ([api.rs], [client.rs]).  Ditto may answer every call in any way,
    depending on all calls so far; URLs, the token providers and the decoders of
    answers are given. *)

From S2P Require Import Prelude Trace Json.

(** ** Entities, [data/mod.rs], [data/policy.rs], [data/thing.rs] *)

Record EntityId := mkEntityId { ei_namespace : string; ei_name : string }.

#[global] Instance EntityId_eq_dec : EqDecision EntityId.
Proof. solve_decision. Defined.

Definition entity_text (i : EntityId) : string := ei_namespace i +:+ ":" +:+ ei_name i.

Definition entity_from_str (s : string) : result EntityId string :=
  match split ":" s with
  | [ns; name] => Ok (mkEntityId ns name)
  | _ => Err "Invalid policy ID"
  end.

Inductive DPermission : Type := DRead | DWrite | DExecute.

Record Permissions := mkPermissions { pe_grant : list DPermission; pe_revoke : list DPermission }.

(** [Permissions::grant] *)
Definition grant (permissions : list DPermission) : Permissions := mkPermissions permissions [].

Inductive Resource : Type :=
| RThing (path : string)
| RPolicy (path : string)
| RMessage (path : string).

Definition resource_text (r : Resource) : string :=
  match r with
  | RThing path => "thing:" +:+ path
  | RPolicy path => "policy:" +:+ path
  | RMessage path => "message:" +:+ path
  end.

Definition resource_from_str (s : string) : result Resource string :=
  match split ":" s with
  | ["thing"; path] => Ok (RThing path)
  | ["policy"; path] => Ok (RPolicy path)
  | ["message"; path] => Ok (RMessage path)
  | _ => Err "Invalid policy ID"
  end.

(** Subjects with their type, and resources with their permissions. *)
Record PolicyEntry := mkPolicyEntry {
  pn_subjects : list (string * string);
  pn_resources : list (Resource * Permissions);
}.

Record Policy := mkPolicy { po_policy_id : EntityId; po_entries : list (string * PolicyEntry) }.

Record Thing := mkThing {
  th_thing_id : EntityId;
  th_policy_id : EntityId;
  th_definition : option string;
  th_attributes : Value;
  th_features : list (string * Value);
}.

(** *** As JSON *)

Definition permission_json (p : DPermission) : Value :=
  Str match p with DRead => "READ" | DWrite => "WRITE" | DExecute => "EXECUTE" end.
Definition permissions_json (p : Permissions) : Value :=
  json_object [("grant", Array (permission_json <$> pe_grant p)); ("revoke", Array (permission_json <$> pe_revoke p))].
Definition policy_entry_json (e : PolicyEntry) : Value :=
  json_object [
    ("subjects", json_object ((λ '(k, t), (k, json_object [("type", Str t)])) <$> pn_subjects e));
    ("resources", json_object ((λ '(r, p), (resource_text r, permissions_json p)) <$> pn_resources e))].
Definition policy_json (p : Policy) : Value :=
  json_object [("policyId", Str (entity_text (po_policy_id p)));
    ("entries", json_object ((λ '(k, e), (k, policy_entry_json e)) <$> po_entries p))].

(** [skip_serializing_if] *)
Definition field_if {A} (keep : bool) (k : string) (json : A → Value) (a : A) : list (string * Value) :=
  if keep then [(k, json a)] else [].
Definition field_opt {A} (k : string) (json : A → Value) (a : option A) : list (string * Value) :=
  match a with Some a => [(k, json a)] | None => [] end.

Definition thing_json (t : Thing) : Value :=
  json_object ([("thingId", Str (entity_text (th_thing_id t))); ("policyId", Str (entity_text (th_policy_id t)))]
    ++ field_opt "definition" Str (th_definition t)
    ++ field_if (negb (bool_decide (th_attributes t = Null))) "attributes" id (th_attributes t)
    ++ field_if (negb (bool_decide (th_features t = []))) "features" json_object (th_features t)).

(** ** The operations API, [devops.rs] *)

Record Headers := mkHeaders { h_aggregate : bool; h_is_group_topic : bool }.
Definition default_headers : Headers := mkHeaders false false.

Inductive QoS : Type := AtMostOnce | AtLeastOnce.

Record Enforcement := mkEnforcement { en_input : string; en_filters : list string }.
Record MappingDefinition := mkMapping { md_engine : string; md_options : list (string * Value) }.

Record Source := mkSource {
  so_addresses : list string;
  so_consumer_count : Z;
  so_qos : option QoS;
  so_authorization_context : list string;
  so_enforcement : Enforcement;
  so_header_mapping : list (string * string);
  so_payload_mapping : list string;
}.

Record Target := mkTarget {
  ta_address : string;
  ta_topics : list string;
  ta_authorization_context : list string;
  ta_header_mapping : list (string * string);
  ta_payload_mapping : list string;
}.

(** The status of a connection is always open. *)
Record Connection := mkConnection {
  cn_id : string;
  cn_connection_type : string;
  cn_client_count : option Z;
  cn_failover_enabled : bool;
  cn_uri : string;
  cn_validate_certificates : bool;
  cn_ca : option string;
  cn_specific_config : list (string * string);
  cn_sources : list Source;
  cn_targets : list Target;
  cn_mapping_definitions : list (string * MappingDefinition);
}.

Inductive PiggybackCommand : Type :=
| CreateConnection (connection : Connection)
| ModifyConnection (connection : Connection)
| DeleteConnection (connection_id : string)
| BlockNamespace (namespace : string)
| Shutdown (namespace : string)
| PurgeNamespace (namespace : string)
| UnblockNamespace (namespace : string).

Record DevopsCommand := mkDevops {
  dv_target_actor_selection : string;
  dv_headers : Headers;
  dv_piggyback_command : PiggybackCommand;
}.

Record ConnectivityEntry := mkConnectivityEntry { cv_status : Z; cv_error : option string }.
Definition ConnectivityResponse : Type := list (string * ConnectivityEntry).
Record NamespaceEntry := mkNamespaceEntry { ns_status : Z; ns_namespace : string }.
Definition NamespaceResponse : Type := list (string * NamespaceEntry).

(** *** As JSON *)

Definition strings_json (l : list string) : Value := Array (Str <$> l).
Definition map_json (m : list (string * string)) : Value := json_object ((λ '(k, v), (k, Str v)) <$> m).
Definition non_empty {A} (l : list A) : bool := match l with [] => false | _ => true end.

Definition headers_json (h : Headers) : Value :=
  json_object ([("aggregate", Bool (h_aggregate h))] ++ field_if (h_is_group_topic h) "is-group-topic" Bool (h_is_group_topic h)).
Definition qos_json (q : QoS) : Value := Number match q with AtMostOnce => 0 | AtLeastOnce => 1 end.

Definition source_json (s : Source) : Value :=
  json_object ([("addresses", strings_json (so_addresses s)); ("consumerCount", Number (so_consumer_count s))]
    ++ field_opt "qos" qos_json (so_qos s)
    ++ [("authorizationContext", strings_json (so_authorization_context s));
        ("enforcement", json_object [("input", Str (en_input (so_enforcement s)));
          ("filters", strings_json (en_filters (so_enforcement s)))]);
        ("headerMapping", map_json (so_header_mapping s))]
    ++ field_if (non_empty (so_payload_mapping s)) "payloadMapping" strings_json (so_payload_mapping s)).

Definition target_json (t : Target) : Value :=
  json_object ([("address", Str (ta_address t))]
    ++ field_if (non_empty (ta_topics t)) "topics" strings_json (ta_topics t)
    ++ [("authorizationContext", strings_json (ta_authorization_context t));
        ("headerMapping", map_json (ta_header_mapping t))]
    ++ field_if (non_empty (ta_payload_mapping t)) "payloadMapping" strings_json (ta_payload_mapping t)).

Definition connection_json (c : Connection) : Value :=
  json_object ([("id", Str (cn_id c)); ("connectionType", Str (cn_connection_type c)); ("connectionStatus", Str "open")]
    ++ field_opt "clientCount" Number (cn_client_count c)
    ++ [("failoverEnabled", Bool (cn_failover_enabled c)); ("uri", Str (cn_uri c));
        ("validateCertificates", Bool (cn_validate_certificates c))]
    ++ field_opt "ca" Str (cn_ca c)
    ++ [("specificConfig", map_json (cn_specific_config c)); ("sources", Array (source_json <$> cn_sources c));
        ("targets", Array (target_json <$> cn_targets c));
        ("mappingDefinitions", json_object ((λ '(k, m), (k, json_object [("mappingEngine", Str (md_engine m));
          ("options", json_object (md_options m))])) <$> cn_mapping_definitions c))]).

Definition piggyback_json (p : PiggybackCommand) : Value :=
  let tagged (t : string) fields := json_object (("type", Str t) :: fields) in
  match p with
  | CreateConnection c => tagged "connectivity.commands:createConnection" [("connection", connection_json c)]
  | ModifyConnection c => tagged "connectivity.commands:modifyConnection" [("connection", connection_json c)]
  | DeleteConnection i => tagged "connectivity.commands:deleteConnection" [("connectionId", Str i)]
  | BlockNamespace n => tagged "namespaces.commands:blockNamespace" [("namespace", Str n)]
  | Shutdown n => tagged "common.commands:shutdown"
      [("reason", json_object [("type", Str "purge-namespace"); ("details", Str n)])]
  | PurgeNamespace n => tagged "namespaces.commands:purgeNamespace" [("namespace", Str n)]
  | UnblockNamespace n => tagged "namespaces.commands:unblockNamespace" [("namespace", Str n)]
  end.

Definition devops_json (c : DevopsCommand) : Value :=
  json_object [("targetActorSelection", Str (dv_target_actor_selection c)); ("headers", headers_json (dv_headers c));
    ("piggybackCommand", piggyback_json (dv_piggyback_command c))].

(** The tests of the source. *)
Example serialize_delete :
  devops_json (mkDevops "/system/sharding/connection" default_headers (DeleteConnection "connection-id")) =
  json_object [("targetActorSelection", Str "/system/sharding/connection");
    ("headers", json_object [("aggregate", Bool false)]);
    ("piggybackCommand", json_object [("type", Str "connectivity.commands:deleteConnection");
      ("connectionId", Str "connection-id")])].
Proof. reflexivity. Qed.

Example serialize_shutdown :
  devops_json (mkDevops "/foo/bar" default_headers (Shutdown "ns")) =
  json_object [("targetActorSelection", Str "/foo/bar"); ("headers", json_object [("aggregate", Bool false)]);
    ("piggybackCommand", json_object [("type", Str "common.commands:shutdown");
      ("reason", json_object [("type", Str "purge-namespace"); ("details", Str "ns")])])].
Proof. reflexivity. Qed.

Example serialize_policy :
  policy_json (mkPolicy (mkEntityId "ns" "policy")
    [("FOO", mkPolicyEntry [("some:subject", "foo")] [(RThing "/foo", mkPermissions [] [])])]) =
  json_object [("policyId", Str "ns:policy"); ("entries", json_object [("FOO", json_object [
    ("subjects", json_object [("some:subject", json_object [("type", Str "foo")])]);
    ("resources", json_object [("thing:/foo", json_object [("grant", Array []); ("revoke", Array [])])])])])].
Proof. reflexivity. Qed.

(** ** The HTTP client, [client.rs] and [api.rs] *)

Inductive HttpMethod : Type := HttpPut | HttpPost | HttpDelete.

(** Whose token a request carries. *)
Inductive Provider : Type := AdminProvider | DevopsProvider.

(** [reqwest::Error] as far as it is asked. *)
Record ReqwestError := mkReqwest {
  re_text : string;
  re_timeout : bool;
  re_connect : bool;
  re_status : option Z;
}.

Inductive DittoError : Type :=
| DUrlError (err : string)
| DToken (err : string)
| DRequest (err : ReqwestError)
| DResponse (status : Z)
| DJson (err : string).

(** [code_is_temp] and [is_temporary] *)
Definition code_is_temp (code : Z) : bool := ((500 <=? code) && (code <? 600) || (code =? 408))%Z.

Definition is_temporary (e : DittoError) : bool :=
  match e with
  | DRequest err => re_timeout err || re_connect err || default false (code_is_temp <$> re_status err)
  | DResponse code => code_is_temp code
  | _ => false
  end.

(** What comes back: the status, and the body as JSON and as text. *)
Record DAnswer := mkDAnswer {
  da_status : Z;
  da_json : result Value ReqwestError;
  da_text : result string ReqwestError;
}.

(** URLs of the [url] crate, the status of a failed request as an error, the displayed
    status codes, and the derived decoders of the answers. *)
Class DittoWeb := {
  DUrl : Type;
  durl_join : string → DUrl → result DUrl string;
  durl_timeout : Z → DUrl → DUrl;
  status_error : Z → DUrl → ReqwestError;
  status_error_status code url : re_status (status_error code url) = Some code;
  code_text : Z → string;
  decode_connectivity : Value → result ConnectivityResponse string;
  decode_namespace : Value → result NamespaceResponse string;
}.

Record DCall (Url : Type) := mkDCall {
  dc_method : HttpMethod;
  dc_url : Url;
  dc_provider : Provider;
  dc_body : option Value;
}.
Arguments mkDCall {Url}.
Arguments dc_method {Url} d.
Arguments dc_url {Url} d.
Arguments dc_provider {Url} d.
Arguments dc_body {Url} d.

Inductive PolicyOperation : Type :=
| PolicyCreateOrUpdate (policy : Policy)
| PolicyDelete (policy_id : EntityId).

Inductive ThingOperation : Type :=
| ThingCreateOrUpdate (thing : Thing)
| ThingDelete (thing_id : EntityId).

(** [Request::into_builder]: method, path and body. *)
Definition policy_request (o : PolicyOperation) : HttpMethod * string * option Value :=
  match o with
  | PolicyCreateOrUpdate policy => (HttpPut, "policies/" +:+ entity_text (po_policy_id policy), Some (policy_json policy))
  | PolicyDelete policy_id => (HttpDelete, "policies/" +:+ entity_text policy_id, None)
  end.

Definition thing_request (o : ThingOperation) : HttpMethod * string * option Value :=
  match o with
  | ThingCreateOrUpdate thing => (HttpPut, "things/" +:+ entity_text (th_thing_id thing), Some (thing_json thing))
  | ThingDelete thing_id => (HttpDelete, "things/" +:+ entity_text thing_id, None)
  end.

Section Client.
Context `{DittoWeb}.

(** Ditto, the token providers, the address, and whether debug logging is on. *)
Context (ditto : list (DCall DUrl) → DCall DUrl → result DAnswer ReqwestError).
Context (inject_token : list (DCall DUrl) → Provider → result unit string).
Context (base : DUrl) (debug : bool).

Abbreviation D := (Traced (DCall DUrl) DittoError).

(** [inject_token(..).await.map_err(Error::Token)?] *)
Definition with_token (p : Provider) : D unit := λ l, (l, map_err DToken (inject_token l p)).

(** [send().await?] *)
Definition send_ditto (c : DCall DUrl) : D DAnswer := call c (λ l, map_err DRequest (ditto l c)).

(** [RequestFactory::new_request] *)
Definition request_url (path : string) : result DUrl DittoError :=
  let? url := map_err DUrlError (durl_join "/api/2/" base) in
  map_err DUrlError (durl_join path url).

Definition is_success_code (code : Z) : bool := ((200 <=? code) && (code <? 300))%Z.

(** [Client::request]; the text of an error is read for the log only. *)
Definition request (provider : Provider) (r : HttpMethod * string * option Value) : D (option Value) :=
  let '(method, path, body) := r in
  let! url := from_result (request_url path) in
  let! _ := with_token provider in
  let! resp := send_ditto (mkDCall method url provider body) in
  if is_success_code (da_status resp) then
    if (da_status resp =? 204)%Z then ret None
    else let! json := from_result (map_err DRequest (da_json resp)) in ret (Some json)
  else
    let! _ := if debug then let! _ := from_result (map_err DRequest (da_text resp)) in ret tt else ret tt in
    fail (DResponse (da_status resp)).

(** [Client::devops]; [error_for_status] makes errors of the codes from 400 to 599. *)
Definition devops {R} (decode : Value → result R string) (provider : Provider) (timeout : option Z)
    (command : DevopsCommand) : D R :=
  let! url := from_result (map_err DUrlError (durl_join "/devops/piggyback/connectivity" base)) in
  let url := match timeout with Some t => durl_timeout t url | None => url end in
  let! _ := with_token provider in
  let! resp := send_ditto (mkDCall HttpPost url provider (Some (devops_json command))) in
  if ((400 <=? da_status resp) && (da_status resp <? 600))%Z then fail (DRequest (status_error (da_status resp) url))
  else
    let! json := from_result (map_err DRequest (da_json resp)) in
    from_result (map_err DJson (decode json)).

(** [Display for Error] *)
Definition ditto_error_text (e : DittoError) : string :=
  match e with
  | DUrlError err => "failed to build URL: " +:+ err
  | DToken err => "failed to acquire access token: " +:+ err
  | DRequest err => "failed to execute request: " +:+ re_text err
  | DResponse status => "response indicated error (" +:+ code_text status +:+ ")"
  | DJson err => "JSON error (" +:+ err +:+ ")"
  end.

(** ** What a call that succeeded was answered *)

Lemma with_token_ok p l l' u : with_token p l = (l', Ok u) → l' = l.
Proof. unfold with_token. naive_solver. Qed.

Lemma send_ditto_ok c l l' a : send_ditto c l = (l', Ok a) → l' = l ++ [c] ∧ ditto l c = Ok a.
Proof. intros [-> Ha]%call_ok. split; [done|]. by destruct (ditto l c); simplify_eq/=. Qed.

(** A request is one call, with the token of its provider; it succeeds if the answer
    is a success. *)
Lemma request_ok provider method path body l l' r :
  request provider (method, path, body) l = (l', Ok r) →
  ∃ url answer, request_url path = Ok url ∧ l' = l ++ [mkDCall method url provider body] ∧
    ditto l (mkDCall method url provider body) = Ok answer ∧ is_success_code (da_status answer) = true.
Proof.
  unfold request. intros (l1 & url & [-> Hurl]%from_result_ok & Hrun)%bind_ok.
  apply bind_ok in Hrun as (? & ? & ->%with_token_ok & Hrun).
  apply bind_ok in Hrun as (? & resp & [-> Hresp]%send_ditto_ok & Hrun).
  exists url, resp. destruct (is_success_code (da_status resp)).
  - split_and!; try done. destruct (_ =? _)%Z; [by injection Hrun as <-|].
    apply bind_ok in Hrun as (? & json & [-> _]%from_result_ok & Hrun). by injection Hrun as <-.
  - apply bind_ok in Hrun as (? & ? & _ & Hrun). done.
Qed.

(** The error of a request with status 404 is told apart. *)
Lemma request_not_found provider method path body l l' :
  request provider (method, path, body) l = (l', Err (DResponse 404)) →
  ∃ url answer, request_url path = Ok url ∧ l' = l ++ [mkDCall method url provider body] ∧
    ditto l (mkDCall method url provider body) = Ok answer ∧ da_status answer = 404%Z.
Proof.
  unfold request, bind, from_result. destruct (request_url path) as [url|e] eqn:Hurl; simpl.
  2: { unfold request_url in Hurl. destruct (durl_join "/api/2/" base); simpl in Hurl; [|by simplify_eq].
       destruct (durl_join path _); by simplify_eq/=. }
  unfold with_token. destruct (inject_token l provider); simpl; [|done].
  unfold send_ditto, call. destruct (ditto l _) as [resp|] eqn:Hd; simpl; [|done].
  destruct (is_success_code _) eqn:Hs.
  - destruct (_ =? _)%Z; [done|]. by destruct (da_json resp).
  - destruct debug; [destruct (da_text resp); simpl; [|done]|]; intros [= <- Hc]; eauto 10.
Qed.

(** An operation is one call, answered with something but an error. *)
Lemma devops_ok {R} (decode : Value → result R string) provider timeout command l l' r :
  devops decode provider timeout command l = (l', Ok r) →
  ∃ url answer json, l' = l ++ [mkDCall HttpPost url provider (Some (devops_json command))] ∧
    ditto l (mkDCall HttpPost url provider (Some (devops_json command))) = Ok answer ∧
    da_json answer = Ok json ∧ decode json = Ok r ∧ ¬ (400 ≤ da_status answer < 600)%Z.
Proof.
  unfold devops. intros (l1 & url & [-> Hurl]%from_result_ok & Hrun)%bind_ok.
  apply bind_ok in Hrun as (? & ? & ->%with_token_ok & Hrun).
  apply bind_ok in Hrun as (? & resp & [-> Hresp]%send_ditto_ok & Hrun).
  destruct (_ && _) eqn:Hcode; [done|].
  apply bind_ok in Hrun as (? & json & [-> Hj]%from_result_ok & [-> Hr]%from_result_ok).
  eexists _, resp, json. split_and!; try done.
  - by destruct (da_json resp); simplify_eq/=.
  - by destruct (decode json); simplify_eq/=.
  - lia.
Qed.
End Client.

(** ** IDs *)

(** An ID whose parts have no colon is read back from its text; a colon in either part
    makes the text unreadable. *)
Theorem entity_id_roundtrip i :
  entity_from_str (entity_text i) = Ok i ↔
  has_char ":" (ei_namespace i) = false ∧ has_char ":" (ei_name i) = false.
Proof.
  destruct i as [ns name]. unfold entity_from_str, entity_text. cbn [ei_namespace ei_name]. split.
  - intros Hp. pose proof (split_segment ":" (ns +:+ ":" +:+ name)) as Hparts.
    destruct (split ":" (ns +:+ ":" +:+ name)) as [|a [|b [|c l]]]; try done. simplify_eq.
    split; apply Hparts; set_solver.
  - intros [Hns Hname]. change (ns +:+ ":" +:+ name) with (ns +:+ String ":" name).
    rw split_app // split_no_sep //.
Qed.
