(* ===== verification/DittoOperator.v ===== *)
(** * The operator for the Ditto registry

    [ditto-registry-operator/src/controller]: an application with the flag gets
    connections from its Kafka topic to Ditto and back, and a policy; a device
    with the flag gets a thing.  Removing an application removes connections,
    purges its namespace, and removes the policy. *)

From S2P Require Import Prelude Trace Json Kafka Registry WorkQueue Reconcile Operators TopicOperators DittoClient.

(** ** The section, [data/mod.rs] *)

Record KafkaClientConfig := mkKafkaClient { kcl_bootstrap_servers : string; kcl_properties : gmap string string }.

Record Ingress := mkIngress { in_clients : option Z; in_consumers : option Z }.

Inductive DittoTopic : Type := TwinEvents (extra_fields : list string) (filter : option string).
Inductive ExporterMode : Type := ModeDitto (normalized : bool) | ModeCloudEvents (normalized : bool).

Record ExporterTarget := mkExporterTarget {
  et_topic : string;
  et_mode : ExporterMode;
  et_subscriptions : list DittoTopic;
}.

Record Exporter := mkExporter { ex_kafka : KafkaClientConfig; ex_targets : list ExporterTarget }.
Record DittoAppSpec := mkDittoSpec { sp_exporter : option Exporter; sp_ingress : option Ingress }.

(** [DittoAppStatus] and [DittoDeviceStatus] *)
Record DittoStatus := mkDittoStatus { dt_observed_generation : Z; dt_conditions : list Condition }.
Definition default_ditto_status : DittoStatus := mkDittoStatus 0 [].

(** The sections of applications, or of devices. *)
Class StatusSections (R : Type) := {
  ditto_status : R → option (result DittoStatus string);
  set_ditto_status : DittoStatus → R → result R string;
  clear_ditto_status : R → R;
  all_conditions : R → option (result (list Condition) string);
  set_all_conditions : list Condition → R → result R string;
}.

(** What else the operator is given. *)
Class DittoSetup := {
  ditto_spec : Reg.Application → option (result DittoAppSpec string);
  has_label_flag : string → gmap string string → bool;
  remove_ready : string → list Condition → list Condition;
  KUrl : Type;
  kurl_parse : string → result KUrl string;
  kurl_set_username : string → KUrl → option KUrl;
  kurl_set_password : option string → KUrl → option KUrl;
  kurl_text : KUrl → string;
  urlencode : list (string * string) → result string string;
  to_ditto_js : string;
  from_ditto_js : string;
}.

Definition DITTO_FINALIZER : string := "ditto".
Definition CONDITION_DITTO_READY : string := "DittoReady".

(** [policy_id] and [thing_id] *)
Definition policy_id (app : Reg.Application) : EntityId := mkEntityId (Reg.a_name app) "default".
Definition thing_id (app : Reg.Application) (device : Reg.Device) : EntityId :=
  mkEntityId (Reg.a_name app) (Reg.d_name device).

(** ** Connections, [controller/app/app.rs] *)

Inductive ConnectionType : Type := Inbound | Outbound.

Definition connection_id (t : ConnectionType) (app : Reg.Application) : string :=
  match t with
  | Inbound => "kafka-drogue-" +:+ Reg.a_name app
  | Outbound => "drogue-out-" +:+ Reg.a_name app
  end.

(** [replace] of a dot before a colon. *)
Fixpoint drop_dot_colon (s : string) : string :=
  match s with
  | String c t =>
      match t with
      | String d t' =>
          if bool_decide (c = "."%char) && bool_decide (d = ":"%char) then String d (drop_dot_colon t')
          else String c (drop_dot_colon t)
      | EmptyString => s
      end
  | EmptyString => EmptyString
  end.

Record DittoKafkaOptions := mkKafkaOptions {
  ko_uri : string;
  ko_specific_config : list (string * string);
  ko_validate_certificates : bool;
  ko_ca : option string;
}.

Section Connections.
Context `{T : Text} `{DittoSetup}.

Definition connection_info (config : KafkaClientConfig) (group_id : string)
    : result DittoKafkaOptions ReconcileError :=
  let get k := kcl_properties config !! k in
  let bootstrap_server := drop_dot_colon (kcl_bootstrap_servers config) in
  let scheme := match get "security.protocol" with
    | Some p => if string_eqb p "SSL" || string_eqb p "SASL_SSL" then "ssl" else "tcp"
    | None => "tcp"
    end in
  let bad {A} : result A ReconcileError := Err (Permanent "Failed to build Kafka bootstrap URL") in
  let? uri := match kurl_parse (scheme +:+ "://" +:+ bootstrap_server) with Ok u => Ok u | Err _ => bad end in
  let? uri := match get "sasl.username" with
    | Some username =>
        match kurl_set_username username uri ≫= kurl_set_password (get "sasl.password") with
        | Some u => Ok u
        | None => bad
        end
    | None => Ok uri
    end in
  let specific := im_insert "bootstrapServers" bootstrap_server [] in
  let specific := match get "sasl.mechanism" with
    | Some mechanism => im_insert "saslMechanism" mechanism specific
    | None => specific
    end in
  let specific := im_insert "groupId" group_id specific in
  let specific := foldl (λ m '(k, v),
    match strip_prefix "ditto.specificConfig." k with
    | Some k => im_insert k v m
    | None => m
    end) specific (map_to_list (kcl_properties config)) in
  Ok (mkKafkaOptions (kurl_text uri) specific
        (match get "ditto.validateCertificates" with Some s => string_eqb s "true" | None => true end)
        (get "ditto.ca")).

Definition default_enforcement (app : Reg.Application) : Enforcement :=
  mkEnforcement "{{ header:ce_application }}:{{ header:ce_device }}" [Reg.a_name app +:+ ":{{ thing:name }}"].

Definition default_header_mapping : list (string * string) := [
  ("application", "{{ header:ce_application }}"); ("device", "{{ header:ce_device }}");
  ("content-type", "{{ header:content-type }}")].

Definition mapping_definitions_inbound : list (string * MappingDefinition) := [
  ("drogue-cloud-events-mapping", mkMapping "JavaScript" [
    ("incomingScript", Str to_ditto_js); ("outgoingScript", Str from_ditto_js);
    ("loadBytebufferJS", Str "false"); ("loadLongJS", Str "false")])].

Definition inbound_connection_definition (app : Reg.Application) (ingress : option Ingress)
    (default_config : KafkaClientConfig) : result Connection ReconcileError :=
  let topic := make_topic KEvents (Reg.a_name app) in
  let id := connection_id Inbound app in
  let? o := connection_info default_config ("ditto-" +:+ id) in
  Ok (mkConnection id "kafka" (ingress ≫= in_clients) true (ko_uri o) (ko_validate_certificates o) (ko_ca o)
        (ko_specific_config o)
        [mkSource [topic] (default 1%Z (ingress ≫= in_consumers)) (Some AtLeastOnce)
           ["pre-authenticated:drogue-cloud"] (default_enforcement app) default_header_mapping
           ["drogue-cloud-events-mapping"]]
        [] mapping_definitions_inbound).

Definition mapping_definitions_outbound (mode : ExporterMode) : list string * list (string * string) :=
  let mappers (normalized : bool) := if normalized then ["Normalized"] else [] in
  match mode with
  | ModeDitto normalized => (mappers normalized, [])
  | ModeCloudEvents normalized => (mappers normalized, [
      ("ce_specversion", "1.0"); ("ce_source", "ditto:instance/{{ thing:namespace }}/{{ thing:name }}");
      ("ce_id", "{{ header:correlation-id }}"); ("ce_time", "{{ time:now }}");
      ("ce_type", "org.eclipse.io.ditto.v{{ header:version }}"); ("ce_dataschema", "urn:eclipse:ditto");
      ("ce_application", "{{ thing:namespace }}"); ("ce_device", "{{ thing:name }}");
      ("ce_subject", "{{ topic:action }}")])
  end.

(** The query of a subscription, and its topic. *)
Definition subscription_query (namespace : string) (t : DittoTopic) : list (string * string) :=
  match t with
  | TwinEvents extra_fields filter =>
      [("namespace", namespace)]
      ++ (if non_empty extra_fields then [("extraFields", join "," extra_fields)] else [])
      ++ match filter with Some f => [("filter", f)] | None => [] end
  end.

Definition subscription_topic (namespace : string) (t : DittoTopic) : result string ReconcileError :=
  let? query := map_err (λ err, Permanent ("Unable to encode outbound configuration options: " +:+ err))
    (urlencode (subscription_query namespace t)) in
  Ok ("_/_/things/twin/events?" +:+ query).

Fixpoint collect {A B} (f : A → result B ReconcileError) (l : list A) : result (list B) ReconcileError :=
  match l with
  | [] => Ok []
  | a :: rest =>
      let? b := f a in
      let? bs := collect f rest in
      Ok (b :: bs)
  end.

Definition outbound_connection_target (app : Reg.Application) (exporter : ExporterTarget)
    : result Target ReconcileError :=
  if has_char "/" (et_topic exporter) then
    Err (Permanent ("Ditto exporter Kafka topic must not contain slashes. Is: " +:+ et_topic exporter))
  else
    let? topics := collect (subscription_topic (Reg.a_name app)) (et_subscriptions exporter) in
    let '(payload_mapping, header_mapping) := mapping_definitions_outbound (et_mode exporter) in
    Ok (mkTarget (et_topic exporter +:+ "/{{ thing:id }}") topics ["pre-authenticated:drogue-cloud"]
          header_mapping payload_mapping).

Definition outbound_connection_definition (app : Reg.Application) (exporter : Exporter)
    : result Connection ReconcileError :=
  let? targets := collect (outbound_connection_target app) (ex_targets exporter) in
  let? o := connection_info (ex_kafka exporter) (connection_id Outbound app) in
  Ok (mkConnection (connection_id Outbound app) "kafka" None true (ko_uri o) (ko_validate_certificates o) (ko_ca o)
        (ko_specific_config o) [] targets []).
End Connections.

(** ** Reading answers *)

Definition is_2xx (status : Z) : bool := ((200 <=? status) && (status <=? 299))%Z.

Section Answers.
Context (code_display : Z → string).

(** [pop] takes the last entry. *)
Definition eval_con_response (response : ConnectivityResponse) : result unit ReconcileError :=
  match last response with
  | Some (_, r) =>
      if is_2xx (cv_status r) then Ok tt
      else Err (Permanent ("DevOps error (" +:+ code_display (cv_status r) +:+ "): " +:+ default "" (cv_error r)))
  | None => Err (Permanent "Missing devops response")
  end.

Definition eval_ns_response (response : NamespaceResponse) : result unit ReconcileError :=
  match last response with
  | Some (_, r) =>
      if is_2xx (ns_status r) then Ok tt
      else Err (Permanent ("DevOps error (" +:+ code_display (ns_status r) +:+ ")"))
  | None => Err (Permanent "Missing devops response")
  end.
End Answers.

(** The first entry says that there is no such connection. *)
Definition first_not_found (response : ConnectivityResponse) : bool :=
  match response with (_, r) :: _ => (cv_status r =? 404)%Z | [] => false end.

(** ** The operations *)

#[global] Instance device_metadata : EvalMetadata (Reg.Application * Reg.Device) :=
  {| finalizers x := Reg.d_finalizers x.2; deletion_timestamp x := Reg.d_deletion_timestamp x.2 |}.

(** Who may do what with the things of an application. *)
Definition policy_of (app : Reg.Application) : Policy :=
  let read_write := grant [DRead; DWrite] in
  mkPolicy (policy_id app) [
    ("ADMIN", mkPolicyEntry [("keycloak:drogue-admin", "Admin access")]
      [(RPolicy "/", read_write); (RThing "/", read_write)]);
    ("CONNECTION", mkPolicyEntry [("pre-authenticated:drogue-cloud", "Connection to Drogue IoT Kafka topic")]
      [(RThing "/", read_write)]);
    ("USERS", mkPolicyEntry [("keycloak:drogue-user", "All users")] [(RThing "/", read_write)])].

Definition thing_of (app : Reg.Application) (device : Reg.Device) : Thing :=
  mkThing (thing_id app device) (policy_id app) None Null [].

Definition connection_command (p : PiggybackCommand) : DevopsCommand :=
  mkDevops "/system/sharding/connection" default_headers p.
Definition namespace_command (h : Headers) (p : PiggybackCommand) : DevopsCommand :=
  mkDevops "/system/distributedPubSubMediator" h p.

Section Operations.
Context `{T : Text} `{DittoSetup} `{DittoWeb}.
Context (ditto : list (DCall DUrl) → DCall DUrl → result DAnswer ReqwestError).
Context (inject_token : list (DCall DUrl) → Provider → result unit string).
Context (base : DUrl) (debug : bool) (code_display : Z → string).
Context (kafka : KafkaClientConfig).

Abbreviation O := (Traced (DCall DUrl) ReconcileError).

Definition map_ditto_error (e : DittoError) : ReconcileError :=
  if is_temporary e then Temporary (ditto_error_text e) else Permanent (ditto_error_text e).

(** [.await.map_err(map_ditto_error)] *)
Definition reconciling {A} (m : Traced (DCall DUrl) DittoError A) : O A :=
  λ l, let '(l, r) := m l in (l, map_err map_ditto_error r).

Definition connectivity (p : PiggybackCommand) : O ConnectivityResponse :=
  reconciling (devops ditto inject_token base decode_connectivity DevopsProvider None (connection_command p)).
Definition on_namespace (timeout : option Z) (h : Headers) (p : PiggybackCommand) : O unit :=
  let! response := reconciling (devops ditto inject_token base decode_namespace DevopsProvider timeout
    (namespace_command h p)) in
  from_result (eval_ns_response code_display response).

Definition create_connection (connection : Connection) : O unit :=
  let! response := connectivity (ModifyConnection connection) in
  let! response := if first_not_found response then connectivity (CreateConnection connection) else ret response in
  from_result (eval_con_response code_display response).

Definition delete_connection (connection_id : string) : O unit :=
  let! response := connectivity (DeleteConnection connection_id) in
  if first_not_found response then ret tt else from_result (eval_con_response code_display response).

(** [CreateApplication::create_inbound] and [create_outbound] *)
Definition create_inbound (app : Reg.Application) (spec : option DittoAppSpec) : O unit :=
  let! definition := from_result (inbound_connection_definition app (spec ≫= sp_ingress) kafka) in
  create_connection definition.
Definition create_outbound (app : Reg.Application) (exporter : Exporter) : O unit :=
  let! definition := from_result (outbound_connection_definition app exporter) in
  create_connection definition.

(** [CreateApplication::run] *)
Definition create_application (app : Reg.Application) : O unit :=
  let! spec := from_result
    match ditto_spec app with
    | Some (Ok spec) => Ok (Some spec)
    | Some (Err err) => Err (Permanent ("Failed to parse Ditto spec: " +:+ err))
    | None => Ok None
    end in
  let! _ := create_inbound app spec in
  match spec ≫= sp_exporter with
  | Some exporter => create_outbound app exporter
  | None => delete_connection (connection_id Outbound app)
  end.

Definition block_namespace (app : Reg.Application) : O unit :=
  on_namespace None default_headers (BlockNamespace (Reg.a_name app)).
Definition unblock_namespace (app : Reg.Application) : O unit :=
  on_namespace None default_headers (UnblockNamespace (Reg.a_name app)).
Definition purge_namespace (app : Reg.Application) : O unit :=
  on_namespace (Some 20%Z) (mkHeaders true true) (PurgeNamespace (Reg.a_name app)).

(** [DeleteApplication::delete_connection] and [run] *)
Definition delete_connections (app : Reg.Application) : O unit :=
  let! _ := delete_connection (connection_id Inbound app) in
  delete_connection (connection_id Outbound app).

Definition delete_application (app : Reg.Application) : O unit :=
  let! _ := delete_connections app in
  let! _ := block_namespace app in
  let! _ := purge_namespace app in
  unblock_namespace app.

(** [CreatePolicy] and [CreateThing]: the answer is logged only. *)
Definition put (r : HttpMethod * string * option Value) : O unit :=
  let! _ := reconciling (request ditto inject_token base debug AdminProvider r) in ret tt.
Definition create_policy (app : Reg.Application) : O unit :=
  put (policy_request (PolicyCreateOrUpdate (policy_of app))).
Definition create_thing (app : Reg.Application) (device : Reg.Device) : O unit :=
  put (thing_request (ThingCreateOrUpdate (thing_of app device))).

(** [DeletePolicy] and [DeleteThing]: it may be gone already. *)
Definition is_not_found (e : DittoError) : bool := match e with DResponse code => (code =? 404)%Z | _ => false end.
Definition remove (r : HttpMethod * string * option Value) : O unit := λ l,
  match request ditto inject_token base debug AdminProvider r l with
  | (l, Err e) => (l, if is_not_found e then Ok tt else Err (map_ditto_error e))
  | (l, Ok _) => (l, Ok tt)
  end.
Definition delete_policy (app : Reg.Application) : O unit := remove (policy_request (PolicyDelete (policy_id app))).
Definition delete_thing (app : Reg.Application) (device : Reg.Device) : O unit :=
  remove (thing_request (ThingDelete (thing_id app device))).
End Operations.

(** ** The reconcilers, [app/mod.rs] and [device/mod.rs] *)

(** An operation as a step: the context has the resource and the calls made so far. *)
Definition calling {Call R} (name : string) (f : R → Traced Call ReconcileError unit) : Step (R * list Call) :=
  simple_step name (λ '(r, l),
    match f r l with
    | (l, Ok _) => Ok (Continue (r, l))
    | (_, Err e) => Err e
    end).

Definition ensure_first {R X} (ensure : R → R * bool) (c : R * X) : (R * X) * bool :=
  let '(r, added) := ensure c.1 in ((r, c.2), added).

Definition ensure_device_finalizer (finalizer : string) (device : Reg.Device) : Reg.Device * bool :=
  match ensure_finalizer finalizer (Reg.d_finalizers device) with
  | Some l => (device_with_finalizers l device, true)
  | None => (device, false)
  end.

Section Status.
Context {R : Type} `{ConditionsApi} `{StatusSections R} `{DittoSetup}.

Definition ditto_conditions (r : R) : list Condition :=
  dt_conditions (default default_ditto_status (section_value (ditto_status r))).

(** [finish_ready] for the status of Ditto. *)
Definition ditto_finish (observed_generation : Z) (conditions : list Condition) (ready : ConditionStatus) (r : R)
    : result R ReconcileError :=
  let? r := update_section ditto_status set_ditto_status default_ditto_status
    (λ _, mkDittoStatus observed_generation conditions) r in
  update_section all_conditions set_all_conditions [] (update CONDITION_DITTO_READY ready) r.

(** [recover] of both controllers. *)
Definition ditto_recover (generation : Z) (message : string) (r : R) : result R unit :=
  let conditions := update CONDITION_RECONCILED (ready_status (ReadyFailed message)) (ditto_conditions r) in
  map_err (λ _, tt) (ditto_finish generation conditions (ready_state conditions) r).

(** [update_section(|c| c.clear_ready(..))] *)
Definition clear_ready (r : R) : result R ReconcileError :=
  update_section all_conditions set_all_conditions [] (remove_ready CONDITION_DITTO_READY) r.
End Status.

Section Reconcilers.
Context `{T : Text} `{DittoSetup} `{DittoWeb} `{ConditionsApi}.
Context `{!StatusSections Reg.Application, !StatusSections Reg.Device}.
Context (ditto : list (DCall DUrl) → DCall DUrl → result DAnswer ReqwestError).
Context (inject_token : list (DCall DUrl) → Provider → result unit string).
Context (base : DUrl) (debug : bool) (code_display : Z → string).
Context (kafka : KafkaClientConfig).

Abbreviation O := (Traced (DCall DUrl) ReconcileError).

(** *** Applications *)

Definition ditto_app_steps : list (Step (Reg.Application * list (DCall DUrl))) := [
  has_finalizer (ensure_first (ensure_app_finalizer DITTO_FINALIZER));
  calling "CreateApplication" (create_application ditto inject_token base code_display kafka);
  calling "CreatePolicy" (create_policy ditto inject_token base debug)].

Definition ditto_app_construct (l : list (DCall DUrl)) (app : Reg.Application)
    : result (ProcessOutcome Reg.Application) ReconcileError :=
  run_with fst (λ c, ditto_conditions c.1) (ditto_finish (Reg.a_generation app)) ditto_app_steps (app, l).

Definition ditto_app_deconstruct (app : Reg.Application) : O (ProcessOutcome Reg.Application) :=
  let! _ := delete_application ditto inject_token base code_display app in
  let! _ := delete_policy ditto inject_token base debug app in
  let app := app_with_finalizers (remove_finalizer DITTO_FINALIZER (Reg.a_finalizers app)) app in
  let! app := from_result (clear_ready app) in
  ret (PComplete (clear_ditto_status app)).

Definition ditto_app_eval (app : Reg.Application)
    : result (ReconcileState Reg.Application Reg.Application Reg.Application) ReconcileError :=
  eval_by_finalizer (has_label_flag "ditto" (Reg.a_labels app)) app DITTO_FINALIZER id id id.

Definition ditto_app_process (l : list (DCall DUrl)) (app : Reg.Application)
    : result (ProcessOutcome Reg.Application) ReconcileError :=
  reconcile ditto_app_eval (ditto_app_construct l) (λ app, (ditto_app_deconstruct app l).2) app.

Definition ditto_app_recover (message : string) (app : Reg.Application) : result Reg.Application unit :=
  ditto_recover (Reg.a_generation app) message app.

(** *** Devices *)

Definition ditto_device_steps (app : Reg.Application) : list (Step (Reg.Device * list (DCall DUrl))) := [
  has_finalizer (ensure_first (ensure_device_finalizer DITTO_FINALIZER));
  calling "CreateThing" (create_thing ditto inject_token base debug app)].

Definition ditto_device_construct (l : list (DCall DUrl)) (x : Reg.Application * Reg.Device)
    : result (ProcessOutcome Reg.Device) ReconcileError :=
  let '(app, device) := x in
  run_with fst (λ c, ditto_conditions c.1) (ditto_finish (Reg.d_generation device)) (ditto_device_steps app)
    (device, l).

Definition ditto_device_deconstruct (x : Reg.Application * Reg.Device) : O (ProcessOutcome Reg.Device) :=
  let '(app, device) := x in
  let! _ := delete_thing ditto inject_token base debug app device in
  let! device := from_result (clear_ready (clear_ditto_status device)) in
  ret (PComplete (device_with_finalizers (remove_finalizer DITTO_FINALIZER (Reg.d_finalizers device)) device)).

Definition ditto_device_eval (x : Reg.Application * Reg.Device)
    : result (ReconcileState Reg.Device (Reg.Application * Reg.Device) (Reg.Application * Reg.Device)) ReconcileError :=
  eval_by_finalizer (has_label_flag "ditto" (Reg.d_labels x.2)) x DITTO_FINALIZER id id snd.

Definition ditto_device_process (l : list (DCall DUrl)) (x : Reg.Application * Reg.Device)
    : result (ProcessOutcome Reg.Device) ReconcileError :=
  reconcile ditto_device_eval (ditto_device_construct l) (λ x, (ditto_device_deconstruct x l).2) x.

(** The generation is that of the application. *)
Definition ditto_device_recover (message : string) (x : Reg.Application * Reg.Device) : result Reg.Device unit :=
  ditto_recover (Reg.a_generation x.1) message x.2.
End Reconcilers.

(** ** What the operations achieve *)

Section Achieved.
Context `{T : Text} `{DittoSetup} `{DittoWeb}.
Context (ditto : list (DCall DUrl) → DCall DUrl → result DAnswer ReqwestError).
Context (inject_token : list (DCall DUrl) → Provider → result unit string).
Context (base : DUrl) (debug : bool) (code_display : Z → string).
Context (kafka : KafkaClientConfig).
Implicit Types l : list (DCall DUrl).

(** The command was posted after the calls [l], and answered with [r]. *)
Definition posted {R} (decode : Value → result R string) (command : DevopsCommand) l l' (r : R) : Prop :=
  ∃ url answer json, l' = l ++ [mkDCall HttpPost url DevopsProvider (Some (devops_json command))] ∧
    ditto l (mkDCall HttpPost url DevopsProvider (Some (devops_json command))) = Ok answer ∧
    da_json answer = Ok json ∧ decode json = Ok r ∧ ¬ (400 ≤ da_status answer < 600)%Z.

(** The request was sent, and its answer has a status with [ok]. *)
Definition requested (ok : Z → bool) (r : HttpMethod * string * option Value) l l' : Prop :=
  let '(method, path, body) := r in
  ∃ url answer, request_url base path = Ok url ∧ l' = l ++ [mkDCall method url AdminProvider body] ∧
    ditto l (mkDCall method url AdminProvider body) = Ok answer ∧ ok (da_status answer) = true.
Definition success_or_gone (code : Z) : bool := is_success_code code || (code =? 404)%Z.

Definition con_succeeded (r : ConnectivityResponse) : Prop := ∃ k e, last r = Some (k, e) ∧ is_2xx (cv_status e) = true.
Definition ns_succeeded (r : NamespaceResponse) : Prop := ∃ k e, last r = Some (k, e) ∧ is_2xx (ns_status e) = true.

Definition connection_gone (id : string) l l' : Prop :=
  ∃ r, posted decode_connectivity (connection_command (DeleteConnection id)) l l' r ∧
    (first_not_found r = true ∨ con_succeeded r).
Definition namespace_done (h : Headers) (p : PiggybackCommand) l l' : Prop :=
  ∃ r, posted decode_namespace (namespace_command h p) l l' r ∧ ns_succeeded r.

(** Modified; or, as there was none, created. *)
Definition connection_accepted (c : Connection) l l' : Prop :=
  (∃ r, posted decode_connectivity (connection_command (ModifyConnection c)) l l' r ∧
    first_not_found r = false ∧ con_succeeded r) ∨
  ∃ l1 r r', posted decode_connectivity (connection_command (ModifyConnection c)) l l1 r ∧
    first_not_found r = true ∧
    posted decode_connectivity (connection_command (CreateConnection c)) l1 l' r' ∧ con_succeeded r'.

Lemma reconciling_ok {A} (m : Traced (DCall DUrl) DittoError A) l l' a :
  reconciling m l = (l', Ok a) → m l = (l', Ok a).
Proof. unfold reconciling. destruct (m l) as [? []]; naive_solver. Qed.

Lemma connectivity_ok p l l' r :
  connectivity ditto inject_token base p l = (l', Ok r) → posted decode_connectivity (connection_command p) l l' r.
Proof. by intros ?%reconciling_ok%devops_ok. Qed.

Lemma eval_con_ok r u : eval_con_response code_display r = Ok u → con_succeeded r.
Proof. unfold eval_con_response, con_succeeded. destruct (last r) as [[k e]|]; [|done]. destruct (is_2xx _) eqn:?; naive_solver. Qed.

Lemma eval_ns_ok r u : eval_ns_response code_display r = Ok u → ns_succeeded r.
Proof. unfold eval_ns_response, ns_succeeded. destruct (last r) as [[k e]|]; [|done]. destruct (is_2xx _) eqn:?; naive_solver. Qed.

Lemma on_namespace_ok timeout h p l l' u :
  on_namespace ditto inject_token base code_display timeout h p l = (l', Ok u) → namespace_done h p l l'.
Proof.
  intros (l1 & r & Hr%reconciling_ok%devops_ok & [-> He%eval_ns_ok]%from_result_ok)%bind_ok. by exists r.
Qed.

Lemma create_connection_ok c l l' u :
  create_connection ditto inject_token base code_display c l = (l', Ok u) → connection_accepted c l l'.
Proof.
  intros (l1 & r & Hr%connectivity_ok & Hrun)%bind_ok.
  apply bind_ok in Hrun as (l2 & r' & Hr' & [-> He%eval_con_ok]%from_result_ok).
  destruct (first_not_found r) eqn:Hf.
  - right. exists l1, r, r'. apply connectivity_ok in Hr'. done.
  - left. injection Hr' as -> ->. by exists r'.
Qed.

Lemma delete_connection_ok id l l' u :
  delete_connection ditto inject_token base code_display id l = (l', Ok u) → connection_gone id l l'.
Proof.
  intros (l1 & r & Hr%connectivity_ok & Hrun)%bind_ok. destruct (first_not_found r) eqn:Hf.
  - injection Hrun as ->. exists r. eauto.
  - apply from_result_ok in Hrun as [-> He%eval_con_ok]. exists r. eauto.
Qed.

Lemma put_ok r l l' u : put ditto inject_token base debug r l = (l', Ok u) → requested is_success_code r l l'.
Proof.
  destruct r as [[m p] b]. intros (l1 & v & Hr%reconciling_ok%request_ok & [= -> _])%bind_ok. exact Hr.
Qed.

Lemma remove_ok r l l' u : remove ditto inject_token base debug r l = (l', Ok u) → requested success_or_gone r l l'.
Proof.
  destruct r as [[m p] b]. unfold remove, requested, success_or_gone.
  destruct (request _ _ _ _ _ _ l) as [l1 [v|e]] eqn:Hr.
  - intros [= -> _]. apply request_ok in Hr as (url & a & ? & ? & ? & Hs). exists url, a. by rw Hs.
  - destruct (is_not_found e) eqn:He; [|done]. intros [= -> _].
    destruct e as [| | |code|]; try done. apply Z.eqb_eq in He as ->.
    apply request_not_found in Hr as (url & a & ? & ? & ? & Hs). exists url, a. by rw Hs.
Qed.

Lemma create_application_ok app l l' u :
  create_application ditto inject_token base code_display kafka app l = (l', Ok u) →
  ∃ spec inbound l1, (∀ e, ditto_spec app ≠ Some (Err e)) ∧ spec = section_value (ditto_spec app) ∧
    inbound_connection_definition app (spec ≫= sp_ingress) kafka = Ok inbound ∧
    connection_accepted inbound l l1 ∧
    match spec ≫= sp_exporter with
    | Some exporter => ∃ c, outbound_connection_definition app exporter = Ok c ∧ connection_accepted c l1 l'
    | None => connection_gone (connection_id Outbound app) l1 l'
    end.
Proof.
  intros (l0 & spec & [-> Hspec]%from_result_ok & Hrun)%bind_ok.
  apply bind_ok in Hrun as (l1 & [] & Hin & Hrun).
  apply bind_ok in Hin as (l0 & inbound & [-> Hinb]%from_result_ok & Hc%create_connection_ok).
  exists spec, inbound, l1. split_and!; [by intros e Heq; rw Heq in Hspec| |done|done|].
  - by destruct (ditto_spec app) as [[]|]; simplify_eq/=.
  - destruct (spec ≫= sp_exporter) as [exporter|]; [|by eapply delete_connection_ok].
    apply bind_ok in Hrun as (l2 & c & [-> Hout]%from_result_ok & Hc'%create_connection_ok). eauto.
Qed.

(** The calls of a removal, up to the policy. *)
Lemma delete_application_ok app l l' u :
  delete_application ditto inject_token base code_display app l = (l', Ok u) →
  ∃ l1 l2 l3 l4, connection_gone (connection_id Inbound app) l l1 ∧ connection_gone (connection_id Outbound app) l1 l2 ∧
    namespace_done default_headers (BlockNamespace (Reg.a_name app)) l2 l3 ∧
    namespace_done (mkHeaders true true) (PurgeNamespace (Reg.a_name app)) l3 l4 ∧
    namespace_done default_headers (UnblockNamespace (Reg.a_name app)) l4 l'.
Proof.
  intros (l2 & [] & Hcon & Hrun)%bind_ok.
  apply bind_ok in Hcon as (l1 & [] & Hin%delete_connection_ok & Hout%delete_connection_ok).
  apply bind_ok in Hrun as (l3 & [] & Hblock%on_namespace_ok & Hrun).
  apply bind_ok in Hrun as (l4 & [] & Hpurge%on_namespace_ok & Hun%on_namespace_ok).
  by exists l1, l2, l3, l4.
Qed.

(** ** A failed purge *)

(** Whether the namespace was blocked by the calls and not unblocked since. *)
Definition ns_body (p : PiggybackCommand) : option Value := Some (devops_json (namespace_command default_headers p)).
Definition blocking (ns : string) (b : bool) (c : DCall DUrl) : bool :=
  if bool_decide (dc_body c = ns_body (BlockNamespace ns)) then true
  else if bool_decide (dc_body c = ns_body (UnblockNamespace ns)) then false else b.
Definition blocked (ns : string) l : bool := foldl (blocking ns) false l.

Lemma devops_calls {R} (decode : Value → result R string) timeout command l :
  let l' := (devops ditto inject_token base decode DevopsProvider timeout command l).1 in
  l' = l ∨ ∃ url, l' = l ++ [mkDCall HttpPost url DevopsProvider (Some (devops_json command))].
Proof.
  unfold devops, bind, from_result. destruct (durl_join _ _) as [url|]; [|by left]. simpl.
  unfold with_token. destruct (inject_token l _); [|by left]. simpl. right. eexists.
  unfold send_ditto, call. destruct (ditto l _) as [resp|]; [simpl|done].
  destruct (_ && _); [done|]. by destruct (da_json resp).
Qed.

Lemma on_namespace_calls timeout h p l :
  let l' := (on_namespace ditto inject_token base code_display timeout h p l).1 in
  l' = l ∨ ∃ url, l' = l ++ [mkDCall HttpPost url DevopsProvider (Some (devops_json (namespace_command h p)))].
Proof.
  unfold on_namespace, bind, reconciling.
  pose proof (devops_calls decode_namespace timeout (namespace_command h p) l) as Hc.
  by destruct (devops _ _ _ _ _ _ _ l) as [l1 [r|e]].
Qed.

Lemma blocked_snoc ns l c : blocked ns (l ++ [c]) = blocking ns (blocked ns l) c.
Proof. unfold blocked. by rw foldl_app. Qed.

(** When the namespace is blocked and the purge then fails, the removal ends with the
    namespace still blocked. *)
Theorem purge_failure_blocks app l l2 l3 l4 e :
  delete_connections ditto inject_token base code_display app l = (l2, Ok tt) →
  block_namespace ditto inject_token base code_display app l2 = (l3, Ok tt) →
  purge_namespace ditto inject_token base code_display app l3 = (l4, Err e) →
  delete_application ditto inject_token base code_display app l = (l4, Err e) ∧
  blocked (Reg.a_name app) l4 = true.
Proof.
  intros Hcon Hblock Hpurge. split.
  { unfold delete_application. rw (bind_run _ _ _ _ _ Hcon) (bind_run _ _ _ _ _ Hblock). by apply bind_err. }
  apply on_namespace_ok in Hblock as (r & (url & a & j & -> & _) & _).
  pose proof (on_namespace_calls (Some 20%Z) (mkHeaders true true) (PurgeNamespace (Reg.a_name app))
    (l2 ++ [mkDCall HttpPost url DevopsProvider (Some (devops_json (namespace_command default_headers (BlockNamespace (Reg.a_name app)))))]))
    as Hcalls.
  unfold purge_namespace in Hpurge. rw Hpurge in Hcalls. cbn [fst] in Hcalls.
  assert (Hb : ∀ l c, dc_body c = ns_body (BlockNamespace (Reg.a_name app)) → blocked (Reg.a_name app) (l ++ [c]) = true)
    by (intros; rw blocked_snoc; unfold blocking; by rewrite bool_decide_eq_true_2).
  destruct Hcalls as [->|[url' ->]]; [by apply Hb|]. by rw blocked_snoc Hb.
Qed.

(** A removal that succeeds leaves it open. *)
Theorem removal_unblocks app l l' :
  delete_application ditto inject_token base code_display app l = (l', Ok tt) → blocked (Reg.a_name app) l' = false.
Proof.
  intros (l1 & l2 & l3 & l4 & _ & _ & _ & _ & (r & (url & a & j & -> & _) & _))%delete_application_ok.
  rw blocked_snoc. unfold blocking. cbn [dc_body]. rewrite bool_decide_eq_false_2; [done|].
  by rewrite bool_decide_eq_true_2.
Qed.
End Achieved.

(** ** The reconcilers *)

(** Sections are not metadata. *)
Definition keeps_finalizers {R} `{StatusSections R} (finalizers : R → list string) : Prop :=
  (∀ cs r r', set_all_conditions cs r = Ok r' → finalizers r' = finalizers r) ∧
  ∀ r, finalizers (clear_ditto_status r) = finalizers r.

Lemma clear_ready_keeps {R} `{StatusSections R, DittoSetup} (finalizers : R → list string) r r' :
  keeps_finalizers finalizers → clear_ready r = Ok r' → finalizers r' = finalizers r.
Proof.
  intros [Hset _]. unfold clear_ready, update_section. destruct (all_conditions r) as [[cs|e]|]; simpl; [|done|].
  all: destruct (set_all_conditions _ r) eqn:Hs; simpl; [|done]; intros [= <-]; by eapply Hset.
Qed.

Lemma remove_finalizer_gone f l : f ∉ remove_finalizer f l.
Proof. unfold remove_finalizer. rw list_elem_of_filter. naive_solver. Qed.

Lemma calling_continue {Call R} name (f : R → Traced Call ReconcileError unit) c c' :
  run_step (calling name f) c = Ok (Continue c') → c'.1 = c.1 ∧ f c.1 c.2 = (c'.2, Ok tt).
Proof. destruct c as [r l]. simpl. destruct (f r l) as [l' [[]|e]]; naive_solver. Qed.

Lemma ensure_first_false {R X} (ensure : R → R * bool) (c c' : R * X) :
  ensure_first ensure c = (c', false) → ensure c.1 = (c'.1, false) ∧ c'.2 = c.2.
Proof. unfold ensure_first. destruct (ensure c.1). naive_solver. Qed.

Lemma ensure_device_finalizer_false f d d' :
  ensure_device_finalizer f d = (d', false) → d' = d ∧ f ∈ Reg.d_finalizers d.
Proof.
  unfold ensure_device_finalizer, ensure_finalizer. destruct (existsb _ _) eqn:Hex; [|done].
  intros [= <-]. split; [done|]. apply existsb_exists in Hex as (x & Hx & ->%string_eqb_eq).
  by apply list_elem_of_In.
Qed.

Section Reconciled.
Context `{T : Text} `{DittoSetup} `{DittoWeb} `{ConditionsLaws}.
Context `{!StatusSections Reg.Application, !StatusSections Reg.Device}.
Context (ditto : list (DCall DUrl) → DCall DUrl → result DAnswer ReqwestError).
Context (inject_token : list (DCall DUrl) → Provider → result unit string).
Context (base : DUrl) (debug : bool) (code_display : Z → string).
Context (kafka : KafkaClientConfig).
Implicit Types l : list (DCall DUrl).

(** C20: The finalizer of an application is removed only after six calls, in this order,
    that Ditto confirmed: both connections are gone, the namespace was blocked,
    purged and unblocked, and the policy is gone. *)
Theorem ditto_app_removed app l l' out :
  keeps_finalizers Reg.a_finalizers →
  ditto_app_deconstruct ditto inject_token base debug code_display app l = (l', Ok out) →
  (∃ app', out = PComplete app' ∧ DITTO_FINALIZER ∉ Reg.a_finalizers app') ∧
  ∃ l1 l2 l3 l4 l5,
    connection_gone ditto (connection_id Inbound app) l l1 ∧
    connection_gone ditto (connection_id Outbound app) l1 l2 ∧
    namespace_done ditto default_headers (BlockNamespace (Reg.a_name app)) l2 l3 ∧
    namespace_done ditto (mkHeaders true true) (PurgeNamespace (Reg.a_name app)) l3 l4 ∧
    namespace_done ditto default_headers (UnblockNamespace (Reg.a_name app)) l4 l5 ∧
    requested ditto base success_or_gone (policy_request (PolicyDelete (policy_id app))) l5 l' ∧
    length l' = length l + 6.
Proof.
  intros Hk (l5 & [] & Happ%delete_application_ok & Hrun)%bind_ok.
  apply bind_ok in Hrun as (l6 & [] & Hpol%remove_ok & Hrun).
  apply bind_ok in Hrun as (l7 & app' & [-> Hclear]%from_result_ok & [= -> <-]). split.
  - eexists. split; [done|]. rw (proj2 Hk) (clear_ready_keeps _ _ _ Hk Hclear). apply remove_finalizer_gone.
  - destruct Happ as (l1 & l2 & l3 & l4 & Hc1 & Hc2 & Hc3 & Hc4 & Hc5). exists l1, l2, l3, l4, l5. split_and!; try done.
    destruct Hc1 as (? & (? & ? & ? & -> & _) & _), Hc2 as (? & (? & ? & ? & -> & _) & _),
      Hc3 as (? & (? & ? & ? & -> & _) & _), Hc4 as (? & (? & ? & ? & -> & _) & _),
      Hc5 as (? & (? & ? & ? & -> & _) & _), Hpol as (? & ? & _ & -> & _). rw !length_app /=. lia.
Qed.

(** The same for a device and its thing. *)
Theorem ditto_device_removed app device l l' out :
  ditto_device_deconstruct ditto inject_token base debug (app, device) l = (l', Ok out) →
  (∃ device', out = PComplete device' ∧ DITTO_FINALIZER ∉ Reg.d_finalizers device') ∧
  requested ditto base success_or_gone (thing_request (ThingDelete (thing_id app device))) l l'.
Proof.
  intros (l1 & [] & Hth%remove_ok & Hrun)%bind_ok.
  apply bind_ok in Hrun as (l2 & d' & [-> Hclear]%from_result_ok & [= -> <-]). split; [|done].
  eexists. split; [done|]. apply remove_finalizer_gone.
Qed.

(** An application is ready only if its finalizer is stored, Ditto accepted the
    inbound connection, the outbound one was accepted or is gone, as configured, and
    the policy is in place. *)
Theorem ditto_app_ready_sound app l cs st :
  cs_status (ready_state (update CONDITION_RECONCILED st (progress_conditions
    (run (ditto_app_steps ditto inject_token base debug code_display kafka) cs (app, l))))) = Some true →
  DITTO_FINALIZER ∈ Reg.a_finalizers app ∧
  ∃ spec inbound l1 l2 l3, spec = section_value (ditto_spec app) ∧
    inbound_connection_definition app (spec ≫= sp_ingress) kafka = Ok inbound ∧
    connection_accepted ditto inbound l l1 ∧
    match spec ≫= sp_exporter with
    | Some exporter => ∃ c, outbound_connection_definition app exporter = Ok c ∧ connection_accepted ditto c l1 l2
    | None => connection_gone ditto (connection_id Outbound app) l1 l2
    end ∧
    requested ditto base is_success_code (policy_request (PolicyCreateOrUpdate (policy_of app))) l2 l3.
Proof.
  intros (c' & cs' & Hrun)%ready_complete; [|by_decide|by_decide].
  apply run_cons_complete in Hrun as ([a1 l0] & cs1 & Hfin & Hrun).
  apply has_finalizer_continue, ensure_first_false in Hfin as [[Ha Hin]%ensure_app_finalizer_false Hl].
  simpl in Ha, Hin, Hl. subst a1 l0.
  apply run_cons_complete in Hrun as ([a2 l2] & cs2 & [Ha Hcreate]%calling_continue & Hrun).
  simpl in Ha, Hcreate. subst a2.
  apply run_cons_complete in Hrun as ([a3 l3] & cs3 & [_ Hpol]%calling_continue & _).
  apply create_application_ok in Hcreate as (spec & inbound & l1 & _ & ? & ? & ? & ?).
  apply put_ok in Hpol. split; [done|]. by exists spec, inbound, l1, l2, l3.
Qed.

Theorem ditto_device_ready_sound app device l cs st :
  cs_status (ready_state (update CONDITION_RECONCILED st (progress_conditions
    (run (ditto_device_steps ditto inject_token base debug app) cs (device, l))))) = Some true →
  DITTO_FINALIZER ∈ Reg.d_finalizers device ∧
  ∃ l', requested ditto base is_success_code (thing_request (ThingCreateOrUpdate (thing_of app device))) l l'.
Proof.
  intros (c' & cs' & Hrun)%ready_complete; [|by_decide|by_decide].
  apply run_cons_complete in Hrun as ([a1 l0] & cs1 & Hfin & Hrun).
  apply has_finalizer_continue, ensure_first_false in Hfin as [[Ha Hin]%ensure_device_finalizer_false Hl].
  simpl in Ha, Hin, Hl. subst a1 l0.
  apply run_cons_complete in Hrun as ([a2 l2] & cs2 & [_ Hput]%calling_continue & _).
  apply put_ok in Hput. eauto.
Qed.

(** Every reconciliation of a device replaces its thing by one without attributes
    and features. *)
Theorem thing_is_replaced app device l l' :
  create_thing ditto inject_token base debug app device l = (l', Ok tt) →
  ∃ url, l' = l ++ [mkDCall HttpPut url AdminProvider (Some (json_object
    [("thingId", Str (Reg.a_name app +:+ ":" +:+ Reg.d_name device));
     ("policyId", Str (Reg.a_name app +:+ ":default"))]))].
Proof. intros (url & a & _ & -> & _)%put_ok. by exists url. Qed.

(** The generation a failed device is said to have been observed at is that of its
    application. *)
Theorem device_recover_generation message app device device' :
  (∀ s d d', set_ditto_status s d = Ok d' → ditto_status (d' : Reg.Device) = Some (Ok s)) →
  (∀ cs (d d' : Reg.Device), set_all_conditions cs d = Ok d' → ditto_status d' = ditto_status d) →
  ditto_device_recover message (app, device) = Ok device' →
  ∃ cs, ditto_status device' = Some (Ok (mkDittoStatus (Reg.a_generation app) cs)).
Proof.
  intros Hset Hkeep. unfold ditto_device_recover, ditto_recover, ditto_finish, update_section. cbn [fst snd].
  set (cs := update CONDITION_RECONCILED _ _). intros Hrec. exists cs.
  destruct (ditto_status device) as [[s|e]|]; simpl in Hrec; [|done|].
  all: destruct (set_ditto_status _ device) as [d|] eqn:Hs; simpl in Hrec; [|done]; apply Hset in Hs.
  all: destruct (all_conditions d) as [[c|e]|]; simpl in Hrec; [|done|].
  all: destruct (set_all_conditions _ d) eqn:Hc; simpl in Hrec; [|done]; injection Hrec as <-; rw (Hkeep _ _ _ Hc).
  all: done.
Qed.
End Reconciled.

(** ** Confinement *)

Lemma collect_elem {A B} (f : A → result B ReconcileError) l bs b :
  collect f l = Ok bs → b ∈ bs → ∃ a, a ∈ l ∧ f a = Ok b.
Proof.
  revert bs. induction l as [|a l IH]; intros bs; simpl.
  - intros [= <-] ?%elem_of_nil. done.
  - intros (b0 & Hb0 & (bs0 & Hbs0 & [= <-])%rbind_ok_inv)%rbind_ok_inv [->|Hin]%elem_of_cons.
    + exists a. split; [by left|done].
    + destruct (IH bs0) as (a' & ? & ?); [done..|]. exists a'. split; [by right|done].
Qed.

Section Confined.
Context `{T : Text} `{DittoSetup}.

(** The inbound connection of an application reads a topic of events exactly if it is
    its own, and lets in only what concerns the things of its namespace. *)
Theorem ditto_inbound_confined `{!TextLaws T} app ingress kafka c b :
  inbound_connection_definition app ingress kafka = Ok c →
  has_char "\" (Reg.a_name app) = false → has_char "\" b = false →
  (md5_hex (Reg.a_name app) = md5_hex b → Reg.a_name app = b) →
  ((∃ s, s ∈ cn_sources c ∧ make_topic KEvents b ∈ so_addresses s) ↔ Reg.a_name app = b) ∧
  (∀ s, s ∈ cn_sources c → en_filters (so_enforcement s) = [Reg.a_name app +:+ ":{{ thing:name }}"]) ∧
  cn_targets c = [].
Proof.
  intros (o & _ & [= <-])%rbind_ok_inv Ha Hb Hmd5. cbn [cn_sources cn_targets]. split_and!; [|by intros s ->%list_elem_of_singleton|done].
  split.
  - intros (s & ->%list_elem_of_singleton & Heq%list_elem_of_singleton). by eapply events_topic_inj.
  - intros <-. eexists. split; by left.
Qed.

(** Everything the outbound connection subscribes to is restricted to the namespace of
    the application, and no address has more slashes than the one before the ID. *)
Theorem ditto_outbound_confined app exporter c t :
  outbound_connection_definition app exporter = Ok c → t ∈ cn_targets c →
  (∃ topic, has_char "/" topic = false ∧ ta_address t = topic +:+ "/{{ thing:id }}") ∧
  (∀ topic, topic ∈ ta_topics t → ∃ rest query, "namespace" ∉ rest.*1 ∧
    urlencode (("namespace", Reg.a_name app) :: rest) = Ok query ∧ topic = "_/_/things/twin/events?" +:+ query) ∧
  cn_sources c = [].
Proof.
  intros (targets & Ht & (o & _ & [= <-])%rbind_ok_inv)%rbind_ok_inv Hin. cbn [cn_targets cn_sources] in *.
  destruct (collect_elem _ _ _ _ Ht Hin) as (target & _ & Htarget).
  unfold outbound_connection_target in Htarget. destruct (has_char "/" (et_topic target)) eqn:Hslash; [done|].
  apply rbind_ok_inv in Htarget as (topics & Htopics & Htarget).
  destruct (mapping_definitions_outbound (et_mode target)) as [pm hm]. injection Htarget as <-. cbn [ta_address ta_topics].
  split_and!; [by eexists| |done]. intros topic Htopic.
  destruct (collect_elem _ _ _ _ Htopics Htopic) as ([extra filter] & _ & (q & Hq & [= <-])%rbind_ok_inv).
  unfold subscription_query in Hq. simpl in Hq.
  match type of Hq with context [urlencode (_ :: ?r)] => exists r, q; destruct (urlencode (_ :: r)) eqn:Hu end; [|done].
  injection Hq as ->. split_and!; [|done..]. destruct extra, filter; simpl; set_solver.
Qed.
End Confined.

(** The two connections of an application, and those of different applications, have
    different IDs; [kafka-drogue-] and [drogue-out-] differ in the first character. *)
Theorem connection_id_inj t t' app app' :
  connection_id t app = connection_id t' app' ↔ t = t' ∧ Reg.a_name app = Reg.a_name app'.
Proof.
  split; [|by intros [-> Hn]; destruct t'; simpl; rw Hn].
  destruct t, t'; simpl; intros Heq; try done; split; try done.
  - by apply (str_app_inj "kafka-drogue-" "kafka-drogue-") in Heq as [_ ?].
  - by apply (str_app_inj "drogue-out-" "drogue-out-") in Heq as [_ ?].
Qed.

(** The tests of the source. *)
Example drop_dot_colon_test : drop_dot_colon "kafka.svc.:9092" = "kafka.svc:9092".
Proof. reflexivity. Qed.
