(* ===== verification/DeviceState.v ===== *)
(** * The device state service

    [device-state-service/src/service/postgres.rs]: which endpoint session a
    device is connected to.  An endpoint opens a session and keeps it alive
    with pings; it creates a state when a device connects and deletes it when
    the device disconnects, with a token of its own.  The states of sessions
    that stopped pinging are pruned.  Connecting and disconnecting sends
    connection events (and the last will) downstream. *)

From S2P Require Import Prelude Store.

(** ** Data *)

Record LastWillTestament := mkLwt {
  lwt_channel : string;
  lwt_payload : string;
  lwt_content_type : option string;
}.

Record DeviceStateData := mkState {
  ds_device_uid : string;
  ds_endpoint : string;
  ds_lwt : option LastWillTestament;
}.

(** A row of [states]; DATA is [None] when it is NULL or cannot be decoded,
    which the code treats alike. *)
Record StateRow := mkStateRow {
  st_session : Uuid;
  st_token : string;
  st_created : Z;
  st_lost : bool;
  st_data : option DeviceStateData;
}.

(** [states] by application and device, [sessions] with their last ping;
    [states.SESSION] references [sessions.ID], without cascade. *)
Record StateDb := mkStateDb {
  sessions : gmap Uuid Z;
  states : gmap (string * string) StateRow;
}.

Inductive StateError : Type :=
| NotInitialized
| ApplicationNotFound
| StateInternal (msg : string)
| StateDatabase
| Registry
| PublishFailed.

Record PublishId := mkPublishId { pi_name : string; pi_uid : option string }.

(** A message for the downstream sender. *)
Record Publish := mkPublish {
  pb_application : string;
  pb_device : PublishId;
  pb_channel : string;
  pb_type : option string;
  pb_content_type : option string;
  pb_body : string;
}.

Inductive PublishResult : Type :=
| Accepted
| Rejected
| QueueFull
| SpecError
| OtherError.

#[global] Instance PublishResult_eq_dec : EqDecision PublishResult.
Proof. solve_decision. Defined.

Definition CONNECTION_TYPE_EVENT : string := "io.drogue.connection.v1".

(** [serde_json::to_vec(&ConnectionEvent { connected })] *)
Definition quote : string := String "034"%char "".
Definition connection_body (connected : bool) : string :=
  "{" +:+ quote +:+ "connected" +:+ quote +:+ ":" +:+ (if connected then "true" else "false") +:+ "}".

Section Service.
(** [self.timeout], the text to UUID cast of the database, the device
    registry and the downstream sender. *)
Context (timeout : Z) (pg_uuid : string → option Uuid).
Context (lookup : string → result (option unit) unit).
Context (publish : Publish → PublishResult).

(** Sending may fail; what was handed to the sender stays sent. *)
Definition Send (A : Type) : Type := list Publish * result A StateError.

Definition send_bind {A B} (m : Send A) (k : A → Send B) : Send B :=
  match m with
  | (l, Ok a) => let '(l', r) := k a in (l ++ l', r)
  | (l, Err e) => (l, Err e)
  end.

Definition send_event (p : Publish) : Send unit :=
  ([p], match publish p with
        | SpecError => Ok tt
        | OtherError => Err PublishFailed
        | Accepted => Ok tt
        | Rejected => Err (StateInternal "Unable to send event: Ok(Rejected)")
        | QueueFull => Err (StateInternal "Unable to send event: Ok(QueueFull)")
        end).

Definition send_connection_event (application : string) (device : PublishId) (connected : bool)
    : Send unit :=
  send_event (mkPublish application device "connection" (Some CONNECTION_TYPE_EVENT)
    (Some "application/json") (connection_body connected)).

Definition send_lwt_event (application : string) (device : PublishId) (lwt : LastWillTestament)
    : Send unit :=
  send_event (mkPublish application device (lwt_channel lwt) None (lwt_content_type lwt)
    (lwt_payload lwt)).

Definition send_disconnect_from_delete (application device : string)
    (state : option DeviceStateData) (skip_lwt : bool) : Send unit :=
  match lookup application with
  | Err _ => ([], Err Registry)
  | Ok None => ([], Ok tt)
  | Ok (Some _) =>
      let device := mkPublishId device (ds_device_uid <$> state) in
      send_bind
        (if skip_lwt then ([], Ok tt)
         else match state ≫= ds_lwt with
              | Some lwt => send_lwt_event application device lwt
              | None => ([], Ok tt)
              end)
        (λ _, send_connection_event application device false)
  end.

(** Each operation returns the database after it, what it handed to the
    sender, and its result; a failure before the commit rolls back. *)
Definition Op (A : Type) : Type := StateDb * list Publish * result A StateError.

(** [init]; [session] is the new UUID. *)
Definition init (now : Z) (session : Uuid) (db : StateDb) : Op Z :=
  match sessions db !! session with
  | Some _ => (db, [], Err StateDatabase)
  | None =>
      (mkStateDb (<[session := now]> (sessions db)) (states db), [], Ok (now + timeout)%Z)
  end.

Inductive CreateResponse : Type := Created | Occupied.

Definition create (now : Z) (session application device token : string)
    (state : DeviceStateData) (db : StateDb) : Op CreateResponse :=
  match lookup application with
  | Err _ => (db, [], Err Registry)
  | Ok None => (db, [], Err ApplicationNotFound)
  | Ok (Some _) =>
      match pg_uuid session with
      | None => (db, [], Err StateDatabase)
      | Some session =>
          match states db !! (application, device) with
          | Some row =>
              let row := mkStateRow (st_session row) (st_token row) (st_created row) true
                (st_data row) in
              (mkStateDb (sessions db) (<[(application, device) := row]> (states db)), [],
               Ok Occupied)
          | None =>
              match sessions db !! session with
              | None => (db, [], Err StateDatabase)
              | Some _ =>
                  let row := mkStateRow session token now false (Some state) in
                  match send_connection_event application
                    (mkPublishId device (Some (ds_device_uid state))) true with
                  | (sent, Ok _) =>
                      (mkStateDb (sessions db) (<[(application, device) := row]> (states db)),
                       sent, Ok Created)
                  | (sent, Err e) => (db, sent, Err e)
                  end
              end
          end
      end
  end.

Definition delete (session application device token : string) (skip_lwt : bool) (db : StateDb)
    : Op unit :=
  match pg_uuid session with
  | None => (db, [], Err StateDatabase)
  | Some session =>
      match states db !! (application, device) with
      | Some row =>
          if (st_session row =? session)%Z && string_eqb (st_token row) token then
            match send_disconnect_from_delete application device (st_data row) skip_lwt with
            | (sent, Ok _) =>
                (mkStateDb (sessions db) (base.delete (application, device) (states db)), sent,
                 Ok tt)
            | (sent, Err e) => (db, sent, Err e)
            end
          else (db, [], Ok tt)
      | None => (db, [], Ok tt)
      end
  end.

(** The lost devices of a session, in the order of the table. *)
Definition lost_ids (session : Uuid) (db : StateDb) : list (string * string) :=
  (map_to_list (filter (λ '(_, row), st_session row = session ∧ st_lost row = true)
     (states db))).*1.

Definition ping (now : Z) (session : string) (db : StateDb) : Op (Z * list (string * string))%type :=
  match pg_uuid session with
  | None => (db, [], Err StateDatabase)
  | Some session =>
      match sessions db !! session with
      | Some last_ping =>
          if (now <? last_ping + timeout)%Z then
            let db := mkStateDb (<[session := now]> (sessions db)) (states db) in
            (db, [], Ok ((now + timeout)%Z, lost_ids session db))
          else (db, [], Err NotInitialized)
      | None => (db, [], Err NotInitialized)
      end
  end.

Definition get (application device : string) (db : StateDb) : option (DeviceStateData * Z) :=
  match states db !! (application, device) with
  | Some row =>
      if negb (st_lost row) then (λ state, (state, st_created row)) <$> st_data row else None
  | None => None
  end.

(** ** Pruning *)

(** The loop over the deleted rows of a session. *)
Fixpoint send_disconnects (rows : list ((string * string) * StateRow)) : Send unit :=
  match rows with
  | [] => ([], Ok tt)
  | ((application, device), row) :: rest =>
      send_bind (send_disconnect_from_delete application device (st_data row) false)
        (λ _, send_disconnects rest)
  end.

Definition prune_session (id : Uuid) (db : StateDb) : Op unit :=
  let gone := filter (λ '(_, row), st_session row = id) (states db) in
  match send_disconnects (map_to_list gone) with
  | (sent, Ok _) =>
      (mkStateDb (base.delete id (sessions db))
         (filter (λ '(_, row), st_session row ≠ id) (states db)), sent, Ok tt)
  | (sent, Err e) => (db, sent, Err e)
  end.

(** The expired session that pinged last the longest ago, among those that no other
    transaction has [locked]: FOR UPDATE SKIP LOCKED. *)
Definition older (best : option (Uuid * Z)) (s : Uuid * Z) : option (Uuid * Z) :=
  match best with
  | None => Some s
  | Some b => if (s.2 <? b.2)%Z then Some s else best
  end.

Definition next_expired (now : Z) (locked : Uuid → bool) (db : StateDb) : option (Uuid * Z) :=
  foldl older None (filter (λ s, (s.2 + timeout <= now)%Z ∧ locked s.1 = false)
    (map_to_list (sessions db))).

(** [prune] from its [i]-th round on; [nows i] is the time of that round and [locked i] tells
    the sessions locked by others then, [fuel] bounds the rounds. *)
Fixpoint prune (nows : nat → Z) (locked : nat → Uuid → bool) (fuel i : nat) (db : StateDb)
    : option (Op unit) :=
  match fuel with
  | 0 => None
  | S fuel =>
      match next_expired (nows i) (locked i) db with
      | None => Some (db, [], Ok tt)
      | Some (id, _) =>
          match prune_session id db with
          | (db, sent, Ok _) =>
              match prune nows locked fuel (S i) db with
              | Some (db, sent', r) => Some (db, sent ++ sent', r)
              | None => None
              end
          | (db, sent, Err e) => Some (db, sent, Err e)
          end
      end
  end.

(** ** Facts *)

(** The foreign key: every state belongs to an open session. *)
Definition state_db_ok (db : StateDb) : Prop :=
  map_Forall (λ _ row, is_Some (sessions db !! st_session row)) (states db).

Lemma older_fold l best s :
  foldl older best l = Some s →
  (best = Some s ∨ s ∈ l).
Proof.
  revert best. induction l as [|x l IH]; intros best Hf; simpl in Hf; [by left|].
  apply IH in Hf as [Hf|Hf]; [|right; by right]. unfold older in Hf. repeat case_match; simplify_eq;
    [right; by left|by left|right; by left].
Qed.

Lemma older_fold_none l best : foldl older best l = None → best = None ∧ l = [].
Proof.
  revert best. induction l as [|x l IH]; intros best Hf; simpl in Hf; [done|].
  apply IH in Hf as [Hb _]. unfold older in Hb. repeat case_match; done.
Qed.

Lemma next_expired_some now locked db id ts :
  next_expired now locked db = Some (id, ts) →
  sessions db !! id = Some ts ∧ (ts + timeout ≤ now)%Z ∧ locked id = false.
Proof.
  intros Hn. apply older_fold in Hn as [?|Hin]; [done|].
  apply list_elem_of_filter in Hin as [Hts Hin%elem_of_map_to_list]. done.
Qed.

Lemma next_expired_none now locked db id ts :
  next_expired now locked db = None → sessions db !! id = Some ts →
  (now < ts + timeout)%Z ∨ locked id = true.
Proof.
  intros Hn Hs. apply older_fold_none in Hn as [_ Hnil].
  destruct (locked id) eqn:Hl; [by right|left].
  destruct (decide (ts + timeout ≤ now)%Z) as [Hle|]; [|lia].
  assert (Hin : (id, ts) ∈ filter (λ s, (s.2 + timeout <= now)%Z ∧ locked s.1 = false)
    (map_to_list (sessions db))).
  { apply list_elem_of_filter. split; [done|]. by apply elem_of_map_to_list. }
  rw Hnil in Hin. by apply elem_of_nil in Hin.
Qed.

(** The result of pruning a session. *)
Lemma prune_session_ok id db db' sent :
  prune_session id db = (db', sent, Ok tt) →
  db' = mkStateDb (base.delete id (sessions db))
    (filter (λ '(_, row), st_session row ≠ id) (states db)).
Proof. unfold prune_session. intros Hp. by destruct (send_disconnects _) as [? [|]]; simplify_eq. Qed.

Lemma prune_session_db_ok id db db' sent r :
  state_db_ok db → prune_session id db = (db', sent, r) → state_db_ok db'.
Proof.
  intros Hok Hp. destruct r as [[]|].
  - apply prune_session_ok in Hp as ->. intros k row Hk. simpl in *.
    apply map_lookup_filter_Some in Hk as [Hk Hne]. rw lookup_delete_ne //. by apply (Hok k).
  - unfold prune_session in Hp. destruct (send_disconnects _) as [? [|]]; by simplify_eq.
Qed.

Lemma prune_session_err id db db' sent e : prune_session id db = (db', sent, Err e) → db' = db.
Proof. unfold prune_session. intros Hp. by destruct (send_disconnects _) as [? [|]]; simplify_eq. Qed.

(** The disconnect event of a state that is removed. *)
Definition disconnected (k : string * string) (row : StateRow) : Publish :=
  mkPublish k.1 (mkPublishId k.2 (ds_device_uid <$> st_data row)) "connection"
    (Some CONNECTION_TYPE_EVENT) (Some "application/json") (connection_body false).

Lemma send_bind_ok {A B} (m : Send A) (k : A → Send B) l b :
  send_bind m k = (l, Ok b) → ∃ l1 a l2, m = (l1, Ok a) ∧ k a = (l2, Ok b) ∧ l = l1 ++ l2.
Proof.
  unfold send_bind. destruct m as [l1 [a|e]]; [|done]. destruct (k a) as [l2 r] eqn:Hk.
  intros. simplify_eq. by exists l1, a, l2.
Qed.

Lemma send_disconnects_sent rows sent k row :
  send_disconnects rows = (sent, Ok tt) → (k, row) ∈ rows → lookup k.1 = Ok (Some tt) →
  disconnected k row ∈ sent.
Proof.
  revert sent. induction rows as [|[[a d] r] rows IH]; intros sent Hs Hin Hl; [by apply elem_of_nil in Hin|].
  cbn [send_disconnects] in Hs. apply send_bind_ok in Hs as (l1 & [] & l2 & H1 & H2 & ->).
  apply elem_of_app. apply elem_of_cons in Hin as [[= -> ->]|Hin]; [left|right; by apply IH].
  simpl in Hl. unfold send_disconnect_from_delete in H1. rw Hl in H1.
  apply send_bind_ok in H1 as (l3 & ? & l4 & _ & H4 & ->). apply elem_of_app. right.
  unfold send_connection_event, send_event in H4. simplify_eq. by left.
Qed.

Lemma prune_total nows locked fuel i db :
  size (sessions db) < fuel → ∃ r, prune nows locked fuel i db = Some r.
Proof.
  revert i db. induction fuel as [|fuel IH]; intros i db Hf; [lia|]. simpl.
  destruct (next_expired (nows i) (locked i) db) as [[id ts]|] eqn:Hn; [|eauto].
  destruct (prune_session id db) as [[db1 sent] [[]|e]] eqn:Hp; [|eauto].
  apply prune_session_ok in Hp as ->. apply next_expired_some in Hn as [Hs _].
  assert (Hsz : size (sessions db) ≠ 0) by
    (apply map_size_non_empty_iff; intros Hz; by rw Hz lookup_empty in Hs).
  destruct (IH (S i) (mkStateDb (base.delete id (sessions db))
    (filter (λ '(_, row), st_session row ≠ id) (states db)))) as [[[db2 sent2] r2] ->]; [|eauto].
  simpl. rw map_size_delete_Some; [by rw Hs|]. lia.
Qed.

(** What the rounds [i] to [j] did to a database: a session is gone if it was expired and not
    locked at one of the rounds before [j], and with it go its states, whose disconnection was
    sent; the others are as they were. *)
Record pruned (nows : nat → Z) (locked : nat → Uuid → bool) (i j : nat)
    (db db' : StateDb) (sent : list Publish) : Prop := mkPruned {
  pruned_old id ts : sessions db' !! id = Some ts → sessions db !! id = Some ts;
  pruned_gone id ts : sessions db !! id = Some ts → sessions db' !! id = None →
    ∃ n, i ≤ n < j ∧ (ts + timeout ≤ nows n)%Z ∧ locked n id = false;
  pruned_states k row : states db' !! k = Some row ↔
    states db !! k = Some row ∧
    (sessions db !! st_session row = None ∨ is_Some (sessions db' !! st_session row));
  pruned_told k row : states db !! k = Some row → states db' !! k = None →
    lookup k.1 = Ok (Some tt) → disconnected k row ∈ sent;
}.

Lemma pruned_refl nows locked i j db sent : pruned nows locked i j db db sent.
Proof.
  split; [done|congruence| |congruence].
  intros k row. split; [|naive_solver]. intros Hk. split; [done|].
  destruct (sessions db !! st_session row) eqn:E; [by right; eexists|by left].
Qed.

Lemma pruned_round nows locked i j db id ts db1 sent db' sent' :
  next_expired (nows i) (locked i) db = Some (id, ts) → prune_session id db = (db1, sent, Ok tt) →
  i < j → pruned nows locked (S i) j db1 db' sent' → pruned nows locked i j db db' (sent ++ sent').
Proof.
  intros Hn Hps Hj [Hold Hgone Hst Htold]. pose proof Hps as Hps'. apply next_expired_some in Hn as (Hid & Hexp & Hl).
  apply prune_session_ok in Hps as ->. simpl in *.
  assert (Hno : sessions db' !! id = None).
  { apply eq_None_not_Some. intros [x Hx]. apply Hold in Hx. by rw lookup_delete_eq in Hx. }
  split.
  - intros id' ts' Hid'. apply Hold in Hid'. by apply lookup_delete_Some in Hid' as [_ ?].
  - intros id' ts' Hid' Hid0. destruct (decide (id' = id)) as [->|Hne].
    + exists i. simplify_eq. split_and!; [lia..|done|done].
    + destruct (Hgone id' ts') as (n & ? & ?); [by rw lookup_delete_ne|done|]. exists n. split; [lia|done].
  - intros k row. rw Hst map_lookup_filter_Some. destruct (decide (st_session row = id)) as [->|Hne].
    + rw Hid Hno lookup_delete_eq. split; [naive_solver|]. intros (_ & [?|[? ?]]); done.
    + rw lookup_delete_ne //. naive_solver.
  - intros k row Hk Hk' Hlk. apply elem_of_app. destruct (decide (st_session row = id)) as [Heq|Hne].
    + left. unfold prune_session in Hps'. destruct (send_disconnects _) as [l [[]|]] eqn:Hs; simplify_eq.
      eapply send_disconnects_sent; [exact Hs| |done]. by apply elem_of_map_to_list, map_lookup_filter_Some.
    + right. apply Htold; [|done..]. by apply map_lookup_filter_Some.
Qed.

Lemma prune_effect nows locked fuel i db db' sent r :
  prune nows locked fuel i db = Some (db', sent, r) →
  ∃ j, i ≤ j < i + fuel ∧ pruned nows locked i j db db' sent ∧
    (r = Ok tt → ∀ id ts, sessions db' !! id = Some ts →
       (nows j < ts + timeout)%Z ∨ locked j id = true).
Proof.
  revert i db db' sent. induction fuel as [|fuel IH]; intros i db db' sent Hp; [done|].
  simpl in Hp. destruct (next_expired (nows i) (locked i) db) as [[id ts]|] eqn:Hn.
  - destruct (prune_session id db) as [[db1 sent1] [[]|e]] eqn:Hps.
    + destruct (prune nows locked fuel (S i) db1) as [[[db2 sent2] r2]|] eqn:Hp2; simplify_eq.
      apply IH in Hp2 as (j & Hj & Hpr & Hleft). exists j. split_and!; [lia..| |done].
      eapply pruned_round; [done..|lia|done].
    + simplify_eq. apply prune_session_err in Hps as ->. exists i. split_and!; [lia..|apply pruned_refl|done].
  - simplify_eq. exists i. split_and!; [lia..|apply pruned_refl|].
    intros _ id ts. by apply next_expired_none.
Qed.

(** C32: pruning ends, after at most one round per session and one more.  Whether or not it
    succeeds, a session is gone only if it was expired, and not locked by another transaction,
    at one of the rounds; every other session is as it was, and exactly the states of the
    sessions that are left are left.  For every state that is removed, of an application the
    registry knows, the disconnect event was handed to the sender.  When it succeeds, the
    sessions that are left were not expired at the last round, or locked. *)
Theorem prune_correct nows locked db :
  state_db_ok db →
  ∃ db' sent r j, prune nows locked (S (size (sessions db))) 0 db = Some (db', sent, r) ∧
    j ≤ size (sessions db) ∧
    (∀ id ts, sessions db' !! id = Some ts → sessions db !! id = Some ts) ∧
    (∀ id ts, sessions db !! id = Some ts →
       sessions db' !! id = Some ts ∨
       ∃ n, n < j ∧ (ts + timeout ≤ nows n)%Z ∧ locked n id = false) ∧
    (∀ k row, states db' !! k = Some row ↔
       states db !! k = Some row ∧ is_Some (sessions db' !! st_session row)) ∧
    (∀ k row, states db !! k = Some row → states db' !! k = None → lookup k.1 = Ok (Some tt) →
       disconnected k row ∈ sent) ∧
    (r = Ok tt → ∀ id ts, sessions db' !! id = Some ts →
       (nows j < ts + timeout)%Z ∨ locked j id = true).
Proof.
  intros Hok. destruct (prune_total nows locked (S (size (sessions db))) 0 db) as [[[db' sent] r] Hp]; [lia|].
  pose proof (prune_effect _ _ _ _ _ _ _ _ Hp) as (j & Hj & [Hold Hgone Hst Htold] & Hleft).
  exists db', sent, r, j. split_and!; [done|lia|done| | |done|done].
  - intros id ts Hid. destruct (sessions db' !! id) as [ts'|] eqn:Hid'.
    + left. apply Hold in Hid'. congruence.
    + right. destruct (Hgone id ts Hid Hid') as (n & ? & ?). exists n. split; [lia|done].
  - intros k row. rw Hst. split; [|naive_solver]. intros [Hk [Hno|?]]; [|done].
    destruct (Hok k row Hk) as [x Hx]. congruence.
Qed.

(** A session is either alive or expired: at any time exactly one of
    pinging it and pruning it is possible, and a ping reports exactly the
    devices of the session that were taken over. *)
Theorem ping_xor_prune now session id ts db :
  pg_uuid session = Some id → sessions db !! id = Some ts →
  ((∃ e l, (ping now session db).2 = Ok (e, l) ∧ e = (now + timeout)%Z ∧
      ∀ k, k ∈ l ↔ ∃ row, states db !! k = Some row ∧ st_session row = id ∧ st_lost row = true)
   ∧ (now < ts + timeout)%Z)
  ∨ ((ping now session db).2 = Err NotInitialized ∧ (ts + timeout ≤ now)%Z ∧
     is_Some (next_expired now (λ _, false) db)).
Proof.
  intros Hu Hs. unfold ping. rw Hu Hs. destruct (Z.ltb_spec now (ts + timeout)) as [Hlt|Hge].
  - left. split; [|done]. do 2 eexists. split; [done|]. split; [done|].
    intros k. unfold lost_ids. simpl. rw list_elem_of_fmap. split.
    + intros ([k' row] & -> & Hin%elem_of_map_to_list). simpl.
      apply map_lookup_filter_Some in Hin as [Hk Hr]. eauto.
    + intros (row & Hk & Hr). exists (k, row). split; [done|].
      apply elem_of_map_to_list, map_lookup_filter_Some. done.
  - right. split; [done|]. split; [done|].
    destruct (next_expired now (λ _, false) db) as [x|] eqn:Hn; [eauto|].
    destruct (next_expired_none _ _ _ _ _ Hn Hs); [lia|done].
Qed.

(** Taking over a device.  While a device is connected somewhere, another
    connection attempt is answered "occupied" and only marks the state as
    lost (it keeps its session and token, and is no longer reported); the
    session that holds it learns of it with its next ping; once that session
    deletes its state, a new attempt succeeds.  Nobody else can delete it. *)
Theorem takeover now now2 s1 s2 id1 id2 a d t1 t2 st2 row db ts :
  lookup a = Ok (Some tt) → (∀ p, publish p = Accepted) →
  pg_uuid s1 = Some id1 → pg_uuid s2 = Some id2 → is_Some (sessions db !! id2) →
  states db !! (a, d) = Some row → st_session row = id1 → st_token row = t1 →
  sessions db !! id1 = Some ts → (now < ts + timeout)%Z →
  ∃ db1, create now s2 a d t2 st2 db = (db1, [], Ok Occupied) ∧
    states db1 !! (a, d) = Some (mkStateRow id1 t1 (st_created row) true (st_data row)) ∧
    get a d db1 = None ∧
    (∃ l, (ping now s1 db1).2 = Ok ((now + timeout)%Z, l) ∧ (a, d) ∈ l) ∧
    (∀ s t, pg_uuid s ≠ Some id1 ∨ t ≠ t1 → (delete s a d t true db1).1.1 = db1) ∧
    ∃ db2 sent, delete s1 a d t1 true db1 = (db2, sent, Ok tt) ∧ states db2 !! (a, d) = None ∧
      ∃ db3 sent3, create now2 s2 a d t2 st2 db2 = (db3, sent3, Ok Created) ∧
        states db3 !! (a, d) = Some (mkStateRow id2 t2 now2 false (Some st2)).
Proof.
  intros Hlk Hpub Hu1 Hu2 [ts2 Hs2] Hrow Hid Htok Hs1 Hlive.
  set (row1 := mkStateRow id1 t1 (st_created row) true (st_data row)).
  set (db1 := mkStateDb (sessions db) (<[(a, d) := row1]> (states db))).
  assert (Hc : create now s2 a d t2 st2 db = (db1, [], Ok Occupied)).
  { unfold create. rw Hlk Hu2 Hrow Hid Htok //. }
  assert (Hr1 : states db1 !! (a, d) = Some row1) by apply lookup_insert_eq.
  exists db1. split_and!; try done.
  - unfold get. by rw Hr1.
  - eexists. unfold ping. rw Hu1 /= Hs1 (proj2 (Z.ltb_lt _ _) Hlive) /=. split; [done|].
    unfold lost_ids. simpl. apply list_elem_of_fmap. exists ((a, d), row1). split; [done|].
    apply elem_of_map_to_list, map_lookup_filter_Some. done.
  - intros s t Hno. unfold delete. destruct (pg_uuid s) as [id|]; [|done]. rw Hr1 /=.
    destruct (Z.eqb_spec id1 id), (string_eqb_spec t1 t); simpl; try done. subst. naive_solver.
  - unfold delete. rw Hu1 Hr1 /= Z.eqb_refl string_eqb_refl /=.
    unfold send_disconnect_from_delete. rw Hlk /=. unfold send_connection_event, send_event.
    rw Hpub /=. do 2 eexists. split; [done|]. split; [apply lookup_delete_eq|].
    unfold create. rw Hlk Hu2 /= lookup_delete_eq Hs2. unfold send_connection_event, send_event.
    rw Hpub. do 2 eexists. split; [done|]. apply lookup_insert_eq.
Qed.
End Service.

(** ** Connection events over time *)

Inductive StateOp : Type :=
| SInit (now : Z) (session : Uuid)
| SCreate (now : Z) (session application device token : string) (state : DeviceStateData)
| SDelete (session application device token : string) (skip_lwt : bool)
| SPing (now : Z) (session : string)
| SPruneSession (id : Uuid).

Section Trace.
Context (timeout : Z) (pg_uuid : string → option Uuid).

(** What a step finds outside: the answers of the device registry and of the downstream
    sender. *)
Record Outside := mkOutside {
  out_lookup : string → result (option unit) unit;
  out_publish : Publish → PublishResult;
}.

(** One operation: the database after it, and what was handed to the sender. *)
Definition state_op (out : Outside) (db : StateDb) (op : StateOp) : StateDb * list Publish :=
  let lookup := out_lookup out in
  let publish := out_publish out in
  match op with
  | SInit now session => (init timeout now session db).1
  | SCreate now session a d t st => (create pg_uuid lookup publish now session a d t st db).1
  | SDelete session a d t skip => (delete pg_uuid lookup publish session a d t skip db).1
  | SPing now session => (ping timeout pg_uuid now session db).1
  | SPruneSession id => (prune_session lookup publish id db).1
  end.

(** A registry that knows every application and a sender that takes every
    event. *)
Definition known (_ : string) : result (option unit) unit := Ok (Some tt).
Definition takes_all (_ : Publish) : PublishResult := Accepted.

Definition state_step : StateDb → StateOp → StateDb * list Publish :=
  state_op (mkOutside known takes_all).

Fixpoint state_run (db : StateDb) (ops : list StateOp) : StateDb * list Publish :=
  match ops with
  | [] => (db, [])
  | op :: ops =>
      let '(db, sent) := state_step db op in
      let '(db, sent') := state_run db ops in
      (db, sent ++ sent')
  end.

(** Then telling of a disconnect does not fail. *)
Lemma disconnect_taken a d st skip : (send_disconnect_from_delete known takes_all a d st skip).2 = Ok tt.
Proof. unfold send_disconnect_from_delete. destruct skip; [done|]. simpl. by destruct (st ≫= ds_lwt). Qed.

Lemma disconnects_taken rows : (send_disconnects known takes_all rows).2 = Ok tt.
Proof.
  induction rows as [|[[a d] row] rows IH]; [done|]. cbn [send_disconnects].
  pose proof (disconnect_taken a d (st_data row) false) as Hok.
  destruct (send_disconnect_from_delete _ _ _ _ _ _) as [l1 r1]. simpl in Hok. subst r1. simpl.
  by destruct (send_disconnects _ _ _) as [l2 r2].
Qed.

(** The events the sender took. *)
Definition delivered (out : Outside) (sent : list Publish) : list Publish :=
  filter (λ p, out_publish out p = Accepted) sent.

(** Operations, each with what it finds outside; the events that were delivered. *)
Fixpoint outside_run (db : StateDb) (ops : list (Outside * StateOp)) : StateDb * list Publish :=
  match ops with
  | [] => (db, [])
  | (out, op) :: ops =>
      let '(db, sent) := state_op out db op in
      let '(db, sent') := outside_run db ops in
      (db, delivered out sent ++ sent')
  end.

(** The connection events of a device: connected, or not. *)
Definition connection_of (a d : string) (p : Publish) : option bool :=
  if bool_decide (pb_application p = a ∧ pi_name (pb_device p) = d ∧
       pb_type p = Some CONNECTION_TYPE_EVENT)
  then Some (string_eqb (pb_body p) (connection_body true))
  else None.

Definition connections (a d : string) (sent : list Publish) : list bool :=
  omap (connection_of a d) sent.

(** [alternates b l b']: the events [l], the first of which is [b], alternate,
    and the next would be [b']. *)
Inductive alternates : bool → list bool → bool → Prop :=
| alternates_nil b : alternates b [] b
| alternates_cons b l b' : alternates (negb b) l b' → alternates b (b :: l) b'.

Lemma alternates_app b l1 b1 l2 b2 :
  alternates b l1 b1 → alternates b1 l2 b2 → alternates b (l1 ++ l2) b2.
Proof. induction 1; simpl; [done|]. intros. constructor. auto. Qed.

Lemma connections_app a d l1 l2 : connections a d (l1 ++ l2) = connections a d l1 ++ connections a d l2.
Proof. apply omap_app. Qed.

Lemma delivered_app out l1 l2 : delivered out (l1 ++ l2) = delivered out l1 ++ delivered out l2.
Proof. apply filter_app. Qed.

(** The connection events of a device that are delivered of those that were handed over. *)
Definition told (out : Outside) (a d : string) (sent : list Publish) : list bool :=
  connections a d (delivered out sent).

Lemma told_app out a d l1 l2 : told out a d (l1 ++ l2) = told out a d l1 ++ told out a d l2.
Proof. unfold told. by rw delivered_app connections_app. Qed.

(** The application is known, or the registry fails; and its publish section is not broken. *)
Definition tells (a : string) (out : Outside) : Prop :=
  out_lookup out a ≠ Ok None ∧ ∀ p, pb_application p = a → out_publish out p ≠ SpecError.

(** Sending an event: an error if it was not taken. *)
Lemma send_event_told out a d p :
  told out a d (send_event (out_publish out) p).1 =
    (if bool_decide (out_publish out p = Accepted) then option_list (connection_of a d p) else []).
Proof.
  unfold told, delivered, send_event. simpl. rw filter_cons filter_nil.
  destruct (decide _) as [H|H]; [rw bool_decide_true //|rw bool_decide_false //].
Qed.

Lemma send_connection_told out a d a' d' uid b :
  let r := send_connection_event (out_publish out) a' (mkPublishId d' uid) b in
  ((a', d') ≠ (a, d) → told out a d r.1 = []) ∧
  ((a', d') = (a, d) → tells a out → match r.2 with Ok _ => told out a d r.1 = [b] | Err _ => told out a d r.1 = [] end).
Proof.
  unfold send_connection_event. cbv zeta. rw send_event_told. unfold connection_of. cbn [pb_application pb_device pi_name pb_type pb_body].
  set (p := mkPublish _ _ _ _ _ _). split.
  - intros Hne. case_bool_decide; [|done]. rw bool_decide_false //. naive_solver.
  - intros [= -> ->] [_ Hspec]. specialize (Hspec p eq_refl). rw (bool_decide_true (a = a ∧ _)) //.
    unfold send_event. by destruct (out_publish out p), b.
Qed.

Lemma send_lwt_told out a d a' id lwt :
  told out a d (send_lwt_event (out_publish out) a' id lwt).1 = [].
Proof.
  unfold send_lwt_event. rw send_event_told. case_bool_decide; [|done].
  unfold connection_of. rw bool_decide_false //. simpl. naive_solver.
Qed.

(** What is told for one device that goes away. *)
Lemma disconnect_told out a d a' d' st skip :
  let r := send_disconnect_from_delete (out_lookup out) (out_publish out) a' d' st skip in
  ((a', d') ≠ (a, d) ∨ out_lookup out a = Ok None → told out a d r.1 = []) ∧
  ((a', d') = (a, d) → tells a out → match r.2 with Ok _ => told out a d r.1 = [false] | Err _ => told out a d r.1 = [] end).
Proof.
  cbv zeta. unfold send_disconnect_from_delete.
  destruct (send_connection_told out a d a' d' (ds_device_uid <$> st) false) as [Hne Heq].
  set (id := mkPublishId d' (ds_device_uid <$> st)) in *.
  destruct (out_lookup out a') as [[[]|]|] eqn:Hl.
  2: { split; [done|]. intros [= -> ->] [? _]. done. }
  2: { split; [done|]. intros _ _. done. }
  assert (Hlwt : told out a d (if skip then ([], Ok tt) else match st ≫= ds_lwt with
    Some lwt => send_lwt_event (out_publish out) a' id lwt | None => ([], Ok tt) end).1 = []).
  { destruct skip; [done|]. destruct (st ≫= ds_lwt); [apply send_lwt_told|done]. }
  destruct (if skip then _ else _) as [l1 [u|er]]; cbn [fst snd send_bind] in *; [|by split].
  destruct (send_connection_event _ _ _ _) as [l2 r2]. cbn [fst snd] in *. rw told_app Hlwt. simpl.
  split; [|done]. intros [Hd|Hd]; [by apply Hne|]. apply Hne. intros [= -> ->]. congruence.
Qed.

Lemma disconnects_told out a d rows :
  NoDup rows.*1 →
  let r := send_disconnects (out_lookup out) (out_publish out) rows in
  (out_lookup out a = Ok None → told out a d r.1 = []) ∧
  (tells a out → r.2 = Ok tt → told out a d r.1 = if bool_decide ((a, d) ∈ rows.*1) then [false] else []).
Proof.
  cbv zeta. induction rows as [|[[a' d'] row] rows IH]; intros Hnd; [done|].
  apply NoDup_cons in Hnd as [Hnew Hnd]. destruct (IH Hnd) as [Hno Htold]. clear IH. cbn [send_disconnects].
  destruct (disconnect_told out a d a' d' (st_data row) false) as [Hne Heq]. cbv zeta in Hne, Heq.
  destruct (send_disconnect_from_delete _ _ a' d' _ _) as [l1 [u|er]]; cbn [send_bind].
  2: { split; [|done]. intros Hl. apply Hne. by right. }
  destruct (send_disconnects _ _ rows) as [l2 r2]. cbn [fst snd] in *. split.
  - intros Hl. rw told_app Hno // Hne //. by right.
  - intros Ht ->. rw told_app (Htold Ht eq_refl) fmap_cons. cbn [fst] in Hnew |- *.
    destruct (decide ((a', d') = (a, d))) as [Hd|Hd].
    + rw (Heq Hd Ht). rw Hd in Hnew |- *. rw (bool_decide_false ((a, d) ∈ rows.*1)) //.
      rw bool_decide_true //. by left.
    + rw Hne; [by left|]. simpl. destruct (decide ((a, d) ∈ rows.*1)) as [Hin|Hin];
        [rw !bool_decide_true //; by right|rw !bool_decide_false //].
      by intros [?|?]%elem_of_cons.
Qed.

(** Whether a device has a state. *)
Definition connected (a d : string) (db : StateDb) : bool := bool_decide (is_Some (states db !! (a, d))).

(** What has to hold outside when an operation runs, for the events of a device to alternate:
    the application is known and its publish section is not broken, and the pruning of a
    session that fails half way has not told of the device yet. *)
Definition step_tells (a d : string) (out : Outside) (db : StateDb) (op : StateOp) : Prop :=
  tells a out ∧
  match op with
  | SPruneSession id =>
      (prune_session (out_lookup out) (out_publish out) id db).2 = Ok tt ∨
      told out a d (state_op out db op).2 = []
  | _ => True
  end.

Fixpoint run_tells (a d : string) (db : StateDb) (ops : list (Outside * StateOp)) : Prop :=
  match ops with
  | [] => True
  | (out, op) :: ops => step_tells a d out db op ∧ run_tells a d (state_op out db op).1 ops
  end.

(** Pruning a session tells once of each of its devices. *)
Lemma prune_session_alternates a d out db id :
  step_tells a d out db (SPruneSession id) →
  let '(db', sent) := state_op out db (SPruneSession id) in
  alternates (negb (connected a d db)) (told out a d sent) (negb (connected a d db')).
Proof.
  intros [Ht Hor]. simpl in *. unfold prune_session, connected in *. set (gone := filter _ (states db)) in *.
  destruct (disconnects_told out a d (map_to_list gone)) as [_ Htold]; [apply NoDup_fst_map_to_list|].
  destruct (send_disconnects _ _ _) as [l [[]|er]]; simpl in *.
  2: { destruct Hor as [?| ->]; [done|constructor]. }
  rw (Htold Ht eq_refl). clear Htold Hor.
  destruct (decide ((a, d) ∈ (map_to_list gone).*1)) as [Hin|Hin];
    [rw (bool_decide_true ((a, d) ∈ _)) //|rw (bool_decide_false ((a, d) ∈ _)) //].
  + apply list_elem_of_fmap in Hin as ([k row] & -> & Hin%elem_of_map_to_list). simpl.
    apply map_lookup_filter_Some in Hin as [Hk Hs]. rw Hk /=.
    rw (_ : filter _ _ !! _ = None); [|repeat constructor].
    apply map_lookup_filter_None. right. naive_solver.
  + rw (_ : filter _ _ !! _ = states db !! (a, d)); [|constructor].
    destruct (states db !! (a, d)) as [row|] eqn:Hk.
    * apply map_lookup_filter_Some. split; [done|]. intros Hs. apply Hin.
      apply list_elem_of_fmap. exists ((a, d), row). split; [done|].
      apply elem_of_map_to_list, map_lookup_filter_Some. done.
    * apply map_lookup_filter_None. by left.
Qed.

Lemma create_alternates a d out db now s a' d' t st :
  tells a out →
  let '(db', sent) := state_op out db (SCreate now s a' d' t st) in
  alternates (negb (connected a d db)) (told out a d sent) (negb (connected a d db')).
Proof.
  intros Ht. cbn [state_op]. unfold create, connected.
  destruct (out_lookup out a') as [[[]|]|]; cbn [fst snd]; [|constructor..].
  destruct (pg_uuid s) as [u|]; cbn [fst snd]; [|constructor].
  destruct (states db !! (a', d')) as [row|] eqn:Hrow; cbn [fst snd states].
  { destruct (decide ((a', d') = (a, d))) as [[= -> ->]|Hne].
    - cbn [states]. rw lookup_insert_eq Hrow /=. constructor.
    - cbn [states]. rw lookup_insert_ne //. constructor. }
  destruct (sessions db !! u); cbn [fst snd]; [|constructor].
  destruct (send_connection_told out a d a' d' (Some (ds_device_uid st)) true) as [Hno Heq]. cbv zeta in *.
  destruct (send_connection_event _ _ _ _) as [l [[]|er]]; cbn [fst snd] in *;
    (destruct (decide ((a', d') = (a, d))) as [Hd|Hd]; [rw (Heq Hd Ht); injection Hd as -> ->|rw (Hno Hd)]).
  - cbn [states]. rw Hrow lookup_insert_eq /=. repeat constructor.
  - cbn [states]. rw lookup_insert_ne //. constructor.
  - constructor.
  - constructor.
Qed.

Lemma delete_alternates a d out db s a' d' t skip :
  tells a out →
  let '(db', sent) := state_op out db (SDelete s a' d' t skip) in
  alternates (negb (connected a d db)) (told out a d sent) (negb (connected a d db')).
Proof.
  intros Ht. cbn [state_op]. unfold delete, connected. destruct (pg_uuid s) as [u|]; cbn [fst snd]; [|constructor].
  destruct (states db !! (a', d')) as [row|] eqn:Hrow; cbn [fst snd]; [|constructor].
  destruct (_ && _); cbn [fst snd]; [|constructor].
  destruct (disconnect_told out a d a' d' (st_data row) skip) as [Hno Heq]. cbv zeta in *.
  destruct (send_disconnect_from_delete _ _ a' d' _ _) as [l [[]|er]]; cbn [fst snd] in *;
    (destruct (decide ((a', d') = (a, d))) as [Hd|Hd];
      [rw (Heq Hd Ht); injection Hd as -> ->|rw Hno; [by left|]]).
  - cbn [states]. rw Hrow lookup_delete_eq /=. repeat constructor.
  - cbn [states]. rw lookup_delete_ne //. constructor.
  - constructor.
  - constructor.
Qed.

Lemma state_op_alternates a d out db op :
  step_tells a d out db op →
  let '(db', sent) := state_op out db op in
  alternates (negb (connected a d db)) (told out a d sent) (negb (connected a d db')).
Proof.
  intros Ht. destruct op as [now id|now s a' d' t st|s a' d' t skip|now s|id].
  - simpl. unfold init. destruct (sessions db !! id); simpl; constructor.
  - by apply create_alternates, Ht.
  - by apply delete_alternates, Ht.
  - simpl. unfold ping. destruct (pg_uuid s) as [u|]; simpl; [|constructor].
    destruct (sessions db !! u) as [ts|]; simpl; [|constructor].
    destruct (_ <? _)%Z; simpl; constructor.
  - by apply prune_session_alternates.
Qed.

(** Nothing is told of the devices of an application that is gone. *)
Lemma gone_silent a d out db op :
  out_lookup out a = Ok None → told out a d (state_op out db op).2 = [].
Proof.
  intros Hl. destruct op as [now id|now s a' d' t st|s a' d' t skip|now s|id]; simpl.
  - unfold init. by destruct (sessions db !! id).
  - unfold create. destruct (out_lookup out a') as [[[]|]|] eqn:Hl'; [|done..].
    destruct (send_connection_told out a d a' d' (Some (ds_device_uid st)) true) as [Hno _].
    assert (Hd : (a', d') ≠ (a, d)) by (intros [= -> ->]; congruence). specialize (Hno Hd).
    destruct (pg_uuid s) as [u|]; [|done]. destruct (states db !! _); [done|].
    destruct (sessions db !! u); [|done]. by destruct (send_connection_event _ _ _ _) as [l [[]|er]].
  - unfold delete. destruct (pg_uuid s) as [u|]; [|done]. destruct (states db !! _) as [row|]; [|done].
    destruct (_ && _); [|done]. destruct (disconnect_told out a d a' d' (st_data row) skip) as [Hno _].
    specialize (Hno (or_intror Hl)). by destruct (send_disconnect_from_delete _ _ _ _ _ _) as [l [[]|er]].
  - unfold ping. destruct (pg_uuid s) as [u|]; [|done]. destruct (sessions db !! u); [|done]. by case_match.
  - unfold prune_session. set (gone := filter _ (states db)).
    destruct (disconnects_told out a d (map_to_list gone)) as [Hno _]; [apply NoDup_fst_map_to_list|].
    specialize (Hno Hl). by destruct (send_disconnects _ _ _) as [l [[]|er]].
Qed.

(** C31: connection events alternate.  Whatever endpoints do, in whatever order (opening
    sessions, connecting and disconnecting devices, pinging, and the pruning of any session),
    and whatever the registry and the sender answer each time, failures included: the
    connection events of a device that the sender takes are "connected", "disconnected",
    "connected", and so on, and the last one says "connected" exactly if the device has a
    state, as long as the application is not gone, its publish section is not broken, and the
    pruning of a session does not fail after it told of the device.  Once the application is
    gone, nothing is told of its devices any more. *)
Theorem connection_events_alternate a d ops :
  (run_tells a d (mkStateDb ∅ ∅) ops →
   let '(db, sent) := outside_run (mkStateDb ∅ ∅) ops in
   alternates true (connections a d sent) (negb (connected a d db))) ∧
  (∀ out db op, out_lookup out a = Ok None → told out a d (state_op out db op).2 = []).
Proof.
  split; [|intros out db op; apply gone_silent].
  assert (Hgen : ∀ db0, run_tells a d db0 ops → let '(db, sent) := outside_run db0 ops in
    alternates (negb (connected a d db0)) (connections a d sent) (negb (connected a d db))).
  { induction ops as [|[out op] ops IH]; intros db0 Ht; simpl in *; [constructor|].
    destruct Ht as [Ht Hrest]. pose proof (state_op_alternates a d out db0 op Ht) as Hstep.
    destruct (state_op out db0 op) as [db1 sent1]. specialize (IH db1 Hrest).
    destruct (outside_run db1 ops) as [db2 sent2]. rw connections_app. by eapply alternates_app. }
  intros Ht. specialize (Hgen _ Ht). unfold connected in Hgen at 1. by rw lookup_empty /= in Hgen.
Qed.
End Trace.
