(* ===== verification/StateClient.v ===== *)
(** * The client of the device state service

    [device-state-service/src/endpoints/mod.rs] and
    [service-common/src/client/device_state.rs]: the HTTP interface of the
    device state service and its client; [service-common/src/state]: what an
    endpoint does with it.  The controller creates and deletes device states,
    retrying; the mux tells the owner of a state when it is lost; the runner
    keeps the session alive. *)

From S2P Require Import Prelude Store DeviceState.

(** ** The HTTP interface *)

Module Wire.
(** A response: its status and its decoded body. *)
Inductive Body : Type :=
| NoBody
| ErrorBody (error message : string)
| InitBody (session : string) (expires : Z)
| PingBody (expires : Z) (lost_ids : list (string * string)).

Record HttpResponse := mkResponse { status : Z; body : Body }.

(** [Display] of the service's errors; the text of the wrapped errors is not
    modelled. *)
Definition error_message (e : StateError) : string :=
  match e with
  | NotInitialized => "not initialized"
  | ApplicationNotFound => "application not found"
  | StateInternal msg => "internal error: " +:+ msg
  | StateDatabase => "database error: "
  | DeviceState.Registry => "device registry error: "
  | PublishFailed => "publish event error: "
  end.

(** [ResponseError for ServiceError] *)
Definition error_response (e : StateError) : HttpResponse :=
  match e with
  | NotInitialized => mkResponse 412 (ErrorBody "NotInitialized" (error_message e))
  | ApplicationNotFound => mkResponse 400 (ErrorBody "ApplicationNotFound" (error_message e))
  | StateInternal _ => mkResponse 500 (ErrorBody "Internal" (error_message e))
  | StateDatabase => mkResponse 503 (ErrorBody "Database" (error_message e))
  | DeviceState.Registry => mkResponse 503 (ErrorBody "Registry" (error_message e))
  | PublishFailed => mkResponse 503 (ErrorBody "Publish" (error_message e))
  end.

(** [endpoints::init], [create], [delete] and [ping], after the service. *)
Definition endpoint_init (session : string) (r : result Z StateError) : HttpResponse :=
  match r with
  | Ok expires => mkResponse 201 (InitBody session expires)
  | Err e => error_response e
  end.

Definition endpoint_create (r : result CreateResponse StateError) : HttpResponse :=
  match r with
  | Ok Created => mkResponse 201 NoBody
  | Ok Occupied => mkResponse 409 NoBody
  | Err e => error_response e
  end.

Definition endpoint_delete (r : result unit StateError) : HttpResponse :=
  match r with
  | Ok _ => mkResponse 204 NoBody
  | Err e => error_response e
  end.

Definition endpoint_ping (r : result (Z * list (string * string)) StateError) : HttpResponse :=
  match r with
  | Ok (expires, lost_ids) => mkResponse 200 (PingBody expires lost_ids)
  | Err e => error_response e
  end.

(** [ClientError]: the transport failed, the response could not be decoded, or
    the service reported an error. *)
Inductive ClientError : Type :=
| Transport (msg : string)
| Request (msg : string)
| Service (code : Z) (error message : string).

Definition default_error {A} (r : HttpResponse) : result A ClientError :=
  match body r with
  | ErrorBody error message => Err (Service (status r) error message)
  | _ => Err (Request "Failed to decode service error response")
  end.

(** [handle_response] with the decoder of the expected type. *)
Definition handle_response {A} (decode : Body → option A) (expected_code : Z) (r : HttpResponse)
    : result A ClientError :=
  if (status r =? expected_code)%Z then
    match decode (body r) with
    | Some a => Ok a
    | None => Err (Request "Failed to decode service response")
    end
  else default_error r.

Definition client_init : HttpResponse → result (string * Z) ClientError :=
  handle_response (λ b, match b with InitBody s e => Some (s, e) | _ => None end) 201.

Definition client_ping : HttpResponse → result (Z * list (string * string)) ClientError :=
  handle_response (λ b, match b with PingBody e l => Some (e, l) | _ => None end) 200.

Definition client_create (r : HttpResponse) : result CreateResponse ClientError :=
  if (status r =? 201)%Z then Ok Created
  else if (status r =? 409)%Z then Ok Occupied
  else default_error r.

Definition client_delete (r : HttpResponse) : result unit ClientError :=
  if (status r =? 204)%Z then Ok tt else default_error r.

(** The error a client sees for an error of the service. *)
Definition seen (e : StateError) : ClientError :=
  match body (error_response e) with
  | ErrorBody error message => Service (status (error_response e)) error message
  | _ => Request "Failed to decode service error response"
  end.

(** What the endpoints write the client reads back. *)
Lemma wire_roundtrip :
  (∀ s r, client_init (endpoint_init s r) = map_err seen (let? e := r in Ok (s, e))) ∧
  (∀ r, client_create (endpoint_create r) = map_err seen r) ∧
  (∀ r, client_delete (endpoint_delete r) = map_err seen r) ∧
  (∀ r, client_ping (endpoint_ping r) = map_err seen r).
Proof.
  split_and!.
  - by intros s [e|[]].
  - by intros [[]|[]].
  - by intros [[]|[]].
  - by intros [[]|[]].
Qed.
End Wire.

(** ** The client as an interface

    What an endpoint calls; [W] is the world the calls change. *)

Class DeviceStateClient (W : Type) := {
  api_create : string → string → string → string → DeviceStateData → W →
    W * result CreateResponse Wire.ClientError;
  api_delete : string → string → string → string → bool → W → W * result unit Wire.ClientError;
  api_ping : string → W → W * result (Z * list (string * string)) Wire.ClientError;
  api_init : W → W * result (string * Z) Wire.ClientError;
}.

(** ** The mux, [mux.rs] *)

Module Mux.
Inductive LostCause : Type := NewRegistration | Reported | LostDeleted.

(** An entry: the token, and the channel of the watcher. *)
Record MuxEntry := mkEntry { token : string; tx : nat }.

Abbreviation Mux := (gmap (string * string) MuxEntry).

(** A notification: what is sent to which channel. *)
Abbreviation Notes := (list (nat * LostCause)).

Definition new : Mux := ∅.

Definition handle_lost (id : string * string) (m : Mux) : Mux * Notes :=
  match m !! id with
  | Some entry => (base.delete id m, [(tx entry, Reported)])
  | None => (m, [])
  end.

(** [added] with the new channel [chan]. *)
Definition added (id : string * string) (t : string) (chan : nat) (m : Mux) : Mux * Notes :=
  (<[id := mkEntry t chan]> m,
   match m !! id with
   | Some old => [(tx old, NewRegistration)]
   | None => []
   end).

Definition deleted (id : string * string) (t : string) (m : Mux) : Mux * Notes :=
  match m !! id with
  | Some entry =>
      if string_eqb (token entry) t then (base.delete id m, [(tx entry, LostDeleted)]) else (m, [])
  | None => (m, [])
  end.

(** [StateRunner::handle_lost] *)
Fixpoint handle_all (ids : list (string * string)) (m : Mux) : Mux * Notes :=
  match ids with
  | [] => (m, [])
  | id :: ids =>
      let '(m, n) := handle_lost id m in
      let '(m, n') := handle_all ids m in
      (m, n ++ n')
  end.
End Mux.

(** ** The controller, [mod.rs] *)

Module Controller.
Import Mux.

Section Controller.
Context {W : Type} `{DeviceStateClient W}.

Record StateController := mkController {
  session : string;
  endpoint : string;
  retry_deletes : Z;
}.

(** What the handles of an endpoint share: the mux, and whether the sender
    that stops the runner is still there. *)
Record Shared := mkShared { mux : Mux; kill_tx : bool }.

Inductive DeleteEnd : Type := DeleteDone | DeleteAbort.

(** The loop of [delete]: [attempts] is a [usize], which wraps.  After the
    stop was sent the loop goes on.  [fuel] bounds the calls. *)
Fixpoint delete_loop (fuel : nat) (c : StateController) (application device t : string)
    (skip_lwt : bool) (attempts : Z) (kill : bool) (w : W) : option (W * bool * DeleteEnd) :=
  match fuel with
  | 0 => None
  | S fuel =>
      match api_delete (session c) application device t skip_lwt w with
      | (w, Ok _) => Some (w, kill, DeleteDone)
      | (w, Err _) =>
          let attempts := u64_sub attempts 1 in
          if (attempts =? 0)%Z then
            if kill then delete_loop fuel c application device t skip_lwt attempts false w
            else Some (w, kill, DeleteAbort)
          else delete_loop fuel c application device t skip_lwt attempts kill w
      end
  end.

Definition delete (fuel : nat) (c : StateController) (application device t : string)
    (skip_lwt : bool) (kill : bool) (w : W) : option (W * bool * DeleteEnd) :=
  delete_loop fuel c application device t skip_lwt (retry_deletes c) kill w.

Inductive CreationOutcome : Type :=
| StateCreated (chan : nat)
| StateOccupied
| StateFailed
| StateAborted.

(** The loop of [create]; [attempts] more are made while the state is
    occupied.  The process may be aborted by the [delete] of the recovery. *)
Fixpoint create_loop (attempts fuel : nat) (c : StateController) (application device t : string)
    (state : DeviceStateData) (chan : nat) (sh : Shared) (w : W)
    : option (W * Shared * Notes * CreationOutcome) :=
  match api_create (session c) application device t state w with
  | (w, Ok Created) =>
      let '(m, notes) := added (application, device) t chan (mux sh) in
      Some (w, mkShared m (kill_tx sh), notes, StateCreated chan)
  | (w, Ok Occupied) =>
      match attempts with
      | 0 => Some (w, sh, [], StateOccupied)
      | S attempts => create_loop attempts fuel c application device t state chan sh w
      end
  | (w, Err _) =>
      match delete fuel c application device t false (kill_tx sh) w with
      | Some (w, kill, DeleteDone) => Some (w, mkShared (mux sh) kill, [], StateFailed)
      | Some (w, kill, DeleteAbort) => Some (w, mkShared (mux sh) kill, [], StateAborted)
      | None => None
      end
  end.

(** [create]: [uid] is the UID of the device, [t] the new token. *)
Definition create (max_attempts fuel : nat) (c : StateController)
    (application device uid t : string) (lwt : option LastWillTestament) (chan : nat) (sh : Shared)
    (w : W) : option (W * Shared * Notes * CreationOutcome) :=
  create_loop max_attempts fuel c application device t (mkState uid (endpoint c) lwt) chan sh w.

(** ** Handles *)

Record StateHandle := mkHandle {
  h_deleted : bool;
  h_application : string;
  h_device : string;
  h_token : string;
}.

(** [StateHandle::delete]; dropping a handle does the same with the default
    options. *)
Definition handle_delete (fuel : nat) (c : StateController) (skip_lwt : bool) (h : StateHandle)
    (sh : Shared) (w : W) : option (W * Shared * Notes * StateHandle * DeleteEnd) :=
  if h_deleted h then Some (w, sh, [], h, DeleteDone)
  else
    match delete fuel c (h_application h) (h_device h) (h_token h) skip_lwt (kill_tx sh) w with
    | Some (w, kill, DeleteDone) =>
        let '(m, notes) := deleted (h_application h, h_device h) (h_token h) (mux sh) in
        Some (w, mkShared m kill, notes,
              mkHandle true (h_application h) (h_device h) (h_token h), DeleteDone)
    | Some (w, kill, DeleteAbort) => Some (w, mkShared (mux sh) kill, [], h, DeleteAbort)
    | None => None
    end.

(** ** Opening a session, [StateController::new] *)

Fixpoint init_loop (attempts : nat) (w : W) : W * result (string * Z) string :=
  match api_init w with
  | (w, Ok r) => (w, Ok r)
  | (w, Err _) =>
      match attempts with
      | S attempts => init_loop attempts w
      | 0 => (w, Err "Failed it create state service session.")
      end
  end.
End Controller.
End Controller.

(** ** The runner, [mod.rs] *)

Module Runner.
Import Mux.

(** Times and delays are in milliseconds. *)
Record StateRunner := mkRunner { session : string; delay_buffer : Z; min_delay_ms : Z }.

Inductive RunnerError : Type := LostSession | SessionInvalidated.

(** The expiration, and when to ping next; [now] is the current time. *)
Definition next_deadline (r : StateRunner) (now expires : Z) : Z * Z :=
  let deadline := (expires - delay_buffer r)%Z in
  let delay := (deadline - now)%Z in
  let delay := if (delay <? min_delay_ms r)%Z then as_u64 (min_delay_ms r) else as_u64 delay in
  (expires, (now + delay)%Z).

Definition is_not_initialized (e : Wire.ClientError) : bool :=
  match e with
  | Wire.Service _ error _ => string_eqb error "NotInitialized"
  | _ => false
  end.

Section Runner.
Context {W : Type} `{DeviceStateClient W}.

(** [ping]; [nows i] is the time of the [i]-th attempt, [fuel] bounds the
    attempts. *)
Fixpoint ping (fuel : nat) (nows : nat → Z) (r : StateRunner) (expires : Z) (m : Mux) (w : W)
    : option (W * Mux * Notes * result (Z * Z) RunnerError) :=
  match fuel with
  | 0 => None
  | S fuel =>
      if (expires <? nows 0%nat)%Z then Some (w, m, [], Err LostSession)
      else
        match api_ping (session r) w with
        | (w, Ok (expires, lost_ids)) =>
            let '(m, notes) := handle_all lost_ids m in
            Some (w, m, notes, Ok (next_deadline r (nows 0%nat) expires))
        | (w, Err e) =>
            if is_not_initialized e then Some (w, m, [], Err SessionInvalidated)
            else ping fuel (λ i, nows (S i)) r expires m w
        end
  end.

(** The loop of [run], until it ends with an error: [rounds i] are the times
    of the attempts of the [i]-th ping, which starts after its deadline. *)
Fixpoint run (fuel : nat) (rounds : nat → nat → Z) (r : StateRunner) (expires : Z) (m : Mux) (w : W)
    : option (W * Mux * Notes * RunnerError) :=
  match fuel with
  | 0 => None
  | S fuel' =>
      match ping fuel (rounds 0%nat) r expires m w with
      | None => None
      | Some (w, m, notes, Err e) => Some (w, m, notes, e)
      | Some (w, m, notes, Ok (expires, _)) =>
          match run fuel' (λ i, rounds (S i)) r expires m w with
          | Some (w, m, notes', e) => Some (w, m, notes ++ notes', e)
          | None => None
          end
      end
  end.
End Runner.

(** The next ping is due before the expiration, by the buffer, unless that is
    closer than the minimum delay. *)
Lemma next_deadline_bounds r now expires :
  (0 ≤ min_delay_ms r < two64)%Z → (expires - delay_buffer r - now < two64)%Z →
  (next_deadline r now expires).2 =
    Z.max (expires - delay_buffer r) (now + min_delay_ms r).
Proof.
  intros Hmin Hbig. unfold next_deadline, as_u64. simpl.
  destruct (Z.ltb_spec (expires - delay_buffer r - now) (min_delay_ms r));
    rw Z.mod_small; lia.
Qed.

(** Pinging ends: however often the service cannot be reached, the runner
    gives up once the session has expired.  (The attempts are at least 100 ms
    apart.)  It ends with the answer of the service, or an error that ends the
    endpoint; on success the next ping is due at the end of the session less
    the buffer, or after the minimum delay. *)
Theorem ping_ends {W} `{DeviceStateClient W} nows r expires m (w : W) :
  (∀ i, (nows i + 100 ≤ nows (S i))%Z) →
  (0 ≤ min_delay_ms r < two64)%Z →
  ∃ w' m' notes x,
    ping (S (Z.to_nat ((expires - nows 0%nat) / 100 + 1))) nows r expires m w
      = Some (w', m', notes, x) ∧
    match x with
    | Ok (expires', deadline) => ∃ w0 lost i, api_ping (session r) w0 = (w', Ok (expires', lost)) ∧
        handle_all lost m = (m', notes) ∧ (nows i ≤ expires)%Z ∧
        ((expires' - delay_buffer r - nows i < two64)%Z →
         deadline = Z.max (expires' - delay_buffer r) (nows i + min_delay_ms r))
    | Err _ => m' = m ∧ notes = []
    end.
Proof.
  intros Hstep Hmin. remember (Z.to_nat _) as fuel eqn:Hf.
  assert (Hfuel : ((expires - nows 0%nat) / 100 + 1 ≤ Z.of_nat fuel)%Z) by lia.
  clear Hf. revert nows w Hstep Hfuel. induction fuel as [|fuel IH]; intros nows w Hstep Hfuel.
  - assert (Hlt : (expires - nows 0%nat < 0)%Z).
    { destruct (Z.lt_ge_cases (expires - nows 0%nat) 0) as [|Hge]; [done|].
      pose proof (Z.div_pos _ 100 Hge ltac:(lia)). lia. }
    simpl. rw (proj2 (Z.ltb_lt _ _)); [lia|]. by do 4 eexists.
  - cbn [ping]. destruct (Z.ltb_spec expires (nows 0%nat)) as [Hlt|Hge]; [by do 4 eexists|].
    destruct (api_ping (session r) w) as [w1 [[expires' lost]|e]] eqn:Hp.
    + destruct (handle_all lost m) as [m' notes] eqn:Hh. do 4 eexists. split; [done|].
      exists w, lost, 0%nat. split_and!; try done. intros Hbig. by rw -next_deadline_bounds.
    + destruct (is_not_initialized e); [by do 4 eexists|].
      destruct (IH (λ i, nows (S i)) w1) as (w' & m' & notes & x & Hx & Hr); [auto| |].
      * specialize (Hstep 0%nat). assert (expires - nows 1%nat ≤ expires - nows 0%nat + (-1) * 100)%Z by lia.
        pose proof (Z.div_le_mono _ _ 100 ltac:(lia) H0) as Hd. rw Z.div_add in Hd; lia.
      * exists w', m', notes, x. split; [exact Hx|]. destruct x as [[e1 dl]|]; [|done].
        destruct Hr as (w0 & lo & i & ? & ? & ?). exists w0, lo, (S i). done.
Qed.
End Runner.

(** ** Retrying to delete *)

Section DeleteProofs.
Context {W : Type} `{DeviceStateClient W}.
Context (c : Controller.StateController) (a d t : string) (skip : bool).

Definition try_delete (w : W) : W * result unit Wire.ClientError :=
  api_delete (Controller.session c) a d t skip w.

(** The world after [n] calls, all of which fail. *)
Definition after (n : nat) (w : W) : W := Nat.iter n (λ w, (try_delete w).1) w.
Definition fails (n : nat) (w : W) : Prop := ∀ i, (i < n)%nat → ∃ e, (try_delete (after i w)).2 = Err e.

Lemma after_S n w : after (S n) w = after n (try_delete w).1.
Proof. unfold after. by rw Nat.iter_succ_r. Qed.

Lemma fails_S n w : fails (S n) w → (∃ e, (try_delete w).2 = Err e) ∧ fails n (try_delete w).1.
Proof.
  intros Hf. split; [apply (Hf 0%nat); lia|]. intros i Hi. rw -after_S. apply Hf. lia.
Qed.

(** The failures after which the counter is zero. *)
Definition until_zero (attempts : Z) : Z := if (attempts =? 0)%Z then two64 else attempts.

Lemma until_zero_sub attempts :
  is_u64 attempts → (u64_sub attempts 1 =? 0)%Z = (until_zero attempts =? 1)%Z ∧
  is_u64 (u64_sub attempts 1) ∧
  (until_zero attempts ≠ 1 → until_zero (u64_sub attempts 1) = until_zero attempts - 1)%Z ∧
  (1 ≤ until_zero attempts)%Z.
Proof.
  unfold is_u64, until_zero, u64_sub. intros Ha.
  destruct (Z.eqb_spec attempts 0) as [->|Hne]; [by vm_compute|].
  rw Z.mod_small; [lia|].
  destruct (Z.eqb_spec (attempts - 1) 0), (Z.eqb_spec attempts 1); try lia; split_and!; lia || done.
Qed.

Lemma delete_loop_outcome m attempts kill w :
  is_u64 attempts → fails m w → (try_delete (after m w)).2 = Ok tt →
  (Z.of_nat m < until_zero attempts + two64)%Z →
  Controller.delete_loop (S m) c a d t skip attempts kill w =
    if (Z.of_nat m <? until_zero attempts)%Z then
      Some ((try_delete (after m w)).1, kill, Controller.DeleteDone)
    else if kill then Some ((try_delete (after m w)).1, false, Controller.DeleteDone)
    else Some (after (Z.to_nat (until_zero attempts)) w, false, Controller.DeleteAbort).
Proof.
  revert attempts kill w. induction m as [|m IH]; intros attempts kill w Ha Hf Hok Hm;
    destruct (until_zero_sub attempts Ha) as (Hz & Hu & Hsub & Hpos); assert (H64 : (0 < two64)%Z) by done.
  - rw (proj2 (Z.ltb_lt _ _)); [lia|]. cbn [Controller.delete_loop]. fold (try_delete w).
    simpl in Hok. destruct (try_delete w) as [w1 r] eqn:Ht. simpl in *. subst r. by rw Ht.
  - apply fails_S in Hf as [[e He] Hf]. rw !after_S in Hok |- *.
    change (Controller.delete_loop (S (S m)) c a d t skip attempts kill w) with
      (match try_delete w with
       | (w, Ok _) => Some (w, kill, Controller.DeleteDone)
       | (w, Err _) =>
           let attempts := u64_sub attempts 1 in
           if (attempts =? 0)%Z then
             if kill then Controller.delete_loop (S m) c a d t skip attempts false w
             else Some (w, kill, Controller.DeleteAbort)
           else Controller.delete_loop (S m) c a d t skip attempts kill w
       end).
    destruct (try_delete w) as [w1 r] eqn:Ht. simpl in He, Hf, Hok. subst r. simpl fst. cbv zeta.
    rw Hz. destruct (Z.eqb_spec (until_zero attempts) 1) as [H1|H1].
    + rw (proj2 (Z.ltb_ge (Z.of_nat (S m)) _)); [lia|]. destruct kill; [|].
      * assert (Hzero : u64_sub attempts 1 = 0%Z) by (by apply Z.eqb_eq).
        rw Hzero in Hu |- *. rw (IH 0%Z false w1 Hu Hf Hok); [change (until_zero 0) with two64; lia|].
        change (until_zero 0) with two64. rw (proj2 (Z.ltb_lt _ _)) //. lia.
      * rw H1. change (Z.to_nat 1) with 1%nat. unfold after. simpl. by rw Ht.
    + rw IH //; [rw Hsub //; lia|]. rw Hsub //.
      destruct (Z.ltb_spec (Z.of_nat m) (until_zero attempts - 1)),
        (Z.ltb_spec (Z.of_nat (S m)) (until_zero attempts)); try lia; try done.
      destruct kill; [done|]. replace (Z.to_nat (until_zero attempts))
        with (S (Z.to_nat (until_zero attempts - 1))) by lia. by rw after_S Ht.
Qed.

(** Deleting a state is retried until the service answers: if [m] calls fail
    and the next one succeeds, the deletion is done; if [m] reaches the
    configured number of retries, the runner is told to stop, or, if it already
    was, the process is aborted.  With zero retries configured the counter wraps
    around, and nothing is stopped for 2^64 calls. *)
Theorem delete_retries m kill w :
  is_u64 (Controller.retry_deletes c) → (Z.of_nat m < two64)%Z →
  fails m w → (try_delete (after m w)).2 = Ok tt →
  Controller.delete (S m) c a d t skip kill w =
    if (Z.of_nat m <? Controller.retry_deletes c)%Z || (Controller.retry_deletes c =? 0)%Z then
      Some ((try_delete (after m w)).1, kill, Controller.DeleteDone)
    else if kill then Some ((try_delete (after m w)).1, false, Controller.DeleteDone)
    else Some (after (Z.to_nat (Controller.retry_deletes c)) w, false, Controller.DeleteAbort).
Proof.
  intros Hr Hm Hf Hok. unfold Controller.delete.
  destruct (until_zero_sub _ Hr) as (_ & _ & _ & Hpos).
  rw delete_loop_outcome //; [lia|]. unfold until_zero in *.
  destruct (Z.eqb_spec (Controller.retry_deletes c) 0) as [->|Hne].
  - rw (proj2 (Z.ltb_lt _ _)) //. by rw orb_true_r.
  - by rw orb_false_r.
Qed.
End DeleteProofs.
