(* ===== verification/StateSystem.v ===== *)
(** * Endpoints and the device state service together

    The client of [StateClient] against the service of [DeviceState], over a
    network that loses requests and responses, while other endpoints use the
    service too: what creating a state comes to, and what holds for all
    endpoints in every interleaving. *)

From S2P Require Import Prelude Store DeviceState StateClient.

(** ** The service behind a network *)

Inductive Fault : Type := Delivered | RequestLost | ResponseLost.

(** What happens up to a call and to it: the others' operations, the time, the
    session ID that would be drawn, and the fate of the call. *)
Record Turn := mkTurn {
  t_others : list StateOp;
  t_now : Z;
  t_uuid : Uuid;
  t_fault : Fault;
}.

Record World := mkWorld { w_db : StateDb; w_turns : list Turn }.

(** When nothing else is planned: nobody interferes and the call arrives. *)
Definition quiet : Turn := mkTurn [] 0 0 Delivered.

Section Network.
Context (timeout : Z) (pg_uuid : string → option Uuid) (print_uuid : Uuid → string).

Definition call {A B} (op : Turn → StateDb → Op A) (endpoint : Turn → result A StateError → Wire.HttpResponse)
    (client : Wire.HttpResponse → result B Wire.ClientError) (w : World)
    : World * result B Wire.ClientError :=
  let turn := default quiet (head (w_turns w)) in
  let db := (state_run timeout pg_uuid (w_db w) (t_others turn)).1 in
  match t_fault turn with
  | RequestLost => (mkWorld db (tail (w_turns w)), Err (Wire.Transport "request"))
  | Delivered =>
      let '(db, _, r) := op turn db in
      (mkWorld db (tail (w_turns w)), client (endpoint turn r))
  | ResponseLost =>
      (mkWorld (op turn db).1.1 (tail (w_turns w)), Err (Wire.Transport "response"))
  end.

#[local] Instance service_client : DeviceStateClient World := {|
  api_create s a d t st :=
    call (λ turn, DeviceState.create pg_uuid known takes_all (t_now turn) s a d t st)
      (λ _, Wire.endpoint_create) Wire.client_create;
  api_delete s a d t skip :=
    call (λ _, DeviceState.delete pg_uuid known takes_all s a d t skip)
      (λ _, Wire.endpoint_delete) Wire.client_delete;
  api_ping s :=
    call (λ turn, DeviceState.ping timeout pg_uuid (t_now turn) s)
      (λ _, Wire.endpoint_ping) Wire.client_ping;
  api_init :=
    call (λ turn, DeviceState.init timeout (t_now turn) (t_uuid turn))
      (λ turn, Wire.endpoint_init (print_uuid (t_uuid turn))) Wire.client_init;
|}.

(** ** Tokens *)

(** An operation of someone who does not have the token. *)
Definition foreign (t : string) (op : StateOp) : Prop :=
  match op with
  | SCreate _ _ _ _ t' _ | SDelete _ _ _ t' _ => t' ≠ t
  | _ => True
  end.

(** The token occurs at most in the state of this device and session. *)
Definition only_at (t : string) (k : string * string) (u : Uuid) (db : StateDb) : Prop :=
  ∀ k' row, states db !! k' = Some row → st_token row = t → k' = k ∧ st_session row = u.

Definition no_token (t : string) (db : StateDb) : Prop :=
  ∀ k row, states db !! k = Some row → st_token row ≠ t.

Lemma no_token_only_at t k u db : no_token t db → only_at t k u db.
Proof. intros Hno k' row Hk Ht. by destruct (Hno k' row Hk). Qed.

(** What any step keeps: rows come from before, with the same session and
    token, or are new with the token of the create. *)
Lemma state_step_rows db op k row :
  states (state_step timeout pg_uuid db op).1 !! k = Some row →
  (∃ row0, states db !! k = Some row0 ∧ st_token row0 = st_token row ∧
     st_session row0 = st_session row) ∨
  (∃ now s a d st, op = SCreate now s a d (st_token row) st ∧ k = (a, d) ∧
     pg_uuid s = Some (st_session row) ∧ states db !! k = None).
Proof.
  destruct op as [now id|now s a d t st|s a d t skip|now s|id]; simpl; intros Hk.
  - unfold init in Hk. destruct (sessions db !! id); simpl in Hk; eauto.
  - unfold create, known, send_connection_event, send_event, takes_all in Hk.
    destruct (pg_uuid s) as [u|] eqn:Hu; simpl in Hk; [|eauto].
    destruct (states db !! (a, d)) as [row0|] eqn:Hr; simpl in Hk.
    + apply lookup_insert_Some in Hk as [[<- <-]|[_ Hk]]; [left; exists row0; done|eauto].
    + destruct (sessions db !! u); simpl in Hk; [|eauto].
      apply lookup_insert_Some in Hk as [[<- <-]|[_ Hk]]; [|eauto].
      right. exists now, s, a, d, st. done.
  - unfold delete in Hk. destruct (pg_uuid s) as [u|]; simpl in Hk; [|eauto].
    destruct (states db !! (a, d)) as [row0|] eqn:Hr; simpl in Hk; [|eauto].
    destruct (_ && _); simpl in Hk; [|eauto].
    destruct (send_disconnect_from_delete _ _ _ _ _ _) as [l [[]|e]]; simpl in Hk; [|eauto].
    apply lookup_delete_Some in Hk as [_ Hk]. eauto.
  - unfold ping in Hk. destruct (pg_uuid s) as [u|]; simpl in Hk; [|eauto].
    destruct (sessions db !! u); simpl in Hk; [|eauto]. destruct (_ <? _)%Z; simpl in Hk; eauto.
  - unfold prune_session in Hk. destruct (send_disconnects _ _ _) as [l [[]|e]]; simpl in Hk; [|eauto].
    apply map_lookup_filter_Some in Hk as [Hk _]. eauto.
Qed.

Lemma state_run_only_at t k u db ops :
  Forall (foreign t) ops → only_at t k u db → only_at t k u (state_run timeout pg_uuid db ops).1.
Proof.
  intros Hf. revert db. induction Hf as [|op ops Hop Hf IH]; intros db Hdb; [done|]. simpl.
  pose proof (λ k' row, state_step_rows db op k' row) as Hrows.
  destruct (state_step timeout pg_uuid db op) as [db1 l1]. simpl in Hrows.
  assert (H1 : only_at t k u db1).
  { intros k' row Hk Ht. destruct (Hrows k' row Hk) as [(row0 & Hr0 & Ht0 & Hs0)|(now & s & a & d & st & -> & _)].
    - rw -Hs0. apply (Hdb k' row0); congruence.
    - by rw Ht in Hop. }
  specialize (IH db1 H1). by destruct (state_run timeout pg_uuid db1 ops).
Qed.

Lemma state_run_no_token t db ops :
  Forall (foreign t) ops → no_token t db → no_token t (state_run timeout pg_uuid db ops).1.
Proof.
  intros Hf Hno k row Hk Ht. destruct (decide (k = (EmptyString, EmptyString))) as [->|Hne].
  - destruct (state_run_only_at t ("a", "") 0 db ops Hf (no_token_only_at _ _ _ _ Hno) _ _ Hk Ht)
      as [Hx _]. discriminate Hx.
  - by destruct (state_run_only_at t ("", "") 0 db ops Hf (no_token_only_at _ _ _ _ Hno) _ _ Hk Ht).
Qed.

(** ** Creating a state *)

Definition all_foreign (t : string) (w : World) : Prop :=
  Forall (λ turn, Forall (foreign t) (t_others turn)) (w_turns w).

Lemma next_foreign t w :
  all_foreign t w → Forall (foreign t) (t_others (default quiet (head (w_turns w)))).
Proof. unfold all_foreign. by destruct 1. Qed.

Lemma rest_foreign t w db : all_foreign t w → all_foreign t (mkWorld db (tail (w_turns w))).
Proof. unfold all_foreign. simpl. by destruct 1. Qed.

(** A delete that was answered removed the state; one that was not may have.
    Without a planned turn it is answered. *)
Lemma api_delete_effect s u a d t skip w w' r :
  pg_uuid s = Some u → all_foreign t w → only_at t (a, d) u (w_db w) →
  api_delete s a d t skip w = (w', r) →
  all_foreign t w' ∧ w_turns w' = tail (w_turns w) ∧ only_at t (a, d) u (w_db w') ∧
  (r = Ok tt → no_token t (w_db w')) ∧ (w_turns w = [] → r = Ok tt).
Proof.
  intros Hu Hf Hat Hcall.
  pose proof (state_run_only_at t (a, d) u (w_db w) _ (next_foreign _ _ Hf) Hat) as H1.
  cbn [api_delete service_client] in Hcall. unfold call in Hcall.
  set (turn := default quiet (head (w_turns w))) in *.
  set (db1 := (state_run timeout pg_uuid (w_db w) (t_others turn)).1) in *.
  assert (Hdel : ∃ db2 sent, DeviceState.delete pg_uuid known takes_all s a d t skip db1 = (db2, sent, Ok tt) ∧
    only_at t (a, d) u db2 ∧ no_token t db2).
  { unfold delete. rw Hu. destruct (states db1 !! (a, d)) as [row|] eqn:Hr; [|].
    - destruct (Z.eqb_spec (st_session row) u) as [Hs|Hs];
        [destruct (string_eqb_spec (st_token row) t) as [Ht|Ht]|]; simpl.
      + pose proof (disconnect_taken a d (st_data row) skip) as Hok.
        destruct (send_disconnect_from_delete _ _ _ _ _ _) as [l x]. simpl in Hok. subst x.
        do 2 eexists. split; [done|]. assert (Hno : no_token t (mkStateDb (sessions db1) (base.delete (a, d) (states db1)))).
        { intros k' row'; simpl; intros [Hne Hk]%lookup_delete_Some Ht'. destruct (H1 k' row' Hk Ht'). congruence. }
        split; [by apply no_token_only_at|done].
      + do 2 eexists. split; [done|]. split; [done|]. intros k' row' Hk Ht'.
        destruct (H1 k' row' Hk Ht') as [-> _]. congruence.
      + do 2 eexists. split; [done|]. split; [done|]. intros k' row' Hk Ht'.
        destruct (H1 k' row' Hk Ht') as [-> ?]. congruence.
    - do 2 eexists. split; [done|]. split; [done|]. intros k' row' Hk Ht'.
      destruct (H1 k' row' Hk Ht') as [-> _]. congruence. }
  destruct Hdel as (db2 & sent & Hdel & Hat2 & Hno2). rw Hdel in Hcall.
  assert (Hnil : w_turns w = [] → t_fault turn = Delivered) by (unfold turn; by intros ->).
  destruct (t_fault turn); simplify_eq/=; split_and!; try done; try (by apply rest_foreign).
  all: intros Hw; by specialize (Hnil Hw).
Qed.

Lemma delete_loop_clean fuel c u a d t skip attempts kill w :
  pg_uuid (Controller.session c) = Some u → all_foreign t w → only_at t (a, d) u (w_db w) →
  length (w_turns w) < fuel →
  ∃ w' kill' e, Controller.delete_loop fuel c a d t skip attempts kill w = Some (w', kill', e) ∧
    match e with
    | Controller.DeleteDone => no_token t (w_db w')
    | Controller.DeleteAbort => only_at t (a, d) u (w_db w') ∧ kill' = false
    end.
Proof.
  intros Hu. revert attempts kill w. induction fuel as [|fuel IH]; intros attempts kill w Hf Hat Hlen; [lia|].
  cbn [Controller.delete_loop].
  destruct (api_delete _ _ _ _ _ _) as [w1 r] eqn:Hcall.
  destruct (api_delete_effect _ _ _ _ _ _ _ _ _ Hu Hf Hat Hcall) as (Hf1 & Ht1 & Hat1 & Hno & Hnil).
  destruct r as [[]|e]; [do 3 eexists; split; [done|]; by apply Hno|].
  assert (Hlen1 : length (w_turns w1) < fuel).
  { rw Ht1. destruct (w_turns w); simpl in *; [by specialize (Hnil eq_refl)|lia]. }
  cbv zeta. destruct (_ =? 0)%Z; [destruct kill|]; try (by apply IH).
  by do 3 eexists; split; [done|].
Qed.

Lemma api_create_effect s u a d t st w w' r :
  pg_uuid s = Some u → all_foreign t w → no_token t (w_db w) →
  api_create s a d t st w = (w', r) →
  all_foreign t w' ∧ length (w_turns w') ≤ length (w_turns w) ∧ only_at t (a, d) u (w_db w') ∧
  match r with
  | Ok Created => ∃ now, states (w_db w') !! (a, d) = Some (mkStateRow u t now false (Some st))
  | Ok Occupied => no_token t (w_db w') ∧
      ∃ row, states (w_db w') !! (a, d) = Some row ∧ st_lost row = true
  | Err _ => True
  end.
Proof.
  intros Hu Hf Hno Hcall.
  pose proof (state_run_no_token t (w_db w) _ (next_foreign _ _ Hf) Hno) as H1.
  cbn [api_create service_client] in Hcall. unfold call in Hcall.
  set (turn := default quiet (head (w_turns w))) in *.
  set (db1 := (state_run timeout pg_uuid (w_db w) (t_others turn)).1) in *.
  assert (Hlen : length (tail (w_turns w)) ≤ length (w_turns w)) by (destruct (w_turns w); simpl; lia).
  assert (Hop : only_at t (a, d) u (DeviceState.create pg_uuid known takes_all (t_now turn) s a d t st db1).1.1).
  { intros k' row Hk Ht.
    destruct (state_step_rows db1 (SCreate (t_now turn) s a d t st) k' row Hk)
      as [(row0 & Hr0 & Ht0 & _)|(now & s' & a' & d' & st' & Heq & -> & Hu' & _)].
    - destruct (H1 k' row0 Hr0). congruence.
    - simplify_eq. split; [done|]. congruence. }
  destruct (t_fault turn); simplify_eq/=; [|split_and!; auto using rest_foreign, no_token_only_at..].
  unfold create, known, send_connection_event, send_event, takes_all in Hcall, Hop. rw Hu in Hcall, Hop.
  destruct (states db1 !! (a, d)) as [row|] eqn:Hr; simplify_eq/=.
  - split_and!; auto using rest_foreign; [|eexists; split; [apply lookup_insert_eq|done]].
    intros k' row'; simpl; intros [[<- <-]|[_ Hk]]%lookup_insert_Some; [by apply (H1 _ _ Hr)|by apply (H1 _ _ Hk)].
  - destruct (sessions db1 !! u); simplify_eq/=; split_and!; auto using rest_foreign.
    eexists. apply lookup_insert_eq.
Qed.

(** C33: what creating a state comes to, over a network that loses finitely many requests and
    responses, while others use the service with tokens of their own: with fuel for one call
    more than turns are planned, the attempt ends; if it reports success, the state is there
    with the session, the token and the data of the caller, no other state has the token, and
    the mux has the watcher's channel; if it reports that the device is occupied, the holder's
    state is marked as lost, and if it reports that or a failure, no state with the token is
    left behind.  If it ends the process instead (the recovery ran out of attempts, and the
    runner had been stopped before), at most the state of the device, in the session of the
    endpoint, is left with the token.  Unless it reports success, the mux is as before. *)
Theorem create_outcome max_attempts fuel c u a d uid t lwt chan sh w :
  pg_uuid (Controller.session c) = Some u → no_token t (w_db w) → all_foreign t w →
  length (w_turns w) < fuel →
  ∃ w' sh' notes o,
    Controller.create max_attempts fuel c a d uid t lwt chan sh w = Some (w', sh', notes, o) ∧
    match o with
    | Controller.StateCreated ch => ch = chan ∧
        (∃ now, states (w_db w') !! (a, d)
           = Some (mkStateRow u t now false (Some (mkState uid (Controller.endpoint c) lwt)))) ∧
        only_at t (a, d) u (w_db w') ∧
        Controller.mux sh' !! (a, d) = Some (Mux.mkEntry t chan)
    | Controller.StateOccupied => no_token t (w_db w') ∧ Controller.mux sh' = Controller.mux sh ∧
        ∃ row, states (w_db w') !! (a, d) = Some row ∧ st_lost row = true
    | Controller.StateFailed => no_token t (w_db w') ∧ Controller.mux sh' = Controller.mux sh
    | Controller.StateAborted => only_at t (a, d) u (w_db w') ∧
        Controller.mux sh' = Controller.mux sh ∧ Controller.kill_tx sh' = false
    end.
Proof.
  intros Hu. unfold Controller.create. set (st := mkState _ _ _). revert w.
  induction max_attempts as [|n IH]; intros w Hno Hf Hlen; cbn [Controller.create_loop].
  all: destruct (api_create _ _ _ _ _ _) as [w1 r] eqn:Hcall.
  all: destruct (api_create_effect _ _ _ _ _ _ _ _ _ Hu Hf Hno Hcall) as (Hf1 & Hl1 & Hat & Hr).
  all: destruct r as [[|]|e].
  all: try (destruct (delete_loop_clean fuel c u a d t false (Controller.retry_deletes c)
    (Controller.kill_tx sh) w1 Hu Hf1 Hat ltac:(lia)) as (w' & kill' & [|] & Hd & Hclean);
    unfold Controller.delete; rw Hd; do 4 eexists; (split; [done|]); simpl; [by auto|by destruct Hclean]).
  - simpl. do 4 eexists. split; [done|]. simpl. split_and!; [done|done|done|apply lookup_insert_eq].
  - destruct Hr as [? ?]. by do 4 eexists.
  - simpl. do 4 eexists. split; [done|]. simpl. split_and!; [done|done|done|apply lookup_insert_eq].
  - destruct Hr as [? _]. apply IH; [done|done|lia].
Qed.
End Network.

(** ** Many endpoints

    Every endpoint process has a session, a mux, the tokens of its calls and
    handles, and the lost devices a ping reported that it did not handle yet.
    A token is in use from the start of [create]: the call is trying to create
    the state, the handle is live, a failed creation is being cleaned up, the
    handle is being deleted, or it was deleted at the service and still has to
    be removed from the mux.  Calls to the service of different endpoints, and
    of different devices at one endpoint, interleave. *)

Inductive Phase : Type := PCreating | PLive | PRecover | PDeleting | PRemoving.

Record Ep := mkEp {
  ep_uuid : Uuid;
  ep_mux : Mux.Mux;
  ep_handles : gmap string ((string * string) * Phase * nat);
  ep_lost : list (string * string);
  ep_notes : Mux.Notes;
}.

Definition ep_new (u : Uuid) : Ep := mkEp u ∅ ∅ [] [].
Definition with_handles x e := mkEp (ep_uuid e) (ep_mux e) x (ep_lost e) (ep_notes e).
Definition with_lost x e := mkEp (ep_uuid e) (ep_mux e) (ep_handles e) x (ep_notes e).
Definition with_mux (m : Mux.Mux * Mux.Notes) e :=
  mkEp (ep_uuid e) m.1 (ep_handles e) (ep_lost e) (ep_notes e ++ m.2).

(** The service, the endpoints, and the tokens drawn so far. *)
Record Sys := mkSys { sys_db : StateDb; sys_eps : gmap nat Ep; sys_used : gset string }.

Section System.
Context (timeout : Z) (pg_uuid : string → option Uuid) (print_uuid : Uuid → string).

Definition svc_create (now : Z) (u : Uuid) (id : string * string) (t : string)
    (st : DeviceStateData) (db : StateDb) : Op CreateResponse :=
  DeviceState.create pg_uuid known takes_all now (print_uuid u) id.1 id.2 t st db.
Definition svc_delete (u : Uuid) (id : string * string) (t : string) (skip : bool) (db : StateDb)
    : Op unit :=
  DeviceState.delete pg_uuid known takes_all (print_uuid u) id.1 id.2 t skip db.
Definition svc_ping (now : Z) (u : Uuid) (db : StateDb) : Op (Z * list (string * string)) :=
  DeviceState.ping timeout pg_uuid now (print_uuid u) db.

(** What the endpoint does after an attempt to create. *)
Definition after_create (fault : Fault) (r : result CreateResponse StateError)
    (id : string * string) (t : string) (chan : nat) (e : Ep) : Ep :=
  match fault, r with
  | Delivered, Ok Created =>
      with_handles (<[t := (id, PLive, chan)]> (ep_handles e))
        (with_mux (Mux.added id t chan (ep_mux e)) e)
  | Delivered, Ok Occupied => e
  | _, _ => with_handles (<[t := (id, PRecover, chan)]> (ep_handles e)) e
  end.

(** What it does after an attempt to delete. *)
Definition after_delete (fault : Fault) (r : result unit StateError) (id : string * string)
    (t : string) (ph : Phase) (chan : nat) (e : Ep) : Ep :=
  match fault, r, ph with
  | Delivered, Ok _, PRecover => with_handles (base.delete t (ep_handles e)) e
  | Delivered, Ok _, _ => with_handles (<[t := (id, PRemoving, chan)]> (ep_handles e)) e
  | _, _, _ => e
  end.

(** The database after a call. *)
Definition reached {A} (fault : Fault) (op : Op A) (db : StateDb) : StateDb :=
  match fault with RequestLost => db | _ => op.1.1 end.

Inductive sys_step : Sys → Sys → Prop :=
| ss_init db eps used n u now :
    eps !! n = None → (∀ m e, eps !! m = Some e → ep_uuid e ≠ u) →
    sys_step (mkSys db eps used)
      (mkSys (DeviceState.init timeout now u db).1.1
         (if DeviceState.init timeout now u db is (_, _, Ok _)
          then <[n := ep_new u]> eps else eps) used)
| ss_begin db eps used n e id t chan :
    eps !! n = Some e → t ∉ used →
    sys_step (mkSys db eps used)
      (mkSys db (<[n := with_handles (<[t := (id, PCreating, chan)]> (ep_handles e)) e]> eps)
         ({[t]} ∪ used))
| ss_create db eps used n e id t chan st now fault :
    eps !! n = Some e → ep_handles e !! t = Some (id, PCreating, chan) →
    let op := svc_create now (ep_uuid e) id t st db in
    sys_step (mkSys db eps used)
      (mkSys (reached fault op db) (<[n := after_create fault op.2 id t chan e]> eps) used)
| ss_give_up db eps used n e id t chan :
    eps !! n = Some e → ep_handles e !! t = Some (id, PCreating, chan) →
    sys_step (mkSys db eps used)
      (mkSys db (<[n := with_handles (base.delete t (ep_handles e)) e]> eps) used)
| ss_close db eps used n e id t chan :
    eps !! n = Some e → ep_handles e !! t = Some (id, PLive, chan) →
    sys_step (mkSys db eps used)
      (mkSys db (<[n := with_handles (<[t := (id, PDeleting, chan)]> (ep_handles e)) e]> eps) used)
| ss_delete db eps used n e id t ph chan skip fault :
    eps !! n = Some e → ep_handles e !! t = Some (id, ph, chan) → (ph = PRecover ∨ ph = PDeleting) →
    let op := svc_delete (ep_uuid e) id t skip db in
    sys_step (mkSys db eps used)
      (mkSys (reached fault op db) (<[n := after_delete fault op.2 id t ph chan e]> eps) used)
| ss_removed db eps used n e id t chan :
    eps !! n = Some e → ep_handles e !! t = Some (id, PRemoving, chan) →
    sys_step (mkSys db eps used)
      (mkSys db (<[n := with_handles (base.delete t (ep_handles e))
                          (with_mux (Mux.deleted id t (ep_mux e)) e)]> eps) used)
| ss_ping db eps used n e now fault :
    eps !! n = Some e → ep_lost e = [] →
    let op := svc_ping now (ep_uuid e) db in
    sys_step (mkSys db eps used)
      (mkSys (reached fault op db)
         (match fault, op.2 with
          | Delivered, Ok (_, lost) => <[n := with_lost lost e]> eps
          | _, _ => eps
          end) used)
| ss_lost db eps used n e id rest :
    eps !! n = Some e → ep_lost e = id :: rest →
    sys_step (mkSys db eps used)
      (mkSys db (<[n := with_lost rest (with_mux (Mux.handle_lost id (ep_mux e)) e)]> eps) used)
| ss_prune db eps used u :
    sys_step (mkSys db eps used)
      (mkSys (DeviceState.prune_session known takes_all u db).1.1 eps used)
| ss_die db eps used n :
    sys_step (mkSys db eps used) (mkSys db (base.delete n eps) used).

Inductive sys_reach : Sys → Prop :=
| sr_start : sys_reach (mkSys (mkStateDb ∅ ∅) ∅ ∅)
| sr_step s s' : sys_reach s → sys_step s s' → sys_reach s'.
End System.

(** ** The invariant *)

(** Who holds a device, and which sessions are open. *)
Definition holder (db : StateDb) (k : string * string) : option (Uuid * string) :=
  (λ row, (st_session row, st_token row)) <$> states db !! k.
Definition is_open (db : StateDb) (u : Uuid) : Prop := is_Some (sessions db !! u).

(** The phases in which the state may exist. *)
Definition held (ph : Phase) : Prop := ph = PLive ∨ ph = PRecover ∨ ph = PDeleting.

(** What holds of one endpoint: its states in the database belong to its
    handles, a live handle has its state as long as the session is open, and
    its watcher is in the mux or was told. *)
Record ep_ok (db : StateDb) (e : Ep) : Prop := {
  eo_rows k t : holder db k = Some (ep_uuid e, t) →
    ∃ ph ch, ep_handles e !! t = Some (k, ph, ch) ∧ held ph;
  eo_live t id ch : ep_handles e !! t = Some (id, PLive, ch) → is_open db (ep_uuid e) →
    holder db id = Some (ep_uuid e, t);
  eo_told t id ch : ep_handles e !! t = Some (id, PLive, ch) →
    ep_mux e !! id = Some (Mux.mkEntry t ch) ∨ ∃ cause, (ch, cause) ∈ ep_notes e;
}.

Record sys_inv (s : Sys) : Prop := {
  si_eps n e : sys_eps s !! n = Some e → ep_ok (sys_db s) e;
  si_open k u t : holder (sys_db s) k = Some (u, t) → is_open (sys_db s) u;
  si_used n e t x : sys_eps s !! n = Some e → ep_handles e !! t = Some x → t ∈ sys_used s;
  si_row_used k u t : holder (sys_db s) k = Some (u, t) → t ∈ sys_used s;
  si_tokens n m e f t x y : sys_eps s !! n = Some e → sys_eps s !! m = Some f →
    ep_handles e !! t = Some x → ep_handles f !! t = Some y → n = m;
  si_sessions n m e f : sys_eps s !! n = Some e → sys_eps s !! m = Some f →
    ep_uuid e = ep_uuid f → n = m;
}.

(** *** The operations of the service, as changes of the holders *)

Section Holders.
Context (timeout : Z) (pg_uuid : string → option Uuid) (print_uuid : Uuid → string).
Context (Hparse : ∀ u, pg_uuid (print_uuid u) = Some u).

Lemma svc_create_holder now u id t st db :
  let op := svc_create pg_uuid print_uuid now u id t st db in
  sessions op.1.1 = sessions db ∧
  ((op.2 = Ok Created ∧ is_open db u ∧ holder db id = None ∧
      ∀ k, holder op.1.1 k = if bool_decide (k = id) then Some (u, t) else holder db k) ∨
   (op.2 ≠ Ok Created ∧ ∀ k, holder op.1.1 k = holder db k)).
Proof.
  destruct id as [a d]. unfold svc_create, create, known, send_connection_event, send_event, takes_all.
  simpl. rw Hparse. unfold holder, is_open.
  destruct (states db !! (a, d)) as [row|] eqn:Hr; simpl.
  - split; [done|]. right. split; [done|]. intros k.
    destruct (decide ((a, d) = k)) as [<-|Hne]; [by rw lookup_insert_eq Hr|by rw lookup_insert_ne].
  - destruct (sessions db !! u) eqn:Hs; simpl; (split; [done|]); [left|by right].
    split_and!; try done. intros k. case_bool_decide as Hk; [subst k|];
      [by rw lookup_insert_eq|by rw lookup_insert_ne].
Qed.

Lemma svc_delete_holder u id t skip db :
  let op := svc_delete pg_uuid print_uuid u id t skip db in
  sessions op.1.1 = sessions db ∧ op.2 = Ok tt ∧
  ∀ k, holder op.1.1 k =
    if bool_decide (k = id ∧ holder db k = Some (u, t)) then None else holder db k.
Proof.
  destruct id as [a d]. unfold svc_delete, delete. simpl. rw Hparse. unfold holder.
  destruct (states db !! (a, d)) as [row|] eqn:Hr.
  - destruct (Z.eqb_spec (st_session row) u) as [Hs|Hs];
      [destruct (string_eqb_spec (st_token row) t) as [Ht|Ht]|]; simpl.
    + pose proof (disconnect_taken a d (st_data row) skip) as Hok.
      destruct (send_disconnect_from_delete _ _ _ _ _ _) as [l x]. simpl in Hok. subst x. simpl.
      split_and!; try done. intros k. case_bool_decide as Hk.
      * destruct Hk as [-> _]. by rw lookup_delete_eq.
      * destruct (decide (k = (a, d))) as [->|Hne]; [|by rw lookup_delete_ne].
        destruct Hk. split; [done|]. rw Hr /=. by subst.
    + split_and!; try done. intros k. case_bool_decide as Hk; [|done]. destruct Hk as [-> Hk].
      rw Hr in Hk. by simplify_eq/=.
    + split_and!; try done. intros k. case_bool_decide as Hk; [|done]. destruct Hk as [-> Hk].
      rw Hr in Hk. by simplify_eq/=.
  - split_and!; try done. intros k. case_bool_decide as Hk; [|done]. destruct Hk as [-> Hk].
    by rw Hr in Hk.
Qed.

Lemma svc_ping_holder now u db :
  let op := svc_ping timeout pg_uuid print_uuid now u db in
  (∀ k, holder op.1.1 k = holder db k) ∧ (∀ u', is_open op.1.1 u' ↔ is_open db u').
Proof.
  unfold svc_ping, ping, is_open. simpl. rw Hparse. destruct (sessions db !! u) eqn:Hs; simpl; [|done].
  destruct (_ <? _)%Z; simpl; [|done]. split; [done|]. intros u'.
  destruct (decide (u = u')) as [<-|Hne]; [by rw lookup_insert_eq Hs|by rw lookup_insert_ne].
Qed.

Lemma prune_holder u db :
  let db' := (DeviceState.prune_session known takes_all u db).1.1 in
  (∀ k u' t, holder db' k = Some (u', t) ↔ holder db k = Some (u', t) ∧ u' ≠ u) ∧
  (∀ u', is_open db' u' ↔ is_open db u' ∧ u' ≠ u).
Proof.
  unfold prune_session.
  pose proof (disconnects_taken (map_to_list (filter (λ '(_, row), st_session row = u) (states db)))) as Hok.
  destruct (send_disconnects _ _ _) as [l r]. simpl in Hok. subst r. simpl. unfold holder, is_open. simpl.
  split.
  - intros k u' t. rw !fmap_Some. setoid_rewrite map_lookup_filter_Some. naive_solver.
  - intros u'. destruct (decide (u = u')) as [->|Hne].
    + rw lookup_delete_eq. split; [by intros []|naive_solver].
    + rw lookup_delete_ne //. naive_solver.
Qed.

(** *** One endpoint moves *)

(** An endpoint changes its own part, and the holders only for its session. *)
Lemma inv_move db db' eps used used' n e e' :
  sys_inv (mkSys db eps used) → eps !! n = Some e → ep_uuid e' = ep_uuid e →
  used ⊆ used' →
  (∀ u, is_open db' u ↔ is_open db u) →
  (∀ k u t, u ≠ ep_uuid e → holder db' k = Some (u, t) ↔ holder db k = Some (u, t)) →
  (∀ k t, holder db' k = Some (ep_uuid e, t) → is_open db (ep_uuid e)) →
  (∀ t x, ep_handles e' !! t = Some x → is_Some (ep_handles e !! t) ∨ (t ∉ used ∧ t ∈ used')) →
  ep_ok db' e' →
  sys_inv (mkSys db' (<[n := e']> eps) used').
Proof.
  intros [Heps Hopen Hused Hrow Htok Hsess] Hn Hu Hsub Hop Hoth Hown Hh Hok.
  assert (Hin : ∀ t x, ep_handles e' !! t = Some x → t ∈ used').
  { intros t x [[y Hy]|[_ ?]]%Hh; [|done]. apply Hsub. by eapply Hused. }
  assert (Hnew : ∀ m f t x y, m ≠ n → eps !! m = Some f → ep_handles e' !! t = Some x →
    ep_handles f !! t = Some y → False).
  { intros m f t x y Hm Hf [[z Hz]|[Hno _]]%Hh Hy; [apply Hm; by eapply Htok|].
    apply Hno. by eapply Hused. }
  split; simpl in *.
  - intros m f [[-> <-]|[Hne Hf]]%lookup_insert_Some; [done|].
    assert (Hud : ep_uuid f ≠ ep_uuid e) by (intros ?; apply Hne; by eapply Hsess).
    destruct (Heps m f Hf) as [Hr Hl Ht]. split; [|intros t id ch ? ?|done].
    + intros k t Hk. apply Hr, Hoth; done.
    + apply Hoth; [done|]. eapply Hl; [done|]. by apply Hop.
  - intros k u t Hk. apply Hop. destruct (decide (u = ep_uuid e)) as [->|Hne]; [by eapply Hown|].
    eapply Hopen. by apply Hoth.
  - intros m f t x [[-> <-]|[Hne Hf]]%lookup_insert_Some Hx; [by eapply Hin|].
    apply Hsub. by eapply Hused.
  - intros k u t Hk. destruct (decide (u = ep_uuid e)) as [->|Hne].
    + rw -Hu in Hk. apply Hok in Hk as (ph & ch & Hx & _). by eapply Hin.
    + apply Hsub. eapply Hrow. by apply Hoth.
  - intros m1 m2 f1 f2 t x y [[-> <-]|[Hne1 Hf1]]%lookup_insert_Some
      [[-> <-]|[Hne2 Hf2]]%lookup_insert_Some Hx Hy; try done.
    + by destruct (Hnew m2 f2 t x y).
    + by destruct (Hnew m1 f1 t y x).
    + by eapply Htok.
  - intros m1 m2 f1 f2 [[-> <-]|[Hne1 Hf1]]%lookup_insert_Some
      [[-> <-]|[Hne2 Hf2]]%lookup_insert_Some Hx; try done.
    + rw Hu in Hx. by eapply Hsess.
    + rw Hu in Hx. by eapply Hsess.
    + by eapply Hsess.
Qed.

(** The database stays as it is. *)
Lemma inv_local db eps used n e e' :
  sys_inv (mkSys db eps used) → eps !! n = Some e → ep_uuid e' = ep_uuid e →
  (∀ t x, ep_handles e' !! t = Some x → is_Some (ep_handles e !! t)) →
  ep_ok db e' → sys_inv (mkSys db (<[n := e']> eps) used).
Proof.
  intros Hinv Hn Hu Hh Hok. eapply inv_move; try done.
  - intros k t Hk. by apply (si_open _ Hinv k _ t).
  - intros t x ?. left. by eapply Hh.
Qed.

(** *** Every step keeps the invariant *)

Lemma begin_ok db e id t chan :
  ep_handles e !! t = None → ep_ok db e →
  ep_ok db (with_handles (<[t := (id, PCreating, chan)]> (ep_handles e)) e).
Proof.
  intros Hnew [Hr Hl Ht]. split; simpl.
  - intros k t' Hk. destruct (Hr k t' Hk) as (ph & ch & Hx & ?). exists ph, ch.
    rw lookup_insert_ne //. congruence.
  - intros t' id' ch [[<- [=]]|[_ ?]]%lookup_insert_Some. by eapply Hl.
  - intros t' id' ch [[<- [=]]|[_ ?]]%lookup_insert_Some. by eapply Ht.
Qed.

(** A handle that is not (or no longer) live changes its phase, or goes. *)
Lemma phase_ok db e id t ph ch ph' :
  ep_ok db e → ep_handles e !! t = Some (id, ph, ch) → ph' ≠ PLive →
  (held ph' ∨ ∀ k, holder db k ≠ Some (ep_uuid e, t)) →
  ep_ok db (with_handles (<[t := (id, ph', ch)]> (ep_handles e)) e).
Proof.
  intros [Hr Hl Ht] Hh Hph Hrow. split; simpl.
  - intros k t' Hk. destruct (Hr k t' Hk) as (ph0 & ch0 & Hx & ?).
    destruct (decide (t' = t)) as [->|Hne].
    + simplify_eq. exists ph', ch. rw lookup_insert_eq. split; [done|].
      destruct Hrow as [?|Hno]; [done|by apply Hno in Hk].
    + exists ph0, ch0. by rw lookup_insert_ne.
  - intros t' id' ch' [[<- ?]|[_ ?]]%lookup_insert_Some; [by simplify_eq|by eapply Hl].
  - intros t' id' ch' [[<- ?]|[_ ?]]%lookup_insert_Some; [by simplify_eq|by eapply Ht].
Qed.

Lemma gone_ok db e t :
  ep_ok db e → (∀ k, holder db k ≠ Some (ep_uuid e, t)) →
  ep_ok db (with_handles (base.delete t (ep_handles e)) e).
Proof.
  intros [Hr Hl Ht] Hno. split; simpl.
  - intros k t' Hk. destruct (Hr k t' Hk) as (ph & ch & ? & ?). exists ph, ch.
    rw lookup_delete_ne //. intros ->. by destruct (Hno k).
  - intros t' id ch [_ ?]%lookup_delete_Some. by eapply Hl.
  - intros t' id ch [_ ?]%lookup_delete_Some. by eapply Ht.
Qed.

(** A token in a phase without a state has none. *)
Lemma not_held_no_row db e id t ph ch k :
  ep_ok db e → ep_handles e !! t = Some (id, ph, ch) → ¬ held ph →
  holder db k ≠ Some (ep_uuid e, t).
Proof. intros Hok Hh Hph Hk. apply Hok in Hk as (? & ? & ? & ?). by simplify_eq. Qed.

(** Changes of the mux keep every live watcher in it, or tell it. *)
Lemma mux_ok db e m :
  ep_ok db e →
  (∀ t id ch, ep_handles e !! t = Some (id, PLive, ch) → ep_mux e !! id = Some (Mux.mkEntry t ch) →
     m.1 !! id = Some (Mux.mkEntry t ch) ∨ ∃ cause, (ch, cause) ∈ m.2) →
  ep_ok db (with_mux m e).
Proof.
  intros [Hr Hl Ht] Hm. split; simpl; [done|done|]. intros t id ch Hh.
  setoid_rewrite elem_of_app. destruct (Ht t id ch Hh) as [Hx|[cause ?]]; [|naive_solver].
  destruct (Hm t id ch Hh Hx); naive_solver.
Qed.

(** The database after a call that changed no holder. *)
Lemma same_holders_ok db db' e :
  sessions db' = sessions db → (∀ k, holder db' k = holder db k) → ep_ok db e → ep_ok db' e.
Proof.
  intros Hs Hh [Hr Hl Ht]. split; [| |exact Ht].
  - intros k t. rw Hh. apply Hr.
  - intros t id ch Hx. unfold is_open. rw Hs Hh. by eapply Hl.
Qed.

Lemma inv_same_holders db db' eps used n e e' :
  sys_inv (mkSys db eps used) → eps !! n = Some e → ep_uuid e' = ep_uuid e →
  sessions db' = sessions db → (∀ k, holder db' k = holder db k) →
  (∀ t x, ep_handles e' !! t = Some x → is_Some (ep_handles e !! t)) →
  ep_ok db e' → sys_inv (mkSys db' (<[n := e']> eps) used).
Proof.
  intros Hinv Hn Hu Hs Hh Hx Hok. eapply (inv_move db db'); try done.
  - unfold is_open. by rw Hs.
  - intros k u t _. by rw Hh.
  - intros k t. rw Hh. apply (si_open _ Hinv).
  - intros t x ?. left. by eapply Hx.
  - by eapply same_holders_ok.
Qed.

(** The database after the state was created. *)
Lemma inv_created db db' eps used n e e' id t :
  sys_inv (mkSys db eps used) → eps !! n = Some e → ep_uuid e' = ep_uuid e →
  sessions db' = sessions db → is_open db (ep_uuid e) → holder db id = None →
  (∀ k, holder db' k = if bool_decide (k = id) then Some (ep_uuid e, t) else holder db k) →
  (∀ t x, ep_handles e' !! t = Some x → is_Some (ep_handles e !! t)) →
  ep_ok db' e' → sys_inv (mkSys db' (<[n := e']> eps) used).
Proof.
  intros Hinv Hn Hu Hs Hopen Hfree Hh Hx Hok. eapply (inv_move db db'); try done.
  - unfold is_open. by rw Hs.
  - intros k u t' Hne. rw Hh. case_bool_decide; [subst; rw Hfree; naive_solver|done].
  - intros t' x ?. left. by eapply Hx.
Qed.

Section Create.
Context (db : StateDb) (eps : gmap nat Ep) (used : gset string) (n : nat) (e : Ep).
Context (id : string * string) (t : string) (chan : nat).
Context (Hinv : sys_inv (mkSys db eps used)) (Hn : eps !! n = Some e).
Context (Hh : ep_handles e !! t = Some (id, PCreating, chan)).

Lemma insert_known ph t' x :
  <[t := (id, ph, chan)]> (ep_handles e) !! t' = Some x → is_Some (ep_handles e !! t').
Proof using Hh. intros [[<- _]|[_ ?]]%lookup_insert_Some; eauto. Qed.

Lemma recover_ok : ep_ok db (with_handles (<[t := (id, PRecover, chan)]> (ep_handles e)) e).
Proof using Hinv Hn Hh. eapply phase_ok; [by apply (si_eps _ Hinv n)|done|done|left; right; by left]. Qed.

(** The state was created; the endpoint knows ([PLive]) or not ([PRecover]). *)
Lemma created_ok db' ph m :
  sessions db' = sessions db → is_open db (ep_uuid e) → holder db id = None →
  (∀ k, holder db' k = if bool_decide (k = id) then Some (ep_uuid e, t) else holder db k) →
  (ph = PLive ∧ m = Mux.added id t chan (ep_mux e) ∨ ph = PRecover ∧ m = (ep_mux e, [])) →
  ep_ok db' (with_handles (<[t := (id, ph, chan)]> (ep_handles e)) (with_mux m e)).
Proof using Hinv Hn Hh.
  intros Hs Hopen Hfree Hhold Hph. destruct (si_eps _ Hinv n e Hn) as [Hr Hl Ht]. simpl in *.
  assert (Hne : ∀ t' id' ch, ep_handles e !! t' = Some (id', PLive, ch) → id' ≠ id).
  { intros t' id' ch Hx ->. pose proof (Hl t' id ch Hx Hopen). congruence. }
  split; simpl.
  - intros k t'. rw Hhold. case_bool_decide as Hk.
    + intros [= <-]. subst k. exists ph, chan. rw lookup_insert_eq. split; [done|].
      unfold held. naive_solver.
    + intros Hk'. destruct (Hr k t' Hk') as (ph' & ch & Hx & Hheld). exists ph', ch.
      rw lookup_insert_ne //. intros ->. rw Hh in Hx. simplify_eq.
  - intros t' id' ch [[<- ?]|[_ Hx]]%lookup_insert_Some _; rw Hhold; simplify_eq.
    + by rw bool_decide_true.
    + rw bool_decide_false; [by eapply Hne|by eapply Hl].
  - intros t' id' ch [[<- ?]|[_ Hx]]%lookup_insert_Some; simplify_eq.
    + destruct Hph as [[_ ->]|[? _]]; [left; apply lookup_insert_eq|done].
    + setoid_rewrite elem_of_app. destruct (Ht t' id' ch Hx) as [Hm|[cause ?]]; [left|naive_solver].
      destruct Hph as [[_ ->]|[_ ->]]; [|done]. simpl. rw lookup_insert_ne //.
      apply not_eq_sym. by eapply Hne.
Qed.

Lemma create_move st now fault :
  let op := svc_create pg_uuid print_uuid now (ep_uuid e) id t st db in
  sys_inv (mkSys (reached fault op db) (<[n := after_create fault op.2 id t chan e]> eps) used).
Proof using Hinv Hn Hh Hparse.
  intros op. destruct (svc_create_holder now (ep_uuid e) id t st db) as [Hs Hcase].
  fold op in Hs, Hcase.
  destruct fault; [| |].
  - destruct Hcase as [(Hr & Hopen & Hfree & Hhold)|(Hr & Hhold)]; simpl.
    + rw Hr. eapply inv_created; try done; [apply insert_known|].
      eapply created_ok; try done. by left.
    + destruct op.2 as [[]|]; [done| |]; eapply inv_same_holders; try done; simpl.
      all: try apply insert_known; try apply recover_ok; by apply (si_eps _ Hinv n).
  - simpl. eapply inv_local; try done; [apply insert_known|apply recover_ok].
  - destruct Hcase as [(Hr & Hopen & Hfree & Hhold)|(Hr & Hhold)]; simpl.
    + eapply inv_created; try done; [apply insert_known|].
      pose proof (created_ok op.1.1 PRecover (ep_mux e, []) Hs Hopen Hfree Hhold) as Hok.
      unfold with_mux in Hok. simpl in Hok. rw app_nil_r in Hok. apply Hok. by right.
    + eapply inv_same_holders; try done; [apply insert_known|apply recover_ok].
Qed.
End Create.

Lemma delete_move db eps used n e id t ph chan skip fault :
  let op := svc_delete pg_uuid print_uuid (ep_uuid e) id t skip db in
  sys_inv (mkSys db eps used) → eps !! n = Some e →
  ep_handles e !! t = Some (id, ph, chan) → (ph = PRecover ∨ ph = PDeleting) →
  sys_inv (mkSys (reached fault op db) (<[n := after_delete fault op.2 id t ph chan e]> eps) used).
Proof using Hparse.
  intros op Hinv Hn Hh Hph. pose proof (si_eps _ Hinv n e Hn) as Hok. simpl in Hok.
  destruct (svc_delete_holder (ep_uuid e) id t skip db) as (Hs & Hr & Hhold). fold op in Hs, Hr, Hhold.
  assert (Hsame : e = with_handles (<[t := (id, ph, chan)]> (ep_handles e)) e)
    by (unfold with_handles; rw insert_id //; by destruct e).
  assert (Hno : ∀ k, holder op.1.1 k ≠ Some (ep_uuid e, t)).
  { intros k. rw Hhold. case_bool_decide as Hk; [done|]. intros Hk'.
    destruct (eo_rows _ _ Hok k t Hk') as (? & ? & Hx & _). rw Hh in Hx. simplify_eq. naive_solver. }
  assert (Hok' : ep_ok op.1.1 e).
  { destruct Hok as [Hrow Hlive Htold]. split; [| |exact Htold].
    - intros k t'. rw Hhold. case_bool_decide; [done|apply Hrow].
    - intros t' id' ch Hx. unfold is_open. rw Hs Hhold. intros Hop.
      pose proof (Hlive t' id' ch Hx Hop) as Hl. rw bool_decide_false; [|done].
      intros [-> Heq]. rw Hl in Heq. injection Heq as ->. rw Hh in Hx. by destruct Hph; simplify_eq. }
  assert (Hmove : ∀ e', ep_uuid e' = ep_uuid e → ep_ok op.1.1 e' →
    (∀ t' x, ep_handles e' !! t' = Some x → is_Some (ep_handles e !! t')) →
    sys_inv (mkSys op.1.1 (<[n := e']> eps) used)).
  { intros e' Hu He Hx. eapply (inv_move db op.1.1); try done.
    - unfold is_open. by rw Hs.
    - intros k u t' Hne. rw Hhold. case_bool_decide as Hk; [|done]. destruct Hk as [_ ->]. naive_solver.
    - intros k t'. rw Hhold. case_bool_decide; [done|apply (si_open _ Hinv)].
    - intros t' x ?. left. by eapply Hx. }
  destruct fault; simpl.
  - rw Hr. destruct Hph as [-> | ->]; apply Hmove; try done; simpl.
    + by apply gone_ok.
    + by intros t' x [_ ?]%lookup_delete_Some.
    + eapply phase_ok; try done. by right.
    + intros t' x [[<- _]|[_ ?]]%lookup_insert_Some; eauto.
  - rw insert_id //.
  - apply Hmove; done.
Qed.

Lemma ping_move db eps used n e now fault :
  let op := svc_ping timeout pg_uuid print_uuid now (ep_uuid e) db in
  sys_inv (mkSys db eps used) → eps !! n = Some e →
  sys_inv (mkSys (reached fault op db)
    (match fault, op.2 with
     | Delivered, Ok (_, lost) => <[n := with_lost lost e]> eps
     | _, _ => eps
     end) used).
Proof using Hparse.
  intros op Hinv Hn. destruct (svc_ping_holder now (ep_uuid e) db) as [Hhold Hop]. fold op in Hhold, Hop.
  assert (Hmove : ∀ e', ep_uuid e' = ep_uuid e → ep_handles e' = ep_handles e →
    ep_mux e' = ep_mux e → ep_notes e' = ep_notes e → sys_inv (mkSys op.1.1 (<[n := e']> eps) used)).
  { intros e' Hu Hh Hm Hnt. eapply (inv_move db op.1.1); try done.
    - intros k u t _. by rw Hhold.
    - intros k t. rw Hhold. apply (si_open _ Hinv).
    - rw Hh. eauto.
    - destruct (si_eps _ Hinv n e Hn) as [Hr Hl Ht]. split; rw ?Hu ?Hh ?Hm ?Hnt.
      + intros k t. rw Hhold. apply Hr.
      + intros t id ch Hx Ho. rw Hhold. eapply Hl; [done|]. by apply Hop.
      + exact Ht. }
  assert (Heps : sys_inv (mkSys op.1.1 eps used)) by (rw -(insert_id eps n e) //; by apply Hmove).
  destruct fault; simpl; [|done|done]. destruct op.2 as [[? lost]|]; [by apply Hmove|done].
Qed.

Lemma lost_ok db e id : ep_ok db e → ep_ok db (with_mux (Mux.handle_lost id (ep_mux e)) e).
Proof.
  intros Hok. apply mux_ok; [done|]. intros t id' ch Hh Hm. unfold Mux.handle_lost.
  destruct (decide (id' = id)) as [->|Hne].
  - rw Hm. right. exists Mux.Reported. by left.
  - left. destruct (ep_mux e !! id); simpl; [by rw lookup_delete_ne|done].
Qed.

Lemma removed_ok db e id t :
  ep_ok db e → (∀ id' ch, ep_handles e !! t ≠ Some (id', PLive, ch)) →
  ep_ok db (with_mux (Mux.deleted id t (ep_mux e)) e).
Proof.
  intros Hok Hnl. apply mux_ok; [done|]. intros t' id' ch Hh Hm. left. unfold Mux.deleted.
  destruct (decide (id' = id)) as [->|Hne].
  - rw Hm. simpl. destruct (string_eqb_spec t' t) as [->|]; [by destruct (Hnl id ch)|done].
  - destruct (ep_mux e !! id) as [x|]; [|done]. destruct (string_eqb _ _); simpl; [by rw lookup_delete_ne|done].
Qed.

Lemma prune_move db eps used u :
  sys_inv (mkSys db eps used) →
  sys_inv (mkSys (DeviceState.prune_session known takes_all u db).1.1 eps used).
Proof.
  intros [Heps Hopen Hused Hrow Htok Hsess]. destruct (prune_holder u db) as [Hhold Hop].
  set (db' := (DeviceState.prune_session known takes_all u db).1.1) in *. split; simpl in *; try done.
  - intros n e Hn. destruct (Heps n e Hn) as [Hr Hl Ht]. split; [| |exact Ht].
    + intros k t [Hk _]%Hhold. by apply Hr.
    + intros t id ch Hx [Ho Hne]%Hop. apply Hhold. split; [by eapply Hl|done].
  - intros k u' t [Hk Hne]%Hhold. apply Hop. split; [by eapply Hopen|done].
  - intros k u' t [Hk _]%Hhold. by eapply Hrow.
Qed.

Lemma init_move db eps used n u now :
  sys_inv (mkSys db eps used) → eps !! n = None → (∀ m e, eps !! m = Some e → ep_uuid e ≠ u) →
  sys_inv (mkSys (DeviceState.init timeout now u db).1.1
    (if DeviceState.init timeout now u db is (_, _, Ok _) then <[n := ep_new u]> eps else eps) used).
Proof.
  intros Hinv Hn Hu. unfold init. destruct (sessions db !! u) eqn:Hs; simpl; [done|].
  destruct Hinv as [Heps Hopen Hused Hrow Htok Hsess]. simpl in *.
  assert (Hop : ∀ u', u' ≠ u → is_open (mkStateDb (<[u := now]> (sessions db)) (states db)) u' ↔ is_open db u')
    by (intros u' Hne; unfold is_open; simpl; by rw lookup_insert_ne).
  split; simpl.
  - intros m e [[-> <-]|[Hne Hm]]%lookup_insert_Some.
    + split; simpl; [|by intros ? ? ?..]. intros k t Hk. destruct (Hopen k u t Hk) as [x Hx]. congruence.
    + destruct (Heps m e Hm) as [Hr Hl Ht]. split; [exact Hr| |exact Ht].
      intros t id ch Hx Ho. eapply Hl; [done|]. apply Hop; [by eapply Hu|done].
  - intros k u' t Hk. pose proof (Hopen k u' t Hk). unfold is_open in *. simpl.
    destruct (decide (u' = u)) as [->|]; [rw lookup_insert_eq; eauto|by rw lookup_insert_ne].
  - intros m e t x [[-> <-]|[Hne Hm]]%lookup_insert_Some; [done|by eapply Hused].
  - exact Hrow.
  - intros m1 m2 f1 f2 t x y [[-> <-]|[? ?]]%lookup_insert_Some [[-> <-]|[? ?]]%lookup_insert_Some; try done.
    by eapply Htok.
  - intros m1 m2 f1 f2 [[-> <-]|[? ?]]%lookup_insert_Some [[-> <-]|[? ?]]%lookup_insert_Some; simpl; try done.
    + intros Heq. by destruct (Hu m2 f2).
    + intros Heq. by destruct (Hu m1 f1).
    + by eapply Hsess.
Qed.

Lemma sys_step_inv s s' : sys_inv s → sys_step timeout pg_uuid print_uuid s s' → sys_inv s'.
Proof using Hparse.
  intros Hinv Hstep. destruct Hstep as [db eps used n u now Hn Hu|db eps used n e id t chan Hn Ht
    |db eps used n e id t chan st now fault Hn Hh op|db eps used n e id t chan Hn Hh
    |db eps used n e id t chan Hn Hh|db eps used n e id t ph chan skip fault Hn Hh Hph op
    |db eps used n e id t chan Hn Hh|db eps used n e now fault Hn Hl op|db eps used n e id rest Hn Hl
    |db eps used u|db eps used n];
    try (pose proof (si_eps _ Hinv n e Hn) as Hok; simpl in Hok).
  - by apply init_move.
  - assert (Hnew : ep_handles e !! t = None).
    { apply eq_None_not_Some. intros [x Hx]. apply Ht. by eapply (si_used _ Hinv). }
    eapply (inv_move db db); try done; [set_solver|intros k t'; apply (si_open _ Hinv)| |by apply begin_ok].
    simpl. intros t' x [[<- _]|[_ ?]]%lookup_insert_Some; [right; set_solver|left; eauto].
  - by apply create_move.
  - eapply inv_local; try done; simpl.
    + by intros t' x [_ ?]%lookup_delete_Some.
    + apply gone_ok; [done|]. intros k. eapply not_held_no_row; [done|done|by intros [?|[?|?]]].
  - eapply inv_local; try done; simpl.
    + intros t' x [[<- _]|[_ ?]]%lookup_insert_Some; eauto.
    + eapply phase_ok; try done. left. right. by right.
  - by apply delete_move.
  - eapply inv_local; try done; simpl.
    + by intros t' x [_ ?]%lookup_delete_Some.
    + apply (gone_ok db (with_mux (Mux.deleted id t (ep_mux e)) e)).
      * apply removed_ok; [done|]. intros. rw Hh. congruence.
      * intros k. simpl. eapply not_held_no_row; [done|done|by intros [?|[?|?]]].
  - by apply ping_move.
  - eapply (inv_local db eps used n e); try done. pose proof (lost_ok db e id Hok) as [Hr Hlv Htold].
    split; simpl in *; done.
  - by apply prune_move.
  - destruct Hinv as [Heps Hopen Hused Hrow Htok Hsess]. split; simpl in *; try done.
    + intros m f [_ ?]%lookup_delete_Some. by eapply Heps.
    + intros m f t x [_ ?]%lookup_delete_Some. by eapply Hused.
    + intros m1 m2 f1 f2 t x y [_ ?]%lookup_delete_Some [_ ?]%lookup_delete_Some. by eapply Htok.
    + intros m1 m2 f1 f2 [_ ?]%lookup_delete_Some [_ ?]%lookup_delete_Some. by eapply Hsess.
Qed.

Lemma sys_reach_inv s : sys_reach timeout pg_uuid print_uuid s → sys_inv s.
Proof using Hparse.
  induction 1; [|by eapply sys_step_inv]. by split.
Qed.

Lemma handle_all_reports ids id m entry :
  id ∈ ids → m !! id = Some entry → (Mux.tx entry, Mux.Reported) ∈ (Mux.handle_all ids m).2.
Proof.
  revert m. induction ids as [|i ids IH]; intros m Hin Hm; [by apply elem_of_nil in Hin|].
  cbn [Mux.handle_all]. unfold Mux.handle_lost. destruct (decide (i = id)) as [->|Hne].
  - rw Hm. destruct (Mux.handle_all ids _) as [m' l]. simpl. by left.
  - apply elem_of_cons in Hin as [->|Hin]; [done|].
    destruct (m !! i) as [x|]; [specialize (IH (base.delete i m) Hin)|specialize (IH m Hin)].
    + rw lookup_delete_ne // in IH. specialize (IH Hm).
      destruct (Mux.handle_all ids (base.delete i m)) as [m' l]. simpl in *. by right.
    + specialize (IH Hm). by destruct (Mux.handle_all ids m).
Qed.

(** C10: a device is at one endpoint only: however endpoints come, go and
    interleave, and whatever the network loses, two live handles for the same
    device whose sessions are open are the same handle of the same endpoint; a
    live handle of an open session has the state of the service; and a state
    of an endpoint's session is the state of one of its handles, which is live
    or is being deleted: none is left behind. *)
Theorem device_exclusive s :
  sys_reach timeout pg_uuid print_uuid s →
  (∀ n1 e1 t1 ch1 n2 e2 t2 ch2 id, sys_eps s !! n1 = Some e1 → sys_eps s !! n2 = Some e2 →
     ep_handles e1 !! t1 = Some (id, PLive, ch1) → ep_handles e2 !! t2 = Some (id, PLive, ch2) →
     is_open (sys_db s) (ep_uuid e1) → is_open (sys_db s) (ep_uuid e2) → n1 = n2 ∧ t1 = t2) ∧
  (∀ n e t ch id, sys_eps s !! n = Some e → ep_handles e !! t = Some (id, PLive, ch) →
     is_open (sys_db s) (ep_uuid e) → ∃ row, states (sys_db s) !! id = Some row ∧
       st_session row = ep_uuid e ∧ st_token row = t) ∧
  (∀ n e id row, sys_eps s !! n = Some e → states (sys_db s) !! id = Some row →
     st_session row = ep_uuid e →
     ∃ ph ch, ep_handles e !! st_token row = Some (id, ph, ch) ∧ held ph).
Proof using Hparse.
  intros Hr. apply sys_reach_inv in Hr as [Heps _ _ _ _ Hsess].
  split_and!.
  - intros n1 e1 t1 ch1 n2 e2 t2 ch2 id H1 H2 Hh1 Hh2 Ho1 Ho2.
    pose proof (eo_live _ _ (Heps _ _ H1) _ _ _ Hh1 Ho1) as Hl1.
    pose proof (eo_live _ _ (Heps _ _ H2) _ _ _ Hh2 Ho2) as Hl2.
    rw Hl1 in Hl2. injection Hl2 as Hu Ht. split; [by eapply Hsess|done].
  - intros n e t ch id Hn Hh Ho. pose proof (eo_live _ _ (Heps _ _ Hn) _ _ _ Hh Ho) as Hl.
    unfold holder in Hl. apply fmap_Some in Hl as (row & Hrow & Heq). exists row. by simplify_eq.
  - intros n e id row Hn Hrow Hu. apply (eo_rows _ _ (Heps _ _ Hn)). unfold holder. rw Hrow /=. by rw Hu.
Qed.

(** C34: who loses a device is told: when another connection attempt marked the
    state of a live handle as lost, then once the endpoint's next ping was
    answered and the lost devices it reports were handled, the watcher of the
    handle was told. *)
Theorem lost_is_told s n e t id ch row now db' sent expires lost :
  sys_reach timeout pg_uuid print_uuid s → sys_eps s !! n = Some e →
  ep_handles e !! t = Some (id, PLive, ch) → is_open (sys_db s) (ep_uuid e) →
  states (sys_db s) !! id = Some row → st_lost row = true →
  svc_ping timeout pg_uuid print_uuid now (ep_uuid e) (sys_db s) = (db', sent, Ok (expires, lost)) →
  ∃ cause, (ch, cause) ∈ ep_notes e ++ (Mux.handle_all lost (ep_mux e)).2.
Proof using Hparse.
  intros Hr Hn Hh Ho Hrow Hlost Hping. apply sys_reach_inv in Hr as [Heps _ _ _ _ _].
  destruct (Heps n e Hn) as [_ Hlive Htold].
  pose proof (Hlive t id ch Hh Ho) as Hl. unfold holder in Hl. rw Hrow in Hl. injection Hl as Hu Ht.
  assert (Hin : id ∈ lost).
  { unfold svc_ping, ping in Hping. rw Hparse in Hping.
    destruct (sessions (sys_db s) !! ep_uuid e); [|done]. destruct (_ <? _)%Z; [|done]. simplify_eq/=.
    unfold lost_ids. simpl. apply list_elem_of_fmap. exists (id, row). split; [done|].
    apply elem_of_map_to_list, map_lookup_filter_Some. done. }
  setoid_rewrite elem_of_app. destruct (Htold t id ch Hh) as [Hm|[cause ?]]; [|eauto].
  exists Mux.Reported. right. by apply (handle_all_reports lost id _ (Mux.mkEntry t ch)).
Qed.
End Holders.

(** ** Running the system *)

Inductive Cmd : Type :=
| CInit (n : nat) (u : Uuid) (now : Z)
| CBegin (n : nat) (id : string * string) (t : string) (chan : nat)
| CCreate (n : nat) (t : string) (st : DeviceStateData) (now : Z) (fault : Fault)
| CClose (n : nat) (t : string)
| CDelete (n : nat) (t : string) (skip : bool) (fault : Fault)
| CRemoved (n : nat) (t : string)
| CPing (n : nat) (now : Z) (fault : Fault)
| CLost (n : nat).

Section Run.
Context (timeout : Z) (pg_uuid : string → option Uuid) (print_uuid : Uuid → string).

Definition do_step (c : Cmd) (s : Sys) : option Sys :=
  let '(mkSys db eps used) := s in
  match c with
  | CInit n u now =>
      if bool_decide (eps !! n = None) && bool_decide (map_Forall (λ _ e, ep_uuid e ≠ u) eps)
      then Some (mkSys (DeviceState.init timeout now u db).1.1
        (if DeviceState.init timeout now u db is (_, _, Ok _)
         then <[n := ep_new u]> eps else eps) used)
      else None
  | CBegin n id t chan =>
      e ← eps !! n;
      if bool_decide (t ∉ used) then
        Some (mkSys db (<[n := with_handles (<[t := (id, PCreating, chan)]> (ep_handles e)) e]> eps)
          ({[t]} ∪ used))
      else None
  | CCreate n t st now fault =>
      e ← eps !! n;
      match ep_handles e !! t with
      | Some (id, PCreating, chan) =>
          let op := svc_create pg_uuid print_uuid now (ep_uuid e) id t st db in
          Some (mkSys (reached fault op db) (<[n := after_create fault op.2 id t chan e]> eps) used)
      | _ => None
      end
  | CClose n t =>
      e ← eps !! n;
      match ep_handles e !! t with
      | Some (id, PLive, chan) =>
          Some (mkSys db (<[n := with_handles (<[t := (id, PDeleting, chan)]> (ep_handles e)) e]> eps)
            used)
      | _ => None
      end
  | CDelete n t skip fault =>
      e ← eps !! n;
      match ep_handles e !! t with
      | Some (id, (PRecover | PDeleting) as ph, chan) =>
          let op := svc_delete pg_uuid print_uuid (ep_uuid e) id t skip db in
          Some (mkSys (reached fault op db) (<[n := after_delete fault op.2 id t ph chan e]> eps) used)
      | _ => None
      end
  | CRemoved n t =>
      e ← eps !! n;
      match ep_handles e !! t with
      | Some (id, PRemoving, chan) =>
          Some (mkSys db (<[n := with_handles (base.delete t (ep_handles e))
            (with_mux (Mux.deleted id t (ep_mux e)) e)]> eps) used)
      | _ => None
      end
  | CPing n now fault =>
      e ← eps !! n;
      match ep_lost e with
      | [] =>
          let op := svc_ping timeout pg_uuid print_uuid now (ep_uuid e) db in
          Some (mkSys (reached fault op db)
            (match fault, op.2 with
             | Delivered, Ok (_, lost) => <[n := with_lost lost e]> eps
             | _, _ => eps
             end) used)
      | _ => None
      end
  | CLost n =>
      e ← eps !! n;
      match ep_lost e with
      | id :: rest =>
          Some (mkSys db (<[n := with_lost rest (with_mux (Mux.handle_lost id (ep_mux e)) e)]> eps) used)
      | [] => None
      end
  end.

Lemma do_step_sound c s s' : do_step c s = Some s' → sys_step timeout pg_uuid print_uuid s s'.
Proof.
  destruct s as [db eps used]. destruct c; simpl; intros Hs.
  - destruct (bool_decide (eps !! n = None)) eqn:H1; [|done].
    destruct (bool_decide (map_Forall _ _)) eqn:H2; [|done]. simpl in Hs. injection Hs as <-.
    apply bool_decide_eq_true in H1, H2. by constructor.
  - destruct (eps !! n) eqn:?; [|done]. simpl in Hs. case_bool_decide; [|done]. injection Hs as <-.
    by constructor.
  - destruct (eps !! n) eqn:?; [|done]. simpl in Hs. split_all; simplify_eq. by eapply ss_create.
  - destruct (eps !! n) eqn:?; [|done]. simpl in Hs. split_all; simplify_eq. by eapply ss_close.
  - destruct (eps !! n) eqn:?; [|done]. simpl in Hs. split_all; simplify_eq; eapply ss_delete; eauto.
  - destruct (eps !! n) eqn:?; [|done]. simpl in Hs. split_all; simplify_eq. by eapply ss_removed.
  - destruct (eps !! n) eqn:?; [|done]. simpl in Hs. destruct (ep_lost e) eqn:?; [|done].
    injection Hs as <-. by apply ss_ping.
  - destruct (eps !! n) eqn:?; [|done]. simpl in Hs. destruct (ep_lost e) eqn:?; [done|].
    injection Hs as <-. by apply ss_lost.
Qed.

Fixpoint run_cmds (cs : list Cmd) (s : Sys) : option Sys :=
  match cs with
  | [] => Some s
  | c :: cs => do_step c s ≫= run_cmds cs
  end.

Lemma run_cmds_reach cs s s' :
  sys_reach timeout pg_uuid print_uuid s → run_cmds cs s = Some s' →
  sys_reach timeout pg_uuid print_uuid s'.
Proof.
  revert s. induction cs as [|c cs IH]; intros s Hr Hs; simpl in Hs; [by simplify_eq|].
  destruct (do_step c s) as [s1|] eqn:Hc; [|done]. simpl in Hs. eapply IH; [|done].
  eapply sr_step; [done|]. by eapply do_step_sound.
Qed.
End Run.

(** The texts of sessions in concrete runs. *)
Definition text_of : Uuid → string := @uuid_to_string bits_codec.
Definition of_text : string → option Uuid := @uuid_parse_str bits_codec.

Definition empty_sys : Sys := mkSys (mkStateDb ∅ ∅) ∅ ∅.

(** A device connects to endpoint 1; it shows up at endpoint 2, which marks its
    state as lost; endpoint 1 gets to know with a ping, but before it handles
    the answer the device disconnects and connects to endpoint 1 again. *)
Definition stale_run : list Cmd :=
  let st := mkState "uid" "mqtt" None in
  [CInit 1 1 0; CInit 2 2 0;
   CBegin 1 ("app", "dev") "t1" 1; CCreate 1 "t1" st 0 Delivered;
   CBegin 2 ("app", "dev") "t2" 1; CCreate 2 "t2" st 1 Delivered;
   CPing 1 2 Delivered;
   CClose 1 "t1"; CDelete 1 "t1" true Delivered; CRemoved 1 "t1";
   CBegin 1 ("app", "dev") "t3" 3; CCreate 1 "t3" st 3 Delivered;
   CLost 1].

(** A connection can be told that it lost its device although it did not:
    the mux looks up lost devices by their ID only, so that a report about an
    earlier connection of the device reaches the current one, whose state is
    not marked as lost. *)
Theorem stale_lost_notification :
  ∃ s e row, sys_reach 10 of_text text_of s ∧ sys_eps s !! 1%nat = Some e ∧
    ep_handles e !! "t3" = Some (("app", "dev"), PLive, 3%nat) ∧
    is_open (sys_db s) (ep_uuid e) ∧
    states (sys_db s) !! ("app", "dev") = Some row ∧ st_token row = "t3" ∧ st_lost row = false ∧
    (3%nat, Mux.Reported) ∈ ep_notes e.
Proof.
  destruct (run_cmds 10 of_text text_of stale_run empty_sys) as [s|] eqn:Hrun;
    [|vm_compute in Hrun; discriminate Hrun].
  pose proof (run_cmds_reach 10 of_text text_of _ _ _ (sr_start _ _ _) Hrun) as Hreach.
  vm_compute in Hrun. injection Hrun as <-. do 3 eexists. split; [exact Hreach|].
  split_and!; try by_eval.
  - eexists. by_eval.
  - by right; left.
Qed.
