(* ===== verification/DeviceAuth.v ===== *)
(** * Device authentication

    [authentication-service/src/service.rs]: authenticating a device with a
    password, a user name and password or a certificate chain, a device acting
    for another one (a gateway), and the pre-shared key of a device.  The typed
    sections, the password hashes and the certificate verification are those
    of the libraries the service uses. *)

From S2P Require Import Prelude Json Versioning Auth Store Registry.

(** What a device presents. *)
Module Authn.
Inductive Credential : Type :=
| UsernamePassword (username password : string)
| Password (password : string)
| Certificate (chain : list string).

Inductive Outcome : Type :=
| Pass (application : Reg.Application) (device : Reg.Device) (as_device : option Reg.Device)
| Fail.

Inductive GatewayOutcome : Type :=
| GatewayPass (as_device : Reg.Device)
| GatewayFail.

Inductive PreSharedKeyOutcome : Type :=
| Found (app : Reg.Application) (device : Reg.Device) (key : Reg.PreSharedKey)
| KeyNotFound.
End Authn.

(** The sections the service decodes ([drogue_client]), the password checks
    ([bcrypt], [sha_crypt]) and the chain verification ([rustls]); the order
    of pre-shared keys is [drogue_client]'s [Ord] instance. *)
Class AuthApi := {
  section_core : Reg.Application → option (result bool string);
  section_gateway : Reg.Device → option (result (list string) string);
  section_anchor_status : Reg.Application → option (result (list Reg.AnchorEntry) string);
  authentication_key : string;
  credentials_key : string;
  bcrypt_verify : string → string → option bool;
  sha512_check : string → string → bool;
  pem_certificate : string → option string;
  root_store_accepts : string → bool;
  verify_client_cert : string → string → list string → Z → bool;
  psk_is_valid : (Z * Z) → Z → bool;
  psk_before : Reg.PreSharedKey → Reg.PreSharedKey → bool;
}.

Section DeviceAuth.
Context `{UuidCodec, ClientApi, AuthApi}.

Definition strip_credentials (device : Reg.Device) : Reg.Device :=
  Reg.mkDevice (Reg.d_uid device) (Reg.d_name device) (Reg.d_application device)
    (Reg.d_labels device) (Reg.d_annotations device) (Reg.d_creation_timestamp device)
    (Reg.d_generation device) (Reg.d_resource_version device) (Reg.d_deletion_timestamp device)
    (Reg.d_finalizers device)
    (map_remove credentials_key (map_remove authentication_key (Reg.d_spec device)))
    (Reg.d_status device).

(** [pass!] *)
Definition pass (application : Reg.Application) (device : Reg.Device)
    (as_device : option Reg.Device) : Authn.Outcome :=
  Authn.Pass application (strip_credentials device) (strip_credentials <$> as_device).

Definition validate_app (app : Reg.Application) : bool :=
  if bool_decide (is_Some (Reg.a_deletion_timestamp app)) then false
  else
    match section_core app with
    | Some (Ok disabled) => negb disabled
    | Some (Err _) => false
    | None => true
    end.

(** ** Credentials *)

Definition password_matches (expected : Reg.Password) (provided : string) : bool :=
  match expected with
  | Reg.Plain plain => string_eqb plain provided
  | Reg.BCrypt hashed => default false (bcrypt_verify provided hashed)
  | Reg.Sha512 hashed => sha512_check provided hashed
  end.

Definition validate_password (device : Reg.Device) (authentication : list Reg.Credential)
    (provided_device provided_password : string) : bool :=
  existsb (λ c,
    match c with
    | Reg.PasswordOnly stored => password_matches stored provided_password
    | Reg.UsernamePassword stored_username stored true =>
        if string_eqb stored_username provided_device
        then password_matches stored provided_password else false
    | Reg.UsernamePassword stored_username stored false =>
        if string_eqb stored_username (Reg.d_name device)
        then password_matches stored provided_password else false
    | _ => false
    end) authentication.

Definition validate_username_password (device : Reg.Device)
    (authentication : list Reg.Credential) (provided_username provided_password : string)
    : bool :=
  existsb (λ c,
    match c with
    | Reg.PasswordOnly stored =>
        if string_eqb provided_username (Reg.d_name device)
        then password_matches stored provided_password else false
    | Reg.UsernamePassword stored_username stored _ =>
        string_eqb stored_username provided_username && password_matches stored provided_password
    | _ => false
    end) authentication.

Definition validate_trust_anchor (anchor : Reg.AnchorEntry) (now : Z)
    (presented_certs : list string) : bool :=
  match anchor with
  | Reg.Valid _ certificate not_before not_after =>
      match last presented_certs with
      | None => false
      | Some cert_end =>
          if (now <? not_before)%Z then false
          else if (not_after <? now)%Z then false
          else
            match pem_certificate certificate with
            | None => false
            | Some der =>
                if root_store_accepts der
                then verify_client_cert der cert_end (removelast presented_certs) now
                else false
            end
      end
  | Reg.Invalid _ _ => false
  end.

Definition validate_certificate (app : Reg.Application) (provided_chain : list string) (now : Z)
    : bool :=
  match provided_chain with
  | [] => false
  | _ =>
      match section_anchor_status app with
      | Some (Ok anchors) => existsb (λ a, validate_trust_anchor a now provided_chain) anchors
      | _ => false
      end
  end.

Definition validate_credential (now : Z) (app : Reg.Application) (device : Reg.Device)
    (provided_device : string) (cred : Authn.Credential) : bool :=
  if bool_decide (is_Some (Reg.d_deletion_timestamp device)) then false
  else
    match get_authentication device with
    | Some (Err _) => false
    | sect =>
        let authentication := match sect with Some (Ok auth) => auth | _ => [] end in
        match cred with
        | Authn.Password p => validate_password device authentication provided_device p
        | Authn.UsernamePassword u p => validate_username_password device authentication u p
        | Authn.Certificate chain => validate_certificate app chain now
        end
    end.

(** ** Gateways *)

Definition validate_gateway (as_id : string) (application : Reg.Application)
    (device : Reg.Device) (db : Db) : Authn.Outcome :=
  match DevAccessor.lookup (Reg.a_name application) as_id db with
  | Some as_device =>
      if bool_decide (Dev.deletion_timestamp as_device = None) then
        let as_manage := device_into as_device in
        match section_gateway as_manage with
        | Some (Ok match_names) =>
            if existsb (string_eqb (Reg.d_name device)) match_names
            then pass application device (Some as_manage)
            else Authn.Fail
        | _ => Authn.Fail
        end
      else Authn.Fail
  | None => Authn.Fail
  end.

(** ** The service *)

Record AuthenticationRequest := mkAuthRequest {
  rq_application : string;
  rq_device : string;
  rq_credential : Authn.Credential;
  rq_as : option string;
}.

Definition authenticate (now : Z) (request : AuthenticationRequest) (db : Db) : Authn.Outcome :=
  match AppAccessor.lookup (rq_application request) db with
  | None => Authn.Fail
  | Some application =>
      let application := app_into application in
      if negb (validate_app application) then Authn.Fail
      else
        match DevAccessor.lookup (Reg.a_name application) (rq_device request) db with
        | None => Authn.Fail
        | Some device =>
            let device := device_into device in
            if validate_credential now application device (rq_device request)
                 (rq_credential request)
            then
              match rq_as request with
              | Some as_id =>
                  if negb (string_eqb as_id (rq_device request))
                  then validate_gateway as_id application device db
                  else pass application device None
              | None => pass application device None
              end
            else Authn.Fail
        end
  end.

Definition authorize_gateway (application device as_id : string) (db : Db)
    : Authn.GatewayOutcome :=
  match AppAccessor.lookup application db with
  | None => Authn.GatewayFail
  | Some application =>
      let application := app_into application in
      if negb (validate_app application) then Authn.GatewayFail
      else
        match DevAccessor.get (Reg.a_name application) device db with
        | None => Authn.GatewayFail
        | Some device =>
            match validate_gateway as_id application (device_into device) db with
            | Authn.Pass _ _ (Some as_device) => Authn.GatewayPass as_device
            | _ => Authn.GatewayFail
            end
        end
  end.

(** [candidates.sort()] then [first()]: the first of the least keys. *)
Fixpoint least_psk (l : list Reg.PreSharedKey) : option Reg.PreSharedKey :=
  match l with
  | [] => None
  | k :: l =>
      match least_psk l with
      | Some k' => if psk_before k' k then Some k' else Some k
      | None => Some k
      end
  end.

Definition locate_psk (now : Z) (device : Reg.Device) : option Reg.PreSharedKey :=
  if bool_decide (is_Some (Reg.d_deletion_timestamp device)) then None
  else
    match get_authentication device with
    | Some (Ok credentials) =>
        let candidates := omap (λ c, match c with Reg.Psk key => Some key | _ => None end) credentials in
        least_psk (filter (λ k, from_option (λ v, psk_is_valid v now) true (Reg.psk_validity k) = true)
          candidates)
    | _ => None
    end.

Definition request_key (now : Z) (application device : string) (db : Db)
    : Authn.PreSharedKeyOutcome :=
  match AppAccessor.lookup application db with
  | None => Authn.KeyNotFound
  | Some application =>
      let application := app_into application in
      if negb (validate_app application) then Authn.KeyNotFound
      else
        match DevAccessor.lookup (Reg.a_name application) device db with
        | None => Authn.KeyNotFound
        | Some device =>
            let device := device_into device in
            match locate_psk now device with
            | Some key => Authn.Found application (strip_credentials device) key
            | None => Authn.KeyNotFound
            end
        end
  end.

(** ** Facts *)

Lemma strip_credentials_gone device k :
  k = authentication_key ∨ k = credentials_key →
  map_get k (Reg.d_spec (strip_credentials device)) = None.
Proof.
  intros Hk. simpl. rw !map_get_remove. destruct (string_eqb_spec k credentials_key); [done|].
  destruct (string_eqb_spec k authentication_key); [done|]. naive_solver.
Qed.

Lemma strip_credentials_other device k :
  k ≠ authentication_key → k ≠ credentials_key →
  map_get k (Reg.d_spec (strip_credentials device)) = map_get k (Reg.d_spec device).
Proof.
  intros Ha Hc. simpl. rw !map_get_remove. destruct (string_eqb_spec k credentials_key); [done|].
  by destruct (string_eqb_spec k authentication_key).
Qed.

Lemma validate_gateway_pass as_id application device db a d x :
  validate_gateway as_id application device db = Authn.Pass a d x →
  a = application ∧ d = strip_credentials device ∧
  ∃ as_dev names, DevAccessor.lookup (Reg.a_name application) as_id db = Some as_dev ∧
    Dev.deletion_timestamp as_dev = None ∧
    section_gateway (device_into as_dev) = Some (Ok names) ∧ Reg.d_name device ∈ names ∧
    x = Some (strip_credentials (device_into as_dev)).
Proof.
  unfold validate_gateway, pass. intros Hv.
  destruct (DevAccessor.lookup _ as_id db) as [as_dev|] eqn:Hl; [|done].
  case_bool_decide; [|done].
  destruct (section_gateway _) as [[names|]|] eqn:Hg; try done.
  destruct (existsb _ _) eqn:He; [|done]. simplify_eq/=. split; [done|]. split; [done|].
  exists as_dev, names. split_and!; try done.
  apply existsb_exists in He as (n & Hin%list_elem_of_In & ->%string_eqb_eq). done.
Qed.

(** A stored credential accepts what a device presents. *)
Definition accepts (device : Reg.Device) (provided_device : string) (cred : Authn.Credential)
    (c : Reg.Credential) : Prop :=
  match cred, c with
  | Authn.Password p, Reg.PasswordOnly stored => password_matches stored p = true
  | Authn.Password p, Reg.UsernamePassword u stored unique =>
      u = (if unique then provided_device else Reg.d_name device) ∧
      password_matches stored p = true
  | Authn.UsernamePassword user p, Reg.PasswordOnly stored =>
      user = Reg.d_name device ∧ password_matches stored p = true
  | Authn.UsernamePassword user p, Reg.UsernamePassword u stored _ =>
      u = user ∧ password_matches stored p = true
  | _, _ => False
  end.

(** A trust anchor of the application vouches for a certificate chain. *)
Definition vouches (now : Z) (chain : list string) (a : Reg.AnchorEntry) : Prop :=
  ∃ subject certificate nb na der cert_end, a = Reg.Valid subject certificate nb na ∧
    (nb ≤ now ≤ na)%Z ∧ last chain = Some cert_end ∧ pem_certificate certificate = Some der ∧
    root_store_accepts der = true ∧
    verify_client_cert der cert_end (removelast chain) now = true.

Lemma validate_password_spec device creds pd p :
  validate_password device creds pd p = true ↔
  ∃ c, c ∈ creds ∧ accepts device pd (Authn.Password p) c.
Proof.
  unfold validate_password. rw existsb_exists. setoid_rewrite <- list_elem_of_In.
  apply exist_proper. intros c. apply and_iff_compat_l.
  destruct c as [u stored []|stored|k|]; simpl; try done.
  - destruct (string_eqb_spec u pd); naive_solver.
  - destruct (string_eqb_spec u (Reg.d_name device)); naive_solver.
Qed.

Lemma validate_username_password_spec device creds pd u p :
  validate_username_password device creds u p = true ↔
  ∃ c, c ∈ creds ∧ accepts device pd (Authn.UsernamePassword u p) c.
Proof.
  unfold validate_username_password. rw existsb_exists. setoid_rewrite <- list_elem_of_In.
  apply exist_proper. intros c. apply and_iff_compat_l.
  destruct c as [su stored uq|stored|k|]; simpl; try done.
  - destruct (string_eqb_spec su u); naive_solver.
  - destruct (string_eqb_spec u (Reg.d_name device)); naive_solver.
Qed.

Lemma validate_certificate_spec app chain now :
  validate_certificate app chain now = true ↔
  ∃ anchors a, section_anchor_status app = Some (Ok anchors) ∧ a ∈ anchors ∧ vouches now chain a.
Proof.
  assert (Ha : ∀ a, validate_trust_anchor a now chain = true ↔ vouches now chain a).
  { intros a. unfold validate_trust_anchor, vouches. destruct a as [s c nb na|]; [|naive_solver].
    destruct (last chain) as [e|]; [|naive_solver].
    destruct (Z.ltb_spec now nb); [naive_solver lia|].
    destruct (Z.ltb_spec na now); [naive_solver lia|].
    destruct (pem_certificate c) as [der|] eqn:Hp; [|naive_solver].
    destruct (root_store_accepts der) eqn:Hr; [|naive_solver].
    split; [|naive_solver]. intros Hv. do 6 eexists. split_and!; try done; lia. }
  unfold validate_certificate. destruct chain as [|x chain].
  - split; [done|]. intros (anchors & a & _ & _ & (? & ? & ? & ? & ? & ? & _ & _ & Hl & _)). done.
  - destruct (section_anchor_status app) as [[anchors|]|]; [|naive_solver..].
    rw existsb_exists. setoid_rewrite <- list_elem_of_In. setoid_rewrite Ha. naive_solver.
Qed.

(** Exactly the right credentials are accepted: for a device that is not
    being deleted, a password or user name and password is accepted exactly if
    some stored credential of the device accepts it (a unique user name only
    through the alias the device was looked up by), and a certificate chain
    exactly if a trust anchor of the application, valid now, vouches for it. *)
Theorem validate_credential_correct now app device pd cred :
  validate_credential now app device pd cred = true ↔
  Reg.d_deletion_timestamp device = None ∧
  (∀ e, get_authentication device ≠ Some (Err e)) ∧
  match cred with
  | Authn.Certificate chain => ∃ anchors a, section_anchor_status app = Some (Ok anchors) ∧
      a ∈ anchors ∧ vouches now chain a
  | _ => ∃ creds c, get_authentication device = Some (Ok creds) ∧ c ∈ creds ∧
      accepts device pd cred c
  end.
Proof.
  unfold validate_credential. case_bool_decide as Hdel.
  { destruct Hdel as [t Ht]. split; [done|]. rw Ht. naive_solver. }
  assert (Hn : Reg.d_deletion_timestamp device = None)
    by (destruct (Reg.d_deletion_timestamp device); naive_solver).
  destruct (get_authentication device) as [[creds|e]|]; [| |].
  - destruct cred as [u p|p|chain];
      rw ?(validate_username_password_spec _ _ pd) ?validate_password_spec ?validate_certificate_spec;
      naive_solver.
  - naive_solver.
  - destruct cred as [u p|p|chain];
      rw ?(validate_username_password_spec _ _ pd) ?validate_password_spec ?validate_certificate_spec;
      split; try naive_solver.
    all: intros (c & Hc & _); by apply elem_of_nil in Hc.
Qed.

(** What a passed authentication stands for: the application and the device
    exist under the given (alias) names and neither is being deleted, the
    application is not disabled, the presented credentials were validated, and a
    device acts as another one only if that device lists it as a gateway. *)
Definition authenticated (now : Z) (rq : AuthenticationRequest) (db : Db) (a : Reg.Application)
    (d : Reg.Device) (x : option Reg.Device) : Prop :=
  ∃ app dev, AppAccessor.lookup (rq_application rq) db = Some app ∧
    App.deletion_timestamp app = None ∧ section_core (app_into app) ≠ Some (Ok true) ∧
    DevAccessor.lookup (App.name app) (rq_device rq) db = Some dev ∧
    Dev.deletion_timestamp dev = None ∧
    validate_credential now (app_into app) (device_into dev) (rq_device rq) (rq_credential rq) = true ∧
    a = app_into app ∧ d = strip_credentials (device_into dev) ∧
    match x with
    | None => rq_as rq = None ∨ rq_as rq = Some (rq_device rq)
    | Some as_device => ∃ as_id as_dev names, rq_as rq = Some as_id ∧ as_id ≠ rq_device rq ∧
        DevAccessor.lookup (App.name app) as_id db = Some as_dev ∧
        Dev.deletion_timestamp as_dev = None ∧ as_device = strip_credentials (device_into as_dev) ∧
        section_gateway (device_into as_dev) = Some (Ok names) ∧ Dev.name dev ∈ names
    end.

Lemma authenticate_sound now rq db a d x :
  authenticate now rq db = Authn.Pass a d x → authenticated now rq db a d x.
Proof.
  unfold authenticate. intros Ha.
  destruct (AppAccessor.lookup _ db) as [app|] eqn:Happ; [|done].
  destruct (validate_app (app_into app)) eqn:Hva; simpl in Ha; [|done].
  destruct (DevAccessor.lookup _ _ db) as [dev|] eqn:Hdev; [|done].
  destruct (validate_credential _ _ _ _ _) eqn:Hvc; [|done].
  assert (Happ_ok : App.deletion_timestamp app = None ∧ section_core (app_into app) ≠ Some (Ok true)).
  { unfold validate_app in Hva. case_bool_decide as Hd; [done|]. simpl in Hd.
    split; [destruct (App.deletion_timestamp app); naive_solver|].
    intros Hs. rw Hs in Hva. done. }
  assert (Hdev_ok : Dev.deletion_timestamp dev = None).
  { unfold validate_credential in Hvc. case_bool_decide as Hd; [done|]. simpl in Hd.
    destruct (Dev.deletion_timestamp dev); naive_solver. }
  exists app, dev. destruct Happ_ok. split_and!; try done.
  all: destruct (rq_as rq) as [as_id|]; [destruct (string_eqb_spec as_id (rq_device rq))|];
    simpl in Ha; unfold pass in Ha; simplify_eq/=; try done; try (by auto).
  all: apply validate_gateway_pass in Ha as (-> & -> & as_dev & names & Hl & Hdl & Hg & Hin & ->);
    try done.
  exists as_id, as_dev, names. done.
Qed.

(** An authenticated device is handed out without its credentials: neither
    the device nor the device it acts for has an authentication section, and
    everything else of the specification is as stored. *)
Theorem authenticate_no_credentials now rq db a d x :
  authenticate now rq db = Authn.Pass a d x →
  (∀ dev k, dev = d ∨ x = Some dev → k = authentication_key ∨ k = credentials_key →
     map_get k (Reg.d_spec dev) = None) ∧
  (∀ dev k, DevAccessor.lookup (Reg.a_name a) (rq_device rq) db = Some dev →
     k ≠ authentication_key → k ≠ credentials_key →
     map_get k (Reg.d_spec d) = map_get k (device_sect dev "spec")).
Proof.
  intros Ha.
  assert (Hshape : ∃ dev, DevAccessor.lookup (Reg.a_name a) (rq_device rq) db = Some dev ∧
    d = strip_credentials (device_into dev) ∧ (∀ y, x = Some y → ∃ z, y = strip_credentials z)).
  { unfold authenticate in Ha. destruct (AppAccessor.lookup _ db) as [app|]; [|done].
    destruct (validate_app (app_into app)); simpl in Ha; [|done].
    destruct (DevAccessor.lookup _ _ db) as [dev|] eqn:Hdev; [|done].
    destruct (validate_credential _ _ _ _ _); [|done]. exists dev.
    destruct (rq_as rq) as [as_id|]; [destruct (string_eqb as_id (rq_device rq))|];
      simpl in Ha; unfold pass in Ha; simplify_eq/=; try (by split_and!).
    apply validate_gateway_pass in Ha as (-> & -> & as_dev & names & _ & _ & _ & _ & ->).
    split_and!; try done. intros y [= <-]. eauto. }
  destruct Hshape as (dev & Hl & -> & Hx). split.
  - intros dv k [-> | Hdv] Hk; [by apply strip_credentials_gone|].
    destruct (Hx dv Hdv) as [z ->]. by apply strip_credentials_gone.
  - intros dv k Hl' Ha1 Hc1. rw Hl in Hl'. injection Hl' as <-. by rw strip_credentials_other.
Qed.
End DeviceAuth.
