(* ===== verification/AccessToken.v ===== *)
(** * Access tokens

    [access-token-service/src/rng.rs] and
    [access-token-service/src/service.rs]: personal access tokens with a
    checksum, stored as hashes in attributes of the Keycloak user.  The hash,
    the checksum, its text form and Keycloak are external. *)

From S2P Require Import Prelude Json Auth.

(** ** String slices

    [&s[a..b]] panics out of range and inside of a UTF-8 character: [None]. *)

Fixpoint slen (s : string) : nat :=
  match s with
  | EmptyString => 0
  | String _ s => S (slen s)
  end.

Fixpoint str_take (n : nat) (s : string) : string :=
  match n, s with
  | S n, String c s => String c (str_take n s)
  | _, _ => EmptyString
  end.

Fixpoint str_drop (n : nat) (s : string) : string :=
  match n, s with
  | S n, String _ s => str_drop n s
  | _, _ => s
  end.

(** A continuation byte is 10xxxxxx. *)
Definition is_continuation (c : ascii) : bool :=
  match c with
  | Ascii.Ascii _ _ _ _ _ _ b6 b7 => b7 && negb b6
  end.

Definition is_char_boundary (s : string) (i : nat) : bool :=
  match str_drop i s with
  | EmptyString => Nat.eqb i (slen s)
  | String c _ => Nat.eqb i 0 || negb (is_continuation c)
  end.

Definition slice (s : string) (a b : nat) : option string :=
  if (a <=? b)%nat && (b <=? slen s)%nat && is_char_boundary s a && is_char_boundary s b
  then Some (str_take (b - a) (str_drop a s))
  else None.

(** Only bytes below 128. *)
Fixpoint is_ascii (s : string) : bool :=
  match s with
  | EmptyString => true
  | String (Ascii.Ascii _ _ _ _ _ _ _ b7) s => negb b7 && is_ascii s
  end.

(** ** Tokens *)

Definition PREFIX_LENGTH : nat := 6.
Definition KEY_LENGTH : nat := 30.
Definition MIN_TOKEN_LENGTH : nat := 4 + PREFIX_LENGTH + 1 + KEY_LENGTH.
Definition MAX_TOKEN_LENGTH : nat := MIN_TOKEN_LENGTH + 6.

(** [crc::crc32], [base62::encode] and [sha3::Sha3_512] with its hexadecimal
    form; tokens are stored in JSON form by [serde_json]. *)
Class TokenApi := {
  checksum_ieee : string → Z;
  crc32_update_ieee : Z → string → Z;
  base62_encode : Z → string;
  sha3_512_hex : string → string;
  encode_entry : string → Z → string → string;
  decode_entry : string → option (string * Z * string);
}.

Class TokenLaws `{TokenApi} := {
  checksum_is_update s : checksum_ieee s = crc32_update_ieee 0 s;
  base62_length s : slen (base62_encode (checksum_ieee s)) ≤ 6;
  base62_ascii x : is_ascii (base62_encode x) = true;
  decode_encode h t d : decode_entry (encode_entry h t d) = Some (h, t, d);
}.

Inductive TokenError : Type :=
| TNotAuthorized
| TClient.

(** ** Keycloak

    A user of the realm, with the attributes Keycloak keeps. *)
Record KcUser := mkKcUser {
  kc_id : option string;
  kc_username : string;
  kc_attributes : option (gmap string Value);
}.

(** Users by ID. *)
Abbreviation Realm := (gmap string KcUser).

(** What Keycloak makes of an attribute value it is given, and its search for
    a user by the exact name. *)
Class KeycloakRealm := {
  kc_store : Value → Value;
  kc_find : string → Realm → option KcUser;
}.

(** A string is stored as a list of one string, and a list as it is; the
    search finds a user of the name if there is exactly one. *)
Class KeycloakRealmLaws `{KeycloakRealm} := {
  kc_store_string s : kc_store (Str s) = Array [Str s];
  kc_store_array l : kc_store (Array l) = Array l;
  kc_find_some n realm u : kc_find n realm = Some u →
    kc_username u = n ∧ ∃ id, realm !! id = Some u;
  kc_find_unique n realm id u : realm !! id = Some u → kc_username u = n →
    (∀ id' u', realm !! id' = Some u' → kc_username u' = n → id' = id) →
    kc_find n realm = Some u;
}.

(** A realm for concrete runs. *)
Definition ref_realm : KeycloakRealm := {|
  kc_store := λ v, match v with Str s => Array [Str s] | v => v end;
  kc_find := λ n realm, snd <$> head (filter (λ iu, kc_username iu.2 = n) (map_to_list realm));
|}.

#[global] Instance ref_realm_laws : @KeycloakRealmLaws ref_realm.
Proof.
  split; try done; simpl.
  - intros n realm u Hf. apply fmap_Some in Hf as ([id u'] & Hh & ->). simpl.
    apply head_Some_elem_of, list_elem_of_filter in Hh as [Hn Hin%elem_of_map_to_list]. eauto.
  - intros n realm id u Hid Hn Huniq.
    assert (Hin : (id, u) ∈ filter (λ iu, kc_username iu.2 = n) (map_to_list realm)).
    { apply list_elem_of_filter. split; [done|]. by apply elem_of_map_to_list. }
    destruct (filter _ _) as [|[id' u'] l] eqn:Hl; [set_solver|]. simpl. f_equal.
    assert (Hin' : (id', u') ∈ filter (λ iu, kc_username iu.2 = n) (map_to_list realm))
      by (rw Hl; by left).
    apply list_elem_of_filter in Hin' as [Hn' Hin'%elem_of_map_to_list].
    assert (id' = id) as -> by by eapply Huniq. congruence.
Qed.

Section Tokens.
Context `{TokenApi, KeycloakRealm}.

Definition hash_token (token : string) : string := sha3_512_hex token.

(** [serialize_token]: the token and its hash. *)
Definition serialize_token (prefix key : string) : (string * string) * string :=
  let token := prefix +:+ "_" +:+ key in
  let crc := base62_encode (checksum_ieee token) in
  let token := token +:+ crc in
  ((prefix, token), hash_token token).

(** [generate_access_token] on random alphanumerical characters. *)
Definition generate_access_token (random_prefix random_key : string) : (string * string) * string :=
  serialize_token ("drg_" +:+ random_prefix) random_key.

(** [is_valid]: the prefix of a token that looks right; [None] if a slice
    panics. *)
Definition is_valid (token : string) : option (option string) :=
  let len := slen token in
  if negb ((MIN_TOKEN_LENGTH <=? len)%nat && (len <=? MAX_TOKEN_LENGTH)%nat) then Some None
  else
    prefix_1 ← slice token 0 4;
    if negb (string_eqb prefix_1 "drg_") then Some None
    else
      key ← slice token 0 MIN_TOKEN_LENGTH;
      expected_crc ← slice token MIN_TOKEN_LENGTH len;
      let crc := crc32_update_ieee 0 key in
      let actual_crc := base62_encode crc in
      if negb (string_eqb expected_crc actual_crc) then Some None
      else Some <$> slice token 0 (PREFIX_LENGTH + 4).

(** ** The service *)

Definition put_user (id : string) (u : KcUser) (realm : Realm) : Realm :=
  <[id := mkKcUser (kc_id u) (kc_username u)
            (option_map (λ attrs : gmap string Value, kc_store <$> attrs) (kc_attributes u))]> realm.

Definition ATTR_PREFIX : string := "access_token_".
Definition make_key (prefix : string) : string := ATTR_PREFIX +:+ prefix.

Definition insert_entry (attributes : gmap string Value) (prefix hashed : string) (created : Z)
    (description : string) : gmap string Value :=
  <[make_key prefix := Str (encode_entry hashed created description)]> attributes.

Definition decode_data (value : Value) : result (string * Z * string) TokenError :=
  match value with
  | Array (Str s :: _) => ok_or TClient (decode_entry s)
  | _ => Err TNotAuthorized
  end.

Definition create (now : Z) (random_prefix random_key : string) (identity : UserInformation)
    (description : string) (realm : Realm) : result (Realm * (string * string)) TokenError :=
  match user_id identity with
  | None => Err TNotAuthorized
  | Some id =>
      let '(token, hashed) := generate_access_token random_prefix random_key in
      let? user := ok_or TClient (realm !! id) in
      let prefix := token.1 in
      let attributes := insert_entry (default ∅ (kc_attributes user)) prefix hashed now description in
      Ok (put_user id (mkKcUser (kc_id user) (kc_username user) (Some attributes)) realm, token)
  end.

Definition delete (identity : UserInformation) (prefix : string) (realm : Realm)
    : result Realm TokenError :=
  match user_id identity with
  | None => Err TNotAuthorized
  | Some id =>
      let? user := ok_or TClient (realm !! id) in
      match kc_attributes user with
      | Some attributes =>
          match attributes !! make_key prefix with
          | Some _ =>
              Ok (put_user id (mkKcUser (kc_id user) (kc_username user)
                    (Some (base.delete (make_key prefix) attributes))) realm)
          | None => Ok realm
          end
      | None => Ok realm
      end
  end.

(** The prefixes (with creation time and description) of a user's tokens. *)
Definition list_tokens (identity : UserInformation) (realm : Realm)
    : result (list (string * Z * string)) TokenError :=
  match user_id identity with
  | None => Err TNotAuthorized
  | Some id =>
      let? user := ok_or TClient (realm !! id) in
      Ok (omap (λ '(key, value),
            prefix ← strip_prefix ATTR_PREFIX key;
            match decode_data value with
            | Ok (_, created, description) => Some (prefix, created, description)
            | Err _ => None
            end) (map_to_list (default ∅ (kc_attributes user))))
  end.

(** [authenticate]; [None] if checking the password panics. *)
Definition authenticate (username password : string) (realm : Realm)
    : option (option UserDetails) :=
  valid ← is_valid password;
  match valid with
  | None => Some None
  | Some prefix =>
      match kc_find username realm with
      | None => Some None
      | Some user =>
          match kc_id user with
          | None => Some None
          | Some id =>
              match default ∅ (kc_attributes user) !! make_key prefix with
              | Some value =>
                  match decode_data value with
                  | Ok (expected_hash, _, _) =>
                      if string_eqb (hash_token password) expected_hash
                      then Some (Some (mkUserDetails id []))
                      else Some None
                  | Err _ => Some None
                  end
              | None => Some None
              end
          end
      end
  end.
End Tokens.

(** ** Facts about slices *)

Lemma slen_app a b : slen (a +:+ b) = slen a + slen b.
Proof. induction a; [done|]. by rw app_cons /= IHa. Qed.

Lemma str_take_app a b : str_take (slen a) (a +:+ b) = a.
Proof. induction a; [by destruct b|]. by rw app_cons /= IHa. Qed.

Lemma str_drop_app a b : str_drop (slen a) (a +:+ b) = b.
Proof. induction a; [by destruct b|]. by rw app_cons /= IHa. Qed.

Lemma str_drop_all s : str_drop (slen s) s = EmptyString.
Proof. induction s; simpl; done. Qed.

Lemma str_take_all s : str_take (slen s) s = s.
Proof. induction s; simpl; [done|]. by rw IHs. Qed.

Lemma is_ascii_app a b : is_ascii (a +:+ b) = is_ascii a && is_ascii b.
Proof. induction a as [|[] a IH]; [done|]. rw app_cons /= IH. apply andb_assoc. Qed.

Lemma is_ascii_drop n s : is_ascii s = true → is_ascii (str_drop n s) = true.
Proof.
  revert s. induction n as [|n IH]; intros s Hs; [by destruct s|]. destruct s as [|[] s]; [done|].
  simpl in *. apply IH. by apply andb_true_iff in Hs as [_ ?].
Qed.

(** In ASCII text every position is a boundary. *)
Lemma ascii_boundary s i : is_ascii s = true → i ≤ slen s → is_char_boundary s i = true.
Proof.
  intros Hs Hi. unfold is_char_boundary. pose proof (is_ascii_drop i s Hs) as Hd.
  destruct (str_drop i s) as [|[b0 b1 b2 b3 b4 b5 b6 b7] t] eqn:E.
  - apply Nat.eqb_eq. clear Hs Hd. revert i E Hi. induction s as [|c s IH]; intros i E Hi; simpl in *.
    + destruct i; [done|lia].
    + destruct i; [done|]. simpl in E. f_equal. apply IH; [done|lia].
  - simpl in Hd. apply andb_true_iff in Hd as [Hb _]. simpl. by destruct b7; rw /= ?orb_true_r.
Qed.

Lemma slice_ascii s a b :
  is_ascii s = true → a ≤ b → b ≤ slen s → slice s a b = Some (str_take (b - a) (str_drop a s)).
Proof.
  intros Hs Hab Hb. unfold slice.
  rw !ascii_boundary //; [lia|]. rw (proj2 (Nat.leb_le _ _) Hab) (proj2 (Nat.leb_le _ _) Hb) //.
Qed.

(** A prefix of known length. *)
Lemma slice_prefix p s : is_ascii (p +:+ s) = true → slice (p +:+ s) 0 (slen p) = Some p.
Proof.
  intros Hs. rw slice_ascii //; [lia|rw slen_app; lia|]. rw Nat.sub_0_r.
  replace (str_drop 0 (p +:+ s)) with (p +:+ s) by (by destruct (p +:+ s)). by rw str_take_app.
Qed.

Lemma slice_suffix p s :
  is_ascii (p +:+ s) = true → slice (p +:+ s) (slen p) (slen (p +:+ s)) = Some s.
Proof.
  intros Hs. rw slice_ascii //; [rw slen_app; lia|]. rw str_drop_app slen_app.
  replace (slen p + slen s - slen p) with (slen s) by lia. by rw str_take_all.
Qed.

Section TokenProofs.
Context `{TokenLaws}.

(** A generated token is ASCII, of the right length, and has the prefix. *)
Lemma token_valid rp rk :
  is_ascii rp = true → is_ascii rk = true → slen rp = PREFIX_LENGTH → slen rk = KEY_LENGTH →
  is_valid (generate_access_token rp rk).1.2 = Some (Some ("drg_" +:+ rp)).
Proof.
  intros Ap Ak Lp Lk. unfold generate_access_token, serialize_token. cbn [fst snd].
  set (p := "drg_" +:+ rp). set (body := p +:+ "_" +:+ rk).
  set (crc := base62_encode (checksum_ieee body)).
  assert (Hp : slen p = PREFIX_LENGTH + 4) by (unfold p; rw slen_app Lp; done).
  assert (Hb : slen body = MIN_TOKEN_LENGTH)
    by (unfold body; rw (slen_app p) (slen_app "_") Hp Lk; done).
  assert (Hcl : slen crc ≤ 6) by apply base62_length.
  assert (Hasc : is_ascii (body +:+ crc) = true).
  { unfold body, p, crc. rw !is_ascii_app Ap Ak base62_ascii //. }
  unfold is_valid. rw slen_app Hb.
  assert (Hlen : (MIN_TOKEN_LENGTH <=? MIN_TOKEN_LENGTH + slen crc)%nat
    && (MIN_TOKEN_LENGTH + slen crc <=? MAX_TOKEN_LENGTH)%nat = true).
  { apply andb_true_iff. rw !Nat.leb_le. unfold MAX_TOKEN_LENGTH. lia. }
  rw Hlen. cbn [negb].
  assert (H4 : slice (body +:+ crc) 0 4 = Some "drg_").
  { unfold body, p. rw !str_app_assoc. apply (slice_prefix "drg_").
    unfold body, p in Hasc. by rw !str_app_assoc in Hasc. }
  rw H4. cbn [mbind option_bind]. rw string_eqb_refl. cbn [negb].
  rw -Hb slice_prefix //. cbn [mbind option_bind].
  rw -(slen_app body crc) slice_suffix //. cbn [mbind option_bind].
  rw -checksum_is_update string_eqb_refl. cbn [negb]. rw -Hp.
  unfold body in *. rw (str_app_assoc p) in Hasc *. by rw slice_prefix.
Qed.

(** A generated token passes its own check: for every random prefix and
    key, [is_valid] finds the prefix under which the token was stored, and does
    not panic. *)
Theorem generated_token_valid rp rk :
  is_ascii rp = true → is_ascii rk = true → slen rp = PREFIX_LENGTH → slen rk = KEY_LENGTH →
  is_valid (generate_access_token rp rk).1.2 = Some (Some (generate_access_token rp rk).1.1).
Proof. intros. by apply token_valid. Qed.

(** Checking a token of ASCII characters never panics; a token of the right
    length whose fourth byte ends inside of a multi-byte character does. *)
Theorem is_valid_panics :
  (∀ token, is_ascii token = true → is_Some (is_valid token)) ∧
  (∃ token, slen token = MIN_TOKEN_LENGTH ∧ is_valid token = None).
Proof.
  split.
  - intros token Ha. unfold is_valid.
    destruct (negb _) eqn:Hlen; [eauto|]. apply negb_false_iff, andb_true_iff in Hlen as [Hmin _].
    apply Nat.leb_le in Hmin.
    assert (Hs : ∀ a b, a ≤ b → b ≤ slen token → is_Some (slice token a b)).
    { intros a b ? ?. rw slice_ascii //. }
    assert (MIN_TOKEN_LENGTH = 41) by done.
    destruct (Hs 0 4) as [x ->]; [lia..|]. simpl. case_match; [eauto|].
    destruct (Hs 0 MIN_TOKEN_LENGTH) as [y ->]; [lia..|]. simpl.
    destruct (Hs MIN_TOKEN_LENGTH (slen token)) as [z ->]; [lia..|]. simpl. case_match; [eauto|].
    destruct (Hs 0 10) as [w ->]; [lia..|]. simpl. eauto.
  - exists ("drg" +:+ String "195"%char (String "169"%char "012345_01234567890123456789012345678")).
    split; [reflexivity|]. vm_compute. reflexivity.
Qed.
End TokenProofs.

Section ServiceProofs.
Context `{TokenLaws, KeycloakRealmLaws}.

Lemma put_user_attr id u realm attrs k :
  kc_attributes u = Some attrs →
  ∃ u', put_user id u realm !! id = Some u' ∧ kc_id u' = kc_id u ∧ kc_username u' = kc_username u ∧
    default ∅ (kc_attributes u') !! k = kc_store <$> attrs !! k.
Proof.
  intros Ha. eexists. unfold put_user. split; [apply lookup_insert_eq|]. simpl.
  rw Ha /= lookup_fmap //.
Qed.

(** The only user of a name. *)
Definition only_user (n id : string) (realm : Realm) : Prop :=
  ∀ id' u', realm !! id' = Some u' → kc_username u' = n → id' = id.

Lemma only_user_put n id u realm :
  only_user n id realm → kc_username u = n → only_user n id (put_user id u realm).
Proof.
  intros Ho Hu id' u' Hl Hn. unfold put_user in Hl.
  apply lookup_insert_Some in Hl as [[-> _]|[_ Hl]]; [done|]. by apply (Ho id' u').
Qed.

(** C39: the life of a token: after it was created it authenticates its user
    (under the user's name, without any role), and after it was deleted it
    does not. *)
Theorem token_lifecycle now rp rk (d : UserDetails) desc user realm :
  is_ascii rp = true → is_ascii rk = true → slen rp = PREFIX_LENGTH → slen rk = KEY_LENGTH →
  realm !! ud_user_id d = Some user → kc_id user = Some (ud_user_id d) →
  only_user (kc_username user) (ud_user_id d) realm →
  ∃ realm1 prefix token realm2,
    create now rp rk (Authenticated d) desc realm = Ok (realm1, (prefix, token)) ∧
    authenticate (kc_username user) token realm1 = Some (Some (mkUserDetails (ud_user_id d) [])) ∧
    delete (Authenticated d) prefix realm1 = Ok realm2 ∧
    authenticate (kc_username user) token realm2 = Some None.
Proof.
  intros Ap Ak Lp Lk Hu Hid Honly. pose proof (token_valid rp rk Ap Ak Lp Lk) as Hv.
  unfold create. cbn [user_id]. rw Hu. unfold generate_access_token, serialize_token in *.
  set (p := "drg_" +:+ rp) in *. set (token := (p +:+ "_" +:+ rk) +:+ _) in *. simpl in Hv |- *.
  set (attrs := insert_entry _ p _ now desc).
  set (user1 := mkKcUser (kc_id user) (kc_username user) (Some attrs)).
  set (realm1 := put_user (ud_user_id d) user1 realm).
  destruct (put_user_attr (ud_user_id d) user1 realm attrs (make_key p) eq_refl)
    as (u1 & Hu1 & Hid1 & Hn1 & Hat1). fold realm1 in Hu1. simpl in Hid1, Hn1.
  rw /attrs /insert_entry lookup_insert_eq /= kc_store_string in Hat1.
  assert (Ho1 : only_user (kc_username user) (ud_user_id d) realm1) by by apply only_user_put.
  assert (Hattr1 : kc_attributes u1 = Some (kc_store <$> attrs)).
  { unfold realm1, put_user in Hu1. rw lookup_insert_eq in Hu1. by injection Hu1 as <-. }
  assert (Hmem1 : (kc_store <$> attrs) !! make_key p
    = Some (Array [Str (encode_entry (hash_token token) now desc)])).
  { by rw Hattr1 /= in Hat1. }
  set (user2 := mkKcUser (kc_id u1) (kc_username u1)
    (Some (base.delete (make_key p) (kc_store <$> attrs)))).
  exists realm1, p, token, (put_user (ud_user_id d) user2 realm1). split_and!.
  - done.
  - unfold authenticate. rw Hv /= (kc_find_unique _ _ _ _ Hu1) // Hid1 Hid Hat1 /=.
    by rw decode_encode /= string_eqb_refl.
  - unfold delete. cbn [user_id]. rw Hu1 /= Hattr1 Hmem1 //.
  - destruct (put_user_attr (ud_user_id d) user2 realm1 _ (make_key p) eq_refl)
      as (u2 & Hu2 & Hid2 & Hn2 & Hat2).
    unfold authenticate. rw Hv /= (kc_find_unique _ _ _ _ Hu2) //.
    + simpl in Hn2. congruence.
    + apply only_user_put; [done|]. simpl. congruence.
    + simpl in Hid2. rw Hid2 Hid1 Hid Hat2 lookup_delete_eq //.
Qed.

(** A password authenticates a user only if it is a well-formed token whose
    hash is stored with the user under the token's prefix; the user that is
    authenticated has no roles, and so is no administrator. *)
Theorem token_authenticate_sound username password realm d :
  authenticate username password realm = Some (Some d) →
  is_admin (Authenticated d) = false ∧
  ∃ user id prefix value created desc,
    kc_username user = username ∧ realm !! id = Some user ∧ kc_id user = Some (ud_user_id d) ∧
    is_valid password = Some (Some prefix) ∧
    default ∅ (kc_attributes user) !! make_key prefix = Some value ∧
    decode_data value = Ok (hash_token password, created, desc).
Proof.
  unfold authenticate. intros Ha. destruct (is_valid password) as [[prefix|]|] eqn:Hv; try done.
  simpl in Ha. destruct (kc_find username realm) as [user|] eqn:Hf; [|done].
  destruct (kc_id user) as [uid|] eqn:Hid; [|done].
  destruct (default ∅ (kc_attributes user) !! make_key prefix) as [value|] eqn:Hm; [|done].
  destruct (decode_data value) as [[[h c] ds]|] eqn:Hd; [|done].
  destruct (string_eqb_spec (hash_token password) h) as [<-|]; [|done]. simplify_eq.
  apply kc_find_some in Hf as [Hn [id Hl]]. split; [done|]. by exists user, id, prefix, value, c, ds.
Qed.
End ServiceProofs.
