(* ===== verification/Commands.v ===== *)
(** * Command routing

    [endpoint-common/src/command]: commands for devices, the subscriptions of
    connected devices and gateways to them, and their dispatch.  The MQTT topic
    filters are those of the [mqtt] crate. *)

From S2P Require Import Prelude Json CloudEvents.

(** ** Commands, [mod.rs] *)

Record CommandAddress := mkAddress {
  ca_app_id : string;
  ca_gateway_id : string;
  ca_device_id : string;
}.

#[global] Instance CommandAddress_eq_dec : EqDecision CommandAddress.
Proof. solve_decision. Defined.
#[global] Instance CommandAddress_countable : Countable CommandAddress.
Proof.
  apply (inj_countable' (λ a, (ca_app_id a, ca_gateway_id a, ca_device_id a))
    (λ p, mkAddress p.1.1 p.1.2 p.2)). by intros [].
Defined.

(** The gateway of a command is its sender extension, and the device itself if
    there is none. *)
Definition address_from_event (event : CE.Event) : option CommandAddress :=
  let sender_id :=
    match CE.extension EXT_SENDER event with
    | Some (CE.ExtString v) => Some v
    | _ => None
    end in
  match CE.extension EXT_APPLICATION event, CE.extension EXT_DEVICE event with
  | Some (CE.ExtString app_id), Some (CE.ExtString device_id) =>
      Some (mkAddress app_id (default device_id sender_id) device_id)
  | _, _ => None
  end.

Record Command := mkCommand {
  cmd_address : CommandAddress;
  cmd_command : string;
  cmd_payload : option string;
}.

Inductive ParseCommandError : Type :=
| Missing (what : string)
| Payload.

(** ** Topic filters *)

(** [TopicFilter::new], [TopicNameRef::new] and the matcher. *)
Class MqttTopics := {
  topic_filter_valid : string → bool;
  topic_name_valid : string → bool;
  topic_is_match : string → string → bool;
}.

Inductive CommandNameFilter : Type :=
| Always
| Never
| Filter (filter : string).

(** ** Subscriptions, [commands.rs] *)

Record CommandFilter := mkFilter {
  cf_application : string;
  cf_gateway : string;
  cf_device : option string;
  cf_command_filter : option string;
}.

Definition filter_wildcard (application gateway : string) : CommandFilter :=
  mkFilter application gateway None None.
Definition filter_proxied_device (application gateway device : string) : CommandFilter :=
  mkFilter application gateway (Some device) None.
Definition filter_device (application device : string) : CommandFilter :=
  mkFilter application device (Some device) None.
Definition with_filter (command_filter : option string) (f : CommandFilter) : CommandFilter :=
  mkFilter (cf_application f) (cf_gateway f) (cf_device f) command_filter.

(** A target: the sending end of the subscription's channel, and the filter of
    command names. *)
Record CommandTarget := mkTarget { tx : nat; target_filter : CommandNameFilter }.

Abbreviation CommandMap K := (gmap K (gmap Z CommandTarget)).

Record Commands := mkCommands {
  devices : CommandMap CommandAddress;
  wildcards : CommandMap Id;
}.

Definition commands_new : Commands := mkCommands ∅ ∅.

Record SubscriptionHandle := mkHandle { h_filter : CommandFilter; h_id : Z }.

Section Entries.
Context {K : Type} `{Countable K}.

(** The loop of [add_entry]: draw IDs until one is free; [None] if all of
    [draws] are taken. *)
Fixpoint free_id (m : gmap Z CommandTarget) (draws : list Z) : option Z :=
  match draws with
  | [] => None
  | id :: draws =>
      match m !! id with
      | None => Some id
      | Some _ => free_id m draws
      end
  end.

Definition add_entry (draws : list Z) (key : K) (value : CommandTarget) (map : CommandMap K)
    : option (CommandMap K * Z) :=
  let inner := default ∅ (map !! key) in
  id ← free_id inner draws;
  Some (<[key := <[id := value]> inner]> map, id).

Definition remove_entry (key : K) (id : Z) (map : CommandMap K) : CommandMap K :=
  match map !! key with
  | None => map
  | Some inner =>
      let inner := base.delete id inner in
      if bool_decide (inner = ∅) then base.delete key map else <[key := inner]> map
  end.
End Entries.

Section Dispatch.
Context `{MqttTopics}.

Definition name_filter (filter : option string) : CommandNameFilter :=
  match filter with
  | Some filter => if topic_filter_valid filter then Filter filter else Never
  | None => Always
  end.

Definition name_matches (f : CommandNameFilter) (command : string) : bool :=
  match f with
  | Filter filter => if topic_name_valid command then topic_is_match filter command else false
  | Never => false
  | Always => true
  end.

(** If the device is set, and equal to the gateway, it is dropped. *)
Definition cleanup_filter (filter : CommandFilter) : CommandFilter :=
  match cf_device filter with
  | Some device =>
      if string_eqb device (cf_gateway filter)
      then mkFilter (cf_application filter) (cf_gateway filter) None (cf_command_filter filter)
      else filter
  | None => filter
  end.

(** [subscribe] with the new channel [chan]. *)
Definition subscribe (draws : list Z) (chan : nat) (filter : CommandFilter) (c : Commands)
    : option (Commands * SubscriptionHandle) :=
  let command_filter := name_filter (cf_command_filter filter) in
  let filter := cleanup_filter filter in
  let target := mkTarget chan command_filter in
  match cf_device filter with
  | Some device =>
      '(m, id) ← add_entry draws (mkAddress (cf_application filter) (cf_gateway filter) device)
        target (devices c);
      Some (mkCommands m (wildcards c), mkHandle filter id)
  | None =>
      '(m, id) ← add_entry draws (mkId (cf_application filter) (cf_gateway filter))
        target (wildcards c);
      Some (mkCommands (devices c) m, mkHandle filter id)
  end.

Definition unsubscribe (handle : SubscriptionHandle) (c : Commands) : Commands :=
  let filter := h_filter handle in
  match cf_device filter with
  | Some device =>
      mkCommands (remove_entry (mkAddress (cf_application filter) (cf_gateway filter) device)
        (h_id handle) (devices c)) (wildcards c)
  | None =>
      mkCommands (devices c)
        (remove_entry (mkId (cf_application filter) (cf_gateway filter)) (h_id handle)
           (wildcards c))
  end.

(** [dispatch_command]: the channels the command is sent to. *)
Definition dispatch_command (senders : gmap Z CommandTarget) (msg : Command) : list nat :=
  omap (λ '(_, t), if name_matches (target_filter t) (cmd_command msg) then Some (tx t) else None)
    (map_to_list senders).

Definition send (msg : Command) (c : Commands) : list nat :=
  from_option (λ senders, dispatch_command senders msg) [] (devices c !! cmd_address msg) ++
  from_option (λ senders, dispatch_command senders msg) []
    (wildcards c !! mkId (ca_app_id (cmd_address msg)) (ca_gateway_id (cmd_address msg))).

(** [TryFrom<Event> for Command]; [data_bytes] is the SDK's conversion of the
    data to bytes. *)
Definition command_from_event (data_bytes : CE.Data → option string) (event : CE.Event)
    : result Command ParseCommandError :=
  let? address := ok_or (Missing "Address") (address_from_event event) in
  let? payload :=
    match CE.data event with
    | Some data => let? bytes := ok_or Payload (data_bytes data) in Ok (Some bytes)
    | None => Ok None
    end in
  let? command := ok_or (Missing "Command") (CE.subject event) in
  Ok (mkCommand address command payload).
End Dispatch.

(** ** Entries *)

Section EntryFacts.
Context {K : Type} `{Countable K}.
Implicit Types (m : CommandMap K) (k : K) (id : Z).

Definition entry m k id : option CommandTarget := m !! k ≫= λ inner, inner !! id.

(** [remove_entry] leaves no empty inner map. *)
Definition no_empty m : Prop := ∀ k inner, m !! k = Some inner → inner ≠ ∅.

Lemma entry_default m k id : entry m k id = default ∅ (m !! k) !! id.
Proof. unfold entry. by destruct (m !! k). Qed.

Lemma free_id_some inner draws id : free_id inner draws = Some id → inner !! id = None ∧ id ∈ draws.
Proof.
  induction draws as [|x draws IH]; simpl; [done|]. destruct (inner !! x) eqn:E.
  - intros [? ?]%IH. set_solver.
  - intros [= <-]. set_solver.
Qed.

(** The loop ends as soon as an ID that is not taken is drawn. *)
Lemma free_id_total inner draws id :
  id ∈ draws → inner !! id = None → is_Some (free_id inner draws).
Proof.
  intros Hin Hid. induction draws as [|x draws IH]; [set_solver|]. simpl.
  destruct (inner !! x) eqn:E; [|eauto]. apply IH. apply elem_of_cons in Hin as [->|]; congruence.
Qed.

Lemma add_entry_some draws k v m m' id :
  add_entry draws k v m = Some (m', id) →
  entry m k id = None ∧ (no_empty m → no_empty m') ∧
  ∀ k' id', entry m' k' id' = if bool_decide (k' = k ∧ id' = id) then Some v else entry m k' id'.
Proof.
  unfold add_entry. destruct (free_id _ _) as [id0|] eqn:Hf; [|done]. simpl. intros [= <- <-].
  apply free_id_some in Hf as [Hf _]. split_and!.
  - by rw entry_default.
  - intros Hne k' inner. destruct (decide (k' = k)) as [->|Hk].
    + rw lookup_insert_eq. intros [= <-]. apply insert_non_empty.
    + rw lookup_insert_ne //. apply Hne.
  - intros k' id'. unfold entry. destruct (decide (k' = k)) as [->|Hk].
    + rw lookup_insert_eq /=. destruct (decide (id' = id0)) as [->|Hid].
      * rw lookup_insert_eq bool_decide_true //.
      * rw lookup_insert_ne // bool_decide_false; [naive_solver|]. by destruct (m !! k).
    + rw lookup_insert_ne // bool_decide_false //. naive_solver.
Qed.

Lemma remove_entry_entry k id m k' id' :
  entry (remove_entry k id m) k' id' = if bool_decide (k' = k ∧ id' = id) then None else entry m k' id'.
Proof.
  unfold remove_entry. rw !entry_default. destruct (m !! k) as [inner|] eqn:Hk.
  - destruct (decide (k' = k ∧ id' = id)) as [[-> ->]|Hc].
    + rw (bool_decide_true (k = k ∧ id = id)) //. case_bool_decide as He.
      * by rw lookup_delete_eq /= lookup_empty.
      * by rw lookup_insert_eq /= lookup_delete_eq.
    + rw (bool_decide_false (k' = k ∧ id' = id)) //. destruct (decide (k' = k)) as [->|Hne].
      * assert (Hid : id ≠ id') by naive_solver. rw Hk /= -(lookup_delete_ne inner id id') //.
        case_bool_decide as He; [by rw lookup_delete_eq /= He lookup_empty|by rw lookup_insert_eq].
      * case_bool_decide; [by rw lookup_delete_ne|by rw lookup_insert_ne].
  - case_bool_decide as He; [|done]. destruct He as [-> ->]. by rw Hk /= lookup_empty.
Qed.

Lemma remove_entry_no_empty k id m : no_empty m → no_empty (remove_entry k id m).
Proof.
  intros Hne k' inner'. unfold remove_entry. destruct (m !! k) as [inner|] eqn:Hk; [|apply Hne].
  case_bool_decide as He.
  - intros [_ ?]%lookup_delete_Some. by eapply Hne.
  - intros [[<- <-]|[_ ?]]%lookup_insert_Some; [done|]. by eapply Hne.
Qed.

(** Without entries the map is empty. *)
Lemma no_entries_empty m : no_empty m → (∀ k id, entry m k id = None) → m = ∅.
Proof.
  intros Hne Hno. apply map_eq. intros k. rw lookup_empty. destruct (m !! k) as [inner|] eqn:Hk; [|done].
  exfalso. apply (Hne k inner Hk). apply map_eq. intros id. rw lookup_empty.
  specialize (Hno k id). unfold entry in Hno. by rw Hk in Hno.
Qed.

Lemma dispatch_elem `{MqttTopics} m k msg ch :
  ch ∈ from_option (λ senders, dispatch_command senders msg) [] (m !! k) ↔
  ∃ id t, entry m k id = Some t ∧ tx t = ch ∧ name_matches (target_filter t) (cmd_command msg) = true.
Proof.
  unfold entry, dispatch_command. destruct (m !! k) as [inner|]; simpl; [|set_solver].
  rw list_elem_of_omap. split.
  - intros ([id t] & Hin%elem_of_map_to_list & Ht). simpl in Ht. destruct (name_matches _ _) eqn:E; [|done].
    exists id, t. by simplify_eq.
  - intros (id & t & Hin & <- & Hm). exists (id, t). split; [by apply elem_of_map_to_list|]. simpl. by rw Hm.
Qed.
End EntryFacts.

(** ** Subscriptions over time *)

Section Routing.
Context `{MqttTopics}.

(** Where a (cleaned up) filter is registered. *)
Definition place_entry (c : Commands) (f : CommandFilter) (id : Z) : option CommandTarget :=
  match cf_device f with
  | Some device => entry (devices c) (mkAddress (cf_application f) (cf_gateway f) device) id
  | None => entry (wildcards c) (mkId (cf_application f) (cf_gateway f)) id
  end.

(** Two filters with the same place. *)
Definition same_place (f g : CommandFilter) : Prop :=
  cf_application f = cf_application g ∧ cf_gateway f = cf_gateway g ∧ cf_device f = cf_device g.

#[global] Instance same_place_dec f g : Decision (same_place f g).
Proof. unfold same_place. apply _. Defined.

Definition commands_ok (c : Commands) : Prop := no_empty (devices c) ∧ no_empty (wildcards c).

Lemma cleanup_device f : cf_device (cleanup_filter f) ≠ Some (cf_gateway f).
Proof.
  unfold cleanup_filter. destruct (cf_device f) as [d|] eqn:E; [|congruence].
  destruct (string_eqb_spec d (cf_gateway f)); [done|congruence].
Qed.

Lemma subscribe_spec draws ch f c c' h :
  subscribe draws ch f c = Some (c', h) →
  h_filter h = cleanup_filter f ∧ place_entry c (h_filter h) (h_id h) = None ∧
  (commands_ok c → commands_ok c') ∧
  ∀ g id, place_entry c' g id =
    if bool_decide (same_place g (h_filter h) ∧ id = h_id h)
    then Some (mkTarget ch (name_filter (cf_command_filter f))) else place_entry c g id.
Proof.
  unfold subscribe, place_entry, commands_ok.
  destruct (cf_device (cleanup_filter f)) as [d|] eqn:Hd;
    destruct (add_entry _ _ _ _) as [[m id]|] eqn:Ha; simpl; try done; intros [= <- <-]; simpl;
    apply add_entry_some in Ha as (Hnone & Hne & He).
  all: split; [done|]; split; [by rw Hd|]; split; [naive_solver|]; intros g i.
  all: destruct (cf_device g) as [d'|] eqn:Hg; rw ?He; unfold same_place;
    repeat case_bool_decide; naive_solver congruence.
Qed.

Lemma unsubscribe_spec h c :
  (commands_ok c → commands_ok (unsubscribe h c)) ∧
  ∀ g id, place_entry (unsubscribe h c) g id =
    if bool_decide (same_place g (h_filter h) ∧ id = h_id h) then None else place_entry c g id.
Proof.
  unfold unsubscribe, place_entry, commands_ok.
  destruct (cf_device (h_filter h)) as [d|] eqn:Hd; split; simpl;
    try (intros [??]; split; by try apply remove_entry_no_empty).
  all: intros g i; destruct (cf_device g) as [d'|] eqn:Hg; simpl; rw ?remove_entry_entry;
    unfold same_place; repeat case_bool_decide; naive_solver congruence.
Qed.

(** A subscription that was made: what was asked for, the handle and the
    channel. *)
Record Sub := mkSub { sub_requested : CommandFilter; sub_handle : SubscriptionHandle; sub_chan : nat }.

(** What endpoints do: every subscription has a channel of its own, and a
    handle is given up when it is used. *)
Inductive commands_run : list Sub → Commands → Prop :=
| run_new : commands_run [] commands_new
| run_subscribe subs c draws ch f c' h :
    commands_run subs c → ch ∉ sub_chan <$> subs → subscribe draws ch f c = Some (c', h) →
    commands_run (mkSub f h ch :: subs) c'
| run_unsubscribe l1 s l2 c :
    commands_run (l1 ++ s :: l2) c → commands_run (l1 ++ l2) (unsubscribe (sub_handle s) c).

(** The registration of a subscription. *)
Definition registered (c : Commands) (s : Sub) : Prop :=
  h_filter (sub_handle s) = cleanup_filter (sub_requested s) ∧
  place_entry c (h_filter (sub_handle s)) (h_id (sub_handle s)) =
    Some (mkTarget (sub_chan s) (name_filter (cf_command_filter (sub_requested s)))).

(** The live subscriptions are registered, and nothing else is. *)
Record run_inv (subs : list Sub) (c : Commands) : Prop := {
  inv_ok : commands_ok c;
  inv_chans : NoDup (sub_chan <$> subs);
  inv_registered s : s ∈ subs → registered c s;
  inv_only g id t : place_entry c g id = Some t →
    ∃ s, s ∈ subs ∧ same_place g (h_filter (sub_handle s)) ∧ id = h_id (sub_handle s) ∧ sub_chan s = tx t;
}.

Lemma same_place_entry c f g id : same_place f g → place_entry c f id = place_entry c g id.
Proof. unfold same_place, place_entry. by intros (-> & -> & ->). Qed.

Lemma run_inv_subscribe subs c draws ch f c' h :
  run_inv subs c → ch ∉ sub_chan <$> subs → subscribe draws ch f c = Some (c', h) →
  run_inv (mkSub f h ch :: subs) c'.
Proof.
  intros [Hok Hch Hreg Honly] Hnew Hs. apply subscribe_spec in Hs as (Hf & Hnone & Hok' & He).
  split; [auto| | |].
  - by apply NoDup_cons.
  - intros s [->|Hin]%elem_of_cons; unfold registered; simpl; rw He.
    + split; [done|]. rw bool_decide_true //.
    + destruct (Hreg s Hin) as [Hhf Hent]. split; [done|]. rw bool_decide_false //.
      intros [Hsp Hid]. rw (same_place_entry _ _ _ _ Hsp) Hid Hnone in Hent. done.
  - intros g id t. rw He. case_bool_decide as Hc.
    + intros [= <-]. exists (mkSub f h ch). destruct Hc. set_solver.
    + intros (s & Hin & ?)%Honly. exists s. set_solver.
Qed.

Lemma run_inv_unsubscribe l1 s l2 c :
  run_inv (l1 ++ s :: l2) c → run_inv (l1 ++ l2) (unsubscribe (sub_handle s) c).
Proof.
  intros [Hok Hch Hreg Honly]. destruct (unsubscribe_spec (sub_handle s) c) as [Hok' He].
  assert (Hp : sub_chan <$> l1 ++ s :: l2 ≡ₚ sub_chan s :: (sub_chan <$> l1 ++ l2)).
  { by rw -Permutation_middle. }
  rw Hp NoDup_cons in Hch. destruct Hch as [Hs Hch].
  assert (Hdiff : ∀ s', s' ∈ l1 ++ l2 → sub_chan s' ≠ sub_chan s).
  { intros s' Hin Heq. apply Hs. rw -Heq. by apply list_elem_of_fmap_2. }
  split; [auto|done| |].
  - intros s' Hin. destruct (Hreg s') as [Hf Hent]; [set_solver|]. split; [done|].
    rw He bool_decide_false //. intros [Hsp Hid].
    destruct (Hreg s) as [_ Hent']; [set_solver|].
    rw (same_place_entry _ _ _ _ Hsp) Hid Hent' in Hent. apply (Hdiff s' Hin). congruence.
  - intros g id t. rw He. case_bool_decide as Hc; [done|]. intros (s' & Hin & Hsp & -> & Ht)%Honly.
    exists s'. split; [|done].
    assert (s' ≠ s) by (intros ->; naive_solver). set_solver.
Qed.

Lemma commands_run_inv subs c : commands_run subs c → run_inv subs c.
Proof.
  induction 1 as [|subs c draws ch f c' h Hr IH Hch Hs|l1 s l2 c Hr IH].
  - split; [split; intros k inner; simpl; by rw lookup_empty|constructor|set_solver|].
    intros g id t. unfold place_entry, entry. by destruct (cf_device g); rw /= lookup_empty.
  - by eapply run_inv_subscribe.
  - by apply run_inv_unsubscribe.
Qed.

(** What a subscription asks for: commands for its gateway, for its device if
    it names one other than the gateway, with a matching name. *)
Definition wants (f : CommandFilter) (msg : Command) : Prop :=
  cf_application f = ca_app_id (cmd_address msg) ∧
  cf_gateway f = ca_gateway_id (cmd_address msg) ∧
  (∀ d, cf_device f = Some d → d ≠ cf_gateway f → d = ca_device_id (cmd_address msg)) ∧
  name_matches (name_filter (cf_command_filter f)) (cmd_command msg) = true.

(** The two lookups of [send] are the two places a message can be found at. *)
Definition direct (msg : Command) : CommandFilter :=
  mkFilter (ca_app_id (cmd_address msg)) (ca_gateway_id (cmd_address msg))
    (Some (ca_device_id (cmd_address msg))) None.
Definition via_gateway (msg : Command) : CommandFilter :=
  mkFilter (ca_app_id (cmd_address msg)) (ca_gateway_id (cmd_address msg)) None None.

Lemma send_elem msg c ch :
  ch ∈ send msg c ↔ ∃ g id t, (g = direct msg ∨ g = via_gateway msg) ∧
    place_entry c g id = Some t ∧ tx t = ch ∧
    name_matches (target_filter t) (cmd_command msg) = true.
Proof.
  unfold send. rw elem_of_app !dispatch_elem.
  assert (Ha : mkAddress (ca_app_id (cmd_address msg)) (ca_gateway_id (cmd_address msg))
    (ca_device_id (cmd_address msg)) = cmd_address msg) by by destruct (cmd_address msg).
  split.
  - intros [(id & t & He & Ht)|(id & t & He & Ht)].
    + exists (direct msg), id, t. unfold place_entry. simpl. rw Ha. auto.
    + exists (via_gateway msg), id, t. auto.
  - intros (g & id & t & [-> | ->] & He & Ht); unfold place_entry in He; simpl in He.
    + rw Ha in He. left. eauto.
    + right. eauto.
Qed.

(** A cleaned up filter is found at one of the two places exactly if the
    original one asks for the message. *)
Lemma cleanup_place f msg :
  wants f msg ↔
  (same_place (direct msg) (cleanup_filter f) ∨ same_place (via_gateway msg) (cleanup_filter f)) ∧
  name_matches (name_filter (cf_command_filter f)) (cmd_command msg) = true.
Proof.
  unfold wants, cleanup_filter, same_place, direct, via_gateway.
  destruct (cf_device f) as [d|] eqn:Hd; simpl; [|rw Hd; naive_solver].
  destruct (string_eqb_spec d (cf_gateway f)) as [Hg|Hg]; simpl; rw ?Hd; naive_solver.
Qed.

(** A channel belongs to one entry. *)
Lemma entry_of_chan subs c g g' id id' t t' :
  run_inv subs c → place_entry c g id = Some t → place_entry c g' id' = Some t' → tx t = tx t' →
  same_place g g' ∧ id = id'.
Proof.
  intros [_ Hch _ Honly] He He' Ht.
  destruct (Honly _ _ _ He) as (s & Hs & Hsp & -> & Hc).
  destruct (Honly _ _ _ He') as (s' & Hs' & Hsp' & -> & Hc').
  assert (s = s') as -> by (eapply NoDup_fmap_inj; [done..|congruence]).
  unfold same_place in *. naive_solver congruence.
Qed.

Lemma dispatch_NoDup {K} `{Countable K} (m : CommandMap K) (k : K) msg :
  (∀ id id' t t', entry m k id = Some t → entry m k id' = Some t' → tx t = tx t' → id = id') →
  NoDup (from_option (λ senders, dispatch_command senders msg) [] (m !! k)).
Proof.
  intros Hinj. unfold entry in Hinj. destruct (m !! k) as [inner|]; simpl in *; [|constructor].
  apply NoDup_omap; [apply NoDup_map_to_list|].
  intros [id t] [id' t'] z Hin%elem_of_map_to_list Hin'%elem_of_map_to_list Hz Hz'. simpl in *.
  assert (id = id') as -> by (apply (Hinj id id' t t'); repeat case_match; congruence). congruence.
Qed.

Lemma send_NoDup subs c msg : run_inv subs c → NoDup (send msg c).
Proof.
  intros Hinv. unfold send. apply NoDup_app. split_and!.
  - apply dispatch_NoDup. intros id id' t t' He He' Ht. destruct (cmd_address msg) as [a g d].
    by destruct (entry_of_chan _ _ (mkFilter a g (Some d) None) (mkFilter a g (Some d) None)
      _ _ _ _ Hinv He He' Ht).
  - intros ch (id & t & He & Ht & _)%dispatch_elem (id' & t' & He' & Ht' & _)%dispatch_elem.
    destruct (cmd_address msg) as [a g d]. simpl in *.
    destruct (entry_of_chan _ _ (mkFilter a g (Some d) None) (mkFilter a g None None)
      _ _ _ _ Hinv He He') as [(_ & _ & Hd) _]; [congruence|done].
  - apply dispatch_NoDup. intros id id' t t' He He' Ht. destruct (cmd_address msg) as [a g d].
    simpl in *. by destruct (entry_of_chan _ _ (mkFilter a g None None) (mkFilter a g None None)
      _ _ _ _ Hinv He He' Ht).
Qed.

Lemma send_routed subs c msg ch :
  run_inv subs c →
  ch ∈ send msg c ↔ ∃ s, s ∈ subs ∧ sub_chan s = ch ∧ wants (sub_requested s) msg.
Proof.
  intros [Hok Hch Hreg Honly]. rw send_elem. split.
  - intros (g & id & t & Hg & He & <- & Hm).
    destruct (Honly g id t He) as (s & Hin & Hsp & -> & Hs). exists s. split_and!; [done|done|].
    destruct (Hreg s Hin) as [Hf Hent]. apply cleanup_place. rw -Hf.
    rw (same_place_entry _ _ _ _ Hsp) Hent in He. injection He as <-.
    destruct Hg as [-> | ->]; auto.
  - intros (s & Hin & <- & [Hpl Hm]%cleanup_place). destruct (Hreg s Hin) as [Hf Hent].
    rw -Hf in Hpl. destruct Hpl as [Hsp|Hsp]; rw -(same_place_entry _ _ _ _ Hsp) in Hent;
      do 3 eexists; (split; [|split; [exact Hent|done]]); auto.
Qed.

(** When no subscription is left, nothing is left of them. *)
Lemma run_inv_nil c : run_inv [] c → c = commands_new.
Proof.
  intros [Hok _ _ Honly]. destruct c as [d w], Hok as [Hd Hw]. simpl in *.
  assert (Hno : ∀ g id, place_entry (mkCommands d w) g id = None).
  { intros g id. destruct (place_entry _ g id) as [t|] eqn:E; [|done].
    apply Honly in E as (s & Hs & _). by apply elem_of_nil in Hs. }
  unfold commands_new. f_equal; apply no_entries_empty; try done.
  - intros [a g dv] id. apply (Hno (mkFilter a g (Some dv) None)).
  - intros [a g] id. apply (Hno (mkFilter a g None None)).
Qed.

(** C13: commands reach exactly those who asked for them: after any sequence of
    subscribing and unsubscribing, a command is sent to the channel of a live
    subscription if and only if the subscription asks for it (a subscription
    of a gateway to itself counts as one to all of its devices), and to no
    other channel; it is sent to each of them once; and when no subscription is
    left, nothing is left of them. *)
Theorem commands_routed subs c msg ch :
  commands_run subs c →
  (ch ∈ send msg c ↔ ∃ s, s ∈ subs ∧ sub_chan s = ch ∧ wants (sub_requested s) msg) ∧
  NoDup (send msg c) ∧ (subs = [] → c = commands_new).
Proof.
  intros Hinv%commands_run_inv. split; [by apply send_routed|].
  split; [by eapply send_NoDup|]. intros ->. by apply run_inv_nil.
Qed.
End Routing.
