(* ===== verification/CommandWait.v ===== *)
(** * Waiting for commands

    A device that publishes over HTTP or CoAP may wait for a command
    ([http-endpoint/src/command.rs], [coap-endpoint/src/command.rs]): its
    request subscribes, receives from a channel of 32 commands for some time
    and unsubscribes.  The commands come from one task that takes them off a
    Kafka topic one by one and sends them while it holds the lock of the
    subscriptions ([endpoint-common/src/command/source.rs], [commands.rs]).
    This file models the requests and that task as a system of steps: the locks,
    the channels and their capacity, and requests that are dropped when the
    client goes away or the session expires. *)

From S2P Require Import Prelude Json CloudEvents Commands.

Definition CHANNEL_SIZE : nat := 32.

(** The locks of the two maps of [Commands]. *)
Inductive Lock : Type := LDevices | LWildcards.

#[global] Instance Lock_eq_dec : EqDecision Lock.
Proof. solve_decision. Defined.

Definition filter_lock (f : CommandFilter) : Lock :=
  match cf_device f with
  | Some _ => LDevices
  | None => LWildcards
  end.

(** How far a request is: in [recv], after it (on its way to unsubscribe), or
    dropped by the server, together with the receiver. *)
Inductive WaitPhase : Type :=
| Receiving
| Leaving (received : option Command)
| Dropped.

Record Waiter := mkWaiter {
  w_sub : Sub;
  w_queue : list Command;
  w_phase : WaitPhase;
}.

(** The task that sends the commands: between two of them, or with the rest of
    the channels of a map, whose lock it holds. *)
Inductive Dispatch : Type :=
| Idle
| Sending (lock : Lock) (msg : Command) (rest : list nat).

Record System := mkSystem {
  sy_commands : Commands;
  sy_waiters : gmap nat Waiter;
  sy_dispatch : Dispatch;
}.

Definition set_waiter (ch : nat) (w : Waiter) (s : System) : System :=
  mkSystem (sy_commands s) (<[ch := w]> (sy_waiters s)) (sy_dispatch s).
Definition set_dispatch (d : Dispatch) (s : System) : System :=
  mkSystem (sy_commands s) (sy_waiters s) d.

Definition system_new : System := mkSystem commands_new ∅ Idle.

Definition lock_free (l : Lock) (s : System) : bool :=
  match sy_dispatch s with
  | Idle => true
  | Sending l' _ _ => negb (bool_decide (l = l'))
  end.

Section Wait.
Context `{MqttTopics}.

(** ** The request: [wait_for_command]

    With [None] or [Some 0] it answers at once.  The filter is that of
    [publish_and_await]. *)
Inductive Begun : Type :=
| AnswerNow
| Wait (sub : Sub).

Definition waits (ttd : option Z) : bool :=
  match ttd with
  | Some ttd => (0 <? ttd)%Z
  | None => false
  end.

Definition wait_for_command (draws : list Z) (ch : nat) (filter : CommandFilter) (ttd : option Z)
    (c : Commands) : option (Commands * Begun) :=
  if waits ttd then
    '(c, h) ← subscribe draws ch filter c;
    Some (c, Wait (mkSub filter h ch))
  else Some (c, AnswerNow).

(** ** The steps

    The arguments are what the environment decides: the request that arrives,
    the event read from Kafka, whose turn it is. *)
Inductive Action : Type :=
| ABegin (draws : list Z) (ch : nat) (filter : CommandFilter) (ttd : option Z)
| ARecv (ch : nat)
| ATimeout (ch : nat)
| ALeave (ch : nat)
| ADrop (ch : nat)
| ADispatch (event : CE.Event)
| ASend
| ANext.

(** The channels one of the two lookups of [send] finds. *)
Definition targets (l : Lock) (msg : Command) (c : Commands) : list nat :=
  match l with
  | LDevices =>
      from_option (λ senders, dispatch_command senders msg) [] (devices c !! cmd_address msg)
  | LWildcards =>
      from_option (λ senders, dispatch_command senders msg) []
        (wildcards c !! mkId (ca_app_id (cmd_address msg)) (ca_gateway_id (cmd_address msg)))
  end.

Definition begin_wait (draws : list Z) (ch : nat) (filter : CommandFilter) (ttd : option Z)
    (s : System) : option System :=
  if bool_decide (sy_waiters s !! ch = None) &&
     (negb (waits ttd) || lock_free (filter_lock (cleanup_filter filter)) s) then
    '(c, b) ← wait_for_command draws ch filter ttd (sy_commands s);
    Some (mkSystem c match b with
                     | Wait sub => <[ch := mkWaiter sub [] Receiving]> (sy_waiters s)
                     | AnswerNow => sy_waiters s
                     end (sy_dispatch s))
  else None.

(** [receiver.recv()] is ready. *)
Definition recv (ch : nat) (s : System) : option System :=
  match sy_waiters s !! ch with
  | Some (mkWaiter sub (msg :: queue) Receiving) =>
      Some (set_waiter ch (mkWaiter sub queue (Leaving (Some msg))) s)
  | _ => None
  end.

(** The time is up; [timeout] looks at the channel first. *)
Definition time_out (ch : nat) (s : System) : option System :=
  match sy_waiters s !! ch with
  | Some (mkWaiter sub [] Receiving) => Some (set_waiter ch (mkWaiter sub [] (Leaving None)) s)
  | _ => None
  end.

(** [commands.unsubscribe(handle)], then the request returns. *)
Definition leave (ch : nat) (s : System) : option System :=
  match sy_waiters s !! ch with
  | Some (mkWaiter sub _ (Leaving _)) =>
      if lock_free (filter_lock (h_filter (sub_handle sub))) s then
        Some (mkSystem (unsubscribe (sub_handle sub) (sy_commands s)) (base.delete ch (sy_waiters s))
                (sy_dispatch s))
      else None
  | _ => None
  end.

(** The future of the request is dropped. *)
Definition drop_request (ch : nat) (s : System) : option System :=
  match sy_waiters s !! ch with
  | Some (mkWaiter sub _ Dropped) => None
  | Some (mkWaiter sub _ _) => Some (set_waiter ch (mkWaiter sub [] Dropped) s)
  | None => None
  end.

(** The next event of the topic: one that is not a command is skipped. *)
Definition dispatch (data_bytes : CE.Data → option string) (event : CE.Event) (s : System)
    : option System :=
  match sy_dispatch s with
  | Idle =>
      match command_from_event data_bytes event with
      | Ok msg => Some (set_dispatch (Sending LDevices msg (targets LDevices msg (sy_commands s))) s)
      | Err _ => Some s
      end
  | Sending _ _ _ => None
  end.

(** [sender.tx.send(msg)]: it waits for room in the channel, and fails if the
    receiver is gone. *)
Definition send_next (s : System) : option System :=
  match sy_dispatch s with
  | Sending l msg (ch :: rest) =>
      match sy_waiters s !! ch with
      | Some (mkWaiter sub queue (Receiving as phase))
      | Some (mkWaiter sub queue (Leaving _ as phase)) =>
          if length queue <? CHANNEL_SIZE then
            Some (set_dispatch (Sending l msg rest) (set_waiter ch (mkWaiter sub (queue ++ [msg]) phase) s))
          else None
      | Some (mkWaiter _ _ Dropped) | None => Some (set_dispatch (Sending l msg rest) s)
      end
  | _ => None
  end.

(** The end of a map: on to the other one, or to the next command. *)
Definition next_map (s : System) : option System :=
  match sy_dispatch s with
  | Sending LDevices msg [] =>
      Some (set_dispatch (Sending LWildcards msg (targets LWildcards msg (sy_commands s))) s)
  | Sending LWildcards _ [] => Some (set_dispatch Idle s)
  | _ => None
  end.

Context (data_bytes : CE.Data → option string).

Definition act (a : Action) (s : System) : option System :=
  match a with
  | ABegin draws ch filter ttd => begin_wait draws ch filter ttd s
  | ARecv ch => recv ch s
  | ATimeout ch => time_out ch s
  | ALeave ch => leave ch s
  | ADrop ch => drop_request ch s
  | ADispatch event => dispatch data_bytes event s
  | ASend => send_next s
  | ANext => next_map s
  end.

Fixpoint acts (l : list Action) (s : System) : option System :=
  match l with
  | [] => Some s
  | a :: l => s ← act a s; acts l s
  end.

Lemma acts_app l1 l2 s : acts (l1 ++ l2) s = acts l1 s ≫= acts l2.
Proof. revert s. induction l1 as [|a l1 IH]; intros s; simpl; [done|].
  destruct (act a s) as [s'|]; simpl; [apply IH|done].
Qed.

(** ** The invariant *)

(** The commands the task has read. *)
Definition sent_by (l : list Action) : list Command :=
  omap (λ a,
    match a with
    | ADispatch event =>
        match command_from_event data_bytes event with
        | Ok msg => Some msg
        | Err _ => None
        end
    | _ => None
    end) l.

(** What a request holds: the queue, and what it has taken. *)
Definition holds (w : Waiter) : list Command :=
  w_queue w ++ match w_phase w with Leaving (Some msg) => [msg] | _ => [] end.

Definition waiter_lock (w : Waiter) : Lock := filter_lock (h_filter (sub_handle (w_sub w))).

Record sys_inv (sent : list Command) (s : System) : Prop := {
  si_subs : ∃ subs, run_inv subs (sy_commands s) ∧
    ∀ sub, sub ∈ subs ↔ ∃ w, sy_waiters s !! sub_chan sub = Some w ∧ w_sub w = sub;
  si_chan ch w : sy_waiters s !! ch = Some w → sub_chan (w_sub w) = ch;
  si_holds ch w : sy_waiters s !! ch = Some w →
    (∀ msg, msg ∈ holds w → msg ∈ sent ∧ wants (sub_requested (w_sub w)) msg) ∧
    length (w_queue w) ≤ CHANNEL_SIZE;
  si_dispatch l msg rest : sy_dispatch s = Sending l msg rest →
    msg ∈ sent ∧ ∀ ch, ch ∈ rest → ∃ w, sy_waiters s !! ch = Some w ∧ waiter_lock w = l ∧
      wants (sub_requested (w_sub w)) msg;
}.

Lemma targets_elem l msg c ch :
  ch ∈ targets l msg c ↔ ∃ id t,
    place_entry c match l with LDevices => direct msg | LWildcards => via_gateway msg end id = Some t ∧
    tx t = ch ∧ name_matches (target_filter t) (cmd_command msg) = true.
Proof.
  destruct l; unfold targets, place_entry; simpl; rw dispatch_elem; [|done].
  by destruct (cmd_address msg) as [a g d].
Qed.

(** One of the lookups finds live subscriptions of its map, that want the
    message. *)
Lemma targets_routed subs c l msg ch :
  run_inv subs c → ch ∈ targets l msg c →
  ∃ s, s ∈ subs ∧ sub_chan s = ch ∧ filter_lock (h_filter (sub_handle s)) = l ∧
    wants (sub_requested s) msg.
Proof.
  intros Hinv Ht. assert (Hs : ch ∈ send msg c) by (unfold send; destruct l; set_solver).
  apply (send_routed _ _ _ _ Hinv) in Hs as (s & Hin & Hch & Hw). exists s. split_and!; [done..| |done].
  apply targets_elem in Ht as (id & t & He & Htx & _).
  destruct (inv_only _ _ Hinv _ _ _ He) as (s' & Hin' & (_ & _ & Hd) & _ & Hch').
  assert (s = s') as -> by (eapply NoDup_fmap_inj; [exact (inv_chans _ _ Hinv)|done..|congruence]).
  unfold filter_lock. rw -Hd. by destruct l.
Qed.

(** A change of a waiter that keeps the subscription. *)
Lemma inv_set_waiter sent s ch w w' :
  sys_inv sent s → sy_waiters s !! ch = Some w → w_sub w' = w_sub w →
  (∀ msg, msg ∈ holds w' → msg ∈ sent ∧ wants (sub_requested (w_sub w)) msg) →
  length (w_queue w') ≤ CHANNEL_SIZE → sys_inv sent (set_waiter ch w' s).
Proof.
  intros [(subs & Hrun & Hsubs) Hchan Hholds Hd] Hw Hsub Hnew Hlen. split; simpl.
  - exists subs. split; [done|]. intros sub. rw Hsubs. destruct (decide (sub_chan sub = ch)) as [<-|Hne].
    + rw lookup_insert_eq. naive_solver congruence.
    + by rw lookup_insert_ne.
  - intros ch' v [[<- <-]|[_ Hv]]%lookup_insert_Some; [|by apply Hchan]. rw Hsub. by apply Hchan.
  - intros ch' v [[<- <-]|[_ Hv]]%lookup_insert_Some; [by rw Hsub|by eapply Hholds].
  - intros l msg rest Hl. destruct (Hd l msg rest Hl) as [Hsent Hrest]. split; [done|].
    intros ch' (v & Hv & Hlk & Hwant)%Hrest. destruct (decide (ch' = ch)) as [->|Hne].
    + rw lookup_insert_eq. exists w'. unfold waiter_lock in *. rw Hsub. simplify_eq. done.
    + rw lookup_insert_ne //. by exists v.
Qed.

(** A change of the task. *)
Lemma inv_set_dispatch sent sent' s d :
  sys_inv sent s → sent ⊆ sent' →
  (∀ l msg rest, d = Sending l msg rest → msg ∈ sent' ∧ ∀ ch, ch ∈ rest →
     ∃ w, sy_waiters s !! ch = Some w ∧ waiter_lock w = l ∧ wants (sub_requested (w_sub w)) msg) →
  sys_inv sent' (set_dispatch d s).
Proof.
  intros [Hsubs Hchan Hholds Hd] Hle Hnew. split; simpl; [done..| |done].
  intros ch w Hw. destruct (Hholds ch w Hw) as [Hm Hl]. split; [|done].
  intros msg [Hs Hwant]%Hm. split; [by apply Hle|done].
Qed.

Lemma inv_targets sent s l msg :
  sys_inv sent s → ∀ ch, ch ∈ targets l msg (sy_commands s) →
  ∃ w, sy_waiters s !! ch = Some w ∧ waiter_lock w = l ∧ wants (sub_requested (w_sub w)) msg.
Proof.
  intros [(subs & Hrun & Hsubs) _ _ _] ch (sub & Hin & <- & Hl & Hw)%(targets_routed _ _ _ _ _ Hrun).
  apply Hsubs in Hin as (w & Hwt & <-). by exists w.
Qed.

Lemma lock_free_other l s l' msg rest :
  lock_free l s = true → sy_dispatch s = Sending l' msg rest → l ≠ l'.
Proof. unfold lock_free. intros Hf Hd. rw Hd in Hf. by case_bool_decide. Qed.

Lemma inv_begin sent draws ch f ttd s s' :
  sys_inv sent s → begin_wait draws ch f ttd s = Some s' → sys_inv sent s'.
Proof.
  intros [(subs & Hrun & Hsubs) Hchan Hholds Hd]. unfold begin_wait, wait_for_command.
  case_bool_decide as Hfree; [|done]. destruct (waits ttd); simpl.
  2:{ intros [= <-]. split; simpl; eauto. }
  destruct (lock_free _ _) eqn:Hlock; [|done].
  destruct (subscribe draws ch f (sy_commands s)) as [[c h]|] eqn:Hs; simpl; [|done]. intros [= <-].
  assert (Hnew : ch ∉ sub_chan <$> subs).
  { intros (sub & -> & (w & Hw & _)%Hsubs)%list_elem_of_fmap. by rw Hfree in Hw. }
  split; simpl.
  - exists (mkSub f h ch :: subs). split; [by eapply run_inv_subscribe|]. intros sub.
    rw elem_of_cons Hsubs. destruct (decide (sub_chan sub = ch)) as [<-|Hne].
    + rw lookup_insert_eq Hfree. split; [intros [->|(w & ? & _)]; [eauto|done]|].
      intros (w & [= <-] & <-). by left.
    + rw lookup_insert_ne //. split; [intros [->|?]; [done|done]|by right].
  - intros ch' v [[<- <-]|[_ Hv]]%lookup_insert_Some; [done|by apply Hchan].
  - intros ch' v [[<- <-]|[_ Hv]]%lookup_insert_Some; [|by eapply Hholds].
    split; [by intros msg ?%elem_of_nil|simpl; lia].
  - intros l msg rest Hl. destruct (Hd l msg rest Hl) as [Hsent Hrest]. split; [done|].
    intros ch' (v & Hv & ?)%Hrest. exists v. rw lookup_insert_ne //. congruence.
Qed.

Lemma inv_leave sent ch s s' : sys_inv sent s → leave ch s = Some s' → sys_inv sent s'.
Proof.
  intros [(subs & Hrun & Hsubs) Hchan Hholds Hd]. unfold leave.
  destruct (sy_waiters s !! ch) as [[sub q [|r|]]|] eqn:Hw; try done.
  destruct (lock_free _ _) eqn:Hlock; [|done]. intros [= <-].
  assert (Hch : sub_chan sub = ch) by (by apply (Hchan _ _ Hw)).
  assert (Hin : sub ∈ subs) by (apply Hsubs; rw Hch; by eexists).
  apply list_elem_of_split in Hin as (l1 & l2 & ->).
  pose proof (inv_chans _ _ Hrun) as Hnd. rw fmap_app NoDup_app in Hnd. cbn [fmap list_fmap] in Hnd.
  split; simpl.
  - exists (l1 ++ l2). split; [by apply run_inv_unsubscribe|]. intros sub'.
    destruct (decide (sub_chan sub' = ch)) as [Heq|Hne].
    + rw Heq lookup_delete_eq. split; [|by intros (w & ? & _)]. intros Hin. exfalso.
      destruct Hnd as (_ & Hd1 & [Hd2 _]%NoDup_cons). apply elem_of_app in Hin as [Hin|Hin].
      * apply (Hd1 (sub_chan sub')); [by apply list_elem_of_fmap_2|]. rw Heq -Hch. by left.
      * apply Hd2. rw Hch -Heq. by apply list_elem_of_fmap_2.
    + rw lookup_delete_ne // -Hsubs !elem_of_app elem_of_cons.
      split; [naive_solver|]. intros [?|[->|?]]; auto. done.
  - intros ch' v [_ Hv]%lookup_delete_Some. by apply Hchan.
  - intros ch' v [_ Hv]%lookup_delete_Some. by eapply Hholds.
  - intros l msg rest Hl. destruct (Hd l msg rest Hl) as [Hsent Hrest]. split; [done|].
    intros ch' (v & Hv & Hlk & Hwant)%Hrest. exists v. rw lookup_delete_ne //.
    intros <-. simplify_eq. by eapply lock_free_other.
Qed.

Lemma inv_send sent s s' : sys_inv sent s → send_next s = Some s' → sys_inv sent s'.
Proof.
  intros Hinv. unfold send_next. destruct (sy_dispatch s) as [|l msg [|ch rest]] eqn:Hd; try done.
  destruct (si_dispatch _ _ Hinv _ _ _ Hd) as [Hsent Hrest].
  assert (Hgo : sys_inv sent (set_dispatch (Sending l msg rest) s)).
  { eapply inv_set_dispatch; [done..|]. intros l' m r [= <- <- <-]. split; [done|].
    intros ch' Hin. apply Hrest. by right. }
  destruct (Hrest ch) as (w & Hw & _ & Hwant); [by left|]. rw Hw.
  destruct (si_holds _ _ Hinv _ _ Hw) as [Hm Hl]. destruct w as [sub q p]; simpl in *.
  assert (Hput : length q < CHANNEL_SIZE →
    sys_inv sent (set_waiter ch (mkWaiter sub (q ++ [msg]) p) (set_dispatch (Sending l msg rest) s))).
  { intros Hlt. eapply inv_set_waiter; [done|exact Hw|done| |]; simpl.
    - intros m. unfold holds in *. simpl in *. rw !elem_of_app list_elem_of_singleton.
      intros [[?| ->]|?]; [apply Hm; set_solver|done|apply Hm; set_solver].
    - rw length_app /=. lia. }
  destruct p; [destruct (Nat.ltb_spec (length q) CHANNEL_SIZE)..|]; by intros [= <-]; auto.
Qed.

Lemma inv_act sent a s s' :
  sys_inv sent s → act a s = Some s' → sys_inv (sent ++ sent_by [a]) s'.
Proof.
  intros Hinv Ha. destruct a as [draws ch f ttd|ch|ch|ch|ch|event| |]; simpl in *; rw ?app_nil_r.
  - by eapply inv_begin.
  - unfold recv in Ha. destruct (sy_waiters s !! ch) as [[sub [|m q] [|r|]]|] eqn:Hw; simplify_eq.
    destruct (si_holds _ _ Hinv _ _ Hw) as [Hm Hl]. eapply inv_set_waiter; simpl in *; [done..| |lia].
    intros m' [Hin|Hin]%elem_of_app; apply Hm; unfold holds; simpl; [right; set_solver|]. set_solver.
  - unfold time_out in Ha. destruct (sy_waiters s !! ch) as [[sub [|m q] [|r|]]|] eqn:Hw; simplify_eq.
    eapply inv_set_waiter; simpl; [done..| |lia]. by intros m ?%elem_of_nil.
  - by eapply inv_leave.
  - unfold drop_request in Ha. destruct (sy_waiters s !! ch) as [[sub q [|r|]]|] eqn:Hw; simplify_eq;
      (eapply inv_set_waiter; simpl; [done..| |lia]; by intros m ?%elem_of_nil).
  - unfold dispatch in Ha. destruct (sy_dispatch s) eqn:Hd; [|done].
    destruct (command_from_event data_bytes event) as [msg|] eqn:Hc; simplify_eq; simpl; rw ?Hc ?app_nil_r //.
    eapply inv_set_dispatch; [done|set_solver|]. intros l m rest [= <- <- <-]. split; [set_solver|].
    exact (inv_targets sent s LDevices msg Hinv).
  - by eapply inv_send.
  - unfold next_map in Ha. destruct (sy_dispatch s) as [|l msg rest] eqn:Hd; [done|].
    destruct (si_dispatch _ _ Hinv _ _ _ Hd) as [Hm _].
    destruct l, rest; simplify_eq; (eapply inv_set_dispatch; [done|done|]); intros l m rest Heq; [|done].
    injection Heq as <- <- <-. split; [done|]. exact (inv_targets sent s LWildcards msg Hinv).
Qed.

Lemma sent_by_app l1 l2 : sent_by (l1 ++ l2) = sent_by l1 ++ sent_by l2.
Proof. apply omap_app. Qed.

Lemma inv_acts l : ∀ sent s s', sys_inv sent s → acts l s = Some s' → sys_inv (sent ++ sent_by l) s'.
Proof.
  induction l as [|a l IH]; intros sent s s' Hinv Ha; cbn [acts] in Ha.
  - simplify_eq. by rw app_nil_r.
  - apply bind_Some in Ha as (s1 & Ha & Hl). rw (sent_by_app [a] l) app_assoc. eapply IH; [|done].
    by eapply inv_act.
Qed.

Lemma inv_new : sys_inv [] system_new.
Proof.
  split; simpl; try by (intros *; rw lookup_empty). 2: done.
  exists []. split; [apply commands_run_inv; constructor|]. intros sub.
  split; [by intros ?%elem_of_nil|by intros (w & ? & _)].
Qed.

Lemma reachable_inv l s : acts l system_new = Some s → sys_inv (sent_by l) s.
Proof. apply (inv_acts l []). apply inv_new. Qed.

(** C16: a device that waits for a command gets one that was sent to it: whatever
    happens in which order, the command a waiting request has taken was read
    from the topic and is one its filter asks for, a request that timed out had
    nothing in its channel, and once all requests have returned, no
    subscription is left. *)
Theorem waiting_sound l s :
  acts l system_new = Some s →
  (∀ ch w msg, sy_waiters s !! ch = Some w → w_phase w = Leaving (Some msg) →
     msg ∈ sent_by l ∧ wants (sub_requested (w_sub w)) msg) ∧
  (∀ ch s', time_out ch s = Some s' → holds <$> (sy_waiters s !! ch) = Some []) ∧
  (sy_waiters s = ∅ → sy_commands s = commands_new).
Proof.
  intros Hinv%reachable_inv. split_and!.
  - intros ch w msg Hw Hp. apply (si_holds _ _ Hinv ch w Hw). unfold holds. rw Hp. set_solver.
  - intros ch s'. unfold time_out. by destruct (sy_waiters s !! ch) as [[sub [|] []]|].
  - intros He. destruct (si_subs _ _ Hinv) as (subs & Hrun & Hsubs). rw He in Hsubs.
    destruct subs as [|sub subs]; [by apply run_inv_nil|].
    destruct (proj1 (Hsubs sub)) as (w & Hw & _); [by left|]. by rw lookup_empty in Hw.
Qed.

(** ** When the task stops *)

(** The task waits for room in the channel of a request that has what it
    needs and waits for the lock the task holds. *)
Definition blocked (ch : nat) (s : System) : Prop :=
  ∃ l msg rest w r, sy_dispatch s = Sending l msg (ch :: rest) ∧ sy_waiters s !! ch = Some w ∧
    w_phase w = Leaving r ∧ waiter_lock w = l ∧ length (w_queue w) = CHANNEL_SIZE.

(** What an action leaves alone: a request other than the one it is about. *)
Lemma act_waiter a s s' ch w :
  act a s = Some s' → sy_waiters s !! ch = Some w →
  a ∉ [ARecv ch; ATimeout ch; ALeave ch; ADrop ch] →
  (∀ l msg rest, sy_dispatch s = Sending l msg (ch :: rest) → w_phase w ≠ Dropped →
     length (w_queue w) < CHANNEL_SIZE → a ≠ ASend) →
  sy_waiters s' !! ch = Some w.
Proof.
  intros Ha Hw Hna Hsend. assert (Hother : ∀ ch', ch' ≠ ch → ∀ v, <[ch' := v]> (sy_waiters s) !! ch = Some w)
    by (intros; by rw lookup_insert_ne).
  destruct a as [draws ch' f ttd|ch'|ch'|ch'|ch'|event| |]; simpl in Ha;
    unfold begin_wait, wait_for_command, recv, time_out, leave, drop_request, dispatch, send_next, next_map in Ha.
  - case_bool_decide as Hf; [|done]. destruct (negb _ || _); [|done]. destruct (waits ttd).
    + apply bind_Some in Ha as ([c b] & Hs & Ha). apply bind_Some in Hs as ([c' h] & _ & Hs). simplify_eq/=.
      apply Hother. congruence.
    + by simplify_eq/=.
  - destruct (sy_waiters s !! ch') as [[? [|? ?] []]|] eqn:E; simplify_eq/=. apply Hother. set_solver.
  - destruct (sy_waiters s !! ch') as [[? [|? ?] []]|] eqn:E; simplify_eq/=. apply Hother. set_solver.
  - destruct (sy_waiters s !! ch') as [[? ? []]|] eqn:E; try done. destruct (lock_free _ _); simplify_eq/=.
    rw lookup_delete_ne //. set_solver.
  - destruct (sy_waiters s !! ch') as [[? ? []]|] eqn:E; simplify_eq/=; apply Hother; set_solver.
  - destruct (sy_dispatch s); [|done]. by destruct (command_from_event _ _); simplify_eq/=.
  - destruct (sy_dispatch s) as [|l msg [|ch' rest]] eqn:Hd; try done.
    destruct (decide (ch' = ch)) as [->|Hne].
    + rw Hw in Ha. destruct w as [sub q p]. specialize (Hsend _ _ _ eq_refl). simpl in *.
      destruct p; [destruct (Nat.ltb_spec (length q) CHANNEL_SIZE)..|]; simplify_eq/=; try done; naive_solver.
    + destruct (sy_waiters s !! ch') as [[sub q p]|] eqn:E; [|by simplify_eq/=].
      destruct p; [destruct (length q <? CHANNEL_SIZE)..|]; simplify_eq/=; auto.
  - destruct (sy_dispatch s) as [|[] msg [|]]; by simplify_eq/=.
Qed.

Lemma blocked_act ch a s s' :
  blocked ch s → act a s = Some s' → a ≠ ADrop ch → blocked ch s' ∧ sy_dispatch s' = sy_dispatch s.
Proof.
  intros (l & msg & rest & w & r & Hd & Hw & Hp & Hl & Hq) Ha Hne.
  assert (Hno : a ∉ [ARecv ch; ATimeout ch; ALeave ch; ADrop ch] ∧ a ≠ ASend).
  { split; [rw !not_elem_of_cons; split_and!; try done|]; try by apply not_elem_of_nil.
    all: intros ->; simpl in Ha; destruct w as [sub q p]; simpl in *; subst.
    - unfold recv in Ha. rw Hw in Ha. by destruct q.
    - unfold time_out in Ha. rw Hw in Ha. by destruct q.
    - unfold leave, lock_free in Ha. rw Hw Hd in Ha. by rw bool_decide_true in Ha.
    - unfold send_next in Ha. rw Hd Hw Hq in Ha. done. }
  assert (Hds : sy_dispatch s' = sy_dispatch s).
  { destruct Hno as [Hno Hns]. clear Hw Hp Hl Hq.
    destruct a as [draws ch' f ttd|ch'|ch'|ch'|ch'|event| |]; simpl in Ha;
      unfold begin_wait, recv, time_out, leave, drop_request, dispatch, next_map in Ha; try done.
    - destruct (_ && _); [|done]. by apply bind_Some in Ha as ([c b] & _ & [= <-]).
    - by destruct (sy_waiters s !! ch') as [[? [|? ?] []]|]; simplify_eq/=.
    - by destruct (sy_waiters s !! ch') as [[? [|? ?] []]|]; simplify_eq/=.
    - destruct (sy_waiters s !! ch') as [[? ? []]|]; try done. by destruct (lock_free _ _); simplify_eq/=.
    - by destruct (sy_waiters s !! ch') as [[? ? []]|]; simplify_eq/=.
    - by rw Hd in Ha.
    - by destruct l; rw Hd in Ha. }
  split; [|done]. exists l, msg, rest, w, r. rw Hds. split_and!; try done.
  eapply act_waiter; [done..|naive_solver|]. intros ? ? ? _ _ Hlt. lia.
Qed.

Lemma blocked_acts ch l : ∀ s s',
  blocked ch s → acts l s = Some s' → ADrop ch ∉ l → blocked ch s' ∧ sy_dispatch s' = sy_dispatch s.
Proof.
  induction l as [|a l IH]; intros s s' Hb Ha Hno; cbn [acts] in Ha; [by simplify_eq|].
  apply bind_Some in Ha as (s1 & Ha & Hl). apply not_elem_of_cons in Hno as [Hne Hno].
  destruct (blocked_act ch a s s1) as [Hb1 Hd1]; [done..|congruence|].
  destruct (IH s1 s') as [Hb2 Hd2]; [done..|]. split; [done|congruence].
Qed.

(** The task can send unless the channel is full. *)
Lemma send_next_room s l msg ch rest w :
  sy_dispatch s = Sending l msg (ch :: rest) → sy_waiters s !! ch = Some w →
  (∃ s', send_next s = Some s' ∧ sy_dispatch s' = Sending l msg rest) ∨
  (w_phase w ≠ Dropped ∧ CHANNEL_SIZE ≤ length (w_queue w)).
Proof.
  intros Hd Hw. unfold send_next. rw Hd Hw. destruct w as [sub q p]. cbn [w_phase w_queue].
  destruct p; [destruct (Nat.ltb_spec (length q) CHANNEL_SIZE)..|]; eauto.
Qed.

(** Otherwise the task moves on, at most after the request has taken one
    command out of a full channel. *)
Lemma not_blocked_moves sent s :
  sys_inv sent s → sy_dispatch s ≠ Idle →
  (∃ ch, blocked ch s) ∨
  ∃ l s', acts l s = Some s' ∧ (∀ ch, ADrop ch ∉ l) ∧ sy_dispatch s' ≠ sy_dispatch s.
Proof.
  intros Hinv Hd. destruct (sy_dispatch s) as [|l msg [|ch rest]] eqn:E; [done| |].
  { right. exists [ANext]. destruct l; eexists; (split; [by rw /= /next_map E|]); split; try done; set_solver. }
  assert (Hch : Sending l msg rest ≠ Sending l msg (ch :: rest)).
  { intros [=Hr]. apply (f_equal length) in Hr. simpl in Hr. lia. }
  destruct (si_dispatch _ _ Hinv _ _ _ E) as [_ Hrest]. destruct (Hrest ch) as (w & Hw & Hl & _); [by left|].
  destruct (si_holds _ _ Hinv _ _ Hw) as [_ Hlen].
  destruct (send_next_room s l msg ch rest w E Hw) as [(s' & Hs & Hd')|[Hp Hq]].
  { right. exists [ASend], s'. cbn [acts act]. rw Hs. split_and!; [done|set_solver|by rw Hd']. }
  destruct w as [sub q [|r|]]; simpl in *; [|left|done].
  - destruct q as [|m q]; [by inversion Hq|]. right.
    set (s1 := set_waiter ch (mkWaiter sub q (Leaving (Some m))) s).
    destruct (send_next_room s1 l msg ch rest (mkWaiter sub q (Leaving (Some m)))) as [(s' & Hs & Hd')|[_ Hq']];
      [done|apply lookup_insert_eq| |simpl in *; lia].
    exists [ARecv ch; ASend], s'. cbn [acts act]. unfold recv. rw Hw. cbn [mbind option_bind].
    fold s1. rw Hs. split_and!; [done|set_solver|by rw Hd'].
  - exists ch, l, msg, rest, (mkWaiter sub q (Leaving r)), r. split_and!; try done. simpl. lia.
Qed.

(** When commands stop: the task that sends commands comes to a halt exactly if
    it is about to send to a full channel whose request has already taken its
    command and waits for the lock the task holds: from then on neither does
    anything, whatever else happens, as long as the server does not drop the
    request; in all other states the task can move on. *)
Theorem dispatch_blocked l s :
  acts l system_new = Some s → sy_dispatch s ≠ Idle →
  ((∃ ch, blocked ch s) ∨
   ∃ l' s', acts l' s = Some s' ∧ (∀ ch, ADrop ch ∉ l') ∧ sy_dispatch s' ≠ sy_dispatch s) ∧
  ∀ ch, blocked ch s → ∀ l' s', acts l' s = Some s' → ADrop ch ∉ l' →
    sy_dispatch s' = sy_dispatch s ∧ leave ch s' = None.
Proof.
  intros Hinv%reachable_inv Hd. split; [by eapply not_blocked_moves|].
  intros ch Hb l' s' Ha Hno. destruct (blocked_acts ch l' s s') as [Hb' Hds]; [done..|]. split; [done|].
  destruct (leave ch s') as [s2|] eqn:Hlv; [|done]. exfalso.
  destruct (blocked_act ch (ALeave ch) s' s2) as [(l2 & msg & rest & w & r & Hd2 & Hw & _) _]; [done..|].
  unfold leave in Hlv. destruct (sy_waiters s' !! ch) as [[? ? []]|]; try done.
  destruct (lock_free _ _); simplify_eq/=. by rw lookup_delete_eq in Hw.
Qed.

(** A dropped request leaves its subscription behind: once the server has
    dropped a waiting request (the client went away, or the CoAP session
    expired), its subscription stays registered whatever happens later. *)
Theorem dropped_subscription_stays l s ch w :
  acts l system_new = Some s → sy_waiters s !! ch = Some w → w_phase w = Dropped →
  ∀ l' s', acts l' s = Some s' → sy_waiters s' !! ch = Some w ∧ registered (sy_commands s') (w_sub w).
Proof.
  intros Hinv%reachable_inv Hw Hp l' s' Ha.
  assert (Hw' : sy_waiters s' !! ch = Some w).
  { clear Hinv. revert s Hw Ha. induction l' as [|a l' IH]; intros s Hw Ha; cbn [acts] in Ha; [by simplify_eq|].
    apply bind_Some in Ha as (s1 & Ha & Hl). apply (IH s1); [|done].
    eapply act_waiter; [done..| |by rw Hp].
    rw !not_elem_of_cons. split_and!; try by apply not_elem_of_nil.
    all: intros ->; simpl in Ha; unfold recv, time_out, leave, drop_request in Ha; rw Hw in Ha;
      destruct w as [sub q p]; simpl in *; subst; by destruct q. }
  split; [done|]. eapply inv_acts in Ha as Hinv'; [|done].
  destruct (si_subs _ _ Hinv') as (subs & Hrun & Hsubs). apply (inv_registered _ _ Hrun). apply Hsubs.
  exists w. by rw (si_chan _ _ Hinv' ch w Hw').
Qed.

(** ** A burst of commands *)

Definition command_event (application device command : string) : CE.Event :=
  CE.mkEvent "id" "command" "source" (Some command) None None None None
    (<[EXT_APPLICATION := CE.ExtString application]> {[EXT_DEVICE := CE.ExtString device]}).

(** [n] commands sent to one subscription of the device itself. *)
Definition burst (application device : string) (n : nat) : list Action :=
  concat (replicate n [ADispatch (command_event application device "on"); ANext; ASend; ANext]).

(** One device waits; it takes the first command; 32 more arrive before its
    request gets to unsubscribe, and another one is to be sent. *)
Definition burst_run : list Action :=
  ABegin [7%Z] 1 (filter_proxied_device "app1" "dev1" "dev1") (Some 30%Z) ::
  burst "app1" "dev1" 1 ++ ARecv 1 :: burst "app1" "dev1" 32 ++
  [ADispatch (command_event "app1" "dev1" "on"); ANext].

Definition is_blocked (ch : nat) (s : System) : bool :=
  match sy_dispatch s with
  | Sending l _ (ch' :: _) =>
      bool_decide (ch' = ch) &&
      match sy_waiters s !! ch with
      | Some (mkWaiter sub q (Leaving _)) =>
          bool_decide (filter_lock (h_filter (sub_handle sub)) = l) && (length q =? CHANNEL_SIZE)
      | _ => false
      end
  | _ => false
  end.

Lemma is_blocked_true ch s : is_blocked ch s = true → blocked ch s.
Proof.
  unfold is_blocked, blocked. destruct (sy_dispatch s) as [|l msg [|ch' rest]]; try done.
  case_bool_decide as Hch; [|done]. subst ch'. destruct (sy_waiters s !! ch) as [[sub q [|r|]]|]; try done.
  case_bool_decide as Hl; [|done]. simpl. intros Hq%Nat.eqb_eq. by do 5 eexists.
Qed.

(** A burst of 34 commands for one waiting device can block the endpoint: there
    is an order of steps in which the task that sends commands and the request
    wait for each other. *)
Theorem burst_blocks :
  length (sent_by burst_run) = 34 ∧ ∃ s, acts burst_run system_new = Some s ∧ blocked 1 s.
Proof.
  split; [by_eval|]. destruct (acts burst_run system_new) as [s|] eqn:E.
  - exists s. split; [done|]. apply is_blocked_true.
    assert (Hb : is_blocked 1 <$> acts burst_run system_new = Some true) by by_eval.
    rw E in Hb. by injection Hb.
  - assert (Hn : bool_decide (is_Some (is_blocked 1 <$> acts burst_run system_new)) = true) by by_eval.
    by rw E in Hn.
Qed.
End Wait.
