(* ===== verification/Pipeline.v ===== *)
(** * Publishing events

    [endpoint-common/src/sender]: turning what a device (or, for commands, an
    integration) publishes into a cloud event, running it through the rules of
    the application ([sender/process/mod.rs]), and handing it to the sink.
    The external endpoints the rules may call, the sink, the URL and JSON
    parsers and the percent encoding are parameters. *)

From S2P Require Import Prelude Json Registry CloudEvents Commands.

(** ** Rules *)

Inductive When : Type :=
| WAlways
| WNot (w : When)
| WAnd (ws : list When)
| WOr (ws : list When)
| WIsChannel (channel : string).

Inductive ResponseType : Type :=
| RCloudEvent
| RAssumeStructuredCloudEvent
| RRaw.

(** An external endpoint with its request format is a value of [Endpoint]. *)
Inductive Step (Endpoint : Type) : Type :=
| SDrop
| SBreak
| SReject (reason : string)
| SSetAttribute (name value : string)
| SRemoveAttribute (name : string)
| SSetExtension (name value : string)
| SRemoveExtension (name : string)
| SValidate (endpoint : Endpoint)
| SEnrich (endpoint : Endpoint) (response : ResponseType).
Arguments SDrop {Endpoint}.
Arguments SBreak {Endpoint}.
Arguments SReject {Endpoint} reason.
Arguments SSetAttribute {Endpoint} name value.
Arguments SRemoveAttribute {Endpoint} name.
Arguments SSetExtension {Endpoint} name value.
Arguments SRemoveExtension {Endpoint} name.
Arguments SValidate {Endpoint} endpoint.
Arguments SEnrich {Endpoint} endpoint response.

Record Rule (Endpoint : Type) := mkRule { r_when : When; r_then : list (Step Endpoint) }.
Arguments mkRule {Endpoint} r_when r_then.
Arguments r_when {Endpoint} r.
Arguments r_then {Endpoint} r.

(** An answer of an external endpoint, and how its body decodes. *)
Record HttpAnswer := mkAnswer {
  ha_status : Z;
  ha_content_type : option string;
  ha_json : result Value string;
  ha_text : result string string;
  ha_bytes : result string string;
  ha_structured : result CE.Event string;
  ha_event : result CE.Event string;
}.

Class Externals := {
  Endpoint : Type;
  call : Endpoint → CE.Event → result HttpAnswer string;
  url_parse : string → result string string;
  status_display : Z → string;
}.

Inductive StepOutcome : Type :=
| Continue (event : CE.Event)
| Accept (event : CE.Event)
| Reject (reason : string)
| Drop.

Inductive ProcessError : Type :=
| Build (msg : string)
| EventError (msg : string)
| Config (msg : string)
| Internal (msg : string)
| ExternalEndpoint (msg : string)
| ExternalResponse (msg : string).

Inductive Outcome : Type :=
| Accepted (event : CE.Event)
| Rejected (reason : string)
| Dropped.

Definition is_json (content_type : string) : bool :=
  starts_with "application/json" content_type || starts_with "text/json" content_type
  || ends_with "+json" content_type.

(** ** Writing attributes, the setters of the SDK *)

Definition set_datacontenttype x (e : CE.Event) := CE.mkEvent (CE.id e) (CE.ty e) (CE.source e)
  (CE.subject e) (CE.time e) x (CE.dataschema e) (CE.data e) (CE.extensions e).
Definition set_dataschema x (e : CE.Event) := CE.mkEvent (CE.id e) (CE.ty e) (CE.source e)
  (CE.subject e) (CE.time e) (CE.datacontenttype e) x (CE.data e) (CE.extensions e).
Definition set_subject x (e : CE.Event) := CE.mkEvent (CE.id e) (CE.ty e) (CE.source e)
  x (CE.time e) (CE.datacontenttype e) (CE.dataschema e) (CE.data e) (CE.extensions e).
Definition set_type x (e : CE.Event) := CE.mkEvent (CE.id e) x (CE.source e) (CE.subject e)
  (CE.time e) (CE.datacontenttype e) (CE.dataschema e) (CE.data e) (CE.extensions e).
Definition set_data ct d (e : CE.Event) := CE.mkEvent (CE.id e) (CE.ty e) (CE.source e)
  (CE.subject e) (CE.time e) (Some ct) (CE.dataschema e) (Some d) (CE.extensions e).
Definition set_extensions x (e : CE.Event) := CE.mkEvent (CE.id e) (CE.ty e) (CE.source e)
  (CE.subject e) (CE.time e) (CE.datacontenttype e) (CE.dataschema e) (CE.data e) x.

(** ** The processor *)

Section Processor.
Context `{Externals}.

Fixpoint is_when (w : When) (event : CE.Event) : bool :=
  match w with
  | WAlways => true
  | WNot w => negb (is_when w event)
  | WAnd [] => false
  | WAnd ws => forallb (λ w, is_when w event) ws
  | WOr ws => existsb (λ w, is_when w event) ws
  | WIsChannel channel =>
      match CE.subject event with
      | Some subject => string_eqb channel subject
      | None => false
      end
  end.

Definition set_attribute (event : CE.Event) (name : string) (value : option string)
    : result CE.Event ProcessError :=
  if string_eqb name "datacontenttype" then Ok (set_datacontenttype value event)
  else if string_eqb name "dataschema" then
    let? url :=
      match value with
      | None => Ok None
      | Some v => map_err (λ err, Config ("Invalid URL: " +:+ err)) (let? u := url_parse v in Ok (Some u))
      end in
    Ok (set_dataschema url event)
  else if string_eqb name "subject" then Ok (set_subject value event)
  else if string_eqb name "type" then
    match value with
    | Some value => Ok (set_type value event)
    | None => Err (Config "Removing the 'type' attribute is not valid")
    end
  else Err (Config ("Unknown or immutable attribute: " +:+ name)).

Definition unexpected {A} (code : Z) : result A ProcessError :=
  Err (ExternalResponse ("Unexpected endpoint response: " +:+ status_display code)).

Definition enrich (endpoint : Endpoint) (response : ResponseType) (event : CE.Event)
    : result StepOutcome ProcessError :=
  let? answer := map_err ExternalEndpoint (call endpoint event) in
  if (ha_status answer =? 200)%Z then
    match response with
    | RAssumeStructuredCloudEvent =>
        let? event := map_err ExternalEndpoint (ha_structured answer) in Ok (Continue event)
    | RCloudEvent =>
        let? event := map_err EventError (ha_event answer) in Ok (Continue event)
    | RRaw =>
        let content_type := default "application/octet-stream" (ha_content_type answer) in
        let? data := map_err ExternalEndpoint (ha_bytes answer) in
        Ok (Continue (set_data content_type (CE.Binary data) event))
    end
  else unexpected (ha_status answer).

(** [body["reason"].as_str().unwrap_or("Rejected")] *)
Definition json_reason (body : Value) : string :=
  match map_get "reason" (object_or_empty body) with
  | Some (Str reason) => reason
  | _ => "Rejected"
  end.

Definition validate (endpoint : Endpoint) (event : CE.Event) : result StepOutcome ProcessError :=
  let? answer := map_err ExternalEndpoint (call endpoint event) in
  let code := ha_status answer in
  if (code =? 200)%Z || (code =? 204)%Z then Ok (Continue event)
  else if (code =? 202)%Z then Ok (Accept event)
  else if (400 <=? code)%Z && (code <? 500)%Z then
    let? reason :=
      if is_json (default "" (ha_content_type answer)) then
        let? body := map_err ExternalEndpoint (ha_json answer) in Ok (json_reason body)
      else map_err ExternalEndpoint (ha_text answer) in
    Ok (Reject reason)
  else unexpected code.

Definition step (s : Step Endpoint) (event : CE.Event) : result StepOutcome ProcessError :=
  match s with
  | SDrop => Ok Drop
  | SBreak => Ok (Accept event)
  | SReject reason => Ok (Reject reason)
  | SSetAttribute name value =>
      let? event := set_attribute event name (Some value) in Ok (Continue event)
  | SRemoveAttribute name =>
      let? event := set_attribute event name None in Ok (Continue event)
  | SSetExtension name value =>
      Ok (Continue (set_extensions (<[name := CE.ExtString value]> (CE.extensions event)) event))
  | SRemoveExtension name =>
      Ok (Continue (set_extensions (base.delete name (CE.extensions event)) event))
  | SValidate endpoint => validate endpoint event
  | SEnrich endpoint response => enrich endpoint response event
  end.

Fixpoint handle (then_ : list (Step Endpoint)) (event : CE.Event)
    : result StepOutcome ProcessError :=
  match then_ with
  | [] => Ok (Continue event)
  | s :: rest =>
      let? outcome := step s event in
      match outcome with
      | Continue event => handle rest event
      | Accept event => Ok (Accept event)
      | Drop => Ok Drop
      | Reject reason => Ok (Reject reason)
      end
  end.

Fixpoint process (rules : list (Rule Endpoint)) (event : CE.Event) : result Outcome ProcessError :=
  match rules with
  | [] => Ok (Accepted event)
  | rule :: rest =>
      if is_when (r_when rule) event then
        let? outcome := handle (r_then rule) event in
        match outcome with
        | Continue event => process rest event
        | Accept event => Ok (Accepted event)
        | Drop => Ok Dropped
        | Reject reason => Ok (Rejected reason)
        end
      else process rest event
  end.
End Processor.

(** ** Publishing, [sender/mod.rs]

    The time and the topic of the options are not read by the code. *)

Record PublishId := mkPublishId { pi_name : string; pi_uid : option string }.

Class ToPublishId (T : Type) := { to_id : T → PublishId }.

#[global] Instance string_to_id : ToPublishId string := {| to_id := λ name, mkPublishId name None |}.
(** The metadata of a device. *)
#[global] Instance device_to_id : ToPublishId Reg.Device :=
  {| to_id := λ d, mkPublishId (Reg.d_name d) (Some (Reg.d_uid d)) |}.

Record PublishOptions := mkPublishOptions {
  po_time : option Z;
  po_topic : option string;
  po_data_schema : option string;
  po_content_type : option string;
  po_extensions : list (string * string);
  po_type : option string;
}.

(** The application with its metadata and the rules of its two sections: the
    one for commands and the one for events, if it has them and they decode. *)
Record PublishApp (Rules : Type) := mkPublishApp {
  pa_name : string;
  pa_uid : string;
  pa_command_rules : option (result Rules string);
  pa_publish_rules : option (result Rules string);
}.
Arguments mkPublishApp {Rules}.
Arguments pa_name {Rules} p.
Arguments pa_uid {Rules} p.
Arguments pa_command_rules {Rules} p.
Arguments pa_publish_rules {Rules} p.

Record PublishRequest (Rules : Type) := mkPublish {
  p_application : PublishApp Rules;
  p_device : PublishId;
  p_sender : PublishId;
  p_channel : string;
  p_options : PublishOptions;
}.
Arguments mkPublish {Rules}.
Arguments p_application {Rules} p.
Arguments p_device {Rules} p.
Arguments p_sender {Rules} p.
Arguments p_channel {Rules} p.
Arguments p_options {Rules} p.

Inductive PublishOutcome : Type := PAccepted | PRejected | PQueueFull.

Inductive PublishError : Type :=
| PSink (msg : string)
| PSpec (msg : string)
| PEvent (msg : string)
| PProcessor (e : ProcessError).

(** [Display] *)
Definition publish_error_display (e : PublishError) : string :=
  match e with
  | PSink _ => "Sink error"
  | PSpec _ => "Publish spec error"
  | PEvent _ => "Build event error"
  | PProcessor _ => "Process error"
  end.

Inductive Direction : Type := Upstream | Downstream.

(** [Processor::try_from]: an application without the section has no rules. *)
Definition processor_rules {R} (direction : Direction) (app : PublishApp (list R))
    : result (list R) string :=
  match
    match direction with
    | Upstream => pa_command_rules app
    | Downstream => pa_publish_rules app
    end
  with
  | Some (Ok rules) => Ok rules
  | Some (Err e) => Err e
  | None => Ok []
  end.

Definition DEFAULT_TYPE_EVENT : string := "io.drogue.event.v1".

Definition opt_extension (name : string) (value : option string) (b : CE.Builder) : CE.Builder :=
  match value with
  | Some v => CE.with_extension name v b
  | None => b
  end.

Section Publisher.
Context `{Externals, CloudEventsSdk}.
(** [utf8_percent_encode], [serde_json::from_slice], and the publisher's
    instance, direction and sink. *)
Context (percent_encode : string → string) (from_slice : string → option Value).
Context (instance : string) (direction : Direction).
Context (sink : string → CE.Event → result PublishOutcome string).

(** The attributes and extensions; [fresh] and [now] are the new ID and the
    current time. *)
Definition publish_builder (fresh : string) (now : Z) {R} (p : PublishRequest R) : CE.Builder :=
  let o := p_options p in
  let app_id := pa_name (p_application p) in
  let key := percent_encode app_id +:+ "/" +:+ percent_encode (pi_name (p_sender p)) in
  let b := CE.with_time now (CE.with_subject (p_channel p)
    (inject (mkId app_id (pi_name (p_device p)))
    (CE.with_source ("drogue://" +:+ app_id +:+ "/" +:+ percent_encode (pi_name (p_device p)))
    (CE.with_ty (default DEFAULT_TYPE_EVENT (po_type o)) (CE.with_id fresh CE.new))))) in
  let b := CE.with_extension EXT_APPLICATION_UID (pa_uid (p_application p)) b in
  let b := opt_extension EXT_DEVICE_UID (pi_uid (p_device p)) b in
  let b := opt_extension EXT_SENDER_UID (pi_uid (p_sender p)) b in
  let b := CE.with_extension EXT_SENDER (pi_name (p_sender p))
    (CE.with_extension EXT_INSTANCE instance (CE.with_extension EXT_PARTITIONKEY key b)) in
  let b := opt_extension "dataschema" (po_data_schema o) b in
  foldl (λ b '(k, v), CE.with_extension k v b) b (po_extensions o).

(** The body: checked, tried or passed through, by content type; [None] if it
    should be JSON and is not. *)
Definition publish_data (content_type : option string) (body : string) (b : CE.Builder)
    : option CE.Builder :=
  match content_type with
  | Some t =>
      if is_json t then
        (λ v, CE.with_data "application/json" (CE.Json v) b) <$> from_slice body
      else Some (CE.with_data t (CE.Binary body) b)
  | None =>
      match from_slice body with
      | Some v => Some (CE.with_data "application/json" (CE.Json v) b)
      | None => Some (CE.with_data "application/octet-stream" (CE.Binary body) b)
      end
  end.

Definition publish (fresh : string) (now : Z) (p : PublishRequest (list (Rule Endpoint)))
    (body : string) : result PublishOutcome PublishError :=
  match publish_data (po_content_type (p_options p)) body (publish_builder fresh now p) with
  | None => Ok PRejected
  | Some b =>
      let? event := map_err PEvent (ce_build b) in
      let? rules := map_err PSpec (processor_rules direction (p_application p)) in
      let? outcome := map_err PProcessor (process rules event) in
      match outcome with
      | Rejected _ => Ok PRejected
      | Accepted event => map_err PSink (sink (pa_name (p_application p)) event)
      | Dropped => Ok PAccepted
      end
  end.
End Publisher.

(** ** The origin of an event *)

Section Origin.
Context `{Externals}.
Context (protected : list string).

(** Steps that cannot change where an event came from: they leave the
    protected extensions alone, and do not let an external endpoint replace the
    event as a whole. *)
Definition keeps_origin (s : Step Endpoint) : Prop :=
  match s with
  | SSetExtension name _ | SRemoveExtension name => name ∉ protected
  | SEnrich _ response => response = RRaw
  | _ => True
  end.

Definition rules_keep_origin (rules : list (Rule Endpoint)) : Prop :=
  Forall (λ r, Forall keeps_origin (r_then r)) rules.

Record same_origin (e e' : CE.Event) : Prop := {
  so_id : CE.id e' = CE.id e;
  so_source : CE.source e' = CE.source e;
  so_time : CE.time e' = CE.time e;
  so_extensions n : n ∈ protected → CE.extension n e' = CE.extension n e;
}.

#[global] Instance same_origin_preorder : PreOrder same_origin.
Proof.
  split; [by intros e; split|]. intros x y z [] []. split; try congruence.
  intros n Hn. rw so_extensions1 //. by apply so_extensions0.
Qed.

Lemma set_attribute_origin e n v e' : set_attribute e n v = Ok e' → same_origin e e'.
Proof. unfold set_attribute. intros He. split_all; by split. Qed.

(** The event an outcome carries on. *)
Definition outcome_event (o : StepOutcome) : option CE.Event :=
  match o with
  | Continue e | Accept e => Some e
  | Reject _ | Drop => None
  end.

Lemma step_origin s e o e' :
  keeps_origin s → step s e = Ok o → outcome_event o = Some e' → same_origin e e'.
Proof.
  intros Hk Hs Ho. destruct s; simpl in *; unfold validate, enrich, unexpected in *; split_all;
    simplify_eq/=; try done; try (by eapply set_attribute_origin).
  all: split; try done; intros m Hm; unfold CE.extension; simpl.
  - rw lookup_insert_ne //. congruence.
  - rw lookup_delete_ne //. congruence.
Qed.

Lemma handle_origin then_ e o e' :
  Forall keeps_origin then_ → handle then_ e = Ok o → outcome_event o = Some e' → same_origin e e'.
Proof.
  intros Hk. revert e. induction Hk as [|s rest Hs Hk IH]; intros e Hh Ho; cbn [handle] in Hh.
  - by simplify_eq/=.
  - apply rbind_ok_inv in Hh as (o1 & Hs1 & Hh). destruct o1 as [e1|e1|r|]; simplify_eq/=; try done.
    + etransitivity; [by eapply step_origin|by eapply IH].
    + by eapply step_origin.
Qed.

Lemma process_origin rules e e' :
  rules_keep_origin rules → process rules e = Ok (Accepted e') → same_origin e e'.
Proof.
  intros Hk. revert e. induction Hk as [|r rest Hr Hk IH]; intros e Hp; cbn [process] in Hp.
  - by simplify_eq.
  - destruct (is_when _ _); [|by apply IH].
    apply rbind_ok_inv in Hp as (o & Ho & Hp). destruct o as [e1|e1|x|]; simplify_eq/=.
    + etransitivity; [by eapply handle_origin|by apply IH].
    + by eapply handle_origin.
Qed.
End Origin.

(** The extensions that name the sending device. *)
Definition origin_extensions : list string :=
  [EXT_INSTANCE; EXT_APPLICATION; EXT_DEVICE; EXT_SENDER].

Section PublisherProofs.
Context `{Externals, CloudEventsLaws}.
Context (percent_encode : string → string) (from_slice : string → option Value).
Context (instance : string) (direction : Direction).

Lemma foldl_extensions l b n :
  n ∉ l.*1 →
  CE.b_extensions (foldl (λ b '(k, v), CE.with_extension k v b) b l) !! n = CE.b_extensions b !! n ∧
  (λ b, (CE.b_id b, CE.b_ty b, CE.b_source b)) (foldl (λ b '(k, v), CE.with_extension k v b) b l)
    = (CE.b_id b, CE.b_ty b, CE.b_source b).
Proof.
  revert b. induction l as [|[k v] l IH]; intros b Hn; [done|]. simpl in Hn.
  apply not_elem_of_cons in Hn as [Hk Hn]. cbn [foldl].
  destruct (IH (CE.with_extension k v b) Hn) as [Hx Hy]. rw Hx Hy. split; [|done]. simpl.
  by rw lookup_insert_ne.
Qed.

(** The builder names the device, whatever the other options are. *)
Lemma publish_builder_origin fresh now {R} (p : PublishRequest R) :
  (∀ n, n ∈ origin_extensions → n ∉ (po_extensions (p_options p)).*1) →
  let b := publish_builder percent_encode instance fresh now p in
  CE.b_id b = Some fresh ∧ is_Some (CE.b_ty b) ∧ is_Some (CE.b_source b) ∧
  CE.b_extensions b !! EXT_INSTANCE = Some (CE.ExtString instance) ∧
  CE.b_extensions b !! EXT_APPLICATION = Some (CE.ExtString (pa_name (p_application p))) ∧
  CE.b_extensions b !! EXT_DEVICE = Some (CE.ExtString (pi_name (p_device p))) ∧
  CE.b_extensions b !! EXT_SENDER = Some (CE.ExtString (pi_name (p_sender p))).
Proof.
  intros Hp b. unfold b, publish_builder. set (b0 := opt_extension "dataschema" _ _).
  assert (Hall : ∀ n, n ∈ origin_extensions →
    CE.b_extensions (foldl (λ b '(k, v), CE.with_extension k v b) b0 (po_extensions (p_options p)))
      !! n = CE.b_extensions b0 !! n).
  { intros n Hn. apply foldl_extensions. by apply Hp. }
  destruct (foldl_extensions (po_extensions (p_options p)) b0 EXT_INSTANCE) as [_ Hattr];
    [apply Hp; by left|]. injection Hattr as Hi Ht Hs. rw Hi Ht Hs !Hall; [set_solver..|].
  unfold b0, opt_extension, inject.
  destruct (po_data_schema (p_options p)), (pi_uid (p_sender p)), (pi_uid (p_device p)); simpl.
  all: split_and!; try done; try by eexists.
  all: by simplify_map_eq.
Qed.

Lemma publish_data_attrs ct body b b' :
  publish_data from_slice ct body b = Some b' →
  CE.b_id b' = CE.b_id b ∧ CE.b_ty b' = CE.b_ty b ∧ CE.b_source b' = CE.b_source b ∧
  CE.b_extensions b' = CE.b_extensions b.
Proof.
  unfold publish_data. intros Hd. destruct ct as [t|]; [destruct (is_json t)|];
    destruct (from_slice body); by simplify_eq/=.
Qed.

(** What is left to do after the rules: hand the event to the sink, if there
    is one. *)
Definition finish (sink : string → CE.Event → result PublishOutcome string) (app : string)
    (x : result (PublishOutcome + CE.Event) PublishError) : result PublishOutcome PublishError :=
  match x with
  | Ok (inl o) => Ok o
  | Ok (inr e) => map_err PSink (sink app e)
  | Err e => Err e
  end.

(** An event that names the instance, the application, the device and the
    sender. *)
Definition names_origin (app device sender : string) (e : CE.Event) : Prop :=
  CE.extension EXT_INSTANCE e = Some (CE.ExtString instance) ∧
  id_from_event e = Some (mkId app device) ∧ address_from_event e = Some (mkAddress app sender device).

(** What the rules of an application make of an event that names it, the
    device and the sender. *)
Definition published (application : PublishApp (list (Rule Endpoint))) (device sender : string)
    (e : CE.Event) : Prop :=
  ∃ rules e0, processor_rules direction application = Ok rules ∧
    names_origin (pa_name application) device sender e0 ∧ process rules e0 = Ok (Accepted e).

(** Rules that leave the identifying extensions alone keep what they say. *)
Lemma rules_names_origin rules app device sender e0 e :
  rules_keep_origin origin_extensions rules → names_origin app device sender e0 →
  process rules e0 = Ok (Accepted e) → names_origin app device sender e.
Proof using Type.
  intros Hk (Hi & Hid & Ha) Hpr. apply (process_origin origin_extensions) in Hpr as [_ _ _ Hext]; [|done].
  unfold names_origin, id_from_event, address_from_event in *. by rw !Hext; [by_decide..|].
Qed.

Lemma published_names_origin application rules device sender e :
  processor_rules direction application = Ok rules → rules_keep_origin origin_extensions rules →
  published application device sender e → names_origin (pa_name application) device sender e.
Proof using Type.
  intros Hr Hk (rules' & e0 & Hr' & Ho & Hpr). rw Hr in Hr'. simplify_eq. by eapply rules_names_origin.
Qed.

(** The event built from a request, before the rules of the application. *)
Lemma publish_built fresh now (p : PublishRequest (list (Rule Endpoint))) body b :
  (∀ n, n ∈ origin_extensions → n ∉ (po_extensions (p_options p)).*1) →
  publish_data from_slice (po_content_type (p_options p)) body
    (publish_builder percent_encode instance fresh now p) = Some b →
  ∃ e0, ce_build b = Ok e0 ∧ CE.id e0 = fresh ∧
    names_origin (pa_name (p_application p)) (pi_name (p_device p)) (pi_name (p_sender p)) e0.
Proof.
  intros Hp Hd. destruct (publish_builder_origin fresh now p Hp)
    as (Hi & [ty Ht] & [src Hs] & Hinst & Happ & Hdev & Hsnd).
  apply publish_data_attrs in Hd as (Hi' & Ht' & Hs' & He'). rw Hi in Hi'. rw Ht in Ht'. rw Hs in Hs'.
  rw (ce_build_ok b fresh ty src Hi' Ht' Hs'). eexists. split; [done|]. split; [done|].
  unfold names_origin, id_from_event, address_from_event, CE.extension. cbn [CE.extensions].
  by rw He' Hinst Happ Hdev Hsnd.
Qed.

(** The sink is given what the rules make of the event built from the request,
    or nothing. *)
Lemma publish_result fresh now (p : PublishRequest (list (Rule Endpoint))) body rules :
  processor_rules direction (p_application p) = Ok rules →
  (∀ n, n ∈ origin_extensions → n ∉ (po_extensions (p_options p)).*1) →
  ∃ x, (∀ sink, publish percent_encode from_slice instance direction sink fresh now p body
          = finish sink (pa_name (p_application p)) x) ∧
    ∀ e, x = Ok (inr e) → ∃ e0, process rules e0 = Ok (Accepted e) ∧ CE.id e0 = fresh ∧
      names_origin (pa_name (p_application p)) (pi_name (p_device p)) (pi_name (p_sender p)) e0.
Proof.
  intros Hr Hp. unfold publish. rw Hr.
  destruct (publish_data _ _ _ _) as [b|] eqn:Hd; [|by exists (Ok (inl PRejected))].
  destruct (publish_built _ _ _ _ _ Hp Hd) as (e0 & Hb & Hid & Ho). rw Hb. cbn [map_err rbind].
  destruct (process rules e0) as [[e|reason|]|err] eqn:Hpr; cbn [map_err rbind].
  - exists (Ok (inr e)). split; [done|]. intros e1 [= <-]. by exists e0.
  - by exists (Ok (inl PRejected)).
  - by exists (Ok (inl PAccepted)).
  - by exists (Err (PProcessor err)).
Qed.

(** Two sinks that agree on what the rules make of events that name their
    origin cannot be told apart. *)
Lemma publish_sinks_published sink1 sink2 fresh now (p : PublishRequest (list (Rule Endpoint))) body :
  (∀ n, n ∈ origin_extensions → n ∉ (po_extensions (p_options p)).*1) →
  (∀ e, published (p_application p) (pi_name (p_device p)) (pi_name (p_sender p)) e →
     sink1 (pa_name (p_application p)) e = sink2 (pa_name (p_application p)) e) →
  publish percent_encode from_slice instance direction sink1 fresh now p body
  = publish percent_encode from_slice instance direction sink2 fresh now p body.
Proof.
  intros Hext Hagree. destruct (processor_rules direction (p_application p)) as [rules|err] eqn:Hr.
  - destruct (publish_result fresh now p body rules Hr Hext) as (x & Hx & Hres). rw !Hx.
    destruct x as [[o|e]|err]; simpl; try done. rw Hagree //.
    destruct (Hres e eq_refl) as (e0 & Hpr & _ & Ho). by exists rules, e0.
  - unfold publish. rw Hr. destruct (publish_data _ _ _ _) as [b|]; [|done]. by destruct (ce_build b).
Qed.

(** With rules that leave the identifying extensions alone, it is enough that
    they agree on the events that name their origin. *)
Lemma publish_sinks sink1 sink2 fresh now (p : PublishRequest (list (Rule Endpoint))) body :
  (∀ rules, processor_rules direction (p_application p) = Ok rules →
     rules_keep_origin origin_extensions rules) →
  (∀ n, n ∈ origin_extensions → n ∉ (po_extensions (p_options p)).*1) →
  (∀ e, names_origin (pa_name (p_application p)) (pi_name (p_device p)) (pi_name (p_sender p)) e →
     sink1 (pa_name (p_application p)) e = sink2 (pa_name (p_application p)) e) →
  publish percent_encode from_slice instance direction sink1 fresh now p body
  = publish percent_encode from_slice instance direction sink2 fresh now p body.
Proof.
  intros Hrules Hext Hagree. apply publish_sinks_published; [done|]. intros e He. apply Hagree.
  destruct (He) as (rules & _ & Hr & _). by eapply published_names_origin; [|apply Hrules|].
Qed.
End PublisherProofs.
