(* ===== verification/EventStream.v ===== *)
(** * Streams of events

    [event-common/src/stream/mod.rs]: the events of an application, as the
    integrations read them from Kafka.  The consumer is [rdkafka]'s; here is how a
    stream names its consumer group, how it hands out events, and how it restores
    the type of their data, which Kafka does not keep. *)

From S2P Require Import Prelude Json CloudEvents Pipeline.

Inductive DeclaredContentType : Type := DJson | DString | DOther.

Definition is_json_content_type (content_type : string) : bool :=
  starts_with "application/json" content_type || starts_with "text/json" content_type
  || ends_with "+json" content_type.

Definition is_text_content_type (content_type : string) : bool :=
  starts_with "text/plain" content_type.

Definition detect (content_type : option string) : DeclaredContentType :=
  match content_type with
  | Some ct =>
      if is_json_content_type ct then DJson
      else if is_text_content_type ct then DString
      else DOther
  | None => DOther
  end.

(** [serde_json]'s parser and printer, and [String::from_utf8], which keeps the
    bytes. *)
Class JsonText := {
  json_parse : string → option Value;
  json_print : Value → string;
  is_utf8 : string → bool;
}.

Section Fixup.
Context `{JsonText}.

Definition make_json (data : CE.Data) : CE.Data :=
  match data with
  | CE.String str => from_option CE.Json data (json_parse str)
  | CE.Binary slice => from_option CE.Json data (json_parse slice)
  | json => json
  end.

Definition make_string (data : CE.Data) : CE.Data :=
  match data with
  | CE.Json json => CE.String (json_print json)
  | CE.Binary slice => if is_utf8 slice then CE.String slice else CE.Binary slice
  | string => string
  end.

(** [Event::take_data] and [set_data_unchecked] *)
Definition take_data (e : CE.Event) : (option string * option string * option CE.Data) * CE.Event :=
  (CE.datacontenttype e, CE.dataschema e, CE.data e,
   CE.mkEvent (CE.id e) (CE.ty e) (CE.source e) (CE.subject e) (CE.time e) None None None (CE.extensions e)).

Definition set_data_unchecked (d : CE.Data) (e : CE.Event) : CE.Event :=
  CE.mkEvent (CE.id e) (CE.ty e) (CE.source e) (CE.subject e) (CE.time e) (CE.datacontenttype e)
    (CE.dataschema e) (Some d) (CE.extensions e).

(** The pre-flight check: the conversion, if one is needed. *)
Definition converter (e : CE.Event) : option (CE.Data → CE.Data) :=
  match detect (CE.datacontenttype e), CE.data e with
  | DString, Some (CE.String _) => None
  | DJson, Some (CE.Json _) => None
  | DOther, _ => None
  | _, None => None
  | DJson, Some _ => Some make_json
  | DString, Some _ => Some make_string
  end.

Definition fixup_data_type (e : CE.Event) : CE.Event :=
  match converter e with
  | None => e
  | Some converter =>
      let '(taken, e) := take_data e in
      let '(content_type, schema_type, data) :=
        match taken with
        | (Some content_type, schema_type, Some data) =>
            (Some content_type, schema_type, Some (converter data))
        | data => data
        end in
      let e := match data with Some data => set_data_unchecked data e | None => e end in
      Pipeline.set_dataschema schema_type (Pipeline.set_datacontenttype content_type e)
  end.
End Fixup.

(** ** The stream *)

(** Offsets are stored on reading, or when the reader says so; a background task of the
    client commits those that are stored. *)
Inductive AckMode : Type := AutoAck | CustomAck.

Definition auto_offset_store (m : AckMode) : bool :=
  match m with AutoAck => true | CustomAck => false end.

(** The consumer group; without one a new one is made up, [unique] being the new UUID. *)
Definition group_id (consumer_group : option string) (unique : string) : string :=
  match consumer_group with
  | Some group => group
  | None => "anonymous." +:+ unique
  end.

Inductive EventStreamError : Type :=
| KafkaError (msg : string)
| MissingMetadata
| CloudEventError (msg : string).

(** [poll_next] of a message that is there: its offset and the event. *)
Definition poll_next `{JsonText} {M : Type} (to_event : M → result CE.Event string)
    (next : result (Z * M) string) : result (Z * CE.Event) EventStreamError :=
  let? (offset, msg) := map_err KafkaError next in
  let? event := map_err CloudEventError (to_event msg) in
  Ok (offset, fixup_data_type event).

(** ** What the fix-up does *)

Section FixupProofs.
Context `{JsonText}.

Definition with_event_data (d : option CE.Data) (e : CE.Event) : CE.Event :=
  CE.mkEvent (CE.id e) (CE.ty e) (CE.source e) (CE.subject e) (CE.time e) (CE.datacontenttype e)
    (CE.dataschema e) d (CE.extensions e).

Lemma fixup_spec e :
  fixup_data_type e = with_event_data
    match detect (CE.datacontenttype e) with
    | DJson => make_json <$> CE.data e
    | DString => make_string <$> CE.data e
    | DOther => CE.data e
    end e.
Proof.
  destruct e as [i t s sub tm ct sch [[b|x|v]|] ext]; unfold fixup_data_type, converter; simpl;
    destruct ct as [ct|]; simpl; try done;
    by destruct (is_json_content_type ct), (is_text_content_type ct).
Qed.

Lemma make_json_idem d : make_json (make_json d) = make_json d.
Proof. by destruct d as [b|s|v]; simpl; [destruct (json_parse b) eqn:E|destruct (json_parse s) eqn:E|]; simpl; rw ?E. Qed.

Lemma make_string_idem d : make_string (make_string d) = make_string d.
Proof. by destruct d as [b|s|v]; simpl; [destruct (is_utf8 b) eqn:E|..]; simpl; rw ?E. Qed.

(** The data of an event comes out of Kafka as it was put in.  Kafka hands out bytes only: from
    the bytes of JSON data the value is restored, if the printer and the parser agree on it; text in
    UTF-8 is text again, and other data, and data that does not parse, is left as it is.  Nothing else
    of the event changes, and an event that has been restored stays as it is. *)
Theorem fixup_restores (e : CE.Event) (bytes : string) :
  let e' := fixup_data_type (with_event_data (Some (CE.Binary bytes)) e) in
  fixup_data_type e' = e' ∧
  with_event_data None e' = with_event_data None e ∧
  (∀ v, detect (CE.datacontenttype e) = DJson → bytes = json_print v → json_parse (json_print v) = Some v →
     CE.data e' = Some (CE.Json v)) ∧
  (detect (CE.datacontenttype e) = DJson → json_parse bytes = None → CE.data e' = Some (CE.Binary bytes)) ∧
  (detect (CE.datacontenttype e) = DString →
     CE.data e' = Some (if is_utf8 bytes then CE.String bytes else CE.Binary bytes)) ∧
  (detect (CE.datacontenttype e) = DOther → CE.data e' = Some (CE.Binary bytes)).
Proof.
  cbv zeta. rw !fixup_spec. split_and!.
  - simpl. destruct (detect (CE.datacontenttype e)); unfold with_event_data; simpl; try done; f_equal.
    + f_equal. apply (make_json_idem (CE.Binary bytes)).
    + f_equal. apply (make_string_idem (CE.Binary bytes)).
  - done.
  - intros v Hd -> Hv. simpl. by rw Hd /= Hv.
  - intros Hd Hv. simpl. by rw Hd /= Hv.
  - intros Hd. simpl. by rw Hd.
  - intros Hd. simpl. by rw Hd.
Qed.
End FixupProofs.
