(* ===== verification/KafkaConfig.v ===== *)
(** * Configuring Kafka clients

    [service-api/src/kafka/config.rs] and the set-up of consumers in
    [event-common/src/stream/mod.rs] and [registry-events/src/stream/mod.rs]: how
    the settings of a client come about.  A [HashMap] is the list of its entries
    in the order it happens to be iterated in; the creation of the client and
    its metadata are [rdkafka]'s. *)

From S2P Require Import Prelude EventStream.

(** ** Properties *)

(** [str::replace] of one character by another. *)
Fixpoint replace_char (a b : ascii) (s : string) : string :=
  match s with
  | EmptyString => EmptyString
  | String c s => String (if bool_decide (c = a) then b else c) (replace_char a b s)
  end.

Definition property_key (k : string) : string := replace_char "_" "." k.

Record KafkaClientConfig := mkClientConfig { bootstrap_servers : string; properties : list (string * string) }.
Record KafkaConfig := mkKafkaConfig { kc_client : KafkaClientConfig; kc_topic : string }.

(** [KafkaClientConfig::translate] *)
Definition translate (cfg : KafkaClientConfig) : KafkaClientConfig :=
  mkClientConfig (bootstrap_servers cfg) (foldl (λ m '(k, v), im_insert (property_key k) v m) [] (properties cfg)).

(** [rdkafka::ClientConfig]: [set] replaces. *)
Abbreviation ClientConfig := (gmap string string).

Definition set_properties (props : list (string * string)) (config : ClientConfig) : ClientConfig :=
  foldl (λ config '(k, v), <[property_key k := v]> config) config props.

(** [From<KafkaClientConfig> for rdkafka::ClientConfig] *)
Definition producer_config (cfg : KafkaClientConfig) : ClientConfig :=
  set_properties (properties cfg) (<["bootstrap.servers" := bootstrap_servers cfg]> ∅).

(** ** Consumers *)

Record EventStreamConfig := mkStreamConfig { es_kafka : KafkaConfig; es_group : option string }.

(** [EventStream::new_config] *)
Definition new_config (cfg : EventStreamConfig) : ClientConfig :=
  let client := kc_client (es_kafka cfg) in
  set_properties (properties client)
    (<["enable.auto.commit" := "true"]>
    (<["auto.commit.interval.ms" := "5000"]>
    (<["session.timeout.ms" := "6000"]>
    (<["enable.partition.eof" := "false"]>
    (<["bootstrap.servers" := bootstrap_servers client]> ∅))))).

(** [AckMode::configure] *)
Definition configure (ack : AckMode) (config : ClientConfig) : ClientConfig :=
  <["enable.auto.offset.store" := if auto_offset_store ack then "true" else "false"]> config.

(** [EventStream::new] with [new_with_group]: the settings of the consumer, and the topic it
    subscribes to. *)
Definition consumer_config (ack : AckMode) (cfg : EventStreamConfig) (unique : string) : ClientConfig * string :=
  (configure ack (<["group.id" := group_id (es_group cfg) unique]> (new_config cfg)), kc_topic (es_kafka cfg)).

(** [EventStream::new_without_group]: the partitions of the topic, which are all assigned.
    The metadata is the list of topics with their partitions. *)
Definition assignment (topic : string) (metadata : result (list (string * list Z)) string)
    : result (list (string * Z)) EventStreamError :=
  let? topics := map_err KafkaError metadata in
  let? partitions := ok_or MissingMetadata (snd <$> find (λ t, string_eqb t.1 topic) topics) in
  Ok ((λ p, (topic, p)) <$> partitions).

(** [KafkaStreamConfig] of the registry events, and what becomes of it. *)
Record KafkaStreamConfig := mkRegistryStream { ks_client : KafkaConfig; ks_group : string }.

Definition event_stream_config (cfg : KafkaStreamConfig) : EventStreamConfig :=
  let kafka := ks_client cfg in
  let client := kc_client kafka in
  mkStreamConfig
    (mkKafkaConfig (mkClientConfig (bootstrap_servers client)
       (im_insert "auto.offset.reset" "earliest" (properties client))) (kc_topic kafka))
    (Some (ks_group cfg)).

(** ** What the settings come to *)

Lemma set_properties_other props config k :
  (∀ p, p ∈ props.*1 → property_key p ≠ k) → set_properties props config !! k = config !! k.
Proof.
  revert config. induction props as [|[p v] props IH]; intros config Hp; [done|]. cbn [set_properties foldl].
  fold (set_properties props (<[property_key p := v]> config)). rw IH; [intros q Hq; apply Hp; set_solver|].
  apply lookup_insert_ne, Hp. set_solver.
Qed.

(** A setting is that of the last property that stands for it. *)
Lemma set_properties_last props1 p v props2 config :
  (∀ q, q ∈ props2.*1 → property_key q ≠ property_key p) →
  set_properties (props1 ++ (p, v) :: props2) config !! property_key p = Some v.
Proof.
  intros Hq. unfold set_properties. rw foldl_app. cbn [foldl].
  fold (set_properties props1 config) (set_properties props2 (<[property_key p := v]> (set_properties props1 config))).
  rw set_properties_other //. by rw lookup_insert_eq.
Qed.

Lemma im_insert_keys {V} k (v : V) m q : q ∈ (im_insert k v m).*1 → q = k ∨ q ∈ m.*1.
Proof. induction m as [|[k' v'] m IH]; simpl; [set_solver|]. case_match; simpl; set_solver. Qed.

(** The place of an entry in a map. *)
Lemma im_insert_place {V} k (v : V) m :
  NoDup m.*1 →
  ∃ l1 l2, im_insert k v m = l1 ++ (k, v) :: l2 ∧ k ∉ l2.*1 ∧ ∀ q, q ∈ l2.*1 → q ∈ m.*1.
Proof.
  induction m as [|[k' v'] m IH]; cbn [im_insert].
  - intros _. exists [], []. split_and!; [done|set_solver..].
  - rw fmap_cons NoDup_cons. intros [Hk Hm]. destruct (string_eqb_spec k k') as [->|Hne].
    + exists [], m. split_and!; [done..|set_solver].
    + destruct (IH Hm) as (l1 & l2 & -> & Hl2 & Hin). exists ((k', v') :: l1), l2. split_and!; [done..|set_solver].
Qed.

(** Whatever properties are configured, the registry's streams belong to their group, and
    store offsets only when told to: an event is acknowledged by the handler and by nothing
    else. *)
Theorem registry_stream_acks cfg unique :
  let '(config, topic) := consumer_config CustomAck (event_stream_config cfg) unique in
  config !! "group.id" = Some (ks_group cfg) ∧ config !! "enable.auto.offset.store" = Some "false" ∧
  topic = kc_topic (ks_client cfg).
Proof. unfold consumer_config, configure. split_and!; [|by rw lookup_insert_eq|done]. by rw lookup_insert_ne // lookup_insert_eq. Qed.

(** The offsets that are stored are committed, and a new group starts at the beginning, if
    no property says otherwise; a property written with underscores is the same as one with
    dots, and of two such it is the iteration order of the map that decides. *)
Theorem registry_stream_reads_all cfg unique :
  NoDup (properties (kc_client (ks_client cfg))).*1 →
  (∀ p, p ∈ (properties (kc_client (ks_client cfg))).*1 →
     property_key p ≠ "enable.auto.commit" ∧ (property_key p = "auto.offset.reset" → p = "auto.offset.reset")) →
  let config := (consumer_config CustomAck (event_stream_config cfg) unique).1 in
  config !! "enable.auto.commit" = Some "true" ∧ config !! "auto.offset.reset" = Some "earliest".
Proof.
  intros Hnd Hp config. unfold config, consumer_config, configure, new_config. cbn [fst].
  rw !(lookup_insert_ne _ "enable.auto.offset.store"); [done..|]. rw !(lookup_insert_ne _ "group.id"); [done..|].
  cbn [event_stream_config es_kafka kc_client properties]. set (props := properties _) in *. split.
  - rw set_properties_other; [|by rw lookup_insert_eq].
    intros p [->|Hin]%im_insert_keys; [done|]. by apply Hp.
  - destruct (im_insert_place "auto.offset.reset" "earliest" props Hnd) as (l1 & l2 & -> & Hno & Hin).
    apply (set_properties_last l1 "auto.offset.reset" "earliest"). intros q Hq Hk. apply Hno.
    by rw -(proj2 (Hp q (Hin q Hq)) Hk).
Qed.

(** Both spellings, and a reader that does not start at the beginning. *)
Example two_spellings :
  let cfg := mkRegistryStream (mkKafkaConfig (mkClientConfig "k" [("x", "y"); ("auto_offset_reset", "latest")]) "t") "g" in
  let swapped := mkRegistryStream (mkKafkaConfig (mkClientConfig "k" [("auto.offset.reset", "none"); ("auto_offset_reset", "latest")]) "t") "g" in
  (consumer_config CustomAck (event_stream_config cfg) "").1 !! "auto.offset.reset" = Some "earliest" ∧
  (consumer_config CustomAck (event_stream_config swapped) "").1 !! "auto.offset.reset" = Some "latest".
Proof. by vm_compute. Qed.

(** *** Translating first *)

Lemma property_key_idem k : property_key (property_key k) = property_key k.
Proof.
  unfold property_key. induction k as [|c k IH]; [done|]. cbn [replace_char]. rw IH. f_equal.
  by repeat case_bool_decide.
Qed.

Lemma set_properties_commute m k v c :
  (∀ q, q ∈ m.*1 → property_key q ≠ k) → set_properties m (<[k := v]> c) = <[k := v]> (set_properties m c).
Proof.
  revert c. induction m as [|[q w] m IH]; intros c Hk; [done|]. unfold set_properties. cbn [foldl].
  fold (set_properties m (<[property_key q := w]> (<[k := v]> c))) (set_properties m (<[property_key q := w]> c)).
  rw insert_insert_ne; [intros Heq; apply (Hk q); set_solver|]. apply IH. set_solver.
Qed.

Definition translated (m : list (string * string)) : Prop := NoDup m.*1 ∧ ∀ q, q ∈ m.*1 → property_key q = q.

Lemma set_properties_insert m k v c :
  translated m → property_key k = k → set_properties (im_insert k v m) c = <[k := v]> (set_properties m c).
Proof.
  intros [Hnd Hq] Hk. revert c Hnd Hq. induction m as [|[q w] m IH]; intros c Hnd Hq.
  - unfold set_properties. simpl. by rw Hk.
  - rewrite fmap_cons in Hnd, Hq. apply NoDup_cons in Hnd as [Hq1 Hnd].
    assert (Hm : ∀ r, r ∈ m.*1 → property_key r = r) by (intros r Hr; apply Hq; set_solver).
    cbn [im_insert]. destruct (string_eqb_spec k q) as [->|Hne]; unfold set_properties; cbn [foldl].
    + fold (set_properties m (<[property_key q := v]> c)) (set_properties m (<[property_key q := w]> c)). rw Hk.
      assert (Hno : ∀ r, r ∈ m.*1 → property_key r ≠ q) by (intros r Hr; rw (Hm r Hr); by intros ->).
      rw !set_properties_commute //. by rw insert_insert_eq.
    + fold (set_properties (im_insert k v m) (<[property_key q := w]> c)) (set_properties m (<[property_key q := w]> c)).
      by apply IH.
Qed.

Lemma translated_insert m k v : translated m → property_key k = k → translated (im_insert k v m).
Proof.
  intros [Hnd Hq] Hk. split; [|intros q [->|Hin]%im_insert_keys; [done|by apply Hq]]. clear Hq.
  induction m as [|[q w] m IH]; cbn [im_insert]; [apply NoDup_singleton|].
  rewrite fmap_cons in Hnd. apply NoDup_cons in Hnd as [Hq1 Hnd]. destruct (string_eqb_spec k q) as [->|Hne].
  - rw fmap_cons. by apply NoDup_cons.
  - rw fmap_cons. apply NoDup_cons. split; [|by apply IH]. intros [Heq|Hin]%im_insert_keys; [by apply Hne|done].
Qed.

(** Translating the properties first makes no difference to the client. *)
Theorem translate_producer cfg : producer_config (translate cfg) = producer_config cfg.
Proof.
  unfold producer_config, translate. cbn [properties bootstrap_servers].
  set (c := <["bootstrap.servers" := _]> ∅). set (step := λ m '(k, v), im_insert (property_key k) v m).
  assert (Hall : ∀ props, translated (foldl step [] props) ∧ set_properties (foldl step [] props) c = set_properties props c);
    [|apply Hall].
  intros props. induction props as [|[k v] props IH] using rev_ind; [split; [split; [apply NoDup_nil_2|set_solver]|done]|].
  destruct IH as [Htr Heq]. rw foldl_app. cbn [foldl step]. split.
  - apply translated_insert; [done|apply property_key_idem].
  - unfold step at 1. rw set_properties_insert; [done|apply property_key_idem|]. rw Heq. unfold set_properties. by rw foldl_app.
Qed.
