(* ===== verification/EventLoop.v ===== *)
(** * From change events to reconciled resources

    [registry-events/src/stream/mod.rs]: the stream of change events and its
    loop; [operator-common/src/controller/base/mod.rs]: the base controller,
    which runs an operation for a key and puts what is left to do into the work
    queue.  Together with the dispatcher of [Operators] and the queue of
    [WorkQueue] this is the way of an event through an operator.  Kafka and the
    operation are given. *)

From S2P Require Import Prelude Json CloudEvents Events WorkQueue Operators EventStream.

(** ** The base controller *)

Section Base.
Context {K St : Type} `{Key K}.

(** The operation of the controller on a key, whether the database of the queue can be
    reached, and the clocks of the operator and of the database. *)
Context (operation : K → St → St * result OperationOutcome ReconcileError) (queue_up : St → bool).
Context (utc now : St → Z).

(** [InnerBaseController::process] *)
Fixpoint inner_process (fuel retries : nat) (key : K) (st : St) : option (St * option (K * Z)) :=
  match fuel with
  | 0 => None
  | S fuel =>
      match operation key st with
      | (st, Ok Complete) | (st, Err (Permanent _)) => Some (st, None)
      | (st, Ok RetryNow) | (st, Err (Temporary _)) =>
          let retries := S retries in
          if (MAX_RETRIES <? retries)%nat then Some (st, Some (key, 0%Z))
          else inner_process fuel retries key st
      | (st, Ok (RetryLater delay)) => Some (st, Some (key, delay))
      end
  end.

(** [BaseController::process], with the queue; eleven runs are enough. *)
Definition base_process (key : K) (s : St * Queue) : (St * Queue) * result unit unit :=
  match inner_process (S MAX_RETRIES) 0 key s.1 with
  | Some (st, None) => ((st, s.2), Ok tt)
  | Some (st, Some (key, after)) =>
      if queue_up st then ((st, insert (utc st) (now st) (to_string key) after s.2), Ok tt) else ((st, s.2), Err tt)
  | None => (s, Err tt)
  end.

Lemma inner_process_total fuel retries key st :
  (retries + fuel = S MAX_RETRIES)%nat → (0 < fuel)%nat → is_Some (inner_process fuel retries key st).
Proof.
  revert retries st. induction fuel as [|fuel IH]; intros retries st Hr Hf; [lia|]. cbn [inner_process].
  destruct (operation key st) as [st' [[| |]|[|]]]; try by eexists.
  all: destruct (MAX_RETRIES <? S retries)%nat eqn:Hm; [by eexists|];
    apply Nat.ltb_ge in Hm; apply IH; lia.
Qed.

(** The end of a run: the operation was done, or the key is to be queued. *)
Lemma inner_process_end fuel retries key st st' next :
  inner_process fuel retries key st = Some (st', next) →
  ∃ st0 o, operation key st0 = (st', o) ∧
    match next with
    | None => o = Ok Complete ∨ ∃ e, o = Err (Permanent e)
    | Some (k, after) => k = key ∧
        (o = Ok (RetryLater after) ∨ (after = 0%Z ∧ (o = Ok RetryNow ∨ ∃ e, o = Err (Temporary e))))
    end.
Proof.
  revert retries st. induction fuel as [|fuel IH]; intros retries st; [done|]. cbn [inner_process].
  destruct (operation key st) as [st1 [[| |]|[e|e]]] eqn:Ho.
  all: try (destruct (MAX_RETRIES <? S retries)%nat; [|by apply IH]).
  all: intros [= <- <-]; eexists st, _; split; [exact Ho|]; eauto 6.
Qed.

(** What the controller has done with a key: the operation was done with it, or failed for
    good; or it asked for another run, and the key is in the queue, due no later than asked
    for on the clock of the operator. *)
Definition accounted (key : K) (s : St * Queue) : Prop :=
  (∃ st0 o, operation key st0 = (s.1, o) ∧ (o = Ok Complete ∨ ∃ e, o = Err (Permanent e))) ∨
  (∃ st0 o after row, operation key st0 = (s.1, o) ∧
     (o = Ok (RetryLater after) ∨ (after = 0%Z ∧ (o = Ok RetryNow ∨ ∃ e, o = Err (Temporary e)))) ∧
     s.2 !! to_string key = Some row ∧ (q_ts row ≤ utc s.1 + after)%Z).

(** The base controller always returns, and if it reports success then the key is accounted
    for. *)
Theorem base_process_accounts key s :
  let '(s', r) := base_process key s in
  match r with
  | Ok _ => accounted key s'
  | Err _ => s'.2 = s.2 ∧ queue_up s'.1 = false
  end.
Proof.
  unfold base_process.
  destruct (inner_process_total (S MAX_RETRIES) 0 key s.1) as [[st' next] Hi]; [done|unfold MAX_RETRIES; lia|].
  rw Hi. apply inner_process_end in Hi as (st0 & o & Ho & Hn). destruct next as [[k after]|].
  - destruct Hn as [-> Hn]. destruct (queue_up st') eqn:Hu; [|done]. right.
    destruct (insert_row (utc st') (now st') (to_string key) after s.2) as (row & Hrow & Hts).
    exists st0, o, after, row. split_and!; [done..|]. destruct Hts as [->|[_ ?]]; simpl; lia.
  - left. by exists st0, o.
Qed.
End Base.

(** ** The stream *)

Inductive KafkaStreamError : Type := StreamError (e : EventStreamError) | EventError (msg : string).

(** [poll_next]: the cloud event is decoded; the offset stays. *)
Definition next_event (try_into : CE.Event → result Event.t string) (next : result (Z * CE.Event) EventStreamError)
    : result (Z * Event.t) KafkaStreamError :=
  let? (offset, ce) := map_err StreamError next in
  let? event := map_err EventError (try_into ce) in
  Ok (offset, event).

Section Loop.
Context {St : Type} (handle : Event.t → St → St * result unit unit) (store_offset : Z → result unit string).

(** The inner loop: another try for each failure, up to eleven. *)
Fixpoint handle_tries (fuel cnt : nat) (event : Event.t) (st : St) : option (St * bool) :=
  match fuel with
  | 0 => None
  | S fuel =>
      match handle event st with
      | (st, Ok _) => Some (st, true)
      | (st, Err _) => if (10 <? cnt)%nat then Some (st, false) else handle_tries fuel (S cnt) event st
      end
  end.

Inductive LoopEnd : Type :=
| ReadFailed (e : KafkaStreamError)
| HandleFailed (offset : Z)
| AckFailed (offset : Z)
| Ended.

(** [KafkaEventStream::run]: the events of the stream, what is done with them, and the
    offsets that were stored. *)
Fixpoint run_events (events : list (result (Z * Event.t) KafkaStreamError)) (st : St) : option (St * list Z * LoopEnd) :=
  match events with
  | [] => Some (st, [], Ended)
  | Err e :: _ => Some (st, [], ReadFailed e)
  | Ok (offset, event) :: rest =>
      '(st, ok) ← handle_tries 12 0 event st;
      if (ok : bool) then
        match store_offset offset with
        | Ok _ =>
            '(st, acked, e) ← run_events rest st;
            Some (st, offset :: acked, e)
        | Err _ => Some (st, [], AckFailed offset)
        end
      else Some (st, [], HandleFailed offset)
  end.

Lemma handle_tries_total fuel cnt event st :
  (cnt + fuel = 12)%nat → (0 < fuel)%nat → is_Some (handle_tries fuel cnt event st).
Proof.
  revert cnt st. induction fuel as [|fuel IH]; intros cnt st Hc Hf; [lia|]. cbn [handle_tries].
  destruct (handle event st) as [st' []]; [by eexists|]. destruct (10 <? cnt)%nat eqn:Hm; [by eexists|].
  apply Nat.ltb_ge in Hm. apply IH; lia.
Qed.

(** An event that counts as handled was handled: the last call returned without an error. *)
Lemma handle_tries_done fuel cnt event st st' :
  handle_tries fuel cnt event st = Some (st', true) → ∃ st0 u, handle event st0 = (st', Ok u).
Proof.
  revert cnt st. induction fuel as [|fuel IH]; intros cnt st; [done|]. cbn [handle_tries].
  destruct (handle event st) as [st1 [u|u]] eqn:Hh; [intros [= <-]; by eexists st, u|].
  destruct (10 <? cnt)%nat; [done|]. by apply IH.
Qed.

(** The loop returns for every sequence of events, with the offsets of a prefix of it
    stored in order: events are neither skipped nor acknowledged out of turn, and after each
    of them the state is that of a successful call of the handler. *)
Theorem run_events_prefix events st :
  ∃ st' acked e, run_events events st = Some (st', acked, e) ∧
    ∃ handled rest, events = (Ok <$> handled) ++ rest ∧ acked = handled.*1 ∧ (e = Ended ↔ rest = []) ∧
      ∀ l1 oe l2, handled = l1 ++ oe :: l2 →
        ∃ st0 st1 u, run_events (Ok <$> (l1 ++ [oe])) st = Some (st1, (l1 ++ [oe]).*1, Ended) ∧
          handle oe.2 st0 = (st1, Ok u).
Proof.
  revert st. induction events as [|[[offset event]|err] events IH]; intros st; cbn [run_events].
  - eexists _, _, _. split; [done|]. exists [], []. split_and!; [done..|]. by intros [].
  - destruct (handle_tries_total 12 0 event st) as [[st1 ok] Ht]; [done|lia|]. rw Ht. cbn [mbind option_bind].
    destruct ok;
      [|eexists _, _, _; split; [done|]; exists [], (Ok (offset, event) :: events); split_and!; [done..|by intros []]].
    destruct (store_offset offset) eqn:Hst;
      [|eexists _, _, _; split; [done|]; exists [], (Ok (offset, event) :: events); split_and!; [done..|by intros []]].
    destruct (IH st1) as (st' & acked & e & Hr & handled & rest & -> & -> & He & Hh). rw Hr. cbn [mbind option_bind].
    eexists _, _, _. split; [done|]. exists ((offset, event) :: handled), rest. split_and!; [done..|].
    intros [|oe' l1] oe l2 Hl; injection Hl as <- Hl.
    + apply handle_tries_done in Ht as Hu. destruct Hu as (st0 & u & Hu). exists st0, st1, u.
      split; [|done]. cbn [app fmap list_fmap run_events]. rw Ht. cbn [mbind option_bind]. by rw Hst.
    + destruct (Hh _ _ _ Hl) as (st0 & st2 & u & Hrun & Hu). exists st0, st2, u. split; [|done].
      rw -app_comm_cons !fmap_cons. cbn [run_events]. rw Ht. cbn [mbind option_bind]. rw Hst Hrun //.
  - eexists _, _, _. split; [done|]. exists [], (Err err :: events). split_and!; [done..|by intros []].
Qed.
End Loop.

(** ** An operator *)

Section Operator.
Context {K1 K2 St : Type} `{Key K1, Key K2}.
Context (queue_up : St → bool) (utc now : St → Z).

(** Its controllers, with the events each of them takes. *)
Context (operation1 : K1 → St → St * result OperationOutcome ReconcileError) (relevant1 : Event.t → option K1).
Context (operation2 : K2 → St → St * result OperationOutcome ReconcileError) (relevant2 : Event.t → option K2).

(** Each controller has the rows of the queue of its type. *)
Definition first_queue (p : K1 → St * Queue → (St * Queue) * result unit unit) (key : K1)
    (s : St * (Queue * Queue)) : (St * (Queue * Queue)) * result unit unit :=
  let '((st, q), r) := p key (s.1, s.2.1) in ((st, (q, s.2.2)), r).
Definition second_queue (p : K2 → St * Queue → (St * Queue) * result unit unit) (key : K2)
    (s : St * (Queue * Queue)) : (St * (Queue * Queue)) * result unit unit :=
  let '((st, q), r) := p key (s.1, s.2.2) in ((st, (s.2.1, q)), r).

(** Two controllers behind the dispatcher; an operator with one has no events for the other. *)
Definition operator_handle : Event.t → St * (Queue * Queue) → (St * (Queue * Queue)) * result unit unit :=
  dispatch [fn_processor relevant1 (first_queue (base_process operation1 queue_up utc now));
            fn_processor relevant2 (second_queue (base_process operation2 queue_up utc now))].

(** What an operator has accounted for: the event is of no concern to it, or the controller
    that takes it has accounted for the key. *)
Definition event_accounted (event : Event.t) (s : St * (Queue * Queue)) : Prop :=
  match relevant1 event, relevant2 event with
  | Some key, _ => accounted operation1 utc key (s.1, s.2.1)
  | None, Some key => accounted operation2 utc key (s.1, s.2.2)
  | None, None => True
  end.

Lemma operator_handle_ok event s s' u : operator_handle event s = (s', Ok u) → event_accounted event s'.
Proof.
  unfold operator_handle, event_accounted, fn_processor, first_queue, second_queue. cbn [dispatch]. intros Hd.
  destruct (relevant1 event) as [key|].
  - pose proof (base_process_accounts operation1 queue_up utc now key (s.1, s.2.1)) as Hb.
    destruct (base_process _ _ _ _ key _) as [[st q] [v|v]]; by simplify_eq.
  - destruct (relevant2 event) as [key|]; [|done].
    pose proof (base_process_accounts operation2 queue_up utc now key (s.1, s.2.2)) as Hb.
    destruct (base_process _ _ _ _ key _) as [[st q] [v|v]]; by simplify_eq.
Qed.


(** Operations that always reconcile are done with every key at once, without the queue. *)
Lemma operator_complete event s :
  (∀ key st, operation1 key st = (st, Ok Complete)) → (∀ key st, operation2 key st = (st, Ok Complete)) →
  operator_handle event s = (s, Ok tt).
Proof.
  intros Hop1 Hop2. unfold operator_handle, fn_processor, first_queue, second_queue, base_process. cbn [dispatch].
  destruct s as [st [q1 q2]]. destruct (relevant1 event) as [key|]; [|destruct (relevant2 event) as [key|]; [|done]];
    cbn [inner_process fst snd]; by rw ?Hop1 ?Hop2.
Qed.
End Operator.
