(* ===== verification/MqttSession.v ===== *)
(** * MQTT sessions

    [mqtt-endpoint/src/service/session]: the topics of a connected device
    ([dialect/mod.rs]), its command inbox ([mod.rs], [inbox.rs]), how it
    disconnects ([disconnect.rs]), and the cache of the devices it may publish
    for ([cache.rs]).  The MQTT protocol itself is [ntex_mqtt]'s. *)

From S2P Require Import Prelude Json Registry CloudEvents Commands Pipeline.

(** ** Topics, [dialect/mod.rs] *)

Inductive MqttDialect : Type :=
| DrogueV1
| PlainTopic (device_prefix : bool).

Inductive ParseError : Type := Syntax | Empty.

Record ParsedPublishTopic := mkPublishTopic {
  pp_channel : string;
  pp_device : option string;
}.

Inductive DeviceFilter : Type :=
| DWildcard
| DDevice
| DProxiedDevice (device : string).

Record SubscribeFilter := mkSubscribeFilter {
  sf_device : DeviceFilter;
  sf_command : option string;
}.

(** [DefaultCommandTopicEncoder]: whether the device is always part of the
    topic. *)
Record TopicEncoder := mkEncoder { force_device : bool }.

Definition parse_publish (dialect : MqttDialect) (path : string)
    : result ParsedPublishTopic ParseError :=
  match dialect with
  | DrogueV1 =>
      match split "/" path with
      | [EmptyString] => Err Empty
      | [channel] => Ok (mkPublishTopic channel None)
      | [channel; as_device] => Ok (mkPublishTopic channel (Some as_device))
      | _ => Err Syntax
      end
  | PlainTopic false =>
      if is_empty path then Err Empty else Ok (mkPublishTopic path None)
  | PlainTopic true =>
      match split_once "/" path with
      | None => if is_empty path then Err Empty else Err Syntax
      | Some (EmptyString, path) => Ok (mkPublishTopic path None)
      | Some (device, path) => Ok (mkPublishTopic path (Some device))
      end
  end.

(** The same for all dialects. *)
Definition parse_subscribe (dialect : MqttDialect) (path : string)
    : result (SubscribeFilter * TopicEncoder) ParseError :=
  match split "/" path with
  | [c; i; rest] =>
      if string_eqb c "command" && string_eqb i "inbox" && string_eqb rest "#"
      then Ok (mkSubscribeFilter DWildcard None, mkEncoder false)
      else Err Syntax
  | [c; i; device; rest] =>
      if string_eqb c "command" && string_eqb i "inbox" && string_eqb rest "#" then
        if string_eqb device "+" then Ok (mkSubscribeFilter DWildcard None, mkEncoder false)
        else if string_eqb device "" then Ok (mkSubscribeFilter DDevice None, mkEncoder false)
        else Ok (mkSubscribeFilter (DProxiedDevice device) None, mkEncoder true)
      else Err Syntax
  | _ => Err Syntax
  end.

Definition into_command_filter (f : SubscribeFilter) (id : Id) : CommandFilter :=
  with_filter (sf_command f)
    match sf_device f with
    | DWildcard => filter_wildcard (app_id id) (device_id id)
    | DDevice => filter_device (app_id id) (device_id id)
    | DProxiedDevice device =>
        if string_eqb device (device_id id) then filter_device (app_id id) (device_id id)
        else filter_proxied_device (app_id id) (device_id id) device
    end.

Definition encode_command_topic (e : TopicEncoder) (command : Command) : string :=
  let a := cmd_address command in
  if force_device e || negb (string_eqb (ca_gateway_id a) (ca_device_id a))
  then "command/inbox/" +:+ ca_device_id a +:+ "/" +:+ cmd_command command
  else "command/inbox//" +:+ cmd_command command.

(** ** Disconnecting, [disconnect.rs] *)

Inductive Inner : Type :=
| Connected
| Disconnected (skip_lwt : bool)
| Closed (skip_lwt : bool).

Inductive DisconnectError : Type := AlreadyDisconnected.

(** [ensure]; the lock it returns is held by the caller. *)
Definition ensure_connected (i : Inner) : result unit DisconnectError :=
  match i with
  | Connected => Ok tt
  | Disconnected _ | Closed _ => Err AlreadyDisconnected
  end.

(** [disconnect_with] *)
Definition disconnect_with (skip_lwt : bool) (i : Inner) : Inner * result unit DisconnectError :=
  match i with
  | Connected => (Disconnected skip_lwt, Ok tt)
  | Disconnected _ | Closed _ => (i, Err AlreadyDisconnected)
  end.

(** [disconnected]: [normal] is the reason code [NormalDisconnection]. *)
Definition disconnected (normal : bool) (i : Inner) : Inner * result unit DisconnectError :=
  disconnect_with normal i.

Definition close (i : Inner) : Inner * bool :=
  match i with
  | Connected => (Closed false, false)
  | Disconnected skip_lwt => (Closed skip_lwt, skip_lwt)
  | Closed skip_lwt => (i, skip_lwt)
  end.

(** ** The session, [mod.rs] *)

(** An inbox subscription: the registration and the encoder of its task. *)
Record InboxSubscription := mkInbox { ib_sub : Sub; ib_encoder : TopicEncoder }.

Record Session := mkSession {
  s_id : Id;
  s_dialect : MqttDialect;
  s_inbox : gmap string InboxSubscription;
  s_disconnect : Inner;
  s_handle : bool;
}.

Definition session_new (id : Id) (dialect : MqttDialect) : Session :=
  mkSession id dialect ∅ Connected true.

Definition with_inbox x s := mkSession (s_id s) (s_dialect s) x (s_disconnect s) (s_handle s).
Definition with_disconnect x s := mkSession (s_id s) (s_dialect s) (s_inbox s) x (s_handle s).

Inductive SubscribeAck : Type := Confirmed | SubscribeFailed | IdentifiersNotSupported.
Inductive UnsubscribeAck : Type := Unsubscribed | NoSubscriptionExisted.

Section Session.
Context `{MqttTopics}.

(** [subscribe_inbox] and [InboxSubscription::new]. *)
Definition subscribe_inbox (draws : list Z) (chan : nat) (topic_filter : string)
    (filter : CommandFilter) (encoder : TopicEncoder) (s : Session) (c : Commands)
    : option (Session * Commands) :=
  match s_inbox s !! topic_filter with
  | Some _ => Some (s, c)
  | None =>
      '(c, handle) ← subscribe draws chan filter c;
      Some (with_inbox (<[topic_filter := mkInbox (mkSub filter handle chan) encoder]> (s_inbox s)) s, c)
  end.

(** One topic of a subscribe request. *)
Definition subscribe_topic (draws : list Z) (chan : nat) (topic : string) (s : Session)
    (c : Commands) : option (Session * Commands * SubscribeAck) :=
  match parse_subscribe (s_dialect s) topic with
  | Ok (filter, encoder) =>
      '(s, c) ← subscribe_inbox draws chan topic (into_command_filter filter (s_id s)) encoder s c;
      Some (s, c, Confirmed)
  | Err _ => Some (s, c, SubscribeFailed)
  end.

(** [subscribe]: with a subscription ID every topic is refused. *)
Fixpoint subscribe_topics (topics : list (string * list Z * nat)) (s : Session) (c : Commands)
    : option (Session * Commands * list SubscribeAck) :=
  match topics with
  | [] => Some (s, c, [])
  | (topic, draws, chan) :: rest =>
      '(s, c, ack) ← subscribe_topic draws chan topic s c;
      '(s, c, acks) ← subscribe_topics rest s c;
      Some (s, c, ack :: acks)
  end.

Definition session_subscribe (sub_id : option Z) (topics : list (string * list Z * nat))
    (s : Session) (c : Commands) : option (Session * Commands * list SubscribeAck) :=
  match sub_id with
  | Some _ => Some (s, c, map (λ _, IdentifiersNotSupported) topics)
  | None => subscribe_topics topics s c
  end.

Definition unsubscribe_topic (topic : string) (s : Session) (c : Commands)
    : Session * Commands * UnsubscribeAck :=
  match s_inbox s !! topic with
  | Some ib =>
      (with_inbox (base.delete topic (s_inbox s)) s, unsubscribe (sub_handle (ib_sub ib)) c,
       Unsubscribed)
  | None => (s, c, NoSubscriptionExisted)
  end.

Fixpoint session_unsubscribe (topics : list string) (s : Session) (c : Commands)
    : Session * Commands * list UnsubscribeAck :=
  match topics with
  | [] => (s, c, [])
  | topic :: rest =>
      let '(s, c, ack) := unsubscribe_topic topic s c in
      let '(s, c, acks) := session_unsubscribe rest s c in
      (s, c, ack :: acks)
  end.

(** [closed]: the third component is the [skip_lwt] the device state is
    deleted with, if it is deleted. *)
Definition closed (s : Session) (c : Commands) : Session * Commands * option bool :=
  let '(i, skip_lwt) := close (s_disconnect s) in
  (mkSession (s_id s) (s_dialect s) ∅ i false,
   foldr (λ kv c, unsubscribe (sub_handle (ib_sub kv.2)) c) c (map_to_list (s_inbox s)),
   if s_handle s then Some skip_lwt else None).
End Session.

(** ** Sessions over time

    A session together with the subscriptions of everyone else at the
    endpoint. *)

Section Trace.
Context `{MqttTopics}.

(** The subscriptions of the inbox. *)
Definition inbox_subs (s : Session) : list Sub := (λ kv, ib_sub kv.2) <$> map_to_list (s_inbox s).

Inductive session_run (id : Id) (dialect : MqttDialect) : Session → list Sub → Commands → Prop :=
| sr_new others c :
    commands_run others c → session_run id dialect (session_new id dialect) others c
| sr_subscribe s others c draws chan topic s' c' ack :
    session_run id dialect s others c → chan ∉ sub_chan <$> inbox_subs s ++ others →
    subscribe_topic draws chan topic s c = Some (s', c', ack) →
    session_run id dialect s' others c'
| sr_unsubscribe s others c topic s' c' ack :
    session_run id dialect s others c → unsubscribe_topic topic s c = (s', c', ack) →
    session_run id dialect s' others c'
| sr_disconnect s others c normal :
    session_run id dialect s others c →
    session_run id dialect (with_disconnect (disconnected normal (s_disconnect s)).1 s) others c
| sr_closed s others c s' c' lwt :
    session_run id dialect s others c → closed s c = (s', c', lwt) →
    session_run id dialect s' others c'
| sr_other_subscribe s others c draws chan f c' h :
    session_run id dialect s others c → chan ∉ sub_chan <$> inbox_subs s ++ others →
    subscribe draws chan f c = Some (c', h) →
    session_run id dialect s (mkSub f h chan :: others) c'
| sr_other_unsubscribe s l1 sub l2 c :
    session_run id dialect s (l1 ++ sub :: l2) c →
    session_run id dialect s (l1 ++ l2) (unsubscribe (sub_handle sub) c).

(** The order of the subscriptions does not matter. *)
#[global] Instance run_inv_proper : Proper ((≡ₚ) ==> eq ==> iff) run_inv.
Proof.
  assert (Hone : ∀ l l' c, l ≡ₚ l' → run_inv l c → run_inv l' c).
  { intros l l' c Hp [Hok Hch Hreg Honly]. split; [done|by rw -Hp| |].
    - intros s Hs. apply Hreg. by rw Hp.
    - intros g id t He. destruct (Honly g id t He) as (s & Hs & ?). exists s. by rw -Hp. }
  intros l l' Hp c c' <-. split; by apply Hone.
Qed.

Lemma inbox_subs_insert s topic ib :
  s_inbox s !! topic = None →
  inbox_subs (with_inbox (<[topic := ib]> (s_inbox s)) s) ≡ₚ ib_sub ib :: inbox_subs s.
Proof. intros Hn. unfold inbox_subs. simpl. by rw map_to_list_insert. Qed.

Lemma inbox_subs_delete s topic ib :
  s_inbox s !! topic = Some ib →
  inbox_subs s ≡ₚ ib_sub ib :: inbox_subs (with_inbox (base.delete topic (s_inbox s)) s).
Proof. intros Hs. unfold inbox_subs. simpl. by rw -(map_to_list_delete _ topic ib). Qed.

(** Unsubscribing all of a list. *)
Lemma drain_inv (l : list (string * InboxSubscription)) others c :
  run_inv (((λ kv, ib_sub kv.2) <$> l) ++ others) c →
  run_inv others (foldr (λ kv c, unsubscribe (sub_handle (ib_sub kv.2)) c) c l).
Proof.
  revert others. induction l as [|kv l IH]; intros others Hinv; [done|]. cbn [foldr].
  apply (run_inv_unsubscribe [] (ib_sub kv.2) others). apply IH. simpl in *.
  by rw -Permutation_middle.
Qed.

(** What a topic of the inbox stands for. *)
Definition inbox_ok (s : Session) : Prop :=
  ∀ topic ib, s_inbox s !! topic = Some ib → ∃ f,
    parse_subscribe (s_dialect s) topic = Ok (f, ib_encoder ib) ∧
    sub_requested (ib_sub ib) = into_command_filter f (s_id s).

Lemma session_run_inv id dialect s others c :
  session_run id dialect s others c →
  run_inv (inbox_subs s ++ others) c ∧ inbox_ok s ∧ s_id s = id ∧ s_dialect s = dialect.
Proof.
  induction 1 as [others c Hr|s others c draws chan topic s' c' ack Hr IH Hch Hs
    |s others c topic s' c' ack Hr IH Hs|s others c normal Hr IH|s others c s' c' lwt Hr IH Hs
    |s others c draws chan f c' h Hr IH Hch Hs|s l1 sub l2 c Hr IH].
  - split_and!; try done. unfold inbox_subs. simpl. rw map_to_list_empty. by apply commands_run_inv.
  - destruct IH as (Hinv & Hok & Hid & Hdi). unfold subscribe_topic, subscribe_inbox in Hs.
    destruct (parse_subscribe _ _) as [[f e]|] eqn:Hp; [|by simplify_eq].
    destruct (s_inbox s !! topic) eqn:Ht; [by simplify_eq/=|].
    destruct (subscribe _ _ _ _) as [[c1 h]|] eqn:Hsub; [|done]. simplify_eq/=. split_and!; try done.
    + rw inbox_subs_insert //. by eapply run_inv_subscribe.
    + intros t ib. simpl. intros [[<- <-]|[_ ?]]%lookup_insert_Some; [by exists f|by apply Hok].
  - destruct IH as (Hinv & Hok & Hid & Hdi). unfold unsubscribe_topic in Hs.
    destruct (s_inbox s !! topic) as [ib|] eqn:Ht; simplify_eq/=; [|done]. split_and!; try done.
    + apply (run_inv_unsubscribe [] (ib_sub ib)). simpl.
      by rw (inbox_subs_delete _ _ _ Ht) in Hinv.
    + intros t ib'. simpl. intros [_ ?]%lookup_delete_Some. by apply Hok.
  - done.
  - destruct IH as (Hinv & Hok & Hid & Hdi). unfold closed in Hs. destruct (close _) as [i b].
    simplify_eq. split_and!; try done. unfold inbox_subs. simpl. rw map_to_list_empty.
    by apply drain_inv.
  - destruct IH as (Hinv & Hok). split; [|done].
    rw -Permutation_middle. by eapply run_inv_subscribe.
  - destruct IH as (Hinv & Hok). split; [|done].
    rw (app_assoc (inbox_subs s) l1 l2). apply run_inv_unsubscribe. by rw -app_assoc.
Qed.

(** The inbox of a session is what it subscribed to: in every reachable state a command
    goes to a task of the session exactly if a topic of its inbox stands for a filter that
    asks for it, and the commands of others are not affected. *)
Lemma session_routing id dialect s others c msg ch :
  session_run id dialect s others c →
  ch ∈ send msg c ↔
    (∃ topic ib f, s_inbox s !! topic = Some ib ∧ sub_chan (ib_sub ib) = ch ∧
       parse_subscribe dialect topic = Ok (f, ib_encoder ib) ∧ wants (into_command_filter f id) msg) ∨
    (∃ o, o ∈ others ∧ sub_chan o = ch ∧ wants (sub_requested o) msg).
Proof.
  intros Hr. destruct (session_run_inv _ _ _ _ _ Hr) as (Hinv & Hok & <- & <-).
  rw (send_routed _ _ _ _ Hinv). setoid_rewrite elem_of_app. split.
  - intros (o & [Hin|Hin] & Hch & Hw); [left|right; eauto].
    unfold inbox_subs in Hin. apply list_elem_of_fmap in Hin as ([topic ib] & -> & Hin).
    apply elem_of_map_to_list in Hin. destruct (Hok topic ib Hin) as (f & Hp & Hreq).
    exists topic, ib, f. simpl in *. by rw -Hreq.
  - intros [(topic & ib & f & Hin & Hch & Hp & Hw)|(o & ? & ?)]; [|exists o; auto].
    exists (ib_sub ib). destruct (Hok topic ib Hin) as (f' & Hp' & Hreq).
    rw Hp in Hp'. injection Hp' as <-. split; [left|by rw Hreq].
    apply list_elem_of_fmap. exists (topic, ib). split; [done|]. by apply elem_of_map_to_list.
Qed.

(** ** What a topic asks for *)

(** The topics for commands: all of them, or with a segment for the device. *)
Definition inbox_topic (topic : string) : Prop :=
  topic = "command/inbox/#" ∨
  ∃ d, has_char "/" d = false ∧ topic = "command/inbox/" +:+ d +:+ "/#".

(** The commands a topic of a device asks for: those sent through the device (as
    the gateway, or to itself), for any device if the segment is left out, is the
    wildcard, is empty or names the device itself, and for one device only if it
    names that. *)
Definition topic_asks (id : Id) (topic : string) (msg : Command) : Prop :=
  ca_app_id (cmd_address msg) = app_id id ∧ ca_gateway_id (cmd_address msg) = device_id id ∧
  (topic = "command/inbox/#" ∨
   ∃ d, has_char "/" d = false ∧ topic = "command/inbox/" +:+ d +:+ "/#" ∧
     (d = "+" ∨ d = "" ∨ d = device_id id ∨ d = ca_device_id (cmd_address msg))).

Lemma split_device_topic d :
  has_char "/" d = false → split "/" ("command/inbox/" +:+ d +:+ "/#") = ["command"; "inbox"; d; "#"].
Proof using Type.
  intros Hd. change ("command/inbox/" +:+ d +:+ "/#")
    with ("command" +:+ String "/" ("inbox" +:+ String "/" (d +:+ String "/" "#"))).
  rw !split_app //.
Qed.

Lemma device_topic_inj d d' :
  has_char "/" d = false → has_char "/" d' = false →
  "command/inbox/" +:+ d +:+ "/#" = "command/inbox/" +:+ d' +:+ "/#" → d = d'.
Proof using Type.
  intros Hd Hd' Heq. assert (Hs := split_device_topic d Hd). rw Heq split_device_topic // in Hs.
  by injection Hs.
Qed.

(** The filters topics are parsed to. *)
Definition device_filter (d : string) : DeviceFilter :=
  if string_eqb d "+" then DWildcard else if string_eqb d "" then DDevice else DProxiedDevice d.

Lemma parse_subscribe_ok dialect topic f enc :
  parse_subscribe dialect topic = Ok (f, enc) →
  (topic = "command/inbox/#" ∧ f = mkSubscribeFilter DWildcard None) ∨
  ∃ d, has_char "/" d = false ∧ topic = "command/inbox/" +:+ d +:+ "/#" ∧ f = mkSubscribeFilter (device_filter d) None.
Proof using Type.
  unfold parse_subscribe. intros Hp. pose proof (join_split "/" topic) as Hj.
  destruct (split "/" topic) as [|c [|i [|d [|r [|]]]]] eqn:Hs; try done; destruct (_ && _) eqn:Hc; try done;
    apply andb_true_iff in Hc as [[->%string_eqb_eq ->%string_eqb_eq]%andb_true_iff ->%string_eqb_eq].
  - left. by simplify_eq.
  - right. exists d. split; [|split; [by simplify_eq|]].
    + apply (split_segment "/" topic). rw Hs. set_solver.
    + unfold device_filter. destruct (string_eqb d "+"); [|destruct (string_eqb d "")]; by simplify_eq.
Qed.

Lemma inbox_topic_parses dialect topic :
  inbox_topic topic ↔ ∃ f enc, parse_subscribe dialect topic = Ok (f, enc).
Proof using Type.
  split.
  - intros [->|(d & Hd & ->)]; [by eexists _, _|]. unfold parse_subscribe. rw split_device_topic //=.
    destruct (string_eqb d "+"); [|destruct (string_eqb d "")]; by eexists _, _.
  - intros (f & enc & [[-> _]|(d & Hd & -> & _)]%parse_subscribe_ok); [by left|right; eauto].
Qed.

Lemma parsed_wants dialect topic f enc id msg :
  parse_subscribe dialect topic = Ok (f, enc) → wants (into_command_filter f id) msg ↔ topic_asks id topic msg.
Proof using Type.
  unfold wants, topic_asks.
  intros [[-> ->]|(d & Hd & -> & ->)]%parse_subscribe_ok; unfold into_command_filter; simpl.
  - split; [intros (-> & -> & _); auto|]. intros (-> & -> & _). by split_and!.
  - unfold device_filter. destruct (string_eqb_spec d "+") as [->|Hp]; simpl.
    { split; intros (-> & -> & _); [|by split_and!]. split_and!; [done..|]. right. exists "+". auto. }
    destruct (string_eqb_spec d "") as [->|He]; simpl.
    { split; [intros (-> & -> & _)|]; [split_and!; [done..|]; right; exists ""; auto|].
      intros (-> & -> & _). split_and!; try done. by intros d [= <-]. }
    destruct (string_eqb_spec d (device_id id)) as [->|Ho]; simpl.
    { split; intros (-> & Hg & _).
      - split_and!; [done..|]. right. exists (device_id id). split_and!; auto.
      - split_and!; try done. by intros d [= <-]. }
    split.
    + intros (-> & Hg & Hw & _). split_and!; [done..|]. right. exists d. split_and!; [done..|].
      do 3 right. by apply Hw.
    + intros (-> & Hg & Hw). split_and!; try done. intros d' [= <-] _.
      destruct Hw as [Hw|(d' & Hd' & Hw & Hc)].
      * apply (f_equal (split "/")) in Hw. by rw split_device_topic // in Hw.
      * apply device_topic_inj in Hw as <-; [|done..]. by destruct_or! Hc.
Qed.

(** A device that subscribes to its own commands only (the topic with an
    empty device) also gets the commands of every device it is the gateway of,
    on a topic that names the other device. *)
Theorem own_inbox_gets_all id dialect s others c ib device command payload :
  session_run id dialect s others c → s_inbox s !! "command/inbox//#" = Some ib →
  device ≠ device_id id →
  let msg := mkCommand (mkAddress (app_id id) (device_id id) device) command payload in
  sub_chan (ib_sub ib) ∈ send msg c ∧
  encode_command_topic (ib_encoder ib) msg = "command/inbox/" +:+ device +:+ "/" +:+ command.
Proof.
  intros Hr Hib Hd msg. destruct (session_run_inv _ _ _ _ _ Hr) as (Hinv & Hok & Hid & Hdi).
  destruct (Hok _ _ Hib) as (f & Hp & Hreq). injection Hp as <- Henc. split.
  - apply (send_routed _ _ _ _ Hinv). exists (ib_sub ib). split_and!; [|done|].
    + apply elem_of_app. left. apply list_elem_of_fmap. exists ("command/inbox//#", ib).
      split; [done|]. by apply elem_of_map_to_list.
    + rw Hreq Hid. split_and!; try done. simpl. intros d [= <-]. done.
  - rw -Henc. unfold encode_command_topic. simpl.
    by destruct (string_eqb_spec (device_id id) device); [congruence|].
Qed.

(** ** Disconnecting *)

Inductive DisconnectOp : Type :=
| OpDisconnect (normal : bool)
| OpClose.

Definition disconnect_step (i : Inner) (op : DisconnectOp) : Inner :=
  match op with
  | OpDisconnect normal => (disconnected normal i).1
  | OpClose => (close i).1
  end.

(** The first of the operations decides. *)
Definition skips_lwt (ops : list DisconnectOp) : bool :=
  match ops with
  | OpDisconnect normal :: _ => normal
  | _ => false
  end.

(** The last will is skipped exactly if the first thing that happened to
    the connection was a normal disconnect of the client; whatever happens
    afterwards does not change that, and nothing can be published any more. *)
Theorem last_will ops :
  let i := foldl disconnect_step Connected ops in
  (close i).2 = skips_lwt ops ∧ (ensure_connected i = Ok tt ↔ ops = []).
Proof.
  assert (Hclosed : ∀ b l, foldl disconnect_step (Closed b) l = Closed b)
    by (intros b; induction l as [|[] l IH]; simpl; auto).
  assert (Hstuck : ∀ b l, foldl disconnect_step (Disconnected b) l = Disconnected b ∨
    foldl disconnect_step (Disconnected b) l = Closed b)
    by (intros b; induction l as [|[] l IH]; simpl; auto).
  destruct ops as [|[n|] ops]; simpl; [done| |].
  - by destruct (Hstuck n ops) as [-> | ->].
  - by rw Hclosed.
Qed.
End Trace.

(** ** The device cache, [cache.rs] *)

Inductive PublishError : Type :=
| InternalError (msg : string)
| QuotaExceeded
| NotAuthorized
| UnsupportedOperation
| PayloadFormatInvalid
| UnspecifiedError
| TopicNameInvalid
| ProtocolError.

Record DeviceCacheEntry (D : Type) := mkCacheEntry { ce_device : option D; ce_expired : Z }.
Arguments mkCacheEntry {D} ce_device ce_expired.
Arguments ce_device {D} d.
Arguments ce_expired {D} d.

(** [clru::CLruCache] and [lru::LruCache]: [cache_get] also moves the entry to the front. *)
Class LruCache (K V : Type) := {
  Cache : Type;
  cache_get : K → Cache → option V * Cache;
  cache_pop : K → Cache → Cache;
  cache_put : K → V → Cache → Cache;
  cache_retain : (V → bool) → Cache → Cache;
  cache_is_full : Cache → bool;
  cache_peek : K → Cache → option V;
}.

(** What the operations do to the entries; putting an entry may evict
    others. *)
Class LruLaws (K V : Type) `{LruCache K V} := {
  get_peek k c : (cache_get k c).1 = cache_peek k c;
  peek_get k k' c : cache_peek k (cache_get k' c).2 = cache_peek k c;
  peek_pop k k' c v : cache_peek k (cache_pop k' c) = Some v → cache_peek k c = Some v;
  peek_put k k' v c v' : cache_peek k (cache_put k' v c) = Some v' →
    (k = k' ∧ v' = v) ∨ cache_peek k c = Some v';
  peek_retain k f c v : cache_peek k (cache_retain f c) = Some v → cache_peek k c = Some v;
}.

Section DeviceCache.
Context {D : Type} `{LruCache string (DeviceCacheEntry D)}.

Record DeviceCache := mkDeviceCache { dc_cache : Cache; dc_next_evict : Z }.

Definition expired (now : Z) (e : DeviceCacheEntry D) : bool := (ce_expired e <=? now)%Z.

(** [load_and_cache]; [now] is the time after the retriever answered. *)
Definition load_and_cache (ttl now : Z) (retrieved : result (option D) string) (as_device : string)
    (c : DeviceCache) : DeviceCache * result D PublishError :=
  match retrieved with
  | Err _ => (c, Err (InternalError "Failed to authorize device"))
  | Ok outcome =>
      let entry := mkCacheEntry outcome (now + ttl)%Z in
      let c :=
        if cache_is_full (dc_cache c) && (dc_next_evict c <=? now)%Z
        then mkDeviceCache (cache_retain (λ v, negb (expired now v)) (dc_cache c)) (now + ttl)
        else c in
      (mkDeviceCache (cache_put as_device entry (dc_cache c)) (dc_next_evict c),
       match outcome with
       | Some d => Ok d
       | None => Err NotAuthorized
       end)
  end.

(** [fetch]: [now] when the cache is read, [later] when the retriever
    answered [retrieved], if it is asked. *)
Definition fetch (ttl now later : Z) (retrieved : result (option D) string) (as_device : string)
    (c : DeviceCache) : DeviceCache * result D PublishError :=
  let '(found, cache) := cache_get as_device (dc_cache c) in
  let c := mkDeviceCache cache (dc_next_evict c) in
  match found with
  | Some outcome =>
      if negb (expired now outcome) then
        (c, match ce_device outcome with
            | Some d => Ok d
            | None => Err NotAuthorized
            end)
      else
        load_and_cache ttl later retrieved as_device
          (mkDeviceCache (cache_pop as_device cache) (dc_next_evict c))
  | None => load_and_cache ttl later retrieved as_device c
  end.

(** [eval_device]: the channel of a topic and the device it is published for;
    [authorize_as] is what the authentication service answers for a device. *)
Definition eval_device (ttl now later : Z) (authorize_as : string → result (option D) string)
    (id : Id) (self : D) (dialect : MqttDialect) (path : string) (c : DeviceCache)
    : DeviceCache * result (string * D) PublishError :=
  match parse_publish dialect path with
  | Err _ => (c, Err TopicNameInvalid)
  | Ok topic =>
      match pp_device topic with
      | None => (c, Ok (pp_channel topic, self))
      | Some device =>
          if string_eqb device (device_id id) then (c, Ok (pp_channel topic, self))
          else
            let '(c, r) := fetch ttl now later (authorize_as device) device c in
            (c, let? d := r in Ok (pp_channel topic, d))
      end
  end.

End DeviceCache.
Arguments DeviceCache D {_}.

Section CacheProofs.
Context {D : Type} `{LruLaws string (DeviceCacheEntry D)}.
(** What the authentication service would answer at which time, and how long
    an answer is kept. *)
Context (auth : Z → string → result (option D) string) (ttl : Z).

(** Every entry holds an answer that was given when it was stored. *)
Definition cache_ok (clock : Z) (c : DeviceCache D) : Prop :=
  ∀ k e, cache_peek k (dc_cache c) = Some e →
    auth (ce_expired e - ttl)%Z k = Ok (ce_device e) ∧ (ce_expired e - ttl ≤ clock)%Z.

Lemma load_and_cache_ok now k c c' r :
  load_and_cache ttl now (auth now k) k c = (c', r) → cache_ok now c →
  cache_ok now c' ∧
  (∀ d, r = Ok d → auth now k = Ok (Some d)) ∧ (r = Err NotAuthorized → auth now k = Ok None).
Proof.
  unfold load_and_cache. intros Hl Hok. destruct (auth now k) as [o|e] eqn:Ha; [|by simplify_eq].
  injection Hl as <- <-. split; [|by destruct o; naive_solver].
  intros k' e. simpl. intros [[-> ->]|Hp]%peek_put; simpl.
  - replace (now + ttl - ttl)%Z with now by lia. split; [done|lia].
  - destruct (_ && _); [|by apply Hok]. simpl in Hp. apply peek_retain in Hp. by apply Hok.
Qed.

(** One fetch at [now], answered at [later]. *)
Lemma fetch_ok now later k c c' r :
  fetch ttl now later (auth later k) k c = (c', r) → cache_ok now c → (now ≤ later)%Z → (0 < ttl)%Z →
  cache_ok later c' ∧
  (∀ d, r = Ok d → ∃ t, auth t k = Ok (Some d) ∧ (t ≤ later)%Z ∧ (now < t + ttl)%Z) ∧
  (r = Err NotAuthorized → ∃ t, auth t k = Ok None ∧ (t ≤ later)%Z ∧ (now < t + ttl)%Z).
Proof.
  unfold fetch. intros Hf Hok Hle Httl.
  pose proof (get_peek k (dc_cache c)) as Hg. pose proof (λ k', peek_get k' k (dc_cache c)) as Hpg.
  destruct (cache_get k (dc_cache c)) as [found cache]. simpl in Hg, Hpg.
  assert (Hlater : ∀ x, (∀ k' e, cache_peek k' (dc_cache x) = Some e → cache_peek k' (dc_cache c) = Some e) →
    cache_ok later x).
  { intros x Hx k' e Hp. apply Hx, Hok in Hp as [? ?]. split; [done|lia]. }
  assert (Hload : ∀ x, load_and_cache ttl later (auth later k) k x = (c', r) → cache_ok later x →
    cache_ok later c' ∧
    (∀ d, r = Ok d → ∃ t, auth t k = Ok (Some d) ∧ (t ≤ later)%Z ∧ (now < t + ttl)%Z) ∧
    (r = Err NotAuthorized → ∃ t, auth t k = Ok None ∧ (t ≤ later)%Z ∧ (now < t + ttl)%Z)).
  { intros x Hl Hx. destruct (load_and_cache_ok _ _ _ _ _ Hl Hx) as (? & Hr & He). split; [done|].
    split; [intros d Hd|intros Hd]; exists later; (split; [auto|lia]). }
  destruct found as [e|]; [|apply (Hload _ Hf), Hlater; simpl; intros k' e; by rw Hpg].
  destruct (expired now e) eqn:Hexp; simpl in Hf.
  - apply (Hload _ Hf), Hlater. simpl. intros k' e' Hp%peek_pop. by rw -Hpg.
  - injection Hf as <- <-. split; [apply Hlater; simpl; intros k' e'; by rw Hpg|].
    symmetry in Hg. destruct (Hok k e Hg) as [Ha Ht]. unfold expired in Hexp. apply Z.leb_gt in Hexp.
    destruct (ce_device e) as [d|] eqn:Hd; split; try done.
    + intros d' [= <-]. exists (ce_expired e - ttl)%Z. split; [done|lia].
    + intros _. exists (ce_expired e - ttl)%Z. split; [done|lia].
Qed.

(** Fetches one after the other; each is answered before the next starts. *)
Fixpoint fetches (clock : Z) (ops : list (Z * Z * string)) (c : DeviceCache D)
    : option (Z * DeviceCache D) :=
  match ops with
  | [] => Some (clock, c)
  | (now, later, k) :: ops =>
      if (clock <=? now)%Z && (now <=? later)%Z
      then fetches later ops (fetch ttl now later (auth later k) k c).1
      else None
  end.

Lemma fetches_ok clock ops c clock' c' :
  fetches clock ops c = Some (clock', c') → cache_ok clock c → (0 < ttl)%Z → cache_ok clock' c'.
Proof.
  revert clock c. induction ops as [|[[now later] k] ops IH]; intros clock c Hf Hok Ht; simpl in Hf.
  - by simplify_eq.
  - destruct (_ && _) eqn:E; [|done]. apply andb_true_iff in E as [?%Z.leb_le ?%Z.leb_le].
    apply IH in Hf; [done| |done].
    destruct (fetch ttl now later (auth later k) k c) as [c1 r] eqn:Hfe. simpl.
    eapply fetch_ok; [done| |done|done]. intros k' e He. destruct (Hok k' e He). split; [done|lia].
Qed.

(** The device cache is never older than its lifetime: whatever was fetched
    before, a device that a session is allowed to publish for, and a refusal,
    is an answer the authentication service gave for that device less than the
    lifetime ago (or just now). *)
Theorem cache_fresh start ops c0 clock c now later k c' r :
  (0 < ttl)%Z → (∀ k, cache_peek k (dc_cache c0) = None) →
  fetches start ops c0 = Some (clock, c) → (clock ≤ now ≤ later)%Z →
  fetch ttl now later (auth later k) k c = (c', r) →
  (∀ d, r = Ok d → ∃ t, auth t k = Ok (Some d) ∧ (t ≤ later)%Z ∧ (now < t + ttl)%Z) ∧
  (r = Err NotAuthorized → ∃ t, auth t k = Ok None ∧ (t ≤ later)%Z ∧ (now < t + ttl)%Z).
Proof.
  intros Ht Hempty Hf Hle Hfe. apply fetches_ok in Hf; [|by intros k' e; rw Hempty|done].
  eapply fetch_ok; [done| |lia|done]. intros k' e He. destruct (Hf k' e He). split; [done|lia].
Qed.
End CacheProofs.

(** ** Publishing, [mod.rs] *)

Section Publishing.
Context `{Externals, CloudEventsSdk, LruCache string (DeviceCacheEntry Reg.Device)}.
Context (percent_encode : string → string) (from_slice : string → option Value) (instance : string).

(** [publish] of a session of the device [self].  The lock that [ensure]
    returns is held to the end: there is no disconnect in between. *)
Definition session_publish (sink : string → CE.Event → result PublishOutcome string)
    (ttl now later : Z) (authorize_as : string → result (option Reg.Device) string)
    (application : PublishApp (list (Rule Endpoint))) (self : Reg.Device) (fresh : string)
    (path : string) (content_type : option string) (payload : string)
    (s : Session) (c : DeviceCache Reg.Device)
    : DeviceCache Reg.Device * result unit PublishError :=
  match ensure_connected (s_disconnect s) with
  | Err AlreadyDisconnected => (c, Err ProtocolError)
  | Ok _ =>
      let '(c, r) := eval_device ttl now later authorize_as (s_id s) self (s_dialect s) path c in
      (c, let? (channel, device) := r in
          match
            publish percent_encode from_slice instance Downstream sink fresh later
              (mkPublish application (to_id device) (to_id self) channel
                (mkPublishOptions None None None content_type [] None)) payload
          with
          | Ok PAccepted => Ok tt
          | Ok PRejected => Err UnspecifiedError
          | Ok PQueueFull => Err QuotaExceeded
          | Err err => Err (InternalError (publish_error_display err))
          end)
  end.
End Publishing.

Section PublishingProofs.
Context `{Externals, CloudEventsLaws, LruLaws string (DeviceCacheEntry Reg.Device)}.
Context (percent_encode : string → string) (from_slice : string → option Value) (instance : string).
Context (auth : Z → string → result (option Reg.Device) string) (ttl : Z).

(** A device a session may publish for: its own, or one that the
    authentication service allowed it to act for less than the lifetime of
    the cache ago. *)
Definition may_publish_for (now later : Z) (self d : Reg.Device) : Prop :=
  d = self ∨ ∃ k t, auth t k = Ok (Some d) ∧ (t ≤ later)%Z ∧ (now < t + ttl)%Z.

Lemma eval_device_allowed now later id self dialect path c c' channel d :
  eval_device ttl now later (auth later) id self dialect path c = (c', Ok (channel, d)) →
  cache_ok auth ttl now c → (now ≤ later)%Z → (0 < ttl)%Z → may_publish_for now later self d.
Proof.
  unfold eval_device. intros He Hok Hle Ht. destruct (parse_publish _ _) as [topic|]; [|done].
  destruct (pp_device topic) as [k|]; [|left; by simplify_eq].
  destruct (string_eqb k _); [left; by simplify_eq|].
  destruct (fetch ttl now later (auth later k) k c) as [c1 r] eqn:Hf.
  destruct (fetch_ok auth ttl now later k c c1 r Hf Hok Hle Ht) as (_ & Hd & _).
  destruct r as [d'|]; simplify_eq/=. right. exists k. by apply Hd.
Qed.

(** What a session publishes is its own: only events that name the instance,
    the application, the session's device as their sender, and as their device
    that device or one it was recently allowed to act for, reach the sink.  Two
    sinks that treat those alike cannot be told apart (the rules of the
    application leave the identifying extensions alone). *)
Theorem session_publish_origin sink1 sink2 start ops c0 clock c now later application rules self
    fresh path content_type payload s :
  (0 < ttl)%Z → (∀ k, cache_peek k (dc_cache c0) = None) →
  fetches auth ttl start ops c0 = Some (clock, c) → (clock ≤ now ≤ later)%Z →
  processor_rules Downstream application = Ok rules → rules_keep_origin origin_extensions rules →
  (∀ d e, may_publish_for now later self d → names_origin instance (pa_name application) (Reg.d_name d) (Reg.d_name self) e →
     sink1 (pa_name application) e = sink2 (pa_name application) e) →
  session_publish percent_encode from_slice instance sink1 ttl now later (auth later) application
    self fresh path content_type payload s c
  = session_publish percent_encode from_slice instance sink2 ttl now later (auth later) application
    self fresh path content_type payload s c.
Proof.
  intros Ht Hempty Hf Hle Hr Hk Hsink. apply fetches_ok in Hf; [|by intros k' e; rw Hempty|done].
  assert (Hok : cache_ok auth ttl now c)
    by (intros k e He; destruct (Hf k e He); split; [done|lia]).
  unfold session_publish. destruct (ensure_connected _) as [|[]]; [|done].
  destruct (eval_device _ _ _ _ _ _ _ _ _) as [c' [[channel d]|]] eqn:He; [|done]. simpl.
  apply eval_device_allowed in He; [|done|lia|done].
  f_equal. erewrite publish_sinks; [done|..].
  - intros rules'. simpl. rw Hr. by intros [= <-].
  - intros n _. apply not_elem_of_nil.
  - intros e Ho. by apply (Hsink d).
Qed.
End PublishingProofs.
