(* ===== verification/MqttInbox.v ===== *)
(** * The command inbox of an MQTT connection

    [mqtt-endpoint/src/service/session/inbox.rs]: the task that passes the
    commands of a subscription on to the client, and how the subscription
    ends.  The sinks of both protocol versions are given; which topics a filter
    of the client stands for is that of the MQTT protocol. *)

From S2P Require Import Prelude CloudEvents Commands MqttSession.

(** ** The task *)

Inductive SinkVersion : Type := V3 | V5.

Section Task.
(** A sink takes a publish with QoS 0, or does not, depending on what came before. *)
Context {Sink : Type} (publish_at_most_once : SinkVersion → string → string → Sink → Sink * result unit string).

(** [InboxSubscription::send_command] *)
Definition send_command (version : SinkVersion) (cmd : Command) (encoder : TopicEncoder) (sink : Sink)
    : Sink * result unit string :=
  let topic := encode_command_topic encoder cmd in
  let payload := default EmptyString (cmd_payload cmd) in
  match version with
  | V3 => publish_at_most_once V3 topic payload sink
  | V5 => publish_at_most_once V5 topic payload sink
  end.

(** The loop on what the receiver gives until it is closed: an error is logged. *)
Fixpoint command_loop (version : SinkVersion) (encoder : TopicEncoder) (received : list Command) (sink : Sink) : Sink :=
  match received with
  | [] => sink
  | cmd :: rest => command_loop version encoder rest (send_command version cmd encoder sink).1
  end.
End Task.

(** A sink that records what it is given, and refuses what it wants to. *)
Definition recording (refuses : string → bool) (_ : SinkVersion) (topic payload : string) (sent : list (string * string))
    : list (string * string) * result unit string :=
  (sent ++ [(topic, payload)], if refuses topic then Err "refused" else Ok tt).

(** Every command that was received is offered to the client once, in order, whatever
    became of those before. *)
Lemma command_loop_offers refuses version encoder received sent :
  command_loop (recording refuses) version encoder received sent
  = sent ++ ((λ cmd, (encode_command_topic encoder cmd, default EmptyString (cmd_payload cmd))) <$> received).
Proof.
  revert sent. induction received as [|cmd rest IH]; intros sent; [by rw app_nil_r|].
  cbn [command_loop]. rw IH fmap_cons. unfold send_command. by destruct version; simpl; rw -app_assoc.
Qed.

(** ** The end of a subscription *)

(** The handle is taken by whoever comes first. *)
Record InboxReader := mkReader { rd_filter : CommandFilter; rd_handle : option SubscriptionHandle }.

Section Reader.
Context `{MqttTopics}.

Definition reader_new (draws : list Z) (chan : nat) (filter : CommandFilter) (c : Commands)
    : option (InboxReader * Commands) :=
  '(c, handle) ← subscribe draws chan filter c;
  Some (mkReader filter (Some handle), c).

Definition take_handle (r : InboxReader) (c : Commands) : InboxReader * Commands :=
  match rd_handle r with
  | Some handle => (mkReader (rd_filter r) None, unsubscribe handle c)
  | None => (r, c)
  end.

(** [close], and [drop] with the task it spawns. *)
Definition reader_close : InboxReader → Commands → InboxReader * Commands := take_handle.
Definition reader_drop : InboxReader → Commands → InboxReader * Commands := take_handle.

(** Closing drops the reader, which must not remove someone else's subscription: the
    handle is used once. *)
Theorem close_then_drop handle filter c :
  let '(r, c1) := reader_close (mkReader filter (Some handle)) c in
  c1 = unsubscribe handle c ∧ reader_drop r c1 = (r, c1).
Proof. done. Qed.
End Reader.

(** ** Topics *)

(** The levels of a filter against those of a topic: [+] is one level, [#] all that follow. *)
Fixpoint levels_match (f t : list string) : bool :=
  match f, t with
  | [], [] => true
  | x :: f', [] => string_eqb x "#" && bool_decide (f' = [])
  | x :: f', y :: t' =>
      if string_eqb x "#" && bool_decide (f' = []) then true
      else (string_eqb x "+" || string_eqb x y) && levels_match f' t'
  | [], _ :: _ => false
  end.

Definition topic_matches (filter topic : string) : bool := levels_match (split "/" filter) (split "/" topic).

Lemma levels_hash t : levels_match ["#"] t = true.
Proof. by destruct t. Qed.

Lemma level_step x y z f t :
  x = "+" ∨ x = y → levels_match (x :: z :: f) (y :: t) = levels_match (z :: f) t.
Proof.
  intros Hx. cbn [levels_match]. rw (bool_decide_eq_false_2 (z :: f = [])) // andb_false_r.
  by destruct Hx as [-> | ->]; rw string_eqb_refl ?orb_true_r.
Qed.

Lemma split_concat c a b : split c (a +:+ String c b) = split c a ++ split c b.
Proof.
  induction a as [|x a IH]; [by rw app_empty_l /= bool_decide_true|]. rw app_cons /=.
  case_bool_decide; [by rw IH|]. rw IH. destruct (split c a) as [|h t] eqn:E; [by apply split_nonempty in E|done].
Qed.

(** The levels of a command topic: the name of the device may be more than one, and so may
    the name of the command. *)
Definition device_levels (e : TopicEncoder) (msg : Command) : list string :=
  let a := cmd_address msg in
  if force_device e || negb (string_eqb (ca_gateway_id a) (ca_device_id a)) then split "/" (ca_device_id a) else [""].

Lemma split_command_topic e msg :
  split "/" (encode_command_topic e msg) = "command" :: "inbox" :: device_levels e msg ++ split "/" (cmd_command msg).
Proof.
  unfold encode_command_topic, device_levels. destruct (_ || _); [|done].
  change ("command/inbox/" +:+ ca_device_id (cmd_address msg) +:+ "/" +:+ cmd_command msg)
    with ("command" +:+ String "/" ("inbox" +:+ String "/" (ca_device_id (cmd_address msg) +:+ String "/" (cmd_command msg)))).
  rw split_app; [done|]. rw split_app; [done|]. by rw split_concat.
Qed.

Lemma device_levels_cons e msg : ∃ x l, device_levels e msg = x :: l.
Proof.
  unfold device_levels. destruct (_ || _); [|by eexists _, _].
  destruct (split "/" _) as [|x l] eqn:E; [by apply split_nonempty in E|by eexists _, _].
Qed.

(** Commands come on a topic the client has subscribed to, unless the client subscribed to
    the commands of its own device and is sent one for another device, which it is the
    gateway of. *)
Theorem inbox_topic_matches `{MqttTopics} dialect topic f e id msg :
  parse_subscribe dialect topic = Ok (f, e) → wants (into_command_filter f id) msg →
  topic_matches topic (encode_command_topic e msg) = true ∨
  (sf_device f = DDevice ∨ sf_device f = DProxiedDevice (device_id id)) ∧ ca_device_id (cmd_address msg) ≠ device_id id.
Proof.
  unfold parse_subscribe, topic_matches. rw split_command_topic.
  destruct (split "/" topic) as [|c [|i [|x [|y [|]]]]] eqn:Ht; try done.
  - destruct (string_eqb_spec c "command") as [->|]; [|done]. destruct (string_eqb_spec i "inbox") as [->|]; [|done].
    destruct (string_eqb_spec x "#") as [->|]; [|done]. intros _ _. left. rw !level_step; auto using levels_hash.
  - destruct (string_eqb_spec c "command") as [->|]; [|done]. destruct (string_eqb_spec i "inbox") as [->|]; [|done].
    destruct (string_eqb_spec y "#") as [->|]; [|done]. cbn [andb].
    assert (Hx : has_char "/" x = false) by (apply (split_segment "/" topic); rw Ht; set_solver).
    destruct (device_levels_cons e msg) as (l & ls & Hl).
    destruct (string_eqb_spec x "+") as [->|Hplus].
    { intros [= <- <-] _. left. rw Hl. cbn [app]. rw !level_step; auto using levels_hash. }
    destruct (string_eqb_spec x "") as [->|Hempty].
    + intros [= <- <-] (_ & Hg & _). destruct (decide (ca_device_id (cmd_address msg) = device_id id)) as [Hd|]; [left|by auto].
      unfold device_levels. simpl in Hg. rw -Hg Hd string_eqb_refl. cbn [force_device orb negb app].
      rw !level_step; auto using levels_hash.
    + intros [= <- <-] Hw. destruct (decide (ca_device_id (cmd_address msg) = x)) as [Hd|Hd].
      * left. unfold device_levels. rw Hd split_no_sep //. cbn [force_device orb app]. rw !level_step; auto using levels_hash.
      * right. destruct Hw as (_ & Hg & Hdev & _). unfold into_command_filter in Hdev. simpl in Hdev.
        destruct (string_eqb_spec x (device_id id)) as [->|Hne]; [by auto|].
        by destruct Hd; symmetry; apply Hdev.
Qed.
