(* ===== verification/Downstream.v ===== *)
(** * Where events go: external endpoints, Kafka, and the device events

    [endpoint-common/src/sender/process/external.rs]: calling the external
    endpoints of the publish rules.  [endpoint-common/src/sink/kafka.rs] and
    [registry-events/src/sender/kafka.rs]: writing events to Kafka.
    [registry-events/src/stream/mod.rs] and [device-management-controller/src]:
    reading the change events of the registry, and publishing an event for
    every change of a device.  The HTTP client, the Kafka producer and the
    encoding of cloud events are given. *)

From S2P Require Import Prelude Json Kafka Versioning Events Registry CloudEvents Commands WorkQueue Reconcile Operators Pipeline MqttSession.

(** ** External endpoints *)

Module External.
Record TlsOptions := mkTls { insecure : bool; certificate : option string }.

#[global] Instance TlsOptions_eq_dec : EqDecision TlsOptions.
Proof. solve_decision. Defined.

Inductive Authentication : Type :=
| NoAuthentication
| Basic (username : string) (password : option string)
| Bearer (token : string).

Inductive ContentMode : Type := Binary | Structured.

(** The endpoint, with the content mode of its request type. *)
Record ExternalEndpoint := mkExternal {
  ee_method : option string;
  ee_url : string;
  ee_tls : option TlsOptions;
  ee_auth : Authentication;
  ee_headers : list (string * string);
  ee_timeout : option Z;
  ee_mode : ContentMode;
}.

Inductive ExternalError : Type :=
| InvalidConfiguration (msg : string)
| RequestError (msg : string)
| CloudEventError (msg : string).

(** What the client is built with. *)
Record Settings := mkSettings {
  accept_invalid_certs : bool;
  accept_invalid_hostnames : bool;
  built_in_root_certs : bool;
  root_certificates : list string;
}.

Record Request := mkRequest {
  xr_method : string;
  xr_url : string;
  xr_headers : list (string * string);
  xr_auth : Authentication;
  xr_timeout : Z;
  xr_mode : ContentMode;
  xr_event : CE.Event;
}.

(** [reqwest], [http], [url], and the encodings of events. *)
Class Reqwest := {
  Client : Type;
  client_build : Settings → result Client string;
  certificate_from_pem : string → result string string;
  to_method : string → result (option string) string;
  request_url : string → result string string;
  header_name : string → result string string;
  header_value : string → result string string;
  encode_event : ContentMode → CE.Event → result unit string;
  send_request : Client → Request → result HttpAnswer string;
}.

(** Seconds. *)
Definition DEFAULT_TIMEOUT : Z := 5.

Section Client.
Context `{Reqwest}.

(** [ExternalClient::new] *)
Definition client_settings (tls : option TlsOptions) : result Settings string :=
  match tls with
  | None => Ok (mkSettings false false true [])
  | Some tls =>
      match certificate tls with
      | None => Ok (mkSettings (insecure tls) (insecure tls) true [])
      | Some cert =>
          let? cert := certificate_from_pem cert in
          Ok (mkSettings (insecure tls) (insecure tls) false [cert])
      end
  end.

Definition client_new (tls : option TlsOptions) : result Client ExternalError :=
  map_err RequestError (let? settings := client_settings tls in client_build settings).

(** The headers: [HeaderMap::insert] replaces. *)
Fixpoint headers_of (entries : list (string * string)) (acc : list (string * string))
    : result (list (string * string)) ExternalError :=
  match entries with
  | [] => Ok acc
  | (name, value) :: rest =>
      let? name := map_err (λ err, InvalidConfiguration ("Invalid header name: " +:+ err)) (header_name name) in
      let? value := map_err (λ err, InvalidConfiguration ("Invalid header value: " +:+ err)) (header_value value) in
      headers_of rest (im_insert name value acc)
  end.

(** [ExternalClient::process], up to sending. *)
Definition request_of (endpoint : ExternalEndpoint) (event : CE.Event) : result Request ExternalError :=
  let? method := map_err InvalidConfiguration (to_method (default "" (ee_method endpoint))) in
  let? url := map_err (λ err, InvalidConfiguration ("Invalid URL: " +:+ err)) (request_url (ee_url endpoint)) in
  let? headers := headers_of (ee_headers endpoint) [] in
  let? _ := map_err CloudEventError (encode_event (ee_mode endpoint) event) in
  Ok (mkRequest (default "POST" method) url headers (ee_auth endpoint) (default DEFAULT_TIMEOUT (ee_timeout endpoint))
        (ee_mode endpoint) event).

Definition process_external (client : Client) (event : CE.Event) (endpoint : ExternalEndpoint)
    : result HttpAnswer ExternalError :=
  let? request := request_of endpoint event in
  map_err RequestError (send_request client request).

(** [ExternalClientPool::get] *)
Definition pool_get `{LruCache (option TlsOptions) Client} (endpoint : ExternalEndpoint) (cache : Cache)
    : Cache * result Client ExternalError :=
  match cache_get (ee_tls endpoint) cache with
  | (Some client, cache) => (cache, Ok client)
  | (None, cache) =>
      match client_new (ee_tls endpoint) with
      | Ok client => (cache_put (ee_tls endpoint) client cache, Ok client)
      | Err e => (cache, Err e)
      end
  end.

(** A sequence of requests for clients. *)
Fixpoint pool_gets `{LruCache (option TlsOptions) Client} (endpoints : list ExternalEndpoint) (cache : Cache) : Cache :=
  match endpoints with
  | [] => cache
  | e :: rest => pool_gets rest (pool_get e cache).1
  end.
End Client.

Section Pool.
Context `{Reqwest} `{LruLaws (option TlsOptions) Client}.

(** Every client of the pool was built for its key. *)
Definition pool_ok (cache : Cache) : Prop :=
  ∀ tls client, cache_peek tls cache = Some client → client_new tls = Ok client.

Lemma pool_get_ok endpoint cache :
  pool_ok cache →
  pool_ok (pool_get endpoint cache).1 ∧
  ∀ client, (pool_get endpoint cache).2 = Ok client → client_new (ee_tls endpoint) = Ok client.
Proof.
  intros Hok. unfold pool_get. pose proof (get_peek (ee_tls endpoint) cache) as Hget.
  pose proof (λ k, peek_get k (ee_tls endpoint) cache) as Hpeek.
  destruct (cache_get (ee_tls endpoint) cache) as [[client|] cache']; simpl in Hget, Hpeek.
  - split; [intros tls c; rw Hpeek; apply Hok|]. intros c [= <-]. by apply Hok.
  - destruct (client_new (ee_tls endpoint)) as [client|e] eqn:Hnew; simpl.
    + split; [|naive_solver]. intros tls c [[-> ->]|Hc]%peek_put; [done|]. rw Hpeek in Hc. by apply Hok.
    + split; [intros tls c; rw Hpeek; apply Hok|done].
Qed.

(** Whatever endpoints were called before, a call uses a client that was built with exactly
    the TLS options of its endpoint: it accepts invalid certificates only if they say so,
    and with a certificate of its own it trusts no other. *)
Theorem pool_client_settings endpoints cache endpoint client :
  (∀ tls, cache_peek tls cache = None) →
  (pool_get endpoint (pool_gets endpoints cache)).2 = Ok client →
  ∃ settings, client_build settings = Ok client ∧ client_settings (ee_tls endpoint) = Ok settings ∧
    (accept_invalid_certs settings = true ↔ ∃ tls, ee_tls endpoint = Some tls ∧ insecure tls = true) ∧
    (built_in_root_certs settings = false ↔ ∃ tls cert, ee_tls endpoint = Some tls ∧ certificate tls = Some cert).
Proof.
  intros Hempty Hget. assert (Hok : pool_ok (pool_gets endpoints cache)).
  { assert (Hc : pool_ok cache) by (intros tls c; by rw Hempty). clear Hempty Hget. revert cache Hc.
    induction endpoints as [|e rest IH]; intros cache Hc; [done|]. by apply IH, pool_get_ok. }
  apply pool_get_ok in Hget; [|done]. unfold client_new in Hget.
  destruct (client_settings (ee_tls endpoint)) as [settings|] eqn:Hs; [|done]. simpl in Hget.
  destruct (client_build settings) eqn:Hb; [|done]. injection Hget as ->. exists settings. split_and!; [done..| |].
  - unfold client_settings in Hs. destruct (ee_tls endpoint) as [[b [cert|]]|]; simpl in Hs; split_all; simpl; naive_solver.
  - unfold client_settings in Hs. destruct (ee_tls endpoint) as [[b [cert|]]|]; simpl in Hs; split_all; simpl; naive_solver.
Qed.

(** The rules see an endpoint through its pool. *)
Definition call_external (cache : Cache) (endpoint : ExternalEndpoint) (event : CE.Event) : result HttpAnswer ExternalError :=
  let? client := (pool_get endpoint cache).2 in
  process_external client event endpoint.

(** An endpoint with a broken configuration is never called, and any other is sent the
    event as it is, with the defaults the documentation names. *)
Theorem external_request cache endpoint event answer :
  call_external cache endpoint event = Ok answer →
  ∃ client request, (pool_get endpoint cache).2 = Ok client ∧ request_of endpoint event = Ok request ∧
    send_request client request = Ok answer ∧ xr_event request = event ∧ xr_auth request = ee_auth endpoint ∧
    (ee_timeout endpoint = None → xr_timeout request = 5%Z) ∧
    (to_method (default "" (ee_method endpoint)) = Ok None → xr_method request = "POST").
Proof.
  unfold call_external, process_external. intros (client & Hc & (request & Hr & Hs)%rbind_ok_inv)%rbind_ok_inv.
  exists client, request. destruct (send_request client request) eqn:Hsend; simplify_eq/=. split_and!; try done.
  all: unfold request_of in Hr; apply rbind_ok_inv in Hr as (m & Hm & (u & _ & (hs & _ & (? & _ & [= <-])%rbind_ok_inv)%rbind_ok_inv)%rbind_ok_inv).
  - done.
  - done.
  - by intros ->.
  - intros Ht. rw Ht in Hm. by injection Hm as <-.
Qed.
End Pool.
End External.

(** ** Writing to Kafka *)

Module KafkaSink.
(** What the producer makes of a record: it may be refused at once, or its delivery fails,
    or is never confirmed. *)
Inductive SendResult : Type :=
| QueueFull
| SendFailed (err : string)
| Delivered (partition offset : Z)
| DeliveryFailed (err : string)
| Canceled.

Inductive SinkError : Type := SinkEvent (msg : string) | Transport (msg : string) | Target (msg : string).

Record KafkaRecord := mkRecord { kr_topic : string; kr_key : string; kr_event : CE.Event }.

(** [send_with] *)
Definition send_with (sent : SendResult) : result PublishOutcome SinkError :=
  match sent with
  | Delivered _ _ => Ok PAccepted
  | DeliveryFailed err => Err (Transport err)
  | Canceled => Err (Transport "Transmission canceled")
  | QueueFull => Ok PQueueFull
  | SendFailed err => Err (Transport err)
  end.

(** The key of a record: the partition key, or the ID. *)
Definition record_key (event : CE.Event) : string :=
  match CE.extension EXT_PARTITIONKEY event with
  | Some (CE.ExtString key) => key
  | _ => CE.id event
  end.

(** [KafkaSink::is_ready]: of the conditions section, if it decodes. *)
Definition is_ready (conditions : option (result (list Condition) string)) : bool :=
  match conditions with
  | Some (Ok cs) =>
      match find (λ c, string_eqb (c_type c) "KafkaReady") cs with
      | Some c => string_eqb (c_status c) "True"
      | None => false
      end
  | _ => false
  end.

Inductive SinkTarget : Type := Events (app : string) | Commands (app : string).
Definition target_app (t : SinkTarget) : string := match t with Commands app | Events app => app end.

Section Sink.
Context `{T : Text}.

(** The producer, depending on the records so far, [MessageRecord::from_event], and the
    conditions of applications. *)
Context (produce : list KafkaRecord → KafkaRecord → SendResult) (from_event : CE.Event → result unit string).
Context (check_ready : bool) (conditions : string → option (result (list Condition) string)).

(** [KafkaSink::check_ready] *)
Definition ready (app : string) : bool := if check_ready then is_ready (conditions app) else true.

Definition target_topic (t : SinkTarget) : string :=
  match t with
  | Commands app => make_topic KCommands app
  | Events app => make_topic KEvents app
  end.

(** [KafkaSink::publish] *)
Definition sink_publish (target : SinkTarget) (event : CE.Event) (log : list KafkaRecord)
    : list KafkaRecord * result PublishOutcome SinkError :=
  if negb (ready (target_app target)) then (log, Err (Transport "Kafka topic is not ready"))
  else
    let topic := target_topic target in
    let key := record_key event in
    match from_event event with
    | Err e => (log, Err (SinkEvent e))
    | Ok _ =>
        let record := mkRecord topic key event in
        (log ++ [record], send_with (produce log record))
    end.

(** An event counts as accepted exactly if it was delivered: written, with its key, to the
    topic of its application, which was ready. *)
Theorem sink_accepts target event log log' :
  sink_publish target event log = (log', Ok PAccepted) ↔
  ready (target_app target) = true ∧ (∃ u, from_event event = Ok u) ∧
  let record := mkRecord (target_topic target) (record_key event) event in
  log' = log ++ [record] ∧ ∃ partition offset, produce log record = Delivered partition offset.
Proof.
  unfold sink_publish. destruct (ready _); simpl; [|naive_solver].
  destruct (from_event event) as [u|e]; simpl; [|naive_solver].
  set (record := mkRecord _ _ _). destruct (produce log record); simpl; naive_solver.
Qed.

(** [StatusCode::is_success] *)
Definition success_status (code : Z) : bool := ((200 <=? code) && (code <? 300))%Z.

(** [HttpSink::publish]: the encoded event is posted, whatever the target. *)
Definition http_sink_publish (encode : CE.Event → result unit string) (post : CE.Event → result HttpAnswer string)
    (target : SinkTarget) (event : CE.Event) : result PublishOutcome SinkError :=
  let? _ := map_err SinkEvent (encode event) in
  let? response := map_err Transport (post event) in
  Ok (if success_status (ha_status response) then PAccepted else PRejected).

(** A topic that is not ready gets nothing. *)
Theorem sink_not_ready target event log :
  check_ready = true → is_ready (conditions (target_app target)) = false →
  sink_publish target event log = (log, Err (Transport "Kafka topic is not ready")).
Proof. intros Hc Hr. unfold sink_publish, ready. by rw Hc Hr. Qed.
End Sink.

(** The sink of Knative never reports a full queue: what it cannot take is rejected. *)
Theorem http_sink_outcomes encode post target event :
  http_sink_publish encode post target event = Ok PAccepted ↔
  (∃ u, encode event = Ok u) ∧ ∃ response, post event = Ok response ∧ success_status (ha_status response) = true.
Proof.
  unfold http_sink_publish. destruct (encode event) as [u|]; cbn [rbind map_err]; [|split; [done|by intros [[??] _]]].
  destruct (post event) as [response|]; cbn [rbind map_err]; [|split; [done|by intros (_ & ? & ? & _)]].
  destruct (success_status (ha_status response)) eqn:Hs; split; try done.
  - intros _. split; [by exists u|by exists response].
  - intros (_ & r & [= <-] & Hr). by rw Hs in Hr.
Qed.

(** The test of the source. *)
Example test_ready :
  is_ready None = false ∧ is_ready (Some (Ok [mkCondition "KafkaReady" "True" None None])) = true.
Proof. done. Qed.
End KafkaSink.

(** *** The change events of the registry, [sender/kafka.rs] *)

Section EventSender.
Context (into : Event.t → result CE.Event string) (from_event : CE.Event → result unit string) (topic : string).
Context (produce : list KafkaSink.KafkaRecord → KafkaSink.KafkaRecord → result unit string).

(** [KafkaEventSender::notify] *)
Fixpoint notify_all (events : list Event.t) (log : list KafkaSink.KafkaRecord)
    : list KafkaSink.KafkaRecord * result unit string :=
  match events with
  | [] => (log, Ok tt)
  | e :: rest =>
      match into e with
      | Err err => (log, Err err)
      | Ok event =>
          match from_event event with
          | Err err => (log, Err err)
          | Ok _ =>
              let record := KafkaSink.mkRecord topic (KafkaSink.record_key event) event in
              match produce log record with
              | Ok _ => notify_all rest (log ++ [record])
              | Err err => (log ++ [record], Err err)
              end
          end
      end
  end.

(** [ReqwestEventSender::notify]: the answer to a request is not looked at. *)
Fixpoint notify_http (encode : CE.Event → result unit string) (post : CE.Event → result HttpAnswer string)
    (events : list Event.t) : result unit string :=
  match events with
  | [] => Ok tt
  | e :: rest =>
      let? event := into e in
      let? _ := encode event in
      let? _ := post event in
      notify_http encode post rest
  end.

(** Events that are refused with an error status count as sent. *)
Theorem http_sender_ignores_status encode post events :
  (∀ e, e ∈ events → ∃ ce u response, into e = Ok ce ∧ encode ce = Ok u ∧ post ce = Ok response) →
  notify_http encode post events = Ok tt.
Proof.
  induction events as [|e events IH]; intros Hall; [done|]. cbn [notify_http].
  destruct (Hall e ltac:(left)) as (ce & u & response & He & Hu & Hp). rw He. cbn [rbind]. rw Hu. cbn [rbind]. rw Hp.
  cbn [rbind]. apply IH. intros e' Hin. apply Hall. by right.
Qed.

(** Success means that all events were written, in their order. *)
Theorem notify_all_ok events log log' :
  notify_all events log = (log', Ok tt) →
  ∃ ces, Forall2 (λ e ce, into e = Ok ce) events ces ∧
    log' = log ++ ((λ ce, KafkaSink.mkRecord topic (KafkaSink.record_key ce) ce) <$> ces).
Proof.
  revert log. induction events as [|e events IH]; intros log; simpl.
  - intros [= <-]. exists []. rw app_nil_r. by split; [constructor|].
  - destruct (into e) as [ce|] eqn:He; [|done]. destruct (from_event ce); [|done]. destruct (produce _ _); [|done].
    intros (ces & Hces & ->)%IH. exists (ce :: ces). split; [by constructor|]. by rw fmap_cons -app_assoc.
Qed.
End EventSender.

(** ** Order within a device *)

Section Partition.
Context `{Externals, CloudEventsLaws}.
Context (percent_encode : string → string) (from_slice : string → option Value).
Context (instance : string) (direction : Direction).

Definition partition_key (app sender : string) : string := percent_encode app +:+ "/" +:+ percent_encode sender.

Lemma publish_builder_key fresh now {R} (p : PublishRequest R) :
  EXT_PARTITIONKEY ∉ (po_extensions (p_options p)).*1 →
  let b := publish_builder percent_encode instance fresh now p in
  CE.b_id b = Some fresh ∧ is_Some (CE.b_ty b) ∧ is_Some (CE.b_source b) ∧
  CE.b_extensions b !! EXT_PARTITIONKEY =
    Some (CE.ExtString (partition_key (pa_name (p_application p)) (pi_name (p_sender p)))).
Proof.
  intros Hp b. unfold b, publish_builder. set (b0 := opt_extension "dataschema" _ _).
  destruct (foldl_extensions (po_extensions (p_options p)) b0 EXT_PARTITIONKEY Hp) as [Hk Hattr].
  injection Hattr as Hi Ht Hs. rw Hi Ht Hs Hk. unfold b0, opt_extension, inject.
  destruct (po_data_schema (p_options p)), (pi_uid (p_sender p)), (pi_uid (p_device p)); simpl.
  all: split_and!; try done; try by eexists.
  all: by simplify_map_eq.
Qed.

(** All events of a device have the same key, so that Kafka keeps them in order: sinks that
    agree on the events with the key of the sender cannot be told apart, as long as neither
    the options nor the rules of the application touch the partition key. *)
Theorem publish_keeps_partition sink1 sink2 fresh now (p : PublishRequest (list (Rule Endpoint))) body :
  (∀ rules, processor_rules direction (p_application p) = Ok rules → rules_keep_origin [EXT_PARTITIONKEY] rules) →
  EXT_PARTITIONKEY ∉ (po_extensions (p_options p)).*1 →
  (∀ e, KafkaSink.record_key e = partition_key (pa_name (p_application p)) (pi_name (p_sender p)) →
     sink1 (pa_name (p_application p)) e = sink2 (pa_name (p_application p)) e) →
  publish percent_encode from_slice instance direction sink1 fresh now p body
  = publish percent_encode from_slice instance direction sink2 fresh now p body.
Proof.
  intros Hrules Hext Hagree. destruct (publish_builder_key fresh now p Hext) as (Hi & [ty Ht] & [src Hs] & Hkey).
  unfold publish. destruct (publish_data _ _ _ _) as [b|] eqn:Hd; [|done].
  apply publish_data_attrs in Hd as (Hi' & Ht' & Hs' & He'). rw Hi in Hi'. rw Ht in Ht'. rw Hs in Hs'.
  rw (ce_build_ok b fresh ty src Hi' Ht' Hs'). cbn [map_err rbind].
  destruct (processor_rules direction (p_application p)) as [rules|err]; [|done]. cbn [map_err rbind].
  set (e0 := CE.mkEvent _ _ _ _ _ _ _ _ _).
  destruct (process rules e0) as [[e|reason|]|err] eqn:Hpr; try done. cbn [map_err rbind]. rw Hagree //.
  apply (process_origin [EXT_PARTITIONKEY]) in Hpr as [_ _ _ Hx]; [|by apply Hrules].
  unfold KafkaSink.record_key. rw Hx; [by left|]. unfold CE.extension, e0. cbn [CE.extensions]. by rw He' Hkey.
Qed.
End Partition.

(** ** Events of devices, [device-management-controller] *)

Module DeviceEvents.
Definition REGISTRY_TYPE_EVENT : string := "io.drogue.registry.v1".

(** Seconds. *)
Record ControllerConfig := mkConfig { retry_full : Z; retry_failed : Z }.
Definition default_config : ControllerConfig := mkConfig 1 10.

Record DeviceKey := mkKey { dk_application : string; dk_device : string; dk_uid : string }.

(** The text of JSON, [serde_json]. *)
Class JsonText := {
  json_print : Value → string;
  json_parse : string → result Value string;
}.
Class JsonTextLaws `{JsonText} : Prop := {
  parse_print v : json_parse (json_print v) = Ok v;
}.

Section Keys.
Context `{JsonText}.

Definition key_to_string (k : DeviceKey) : string :=
  json_print (json_object [("a", Str (dk_application k)); ("d", Str (dk_device k)); ("u", Str (dk_uid k))]).

(** A field that has to be a string. *)
Definition string_field (k : string) (m : Map) : result string string :=
  match map_get k m with
  | Some (Str s) => Ok s
  | _ => Err "Key deserialization error"
  end.

Definition key_from_string (s : string) : result DeviceKey string :=
  match json_parse s with
  | Ok (Object m) =>
      let? a := string_field "a" m in
      let? d := string_field "d" m in
      let? u := string_field "u" m in
      Ok (mkKey a d u)
  | _ => Err "Key deserialization error"
  end.

(** The key of the work queue is read back as it was written, whatever the names are. *)
Theorem key_roundtrip `{!JsonTextLaws} k : key_from_string (key_to_string k) = Ok k.
Proof. unfold key_from_string, key_to_string. rw parse_print. by destruct k. Qed.
End Keys.

(** The events the controller is about, [lib.rs]. *)
Definition device_event_key (e : Event.t) : option DeviceKey :=
  match e with
  | Event.Device _ application device uid _ _ => Some (mkKey application device uid)
  | _ => None
  end.

(** [ResourceOperations::get]: the device may be gone. *)
Definition get_both {St} `{RegistryClient St} (key : DeviceKey) (st : St)
    : result (option (DeviceKey * Reg.Application * option Reg.Device)) ClientError :=
  let? app := rc_get_app (dk_application key) st in
  let? device := rc_get_device (dk_application key) (dk_device key) st in
  Ok match app with
     | Some application => Some (key, application, device)
     | None => None
     end.

Section Controller.
Context `{Externals, CloudEventsSdk}.
Context (percent_encode : string → string) (from_slice : string → option Value) (instance : string).
Context (sink : string → CE.Event → result PublishOutcome string).
Context (to_publish : Reg.Application → PublishApp (list (Rule Endpoint))) (config : ControllerConfig).

Definition event_request (key : DeviceKey) (application : Reg.Application) : PublishRequest (list (Rule Endpoint)) :=
  let id := mkPublishId (dk_device key) (Some (dk_uid key)) in
  mkPublish (to_publish application) id id "devices"
    (mkPublishOptions None None None None [] (Some REGISTRY_TYPE_EVENT)).

(** [EventController::send_event] *)
Definition send_event (fresh : string) (now : Z) (key : DeviceKey) (application : Reg.Application)
    : ProcessOutcome unit :=
  match
    publish percent_encode from_slice instance Downstream sink fresh now (event_request key application) ""
  with
  | Ok PAccepted => PComplete tt
  | Ok PQueueFull => PRetry tt (Some (retry_full config))
  | Ok PRejected => PRetry tt (Some (retry_failed config))
  | Err _ => PComplete tt
  end.

(** An event of a device is done when it was published; it is tried again as long as the
    queue is full or it is rejected; and it is given up with the first error, such as that
    of a topic that is not ready. *)
Theorem send_event_outcome fresh now key application :
  let published := publish percent_encode from_slice instance Downstream sink fresh now (event_request key application) "" in
  send_event fresh now key application = PComplete tt ↔ published = Ok PAccepted ∨ ∃ e, published = Err e.
Proof. cbv zeta. unfold send_event. destruct (publish _ _ _ _ _ _ _ _ _) as [[]|e]; naive_solver. Qed.
End Controller.
End DeviceEvents.
