(* ===== verification/EndpointAuth.v ===== *)
(** * Authenticating devices at the endpoints

    [endpoint-common/src/auth.rs] and [endpoint-common/src/psk.rs]: how an
    endpoint turns what a device presents (a user name and password, a client
    certificate, a verified pre-shared key identity) into a request to the
    authentication service, for HTTP, CoAP and MQTT.  Percent decoding, base64,
    header values and certificates are those of the crates used. *)

From S2P Require Import Prelude Json Store Registry DeviceAuth.

Class AuthCodecs := {
  percent_decode : string → string;
  base64_decode : string → option string;
  from_utf8 : string → option string;
  header_to_str : string → option string;
  cert_names : string → option (string * string);
}.

(** ** User names and header values *)

Inductive Username : Type :=
| Scoped (scope device : string)
| NonScoped (name : string).

Inductive AuthValue : Type :=
| Basic (username : Username) (password : string)
| Bearer (token : string)
| UnknownAuth.

(** [VerifiedIdentity], of a pre-shared key. *)
Record VerifiedIdentity := mkVerified { vi_application : Reg.Application; vi_device : Reg.Device }.

Record Identity := mkIdentity { id_application : string; id_device : string }.

Definition identity_parse (s : string) : option Identity :=
  match split_once "@" s with
  | Some (d, a) => Some (mkIdentity a d)
  | None => None
  end.

Inductive AuthError : Type :=
| AuthRequest (msg : string)
| AuthService (msg : string).

Section EndpointAuth.
Context `{AuthCodecs}.

Definition username_from (s : string) : Username :=
  match split_once "@" s with
  | Some (device, scope) => Scoped scope (percent_decode device)
  | None => NonScoped s
  end.

Definition into_string (u : Username) : string :=
  match u with
  | NonScoped s => s
  | Scoped scope device => scope +:+ "@" +:+ device
  end.

Definition auth_value_from (header : string) : AuthValue :=
  match header_to_str header with
  | None => UnknownAuth
  | Some value =>
      match split_once " " value with
      | Some (scheme, v) =>
          if string_eqb scheme "Basic" then
            match base64_decode v ≫= from_utf8 with
            | Some v =>
                match split_once ":" v with
                | Some (username, password) => Basic (username_from username) password
                | None => UnknownAuth
                end
            | None => UnknownAuth
            end
          else if string_eqb scheme "Bearer" then Bearer v
          else UnknownAuth
      | None => UnknownAuth
      end
  end.

(** ** Requests to the authentication service

    [service] is the call of the authentication service. *)
Context (service : AuthenticationRequest → result Authn.Outcome AuthError).

Definition authenticate_with (application device : string) (credential : Authn.Credential)
    (as_device : option string) : result Authn.Outcome AuthError :=
  service (mkAuthRequest application device credential as_device).

Definition device_cert (certs : list string) : result (string * string) AuthError :=
  match certs with
  | cert :: _ => ok_or (AuthRequest "Failed to parse client certificate") (cert_names cert)
  | [] => Err (AuthRequest "Empty client certificate chain")
  end.

(** The issuer is the application, the subject the device. *)
Definition ids_from_cert (certs : list string) : result (string * string) AuthError :=
  device_cert certs.

Definition authenticate_cert (certs : list string) : result Authn.Outcome AuthError :=
  let? (app_id, device_id) := ids_from_cert certs in
  authenticate_with app_id device_id (Authn.Certificate certs) None.

Definition authenticate_verified_identity (identity : VerifiedIdentity)
    : result Authn.Outcome AuthError :=
  Ok (Authn.Pass (vi_application identity) (vi_device identity) None).

Definition authenticate_http (application device : option string) (auth : option string)
    (certs : option (list string)) (verified_identity : option VerifiedIdentity)
    (as_device : option string) : result Authn.Outcome AuthError :=
  match application, device, auth_value_from <$> auth, certs, verified_identity with
  | None, None, Some (Basic (Scoped scope device) password), None, None =>
      authenticate_with scope device (Authn.Password password) as_device
  | Some scope, None, Some (Basic username password), None, None =>
      authenticate_with scope (into_string username) (Authn.Password password) as_device
  | Some scope, Some device, Some (Basic username password), None, None =>
      authenticate_with scope device (Authn.UsernamePassword (into_string username) password)
        as_device
  | None, Some device, Some (Basic (Scoped scope username) password), None, None =>
      authenticate_with scope device (Authn.UsernamePassword username password) as_device
  | None, None, None, Some certs, None => authenticate_cert certs
  | None, None, None, None, Some identity => authenticate_verified_identity identity
  | _, _, _, _, _ => Ok Authn.Fail
  end.

Definition authenticate_coap (application device : option string) (auth : option string)
    (certs : option (list string)) (verified_identity : option VerifiedIdentity)
    : result Authn.Outcome AuthError :=
  match application, device, auth_value_from <$> auth, certs, verified_identity with
  | None, None, Some (Basic (Scoped scope device) password), None, None =>
      authenticate_with scope device (Authn.Password password) None
  | Some scope, None, Some (Basic username password), None, None =>
      authenticate_with scope (into_string username) (Authn.Password password) None
  | Some scope, Some device, Some (Basic username password), None, None =>
      authenticate_with scope device (Authn.UsernamePassword (into_string username) password) None
  | None, Some device, Some (Basic (Scoped scope username) password), None, None =>
      authenticate_with scope device (Authn.UsernamePassword username password) None
  | None, None, None, Some certs, None => authenticate_cert certs
  | None, None, None, None, Some identity => authenticate_verified_identity identity
  | _, _, _, _, _ => Ok Authn.Fail
  end.

Definition authenticate_mqtt (username password : option string) (client_id : string)
    (certs : option (list string)) (verified_identity : option VerifiedIdentity)
    : result Authn.Outcome AuthError :=
  match username_from <$> username, password, username_from client_id, certs, verified_identity with
  | Some (Scoped scope device), Some password, _, None, None =>
      authenticate_with scope device (Authn.Password password) None
  | Some (NonScoped username), Some password, Scoped scope device, None, None =>
      authenticate_with scope device (Authn.UsernamePassword username password) None
  | None, None, _, Some certs, None => authenticate_cert certs
  | None, None, _, None, Some identity => authenticate_verified_identity identity
  | _, _, _, _, _ => Ok Authn.Fail
  end.

(** ** The pre-shared key callback of the TLS servers

    The identity sent by the client, and the size of the buffer for the key:
    the bytes copied to the buffer, and the identity remembered with the
    connection. *)
Definition psk_callback
    (request_psk : string → string → result Authn.PreSharedKeyOutcome AuthError)
    (identity : option string) (size : nat) : string * option VerifiedIdentity :=
  match (identity ≫= from_utf8) ≫= identity_parse with
  | Some identity =>
      match request_psk (id_application identity) (id_device identity) with
      | Ok (Authn.Found app device key) =>
          let to_copy := Nat.min (String.length (Reg.psk_key key)) size in
          (Stdlib.Strings.String.substring 0 to_copy (Reg.psk_key key), Some (mkVerified app device))
      | _ => (EmptyString, None)
      end
  | None => (EmptyString, None)
  end.

(** ** What is presented *)

(** The password a header carries. *)
Definition header_password (auth : option string) : option string :=
  match auth_value_from <$> auth with
  | Some (Basic _ password) => Some password
  | _ => None
  end.

(** A request that carries the given credential. *)
Definition carries (password : option string) (certs : option (list string))
    (cred : Authn.Credential) : Prop :=
  match cred with
  | Authn.Password p | Authn.UsernamePassword _ p => password = Some p ∧ certs = None
  | Authn.Certificate chain => password = None ∧ certs = Some chain ∧ ∃ names, ids_from_cert chain = Ok names
  end.

(** What can lead to a pass: one request to the service, with the only
    credentials presented, or a verified identity and nothing else. *)
Definition passes_by (password : option string) (certs : option (list string))
    (identity : option VerifiedIdentity) (as_device : option string)
    (a : Reg.Application) (d : Reg.Device) (x : option Reg.Device) : Prop :=
  (identity = None ∧ ∃ rq, service rq = Ok (Authn.Pass a d x) ∧
     carries password certs (rq_credential rq) ∧ (rq_as rq = as_device ∨ rq_as rq = None)) ∨
  (identity = Some (mkVerified a d) ∧ password = None ∧ certs = None ∧ x = None).

Lemma authenticate_cert_pass certs a d x :
  authenticate_cert certs = Ok (Authn.Pass a d x) →
  ∃ rq, service rq = Ok (Authn.Pass a d x) ∧ rq_credential rq = Authn.Certificate certs ∧
    rq_as rq = None ∧ ∃ names, ids_from_cert certs = Ok names.
Proof.
  unfold authenticate_cert. intros ([app dev] & Hi & Hs)%rbind_ok_inv.
  eexists. split; [exact Hs|]. split_and!; eauto.
Qed.

Lemma authenticate_http_passes application device auth certs identity as_device a d x :
  authenticate_http application device auth certs identity as_device = Ok (Authn.Pass a d x) →
  passes_by (header_password auth) certs identity as_device a d x.
Proof.
  unfold authenticate_http, passes_by, header_password. intros Ha.
  destruct application, device, (auth_value_from <$> auth) as [[[]| |]|], certs, identity as [[]|];
    try done; try (left; split; [done|]; eexists; split; [exact Ha|]; simpl; by auto).
  - left. apply authenticate_cert_pass in Ha as (rq & Hs & Hc & Hr & Hn). split; [done|]. exists rq.
    split; [done|]. rw Hc. simpl. split_and!; eauto.
  - right. injection Ha as <- <- <-. by split_and!.
Qed.

Lemma authenticate_mqtt_passes username password client_id certs identity a d x :
  authenticate_mqtt username password client_id certs identity = Ok (Authn.Pass a d x) →
  passes_by password certs identity None a d x.
Proof.
  unfold authenticate_mqtt, passes_by. intros Ha.
  destruct (username_from <$> username) as [[]|], password, (username_from client_id), certs,
    identity as [[]|]; try done; try (left; split; [done|]; eexists; split; [exact Ha|]; simpl; by auto).
  all: try (right; injection Ha as <- <- <-; by split_and!).
  all: left; apply authenticate_cert_pass in Ha as (rq & Hs & Hc & Hr & Hn); (split; [done|]); exists rq;
    (split; [done|]); rw Hc; simpl; eauto.
Qed.

(** The CoAP endpoint authenticates like the HTTP endpoint does for a request
    that does not act for another device, whatever is presented. *)
Lemma coap_is_http_without_as application device auth certs identity :
  authenticate_coap application device auth certs identity =
  authenticate_http application device auth certs identity None.
Proof. done. Qed.

(** ** Names *)

Lemma username_scoped d scope :
  has_char "@" d = false → username_from (d +:+ "@" +:+ scope) = Scoped scope (percent_decode d).
Proof. intros Hd. unfold username_from. by rw split_once_app. Qed.

Lemma identity_roundtrip a d :
  has_char "@" d = false → identity_parse (d +:+ "@" +:+ a) = Some (mkIdentity a d).
Proof. intros Hd. unfold identity_parse. by rw split_once_app. Qed.
End EndpointAuth.

(** ** With the authentication service *)

Section WithService.
Context `{AuthCodecs, UuidCodec, ClientApi, AuthApi}.
(** Calls of the service may fail; what it answers is its outcome on the
    registry at that time. *)
Context (service : AuthenticationRequest → result Authn.Outcome AuthError) (now : Z) (db : Db).
Context (Hservice : ∀ rq o, service rq = Ok o → o = authenticate now rq db).

(** A device that presented a password or a certificate chain, and nothing
    else, and was authenticated with it. *)
Definition presented (password : option string) (certs : option (list string))
    (as_device : option string) (a : Reg.Application) (d : Reg.Device) (x : option Reg.Device) : Prop :=
  ∃ rq, authenticated now rq db a d x ∧ carries password certs (rq_credential rq) ∧
    (rq_as rq = as_device ∨ rq_as rq = None).

Lemma passes_presented password certs identity as_device a d x :
  passes_by service password certs identity as_device a d x →
  (identity = None ∧ presented password certs as_device a d x) ∨
  (identity = Some (mkVerified a d) ∧ password = None ∧ certs = None ∧ x = None).
Proof using Hservice.
  intros [(-> & rq & Hs & Hc & Has)|Hid]; [left|by right]. split; [done|]. exists rq.
  split; [|done]. apply authenticate_sound. symmetry. by apply Hservice.
Qed.

(** A device whose pre-shared key the TLS handshake used: the client sent its
    name, the application and the device exist and are not being deleted, the
    application is not disabled, and the secret is (the part that fits of) a key
    of the device that was valid at that time. *)
Definition psk_verified (now0 : Z) (db0 : Db) (sent : option string) (size : nat) (secret : string)
    (a : Reg.Application) (d : Reg.Device) : Prop :=
  ∃ text app_name name app dev key,
    sent ≫= from_utf8 = Some text ∧ identity_parse text = Some (mkIdentity app_name name) ∧
    AppAccessor.lookup app_name db0 = Some app ∧ App.deletion_timestamp app = None ∧
    section_core (app_into app) ≠ Some (Ok true) ∧
    DevAccessor.lookup (App.name app) name db0 = Some dev ∧ Dev.deletion_timestamp dev = None ∧
    locate_psk now0 (device_into dev) = Some key ∧
    a = app_into app ∧ d = strip_credentials (device_into dev) ∧
    secret = Stdlib.Strings.String.substring 0 (Nat.min (String.length (Reg.psk_key key)) size) (Reg.psk_key key).

Lemma psk_callback_sound request_psk now0 db0 sent size secret a d :
  (∀ app dev o, request_psk app dev = Ok o → o = request_key now0 app dev db0) →
  psk_callback request_psk sent size = (secret, Some (mkVerified a d)) →
  psk_verified now0 db0 sent size secret a d.
Proof.
  intros Hpsk. unfold psk_callback. destruct (sent ≫= from_utf8) as [text|] eqn:Hs; [|done]. simpl.
  destruct (identity_parse text) as [[an n]|] eqn:Hp; [|done]. simpl.
  destruct (request_psk an n) as [[a' d' key|]|] eqn:Hr; try done. intros [= <- <- <-].
  apply Hpsk in Hr. unfold request_key in Hr.
  destruct (AppAccessor.lookup an db0) as [app|] eqn:Ha; [|done].
  destruct (validate_app (app_into app)) eqn:Hv; [|done]. simpl in Hr.
  destruct (DevAccessor.lookup _ n db0) as [dev|] eqn:Hd; [|done].
  destruct (locate_psk now0 (device_into dev)) as [k|] eqn:Hk; [|done]. simplify_eq.
  exists text, an, n, app, dev, k. split_and!; try done; clear Hpsk.
  - revert Hv. unfold validate_app. simpl. by destruct (App.deletion_timestamp app).
  - revert Hv. unfold validate_app. case_bool_decide; [done|]. by destruct (section_core _) as [[[]|]|].
  - revert Hk. unfold locate_psk. simpl. by destruct (Dev.deletion_timestamp dev).
Qed.

(** The outcome of the TLS handshake: the secret, and the identity remembered
    with the connection, which the callback took from the authentication service
    as the registry was then. *)
Context (request_psk : string → string → result Authn.PreSharedKeyOutcome AuthError) (now0 : Z) (db0 : Db).
Context (Hpsk : ∀ app dev o, request_psk app dev = Ok o → o = request_key now0 app dev db0).

(** Why a device got past an endpoint. *)
Definition let_in (password : option string) (certs : option (list string)) (as_device : option string)
    (sent : option string) (size : nat) (secret : string)
    (a : Reg.Application) (d : Reg.Device) (x : option Reg.Device) : Prop :=
  presented password certs as_device a d x ∨
  (psk_verified now0 db0 sent size secret a d ∧ password = None ∧ certs = None ∧ x = None).

Lemma passes_let_in password certs identity as_device sent size secret a d x :
  psk_callback request_psk sent size = (secret, identity) →
  passes_by service password certs identity as_device a d x →
  let_in password certs as_device sent size secret a d x.
Proof using Hservice Hpsk.
  intros Hid [[_ Hp]|(-> & Hp)]%passes_presented; [by left|right]. split; [|done].
  by eapply psk_callback_sound.
Qed.


(** Names that do not arrive: with the application given as a parameter, a
    user name with a scope is put back together the wrong way round, and the
    request is for another device; and with a client certificate, the device to
    act for is not passed on. *)
Theorem names_not_passed_on :
  (∀ app d scope auth password as_device,
     has_char "@" d = false → auth_value_from auth = Basic (username_from (d +:+ "@" +:+ scope)) password →
     authenticate_http service (Some app) None (Some auth) None None as_device
     = service (mkAuthRequest app (scope +:+ "@" +:+ percent_decode d) (Authn.Password password) as_device)) ∧
  (∀ certs app d as_device, ids_from_cert certs = Ok (app, d) →
     authenticate_http service None None None (Some certs) None as_device
     = service (mkAuthRequest app d (Authn.Certificate certs) None)).
Proof.
  split.
  - intros app d scope auth password as_device Hd Ha. unfold authenticate_http. simpl. rw Ha username_scoped //.
  - intros certs app d as_device Hi. unfold authenticate_http, authenticate_cert. simpl. by rw Hi.
Qed.
End WithService.
