(* ===== verification/HttpEndpoint.v ===== *)
(** * The HTTP endpoint

    What devices publish over HTTP: [http-endpoint/src/telemetry.rs],
    [downstream.rs], [command.rs], the uplinks of The Things Network
    ([ttn/mod.rs], [v2.rs], [v3.rs]), the callbacks of the TLS connection
    ([lib.rs]) and the errors of [endpoint-common/src/error.rs].  The web
    server, the decoding of uplinks and the typed sections of an application
    are those of the crates used. *)

From S2P Require Import Prelude Json Store Registry DeviceAuth CloudEvents Commands Pipeline EndpointAuth.

(** ** Errors, [endpoint-common/src/error.rs] *)

Inductive EndpointError : Type :=
| InvalidFormat (source : string)
| InvalidRequest (details : string)
| ConfigurationError (details : string)
| AuthenticationServiceError (source : AuthError)
| AuthenticationError.

Definition error_name (e : EndpointError) : string :=
  match e with
  | InvalidFormat _ => "InvalidFormat"
  | InvalidRequest _ => "InvalidRequest"
  | ConfigurationError _ => "ConfigurationError"
  | AuthenticationServiceError _ => "AuthenticationServiceError"
  | AuthenticationError => "AuthenticationError"
  end.

Definition error_status (e : EndpointError) : Z :=
  match e with
  | InvalidFormat _ => 400
  | InvalidRequest _ => 400
  | ConfigurationError _ => 500
  | AuthenticationServiceError _ => 503
  | AuthenticationError => 403
  end.

(** [Display]; that of the error of the service's client is a parameter. *)
Definition error_display (client_error : AuthError → string) (e : EndpointError) : string :=
  match e with
  | InvalidFormat source => "Invalid data format: " +:+ source
  | InvalidRequest details => "Invalid data: " +:+ details
  | ConfigurationError details => "Endpoint configuration error: " +:+ details
  | AuthenticationServiceError source => "Failed to authenticate: " +:+ client_error source
  | AuthenticationError => "Authentication failed"
  end.

(** ** Responses *)

Inductive HttpBody : Type :=
| NoBody
| Bytes (content_type : option string) (b : string)
| ErrorBody (code : option Z) (error message : string).

Record HttpResponse := mkHttp {
  hr_status : Z;
  hr_headers : list (string * string);
  hr_body : HttpBody;
}.

Definition finish_with (status : Z) : HttpResponse := mkHttp status [] NoBody.

Definition error_response (client_error : AuthError → string) (e : EndpointError) : HttpResponse :=
  mkHttp (error_status e) []
    (ErrorBody (Some (error_status e)) (error_name e) (error_display client_error e)).

(** What a handler that publishes does next: it answers, or waits for a command
    with the filter, for the given number of seconds. *)
Inductive Reply (R : Type) : Type :=
| Answer (r : R)
| AwaitCommand (filter : CommandFilter) (ttd : option Z).
Arguments Answer {R} r.
Arguments AwaitCommand {R} filter ttd.

Definition HEADER_COMMAND : string := "command".

(** The end of [wait_for_command]; a command whose name is not a valid header
    value makes the builder fail. *)
Definition wait_answer (header_valid : string → bool) (header_error : HttpResponse)
    (received : option Command) : HttpResponse :=
  match received with
  | Some cmd =>
      if header_valid (cmd_command cmd) then
        mkHttp 200 [(HEADER_COMMAND, cmd_command cmd)] (Bytes None (default "" (cmd_payload cmd)))
      else header_error
  | None => finish_with 202
  end.

(** ** Publishing for a device, [sender/mod.rs] *)

Record PublishIdPair := mkIdPair { ip_device : PublishId; ip_sender : PublishId }.

Definition with_devices (device : Reg.Device) (as_device : option Reg.Device) : PublishIdPair :=
  mkIdPair match as_device with Some as_device => to_id as_device | None => to_id device end
    (to_id device).

(** The two typed sections with rules of an application. *)
Class PublishSections `{Externals} := {
  section_commands : Reg.Application → option (result (list (Rule Endpoint)) string);
  section_publish : Reg.Application → option (result (list (Rule Endpoint)) string);
}.

Definition publish_app `{PublishSections} (a : Reg.Application) : PublishApp (list (Rule Endpoint)) :=
  mkPublishApp (Reg.a_name a) (Reg.a_uid a) (section_commands a) (section_publish a).

Definition publish_http_default (outcome : result PublishOutcome PublishError) : HttpResponse :=
  match outcome with
  | Ok PAccepted => finish_with 202
  | Ok PRejected => finish_with 406
  | Ok PQueueFull => finish_with 503
  | Err err => mkHttp 500 [] (Bytes (Some "text/plain") (publish_error_display err))
  end.

(** ** Requests *)

Record PublishCommonOptions := mkCommonOptions {
  co_application : option string;
  co_device : option string;
  co_data_schema : option string;
}.

Record QueryOptions := mkQueryOptions {
  qo_common : PublishCommonOptions;
  qo_as : option string;
  qo_ct : option Z;
}.

(** The headers the handlers read, and what the connection carries. *)
Record HttpRequest := mkHttpRequest {
  hq_authorization : option string;
  hq_content_type : option string;
  hq_certs : option (list string);
  hq_identity : option VerifiedIdentity;
}.

(** The data attached to a connection is found by its type: [ClientCertificateChain],
    [VerifiedIdentity] and [Option<VerifiedIdentity>] are three. *)
Record Extensions := mkExtensions {
  ex_certs : option (list string);
  ex_identity : option VerifiedIdentity;
  ex_option_identity : option (option VerifiedIdentity);
}.

(** [on_connect], given what [from_socket] returns. *)
Definition on_connect (disable_tls_psk : bool) (psk : option VerifiedIdentity)
    (cert : option (list string)) (ext : Extensions) : Extensions :=
  let psk := if disable_tls_psk then None else psk in
  let ext :=
    match cert with
    | Some (_ :: _ as cert) => mkExtensions (Some cert) (ex_identity ext) (ex_option_identity ext)
    | _ => ext
    end in
  mkExtensions (ex_certs ext) (ex_identity ext) (Some psk).

(** The arguments of the handlers: the headers, and what the extractors of
    [ClientCertificateChain] and [VerifiedIdentity] find. *)
Definition extract (authorization content_type : option string) (ext : Extensions) : HttpRequest :=
  mkHttpRequest authorization content_type (ex_certs ext) (ex_identity ext).

(** ** Uplinks of The Things Network *)

Record Uplink := mkUplink {
  up_device_id : string;
  up_port : string;
  up_time : Z;
  up_is_retry : option bool;
  up_hardware_address : string;
  up_payload_raw : string;
  up_payload_fields : Value;
}.

(** [drogue_ttn]'s messages, with the fields that are used. *)
Record V2Uplink := mkV2 {
  v2_dev_id : string;
  v2_port : Z;
  v2_time : Z;
  v2_is_retry : bool;
  v2_hardware_serial : string;
  v2_payload_raw : string;
  v2_payload_fields : Value;
}.

Record V3Uplink := mkV3Uplink {
  v3_frame_port : Z;
  v3_received_at : Z;
  v3_frame_payload : string;
  v3_decoded_payload : option Value;
}.

Inductive V3Payload : Type :=
| PayloadUplink (uplink : V3Uplink)
| PayloadOther.

Record V3Message := mkV3 {
  v3_device_id : string;
  v3_dev_addr : string;
  v3_payload : V3Payload;
}.

Class TtnCodec := {
  v2_from_slice : string → result V2Uplink string;
  v3_from_slice : string → result V3Message string;
  value_to_string : Value → string;
}.

Definition bool_to_string (b : bool) : string := if b then "true" else "false".

(** [value[key]] of [serde_json] *)
Definition value_index (v : Value) (key : string) : Value :=
  match v with
  | Object m => default Null (map_get key m)
  | _ => Null
  end.

Definition as_str (v : Value) : option string :=
  match v with
  | Str s => Some s
  | _ => None
  end.

Definition get_spec (device : Reg.Device) (as_device : option Reg.Device) (key : string) : Value :=
  default Null (map_get key (Reg.d_spec (default device as_device))).

Definition eval_data_schema (model_id : option string) (device : Reg.Device)
    (as_device : option Reg.Device) (port : string) : option string :=
  match model_id with
  | Some model_id => Some model_id
  | None =>
      as_str (value_index (value_index (value_index (get_spec device as_device "lorawan") "ports") port)
        "data_schema")
  end.

Definition uplink_extensions (uplink : Uplink) : list (string * string) :=
  ("lorawanport", up_port uplink) ::
  match up_is_retry uplink with
  | Some is_retry => [("lorawanretry", bool_to_string is_retry)]
  | None => []
  end ++ [("hwaddr", up_hardware_address uplink)].

Section HttpEndpoint.
Context `{AuthCodecs, Externals, !PublishSections, CloudEventsSdk, TtnCodec}.
(** The authentication service, and the parameters of the publisher. *)
Context (service : AuthenticationRequest → result Authn.Outcome AuthError).
Context (percent_encode : string → string) (from_slice : string → option Value) (instance : string).

(** The start of the handlers: authentication. *)
Definition authenticate_request (application device : option string) (req : HttpRequest)
    (as_device : option string)
    : result (Reg.Application * Reg.Device * option Reg.Device) EndpointError :=
  let? outcome := map_err AuthenticationServiceError
    (authenticate_http service application device (hq_authorization req) (hq_certs req)
      (hq_identity req) as_device) in
  match outcome with
  | Authn.Fail => Err AuthenticationError
  | Authn.Pass application device as_device => Ok (application, device, as_device)
  end.

Section WithSink.
Context (sink : string → CE.Event → result PublishOutcome string).

(** [DownstreamSender] *)
Definition downstream_publish (fresh : string) (now : Z)
    (p : PublishRequest (list (Rule Endpoint))) (body : string) : result PublishOutcome PublishError :=
  publish percent_encode from_slice instance Downstream sink fresh now p body.

Definition publish_and_await (fresh : string) (now : Z) (p : PublishRequest (list (Rule Endpoint)))
    (ttd : option Z) (body : string) : Reply HttpResponse :=
  let filter := filter_proxied_device (pa_name (p_application p)) (pi_name (p_sender p))
    (pi_name (p_device p)) in
  match downstream_publish fresh now p body with
  | Ok PAccepted => AwaitCommand filter ttd
  | Ok PRejected => Answer (finish_with 406)
  | Ok PQueueFull => Answer (finish_with 503)
  | Err err =>
      Answer (mkHttp 500 [] (ErrorBody None "InternalError" (publish_error_display err)))
  end.

Definition http_publish (fresh : string) (now : Z) (channel : string) (suffix : option string)
    (opts : QueryOptions) (req : HttpRequest) (body : string)
    : result (Reply HttpResponse) EndpointError :=
  let? (application, device, as_device) :=
    authenticate_request (co_application (qo_common opts)) (co_device (qo_common opts)) req
      (qo_as opts) in
  let ids := with_devices device as_device in
  Ok (publish_and_await fresh now
        (mkPublish (publish_app application) (ip_device ids) (ip_sender ids) channel
          (mkPublishOptions None suffix (co_data_schema (qo_common opts))
            (hq_content_type req ≫= header_to_str) [] None))
        (qo_ct opts) body).

Definition publish_plain (fresh : string) (now : Z) (channel : string) (opts : QueryOptions)
    (req : HttpRequest) (body : string) : result (Reply HttpResponse) EndpointError :=
  http_publish fresh now channel None opts req body.

Definition publish_tail (fresh : string) (now : Z) (path : string * string) (opts : QueryOptions)
    (req : HttpRequest) (body : string) : result (Reply HttpResponse) EndpointError :=
  let '(channel, suffix) := path in http_publish fresh now channel (Some suffix) opts req body.

Definition send_uplink (fresh : string) (now : Z) (application : Reg.Application)
    (device sender : PublishId) (port : string) (time : Z) (content_type data_schema : option string)
    (extensions : list (string * string)) (body : string) : HttpResponse :=
  publish_http_default (downstream_publish fresh now
    (mkPublish (publish_app application) device sender port
      (mkPublishOptions (Some time) None data_schema content_type extensions None)) body).

(** What is published of an uplink: the raw payload, its fields or the whole
    message, as the device is configured. *)
Definition uplink_body (device : Reg.Device) (as_device : option Reg.Device) (uplink : Uplink)
    (body : string) : string * option string :=
  let payload := default "" (as_str (value_index (get_spec device as_device "ttn") "payload")) in
  if string_eqb payload "raw" then (up_payload_raw uplink, Some "application/octet-stream")
  else if string_eqb payload "fields" then
    (value_to_string (up_payload_fields uplink), Some "application/json")
  else (body, None).

Definition publish_uplink (fresh : string) (now : Z) (opts : PublishCommonOptions)
    (req : HttpRequest) (body : string) (uplink : Uplink) : result HttpResponse EndpointError :=
  let? (application, device, as_device) :=
    authenticate_request (co_application opts) (co_device opts)
      (mkHttpRequest (hq_authorization req) (hq_content_type req) (hq_certs req) None)
      (Some (up_device_id uplink)) in
  let data_schema := eval_data_schema (co_data_schema opts) device as_device (up_port uplink) in
  let '(body, content_type) := uplink_body device as_device uplink body in
  let ids := with_devices device as_device in
  Ok (send_uplink fresh now application (ip_device ids) (ip_sender ids) (up_port uplink)
        (up_time uplink) content_type data_schema (uplink_extensions uplink) body).

Definition publish_v2 (fresh : string) (now : Z) (opts : PublishCommonOptions) (req : HttpRequest)
    (body : string) : result HttpResponse EndpointError :=
  let? uplink := map_err InvalidFormat (v2_from_slice body) in
  publish_uplink fresh now opts req body
    (mkUplink (v2_dev_id uplink) (pretty.pretty (v2_port uplink)) (v2_time uplink)
      (Some (v2_is_retry uplink)) (v2_hardware_serial uplink) (v2_payload_raw uplink)
      (v2_payload_fields uplink)).

Definition publish_v3 (fresh : string) (now : Z) (opts : PublishCommonOptions) (req : HttpRequest)
    (body : string) : result HttpResponse EndpointError :=
  let? msg := map_err InvalidFormat (v3_from_slice body) in
  let? uplink :=
    match v3_payload msg with
    | PayloadUplink uplink => Ok uplink
    | PayloadOther => Err (InvalidRequest "Invalid message type, expected 'Uplink'")
    end in
  publish_uplink fresh now opts req body
    (mkUplink (v3_device_id msg) (pretty.pretty (v3_frame_port uplink)) (v3_received_at uplink) None
      (v3_dev_addr msg) (v3_frame_payload uplink) (default Null (v3_decoded_payload uplink))).
End WithSink.
End HttpEndpoint.

(** ** What reaches the sink *)

Section HttpProofs.
Context `{AuthCodecs, Externals, !PublishSections, CloudEventsLaws, TtnCodec}.
Context `{UuidCodec, ClientApi, AuthApi}.
Context (service : AuthenticationRequest → result Authn.Outcome AuthError) (now : Z) (db : Db).
Context (Hservice : ∀ rq o, service rq = Ok o → o = authenticate now rq db).
Context (percent_encode : string → string) (from_slice : string → option Value) (instance : string).

(** The devices a request may publish for: the ones it was authenticated as. *)
Definition request_for (req : HttpRequest) (as_device : option string) (a : Reg.Application)
    (d : Reg.Device) (x : option Reg.Device) : Prop :=
  (hq_identity req = None ∧
     presented now db (header_password (hq_authorization req)) (hq_certs req) as_device a d x) ∨
  (hq_identity req = Some (mkVerified a d) ∧ header_password (hq_authorization req) = None ∧
     hq_certs req = None ∧ x = None).

(** Two sinks agree on what the publish rules of the application make of the
    events a request may publish. *)
Definition sinks_agree (req : HttpRequest) (as_device : option string)
    (sink1 sink2 : string → CE.Event → result PublishOutcome string) : Prop :=
  ∀ a d x e, request_for req as_device a d x →
    published instance Downstream (publish_app a) (Reg.d_name (default d x)) (Reg.d_name d) e →
    sink1 (Reg.a_name a) e = sink2 (Reg.a_name a) e.

Lemma authenticate_request_for application device req as_device a d x :
  authenticate_request service application device req as_device = Ok (a, d, x) →
  request_for req as_device a d x.
Proof.
  unfold authenticate_request. intros (o & Ho & Hm)%rbind_ok_inv.
  destruct (authenticate_http _ _ _ _ _ _ _) as [o'|] eqn:Ha; simplify_eq/=.
  destruct o as [a' d' x'|]; simplify_eq. eapply passes_presented; [done|].
  by eapply authenticate_http_passes.
Qed.

Lemma downstream_publish_sinks sink1 sink2 req as_device fresh tm a d x channel options body :
  request_for req as_device a d x → sinks_agree req as_device sink1 sink2 →
  (∀ n, n ∈ origin_extensions → n ∉ (po_extensions options).*1) →
  let p := mkPublish (publish_app a) (ip_device (with_devices d x)) (ip_sender (with_devices d x))
    channel options in
  downstream_publish percent_encode from_slice instance sink1 fresh tm p body
  = downstream_publish percent_encode from_slice instance sink2 fresh tm p body.
Proof.
  intros Hreq Hagree Hext p. apply publish_sinks_published; [done|].
  intros e He. apply (Hagree a d x e Hreq). by destruct x.
Qed.


(** Pre-shared keys do not work over HTTP: the identity of a connection is
    stored as an optional one and looked for as a plain one, so that handlers
    never see it, and a request of a device that has nothing but its key is
    refused, whatever it asks for. *)
Theorem http_psk_not_found disable psk cert authorization content_type :
  hq_identity (extract authorization content_type (on_connect disable psk cert (mkExtensions None None None))) = None ∧
  ∀ sink fresh tm channel suffix opts body,
    http_publish service percent_encode from_slice instance sink fresh tm channel suffix opts
      (extract None content_type (on_connect disable psk None (mkExtensions None None None))) body
    = Err AuthenticationError.
Proof.
  split; [by destruct cert as [[]|]|]. intros. unfold http_publish, authenticate_request, authenticate_http.
  simpl. by destruct (co_application (qo_common opts)), (co_device (qo_common opts)).
Qed.
End HttpProofs.
