(* ===== verification/CoapEndpoint.v ===== *)
(** * The CoAP endpoint

    What devices publish over CoAP: [coap-endpoint/src/lib.rs] (the handler and
    the parsing of the path), [telemetry.rs], [downstream.rs], [command.rs],
    [error.rs] and [response.rs].  Packets are those of the [coap_lite] crate,
    the DTLS session is a third-party one. *)

From S2P Require Import Prelude Json Store Registry DeviceAuth CloudEvents Commands Pipeline EndpointAuth HttpEndpoint.

(** ** Content formats, [coap_lite]'s with a media type in [telemetry.rs] *)

Inductive ContentFormat : Type :=
| TextPlain
| ApplicationCoseEncrypt0
| ApplicationCoseMac0
| ApplicationCoseSign1
| ApplicationAceCbor
| ImageGif
| ImageJpeg
| ImagePng
| ApplicationLinkFormat
| ApplicationXML
| ApplicationOctetStream
| ApplicationEXI
| ApplicationJSON
| ApplicationJsonPatchJson
| ApplicationMergePatchJson
| ApplicationCBOR
| ApplicationCWt
| ApplicationMultipartCore
| ApplicationCborSeq
| ApplicationCoseEncrypt
| ApplicationCoseMac
| ApplicationCoseSign
| ApplicationCoseKey
| ApplicationCoseKeySet
| ApplicationSenmlJSON
| ApplicationSensmlJSON
| ApplicationSenmlCBOR
| ApplicationSensmlCBOR
| ApplicationSenmlExi
| ApplicationSensmlExi
| ApplicationYangDataCborSid
| ApplicationCoapGroupJson
| ApplicationDotsCbor
| ApplicationMissingBlocksCborSeq
| ApplicationPkcs7MimeServerGeneratedKey
| ApplicationPkcs7MimeCertsOnly
| ApplicationPkcs8
| ApplicationCsrattrs
| ApplicationPkcs10
| ApplicationPkixCert
| ApplicationAifCbor
| ApplicationAifJson
| ApplicationSenmlXML
| ApplicationSensmlXML
| ApplicationSenmlEtchJson
| ApplicationSenmlEtchCbor
| ApplicationYangDataCbor
| ApplicationYangDataCborName
| ApplicationTdJson
| ApplicationVoucherCoseCbor
| ApplicationVndOcfCbor
| ApplicationOscore
| ApplicationJavascript
| ApplicationJsonDeflate
| ApplicationCborDeflate
| ApplicationVndOmaLwm2mTlv
| ApplicationVndOmaLwm2mJson
| ApplicationVndOmaLwm2mCbor
| TextCss
| ImageSvgXml
| OtherFormat.

Definition quoted (a b : string) : string :=
  let q := String (Ascii.ascii_of_nat 34) EmptyString in a +:+ q +:+ b +:+ q.

Definition content_format_to_media_type (value : ContentFormat) : option string :=
  match value with
  | TextPlain => Some "text/plain; charset=utf-8"
  | ApplicationCoseEncrypt0 => Some (quoted "application/cose; cose-type=" "cose-encrypt0")
  | ApplicationCoseMac0 => Some (quoted "application/cose; cose-type=" "cose-emac0")
  | ApplicationCoseSign1 => Some (quoted "application/cose; cose-type=" "cose-sign1")
  | ApplicationAceCbor => Some "application/ace+cbor"
  | ImageGif => Some "image/gif"
  | ImageJpeg => Some "image/jpeg"
  | ImagePng => Some "image/png"
  | ApplicationLinkFormat => Some "application/link-format"
  | ApplicationXML => Some "application/xml"
  | ApplicationOctetStream => Some "application/octet-stream"
  | ApplicationEXI => Some "application/exi"
  | ApplicationJSON => Some "application/json"
  | ApplicationJsonPatchJson => Some "application/json-patch+json"
  | ApplicationMergePatchJson => Some "application/merge-patch+json"
  | ApplicationCBOR => Some "application/cbor"
  | ApplicationCWt => Some "application/cwt"
  | ApplicationMultipartCore => Some "application/multipart-core"
  | ApplicationCborSeq => Some "application/cbor-seq"
  | ApplicationCoseEncrypt => Some (quoted "application/cose; cose-type=" "cose-encrypt")
  | ApplicationCoseMac => Some (quoted "application/cose; cose-type=" "cose-mac")
  | ApplicationCoseSign => Some (quoted "application/cose; cose-type=" "cose-sign")
  | ApplicationCoseKey => Some "application/cose-key"
  | ApplicationCoseKeySet => Some "application/cose-key-set"
  | ApplicationSenmlJSON => Some "application/senml+json"
  | ApplicationSensmlJSON => Some "application/sensml+json"
  | ApplicationSenmlCBOR => Some "application/senml+cbor"
  | ApplicationSensmlCBOR => Some "application/sensml+cbor"
  | ApplicationSenmlExi => Some "application/senml+exi"
  | ApplicationSensmlExi => Some "application/sensml+exi"
  | ApplicationYangDataCborSid => Some "application/yang-data+cbor; id=sid"
  | ApplicationCoapGroupJson => Some "application/coap-group+json"
  | ApplicationDotsCbor => Some "application/concise-problem-details+cbor"
  | ApplicationMissingBlocksCborSeq => Some "application/missing-blocks+cbor-seq"
  | ApplicationPkcs7MimeServerGeneratedKey => Some "application/pkcs7-mime; smime-type=server-generated-key"
  | ApplicationPkcs7MimeCertsOnly => Some "application/pkcs7-mime; smime-type=certs-only"
  | ApplicationPkcs8 => Some "application/pkcs8"
  | ApplicationCsrattrs => Some "application/csrattrs"
  | ApplicationPkcs10 => Some "application/pkcs10"
  | ApplicationPkixCert => Some "application/pkix-cert"
  | ApplicationAifCbor => Some "application/aif+cbor"
  | ApplicationAifJson => Some "application/aif+json"
  | ApplicationSenmlXML => Some "application/senml+xml"
  | ApplicationSensmlXML => Some "application/sensml+xml"
  | ApplicationSenmlEtchJson => Some "application/senml-etch+json"
  | ApplicationSenmlEtchCbor => Some "application/senml-etch+cbor"
  | ApplicationYangDataCbor => Some "application/yang-data+cbor"
  | ApplicationYangDataCborName => Some "application/yang-data+cbor; id=name"
  | ApplicationTdJson => Some "application/td+json"
  | ApplicationVoucherCoseCbor => Some "application/voucher-cose+cbor"
  | ApplicationVndOcfCbor => Some "application/vnd.ocf+cbor"
  | ApplicationOscore => Some "application/oscore"
  | ApplicationJavascript => Some "application/javascript"
  | ApplicationJsonDeflate => Some "application/json"
  | ApplicationCborDeflate => Some "application/cbor"
  | ApplicationVndOmaLwm2mTlv => Some "application/vnd.oma.lwm2m+tlv"
  | ApplicationVndOmaLwm2mJson => Some "application/vnd.oma.lwm2m+json"
  | ApplicationVndOmaLwm2mCbor => Some "application/vnd.oma.lwm2m+cbor"
  | TextCss => Some "text/css"
  | ImageSvgXml => Some "image/svg+xml"
  | OtherFormat => None
  end.

(** ** Packets *)

Inductive ResponseType : Type :=
| Content | Changed | NotAcceptable | ServiceUnavailable | BadRequest | InternalServerError | Forbidden.

Record CoapResponse := mkCoapResponse {
  cr_status : option ResponseType;
  cr_options : list (Z * string);
  cr_payload : string;
}.

Definition set_status (status : ResponseType) (r : CoapResponse) : CoapResponse :=
  mkCoapResponse (Some status) (cr_options r) (cr_payload r).
Definition set_payload (payload : string) (r : CoapResponse) : CoapResponse :=
  mkCoapResponse (cr_status r) (cr_options r) payload.
Definition add_option (number : Z) (value : string) (r : CoapResponse) : CoapResponse :=
  mkCoapResponse (cr_status r) (cr_options r ++ [(number, value)]) (cr_payload r).

(** The options of the message that are read; [cq_response] is the response
    [coap_lite] prepares, for a confirmable message. *)
Record CoapRequest := mkCoapRequest {
  cq_uri_path : option (list string);
  cq_uri_query : option (list string);
  cq_authorization : option (list string);
  cq_content_format : option ContentFormat;
  cq_payload : string;
  cq_response : option CoapResponse;
}.

Definition COMMAND_OPTION : Z := 4210.

Class CoapCodecs := {
  utf8_error : string → string;
  options_from_bytes : string → result QueryOptions string;
  header_from_bytes : string → option string;
}.

(** ** Errors, [error.rs] and [response.rs] *)

Definition coap_status_code (e : EndpointError) : ResponseType :=
  match e with
  | InvalidFormat _ => BadRequest
  | InvalidRequest _ => BadRequest
  | ConfigurationError _ => InternalServerError
  | AuthenticationServiceError _ => ServiceUnavailable
  | AuthenticationError => Forbidden
  end.

(** The answer to a request, if there is one. *)
Abbreviation CoapReply := (Reply (option CoapResponse)).

Definition respond_to (client_error : AuthError → string) (r : result CoapReply EndpointError)
    (req : CoapRequest) : CoapReply :=
  match r with
  | Ok val => val
  | Err e =>
      Answer (set_payload (error_display client_error e) <$>
        (set_status (coap_status_code e) <$> cq_response req))
  end.

(** The end of [wait_for_command]. *)
Definition coap_wait_answer (req : CoapRequest) (received : option Command) : option CoapResponse :=
  match received with
  | Some cmd =>
      (λ v, set_payload (default "" (cmd_payload cmd))
        (add_option COMMAND_OPTION (cmd_command cmd) (set_status Content v))) <$> cq_response req
  | None => (λ v, set_payload "" (set_status Changed v)) <$> cq_response req
  end.

Section CoapEndpoint.
Context `{AuthCodecs, CoapCodecs}.

(** ** Paths *)

(** The loop over the rest of the path. *)
Fixpoint subject_loop (segments : list string) (subject : string) : result string EndpointError :=
  match segments with
  | [] => Ok subject
  | i :: rest =>
      let? s := ok_or (InvalidRequest ("error parsing subject: " +:+ utf8_error i)) (from_utf8 i) in
      subject_loop rest (subject +:+ s +:+ "/")
  end.

(** [String::pop] *)
Definition pop (s : string) : string :=
  Stdlib.Strings.String.substring 0 (String.length s - 1) s.

Definition path_parser (ll : list string) : result (list string) EndpointError :=
  let? _ := ok_or (InvalidRequest "incorrect version number")
    (x ← head ll ≫= from_utf8; if string_eqb x "v1" then Some x else None) in
  let? channel := ok_or (InvalidRequest "error parsing channel") (head (tail ll) ≫= from_utf8) in
  let? subject := subject_loop (tail (tail ll)) "" in
  Ok (channel :: if is_empty subject then [] else [pop subject]).

Definition params (request : CoapRequest)
    : result (list string * option string * option string) string :=
  let? path_segments := ok_or "Error parsing path"
    (paths ← cq_uri_path request;
     match path_parser paths with Ok p => Some p | Err _ => None end) in
  Ok (path_segments, cq_uri_query request ≫= head, cq_authorization request ≫= head).

(** ** Handlers *)

Context `{Externals, !PublishSections, CloudEventsSdk}.
Context (client_error : AuthError → string).
Context (service : AuthenticationRequest → result Authn.Outcome AuthError).
Context (percent_encode : string → string) (from_slice : string → option Value) (instance : string).
Context (sink : string → CE.Event → result PublishOutcome string) (fresh : string) (now : Z).

Definition coap_publish_and_await (p : PublishRequest (list (Rule Endpoint))) (ttd : option Z)
    (req : CoapRequest) : result CoapReply EndpointError :=
  let filter := filter_proxied_device (pa_name (p_application p)) (pi_name (p_sender p))
    (pi_name (p_device p)) in
  match downstream_publish percent_encode from_slice instance sink fresh now p (cq_payload req) with
  | Ok PAccepted => Ok (AwaitCommand filter ttd)
  | Ok PRejected => Ok (Answer (set_status NotAcceptable <$> cq_response req))
  | Ok PQueueFull => Ok (Answer (set_status ServiceUnavailable <$> cq_response req))
  | Err err => Err (ConfigurationError (publish_error_display err))
  end.

Definition coap_publish (channel : string) (suffix : option string) (opts : QueryOptions)
    (req : CoapRequest) (auth : option string) (certs : option (list string))
    (verified_identity : option VerifiedIdentity) : result CoapReply EndpointError :=
  let? outcome := map_err AuthenticationServiceError
    (authenticate_coap service (co_application (qo_common opts)) (co_device (qo_common opts))
      (auth ≫= header_from_bytes) certs verified_identity) in
  match outcome with
  | Authn.Fail => Err AuthenticationError
  | Authn.Pass application device as_device =>
      let device := Reg.d_name device in
      let '(sender_id, device_id) :=
        match as_device with
        | Some as_device => (to_id device, to_id as_device)
        | None => (to_id device, to_id device)
        end in
      coap_publish_and_await
        (mkPublish (publish_app application) device_id sender_id channel
          (mkPublishOptions None suffix (co_data_schema (qo_common opts))
            (cq_content_format req ≫= content_format_to_media_type) [] None))
        (qo_ct opts) req
  end.

Definition default_options : QueryOptions := mkQueryOptions (mkCommonOptions None None None) None None.

Definition publish_handler (disable_psk : bool) (request : CoapRequest) (certs : option (list string))
    (identity : option VerifiedIdentity) : CoapReply :=
  let verified_identity := if disable_psk then None else identity in
  match params request with
  | Err e => respond_to client_error (Err (InvalidRequest e)) request
  | Ok (path_segments, queries, auth) =>
      let options :=
        default default_options
          (q ← queries; match options_from_bytes q with Ok o => Some o | Err _ => None end) in
      match path_segments with
      | [channel] =>
          respond_to client_error (coap_publish channel None options request auth certs verified_identity)
            request
      | [channel; suffix] =>
          match queries with
          | None => Answer None
          | Some q =>
              match options_from_bytes q with
              | Err _ => Answer None
              | Ok options =>
                  respond_to client_error
                    (coap_publish channel (Some suffix) options request auth certs verified_identity)
                    request
              end
          end
      | _ => respond_to client_error (Err (InvalidRequest "Invalid number of path arguments")) request
      end
  end.
End CoapEndpoint.

(** ** Paths *)

Section Paths.
Context `{AuthCodecs, CoapCodecs}.

Fixpoint slashed (l : list string) : string :=
  match l with
  | [] => EmptyString
  | x :: l => x +:+ "/" +:+ slashed l
  end.

Lemma slashed_join x l : slashed (x :: l) = join "/" (x :: l) +:+ "/".
Proof.
  revert x. induction l as [|y l IH]; intros x; [done|].
  cbn [slashed] in *. rw IH. cbn [join]. by rw !str_app_assoc.
Qed.

Lemma pop_slash s : pop (s +:+ "/") = s.
Proof.
  unfold pop. assert (Hl : String.length (s +:+ "/") = S (String.length s)).
  { induction s as [|c s IH]; [done|]. rw app_cons. simpl. by rw IH. }
  rw Hl /= Nat.sub_0_r. clear Hl. induction s as [|c s IH]; [done|]. rw app_cons. simpl. by rw IH.
Qed.

Lemma subject_loop_ok segs acc s :
  subject_loop segs acc = Ok s ↔ ∃ subject, mapM from_utf8 segs = Some subject ∧ s = acc +:+ slashed subject.
Proof.
  revert acc. induction segs as [|x segs IH]; intros acc; cbn [subject_loop].
  - simpl. split.
    + intros [= ->]. exists []. split; [done|]. simpl. by rw app_empty_r.
    + intros (subject & [= <-] & ->). simpl. by rw app_empty_r.
  - destruct (from_utf8 x) as [y|] eqn:Hx; simpl; rw Hx; simpl.
    + rw IH. destruct (mapM from_utf8 segs) as [subj|] eqn:Hm; simpl; [|naive_solver].
      split.
      * intros (? & [= <-] & ->). exists (y :: subj). split; [done|]. simpl. by rw !str_app_assoc.
      * intros (? & [= <-] & ->). exists subj. split; [done|]. simpl. by rw !str_app_assoc.
    + naive_solver.
Qed.

(** The path of a CoAP request is [v1], the channel, and the subject: parsing
    succeeds exactly for those whose segments are UTF-8 text, and gives the
    channel and, if there are more segments, the rest joined with slashes. *)
Theorem path_parser_correct ll p :
  path_parser ll = Ok p ↔
  ∃ v c segments channel subject, ll = v :: c :: segments ∧ from_utf8 v = Some "v1" ∧
    from_utf8 c = Some channel ∧ mapM from_utf8 segments = Some subject ∧
    p = channel :: match subject with [] => [] | _ => [join "/" subject] end.
Proof.
  unfold path_parser. destruct ll as [|v [|c segs]]; simpl.
  - split; [done|]. by intros (? & ? & ? & ? & ? & ? & _).
  - split; [|by intros (? & ? & ? & ? & ? & ? & _)].
    destruct (from_utf8 v) as [x|]; simpl; [|done]. by destruct (string_eqb x "v1").
  - destruct (from_utf8 v) as [x|] eqn:Hv; simpl; [|naive_solver].
    destruct (string_eqb_spec x "v1") as [->|Hne]; simpl; [|naive_solver congruence].
    destruct (from_utf8 c) as [channel|] eqn:Hc; simpl; [|naive_solver congruence].
    destruct (subject_loop segs "") as [s|e] eqn:Hs.
    + apply subject_loop_ok in Hs as (subject & Hm & ->). simpl. split.
      * intros [= <-]. exists v, c, segs, channel, subject. split_and!; try done.
        destruct subject as [|y subject]; [done|]. rw app_empty_l slashed_join pop_slash.
        by destruct (join "/" (y :: subject)).
      * intros (? & ? & ? & ? & ? & [= <- <- <-] & _ & Hc' & Hm' & ->). simplify_eq. f_equal. f_equal.
        destruct subject as [|y subject]; [done|]. rw app_empty_l slashed_join pop_slash.
        by destruct (join "/" (y :: subject)).
    + simpl. split; [done|]. intros (? & ? & ? & ? & subject & [= <- <- <-] & _ & _ & Hm & _).
      assert (Hs' : subject_loop segs "" = Ok ("" +:+ slashed subject)) by (apply subject_loop_ok; eauto).
      congruence.
Qed.
End Paths.

(** ** What reaches the sink *)

Section CoapProofs.
Context `{AuthCodecs, CoapCodecs, Externals, !PublishSections, CloudEventsLaws}.
Context `{UuidCodec, ClientApi, AuthApi}.
Context (client_error : AuthError → string).
Context (service : AuthenticationRequest → result Authn.Outcome AuthError) (now : Z) (db : Db).
Context (Hservice : ∀ rq o, service rq = Ok o → o = authenticate now rq db).
Context (percent_encode : string → string) (from_slice : string → option Value) (instance : string).

(** What a request presents, as an HTTP request would. *)
Definition presents (disable_psk : bool) (request : CoapRequest) (certs : option (list string))
    (identity : option VerifiedIdentity) : HttpRequest :=
  mkHttpRequest ((cq_authorization request ≫= head) ≫= header_from_bytes) None certs
    (if disable_psk then None else identity).

Lemma coap_publish_sinks sink1 sink2 fresh tm channel suffix opts request auth certs identity :
  sinks_agree now db instance (mkHttpRequest (auth ≫= header_from_bytes) None certs identity) None sink1 sink2 →
  coap_publish service percent_encode from_slice instance sink1 fresh tm channel suffix opts request auth
    certs identity
  = coap_publish service percent_encode from_slice instance sink2 fresh tm channel suffix opts request auth
    certs identity.
Proof.
  intros Hagree. unfold coap_publish. rw coap_is_http_without_as.
  destruct (authenticate_http _ _ _ _ _ _ _) as [o|] eqn:Ha; [|done]. cbn [map_err rbind].
  destruct o as [a d x|]; [|done].
  assert (Hreq : request_for now db (mkHttpRequest (auth ≫= header_from_bytes) None certs identity) None a d x).
  { eapply passes_presented; [done|]. by eapply authenticate_http_passes. }
  assert (Hpub : ∀ p, p_application p = publish_app a → pi_name (p_sender p) = Reg.d_name d →
    pi_name (p_device p) = Reg.d_name (default d x) → po_extensions (p_options p) = [] →
    ∀ ttd, coap_publish_and_await percent_encode from_slice instance sink1 fresh tm p ttd request
    = coap_publish_and_await percent_encode from_slice instance sink2 fresh tm p ttd request).
  { intros p Hp Hs Hd He ttd. unfold coap_publish_and_await, downstream_publish.
    erewrite publish_sinks_published; [done|rw He; intros n _; apply not_elem_of_nil|].
    rw Hp Hs Hd. intros e. by apply (Hagree a d x e). }
  destruct x as [x|]; by apply Hpub.
Qed.

(** Devices publish over CoAP only as themselves: whatever the packet, the
    events handed to the sink are what the publish rules of the application make
    of an event that names the application and the device that the request was
    authenticated as; a sink that answers differently for any other events makes
    no difference. *)
Theorem coap_publish_origin sink1 sink2 fresh tm disable_psk request certs identity :
  sinks_agree now db instance (presents disable_psk request certs identity) None sink1 sink2 →
  publish_handler client_error service percent_encode from_slice instance sink1 fresh tm disable_psk request
    certs identity
  = publish_handler client_error service percent_encode from_slice instance sink2 fresh tm disable_psk request
    certs identity.
Proof.
  intros Hagree. unfold publish_handler, params.
  destruct (cq_uri_path request ≫= _) as [segments|]; [|done]. cbn [ok_or rbind].
  destruct segments as [|channel [|suffix [|]]]; try done.
  - f_equal. by apply coap_publish_sinks.
  - destruct (cq_uri_query request ≫= head) as [q|]; [|done]. destruct (options_from_bytes q); [|done].
    f_equal. by apply coap_publish_sinks.
Qed.

(** The media type is JSON, but the payload is compressed. *)
Definition compressed_json : ContentFormat := ApplicationJsonDeflate.

(** What a CoAP client does not get: a request with a subject and without a
    query gets no answer at all, and nothing is published; the device to act for
    makes no difference to any request; and a payload in the compressed JSON
    format, which is not JSON text, is not accepted. *)
Theorem coap_limits sink fresh tm disable_psk request certs identity :
  (∀ channel suffix, path_parser <$> cq_uri_path request = Some (Ok [channel; suffix]) →
     cq_uri_query request = None →
     publish_handler client_error service percent_encode from_slice instance sink fresh tm disable_psk request
       certs identity = Answer None) ∧
  (∀ channel suffix opts as_device auth,
     coap_publish service percent_encode from_slice instance sink fresh tm channel suffix
       (mkQueryOptions (qo_common opts) as_device (qo_ct opts)) request auth certs identity
     = coap_publish service percent_encode from_slice instance sink fresh tm channel suffix opts request
         auth certs identity) ∧
  (∀ channel suffix opts auth reply, cq_content_format request = Some compressed_json →
     from_slice (cq_payload request) = None →
     coap_publish service percent_encode from_slice instance sink fresh tm channel suffix opts request auth
       certs identity = Ok reply →
     reply = Answer (set_status NotAcceptable <$> cq_response request)).
Proof.
  split_and!.
  - intros channel suffix Hp Hq. unfold publish_handler, params. rw Hq.
    destruct (cq_uri_path request) as [paths|]; [|done]. simpl in Hp. injection Hp as Hp. simpl. by rw Hp.
  - done.
  - intros channel suffix opts auth reply Hf Hj. unfold coap_publish.
    destruct (authenticate_coap _ _ _ _ _ _) as [o|]; [|done]. simpl. destruct o as [a d x|]; [|done].
    destruct x; unfold coap_publish_and_await, downstream_publish, publish, publish_data; simpl;
      rw Hf Hj; simpl; by intros [= <-].
Qed.
End CoapProofs.
