(* ===== verification/Transport.v ===== *)
(** * Transports of the endpoints

    The set-up of TLS and of the MQTT server ([mqtt-common/src/tls.rs],
    [mqtt-common/src/server.rs], [mqtt-endpoint/src/lib.rs]), the callbacks for
    pre-shared keys of CoAP and MQTT ([coap-endpoint/src/lib.rs]), the
    identities of connections ([endpoint-common/src/psk.rs]), and the session of
    a CoAP peer ([coap-endpoint/src/session.rs]).  Files, the builders of the
    TLS libraries and the codec of CoAP packets are given. *)

From S2P Require Import Prelude Json Kafka Registry CloudEvents Commands DeviceAuth EndpointAuth HttpEndpoint CoapEndpoint.

(** ** Pre-shared keys *)

Section Psk.
Context `{AuthCodecs} (request_psk : string → string → result Authn.PreSharedKeyOutcome AuthError).

(** The buffer for the secret as it is filled, and the data of the connection. *)
Definition copy_key (key : string) (size : nat) : string :=
  Stdlib.Strings.String.substring 0 (Nat.min (String.length key) size) key.

(** The callback of the CoAP server. *)
Definition coap_psk_callback (identity : option string) (size : nat) : string * option VerifiedIdentity :=
  match identity ≫= from_utf8 with
  | Some identity =>
      match identity_parse identity with
      | Some identity =>
          match request_psk (id_application identity) (id_device identity) with
          | Ok response =>
              match response with
              | Authn.Found app device key => (copy_key (Reg.psk_key key) size, Some (mkVerified app device))
              | Authn.KeyNotFound => (EmptyString, None)
              end
          | Err _ => (EmptyString, None)
          end
      | None => (EmptyString, None)
      end
  | None => (EmptyString, None)
  end.

(** The verifier of the MQTT endpoint; the thread that asks for the key may panic. *)
Definition mqtt_psk_verifier (panics : bool) (identity : option string) (size : nat) : string :=
  match identity ≫= from_utf8 with
  | Some identity =>
      match identity_parse identity with
      | Some identity =>
          if panics then EmptyString
          else
            match request_psk (id_application identity) (id_device identity) with
            | Ok (Authn.Found _ _ key) => copy_key (Reg.psk_key key) size
            | _ => EmptyString
            end
      | None => EmptyString
      end
  | None => EmptyString
  end.

(** The three servers agree on the key of an identity; CoAP and HTTP also on whom it
    identifies. *)
Theorem psk_callbacks_agree identity size :
  coap_psk_callback identity size = psk_callback request_psk identity size ∧
  mqtt_psk_verifier false identity size = (psk_callback request_psk identity size).1.
Proof.
  unfold coap_psk_callback, mqtt_psk_verifier, psk_callback.
  destruct (identity ≫= from_utf8) as [text|]; [|done]. simpl. destruct (identity_parse text); [|done]. simpl.
  by destruct (request_psk _ _) as [[]|].
Qed.

(** A key that does not fit into the buffer is cut: what is used is a prefix of the key. *)
Theorem key_is_cut key size :
  (size < String.length key)%nat → copy_key key size = Stdlib.Strings.String.substring 0 size key.
Proof. intros Hs. unfold copy_key. by rw Nat.min_r; [lia|]. Qed.
End Psk.

(** [PskIdentityRetriever]: plain and [rustls] connections have none, [OpenSSL] ones what
    the callback has left. *)
Inductive Connection : Type :=
| PlainTcp
| RustlsStream
| OpensslStream (ex_data : option VerifiedIdentity)
| DtlsSession (ssl : option (option VerifiedIdentity)).

Definition connection_identity (c : Connection) : option VerifiedIdentity :=
  match c with
  | PlainTcp | RustlsStream => None
  | OpensslStream ex_data => ex_data
  | DtlsSession ssl => default None ssl
  end.

(** ** TLS for MQTT *)

(** Who checks the certificates of clients with [rustls]: nobody, and none is asked for, or
    [AcceptAllClientCertVerifier], which asks for one and takes all, as they are checked later. *)
Inductive ClientCertVerifier : Type := NoClientAuth | AcceptAllClientCerts.

Record TlsConfig := mkTlsConfig {
  is_disabled : bool;
  disable_client_certs : bool;
  disable_psk : bool;
  verifier_rustls : ClientCertVerifier;
  key_file : option string;
  cert_bundle_file : option string;
}.

(** A block of a PEM file. *)
Record Pem := mkPem { pem_tag : string; pem_contents : string }.

Record RustlsConfig := mkRustls { rs_verifier : ClientCertVerifier; rs_chain : list string; rs_key : string }.
Record OpensslConfig := mkOpenssl {
  os_key_file : string; os_chain_file : string; os_ciphers : string; os_ask_certs : bool; os_psk : bool;
}.

Fixpoint contains (pat s : string) : bool :=
  starts_with pat s || match s with EmptyString => false | String _ s => contains pat s end.

Section Tls.
(** Reading the files, decoding them, and what the libraries say to the settings. *)
Context (open_certs : string → result (list string) string) (read_file : string → result string string).
Context (parse_many : string → result (list Pem) string) (single_cert : list string → string → result unit string).
Context (set_private_key set_chain set_ciphers : string → result unit string) (acceptor : result unit string).

(** [rustls::tls_config]; [None] if the file of the certificates cannot be read, which panics. *)
Definition rustls_config (config : TlsConfig) : option (result RustlsConfig string) :=
  match key_file config with
  | None => Some (Err "TLS configuration error: Missing key file")
  | Some key =>
      match cert_bundle_file config with
      | None => Some (Err "TLS configuration error: Missing cert file")
      | Some cert =>
          match open_certs cert with
          | Err _ => None
          | Ok cert_chain =>
              Some
                (let? pems := read_file key in
                 let? pems := parse_many pems in
                 match filter (λ pem, contains "PRIVATE KEY" (pem_tag pem) = true) pems with
                 | [] => Err "TLS configuration error: No key found in the key file"
                 | [pem] =>
                     let? _ := single_cert cert_chain (pem_contents pem) in
                     Ok (mkRustls (if negb (disable_client_certs config) then verifier_rustls config else NoClientAuth)
                           cert_chain (pem_contents pem))
                 | _ => Err "TLS configuration error: Found too many keys in the key file"
                 end)
          end
      end
  end.

Definition DEFAULT_CIPHERS : list string := [
  "PSK"; "ECDHE-ECDSA-AES128-GCM-SHA256"; "ECDHE-RSA-AES128-GCM-SHA256"; "ECDHE-ECDSA-AES256-GCM-SHA384";
  "ECDHE-RSA-AES256-GCM-SHA384"; "ECDHE-ECDSA-CHACHA20-POLY1305"; "ECDHE-RSA-CHACHA20-POLY1305";
  "DHE-RSA-AES128-GCM-SHA256"; "DHE-RSA-AES256-GCM-SHA384"].

(** [openssl::tls_config] *)
Definition openssl_config (config : TlsConfig) (psk_verifier : bool) : result OpensslConfig string :=
  let? key := ok_or "TLS configuration error: Missing key file" (key_file config) in
  let? cert := ok_or "TLS configuration error: Missing cert file" (cert_bundle_file config) in
  let? _ := acceptor in
  let? _ := set_private_key key in
  let? _ := set_chain cert in
  let ciphers := join "," DEFAULT_CIPHERS in
  let? _ := set_ciphers ciphers in
  Ok (mkOpenssl key cert ciphers (negb (disable_client_certs config)) (negb (disable_psk config) && psk_verifier)).

(** A server with TLS has exactly one private key, and checks the certificates of clients as its
    configuration says, unless that is disabled. *)
Theorem rustls_config_ok config c :
  rustls_config config = Some (Ok c) →
  ∃ key cert text pems, key_file config = Some key ∧ cert_bundle_file config = Some cert ∧
    open_certs cert = Ok (rs_chain c) ∧ read_file key = Ok text ∧ parse_many text = Ok pems ∧
    (∃ tag, filter (λ pem, contains "PRIVATE KEY" (pem_tag pem) = true) pems = [mkPem tag (rs_key c)]) ∧
    rs_verifier c = if disable_client_certs config then NoClientAuth else verifier_rustls config.
Proof.
  unfold rustls_config. destruct (key_file config) as [key|]; [|done]. destruct (cert_bundle_file config) as [cert|]; [|done].
  destruct (open_certs cert) as [chain|] eqn:Hc; [|done]. intros [= (text & Ht & (pems & Hp & Hf)%rbind_ok_inv)%rbind_ok_inv].
  destruct (filter _ pems) as [|[tag k] [|]] eqn:Hfilter; try done.
  apply rbind_ok_inv in Hf as (? & _ & [= <-]). exists key, cert, text, pems.
  split_and!; try done; [by exists tag|]. by destruct (disable_client_certs config).
Qed.

(** ** The MQTT server *)

Inductive MqttTransport : Type := OverMqtt | OverWebsocket.

Record MqttServerOptions := mkServerOptions {
  max_size : option Z;
  opt_bind_addr : option string;
  opt_transport : MqttTransport;
  handshake_timeout : option Z;
  workers : option nat;
}.

Definition DEFAULT_MAX_SIZE : Z := 16 * 1024.

(** [as u16] *)
Definition as_u16 (x : Z) : Z := (x mod 65536)%Z.

(** Seconds. *)
Definition handshake_seconds (opts : MqttServerOptions) : Z := from_option as_u16 15%Z (handshake_timeout opts).

Definition bind_addr (addr : option string) (default_addr : string) : string := default default_addr addr.

(** [build_server]: the address. *)
Definition server_address (opts : MqttServerOptions) (tls : bool) : string :=
  let '(default_mqtt, default_ws) :=
    if tls then ("127.0.0.1:8883", "127.0.0.1:443") else ("127.0.0.1:1883", "127.0.0.1:80") in
  match opt_transport opts with
  | OverMqtt => bind_addr (opt_bind_addr opts) default_mqtt
  | OverWebsocket => bind_addr (opt_bind_addr opts) default_ws
  end.

Inductive Server : Type :=
| NonTls (addr : string)
| Rustls (addr : string) (config : RustlsConfig)
| Openssl (addr : string) (config : OpensslConfig).

(** [build], with the features it was compiled with. *)
Definition build (rustls openssl : bool) (opts : MqttServerOptions) (config : TlsConfig) (psk_verifier : bool)
    : option (result Server string) :=
  if is_disabled config then Some (Ok (NonTls (server_address opts false)))
  else if rustls then
    match rustls_config config with
    | Some (Ok c) => Some (Ok (Rustls (server_address opts true) c))
    | Some (Err e) => Some (Err e)
    | None => None
    end
  else if openssl then
    Some (let? c := openssl_config config psk_verifier in Ok (Openssl (server_address opts true) c))
  else Some (Err "Requested TLS configuration, but no TLS implementation is present").

(** Unless TLS is disabled there is no server without it. *)
Theorem tls_unless_disabled rustls openssl opts config psk_verifier server :
  build rustls openssl opts config psk_verifier = Some (Ok server) →
  (∃ addr, server = NonTls addr) ↔ is_disabled config = true.
Proof.
  unfold build. destruct (is_disabled config); [naive_solver|]. destruct rustls.
  { destruct (rustls_config config) as [[]|]; naive_solver. }
  destruct openssl; [|naive_solver]. destruct (openssl_config config psk_verifier); naive_solver.
Qed.

(** The handshake timeout is the configured one up to 65535 seconds; multiples of 65536 become zero. *)
Theorem handshake_timeout_exact opts secs :
  handshake_timeout opts = Some secs → (0 ≤ secs)%Z →
  (handshake_seconds opts = secs ↔ (secs < 65536)%Z) ∧
  (handshake_seconds opts = 0%Z ↔ (65536 | secs)%Z).
Proof.
  intros Hs Hp. unfold handshake_seconds. rw Hs /= /as_u16. split.
  - pose proof (Z.mod_pos_bound secs 65536 ltac:(lia)). split; [lia|]. intros Hlt. apply Z.mod_small. lia.
  - apply Z.mod_divide. lia.
Qed.

(** ** The servers of the endpoint and of the integration *)

(** What the two configurations share, [Config] of [mqtt-endpoint/src/config.rs] and of
    [mqtt-integration/src/lib.rs]; only the endpoint has [disable_tls_psk]. *)
Record MqttTls := mkMqttTls {
  cfg_disable_tls : bool;
  cfg_disable_client_certificates : bool;
  cfg_cert_bundle_file : option string;
  cfg_key_file : option string;
  cfg_mqtt : MqttServerOptions;
}.

Definition endpoint_tls (config : MqttTls) (disable_tls_psk : bool) : TlsConfig :=
  mkTlsConfig (cfg_disable_tls config) (cfg_disable_client_certificates config) disable_tls_psk AcceptAllClientCerts
    (cfg_key_file config) (cfg_cert_bundle_file config).

Definition integration_tls (config : MqttTls) : TlsConfig :=
  mkTlsConfig (cfg_disable_tls config) (cfg_disable_client_certificates config) true NoClientAuth
    (cfg_key_file config) (cfg_cert_bundle_file config).

(** [run]: the endpoint has a verifier of keys unless they are disabled, the integration always
    one, that knows no key. *)
Definition endpoint_server (rustls openssl : bool) (config : MqttTls) (disable_tls_psk : bool) :=
  build rustls openssl (cfg_mqtt config) (endpoint_tls config disable_tls_psk) (negb disable_tls_psk).
Definition integration_server (rustls openssl : bool) (config : MqttTls) :=
  build rustls openssl (cfg_mqtt config) (integration_tls config) true.

(** What clients may present to a server on the level of TLS. *)
Definition takes_psk (s : Server) : bool := match s with Openssl _ c => os_psk c | _ => false end.
Definition asks_certs (s : Server) : bool :=
  match s with
  | NonTls _ => false
  | Rustls _ c => match rs_verifier c with AcceptAllClientCerts => true | NoClientAuth => false end
  | Openssl _ c => os_ask_certs c
  end.

Lemma build_cases rustls openssl opts config psk_verifier server :
  build rustls openssl opts config psk_verifier = Some (Ok server) →
  takes_psk server = negb (is_disabled config) && negb rustls && negb (disable_psk config) && psk_verifier ∧
  asks_certs server =
    negb (is_disabled config) && negb (disable_client_certs config) &&
    (negb rustls || match verifier_rustls config with AcceptAllClientCerts => true | NoClientAuth => false end).
Proof.
  unfold build. destruct (is_disabled config) eqn:Hd; [by intros [= <-]|]. destruct rustls.
  - destruct (rustls_config config) as [[c|]|] eqn:Hc; [|done|done]. intros [= <-].
    apply rustls_config_ok in Hc as (? & ? & ? & ? & _ & _ & _ & _ & _ & _ & Hv).
    cbn. rewrite Hv. by destruct (disable_client_certs config).
  - destruct openssl; [|done]. unfold openssl_config.
    intros [= (c & Hc & [= <-])%rbind_ok_inv]. do 6 apply rbind_ok_inv in Hc as (? & _ & Hc).
    injection Hc as <-. cbn. by rewrite andb_true_r.
Qed.

(** A device can present a key to the endpoint only if this was built with [OpenSSL] and keys are
    not disabled; to the integration nobody can. *)
Theorem psk_servers rustls openssl config disable_tls_psk e i :
  endpoint_server rustls openssl config disable_tls_psk = Some (Ok e) →
  integration_server rustls openssl config = Some (Ok i) →
  takes_psk e = negb (cfg_disable_tls config) && negb rustls && negb disable_tls_psk ∧ takes_psk i = false.
Proof.
  intros [-> _]%build_cases [-> _]%build_cases. cbn. destruct disable_tls_psk; by rewrite ?andb_false_r ?andb_true_r.
Qed.

(** Certificates are asked for by the endpoint whenever they are not disabled, and by the
    integration only if it was built with [OpenSSL]. *)
Theorem cert_servers rustls openssl config disable_tls_psk e i :
  endpoint_server rustls openssl config disable_tls_psk = Some (Ok e) →
  integration_server rustls openssl config = Some (Ok i) →
  asks_certs e = negb (cfg_disable_tls config) && negb (cfg_disable_client_certificates config) ∧
  asks_certs i = asks_certs e && negb rustls.
Proof.
  intros [_ ->]%build_cases [_ ->]%build_cases. cbn. by rewrite orb_true_r orb_false_r andb_true_r.
Qed.
End Tls.

(** ** The session of a CoAP peer *)

Section CoapSession.
(** The codec of packets, the connection, and the handler: its reply is final, or is made
    when a command has come or its time is over. *)
Context (from_bytes : string → result CoapRequest string) (to_bytes : CoapResponse → result string string).
Context (handler : CoapRequest → CoapReply).

(** A read: when there was something, what, when the handler was done with it, and the
    command it got. *)
Record Exchange := mkExchange { x_at : Z; x_data : string; x_done : Z; x_command : option Command }.

Definition final_answer (request : CoapRequest) (command : option Command) : option CoapResponse :=
  match handler request with
  | Answer response => response
  | AwaitCommand _ _ => coap_wait_answer request command
  end.

(** What is written for a read; errors of encoding and writing are logged. *)
Definition answer_packet (data : string) (command : option Command) : option string :=
  match from_bytes data with
  | Ok request =>
      match final_answer request command with
      | Some response => match to_bytes response with Ok packet => Some packet | Err _ => None end
      | None => None
      end
  | Err _ => None
  end.

(** [Session::process], until the connection fails. *)
Definition process_session (reads : list Exchange) : list string :=
  omap (λ x, answer_packet (x_data x) (x_command x)) reads.

(** [Session::run]: at the expiry the loop is dropped wherever it is. *)
Fixpoint run_session (expiry : Z) (reads : list Exchange) : list string :=
  match reads with
  | [] => []
  | x :: rest =>
      if (x_done x <? expiry)%Z then
        match answer_packet (x_data x) (x_command x) with
        | Some packet => packet :: run_session expiry rest
        | None => run_session expiry rest
        end
      else []
  end.

(** One request after the other. *)
Fixpoint in_order (from : Z) (reads : list Exchange) : Prop :=
  match reads with
  | [] => True
  | x :: rest => (from ≤ x_at x ≤ x_done x)%Z ∧ in_order (x_done x) rest
  end.

Lemma in_order_late from expiry reads :
  in_order from reads → (expiry ≤ from)%Z → filter (λ x, x_done x < expiry)%Z reads = [].
Proof.
  revert from. induction reads as [|x rest IH]; intros from; [done|]. simpl. intros [Hx Hr] Hf.
  rw filter_cons_False; [lia|]. apply (IH (x_done x)); [done|lia].
Qed.

(** The peer gets the answers to exactly the requests that were done before the session
    expired, in their order: packets that cannot be read do not end the session. *)
Theorem session_answers from expiry reads :
  in_order from reads →
  run_session expiry reads = process_session (filter (λ x, x_done x < expiry)%Z reads).
Proof.
  revert from. induction reads as [|x rest IH]; intros from; [done|]. simpl. intros [Hx Hr].
  destruct (Z.ltb_spec (x_done x) expiry).
  - rw filter_cons_True; [done|]. cbn [process_session omap list_omap]. rw (IH _ Hr).
    by destruct (answer_packet _ _).
  - rw filter_cons_False; [lia|]. by rw (in_order_late (x_done x)).
Qed.

(** A request that waits for a command when the session expires is not answered, however
    long before it was made. *)
Theorem waiting_dropped expiry x rest :
  (expiry ≤ x_done x)%Z → run_session expiry (x :: rest) = [].
Proof. intros Hd. simpl. by rw (proj2 (Z.ltb_ge _ _)). Qed.
End CoapSession.

(** When a session expires, of the time it was accepted at; in seconds. *)
Definition DEFAULT_EXPIRY : Z := 60.
Definition session_expiry (accepted : Z) (dtls_session_timeout : option Z) : Z :=
  (accepted + default DEFAULT_EXPIRY dtls_session_timeout)%Z.

(** With the defaults a device that asks to wait for a command longer than what is left of
    its minute gets no answer. *)
Theorem long_wait_unanswered from_bytes to_bytes handler accepted x rest :
  (accepted + 60 ≤ x_done x)%Z →
  run_session from_bytes to_bytes handler (session_expiry accepted None) (x :: rest) = [].
Proof. intros Hx. apply waiting_dropped. unfold session_expiry, DEFAULT_EXPIRY. simpl. lia. Qed.
