(* ===== verification/MqttConnect.v ===== *)
(** * MQTT connections

    [mqtt-endpoint/src/service/app.rs]: what happens when a device connects over
    MQTT.  It is authenticated, the dialect of its session is looked up, and its
    state is created with the device state service; when the connection is
    closed, the state is deleted again ([session/mod.rs]).  This composes the
    models of the authentication, of the client of the device state service and
    of the sessions. *)

From S2P Require Import Prelude Json Store Registry DeviceAuth CloudEvents Commands Pipeline MqttSession DeviceState StateClient EndpointAuth.

(** ** Connecting *)

Inductive MqttVersion : Type := V3 | V5.

(** The last will of the packet; only version 5 has a content type. *)
Record LastWill := mkWill {
  will_topic : string;
  will_message : string;
  will_content_type : option string;
}.

(** The packet, and what the transport knows. *)
Record Connect := mkConnect {
  cn_version : MqttVersion;
  cn_clean_session : bool;
  cn_username : option string;
  cn_password : option string;
  cn_client_id : string;
  cn_last_will : option LastWill;
  cn_certs : option (list string);
  cn_psk_identity : option string;
}.

Inductive ServerError : Type :=
| UnsupportedOperation
| AuthenticationFailed
| Configuration (msg : string)
| StateError (msg : string)
| ServerInternal (msg : string)
| ServerProtocolError
| ServerNotAuthorized
| PublishFailed (err : PublishError).

Definition make_lwt (connect : Connect) : option LastWillTestament :=
  (λ lwt, mkLwt (will_topic lwt) (will_message lwt)
     match cn_version connect with V3 => None | V5 => will_content_type lwt end) <$> cn_last_will connect.

(** The MQTT section of a device or of an application, [drogue_client]'s. *)
Class MqttSections := {
  device_mqtt : Reg.Device → option (result MqttDialect string);
  app_mqtt : Reg.Application → option (result MqttDialect string);
}.

(** The outcome for the client; the process may be aborted by the recovery of
    a failed creation. *)
Inductive Connection : Type :=
| Accept (application : Reg.Application) (device : Reg.Device) (session : Session)
    (handle : Controller.StateHandle) (watcher : nat)
| Refuse (e : ServerError)
| ProcessAborted.

Section Connect.
Context `{AuthCodecs, MqttSections} {W : Type} `{DeviceStateClient W}.
Context (service : AuthenticationRequest → result Authn.Outcome AuthError).
Context (request_psk : string → string → result Authn.PreSharedKeyOutcome AuthError).
Context (states : Controller.StateController) (state_attempts fuel : nat) (disable_psk : bool).

(** [App::authenticate]; both kinds of errors refuse the connection. *)
Definition app_authenticate (username password : option string) (client_id : string)
    (certs : option (list string)) (identity : option VerifiedIdentity)
    : result Authn.Outcome unit :=
  let? password :=
    match password with
    | Some p => let? s := ok_or tt (from_utf8 p) in Ok (Some s)
    | None => Ok None
    end in
  map_err (λ _, tt) (authenticate_mqtt service username password client_id certs identity).

Definition eval_dialect (application : Reg.Application) (device : Reg.Device)
    : result MqttDialect ServerError :=
  match
    match device_mqtt device with
    | Some r => Some r
    | None => app_mqtt application
    end
  with
  | Some (Ok dialect) => Ok dialect
  | Some (Err err) =>
      Err (Configuration ("Unable to parse MQTT spec section. Rejecting connection. Reason: " +:+ err))
  | None => Ok DrogueV1
  end.

(** [create_session] with the new token and channel. *)
Definition create_session (token : string) (chan : nat) (application : Reg.Application)
    (device : Reg.Device) (lwt : option LastWillTestament) (sh : Controller.Shared) (w : W)
    : option (W * Controller.Shared * Mux.Notes * Connection) :=
  match eval_dialect application device with
  | Err e => Some (w, sh, [], Refuse e)
  | Ok dialect =>
      let a := Reg.a_name application in
      let d := Reg.d_name device in
      match
        Controller.create state_attempts fuel states a d (Reg.d_uid device) token lwt chan sh w
      with
      | None => None
      | Some (w, sh, notes, outcome) =>
          Some (w, sh, notes,
            match outcome with
            | Controller.StateCreated watcher =>
                Accept application device (session_new (mkId a d) dialect)
                  (Controller.mkHandle false a d token) watcher
            | Controller.StateOccupied => Refuse (StateError "State still occupied")
            | Controller.StateFailed => Refuse (ServerInternal "Failed to contact state service")
            | Controller.StateAborted => ProcessAborted
            end)
      end
  end.

Definition lookup_identity (identity : Identity) : option VerifiedIdentity :=
  match request_psk (id_application identity) (id_device identity) with
  | Ok (Authn.Found app device _) => Some (mkVerified app device)
  | _ => None
  end.

Definition verified_identity (psk_identity : option string) : option VerifiedIdentity :=
  if disable_psk then None
  else ((psk_identity ≫= from_utf8) ≫= identity_parse) ≫= lookup_identity.

Definition connect (token : string) (chan : nat) (c : Connect) (sh : Controller.Shared) (w : W)
    : option (W * Controller.Shared * Mux.Notes * Connection) :=
  if cn_clean_session c then
    match
      app_authenticate (cn_username c) (cn_password c) (cn_client_id c) (cn_certs c)
        (verified_identity (cn_psk_identity c))
    with
    | Ok (Authn.Pass application device _) =>
        create_session token chan application device (make_lwt c) sh w
    | Ok Authn.Fail | Err _ => Some (w, sh, [], Refuse AuthenticationFailed)
    end
  else Some (w, sh, [], Refuse UnsupportedOperation).

(** ** Closing

    [Session::closed]: the handle is taken out of the session, and its state is
    deleted; [None] if the calls take more than [fuel] attempts. *)
Definition connection_closed (s : Session) (h : Controller.StateHandle) (cmds : Commands)
    (sh : Controller.Shared) (w : W)
    : option (Session * Controller.StateHandle * Commands * Controller.Shared * W * Mux.Notes *
              Controller.DeleteEnd) :=
  match closed s cmds with
  | (s, cmds, Some skip_lwt) =>
      match Controller.handle_delete fuel states skip_lwt h sh w with
      | Some (w, sh, notes, h, e) => Some (s, h, cmds, sh, w, notes, e)
      | None => None
      end
  | (s, cmds, None) => Some (s, h, cmds, sh, w, [], Controller.DeleteDone)
  end.

(** ** What a connection means *)

(** What the recovery of a failed creation can do to the shared state. *)
Lemma create_loop_outcome attempts a d t st chan sh (w : W) w' sh' notes outcome :
  Controller.create_loop attempts fuel states a d t st chan sh w = Some (w', sh', notes, outcome) →
  match outcome with
  | Controller.StateCreated watcher =>
      watcher = chan ∧ (∃ w0, api_create (Controller.session states) a d t st w0 = (w', Ok Created)) ∧
      Mux.added (a, d) t chan (Controller.mux sh) = (Controller.mux sh', notes)
  | _ => Controller.mux sh' = Controller.mux sh ∧ notes = []
  end.
Proof.
  revert w. induction attempts as [|n IH]; intros w; cbn [Controller.create_loop];
    destruct (api_create _ a d t st w) as [w1 [[]|e]] eqn:Hc;
    try (intros [= <- <- <- <-]; split_and!; by eauto).
  2:{ apply IH. }
  all: destruct (Controller.delete _ _ _ _ _ _ _ _) as [[[w2 k] []]|]; try done; by intros [= <- <- <- <-].
Qed.

Lemma lookup_identity_found id v :
  lookup_identity id = Some v → ∃ key,
    request_psk (id_application id) (id_device id) = Ok (Authn.Found (vi_application v) (vi_device v) key).
Proof.
  unfold lookup_identity. destruct (request_psk _ _) as [[a d key|]|]; try done. intros [= <-]. by exists key.
Qed.
End Connect.

Section ConnectProofs.
Context `{AuthCodecs, MqttSections, UuidCodec, ClientApi, AuthApi} {W : Type} `{DeviceStateClient W}.
Context (service : AuthenticationRequest → result Authn.Outcome AuthError).
Context (request_psk : string → string → result Authn.PreSharedKeyOutcome AuthError).
Context (states : Controller.StateController) (state_attempts fuel : nat) (disable_psk : bool).
Context (now : Z) (db : Db).
Context (Hservice : ∀ rq o, service rq = Ok o → o = authenticate now rq db).
Context (Hpsk : ∀ app dev o, request_psk app dev = Ok o → o = request_key now app dev db).

(** The device a connection was authenticated as: by a password (which is
    UTF-8 text) or a certificate chain, or by the key of the identity of the TLS
    connection. *)
Definition connected_as (c : Connect) (a : Reg.Application) (d : Reg.Device) : Prop :=
  (∃ x, presented now db (cn_password c ≫= from_utf8) (cn_certs c) None a d x) ∨
  (disable_psk = false ∧ cn_password c = None ∧ cn_certs c = None ∧
   ∃ text app dev key, cn_psk_identity c ≫= from_utf8 = Some text ∧
     identity_parse text = Some (mkIdentity app dev) ∧ request_key now app dev db = Authn.Found a d key).

Lemma app_authenticate_as c a d x :
  app_authenticate service (cn_username c) (cn_password c) (cn_client_id c) (cn_certs c)
    (verified_identity request_psk disable_psk (cn_psk_identity c)) = Ok (Authn.Pass a d x) →
  connected_as c a d.
Proof using Hservice Hpsk.
  unfold app_authenticate. intros (pw & Hpw & Ha)%rbind_ok_inv.
  assert (Hd : pw = cn_password c ≫= from_utf8 ∧ (pw = None → cn_password c = None)).
  { destruct (cn_password c) as [p|]; [|by simplify_eq]. destruct (from_utf8 p) eqn:E; simplify_eq/=. done. }
  destruct Hd as [-> Hnone].
  destruct (authenticate_mqtt _ _ _ _ _ _) as [o|] eqn:Hm; simplify_eq/=.
  apply authenticate_mqtt_passes, (passes_presented service now db Hservice) in Hm
    as [[Hi Hp]|(Hi & Hpw0 & Hc & ->)]; [left; by exists x|]. right.
  unfold verified_identity in Hi. destruct disable_psk; [done|]. split_and!; [done|by apply Hnone|done|].
  apply bind_Some in Hi as ([app dev] & (text & Ht & Hparse)%bind_Some & Hl).
  apply lookup_identity_found in Hl as [key Hkey]. apply Hpsk in Hkey. by exists text, app, dev, key.
Qed.

(** C17: a device that is connected over MQTT: the connection asked for a clean
    session; it was authenticated by the service with what it presented, or by
    the pre-shared key of its TLS identity; its session has the dialect of the
    device or else of the application, and starts connected with an empty
    inbox; and its state was created with its token and its last will, and is
    watched.  A connection that is refused before that leaves no trace. *)
Theorem connect_sound token chan c sh (w : W) w' sh' notes r :
  connect service request_psk states state_attempts fuel disable_psk token chan c sh w
    = Some (w', sh', notes, r) →
  match r with
  | Accept a d s h watcher =>
      cn_clean_session c = true ∧ connected_as c a d ∧
      eval_dialect a d = Ok (s_dialect s) ∧
      s = session_new (mkId (Reg.a_name a) (Reg.d_name d)) (s_dialect s) ∧
      h = Controller.mkHandle false (Reg.a_name a) (Reg.d_name d) token ∧
      (∃ w0, api_create (Controller.session states) (Reg.a_name a) (Reg.d_name d) token
         (mkState (Reg.d_uid d) (Controller.endpoint states) (make_lwt c)) w0 = (w', Ok Created)) ∧
      Controller.mux sh' !! (Reg.a_name a, Reg.d_name d) = Some (Mux.mkEntry token watcher) ∧ watcher = chan
  | Refuse (UnsupportedOperation | AuthenticationFailed | Configuration _) =>
      w' = w ∧ sh' = sh ∧ notes = []
  | _ => Controller.mux sh' = Controller.mux sh ∧ notes = []
  end.
Proof using Hservice Hpsk.
  unfold connect. destruct (cn_clean_session c); [|by intros [= <- <- <- <-]].
  destruct (app_authenticate _ _ _ _ _ _) as [[a d x|]|e] eqn:Ha; [|by intros [= <- <- <- <-]..].
  apply app_authenticate_as in Ha. unfold create_session, Controller.create.
  destruct (eval_dialect a d) as [dialect|e] eqn:Hd.
  2:{ assert (∃ msg, e = Configuration msg) as [msg ->].
      { unfold eval_dialect in Hd. repeat case_match; simplify_eq; eauto. }
      by intros [= <- <- <- <-]. }
  destruct (Controller.create_loop _ _ _ _ _ _ _ _ _ _) as [[[[w1 sh1] n1] o]|] eqn:Hl; [|done].
  apply create_loop_outcome in Hl. intros [= <- <- <- <-]. destruct o as [watcher| | |]; try done.
  destruct Hl as (-> & Hc & Hadd). unfold Mux.added in Hadd. injection Hadd as <- <-.
  split_and!; try done. by rw lookup_insert_eq.
Qed.

(** Closing takes the handle, so that the state is deleted once: closing again
    calls nothing. *)
Lemma closed_once s h cmds sh (w : W) s' h' cmds' sh' w' notes e :
  connection_closed states fuel s h cmds sh w = Some (s', h', cmds', sh', w', notes, e) →
  connection_closed states fuel s' h' cmds' sh' w' = Some (s', h', cmds', sh', w', [], Controller.DeleteDone).
Proof.
  unfold connection_closed, closed. destruct (close (s_disconnect s)) as [i skip] eqn:Hc.
  assert (Hi : close i = (i, skip)).
  { unfold close in *. destruct (s_disconnect s); by simplify_eq/=. }
  destruct (s_handle s); [destruct (Controller.handle_delete _ _ _ _ _ _) as [[[[[w1 sh1] n1] h1] e1]|]|];
    try done; intros [= <- <- <- <- <- <- <-]; simpl; by rw Hi map_to_list_empty.
Qed.
End ConnectProofs.
