(* ===== verification/MqttServer.v ===== *)
(** * The MQTT server

    [mqtt-common/src/mqtt.rs] and [error.rs]: the server turns the packets of
    version 3 and version 5 of the protocol into calls of a service and its
    sessions, and what they return into acknowledgements.  The service and the
    session are the interfaces [MqttService] and [SessionApi], as they are
    traits in the source; the session of the MQTT endpoint implements the
    latter.  The packets and their framing are those of [ntex_mqtt]. *)

From S2P Require Import Prelude Json Registry CloudEvents Commands Pipeline MqttSession MqttConnect.

(** ** Packets *)

Inductive PacketQoS : Type := Qos0 | Qos1 | Qos2.

Inductive DisconnectReasonCode : Type :=
| NormalDisconnection
| DisconnectWithWill
| DisconnectUnspecified
| DisconnectProtocolError
| OtherReason (code : Z).

Inductive CloseReason : Type :=
| ReasonClosed (was_error : bool)
| PeerGone (err : option string).

(** [CloseReason::was_error] *)
Definition was_error (r : CloseReason) : bool :=
  match r with ReasonClosed was_error => was_error | PeerGone _ => true end.

Record V3Publish := mkV3Publish { p3_topic : string; p3_payload : string; p3_qos : PacketQoS }.
Record V5Publish := mkV5Publish {
  p5_topic : string;
  p5_payload : string;
  p5_qos : PacketQoS;
  p5_content_type : option string;
}.

(** [Publish] with its accessors; of the properties only the content type is used. *)
Inductive Publish : Type := PublishV3 (p : V3Publish) | PublishV5 (p : V5Publish).
Definition publish_topic (p : Publish) : string := match p with PublishV3 p => p3_topic p | PublishV5 p => p5_topic p end.
Definition publish_payload (p : Publish) : string :=
  match p with PublishV3 p => p3_payload p | PublishV5 p => p5_payload p end.
Definition publish_properties (p : Publish) : option (option string) :=
  match p with PublishV3 _ => None | PublishV5 p => Some (p5_content_type p) end.
Definition publish_qos (p : Publish) : PacketQoS := match p with PublishV3 p => p3_qos p | PublishV5 p => p5_qos p end.

(** [Subscribe]: topics with the requested quality of service. *)
Inductive Subscribe : Type :=
| SubscribeV3 (topics : list (string * PacketQoS))
| SubscribeV5 (id : option Z) (user_properties : list (string * string)) (topics : list (string * PacketQoS)).
Definition subscribe_user_properties (s : Subscribe) : option (list (string * string)) :=
  match s with SubscribeV3 _ => None | SubscribeV5 _ properties _ => Some properties end.
Definition subscribe_id (s : Subscribe) : option Z := match s with SubscribeV3 _ => None | SubscribeV5 id _ _ => id end.

(** [Subscribe::into_iter] *)
Definition subscribe_items (s : Subscribe) : list (string * PacketQoS) :=
  match s with SubscribeV3 topics | SubscribeV5 _ _ topics => topics end.

Inductive Unsubscribe : Type := UnsubscribeV3 (topics : list string) | UnsubscribeV5 (topics : list string).

(** [UnsubscriptionIter]: the topics of version 3 are reversed, and taken from the end. *)
Inductive UnsubscriptionIter : Type := IterV3 (topics : list string) | IterV5 (topics : list string).
Definition unsubscribe_iter (u : Unsubscribe) : UnsubscriptionIter :=
  match u with UnsubscribeV3 topics => IterV3 (reverse topics) | UnsubscribeV5 topics => IterV5 topics end.
Definition iter_next (i : UnsubscriptionIter) : option (string * UnsubscriptionIter) :=
  match i with
  | IterV3 topics => t ← last topics; Some (t, IterV3 (removelast topics))
  | IterV5 (t :: topics) => Some (t, IterV5 topics)
  | IterV5 [] => None
  end.

Definition iter_size (i : UnsubscriptionIter) : nat := match i with IterV3 l | IterV5 l => length l end.
Fixpoint iter_all (fuel : nat) (i : UnsubscriptionIter) : list string :=
  match fuel with
  | 0 => []
  | S fuel =>
      match iter_next i with
      | Some (t, i) => t :: iter_all fuel i
      | None => []
      end
  end.
(** What a loop over the request sees. *)
Definition unsubscribe_items (u : Unsubscribe) : list string :=
  iter_all (iter_size (unsubscribe_iter u)) (unsubscribe_iter u).

Inductive Disconnect : Type := DisconnectV3 | DisconnectV5 (code : DisconnectReasonCode).
Definition reason_code (d : Disconnect) : DisconnectReasonCode :=
  match d with DisconnectV3 => NormalDisconnection | DisconnectV5 code => code end.

(** ** The session, as the server knows it *)

(** What a session says of a topic: [Subscription::confirm] and [fail], and [success] and
    [fail] of [Unsubscription]. *)
Inductive SubscribeAckReason : Type := SubUnspecifiedError | SubNotAuthorized | SubIdentifiersNotSupported.
Inductive SubscriptionMark : Type := Confirm (qos : PacketQoS) | FailWith (reason : SubscribeAckReason).

Class SessionApi (S : Type) := {
  api_publish : Publish → S → option (S * result unit PublishError);
  api_subscribe : Subscribe → S → option (S * list SubscriptionMark * result unit ServerError);
  api_unsubscribe : Unsubscribe → S → option (S * list UnsubscribeAck * result unit ServerError);
  api_disconnect : Disconnect → S → option (S * result unit ServerError);
  api_closed : CloseReason → S → option (S * result unit ServerError);
}.

(** The other answers a packet gets. *)
Inductive PublishAckReason : Type :=
| AckSuccess | AckUnspecifiedError | AckImplementationSpecificError | AckNotAuthorized | AckQuotaExceeded
| AckPayloadFormatInvalid | AckTopicNameInvalid.

(** Reason codes of version 5, with the text. *)
Record PublishAck := mkPublishAck { pa_reason_code : PublishAckReason; pa_reason : option string }.

(** [MqttResponse::ack] for [PublishError] *)
Definition publish_ack (e : PublishError) : PublishAck :=
  match e with
  | InternalError msg => mkPublishAck AckUnspecifiedError (Some msg)
  | UnspecifiedError => mkPublishAck AckUnspecifiedError (Some "Unspecified error")
  | MqttSession.UnsupportedOperation => mkPublishAck AckImplementationSpecificError (Some "Unsupported operation")
  | NotAuthorized => mkPublishAck AckNotAuthorized (Some "Not authorized")
  | QuotaExceeded => mkPublishAck AckQuotaExceeded (Some "Quota exceeded")
  | PayloadFormatInvalid => mkPublishAck AckPayloadFormatInvalid (Some "Payload format invalid")
  | TopicNameInvalid => mkPublishAck AckTopicNameInvalid (Some "Topic name is invalid")
  | ProtocolError => mkPublishAck AckUnspecifiedError (Some "Protocol error")
  end.

Inductive ControlV3 : Type :=
| C3Error
| C3ProtocolError
| C3Ping
| C3Disconnect
| C3PeerGone (err : option string)
| C3Subscribe (topics : list (string * PacketQoS))
| C3Unsubscribe (topics : list string)
| C3Closed (is_error : bool).

Inductive ControlV5 : Type :=
| C5Auth
| C5Error (err : ServerError)
| C5ProtocolError
| C5Ping
| C5Disconnect (code : DisconnectReasonCode)
| C5PeerGone (err : option string)
| C5Subscribe (id : option Z) (user_properties : list (string * string)) (topics : list (string * PacketQoS))
| C5Unsubscribe (topics : list string)
| C5Closed (is_error : bool).

(** Return codes of version 3: the granted quality, or a failure. *)
Definition mark_v3 (m : SubscriptionMark) : option PacketQoS :=
  match m with Confirm qos => Some qos | FailWith _ => None end.

Inductive ControlResult : Type :=
| Acked
| Pong
| SubAckV3 (codes : list (option PacketQoS))
| UnsubAckV3
| SubAckV5 (marks : list SubscriptionMark)
| UnsubAckV5 (acks : list UnsubscribeAck)
| DisconnectWith (code : DisconnectReasonCode).

(** ** The handlers *)

Section Server.
Context {S : Type} `{SessionApi S}.

(** An operation whose error ends the handler, and an answer. *)
Definition then_ack (r : option (S * result unit ServerError)) (a : ControlResult)
    : option (S * result ControlResult ServerError) :=
  '(s, r) ← r;
  Some (s, let? _ := r in Ok a).

Definition publish_v3 (publish : V3Publish) (s : S) : option (S * result unit ServerError) :=
  '(s, r) ← api_publish (PublishV3 publish) s;
  Some (s, map_err PublishFailed r).

Definition publish_v5 (publish : V5Publish) (s : S) : option (S * result PublishAck ServerError) :=
  '(s, r) ← api_publish (PublishV5 publish) s;
  Some (s, Ok match r with Ok _ => mkPublishAck AckSuccess None | Err err => publish_ack err end).

Definition control_v3 (control : ControlV3) (s : S) : option (S * result ControlResult ServerError) :=
  match control with
  | C3Error | C3ProtocolError => Some (s, Ok Acked)
  | C3Ping => Some (s, Ok Pong)
  | C3Disconnect => then_ack (api_disconnect DisconnectV3 s) Acked
  | C3PeerGone err => then_ack (api_closed (PeerGone err) s) Acked
  | C3Subscribe topics =>
      '(s, marks, r) ← api_subscribe (SubscribeV3 topics) s;
      Some (s, let? _ := r in Ok (SubAckV3 (mark_v3 <$> marks)))
  | C3Unsubscribe topics =>
      '(s, _, r) ← api_unsubscribe (UnsubscribeV3 topics) s;
      Some (s, let? _ := r in Ok UnsubAckV3)
  | C3Closed is_error => then_ack (api_closed (ReasonClosed is_error) s) Acked
  end.

Definition control_v5 (control : ControlV5) (s : S) : option (S * result ControlResult ServerError) :=
  match control with
  | C5Auth => Some (s, Ok Acked)
  | C5Error ServerProtocolError => Some (s, Ok (DisconnectWith DisconnectProtocolError))
  | C5Error _ => Some (s, Ok (DisconnectWith DisconnectUnspecified))
  | C5ProtocolError => Some (s, Ok Acked)
  | C5Ping => Some (s, Ok Pong)
  | C5Disconnect code => then_ack (api_disconnect (DisconnectV5 code) s) Acked
  | C5PeerGone err => then_ack (api_closed (PeerGone err) s) Acked
  | C5Subscribe id properties topics =>
      '(s, marks, r) ← api_subscribe (SubscribeV5 id properties topics) s;
      Some (s, let? _ := r in Ok (SubAckV5 marks))
  | C5Unsubscribe topics =>
      '(s, acks, r) ← api_unsubscribe (UnsubscribeV5 topics) s;
      Some (s, let? _ := r in Ok (UnsubAckV5 acks))
  | C5Closed is_error => then_ack (api_closed (ReasonClosed is_error) s) Acked
  end.
End Server.

(** Handshakes: the service accepts with a session, and says whether one was present. *)
Inductive HandshakeV3 (A : Type) : Type := Accepted3 (a : A) (session_present : bool) | BadUserOrPassword3 | NotAuthorized3 | Unavailable3.
Arguments Accepted3 {A} a session_present.
Arguments BadUserOrPassword3 {A}.
Arguments NotAuthorized3 {A}.
Arguments Unavailable3 {A}.

Inductive ConnectAckReason : Type := BadUserNameOrPassword | ConnectNotAuthorized | ConnectUnspecified.
Inductive HandshakeV5 (A O : Type) : Type := Accepted5 (a : A) (options : O) | Failed5 (reason : ConnectAckReason).
Arguments Accepted5 {A O} a options.
Arguments Failed5 {A O} reason.

Section Handshake.
Context {A O : Type} (session_present : O → bool).

Definition connect_v3 (r : result (A * O) ServerError) : HandshakeV3 A :=
  match r with
  | Ok (a, ack) => Accepted3 a (session_present ack)
  | Err _ => BadUserOrPassword3
  end.

Definition connect_v5 (r : result (A * O) ServerError) : HandshakeV5 A O :=
  match r with
  | Ok (a, ack) => Accepted5 a ack
  | Err _ => Failed5 BadUserNameOrPassword
  end.

(** [MqttResponse::ack] for [ServerError]: what the errors mean, which nothing calls. *)
Definition handshake_ack_v3 (e : ServerError) : HandshakeV3 A :=
  match e with
  | AuthenticationFailed => BadUserOrPassword3
  | ServerNotAuthorized => NotAuthorized3
  | _ => Unavailable3
  end.

Definition handshake_ack_v5 (e : ServerError) : HandshakeV5 A O :=
  match e with
  | AuthenticationFailed => Failed5 BadUserNameOrPassword
  | ServerNotAuthorized => Failed5 ConnectNotAuthorized
  | _ => Failed5 ConnectUnspecified
  end.
End Handshake.

(** ** The session of the MQTT endpoint *)

(** [From<DisconnectError> for ServerError] *)
Definition disconnect_error (e : DisconnectError) : ServerError :=
  match e with AlreadyDisconnected => ServerProtocolError end.

Definition is_normal (code : DisconnectReasonCode) : bool := match code with NormalDisconnection => true | _ => false end.

(** The session with the command registry of its endpoint, the next unused channel, and
    what publishing needs. *)
Record Served (X : Type) := mkServed {
  ep_session : Session;
  ep_commands : Commands;
  ep_next : nat;
  ep_rest : X;
}.
Arguments mkServed {X}.
Arguments ep_session {X} s.
Arguments ep_commands {X} s.
Arguments ep_next {X} s.
Arguments ep_rest {X} s.

Section EndpointSession.
Context `{MqttTopics} {X : Type}.

(** The random numbers a subscription draws, and publishing: to a topic, with a content
    type and the payload, as [session_publish] does ([served_publish] below). *)
Context (draws : nat → list Z).
Context (pub : string → option string → string → Session → X → X * result unit PublishError).

Definition mark_of (a : SubscribeAck) : SubscriptionMark :=
  match a with
  | Confirmed => Confirm Qos0
  | SubscribeFailed => FailWith SubUnspecifiedError
  | IdentifiersNotSupported => FailWith SubIdentifiersNotSupported
  end.

(** The topics, each with a channel of its own. *)
Fixpoint numbered (next : nat) (topics : list (string * PacketQoS)) : list (string * list Z * nat) :=
  match topics with
  | [] => []
  | (topic, _) :: rest => (topic, draws next, next) :: numbered (S next) rest
  end.

Definition ep_publish (p : Publish) (e : Served X) : option (Served X * result unit PublishError) :=
  let '(x, r) := pub (publish_topic p) (publish_properties p ≫= id) (publish_payload p) (ep_session e) (ep_rest e) in
  Some (mkServed (ep_session e) (ep_commands e) (ep_next e) x, r).

Definition ep_subscribe (sub : Subscribe) (e : Served X)
    : option (Served X * list SubscriptionMark * result unit ServerError) :=
  match
    session_subscribe (subscribe_id sub) (numbered (ep_next e) (subscribe_items sub)) (ep_session e) (ep_commands e)
  with
  | Some (s, c, acks) =>
      Some (mkServed s c (ep_next e + length (subscribe_items sub)) (ep_rest e), mark_of <$> acks, Ok tt)
  | None => None
  end.

Definition ep_unsubscribe (u : Unsubscribe) (e : Served X)
    : option (Served X * list UnsubscribeAck * result unit ServerError) :=
  let '(s, c, acks) := session_unsubscribe (unsubscribe_items u) (ep_session e) (ep_commands e) in
  Some (mkServed s c (ep_next e) (ep_rest e), acks, Ok tt).

Definition ep_disconnect (d : Disconnect) (e : Served X) : option (Served X * result unit ServerError) :=
  let '(i, r) := disconnected (is_normal (reason_code d)) (s_disconnect (ep_session e)) in
  Some (mkServed (with_disconnect i (ep_session e)) (ep_commands e) (ep_next e) (ep_rest e),
        map_err disconnect_error r).

Definition ep_closed (_ : CloseReason) (e : Served X) : option (Served X * result unit ServerError) :=
  let '(s, c, _) := closed (ep_session e) (ep_commands e) in
  Some (mkServed s c (ep_next e) (ep_rest e), Ok tt).

#[local] Instance endpoint_session : SessionApi (Served X) := {|
  api_publish := ep_publish;
  api_subscribe := ep_subscribe;
  api_unsubscribe := ep_unsubscribe;
  api_disconnect := ep_disconnect;
  api_closed := ep_closed;
|}.

(** *** A connection over time *)

Inductive Input : Type :=
| InPublish3 (p : V3Publish)
| InPublish5 (p : V5Publish)
| InControl3 (c : ControlV3)
| InControl5 (c : ControlV5).

(** What an input leaves of the session, whatever it is answered. *)
Definition serve (i : Input) (e : Served X) : option (Served X) :=
  match i with
  | InPublish3 p => fst <$> publish_v3 p e
  | InPublish5 p => fst <$> publish_v5 p e
  | InControl3 c => fst <$> control_v3 c e
  | InControl5 c => fst <$> control_v5 c e
  end.

Definition ends (i : Input) : bool :=
  match i with
  | InControl3 (C3PeerGone _ | C3Closed _) | InControl5 (C5PeerGone _ | C5Closed _) => true
  | _ => false
  end.

(** The topics a packet subscribes to, and the ones it unsubscribes: with a
    subscription identifier a packet subscribes to nothing, and the end of a
    connection unsubscribes everything. *)
Definition subscribes (i : Input) (topic : string) : Prop :=
  match i with
  | InControl3 (C3Subscribe topics) | InControl5 (C5Subscribe None _ topics) =>
      topic ∈ topics.*1 ∧ inbox_topic topic
  | _ => False
  end.

Definition unsubscribes (i : Input) (topic : string) : Prop :=
  match i with
  | InControl3 (C3Unsubscribe topics) | InControl5 (C5Unsubscribe topics) => topic ∈ topics
  | _ => ends i = true
  end.

(** The topics a connection has subscribed to after its packets, the latest first. *)
Fixpoint subscribed (inputs : list Input) (topic : string) : Prop :=
  match inputs with
  | [] => False
  | i :: earlier => subscribes i topic ∨ (subscribed earlier topic ∧ ¬ unsubscribes i topic)
  end.

(** The packets of one connection of either version, the latest first, and the
    subscriptions of everyone else at the endpoint. *)
Inductive server_run (id : Id) (dialect : MqttDialect) : list Input → Served X → list Sub → Prop :=
| srv_new others c next x :
    commands_run others c → Forall (λ o, sub_chan o < next) others →
    server_run id dialect [] (mkServed (session_new id dialect) c next x) others
| srv_input inputs e others i e' :
    server_run id dialect inputs e others → serve i e = Some e' → server_run id dialect (i :: inputs) e' others
| srv_other_subscribe inputs e others f c' h :
    server_run id dialect inputs e others →
    subscribe (draws (ep_next e)) (ep_next e) f (ep_commands e) = Some (c', h) →
    server_run id dialect inputs (mkServed (ep_session e) c' (S (ep_next e)) (ep_rest e)) (mkSub f h (ep_next e) :: others)
| srv_other_unsubscribe inputs e l1 sub l2 :
    server_run id dialect inputs e (l1 ++ sub :: l2) →
    server_run id dialect inputs
      (mkServed (ep_session e) (unsubscribe (sub_handle sub) (ep_commands e)) (ep_next e) (ep_rest e)) (l1 ++ l2).
End EndpointSession.

(** Publishing of the MQTT endpoint, with its cache of devices, fits. *)
Section Published.
Context `{Externals, CloudEventsSdk, LruCache string (DeviceCacheEntry Reg.Device)}.
Context (percent_encode : string → string) (from_slice : string → option Value) (instance : string).
Context (sink : string → CE.Event → result PublishOutcome string) (ttl now later : Z).
Context (authorize_as : string → result (option Reg.Device) string).
Context (application : PublishApp (list (Rule Endpoint))) (self : Reg.Device) (fresh : string).

Definition served_publish (topic : string) (content_type : option string) (payload : string) (s : Session)
    (c : DeviceCache Reg.Device) : DeviceCache Reg.Device * result unit PublishError :=
  session_publish percent_encode from_slice instance sink ttl now later authorize_as application self fresh topic
    content_type payload s c.

(** Once the client has disconnected, its publishes are refused as an unspecified error;
    the connection goes on with version 5, and ends with version 3. *)
Theorem published_after_disconnect draws `{MqttTopics} p3 p5 (e : Served (DeviceCache Reg.Device)) :
  s_disconnect (ep_session e) ≠ Connected →
  publish_v5 (H := endpoint_session draws served_publish) p5 e =
    Some (e, Ok (mkPublishAck AckUnspecifiedError (Some "Protocol error"))) ∧
  publish_v3 (H := endpoint_session draws served_publish) p3 e = Some (e, Err (PublishFailed ProtocolError)).
Proof.
  intros Hd. destruct e as [s c next x]. simpl in Hd. unfold publish_v3, publish_v5. cbn [api_publish endpoint_session].
  unfold ep_publish, served_publish, session_publish, ensure_connected. cbn [ep_session ep_rest].
  by destruct (s_disconnect s).
Qed.
End Published.

(** ** Facts *)

(** Whichever way the topics are kept, a loop sees them in the order of the packet. *)
Lemma iter_all_v5 l fuel : length l ≤ fuel → iter_all fuel (IterV5 l) = l.
Proof.
  revert fuel. induction l as [|t l IH]; intros [|fuel] Hf; simpl in *; try done; [lia|].
  by rw IH; [lia|].
Qed.

Lemma iter_all_v3 l fuel : length l ≤ fuel → iter_all fuel (IterV3 (reverse l)) = l.
Proof.
  revert fuel. induction l as [|t l IH]; intros [|fuel] Hf; simpl in *; try done; [lia|].
  rw reverse_cons last_snoc /= removelast_last IH //. lia.
Qed.

Lemma unsubscribe_items_order u :
  unsubscribe_items u = match u with UnsubscribeV3 topics | UnsubscribeV5 topics => topics end.
Proof.
  destruct u as [l|l]; unfold unsubscribe_items; simpl.
  - rw length_reverse. by apply iter_all_v3.
  - by apply iter_all_v5.
Qed.

(** *** Publishing *)

Section ServerProofs.
Context {S : Type} `{SessionApi S}.

(** Version 5 never ends the connection: the acknowledgement tells what the session said,
    a success exactly if it accepted.  Version 3 has no such acknowledgement: every
    refusal is an error of the connection. *)
Theorem publish_answers p3 p5 s s' :
  (∀ r, publish_v5 p5 s = Some (s', r) →
    ∃ said ack, api_publish (PublishV5 p5) s = Some (s', said) ∧ r = Ok ack ∧
      (pa_reason_code ack = AckSuccess ↔ said = Ok tt)) ∧
  (∀ r, publish_v3 p3 s = Some (s', r) →
    ∃ said, api_publish (PublishV3 p3) s = Some (s', said) ∧ (r = Ok tt ↔ said = Ok tt)).
Proof.
  unfold publish_v3, publish_v5. split; intros r.
  - destruct (api_publish (PublishV5 p5) s) as [[s1 [[]|e]]|]; simpl; [..|done]; intros [= -> <-]; eexists _, _;
      (split; [done|]); split; try done. by destruct e.
  - destruct (api_publish (PublishV3 p3) s) as [[s1 [[]|e]]|]; simpl; [..|done]; intros [= -> <-]; by eexists.
Qed.
End ServerProofs.

(** Connecting: both versions accept what the service accepts, and tell the client that
    its credentials are wrong otherwise, whatever the error is. *)
Theorem connect_answers {A O} (session_present : O → bool) (r : result (A * O) ServerError) :
  match r with
  | Ok (a, ack) => connect_v3 session_present r = Accepted3 a (session_present ack) ∧ connect_v5 r = Accepted5 a ack
  | Err _ => connect_v3 session_present r = BadUserOrPassword3 ∧ connect_v5 r = Failed5 BadUserNameOrPassword
  end.
Proof. by destruct r as [[]|]. Qed.

(** This is not what the errors stand for: a device whose state is still held by another
    connection is told that its password is wrong. *)
Theorem connect_hides_errors {A O} (session_present : O → bool) (msg : string) :
  let r : result (A * O) ServerError := Err (StateError msg) in
  connect_v3 session_present r ≠ handshake_ack_v3 (StateError msg) ∧
  connect_v5 r ≠ handshake_ack_v5 (StateError msg).
Proof. done. Qed.

(** *** The two versions *)

Section EndpointProofs.
Context `{MqttTopics} {X : Type}.
Context (draws : nat → list Z).
Context (pub : string → option string → string → Session → X → X * result unit PublishError).
#[local] Instance api : SessionApi (Served X) := endpoint_session draws pub.
Implicit Types e : Served X.

(** The packet of version 5 with the same content. *)
Definition to_v5 (properties : list (string * string)) (err : ServerError) (c : ControlV3) : ControlV5 :=
  match c with
  | C3Error => C5Error err
  | C3ProtocolError => C5ProtocolError
  | C3Ping => C5Ping
  | C3Disconnect => C5Disconnect NormalDisconnection
  | C3PeerGone err => C5PeerGone err
  | C3Subscribe topics => C5Subscribe None properties topics
  | C3Unsubscribe topics => C5Unsubscribe topics
  | C3Closed is_error => C5Closed is_error
  end.

Definition is_ok {A E} (r : result A E) : bool := match r with Ok _ => true | Err _ => false end.

Definition outcome {A E} (r : option (Served X * result A E)) : option (Served X * bool) :=
  (λ x, (x.1, is_ok x.2)) <$> r.

Lemma is_ok_bind {A B E} (r : result A E) (b : B) : is_ok (rbind r (λ _, Ok b)) = is_ok r.
Proof. by destruct r. Qed.

(** The session does not depend on the version of the protocol: the same packets leave it,
    and the registry, in the same state, and succeed together. *)
Theorem versions_agree properties err control e :
  outcome (control_v3 control e) =
  outcome (control_v5 (to_v5 properties err control) e).
Proof.
  destruct control as [| | | |o|topics|topics|b]; try done.
  - by destruct err.
  - unfold control_v3, control_v5, to_v5. cbn [api_subscribe api endpoint_session].
    unfold ep_subscribe. cbn [subscribe_id subscribe_items]. by destruct (session_subscribe _ _ _ _) as [[[s c] acks]|].
  - unfold control_v3, control_v5, to_v5. cbn [api_unsubscribe api endpoint_session].
    unfold ep_unsubscribe. rw !unsubscribe_items_order. by destruct (session_unsubscribe _ _ _) as [[s c] acks].
Qed.

(** Nor does publishing, but for the content type only version 5 has. *)
Theorem publish_versions_agree topic payload qos e :
  option_map fst (publish_v3 (mkV3Publish topic payload qos) e) =
  option_map fst (publish_v5 (mkV5Publish topic payload qos None) e).
Proof.
  unfold publish_v3, publish_v5. cbn [api_publish api endpoint_session]. unfold ep_publish.
  cbn [publish_topic publish_payload publish_properties mbind option_bind id p3_topic p3_payload p5_topic p5_payload
    p5_content_type]. by destruct (pub _ _ _ _ _).
Qed.

(** *** Reachable states *)

Definition chans_below (s : Session) (others : list Sub) (next : nat) : Prop :=
  ∀ o, o ∈ inbox_subs s ++ others → sub_chan o < next.

Lemma below_fresh s others next : chans_below s others next → next ∉ sub_chan <$> inbox_subs s ++ others.
Proof. intros Hb (o & -> & Ho)%list_elem_of_fmap. apply Hb in Ho. lia. Qed.

Lemma below_weaken s others n m : chans_below s others n → n ≤ m → chans_below s others m.
Proof. intros Hb Hle o Ho. apply Hb in Ho. lia. Qed.

Lemma subscribe_topic_below d next topic s c s' c' ack others :
  subscribe_topic d next topic s c = Some (s', c', ack) → chans_below s others next → chans_below s' others (S next).
Proof.
  unfold subscribe_topic, subscribe_inbox. intros Hs Hb. pose proof (below_weaken _ _ _ (S next) Hb) as Hw.
  destruct (parse_subscribe _ _) as [[f enc]|]; [|simplify_eq; apply Hw; lia].
  destruct (s_inbox s !! topic) eqn:Ht; [simplify_eq/=; apply Hw; lia|].
  destruct (Commands.subscribe _ _ _ _) as [[c1 h]|]; [|done]. simplify_eq/=.
  intros o. rw elem_of_app. rw inbox_subs_insert //. intros [[->|Ho]%elem_of_cons|Ho]; [simpl; lia| |];
    apply Nat.lt_lt_succ_r, Hb, elem_of_app; auto.
Qed.

Lemma subscribe_topics_run id dialect topics : ∀ next s others c s' c' acks,
  session_run id dialect s others c → chans_below s others next →
  subscribe_topics (numbered draws next topics) s c = Some (s', c', acks) →
  session_run id dialect s' others c' ∧ chans_below s' others (next + length topics).
Proof.
  induction topics as [|[topic q] topics IH]; intros next s others c s' c' acks Hrun Hb Hs; cbn [numbered subscribe_topics] in Hs.
  - injection Hs as <- <- <-. split; [done|]. eapply below_weaken; [done|lia].
  - destruct (subscribe_topic _ _ _ _ _) as [[[s1 c1] a1]|] eqn:H1; [|done]. simpl in Hs.
    destruct (subscribe_topics _ _ _) as [[[s2 c2] a2]|] eqn:H2; [|done]. simplify_eq/=.
    destruct (IH (S next) s1 others c1 s' c' a2) as [? ?].
    + eapply sr_subscribe; [done|by apply below_fresh|done].
    + by eapply subscribe_topic_below.
    + done.
    + split; [done|]. eapply below_weaken; [done|lia].
Qed.

Lemma session_unsubscribe_run id dialect topics : ∀ s others c s' c' acks next,
  session_run id dialect s others c → chans_below s others next →
  session_unsubscribe topics s c = (s', c', acks) →
  session_run id dialect s' others c' ∧ chans_below s' others next.
Proof.
  induction topics as [|topic topics IH]; intros s others c s' c' acks next Hrun Hb Hs; cbn [session_unsubscribe] in Hs.
  - by injection Hs as <- <- <-.
  - destruct (unsubscribe_topic topic s c) as [[s1 c1] a1] eqn:H1.
    destruct (session_unsubscribe topics s1 c1) as [[s2 c2] a2] eqn:H2. simplify_eq.
    eapply IH; [by eapply sr_unsubscribe| |done]. intros o. unfold unsubscribe_topic in H1.
    destruct (s_inbox s !! topic) as [ib|] eqn:Ht; simplify_eq/=; [|apply Hb]. intros Ho. apply Hb.
    rw elem_of_app (inbox_subs_delete _ _ _ Ht) elem_of_cons. apply elem_of_app in Ho. tauto.
Qed.

Lemma closed_run id dialect s others c s' c' lwt next :
  session_run id dialect s others c → chans_below s others next → closed s c = (s', c', lwt) →
  session_run id dialect s' others c' ∧ chans_below s' others next ∧ s_inbox s' = ∅.
Proof.
  intros Hrun Hb Hc. split; [by eapply sr_closed|]. unfold closed in Hc. destruct (close _). simplify_eq. split; [|done].
  intros o Ho. apply Hb. unfold inbox_subs in Ho. simpl in Ho. rw map_to_list_empty in Ho. apply elem_of_app. by right.
Qed.


Section Reachable.
Context (id : Id) (dialect : MqttDialect).

Definition sound e (others : list Sub) : Prop :=
  session_run id dialect (ep_session e) others (ep_commands e) ∧ chans_below (ep_session e) others (ep_next e).

Lemma ep_subscribe_sound sub e others e' marks r :
  sound e others → ep_subscribe draws sub e = Some (e', marks, r) → sound e' others.
Proof.
  intros [Hrun Hb]. unfold ep_subscribe, session_subscribe. destruct (subscribe_id sub).
  - intros [= <- <- <-]. split; [done|]. eapply below_weaken; [done|]. simpl. lia.
  - destruct (subscribe_topics _ _ _) as [[[s c] acks]|] eqn:Hs; [|done]. intros [= <- <- <-].
    by eapply subscribe_topics_run.
Qed.

Lemma ep_unsubscribe_sound u e others e' acks r :
  sound e others → ep_unsubscribe u e = Some (e', acks, r) → sound e' others.
Proof.
  intros [Hrun Hb]. unfold ep_unsubscribe. destruct (session_unsubscribe _ _ _) as [[s c] a] eqn:Hs.
  intros [= <- <- <-]. by eapply session_unsubscribe_run.
Qed.

Lemma ep_disconnect_sound d e others e' r :
  sound e others → ep_disconnect d e = Some (e', r) → sound e' others.
Proof.
  intros [Hrun Hb]. unfold ep_disconnect. pose proof (sr_disconnect _ _ _ _ _ (is_normal (reason_code d)) Hrun) as Hd.
  destruct (disconnected _ _) as [i x]. intros [= <- <-]. split; [exact Hd|exact Hb].
Qed.

Lemma ep_closed_sound reason e others e' r :
  sound e others → ep_closed reason e = Some (e', r) → sound e' others ∧ s_inbox (ep_session e') = ∅.
Proof.
  intros [Hrun Hb]. unfold ep_closed. destruct (closed _ _) as [[s c] lwt] eqn:Hc. intros [= <- <-].
  destruct (closed_run _ _ _ _ _ _ _ _ _ Hrun Hb Hc) as (? & ? & ?). by split.
Qed.

Lemma ep_publish_sound p e others e' r : sound e others → ep_publish pub p e = Some (e', r) → sound e' others.
Proof. unfold ep_publish. destruct (pub _ _ _ _ _). by intros ? [= <- <-]. Qed.

Lemma then_ack_some (r : option (Served X * result unit ServerError)) a e' :
  fst <$> then_ack r a = Some e' → ∃ x, r = Some (e', x).
Proof. destruct r as [[e1 x]|]; simpl; [|done]. intros [= <-]. eauto. Qed.

(** An input is one of the five operations on the session, or nothing. *)
Lemma serve_cases i e e' :
  serve draws pub i e = Some e' →
  (ends i = false ∧ (e' = e ∨ (∃ p r, ep_publish pub p e = Some (e', r)) ∨
     (∃ sub m r, ep_subscribe draws sub e = Some (e', m, r)) ∨ (∃ u a r, ep_unsubscribe u e = Some (e', a, r)) ∨
     ∃ d r, ep_disconnect d e = Some (e', r))) ∨
  (∃ reason r, ep_closed reason e = Some (e', r)).
Proof.
  assert (Hsub : ∀ sub (f : _ → result ControlResult ServerError),
    fst <$> ('(e, m, r) ← ep_subscribe draws sub e; Some (e, f (m, r))) = Some e' →
    ∃ sub m r, ep_subscribe draws sub e = Some (e', m, r)).
  { intros sub f. destruct (ep_subscribe _ _ _) as [[[e1 m] r]|] eqn:Hs; simpl; [|done]. intros [= <-]. eauto. }
  assert (Huns : ∀ u (f : _ → result ControlResult ServerError),
    fst <$> ('(e, a, r) ← ep_unsubscribe u e; Some (e, f (a, r))) = Some e' →
    ∃ u a r, ep_unsubscribe u e = Some (e', a, r)).
  { intros u f. destruct (ep_unsubscribe _ _) as [[[e1 m] r]|] eqn:Hs; simpl; [|done]. intros [= <-]. eauto. }
  destruct i as [p|p|[| | | |o|l|l|b]|[|err| | |code|o|j pr l|l|b]]; cbn [serve ends control_v3 control_v5];
    try (intros [= <-]; left; split; [done|by left]).
  - unfold publish_v3, publish_v5. cbn [api_publish endpoint_session]. intros Hp. left. split; [done|]. right; left.
    destruct (ep_publish _ _ _) as [[e1 r]|] eqn:He; simplify_eq/=. by eexists _, _.
  - unfold publish_v3, publish_v5. cbn [api_publish endpoint_session]. intros Hp. left. split; [done|]. right; left.
    destruct (ep_publish _ _ _) as [[e1 r]|] eqn:He; simplify_eq/=. by eexists _, _.
  - intros (r & Hr)%then_ack_some. left. split; [done|]. do 4 right. by exists DisconnectV3, r.
  - intros (r & Hr)%then_ack_some. right. by exists (PeerGone o), r.
  - intros Hs. left. split; [done|]. do 2 right. left.
    exact (Hsub (SubscribeV3 l) (λ '(m, r), let? _ := r in Ok (SubAckV3 (mark_v3 <$> m))) Hs).
  - intros Hs. left. split; [done|]. do 3 right. left.
    exact (Huns (UnsubscribeV3 l) (λ '(a, r), let? _ := r in Ok UnsubAckV3) Hs).
  - intros (r & Hr)%then_ack_some. right. by exists (ReasonClosed b), r.
  - destruct err; intros [= <-]; left; (split; [done|by left]).
  - intros (r & Hr)%then_ack_some. left. split; [done|]. do 4 right. by exists (DisconnectV5 code), r.
  - intros (r & Hr)%then_ack_some. right. by exists (PeerGone o), r.
  - intros Hs. left. split; [done|]. do 2 right. left.
    exact (Hsub (SubscribeV5 j pr l) (λ '(m, r), let? _ := r in Ok (SubAckV5 m)) Hs).
  - intros Hs. left. split; [done|]. do 3 right. left.
    exact (Huns (UnsubscribeV5 l) (λ '(a, r), let? _ := r in Ok (UnsubAckV5 a)) Hs).
  - intros (r & Hr)%then_ack_some. right. by exists (ReasonClosed b), r.
Qed.

Lemma serve_sound i e e' others :
  sound e others → serve draws pub i e = Some e' →
  sound e' others ∧ (ends i = true → s_inbox (ep_session e') = ∅).
Proof.
  intros Hs [[Hend Hop]|(reason & r & Hc)]%serve_cases.
  - split; [|congruence].
    destruct Hop as [->|[(p & r & Hp)|[(sub & m & r & Hp)|[(u & a & r & Hp)|(d & r & Hp)]]]]; [done|..].
    + by eapply ep_publish_sound.
    + by eapply ep_subscribe_sound.
    + by eapply ep_unsubscribe_sound.
    + by eapply ep_disconnect_sound.
  - destruct (ep_closed_sound _ _ _ _ _ Hs Hc) as [? ?]. by split.
Qed.

Lemma server_run_sound inputs e others : server_run draws pub id dialect inputs e others → sound e others.
Proof.
  induction 1 as [others c next x Hc Hb|inputs e others i e' _ IH Hi|inputs e others f c' h _ [Hrun Hb] Hs
    |inputs e l1 sub l2 _ [Hrun Hb]].
  - split; [by apply sr_new|]. intros o. unfold inbox_subs. simpl. rw map_to_list_empty. intros Ho.
    by eapply Forall_forall in Hb.
  - by eapply serve_sound.
  - split; simpl.
    + eapply sr_other_subscribe; [done|by apply below_fresh|done].
    + intros o. rw elem_of_app elem_of_cons. intros [Ho|[->|Ho]]; [|simpl; lia|];
        apply Nat.lt_lt_succ_r, Hb, elem_of_app; auto.
  - split; simpl; [by eapply sr_other_unsubscribe|]. intros o Ho. apply Hb. set_solver.
Qed.

(** *** What the inbox holds *)

Lemma subscribe_topics_inbox topics : ∀ next s c s' c' acks,
  subscribe_topics (numbered draws next topics) s c = Some (s', c', acks) →
  ∀ topic, is_Some (s_inbox s' !! topic) ↔
    (topic ∈ topics.*1 ∧ inbox_topic topic) ∨ is_Some (s_inbox s !! topic).
Proof.
  induction topics as [|[t q] topics IH]; intros next s c s' c' acks Hs topic; cbn [numbered subscribe_topics] in Hs.
  { injection Hs as <- _ _. set_solver. }
  destruct (subscribe_topic _ _ _ _ _) as [[[s1 c1] a1]|] eqn:H1; [|done]. simpl in Hs.
  destruct (subscribe_topics _ _ _) as [[[s2 c2] a2]|] eqn:H2; [|done]. simplify_eq/=.
  rewrite (IH _ _ _ _ _ _ H2 topic). rewrite elem_of_cons.
  assert (Hone : is_Some (s_inbox s1 !! topic) ↔ (topic = t ∧ inbox_topic t) ∨ is_Some (s_inbox s !! topic));
    [|rewrite Hone; naive_solver].
  rewrite (inbox_topic_parses (s_dialect s)). unfold subscribe_topic, subscribe_inbox in H1.
  destruct (parse_subscribe (s_dialect s) t) as [[f enc]|]; [|simplify_eq; naive_solver].
  destruct (s_inbox s !! t) as [ib|] eqn:Ht; [simplify_eq/=; naive_solver|].
  destruct (Commands.subscribe _ _ _ _) as [[c2 h]|]; [|done]. simplify_eq/=.
  rewrite lookup_insert_is_Some'. naive_solver.
Qed.

Lemma session_unsubscribe_inbox topics : ∀ s c s' c' acks,
  session_unsubscribe topics s c = (s', c', acks) →
  ∀ topic, is_Some (s_inbox s' !! topic) ↔ is_Some (s_inbox s !! topic) ∧ topic ∉ topics.
Proof.
  induction topics as [|t topics IH]; intros s c s' c' acks Hs topic; cbn [session_unsubscribe] in Hs.
  { injection Hs as <- _ _. set_solver. }
  destruct (unsubscribe_topic t s c) as [[s1 c1] a1] eqn:H1.
  destruct (session_unsubscribe topics s1 c1) as [[s2 c2] a2] eqn:H2. simplify_eq.
  rewrite (IH _ _ _ _ _ H2 topic). rewrite not_elem_of_cons.
  unfold unsubscribe_topic in H1. destruct (s_inbox s !! t) as [ib|] eqn:Ht; simplify_eq/=.
  - rewrite lookup_delete_is_Some. naive_solver.
  - split; [|tauto]. intros [[ib Hib] ?]. split_and!; [by eexists|congruence|done].
Qed.

Lemma ep_subscribe_inbox sub e e' marks r topic :
  ep_subscribe draws sub e = Some (e', marks, r) →
  is_Some (s_inbox (ep_session e') !! topic) ↔
    (subscribe_id sub = None ∧ topic ∈ (subscribe_items sub).*1 ∧ inbox_topic topic) ∨
    is_Some (s_inbox (ep_session e) !! topic).
Proof.
  unfold ep_subscribe, session_subscribe. destruct (subscribe_id sub).
  - intros [= <- <- <-]. simpl. naive_solver.
  - destruct (subscribe_topics _ _ _) as [[[s c] acks]|] eqn:Hs; [|done]. intros [= <- <- <-]. simpl.
    rewrite (subscribe_topics_inbox _ _ _ _ _ _ _ Hs topic). naive_solver.
Qed.

Lemma ep_unsubscribe_inbox u e e' acks r topic :
  ep_unsubscribe u e = Some (e', acks, r) →
  is_Some (s_inbox (ep_session e') !! topic) ↔
    is_Some (s_inbox (ep_session e) !! topic) ∧ topic ∉ unsubscribe_items u.
Proof.
  unfold ep_unsubscribe. destruct (session_unsubscribe _ _ _) as [[s c] a] eqn:Hs.
  intros [= <- <- <-]. by apply (session_unsubscribe_inbox _ _ _ _ _ _ Hs).
Qed.

Lemma ep_closed_inbox reason e e' r : ep_closed reason e = Some (e', r) → s_inbox (ep_session e') = ∅.
Proof. unfold ep_closed, closed. destruct (close _). by intros [= <- _]. Qed.

Lemma ep_disconnect_inbox d e e' r :
  ep_disconnect d e = Some (e', r) → s_inbox (ep_session e') = s_inbox (ep_session e).
Proof. unfold ep_disconnect. destruct (disconnected _ _). by intros [= <- _]. Qed.

Lemma ep_publish_inbox p e e' r :
  ep_publish pub p e = Some (e', r) → s_inbox (ep_session e') = s_inbox (ep_session e).
Proof. unfold ep_publish. destruct (pub _ _ _ _ _). by intros [= <- _]. Qed.

(** What one input does to the inbox. *)
Lemma serve_inbox i e e' topic :
  serve draws pub i e = Some e' →
  is_Some (s_inbox (ep_session e') !! topic) ↔
    subscribes i topic ∨ (is_Some (s_inbox (ep_session e) !! topic) ∧ ¬ unsubscribes i topic).
Proof.
  assert (Hsame : s_inbox (ep_session e') = s_inbox (ep_session e) →
    is_Some (s_inbox (ep_session e') !! topic) ↔ False ∨ (is_Some (s_inbox (ep_session e) !! topic) ∧ ¬ false = true))
    by (intros ->; naive_solver).
  assert (Hgone : s_inbox (ep_session e') = ∅ →
    is_Some (s_inbox (ep_session e') !! topic) ↔ False ∨ (is_Some (s_inbox (ep_session e) !! topic) ∧ ¬ true = true))
    by (intros ->; rewrite lookup_empty is_Some_alt; naive_solver).
  destruct i as [p|p|[| | | |o|l|l|b]|[|err| | |code|o|j pr l|l|b]];
    cbn [serve subscribes unsubscribes ends control_v3 control_v5]; intros Hs;
    try (injection Hs as <-; by apply Hsame);
    try (apply then_ack_some in Hs as [r Hr]; first [exact (Hsame (ep_disconnect_inbox _ _ _ _ Hr))|exact (Hgone (ep_closed_inbox _ _ _ _ Hr))]).
  - unfold publish_v3 in Hs. cbn [api_publish endpoint_session] in Hs.
    destruct (ep_publish _ _ _) as [[e1 r]|] eqn:He; simplify_eq/=. by eapply Hsame, ep_publish_inbox.
  - unfold publish_v5 in Hs. cbn [api_publish endpoint_session] in Hs.
    destruct (ep_publish _ _ _) as [[e1 r]|] eqn:He; simplify_eq/=. by eapply Hsame, ep_publish_inbox.
  - cbn [api_subscribe endpoint_session] in Hs.
    destruct (ep_subscribe _ _ _) as [[[e1 m] r]|] eqn:He; simplify_eq/=.
    rewrite (ep_subscribe_inbox _ _ _ _ _ topic He). simpl. naive_solver.
  - cbn [api_unsubscribe endpoint_session] in Hs.
    destruct (ep_unsubscribe _ _) as [[[e1 m] r]|] eqn:He; simplify_eq/=.
    rewrite (ep_unsubscribe_inbox _ _ _ _ _ topic He) unsubscribe_items_order. naive_solver.
  - destruct err; injection Hs as <-; by apply Hsame.
  - cbn [api_subscribe endpoint_session] in Hs.
    destruct (ep_subscribe _ _ _) as [[[e1 m] r]|] eqn:He; simplify_eq/=.
    rewrite (ep_subscribe_inbox _ _ _ _ _ topic He). simpl. destruct j; naive_solver.
  - cbn [api_unsubscribe endpoint_session] in Hs.
    destruct (ep_unsubscribe _ _) as [[[e1 m] r]|] eqn:He; simplify_eq/=.
    rewrite (ep_unsubscribe_inbox _ _ _ _ _ topic He) unsubscribe_items_order. naive_solver.
Qed.

Lemma server_run_subscribed inputs e others topic :
  server_run draws pub id dialect inputs e others →
  is_Some (s_inbox (ep_session e) !! topic) ↔ subscribed inputs topic.
Proof.
  induction 1 as [others c next x Hc Hb|inputs e others i e' _ IH Hi|inputs e others f c' h _ IH Hs
    |inputs e l1 sub l2 _ IH]; try done.
  - simpl. rewrite lookup_empty is_Some_alt. done.
  - rewrite (serve_inbox _ _ _ _ Hi). simpl. by rewrite IH.
Qed.

(** The tasks of a session get what their topics ask for. *)
Lemma sound_inbox e others topic ib msg :
  sound e others → s_inbox (ep_session e) !! topic = Some ib →
  (sub_chan (ib_sub ib) ∈ send msg (ep_commands e) ↔ topic_asks id topic msg) ∧
  sub_chan (ib_sub ib) ∉ sub_chan <$> others.
Proof.
  intros [Hrun _] Hib. destruct (session_run_inv _ _ _ _ _ Hrun) as (Hinv & Hok & Hid & Hdi).
  destruct (Hok _ _ Hib) as (f & Hp & Hreq). rewrite Hdi in Hp.
  rewrite <- (parsed_wants _ _ _ _ _ msg Hp), <- Hid, <- Hreq.
  assert (Hin : ib_sub ib ∈ inbox_subs (ep_session e)).
  { apply list_elem_of_fmap. exists (topic, ib). split; [done|]. by apply elem_of_map_to_list. }
  pose proof (inv_chans _ _ Hinv) as Hnd. split.
  - rewrite (send_routed _ _ _ _ Hinv). split.
    + intros (o & Ho & Hch & Hw).
      apply list_elem_of_lookup in Ho as [n Hn]. assert (Hin' : ib_sub ib ∈ inbox_subs (ep_session e) ++ others) by set_solver.
      apply list_elem_of_lookup in Hin' as [m Hm].
      assert (n = m) as -> by (eapply (NoDup_lookup _ _ _ (sub_chan o) Hnd); by rewrite list_lookup_fmap ?Hn ?Hm /= ?Hch).
      rewrite Hn in Hm. by simplify_eq.
    + intros Hw. exists (ib_sub ib). split_and!; [set_solver|done|done].
  - intros Hoth. rewrite fmap_app in Hnd. apply NoDup_app in Hnd as (_ & Hdis & _).
    apply (Hdis (sub_chan (ib_sub ib))); [|done]. by apply list_elem_of_fmap_2.
Qed.

(** C18: Whatever packets of whatever version arrive on a connection, it holds an inbox
    for exactly the topics for commands it has subscribed to (with a packet without a
    subscription identifier) and not unsubscribed since, and none once the server was told
    that the peer is gone or the connection closed.  A command goes to an inbox exactly if
    its topic asks for it, so that it goes to the connection exactly if a subscribed topic
    does; the subscriptions of others get what they asked for. *)
Theorem server_inbox inputs e others msg :
  server_run draws pub id dialect inputs e others →
  (∀ topic, is_Some (s_inbox (ep_session e) !! topic) ↔ subscribed inputs topic) ∧
  (∀ topic ib, s_inbox (ep_session e) !! topic = Some ib →
     (sub_chan (ib_sub ib) ∈ send msg (ep_commands e) ↔ topic_asks id topic msg) ∧
     sub_chan (ib_sub ib) ∉ sub_chan <$> others) ∧
  ((∃ topic ib, s_inbox (ep_session e) !! topic = Some ib ∧ sub_chan (ib_sub ib) ∈ send msg (ep_commands e)) ↔
   ∃ topic, subscribed inputs topic ∧ topic_asks id topic msg) ∧
  (∀ ch, ch ∈ send msg (ep_commands e) →
     (∃ topic ib, s_inbox (ep_session e) !! topic = Some ib ∧ sub_chan (ib_sub ib) = ch) ∨
     ∃ o, o ∈ others ∧ sub_chan o = ch ∧ wants (sub_requested o) msg) ∧
  (∀ o, o ∈ others → wants (sub_requested o) msg → sub_chan o ∈ send msg (ep_commands e)).
Proof.
  intros Hr. pose proof (server_run_sound _ _ _ Hr) as Hs.
  pose proof (server_run_subscribed inputs e others) as Hsub. split_and!.
  - intros topic. by apply Hsub.
  - intros topic ib Hib. by apply sound_inbox.
  - split.
    + intros (topic & ib & Hib & Hsend). exists topic. split; [by apply Hsub; [done|eexists]|].
      by apply (sound_inbox _ _ _ _ _ Hs Hib).
    + intros (topic & Hin & Hask). apply (Hsub topic Hr) in Hin as [ib Hib]. exists topic, ib.
      split; [done|]. by apply (sound_inbox _ _ _ _ _ Hs Hib).
  - intros ch [(topic & ib & f & Hib & Hch & _)|Ho]%(session_routing _ _ _ _ _ msg ch (proj1 Hs)); [left; eauto|by right].
  - intros o Ho Hw. apply (session_routing _ _ _ _ _ msg _ (proj1 Hs)). right. eauto.
Qed.
End Reachable.
End EndpointProofs.
