(* ===== verification/CommandSend.v ===== *)
(** * Sending commands to devices

    [integration-common/src/commands]: a command an application sends to one of
    its devices goes to an external endpoint a gateway of the device names
    ([sender/mod.rs] and its three formats), or as an event to the device and
    all of its gateways; [command-endpoint/src/v1alpha1]: the HTTP endpoint that
    sends commands.  The attributes of a device are decoded by [drogue_client],
    requests are those of [reqwest], and the event goes through the publisher of
    [Pipeline]. *)

From S2P Require Import Prelude Json Registry CloudEvents Commands Pipeline HttpEndpoint.

Record CommandOptions := mkCommandOptions {
  cmo_application : string;
  cmo_device : string;
  cmo_command : string;
  cmo_content_type : option string;
}.

(** [registry::v1::ExternalCommandEndpoint] *)
Record ExternalEndpoint := mkExternalEndpoint {
  xe_type : option string;
  xe_method : string;
  xe_url : string;
  xe_headers : list (string * string);
}.

(** The two attributes of a device the code asks for. *)
Class DeviceAttributes := {
  device_enabled : Reg.Device → bool;
  device_commands : Reg.Device → list ExternalEndpoint;
}.

(** ** Requests to external endpoints, [sender/mod.rs] *)

Record Request (Url : Type) := mkRequest {
  rq_method : string;
  rq_url : Url;
  rq_headers : list (string * string);
  rq_json : Value;
}.
Arguments mkRequest {Url}.
Arguments rq_method {Url} r.
Arguments rq_url {Url} r.
Arguments rq_headers {Url} r.
Arguments rq_json {Url} r.

(** URLs, methods, headers and base64 of the crates used; [url_extend] appends
    path segments, which a URL that cannot be a base refuses.  An answer is its
    status and its text. *)
Class Web := {
  Url : Type;
  to_method : string → result (option string) string;
  parse_url : string → result Url string;
  url_extend : list string → Url → option Url;
  header_name : string → result string string;
  header_value : string → result string string;
  base64_encode : string → string;
  json_to_string : Value → result string string;
  http_send : Request Url → result (Z * result string string) string;
}.

Inductive SendError : Type :=
| Transport (source : string)
| HttpError (code : Z) (text : string)
| UnknownType (t : string)
| InvalidConfiguration (msg : string)
| PayloadError (msg : string).

(** [str::parse::<u8>] *)
Definition digit (c : ascii) : option Z :=
  let n := Z.of_N (N_of_ascii c) in
  if (48 <=? n)%Z && (n <=? 57)%Z then Some (n - 48)%Z else None.

Fixpoint parse_digits (acc : Z) (s : string) : option Z :=
  match s with
  | EmptyString => Some acc
  | String c s =>
      d ← digit c;
      let acc := (10 * acc + d)%Z in
      if (acc <? 256)%Z then parse_digits acc s else None
  end.

Definition parse_u8 (s : string) : option Z :=
  match s with
  | EmptyString => None
  | String c t => if bool_decide (c = "+"%char) && negb (is_empty t) then parse_digits 0 t else parse_digits 0 s
  end.

Section Senders.
Context `{Web}.

Fixpoint to_headers (headers : list (string * string)) : result (list (string * string)) SendError :=
  match headers with
  | [] => Ok []
  | (k, v) :: rest =>
      let? key := map_err (λ err, InvalidConfiguration ("Invalid HTTP header key: '" +:+ k +:+ "': " +:+ err))
        (header_name k) in
      let? value := map_err (λ err, InvalidConfiguration ("Invalid HTTP header value: '" +:+ v +:+ "': " +:+ err))
        (header_value v) in
      let? rest := to_headers rest in
      Ok ((key, value) :: rest)
  end.

(** The request but for its body. *)
Definition to_builder (default_method : string) (endpoint : ExternalEndpoint)
    (f : Url → result Url SendError) : result (Value → Request Url) SendError :=
  let? method := map_err InvalidConfiguration (to_method (xe_method endpoint)) in
  let method := default default_method method in
  let? url := map_err (λ err, InvalidConfiguration ("Unable to parse URL: " +:+ err)) (parse_url (xe_url endpoint)) in
  let? url := f url in
  let? headers := to_headers (xe_headers endpoint) in
  Ok (mkRequest method url headers).

Definition default_error (code : Z) (text : result string string) : SendError :=
  match text with
  | Ok text => HttpError code text
  | Err err => HttpError code ("Failed to get error information: " +:+ err)
  end.

Definition is_success (code : Z) : bool := (200 <=? code)%Z && (code <? 300)%Z.

(** Sending, and what its answer means. *)
Definition send_request (request : Request Url) : result unit SendError :=
  let? (code, text) := map_err Transport (http_send request) in
  if is_success code then Ok tt else Err (default_error code text).

(** [port:<port>] *)
Definition command_port (command : string) : result (option Z) SendError :=
  match strip_prefix "port:" command with
  | Some port =>
      match parse_u8 port with
      | Some port => Ok (Some port)
      | None => Err (PayloadError "Using 'port:<port>' command, but port was not a valid integer")
      end
  | None => Ok None
  end.

(** [default.rs] *)
Definition default_request (endpoint : ExternalEndpoint) (command : CommandOptions) (payload : string)
    : result (Request Url) SendError :=
  let? builder := to_builder "POST" endpoint Ok in
  Ok (builder (json_object [
    ("application", Str (cmo_application command));
    ("device", Str (cmo_device command));
    ("command", Str (cmo_command command));
    ("payload", Str (base64_encode payload))])).

(** [ttnv2.rs] *)
Definition ttnv2_request (endpoint : ExternalEndpoint) (command : CommandOptions) (payload : string)
    : result (Request Url) SendError :=
  let? builder := to_builder "POST" endpoint Ok in
  let payload := base64_encode payload in
  let? port := command_port (cmo_command command) in
  match port with
  | Some port =>
      Ok (builder (json_object [
        ("dev_id", Str (cmo_device command)); ("port", Number port); ("confirmed", Bool false);
        ("payload_raw", Str payload)]))
  | None =>
      Ok (builder (json_object [
        ("dev_id", Str (cmo_device command)); ("port", Number 1); ("confirmed", Bool false);
        ("payload_fields", json_object [
          ("command", Str (cmo_command command)); ("command_payload", Str payload)])]))
  end.

(** [ttnv3.rs] *)
Definition ttnv3_request (device_id : string) (endpoint : ExternalEndpoint) (command : CommandOptions)
    (payload : string) : result (Request Url) SendError :=
  let? builder := to_builder "POST" endpoint
    (λ url, ok_or (PayloadError "Failed to extend path") (url_extend [device_id; "down"; "replace"] url)) in
  let payload := base64_encode payload in
  let? port := command_port (cmo_command command) in
  let? (port, payload) :=
    match port with
    | Some port => Ok (port, payload)
    | None =>
        let? text := map_err (λ err, PayloadError ("Failed to encode payload: " +:+ err))
          (json_to_string (json_object [
            ("command", Str (cmo_command command)); ("command_payload", Str payload)])) in
        Ok (1%Z, base64_encode text)
    end in
  Ok (builder (json_object [
    ("downlinks", Array [json_object [("f_port", Number port); ("frm_payload", Str payload)]])])).

(** The request [send_to_external] makes; [sender/mod.rs]. *)
Definition external_request (device_id : string) (endpoint : ExternalEndpoint) (command : CommandOptions)
    (payload : string) : result (Request Url) SendError :=
  match xe_type endpoint with
  | None => default_request endpoint command payload
  | Some t =>
      if string_eqb t "ttn" || string_eqb t "ttnv2" then ttnv2_request endpoint command payload
      else if string_eqb t "ttnv3" then ttnv3_request device_id endpoint command payload
      else Err (UnknownType t)
  end.

Definition send_to_external (device_id : string) (endpoint : ExternalEndpoint) (command : CommandOptions)
    (payload : string) : result unit SendError :=
  let? request := external_request device_id endpoint command payload in
  send_request request.
End Senders.

(** ** [process_command] *)

(** Where a command goes. *)
Inductive Route : Type :=
| External (endpoint : ExternalEndpoint)
| Internal (targets : list string).

Section Commands.
Context `{DeviceAttributes}.

(** The loop over the gateways; [Vec::pop] takes the last endpoint. *)
Fixpoint scan_gateways (gateways : list Reg.Device) (targets : list string) : Route :=
  match gateways with
  | [] => Internal targets
  | gateway :: rest =>
      if negb (device_enabled gateway) then scan_gateways rest targets
      else
        match last (device_commands gateway) with
        | Some endpoint => External endpoint
        | None => scan_gateways rest (targets ++ [Reg.d_name gateway])
        end
  end.

Context `{Web, PublishSections, CloudEventsSdk}.
Context (percent_encode : string → string) (from_slice : string → option Value) (instance : string).

(** The ID, the time and the sink of the n-th event. *)
Context (fresh : nat → string) (now : nat → Z).
Context (sink : nat → string → CE.Event → result PublishOutcome string).

Definition command_publish (application : Reg.Application) (opts : CommandOptions) (target : string)
    : PublishRequest (list (Rule Endpoint)) :=
  mkPublish (publish_app application) (to_id (cmo_device opts)) (to_id target) (cmo_command opts)
    (mkPublishOptions None None None (cmo_content_type opts) [] None).

(** The loop over the targets: the answer, and the targets that were published to with
    the outcome of each. *)
Fixpoint deliver (n : nat) (application : Reg.Application) (opts : CommandOptions) (body : string)
    (targets : list string)
    : HttpResponse * list (string * result PublishOutcome Pipeline.PublishError) :=
  match targets with
  | [] => (finish_with 202, [])
  | target :: rest =>
      let outcome := publish percent_encode from_slice instance Upstream (sink n) (fresh n) (now n)
        (command_publish application opts target) body in
      match outcome with
      | Ok PAccepted =>
          let '(response, log) := deliver (S n) application opts body rest in
          (response, (target, outcome) :: log)
      | Ok PRejected => (finish_with 406, [(target, outcome)])
      | Ok PQueueFull => (finish_with 503, [(target, outcome)])
      | Err err =>
          (mkHttp 500 [] (Bytes (Some "text/plain") (publish_error_display err)), [(target, outcome)])
      end
  end.

(** The answer, the request to an external endpoint if one is made, and the targets
    published to. *)
Record CommandResult := mkCommandResult {
  cr_response : HttpResponse;
  cr_external : option ExternalEndpoint;
  cr_published : list (string * result PublishOutcome Pipeline.PublishError);
}.

Definition process_command (application : Reg.Application) (device : Reg.Device)
    (gateways : list Reg.Device) (opts : CommandOptions) (body : string) : CommandResult :=
  if negb (device_enabled device) then mkCommandResult (finish_with 406) None []
  else
    match scan_gateways gateways [Reg.d_name device] with
    | External endpoint =>
        mkCommandResult
          match send_to_external (Reg.d_name device) endpoint opts body with
          | Ok _ => finish_with 200
          | Err _ => finish_with 406
          end (Some endpoint) []
    | Internal targets =>
        let '(response, log) := deliver 0 application opts body targets in
        mkCommandResult response None log
    end.

(** [command-endpoint/src/v1alpha1/mod.rs]; the lookups of the registry are given.
    [try_join!] fails if either lookup does. *)
Definition command (app_name device_name : string) (command : string) (content_type : option string)
    (body : string) (get_app : result (option Reg.Application) string)
    (get_device_and_gateways : result (option (Reg.Device * list Reg.Device)) string)
    : CommandResult :=
  match get_app, get_device_and_gateways with
  | Ok (Some application), Ok (Some (device, gateways)) =>
      process_command application device gateways
        (mkCommandOptions app_name device_name command content_type) body
  | _, _ => mkCommandResult (finish_with 406) None []
  end.
End Commands.

(** ** Where commands go *)

Section Proofs.
Context `{DeviceAttributes}.

(** The endpoint of the first enabled gateway that names one. *)
Definition first_external (gateways : list Reg.Device) : option ExternalEndpoint :=
  head (omap (λ g, last (device_commands g)) (filter (λ g, device_enabled g = true) gateways)).

(** The device and its enabled gateways. *)
Definition command_targets (device : Reg.Device) (gateways : list Reg.Device) : list string :=
  Reg.d_name device :: (Reg.d_name <$> filter (λ g, device_enabled g = true) gateways).

Lemma scan_gateways_spec gateways targets :
  scan_gateways gateways targets =
  match first_external gateways with
  | Some endpoint => External endpoint
  | None => Internal (targets ++ (Reg.d_name <$> filter (λ g, device_enabled g = true) gateways))
  end.
Proof.
  unfold first_external. revert targets.
  induction gateways as [|g gs IH]; intros targets; simpl; [by rw app_nil_r|].
  rw filter_cons. destruct (device_enabled g) eqn:Hg; simpl.
  - destruct (last (device_commands g)); simpl; [done|]. rw IH -app_assoc. done.
  - apply IH.
Qed.

Context `{Web, PublishSections, CloudEventsLaws}.
Context (percent_encode : string → string) (from_slice : string → option Value) (instance : string).
Context (fresh : nat → string) (now : nat → Z).
Context (sink : nat → string → CE.Event → result PublishOutcome string).

Local Notation deliver := (deliver percent_encode from_slice instance fresh now sink).
Local Notation process_command := (process_command percent_encode from_slice instance fresh now sink).
Local Notation attempt n app opts t body :=
  (publish percent_encode from_slice instance Upstream (sink n) (fresh n) (now n)
    (command_publish app opts t) body).

(** What the loop did: it published to the targets in their order, up to the first that did
    not accept the command; the answer tells how that one ended. *)
Definition delivered (n : nat) (app : Reg.Application) (opts : CommandOptions) (body : string)
    (targets : list string) (out : HttpResponse * list (string * result PublishOutcome Pipeline.PublishError))
    : Prop :=
  out.2.*1 `prefix_of` targets ∧
  (∀ i t o, out.2 !! i = Some (t, o) → o = attempt (n + i) app opts t body) ∧
  (∀ i t o, out.2 !! i = Some (t, o) → S i < length out.2 → o = Ok PAccepted) ∧
  (hr_status out.1 = 202%Z ↔ out.2.*1 = targets ∧ Forall (λ x, x.2 = Ok PAccepted) out.2).

Lemma deliver_stop n app opts body t ts status body' :
  attempt n app opts t body ≠ Ok PAccepted → status ≠ 202%Z →
  delivered n app opts body (t :: ts) (mkHttp status [] body', [(t, attempt n app opts t body)]).
Proof.
  intros Ho Hs. split_and!; simpl.
  - apply prefix_cons, prefix_nil.
  - intros [|i] t' o Hi; [|done]. simplify_eq/=. by rw Nat.add_0_r.
  - intros i t' o Hi. lia.
  - split; [done|]. intros [_ [Hf _]%Forall_cons]. done.
Qed.

Lemma deliver_spec app opts body targets n :
  delivered n app opts body targets (deliver n app opts body targets).
Proof.
  revert n. induction targets as [|t ts IH]; intros n; cbn [CommandSend.deliver].
  - split_and!; simpl; try done.
  - destruct (attempt n app opts t body) as [[| |]|err] eqn:Ho; cycle 1;
      try (rewrite <- Ho; apply deliver_stop; [by rw Ho|done]).
    specialize (IH (S n)). destruct (deliver (S n) app opts body ts) as [r log].
    destruct IH as (Hp & Hat & Hok & Hst). split_and!; cbn [fst snd fmap list_fmap].
    + by apply prefix_cons.
    + intros [|i] t' o Hi; simplify_eq/=; [by rw Nat.add_0_r|].
      rw (Hat _ _ _ Hi). by rw Nat.add_succ_r.
    + intros [|i] t' o Hi Hlt; simplify_eq/=; [done|]. apply (Hok _ _ _ Hi). simpl in *. lia.
    + rw Hst. split.
      * intros [<- Hf]. split; [done|by constructor].
      * intros [[= Heq] [_ Hf]%Forall_cons]. done.
Qed.

(** A command goes where it should, on every branch: nowhere if the device is disabled; to the
    external endpoint of the first enabled gateway that names one, and then to nobody else; or to the
    device and then to each of its enabled gateways, in order, up to the first that does not accept it,
    and the answer is 202 exactly if all of them accepted it. *)
Theorem command_goes_where_it_should app device gateways opts body :
  let r := process_command app device gateways opts body in
  (device_enabled device = false → cr_response r = finish_with 406 ∧ cr_external r = None ∧ cr_published r = []) ∧
  (∀ endpoint, device_enabled device = true → first_external gateways = Some endpoint →
     cr_external r = Some endpoint ∧ cr_published r = [] ∧
     (hr_status (cr_response r) = 200%Z ↔
      send_to_external (Reg.d_name device) endpoint opts body = Ok tt)) ∧
  (device_enabled device = true → first_external gateways = None →
     cr_external r = None ∧
     delivered 0 app opts body (command_targets device gateways) (cr_response r, cr_published r)).
Proof.
  unfold CommandSend.process_command. rw scan_gateways_spec. split_and!.
  - by intros ->.
  - intros endpoint -> ->. simpl. split_and!; [done..|].
    by destruct (send_to_external _ _ _ _) as [[]|].
  - intros -> ->. cbn [negb]. change ([Reg.d_name device] ++ ?l) with (Reg.d_name device :: l).
    pose proof (deliver_spec app opts body (command_targets device gateways) 0) as Hd.
    unfold command_targets in *. by destruct (deliver _ _ _ _ _).
Qed.

(** The data of the event of a command: a body declared as JSON, or without a
    declared type and with JSON for its text, is decoded; any other body is taken
    as it is. *)
Definition command_data (ct : option string) (body : string) : option CE.Data :=
  match ct with
  | Some t => if Pipeline.is_json t then CE.Json <$> from_slice body else Some (CE.Binary body)
  | None => Some (from_option CE.Json (CE.Binary body) (from_slice body))
  end.

Lemma publish_data_content ct body b b' :
  publish_data from_slice ct body b = Some b' →
  CE.b_subject b' = CE.b_subject b ∧ CE.b_data b' = command_data ct body ∧ is_Some (CE.b_data b').
Proof using Type.
  unfold publish_data, command_data. destruct ct as [t|]; [destruct (Pipeline.is_json t)|];
    destruct (from_slice body) as [v|]; intros [= <-]; (split; [done|]); (split; [done|]); by eexists.
Qed.

(** The event of a command for a target: its address, its name and its data. *)
Definition event_of_command (app : Reg.Application) (opts : CommandOptions) (target body : string)
    (e : CE.Event) : Prop :=
  address_from_event e = Some (mkAddress (Reg.a_name app) target (cmo_device opts)) ∧
  CE.subject e = Some (cmo_command opts) ∧
  CE.data e = command_data (cmo_content_type opts) body ∧ is_Some (CE.data e).

(** A command that was accepted: the rules of the application dropped its event, or the
    sink accepted what they made of it. *)
Lemma attempt_event n app opts t body :
  attempt n app opts t body = Ok PAccepted →
  ∃ e0 rules, event_of_command app opts t body e0 ∧
    processor_rules Upstream (publish_app app) = Ok rules ∧
    (process rules e0 = Ok Dropped ∨
     ∃ e, process rules e0 = Ok (Accepted e) ∧ sink n (Reg.a_name app) e = Ok PAccepted).
Proof.
  intros Ha. unfold publish in Ha.
  destruct (publish_data _ _ _ _) as [b|] eqn:Hd; [|done].
  destruct (publish_builder_origin percent_encode from_slice instance (fresh n) (now n)
    (command_publish app opts t)) as (Hi & [ty Ht] & [src Hsrc] & Hinst & Happ & Hdev & Hsnd).
  { intros ? _. apply not_elem_of_nil. }
  pose proof (publish_data_attrs _ _ _ _ _ Hd) as (Hi' & Ht' & Hs' & He').
  destruct (publish_data_content _ _ _ _ Hd) as (Hsub & Hdata & Hsome).
  rw Hi in Hi'. rw Ht in Ht'. rw Hsrc in Hs'. rw (ce_build_ok b (fresh n) ty src Hi' Ht' Hs') in Ha.
  cbn [rbind map_err] in Ha. set (e0 := CE.mkEvent _ _ _ _ _ _ _ _ _) in Ha.
  change (p_application (command_publish app opts t)) with (publish_app app) in Ha.
  destruct (processor_rules Upstream (publish_app app)) as [rules|]; [|done]. cbn [rbind map_err] in Ha.
  exists e0, rules. split_and!; try done.
  - split; [|done]. unfold address_from_event, CE.extension, e0. cbn [CE.extensions].
    by rw He' Happ Hdev Hsnd.
  - destruct (process rules e0) as [[e|reason|]|]; [|done|by left|done]. cbn [rbind map_err] in Ha.
    right. exists e. split; [done|]. change (pa_name (publish_app app)) with (Reg.a_name app) in Ha.
    by destruct (sink n (Reg.a_name app) e) as [o|]; simplify_eq/=.
Qed.

(** The last event of a command that was answered with 202. *)
Lemma accepted_targets app opts body targets i target out :
  delivered 0 app opts body targets out → hr_status out.1 = 202%Z → targets !! i = Some target →
  attempt i app opts target body = Ok PAccepted.
Proof.
  intros (_ & Hat & _ & Hst) H202 Ht. apply Hst in H202 as [Heq Hf]. rewrite <- Heq in Ht.
  rewrite list_lookup_fmap in Ht. destruct (out.2 !! i) as [[t o]|] eqn:Hi; simplify_eq/=.
  rewrite Forall_lookup in Hf. rewrite <- (Hat _ _ _ Hi). by apply (Hf _ _ Hi).
Qed.

(** Where an address comes from. *)
Definition address_extensions : list string := [EXT_APPLICATION; EXT_DEVICE; EXT_SENDER].

Lemma process_address rules e0 e :
  rules_keep_origin address_extensions rules → process rules e0 = Ok (Accepted e) →
  address_from_event e = address_from_event e0.
Proof using Type.
  intros Hk Hp. apply (process_origin address_extensions) in Hp as [_ _ _ Hext]; [|done].
  unfold address_from_event. by rw !Hext; [by_decide..|].
Qed.

Lemma event_of_command_decoded (data_bytes : CE.Data → option string) app opts target body e bytes :
  event_of_command app opts target body e →
  command_data (cmo_content_type opts) body ≫= data_bytes = Some bytes →
  command_from_event data_bytes e
  = Ok (mkCommand (mkAddress (Reg.a_name app) target (cmo_device opts)) (cmo_command opts) (Some bytes)).
Proof using Type.
  intros (Ha & Hs & Hd & [d He]) Hb. rewrite <- Hd, He in Hb. simpl in Hb. unfold command_from_event.
  by rw Ha He /= Hb /= Hs.
Qed.

(** C14: a command for an enabled device whose enabled gateways name no external endpoint, answered
    with 202, is on its way: for the device and each of its enabled gateways an event was made with the
    address of the device through that target, the name of the command and its data (the body, decoded
    if it is JSON); the rules for commands of the application dropped it, or the sink accepted what they
    made of it, and whatever command an endpoint decodes that to, it sends it to every live subscription
    that asks for it.  Rules that leave the extensions of the address alone keep the address; without
    rules the event is accepted as it was made, and decodes to the command that was sent. *)
Theorem command_reaches_subscribers `{MqttTopics} (data_bytes : CE.Data → option string)
    app device gateways opts body i target :
  device_enabled device = true → first_external gateways = None →
  hr_status (cr_response (process_command app device gateways opts body)) = 202%Z →
  command_targets device gateways !! i = Some target →
  ∃ e0 rules, event_of_command app opts target body e0 ∧
    processor_rules Upstream (publish_app app) = Ok rules ∧
    (process rules e0 = Ok Dropped ∨
     ∃ e, process rules e0 = Ok (Accepted e) ∧ sink i (Reg.a_name app) e = Ok PAccepted ∧
       (rules_keep_origin address_extensions rules →
          address_from_event e = Some (mkAddress (Reg.a_name app) target (cmo_device opts))) ∧
       (∀ cmd, command_from_event data_bytes e = Ok cmd →
          ∀ subs c s, commands_run subs c → s ∈ subs → wants (sub_requested s) cmd →
            sub_chan s ∈ send cmd c)) ∧
    (section_commands app = None → sink i (Reg.a_name app) e0 = Ok PAccepted ∧
       ∀ bytes, command_data (cmo_content_type opts) body ≫= data_bytes = Some bytes →
         command_from_event data_bytes e0
         = Ok (mkCommand (mkAddress (Reg.a_name app) target (cmo_device opts)) (cmo_command opts) (Some bytes))).
Proof.
  intros Hen Hex H202 Ht. unfold CommandSend.process_command in H202.
  rewrite scan_gateways_spec Hen Hex in H202. cbn [negb] in H202.
  pose proof (deliver_spec app opts body (command_targets device gateways) 0) as Hd.
  change ([Reg.d_name device] ++ _) with (command_targets device gateways) in H202.
  destruct (deliver _ _ _ _ _) as [r log]. cbn [cr_response] in H202.
  pose proof (accepted_targets _ _ _ _ _ _ _ Hd H202 Ht) as Ha.
  destruct (attempt_event _ _ _ _ _ Ha) as (e0 & rules & He0 & Hr & Hout).
  exists e0, rules. split_and!; [done..| |].
  - destruct Hout as [|(e & Hp & Hs)]; [by left|right]. exists e. split_and!; [done..| |].
    + intros Hk. rewrite (process_address _ _ _ Hk Hp). apply He0.
    + intros cmd _ subs c s Hinv%commands_run_inv Hin Hw. apply (send_routed _ _ _ _ Hinv). eauto.
  - intros Hsec. split; [|by intros bytes; apply event_of_command_decoded].
    unfold processor_rules, publish_app in Hr. cbn [pa_command_rules] in Hr. rewrite Hsec in Hr.
    injection Hr as <-. destruct Hout as [|(e & [= <-] & Hs)]; done.
Qed.
End Proofs.

(** ** Ports of downlinks *)

Lemma parse_digits_range acc s n : (0 ≤ acc < 256)%Z → parse_digits acc s = Some n → (0 ≤ n < 256)%Z.
Proof.
  revert acc. induction s as [|c s IH]; intros acc Ha; simpl; [by intros [= <-]|].
  destruct (digit c) as [d|] eqn:Hd; [|done]. simpl. destruct (_ <? _)%Z eqn:Hlt; [|done].
  apply IH. unfold digit in Hd. destruct (_ && _) eqn:Hc; [|done]. simplify_eq. lia.
Qed.

Lemma parse_u8_range s n : parse_u8 s = Some n → (0 ≤ n < 256)%Z.
Proof.
  destruct s as [|c s]; [done|]. unfold parse_u8. intros Hp.
  destruct (_ && _); by eapply parse_digits_range.
Qed.

(** The port of a command [port:n] is [n], for all the ports there are, and no other command
    names a port. *)
Theorem command_port_correct (command : string) (n : Z) :
  (command_port command = Ok (Some n) → starts_with "port:" command = true ∧ (0 ≤ n < 256)%Z) ∧
  ((0 ≤ n < 256)%Z → command_port ("port:" +:+ pretty.pretty n) = Ok (Some n)).
Proof.
  unfold command_port. split.
  - destruct (strip_prefix "port:" command) as [p|] eqn:Hp; [|done].
    destruct (parse_u8 p) as [m|] eqn:Hm; [|done]. intros [= ->]. split; [|by eapply parse_u8_range].
    apply strip_prefix_some in Hp as ->. apply starts_with_app.
  - intros Hn. rw strip_prefix_app.
    assert (Hall : Forall (λ k, parse_u8 (pretty.pretty (Z.of_nat k)) = Some (Z.of_nat k)) (seq 0 256))
      by by_decide.
    rewrite Forall_forall in Hall. specialize (Hall (Z.to_nat n)). rewrite (Z2Nat.id n) in Hall; [lia|].
    rewrite Hall; [apply elem_of_seq; lia|done].
Qed.
