(* ===== verification/Ttn.v ===== *)
(** * The Things Network operator

    [ttn-operator/src]: applications and devices of the registry that have a
    section for The Things Network are created there too, through its HTTP API
    ([ttn.rs]); the reconcilers ([controller/app.rs], [controller/device.rs])
    bring the network in line with the registry, and clean up before a resource
    is gone.  The service is an oracle that may answer every request in any way,
    depending on all calls so far; the calls are the observable behaviour.  The
    sections of a resource are decoded and encoded by [drogue_client]. *)

From S2P Require Import Prelude Trace Json Registry WorkQueue Reconcile Operators CommandSend.

(** ** Data, [data.rs] and [ttn.rs] *)

Record ReconcileStatus := mkReconcileStatus {
  rs_observed_generation : Z;
  rs_state : string;
  rs_reason : option string;
}.

Definition failed (generation : Z) (err : string) : ReconcileStatus :=
  mkReconcileStatus generation "Failed" (Some err).
Definition reconciled (generation : Z) : ReconcileStatus :=
  mkReconcileStatus generation "Reconciled" None.

Inductive Owner : Type := OUser (user : string) | OOrganization (org : string).

Inductive RegionOrUrl (Url : Type) : Type := RUrl (url : Url) | RRegion (region : string).
Arguments RUrl {Url} url.
Arguments RRegion {Url} region.

Record TtnAppApi (Url : Type) := mkTtnAppApi {
  api_key : string;
  api_region : RegionOrUrl Url;
  api_owner : Owner;
  api_id : option string;
}.
Arguments mkTtnAppApi {Url}.
Arguments api_key {Url} t.
Arguments api_region {Url} t.
Arguments api_owner {Url} t.
Arguments api_id {Url} t.

Record TtnAppStatus := mkTtnAppStatus { as_reconcile : ReconcileStatus; as_app_id : option string }.

Record TtnDeviceSpec := mkTtnDeviceSpec {
  ds_dev_eui : string;
  ds_app_eui : string;
  ds_app_key : string;
  ds_lorawan_version : option string;
  ds_lorawan_phy_version : option string;
  ds_supports_class_b : bool;
  ds_supports_class_c : bool;
  ds_frequency_plan_id : string;
}.

Record TtnDeviceStatus := mkTtnDeviceStatus { dst_reconcile : ReconcileStatus }.

Definition default_app_status : TtnAppStatus := mkTtnAppStatus (mkReconcileStatus 0 "" None) None.

(** ** Requests *)

Inductive Method : Type := GET | POST | PUT | DELETE.

Record TtnRequest (Url : Type) := mkTtnRequest {
  tr_method : Method;
  tr_url : Url;
  tr_token : string;
  tr_json : option Value;
}.
Arguments mkTtnRequest {Url}.
Arguments tr_method {Url} t.
Arguments tr_url {Url} t.
Arguments tr_token {Url} t.
Arguments tr_json {Url} t.

(** The status, the body as JSON and as text. *)
Record Answer := mkAnswer { an_status : Z; an_json : result Value string; an_text : result string string }.

(** URLs of the [url] crate, the basic authorization of [headers], and the texts of status
    codes. *)
Class TtnWeb := {
  TUrl : Type;
  turl_parse : string → result TUrl string;
  turl_extend : list string → TUrl → option TUrl;
  turl_query : string → string → TUrl → TUrl;
  turl_host : TUrl → option string;
  turl_text : TUrl → string;
  basic_auth : string → string → option string;
  status_display : Z → string;
}.

(** The sections of applications and devices. *)
Class TtnSections `{TtnWeb} := {
  app_spec : Reg.Application → option (result (TtnAppApi TUrl) string);
  app_status : Reg.Application → option (result TtnAppStatus string);
  set_app_status : TtnAppStatus → Reg.Application → result Reg.Application string;
  device_spec : Reg.Device → option (result TtnDeviceSpec string);
  device_status : Reg.Device → option (result TtnDeviceStatus string);
  set_device_status : TtnDeviceStatus → Reg.Device → result Reg.Device string;
  gateway_names : Reg.Device → option (result (list string) string);
  set_gateway_names : list string → Reg.Device → result Reg.Device string;
  gateway_key : string;
  set_commands : list ExternalEndpoint → Reg.Device → result Reg.Device string;
  authentication : Reg.Device → option (result (list Reg.Credential) string);
  add_credential : Reg.Credential → Reg.Device → result Reg.Device string;
}.

(** ** Calls *)

Section Monad.
Context `{TtnWeb}.

Inductive Call : Type :=
| CHttp (r : TtnRequest TUrl)
| CGetDevice (app device : string)
| CCreateDevice (d : Reg.Device)
| CUpdateDevice (d : Reg.Device).

(** Indexing a JSON value that is not an object panics. *)
Inductive Failure : Type := Failed (e : ReconcileError) | Panic.

Definition M (A : Type) : Type := Traced Call Failure A.
Definition lift {A} (r : result A ReconcileError) : M A := from_result (map_err Failed r).
End Monad.

Definition permanent {A} (r : result A string) : result A ReconcileError := map_err Permanent r.
Definition temporary {A} (r : result A string) : result A ReconcileError := map_err Temporary r.

(** ** The client, [ttn.rs] *)

Definition FIELD_MASK_WEBHOOK : list string := [
  "base_url"; "downlink_ack"; "downlink_api_key"; "downlink_failed"; "downlink_nack";
  "downlink_queue_invalidated"; "downlink_queued"; "downlink_sent"; "format"; "headers"; "ids";
  "ids.application_ids"; "ids.application_ids.application_id"; "ids.webhook_id"; "join_accept";
  "location_solved"; "service_data"; "uplink_message"; "uplink_message.path"].
Definition FIELD_MASK_DEVICE_CREATE : list string := ["ids.dev_eui"; "ids.join_eui"].
Definition FIELD_MASK_DEVICE_JS_CREATE : list string := ["ids.dev_eui"; "ids.join_eui"; "ids.device_id"].
Definition FIELD_MASK_DEVICE_NS_CREATE : list string := ["ids.device_id"; "ids.dev_eui"; "ids.join_eui"].
Definition FIELD_MASK_DEVICE_CORE : list string := [
  "name"; "description"; "attributes"; "join_server_address"; "network_server_address";
  "application_server_address"].
Definition FIELD_MASK_DEVICE_JS : list string := [
  "network_server_address"; "application_server_address"; "network_server_kek_label";
  "application_server_kek_label"; "application_server_id"; "net_id"; "root_keys.app_key.key"].
Definition FIELD_MASK_DEVICE_AS : list string := ["ids.device_id"; "ids.dev_eui"; "ids.join_eui"].
Definition FIELD_MASK_DEVICE_NS : list string := [
  "multicast"; "supports_join"; "lorawan_version"; "mac_settings.supports_32_bit_f_cnt";
  "supports_class_c"; "supports_class_b"; "lorawan_phy_version"; "frequency_plan_id"].
Definition FIELD_MASK_APP_STR : string := "name,attributes".

Definition paths_json (paths : list string) : Value := json_object [("paths", Array (Str <$> paths))].

Record DeviceIds := mkDeviceIds { di_device_id : string; di_dev_eui : string; di_join_eui : string }.

Definition ids_json (i : DeviceIds) : Value :=
  json_object [("device_id", Str (di_device_id i)); ("dev_eui", Str (di_dev_eui i)); ("join_eui", Str (di_join_eui i))].

(** A device as it is sent: its three parts, as they are serialized. *)
Record TtnDevice := mkTtnDevice {
  td_ids : DeviceIds;
  td_end_device : list (string * Value);
  td_ns_device : list (string * Value);
  td_js_device : list (string * Value);
}.

Section Client.
Context `{TtnWeb}.

Record TtnContext := mkTtnContext { cx_api_key : string; cx_url : TUrl }.

(** The service: what it answers, after the calls so far. *)
Context (ttn : list Call → TtnRequest TUrl → result Answer string).

Definition region_url (r : RegionOrUrl TUrl) : result TUrl string :=
  match r with
  | RUrl url => Ok url
  | RRegion region => turl_parse ("https://" +:+ region +:+ ".cloud.thethings.network")
  end.

Definition to_context (api : TtnAppApi TUrl) : result TtnContext ReconcileError :=
  let? url := map_err (λ err, Permanent ("Failed to parse URL: " +:+ err)) (region_url (api_region api)) in
  Ok (mkTtnContext (api_key api) url).

(** [Client::url] *)
Definition ttn_url (ctx : TtnContext) (path : list string) : result TUrl ReconcileError :=
  ok_or (Permanent "Failed to modify path") (turl_extend path (cx_url ctx)).

Definition owner_path (o : Owner) : list string :=
  match o with
  | OUser user => ["users"; user]
  | OOrganization org => ["organizations"; org]
  end.

Definition send_ttn (method : Method) (url : TUrl) (ctx : TtnContext) (json : option Value) : M Answer :=
  let r := mkTtnRequest method url (cx_api_key ctx) json in
  call (CHttp r) (λ l, map_err Failed (permanent (ttn l r))).

Definition is_server_error (code : Z) : bool := (500 <=? code)%Z && (code <? 600)%Z.

Definition default_error {A} (answer : Answer) : M A :=
  let code := an_status answer in
  let info := match an_text answer with Ok t => t | Err _ => "" end in
  let msg := status_display code +:+ ": " +:+ info in
  fail (Failed (if (code =? 501)%Z then Permanent ("Implementation error: " +:+ msg)
                else if is_server_error code then Temporary ("Request failed: " +:+ msg)
                else Permanent ("Request failed: " +:+ msg))).

Definition app_json (app_id : string) : list (string * Value) :=
  [("name", Str app_id); ("attributes", json_object [("drogue-app", Str app_id)])].

Definition create_app (app_id ttn_app_id : string) (owner : Owner) (ctx : TtnContext) : M unit :=
  let! url := lift (ttn_url ctx (["api"; "v3"] ++ owner_path owner ++ ["applications"])) in
  let! answer := send_ttn POST url ctx (Some (json_object [("application",
    json_object (("ids", json_object [("application_id", Str ttn_app_id)]) :: app_json app_id))])) in
  if is_success (an_status answer) then
    let! _ := lift (permanent (an_text answer)) in ret tt
  else if (an_status answer =? 409)%Z then
    fail (Failed (Permanent ("An application with the name '" +:+ ttn_app_id +:+ "' already exists in the TTN system. This may be another user claiming that name, or a previously created application which is still pending final deletion. You can still choose to use a different name.")))
  else default_error answer.

Definition update_app (app_id ttn_app_id : string) (ctx : TtnContext) : M unit :=
  let! url := lift (ttn_url ctx ["api"; "v3"; "applications"; ttn_app_id]) in
  let! answer := send_ttn PUT url ctx (Some (json_object [("application", json_object (app_json app_id));
    ("field_mask", paths_json ["name"; "attributes"])])) in
  if is_success (an_status answer) then
    let! _ := lift (permanent (an_text answer)) in ret tt
  else default_error answer.

(** The answer of a request for something that may not exist. *)
Definition get_answer (missing : list Z) (answer : Answer) : M (option Value) :=
  if (an_status answer =? 200)%Z then
    let! json := lift (permanent (an_json answer)) in ret (Some json)
  else if existsb (Z.eqb (an_status answer)) missing then ret None
  else default_error answer.

Definition get_app (app_id : string) (ctx : TtnContext) : M (option Value) :=
  let! url := lift (ttn_url ctx ["api"; "v3"; "applications"; app_id]) in
  let! answer := send_ttn GET (turl_query "field_mask" FIELD_MASK_APP_STR url) ctx None in
  get_answer [403%Z; 404%Z] answer.

(** Deleting what may be gone already. *)
Definition delete_at (path : list string) (ctx : TtnContext) : M unit :=
  let! url := lift (ttn_url ctx path) in
  let! answer := send_ttn DELETE url ctx None in
  if (an_status answer =? 200)%Z || (an_status answer =? 404)%Z then ret tt else default_error answer.

Definition delete_app (app_id : string) (ctx : TtnContext) : M unit :=
  delete_at ["api"; "v3"; "applications"; app_id] ctx.

Definition get_webhook (app_id webhook_id : string) (ctx : TtnContext) : M (option Value) :=
  let! url := lift (ttn_url ctx ["api"; "v3"; "as"; "webhooks"; app_id; webhook_id]) in
  let! answer := send_ttn GET (turl_query "field_mask" (join "," FIELD_MASK_WEBHOOK) url) ctx None in
  get_answer [404%Z] answer.

Definition webhook_json (endpoint_url : TUrl) (auth : string) : list (string * Value) :=
  [("base_url", Str (turl_text endpoint_url)); ("format", Str "json"); ("uplink_message", Object []);
   ("headers", json_object [("Authorization", Str auth)])].

Definition put_webhook (method : Method) (path : list string) (webhook : list (string * Value))
    (ctx : TtnContext) : M unit :=
  let! url := lift (ttn_url ctx path) in
  let! answer := send_ttn method url ctx (Some (json_object [("field_mask", paths_json FIELD_MASK_WEBHOOK);
    ("webhook", json_object webhook)])) in
  if is_success (an_status answer) then
    let! _ := lift (permanent (an_text answer)) in ret tt
  else default_error answer.

Definition create_webhook (app_id webhook_id : string) (endpoint_url : TUrl) (auth : string)
    (ctx : TtnContext) : M unit :=
  put_webhook POST ["api"; "v3"; "as"; "webhooks"; app_id]
    (("ids", json_object [("webhook_id", Str webhook_id)]) :: webhook_json endpoint_url auth) ctx.

Definition update_webhook (app_id webhook_id : string) (endpoint_url : TUrl) (auth : string)
    (ctx : TtnContext) : M unit :=
  put_webhook PUT ["api"; "v3"; "as"; "webhooks"; app_id; webhook_id] (webhook_json endpoint_url auth) ctx.

Definition get_device (app_id device_id : string) (ctx : TtnContext) : M (option Value) :=
  let! url := lift (ttn_url ctx ["api"; "v3"; "applications"; app_id; "devices"; device_id]) in
  let! answer := send_ttn GET url ctx None in
  get_answer [404%Z] answer.

Definition device_path (prefix : option string) (app_id device_id : string) : list string :=
  ["api"; "v3"] ++ (match prefix with Some p => [p] | None => [] end)
  ++ ["applications"; app_id; "devices"; device_id].

Definition delete_device_json (prefix : option string) (app_id device_id : string) (ctx : TtnContext)
    : M unit := delete_at (device_path prefix app_id device_id) ctx.

Definition delete_device (app_id device_id : string) (ctx : TtnContext) : M unit :=
  let! _ := delete_device_json (Some "ns") app_id device_id ctx in
  let! _ := delete_device_json (Some "js") app_id device_id ctx in
  let! _ := delete_device_json (Some "as") app_id device_id ctx in
  delete_device_json None app_id device_id ctx.

Definition make_device_json (ids : DeviceIds) (v : list (string * Value)) (paths : list string) : Value :=
  json_object [("end_device", json_object (v ++ [("ids", ids_json ids)])); ("field_mask", paths_json paths)].

(** Sending a part of a device: anything but 200 is an error. *)
Definition put_json (method : Method) (path : list string) (ids : DeviceIds) (payload : list (string * Value))
    (paths : list string) (ctx : TtnContext) : M unit :=
  let! url := lift (ttn_url ctx path) in
  let! answer := send_ttn method url ctx (Some (make_device_json ids payload paths)) in
  if (an_status answer =? 200)%Z then ret tt else default_error answer.

Definition put_device_json (prefix app_id : string) (ids : DeviceIds) (payload : list (string * Value))
    (paths : list string) (ctx : TtnContext) : M unit :=
  put_json PUT (device_path (Some prefix) app_id (di_device_id ids)) ids payload paths ctx.

Definition set_ns_js_as (app_id : string) (device : TtnDevice) (ctx : TtnContext)
    (ns_mask js_mask : list string) : M unit :=
  let! _ := put_device_json "ns" app_id (td_ids device) (td_ns_device device) ns_mask ctx in
  let! _ := put_device_json "js" app_id (td_ids device) (td_js_device device) js_mask ctx in
  put_device_json "as" app_id (td_ids device) [] FIELD_MASK_DEVICE_AS ctx.

Definition create_device (app_id : string) (device : TtnDevice) (ctx : TtnContext) : M unit :=
  let! _ := put_json POST ["api"; "v3"; "applications"; app_id; "devices"] (td_ids device)
    (td_end_device device) (FIELD_MASK_DEVICE_CORE ++ FIELD_MASK_DEVICE_CREATE) ctx in
  set_ns_js_as app_id device ctx (FIELD_MASK_DEVICE_NS ++ FIELD_MASK_DEVICE_NS_CREATE)
    (FIELD_MASK_DEVICE_JS ++ FIELD_MASK_DEVICE_JS_CREATE).

Definition update_device (app_id : string) (device : TtnDevice) (ctx : TtnContext) : M unit :=
  let! _ := put_json PUT (device_path None app_id (di_device_id (td_ids device))) (td_ids device)
    (td_end_device device) FIELD_MASK_DEVICE_CORE ctx in
  set_ns_js_as app_id device ctx FIELD_MASK_DEVICE_NS FIELD_MASK_DEVICE_JS.
End Client.

(** ** Metadata *)

Definition FINALIZER : string := "ttn".
Definition TTN_GATEWAY_NAME : string := "ttn-gateway".
Definition TTN_WEBHOOK_NAME : string := "drogue-iot".

(** The decision both reconcilers make. *)
Definition eval_resource {I C D} (requested : option C) (finalizers : list string) (deleted : bool)
    (ignore : I) (deconstruct : D) : ReconcileState I C D :=
  match requested, existsb (string_eqb FINALIZER) finalizers, deleted with
  | None, false, _ => Ignore ignore
  | Some c, _, false => Construct c
  | _, _, true | None, true, _ => Deconstruct deconstruct
  end.

(** [section().transpose()?] *)
Definition transpose {A} (s : option (result A string)) : result (option A) ReconcileError :=
  match s with
  | Some (Ok a) => Ok (Some a)
  | Some (Err e) => Err (Permanent e)
  | None => Ok None
  end.

(** [section().and_then(|s| s.ok())] *)
Definition section_ok {A} (s : option (result A string)) : option A :=
  match s with Some (Ok a) => Some a | _ => None end.

Section Reconcilers.
Context `{TtnSections}.
Context (ttn : list Call → TtnRequest TUrl → result Answer string).

(** [controller/mod.rs] *)
Definition ensure_stable_app_id (app : Reg.Application) (spec : TtnAppApi TUrl) (current_app_id : string)
    : result unit ReconcileError :=
  let defined_id := default (Reg.a_name app) (api_id spec) in
  if string_eqb defined_id current_app_id then Ok tt
  else Err (Permanent ("Application IDs have changed - requested: " +:+ defined_id +:+ ", current: "
              +:+ current_app_id)).

(** *** Devices, [controller/device.rs] *)

Record DeviceConstruct := mkDeviceConstruct {
  dc_app : Reg.Application;
  dc_app_spec : option (TtnAppApi TUrl);
  dc_app_status : option TtnAppStatus;
  dc_device : Reg.Device;
  dc_device_spec : TtnDeviceSpec;
}.

Record DeviceDeconstruct := mkDeviceDeconstruct {
  dd_app_spec : option (TtnAppApi TUrl);
  dd_app_status : option TtnAppStatus;
  dd_device : Reg.Device;
}.

Definition device_eval_state (app : Reg.Application) (device : Reg.Device)
    : result (ReconcileState Reg.Device DeviceConstruct DeviceDeconstruct) ReconcileError :=
  let? spec := transpose (app_spec app) in
  let? status := transpose (app_status app) in
  let? dspec := transpose (device_spec device) in
  Ok (eval_resource (mkDeviceConstruct app spec status device <$> dspec) (Reg.d_finalizers device)
        (bool_decide (is_Some (Reg.d_deletion_timestamp device))) device
        (mkDeviceDeconstruct spec status device)).

(** Whether the selector changed, and the device with the selector set. *)
Definition ensure_gateway_for_device (device : Reg.Device) : result (bool * Reg.Device) ReconcileError :=
  let original := default [] (section_ok (gateway_names device)) in
  let? device := permanent (set_gateway_names [TTN_GATEWAY_NAME] device) in
  Ok (negb (bool_decide (original = [TTN_GATEWAY_NAME])), device).

Definition or_default (s : option string) (d : string) : string :=
  match s with
  | Some s => if is_empty s then d else s
  | None => d
  end.

(** The device as the network should have it. *)
Definition ttn_device (server ttn_device_id : string) (spec : TtnDeviceSpec) : TtnDevice :=
  mkTtnDevice
    (mkDeviceIds ttn_device_id (ds_dev_eui spec) (ds_app_eui spec))
    [("name", Str ttn_device_id); ("network_server_address", Str server);
     ("application_server_address", Str server); ("join_server_address", Str server)]
    [("multicast", Bool false); ("supports_join", Bool true);
     ("lorawan_version", Str (or_default (ds_lorawan_version spec) "MAC_V1_0"));
     ("lorawan_phy_version", Str (or_default (ds_lorawan_phy_version spec) "PHY_V1_0"));
     ("mac_settings", json_object [("supports_32_bit_f_cnt", Bool true)]);
     ("supports_class_b", Bool (ds_supports_class_b spec));
     ("supports_class_c", Bool (ds_supports_class_b spec));
     ("frequency_plan_id", Str (ds_frequency_plan_id spec))]
    [("network_server_address", Str server); ("application_server_address", Str server);
     ("join_server_address", Str server); ("network_server_kek_label", Str "");
     ("application_server_kek_label", Str ""); ("application_server_id", Str ""); ("net_id", Null);
     ("root_keys", json_object [("app_key", json_object [("key", Str (ds_app_key spec))])])].

Definition ensure_device (device_name : string) (api : TtnAppApi TUrl) (ttn_app_id : string)
    (spec : TtnDeviceSpec) : M unit :=
  let! ctx := lift (to_context api) in
  let! found := get_device ttn ttn_app_id device_name ctx in
  let! server := lift (map_err (λ _, Permanent "Failed to parse TTN API URL") (region_url (api_region api))) in
  let! server := lift (ok_or (Permanent "Missing hostname of TTP API") (turl_host server)) in
  let device := ttn_device server device_name spec in
  match found with
  | None => create_device ttn ttn_app_id device ctx
  | Some _ => update_device ttn ttn_app_id device ctx
  end.

Definition device_construct (ctx : DeviceConstruct) : M (ProcessOutcome Reg.Device) :=
  let device := dc_device ctx in
  match ensure_finalizer FINALIZER (Reg.d_finalizers device) with
  | Some finalizers => ret (PRetry (device_with_finalizers finalizers device) None)
  | None =>
      let! spec := lift (ok_or (Permanent "Missing TTN configuration in application. Unable to process.")
        (dc_app_spec ctx)) in
      let! astatus := lift (ok_or (Temporary "Missing TTN status information in application. Waiting ...")
        (dc_app_status ctx)) in
      let app_id := default (Reg.a_name (dc_app ctx)) (as_app_id astatus) in
      let! _ := lift (ensure_stable_app_id (dc_app ctx) spec app_id) in
      let! (changed, device) := lift (ensure_gateway_for_device device) in
      if changed then ret (PRetry device None)
      else
        let! _ := ensure_device (Reg.d_name device) spec app_id (dc_device_spec ctx) in
        let status := mkTtnDeviceStatus (reconciled (Reg.d_generation device)) in
        let! device := lift (permanent (set_device_status status device)) in
        ret (PComplete device)
  end.

Definition device_deconstruct (ctx : DeviceDeconstruct) : M (ProcessOutcome Reg.Device) :=
  let device := dd_device ctx in
  let! _ :=
    match dd_app_status ctx ≫= as_app_id with
    | Some app_id =>
        let! api := lift (ok_or (Permanent "Missing API configuration in application.") (dd_app_spec ctx)) in
        let! ttn_ctx := lift (to_context api) in
        delete_device ttn app_id (Reg.d_name device) ttn_ctx
    | None => ret tt
    end in
  ret (PComplete (device_with (remove_finalizer FINALIZER (Reg.d_finalizers device))
    (map_remove gateway_key (Reg.d_spec device)) (map_remove "ttn" (Reg.d_status device)) device)).

(** [ReconcileProcessor::reconcile] of the device controller. *)
Definition process_device (app : Reg.Application) (device : Reg.Device) : M (ProcessOutcome Reg.Device) :=
  let! state := lift (device_eval_state app device) in
  match state with
  | Ignore device => ret (PComplete device)
  | Construct ctx => device_construct ctx
  | Deconstruct ctx => device_deconstruct ctx
  end.

(** [recover] *)
Definition device_recover (message : string) (device : Reg.Device) : result Reg.Device unit :=
  map_err (λ _, tt)
    (let? _ := match device_status device with Some (Err e) => Err e | _ => Ok tt end in
     set_device_status (mkTtnDeviceStatus (failed (Reg.d_generation device) message)) device).

(** *** Applications, [controller/app.rs] *)

(** The registry, and the address of the HTTP endpoint. *)
Context (reg_get : list Call → string → string → result (option Reg.Device) string).
Context (reg_create reg_update : list Call → Reg.Device → result unit string).
Context (endpoint_url : TUrl).

Definition registry_get (app device : string) : M (option Reg.Device) :=
  call (CGetDevice app device) (λ l, map_err Failed (temporary (reg_get l app device))).
Definition registry_create (d : Reg.Device) : M unit :=
  call (CCreateDevice d) (λ l, map_err Failed (temporary (reg_create l d))).
Definition registry_update (d : Reg.Device) : M unit :=
  call (CUpdateDevice d) (λ l, map_err Failed (temporary (reg_update l d))).

Record AppConstruct := mkAppConstruct {
  ac_app : Reg.Application;
  ac_spec : TtnAppApi TUrl;
  ac_status : option TtnAppStatus;
}.

Record AppDeconstruct := mkAppDeconstruct {
  ad_app : Reg.Application;
  ad_spec : option (TtnAppApi TUrl);
  ad_status : option TtnAppStatus;
}.

Definition app_eval_state (app : Reg.Application)
    : result (ReconcileState Reg.Application AppConstruct AppDeconstruct) ReconcileError :=
  let? spec := transpose (app_spec app) in
  let status := section_ok (app_status app) in
  Ok (eval_resource ((λ spec, mkAppConstruct app spec status) <$> spec) (Reg.a_finalizers app)
        (bool_decide (is_Some (Reg.a_deletion_timestamp app))) app (mkAppDeconstruct app spec status)).

(** The first password of the gateway, whatever its kind. *)
Fixpoint find_password (l : list Reg.Credential) : option Reg.Password :=
  match l with
  | [] => None
  | Reg.PasswordOnly pwd :: _ => Some pwd
  | _ :: rest => find_password rest
  end.

(** [fresh_password] is the random one. *)
Definition gateway_password (fresh_password : string) (gateway : Reg.Device)
    : result (string * Reg.Device) ReconcileError :=
  match section_ok (authentication gateway) ≫= find_password with
  | Some (Reg.Plain password) => Ok (password, gateway)
  | _ =>
      let? gateway := permanent (add_credential (Reg.PasswordOnly (Reg.Plain fresh_password)) gateway) in
      Ok (fresh_password, gateway)
  end.

Definition downlink_endpoint (ttn_app_id : string) (ctx : TtnContext) : result ExternalEndpoint ReconcileError :=
  let? url := ok_or (Permanent "Unable to modify path")
    (turl_extend ["api"; "v3"; "as"; "applications"; ttn_app_id; "devices"] (cx_url ctx)) in
  Ok (mkExternalEndpoint (Some "ttnv3") "" (turl_text url)
        [("Authorization", "Bearer " +:+ cx_api_key ctx)]).

Definition ensure_gateway_config (fresh_password ttn_app_id : string) (gateway : Reg.Device)
    (ctx : TtnContext) : result (string * Reg.Device) ReconcileError :=
  let? (password, gateway) := gateway_password fresh_password gateway in
  let? endpoint := downlink_endpoint ttn_app_id ctx in
  let? gateway := permanent (set_commands [endpoint] gateway) in
  Ok (password, gateway).

(** A new gateway; the defaults of the other metadata. *)
Definition new_gateway (app_name app_id : string) : Reg.Device :=
  Reg.mkDevice "" TTN_GATEWAY_NAME app_name {["ttn/app-id" := app_id]} ∅ 0 0 "" None [] [] [].

Definition ensure_gateway (fresh_password app_id : string) (app : Reg.Application) (ctx : TtnContext)
    : M string :=
  let! gateway := registry_get (Reg.a_name app) TTN_GATEWAY_NAME in
  match gateway with
  | None =>
      let! (password, gateway) := lift (ensure_gateway_config fresh_password app_id
        (new_gateway (Reg.a_name app) app_id) ctx) in
      let! _ := registry_create gateway in
      ret password
  | Some gateway =>
      let! (password, gateway) := lift (ensure_gateway_config fresh_password app_id gateway ctx) in
      let! _ := registry_update gateway in
      ret password
  end.

(** [IndexMut] of a value: null becomes an object, other values panic. *)
Definition index_set (k : string) (f : Value → option Value) (v : Value) : option Value :=
  match v with
  | Null => x ← f Null; Some (Object [(k, x)])
  | Object m => x ← f (default Null (map_get k m)); Some (Object (map_insert k x m))
  | _ => None
  end.
Definition assign (x : Value) (_ : Value) : option Value := Some x.

(** [None] if indexing panics. *)
Definition need_webhook_update (current : Value) (auth : string) : option bool :=
  expected ← index_set "base_url" (assign (Str (turl_text endpoint_url))) current;
  expected ← index_set "format" (assign (Str "json")) expected;
  expected ← index_set "headers" (index_set "Authorization" (assign (Str auth))) expected;
  expected ← index_set "uplink" (assign (Object [])) expected;
  Some (negb (bool_decide (expected = current))).

Definition or_panic {A} (x : option A) : M A :=
  match x with Some a => ret a | None => fail Panic end.

Definition reconcile_app (app_id : string) (ttn_app : Value) (app : Reg.Application) (ctx : TtnContext)
    : M unit :=
  let! changed := or_panic (index_set "name" (assign (Str (Reg.a_name app))) ttn_app) in
  let! changed := or_panic (index_set "attributes" (index_set "drogue-app" (assign (Str (Reg.a_name app)))) changed) in
  if bool_decide (ttn_app = changed) then ret tt
  else update_app ttn (Reg.a_name app) app_id ctx.

Definition ensure_webhook (ttn_app_id auth : string) (ctx : TtnContext) : M unit :=
  let! webhook := get_webhook ttn ttn_app_id TTN_WEBHOOK_NAME ctx in
  match webhook with
  | None => create_webhook ttn ttn_app_id TTN_WEBHOOK_NAME endpoint_url auth ctx
  | Some webhook =>
      let! needed := or_panic (need_webhook_update webhook auth) in
      if needed then update_webhook ttn ttn_app_id TTN_WEBHOOK_NAME endpoint_url auth ctx
      else ret tt
  end.

Definition ensure_app (fresh_password : string) (app : Reg.Application) (spec : TtnAppApi TUrl)
    (ttn_app_id : string) : M unit :=
  let! ctx := lift (to_context spec) in
  let! gw_password := ensure_gateway fresh_password ttn_app_id app ctx in
  let! ttn_app := get_app ttn ttn_app_id ctx in
  let! _ :=
    match ttn_app with
    | None => create_app ttn (Reg.a_name app) ttn_app_id (api_owner spec) ctx
    | Some ttn_app => reconcile_app ttn_app_id ttn_app app ctx
    end in
  let! auth := lift (ok_or (Permanent "Failed to convert auth information")
    (basic_auth (TTN_GATEWAY_NAME +:+ "@" +:+ Reg.a_name app) gw_password)) in
  ensure_webhook ttn_app_id auth ctx.

(** The status to go on with: a stable application ID. *)
Definition construct_status (ctx : AppConstruct) (app_id : string)
    : result (TtnAppStatus * Reg.Application) ReconcileError :=
  match ac_status ctx with
  | Some status =>
      match as_app_id status with
      | Some current =>
          let? _ := ensure_stable_app_id (ac_app ctx) (ac_spec ctx) current in
          Ok (status, ac_app ctx)
      | None => Ok (mkTtnAppStatus (as_reconcile status) (Some app_id), ac_app ctx)
      end
  | None =>
      let status := mkTtnAppStatus (mkReconcileStatus (Reg.a_generation (ac_app ctx)) "Reconciling" None)
        (Some app_id) in
      let? app := permanent (set_app_status status (ac_app ctx)) in
      Ok (status, app)
  end.

Definition app_construct (fresh_password : string) (ctx : AppConstruct) : M (ProcessOutcome Reg.Application) :=
  let app := ac_app ctx in
  match ensure_finalizer FINALIZER (Reg.a_finalizers app) with
  | Some finalizers => ret (PRetry (app_with_finalizers finalizers app) None)
  | None =>
      let app_id := default (Reg.a_name app) (api_id (ac_spec ctx)) in
      let! (status, app) := lift (construct_status ctx app_id) in
      let! _ := ensure_app fresh_password app (ac_spec ctx) app_id in
      let status := mkTtnAppStatus (reconciled (Reg.a_generation app)) (as_app_id status) in
      let! app := lift (permanent (set_app_status status app)) in
      ret (PComplete app)
  end.

Definition app_deconstruct (ctx : AppDeconstruct) : M (ProcessOutcome Reg.Application) :=
  let! _ :=
    match ad_status ctx ≫= as_app_id with
    | Some app_id =>
        let! api := lift (ok_or (Permanent "Missing API configuration.") (ad_spec ctx)) in
        let! ttn_ctx := lift (to_context api) in
        delete_app ttn app_id ttn_ctx
    | None => ret tt
    end in
  ret (PComplete (app_with_finalizers (remove_finalizer FINALIZER (Reg.a_finalizers (ad_app ctx))) (ad_app ctx))).

Definition process_app (fresh_password : string) (app : Reg.Application) : M (ProcessOutcome Reg.Application) :=
  let! state := lift (app_eval_state app) in
  match state with
  | Ignore app => ret (PComplete app)
  | Construct ctx => app_construct fresh_password ctx
  | Deconstruct ctx => app_deconstruct ctx
  end.

Definition app_recover (message : string) (app : Reg.Application) : result Reg.Application unit :=
  map_err (λ _, tt)
    (let? status :=
       match app_status app with
       | Some (Err e) => Err e
       | Some (Ok status) => Ok status
       | None => Ok default_app_status
       end in
     set_app_status (mkTtnAppStatus (failed (Reg.a_generation app) message) (as_app_id status)) app).
End Reconcilers.

(** ** Reading a run *)

Section Runs.
Context `{TtnWeb}.
Implicit Types l : list Call.

Lemma lift_run {A B} (a : A) (k : A → M B) l : bind (lift (Ok a)) k l = k a l.
Proof. done. Qed.

Lemma lift_ok {A} (r : result A ReconcileError) l l' a :
  lift r l = (l', Ok a) → l' = l ∧ r = Ok a.
Proof. unfold lift, from_result. destruct r; naive_solver. Qed.

Lemma default_error_not_ok {A} answer l l' (a : A) : default_error answer l ≠ (l', Ok a).
Proof. unfold default_error, fail. by repeat case_match. Qed.
End Runs.

(** A step of a run that succeeded. *)
Ltac run_step :=
  match goal with
  | H : bind _ _ _ = (_, Ok _) |- _ =>
      apply bind_ok in H; destruct H as (? & ? & ? & H)
  | H : lift _ _ = (_, Ok _) |- _ => apply lift_ok in H; destruct H as [-> H]
  | H : default_error _ _ = (_, Ok _) |- _ => by apply default_error_not_ok in H
  | H : ret _ _ = (_, Ok _) |- _ => injection H as ??; subst
  end.
Ltac run_all := repeat run_step.

(** ** What the service was asked, and what it answered *)

Section Answered.
Context `{TtnWeb}.
Context (ttn : list Call → TtnRequest TUrl → result Answer string).

(** The requests of a run, in their order: each at the path given below the
    URL of the application, with its key, and answered with one of the codes. *)
Inductive answered (ctx : TtnContext)
    : list Call → list (Method * list string * option Value * list Z) → list Call → Prop :=
| answered_nil l : answered ctx l [] l
| answered_cons l method path json codes url answer rest l' :
    ttn_url ctx path = Ok url →
    ttn l (mkTtnRequest method url (cx_api_key ctx) json) = Ok answer →
    an_status answer ∈ codes →
    answered ctx (l ++ [CHttp (mkTtnRequest method url (cx_api_key ctx) json)]) rest l' →
    answered ctx l ((method, path, json, codes) :: rest) l'.

Lemma answered_app ctx l rs l1 rs' l' :
  answered ctx l rs l1 → answered ctx l1 rs' l' → answered ctx l (rs ++ rs') l'.
Proof. induction 1; simpl; [done|]. intros. econstructor; eauto. Qed.

Lemma answered_one ctx l method path json codes url answer :
  ttn_url ctx path = Ok url →
  ttn l (mkTtnRequest method url (cx_api_key ctx) json) = Ok answer →
  an_status answer ∈ codes →
  answered ctx l [(method, path, json, codes)]
    (l ++ [CHttp (mkTtnRequest method url (cx_api_key ctx) json)]).
Proof. intros. econstructor; [done..|constructor]. Qed.

Lemma send_ttn_ok method url ctx json l l' answer :
  send_ttn ttn method url ctx json l = (l', Ok answer) →
  l' = l ++ [CHttp (mkTtnRequest method url (cx_api_key ctx) json)] ∧
  ttn l (mkTtnRequest method url (cx_api_key ctx) json) = Ok answer.
Proof. unfold send_ttn, call. destruct (ttn _ _); simpl; naive_solver. Qed.

(** Requests of a run that went well. *)
Lemma delete_at_ok path ctx l l' u :
  delete_at ttn path ctx l = (l', Ok u) →
  answered ctx l [(DELETE, path, None, [200; 404]%Z)] l'.
Proof.
  unfold delete_at. intros Hrun. run_all.
  match goal with Hs : send_ttn _ _ _ _ _ _ = _ |- _ => apply send_ttn_ok in Hs as [-> Hs] end.
  destruct (_ || _) eqn:Hcode; run_all. eapply answered_one; [done..|].
  apply orb_true_iff in Hcode. rewrite !Z.eqb_eq in Hcode. set_solver.
Qed.

Lemma put_json_ok method path ids payload paths ctx l l' u :
  put_json ttn method path ids payload paths ctx l = (l', Ok u) →
  answered ctx l [(method, path, Some (make_device_json ids payload paths), [200%Z])] l'.
Proof.
  unfold put_json. intros Hrun. run_all.
  match goal with Hs : send_ttn _ _ _ _ _ _ = _ |- _ => apply send_ttn_ok in Hs as [-> Hs] end.
  destruct (_ =? _)%Z eqn:Hcode; run_all. eapply answered_one; [done..|].
  apply Z.eqb_eq in Hcode. set_solver.
Qed.

Lemma get_device_ok app_id device_id ctx l l' found :
  get_device ttn app_id device_id ctx l = (l', Ok found) →
  answered ctx l [(GET, device_path None app_id device_id, None,
    [match found with Some _ => 200 | None => 404 end]%Z)] l'.
Proof.
  unfold get_device, get_answer. intros Hrun. run_all.
  match goal with Hs : send_ttn _ _ _ _ _ _ = _ |- _ => apply send_ttn_ok in Hs as [-> Hs] end.
  destruct (_ =? _)%Z eqn:Hcode; [|destruct (existsb _ _) eqn:Hmissing]; run_all.
  - eapply answered_one; [done..|]. apply Z.eqb_eq in Hcode. set_solver.
  - eapply answered_one; [done..|]. simpl in Hmissing. rewrite orb_false_r Z.eqb_eq in Hmissing. set_solver.
Qed.

(** The requests that remove a device, and that write one. *)
Definition delete_requests (app_id device_id : string) : list (Method * list string * option Value * list Z) :=
  (λ prefix, (DELETE, device_path prefix app_id device_id, None, [200; 404]%Z))
    <$> [Some "ns"; Some "js"; Some "as"; None].

Definition part_request (app_id : string) (device : TtnDevice) (prefix : string)
    (payload : list (string * Value)) (paths : list string) : Method * list string * option Value * list Z :=
  (PUT, device_path (Some prefix) app_id (di_device_id (td_ids device)),
   Some (make_device_json (td_ids device) payload paths), [200%Z]).

Definition write_requests (exists_already : bool) (app_id : string) (device : TtnDevice)
    : list (Method * list string * option Value * list Z) :=
  let add {A} (l extra : list A) := if exists_already then l else l ++ extra in
  [ (if exists_already then PUT else POST,
     if exists_already then device_path None app_id (di_device_id (td_ids device))
     else ["api"; "v3"; "applications"; app_id; "devices"],
     Some (make_device_json (td_ids device) (td_end_device device)
       (add FIELD_MASK_DEVICE_CORE FIELD_MASK_DEVICE_CREATE)), [200%Z]);
    part_request app_id device "ns" (td_ns_device device)
      (add FIELD_MASK_DEVICE_NS FIELD_MASK_DEVICE_NS_CREATE);
    part_request app_id device "js" (td_js_device device)
      (add FIELD_MASK_DEVICE_JS FIELD_MASK_DEVICE_JS_CREATE);
    part_request app_id device "as" [] FIELD_MASK_DEVICE_AS ].

Lemma delete_device_ok app_id device_id ctx l l' u :
  delete_device ttn app_id device_id ctx l = (l', Ok u) →
  answered ctx l (delete_requests app_id device_id) l'.
Proof.
  unfold delete_device, delete_device_json, delete_requests. intros Hrun. run_all. simpl.
  repeat match goal with Hd : delete_at _ _ _ _ = _ |- _ => apply delete_at_ok in Hd end.
  repeat (eapply (answered_app ctx _ [_]); [eassumption|]). constructor.
Qed.

Lemma set_ns_js_as_ok app_id device ctx ns_mask js_mask l l' u :
  set_ns_js_as ttn app_id device ctx ns_mask js_mask l = (l', Ok u) →
  answered ctx l [part_request app_id device "ns" (td_ns_device device) ns_mask;
    part_request app_id device "js" (td_js_device device) js_mask;
    part_request app_id device "as" [] FIELD_MASK_DEVICE_AS] l'.
Proof.
  unfold set_ns_js_as, put_device_json. intros Hrun. run_all.
  repeat match goal with Hd : put_json _ _ _ _ _ _ _ _ = _ |- _ => apply put_json_ok in Hd end.
  repeat (eapply (answered_app ctx _ [_]); [eassumption|]). constructor.
Qed.

Lemma write_device_ok (exists_already : bool) app_id device ctx l l' u :
  (if exists_already then update_device ttn app_id device ctx else create_device ttn app_id device ctx) l
    = (l', Ok u) →
  answered ctx l (write_requests exists_already app_id device) l'.
Proof.
  unfold write_requests, update_device, create_device. intros Hrun.
  destruct exists_already; run_all;
    match goal with Hd : put_json _ _ _ _ _ _ _ _ = _ |- _ => apply put_json_ok in Hd end;
    apply set_ns_js_as_ok in Hrun; by apply (answered_app ctx _ [_] _ _ _ ltac:(eassumption)).
Qed.

(** A service that takes every removal makes it succeed. *)
Lemma delete_at_run path ctx url answer l :
  ttn_url ctx path = Ok url →
  ttn l (mkTtnRequest DELETE url (cx_api_key ctx) None) = Ok answer →
  an_status answer ∈ [200; 404]%Z →
  ∃ l', delete_at ttn path ctx l = (l', Ok tt).
Proof.
  intros Hurl Httn Hcode. eexists. unfold delete_at. rw Hurl lift_run.
  erewrite bind_run; [|by unfold send_ttn, call; rw Httn].
  replace (_ || _) with true; [done|]. symmetry. apply orb_true_iff. rewrite !Z.eqb_eq. set_solver.
Qed.
End Answered.

(** ** The reconcilers *)

Section Properties.
Context `{TtnSections}.
Context (ttn : list Call → TtnRequest TUrl → result Answer string).

Lemma not_configured finalizers :
  FINALIZER ∉ finalizers → existsb (string_eqb FINALIZER) finalizers = false.
Proof.
  intros Hno. apply not_true_is_false. intros (f & Hf & Heq)%existsb_exists.
  apply string_eqb_eq in Heq as <-. by apply Hno, list_elem_of_In.
Qed.

Lemma eval_deleted {I C D} (requested : option C) finalizers (i : I) (d : D) :
  is_Some requested ∨ FINALIZER ∈ finalizers →
  eval_resource requested finalizers true i d = Deconstruct d.
Proof.
  unfold eval_resource. destruct requested; [done|]. intros [[? [=]]|Hin].
  replace (existsb _ _) with true; [done|]. symmetry. apply existsb_exists.
  exists FINALIZER. by rw string_eqb_refl -list_elem_of_In.
Qed.

(** The network is only told of a device once the finalizer that makes the
    operator clean up is stored: a device that is not being deleted and has no
    finalizer is left alone, rejected, or sent back with the finalizer added. *)
Theorem device_finalizer_first app device l :
  FINALIZER ∉ Reg.d_finalizers device → Reg.d_deletion_timestamp device = None →
  ∃ r, process_device ttn app device l = (l, r) ∧
    ∀ out, r = Ok out → out = PComplete device ∨
      out = PRetry (device_with_finalizers (Reg.d_finalizers device ++ [FINALIZER]) device) None.
Proof.
  intros Hno Hdel. unfold process_device, device_eval_state.
  destruct (transpose (app_spec app)) as [spec|]; [|eexists; split; [done|naive_solver]].
  destruct (transpose (app_status app)) as [status|]; [|eexists; split; [done|naive_solver]].
  destruct (transpose (device_spec device)) as [dspec|]; [|eexists; split; [done|naive_solver]].
  cbn [rbind]. rw lift_run /eval_resource (not_configured _ Hno).
  rw (bool_decide_eq_false_2 (is_Some (Reg.d_deletion_timestamp device))).
  { rw Hdel. by intros [? [=]]. }
  destruct dspec as [dspec|]; simpl; [|eexists; split; [done|naive_solver]].
  unfold device_construct, ensure_finalizer. simpl. rw (not_configured _ Hno).
  eexists; split; [done|naive_solver].
Qed.

(** The same for applications, and for the calls to the registry. *)
Theorem app_finalizer_first reg_get reg_create reg_update endpoint_url fresh_password app l :
  FINALIZER ∉ Reg.a_finalizers app → Reg.a_deletion_timestamp app = None →
  ∃ r, process_app ttn reg_get reg_create reg_update endpoint_url fresh_password app l = (l, r) ∧
    ∀ out, r = Ok out → out = PComplete app ∨
      out = PRetry (app_with_finalizers (Reg.a_finalizers app ++ [FINALIZER]) app) None.
Proof.
  intros Hno Hdel. unfold process_app, app_eval_state.
  destruct (transpose (app_spec app)) as [spec|]; [|eexists; split; [done|naive_solver]].
  cbn [rbind]. rw lift_run /eval_resource (not_configured _ Hno).
  rw (bool_decide_eq_false_2 (is_Some (Reg.a_deletion_timestamp app))).
  { rw Hdel. by intros [? [=]]. }
  destruct spec as [spec|]; simpl; [|eexists; split; [done|naive_solver]].
  unfold app_construct, ensure_finalizer. simpl. rw (not_configured _ Hno).
  eexists; split; [done|naive_solver].
Qed.

Definition removed_device (device : Reg.Device) : Reg.Device :=
  device_with (remove_finalizer FINALIZER (Reg.d_finalizers device)) (map_remove gateway_key (Reg.d_spec device))
    (map_remove "ttn" (Reg.d_status device)) device.

(** A device that is being deleted. *)
Lemma process_deleted app device status l :
  is_Some (Reg.d_deletion_timestamp device) →
  is_Some (device_spec device) ∨ FINALIZER ∈ Reg.d_finalizers device →
  app_status app = Some (Ok status) →
  process_device ttn app device l =
    (let! spec := lift (transpose (app_spec app)) in
     let! _ := lift (transpose (device_spec device)) in
     device_deconstruct ttn (mkDeviceDeconstruct spec (Some status) device)) l.
Proof.
  intros Hdel Hmine Hstatus. unfold process_device, device_eval_state. rw Hstatus.
  destruct (transpose (app_spec app)) as [spec|]; [|done]. cbn [rbind transpose]. rw !lift_run.
  destruct (transpose (device_spec device)) as [dspec|] eqn:Hdspec; [|done]. cbn [rbind]. rw !lift_run.
  rw bool_decide_eq_true_2 //. rewrite eval_deleted //.
  destruct Hmine as [[s Hs]|Hin]; [left|by right].
  rw Hs in Hdspec. destruct s; simpl in Hdspec; [|done]. injection Hdspec as <-. by eexists.
Qed.

(** A removal that succeeded: the network, asked with the key of the application,
    confirmed for the network server, the join server, the application server and the
    identity server in this order that the device is gone. *)
Lemma device_deconstruct_ok spec status app_id device l l' out :
  as_app_id status = Some app_id →
  device_deconstruct ttn (mkDeviceDeconstruct spec (Some status) device) l = (l', Ok out) →
  ∃ api ctx, spec = Some api ∧ to_context api = Ok ctx ∧
    answered ttn ctx l (delete_requests app_id (Reg.d_name device)) l' ∧
    out = PComplete (removed_device device).
Proof.
  intros Hid Hrun. unfold device_deconstruct in Hrun. simpl in Hrun. rw Hid in Hrun. run_all.
  match goal with Hd : delete_device _ _ _ _ _ = _ |- _ => apply delete_device_ok in Hd end.
  match goal with Ha : ok_or _ _ = Ok ?api, Hc : to_context ?api = Ok ?ctx |- _ =>
    apply ok_or_ok in Ha; by exists api, ctx end.
Qed.

(** If the network answers every removal with success, or that there is nothing to
    remove, the deletion goes on. *)
Theorem ttn_removal_completes app device status app_id api ctx l :
  is_Some (Reg.d_deletion_timestamp device) →
  is_Some (device_spec device) ∨ FINALIZER ∈ Reg.d_finalizers device →
  app_status app = Some (Ok status) → as_app_id status = Some app_id →
  app_spec app = Some (Ok api) → to_context api = Ok ctx →
  (∀ e, device_spec device ≠ Some (Err e)) →
  (∀ path, ∃ url, ttn_url ctx path = Ok url) →
  (∀ l r, tr_method r = DELETE → ∃ answer, ttn l r = Ok answer ∧ an_status answer ∈ [200; 404]%Z) →
  ∃ l', process_device ttn app device l = (l', Ok (PComplete (removed_device device))).
Proof.
  intros Hdel Hmine Hstatus Hid Hspec Hctx Hds Hurl Httn.
  assert (Hat : ∀ path l, ∃ l', delete_at ttn path ctx l = (l', Ok tt)).
  { intros path l0. destruct (Hurl path) as [url ?].
    destruct (Httn l0 (mkTtnRequest DELETE url (cx_api_key ctx) None)) as (a & ? & ?); [done|].
    by eapply delete_at_run. }
  rewrite (process_deleted _ _ status) //. rw Hspec lift_run.
  assert (Hds' : ∃ s, transpose (device_spec device) = Ok s).
  { destruct (device_spec device) as [[s|e]|]; simpl; [by eexists|by destruct (Hds e)|by eexists]. }
  destruct Hds' as [s ->]. rw lift_run. unfold device_deconstruct. simpl. rw Hid.
  assert (Hdelete : ∃ l', delete_device ttn app_id (Reg.d_name device) ctx l = (l', Ok tt)).
  { unfold delete_device, delete_device_json.
    do 3 (edestruct Hat as [? Hrun]; erewrite bind_run by exact Hrun; clear Hrun). apply Hat. }
  destruct Hdelete as [l' Hdelete]. exists l'.
  erewrite bind_run; [done|]. by rw lift_run Hctx lift_run.
Qed.

(** What [ensure_device] asked of the network. *)
Definition device_ensured (device_name : string) (api : TtnAppApi TUrl) (app_id : string)
    (spec : TtnDeviceSpec) (l l' : list Call) : Prop :=
  ∃ ctx server host (found : bool) l1,
    to_context api = Ok ctx ∧ region_url (api_region api) = Ok server ∧ turl_host server = Some host ∧
    answered ttn ctx l [(GET, device_path None app_id device_name, None,
      [if found then 200 else 404]%Z)] l1 ∧
    answered ttn ctx l1 (write_requests found app_id (ttn_device host device_name spec)) l'.

Lemma ensure_device_ok device_name api app_id spec l l' u :
  ensure_device ttn device_name api app_id spec l = (l', Ok u) →
  device_ensured device_name api app_id spec l l'.
Proof.
  unfold ensure_device. intros Hrun. apply bind_ok in Hrun as (? & ctx & Hctx & Hrun).
  apply lift_ok in Hctx as [-> Hctx]. apply bind_ok in Hrun as (l1 & found & Hget & Hrun).
  apply get_device_ok in Hget. apply bind_ok in Hrun as (? & server & Hserver & Hrun).
  apply lift_ok in Hserver as [-> Hserver]. apply bind_ok in Hrun as (? & host & Hhost & Hrun).
  apply lift_ok in Hhost as [-> Hhost%ok_or_ok].
  destruct (region_url _) eqn:Hregion; simplify_eq/=. destruct found.
  - apply (write_device_ok ttn true) in Hrun. by exists ctx, server, host, true, l1.
  - apply (write_device_ok ttn false) in Hrun. by exists ctx, server, host, false, l1.
Qed.

Lemma stable_app_id app spec current u :
  ensure_stable_app_id app spec current = Ok u → current = default (Reg.a_name app) (api_id spec).
Proof.
  unfold ensure_stable_app_id. destruct (string_eqb_spec (default (Reg.a_name app) (api_id spec)) current); naive_solver.
Qed.

(** A device is reported as reconciled only after the network accepted it: it was
    looked up, and then created or updated with all four servers, under the
    application ID of the configuration. *)
Theorem ttn_device_written app device l l' out :
  (∀ names d d', set_gateway_names names d = Ok d' → Reg.d_name d' = Reg.d_name d) →
  Reg.d_deletion_timestamp device = None → is_Some (device_spec device) →
  process_device ttn app device l = (l', Ok (PComplete out)) →
  ∃ api spec, app_spec app = Some (Ok api) ∧ device_spec device = Some (Ok spec) ∧
    device_ensured (Reg.d_name device) api (default (Reg.a_name app) (api_id api)) spec l l'.
Proof.
  intros Hname Hdel [[spec|e] Hspec] Hrun; unfold process_device, device_eval_state in Hrun;
    rw Hspec in Hrun; apply bind_ok in Hrun as (? & state & Hstate & Hrun);
    apply lift_ok in Hstate as [-> Hstate];
    apply rbind_ok_inv in Hstate as (aspec & Haspec & Hstate);
    apply rbind_ok_inv in Hstate as (astatus & Hastatus & Hstate); [|done].
  cbn [transpose rbind eval_resource fmap option_fmap option_map] in Hstate.
  rw Hdel in Hstate. rw bool_decide_eq_false_2 in Hstate; [by intros [? [=]]|].
  injection Hstate as <-.
  unfold device_construct in Hrun. simpl in Hrun.
  destruct (ensure_finalizer _); [done|].
  apply bind_ok in Hrun as (? & api & Hapi & Hrun). apply lift_ok in Hapi as [-> ->%ok_or_ok].
  apply bind_ok in Hrun as (? & status & Hstatus & Hrun). apply lift_ok in Hstatus as [-> ->%ok_or_ok].
  apply bind_ok in Hrun as (? & ? & Hstable & Hrun). apply lift_ok in Hstable as [-> Hstable%stable_app_id].
  apply bind_ok in Hrun as (? & [changed gated] & Hgate & Hrun). apply lift_ok in Hgate as [-> Hgate].
  unfold ensure_gateway_for_device in Hgate. apply rbind_ok_inv in Hgate as (d & Hset & [= <- <-]).
  destruct (negb _); [done|]. apply bind_ok in Hrun as (? & ? & Hensure & Hrun).
  apply ensure_device_ok in Hensure. run_all. rw Hstable in Hensure.
  destruct (set_gateway_names _ device) eqn:Hnames; simplify_eq/=. rw (Hname _ _ _ Hnames) in Hensure.
  exists api, spec. split_and!; [|done..]. by destruct (app_spec app) as [[?|]|]; simplify_eq/=.
Qed.

(** *** The controller *)

Definition outcome_of {T} (o : ProcessOutcome T) : T :=
  match o with PComplete t | PRetry t _ => t end.

(** The codecs of the sections leave the metadata alone. *)
Definition keeps_metadata (f : Reg.Device → result Reg.Device string) : Prop :=
  ∀ d d', f d = Ok d' → Reg.d_finalizers d' = Reg.d_finalizers d ∧ Reg.d_name d' = Reg.d_name d.

Lemma construct_keeps_finalizer ctx l l' out :
  (∀ names, keeps_metadata (set_gateway_names names)) →
  (∀ status, keeps_metadata (set_device_status status)) →
  device_construct ttn ctx l = (l', Ok out) →
  FINALIZER ∈ Reg.d_finalizers (dc_device ctx) → FINALIZER ∈ Reg.d_finalizers (outcome_of out).
Proof.
  intros Hnames Hstatus Hrun Hin. unfold device_construct, ensure_finalizer in Hrun.
  replace (existsb _ _) with true in Hrun.
  2: { symmetry. apply existsb_exists. exists FINALIZER. by rw string_eqb_refl -list_elem_of_In. }
  do 3 (apply bind_ok in Hrun as (? & ? & ? & Hrun)).
  apply bind_ok in Hrun as (? & [changed gated] & Hgate & Hrun). apply lift_ok in Hgate as [_ Hgate].
  unfold ensure_gateway_for_device in Hgate. apply rbind_ok_inv in Hgate as (d & Hset & [= <- <-]).
  unfold permanent in Hset. destruct (set_gateway_names _ _) eqn:Hn; simplify_eq/=.
  apply Hnames in Hn as [Hf _]. rw -Hf in Hin. destruct (negb _); run_all; [done|].
  unfold permanent in *. destruct (set_device_status _ _) eqn:Hs; simplify_eq/=.
  apply Hstatus in Hs as [Hf' _]. simpl. by rw Hf'.
Qed.

(** A device loses the finalizer only by a removal, once it is being deleted or has no
    configuration any more. *)
Lemma process_finalizer app device l l' out :
  (∀ names, keeps_metadata (set_gateway_names names)) →
  (∀ status, keeps_metadata (set_device_status status)) →
  process_device ttn app device l = (l', Ok out) → FINALIZER ∈ Reg.d_finalizers device →
  FINALIZER ∈ Reg.d_finalizers (outcome_of out) ∨
  ((is_Some (Reg.d_deletion_timestamp device) ∨ device_spec device = None) ∧
   ∃ spec status, transpose (app_spec app) = Ok spec ∧ transpose (app_status app) = Ok status ∧
     device_deconstruct ttn (mkDeviceDeconstruct spec status device) l = (l', Ok out)).
Proof.
  intros Hnames Hst Hrun Hin. unfold process_device in Hrun.
  apply bind_ok in Hrun as (? & state & Heval & Hrun). apply lift_ok in Heval as [-> Heval].
  unfold device_eval_state in Heval.
  apply rbind_ok_inv in Heval as (spec & Hspec & Heval).
  apply rbind_ok_inv in Heval as (status & Hstatus & Heval).
  apply rbind_ok_inv in Heval as (dspec & Hds & [= <-]). unfold eval_resource in Hrun.
  destruct dspec as [dspec|]; simpl in Hrun.
  - case_bool_decide as Hdel; [right; split; [by left|by exists spec, status]|].
    left. by apply construct_keeps_finalizer in Hrun.
  - assert (Hnone : device_spec device = None) by (by destruct (device_spec device) as [[]|]).
    destruct (existsb _ _) eqn:Hno; [by destruct (bool_decide _); right; (split; [by right|by exists spec, status])|].
    left. by run_all.
Qed.

Lemma device_deconstruct_unknown spec status device l l' out :
  status ≫= as_app_id = None →
  device_deconstruct ttn (mkDeviceDeconstruct spec status device) l = (l', Ok out) → l' = l.
Proof. intros Hid. unfold device_deconstruct. simpl. rw Hid. by intros [= <- _]. Qed.
End Properties.

Section Properties.
Context `{TtnSections}.
Context (ttn : list Call → TtnRequest TUrl → result Answer string).

(** *** Only requests to the network *)

(** A part of the code that calls the network only, and does not panic. *)
Definition http_only {A} (m : M A) : Prop := calls_only (λ c, ∃ r, c = CHttp r) (λ e, e ≠ Panic) m.

Lemma http_lift {A} (r : result A ReconcileError) : http_only (lift r).
Proof. apply calls_only_result. by destruct r as [|e0]; intros e [= <-]. Qed.
Lemma http_send_ttn method url ctx json : http_only (send_ttn ttn method url ctx json).
Proof. apply calls_only_call; [by eexists|]. intros l e. by destruct (ttn l _) as [|e0]; intros [= <-]. Qed.
Lemma http_default_error {A} answer : http_only (default_error answer : M A).
Proof. by apply calls_only_fail. Qed.

Ltac http :=
  repeat first
    [ apply calls_only_ret | apply http_lift | apply http_send_ttn | apply http_default_error
    | apply calls_only_bind; [|intros ?]
    | match goal with |- calls_only _ _ (if ?c then _ else _) => destruct c end
    | match goal with |- calls_only _ _ (match ?x with _ => _ end) => destruct x end ].

Lemma http_process_device app device : http_only (process_device ttn app device).
Proof.
  unfold process_device, device_construct, device_deconstruct, delete_device, delete_device_json,
    delete_at, ensure_device, get_device, get_answer, update_device, create_device, set_ns_js_as,
    put_device_json, put_json.
  http.
Qed.
End Properties.

(** The device controller, over the calls so far: the registry answers in any way. *)
Section Controller.
Context `{TtnSections}.
Context (ttn : list Call → TtnRequest TUrl → result Answer string).
Context (get_app : string → list Call → result (option Reg.Application) ClientError).
Context (get_dev : string → string → list Call → result (option Reg.Device) ClientError).
Context (update_dev : Reg.Device → list Call → result unit ClientError).
Context (aggregate : Reg.Device → result Reg.Device string).

#[local] Instance traced_registry : RegistryClient (list Call) := {|
  rc_get_app := get_app;
  rc_get_device := get_dev;
  rc_update_app _ l := (l, Ok tt);
  rc_update_device d l := (l ++ [CUpdateDevice d], update_dev d l);
  aggregate_app := Ok;
  aggregate_device := aggregate;
|}.

(** No code of the device controller panics. *)
Definition fault (f : Failure) : ReconcileError :=
  match f with Failed e => e | Panic => Permanent "panic" end.

Definition device_ops : ControllerOps (K:=string * string) (RI:=Reg.Application * Reg.Device)
    (RO:=Reg.Device) (St:=list Call) (CE:=ClientError) :=
  mkOps get_device_resource update_device_if snd
    (λ '(app, device) l, let '(l, r) := process_device ttn app device l in (l, map_err fault r))
    (λ message '(_, device) l, (l, device_recover message device)).

(** What is stored: the outcome, if anything is. *)
Lemma store_calls resource outcome r l :
  ∃ news, (store device_ops resource outcome r l).1 = l ++ news ∧
    ∀ c, c ∈ news → ∃ d, c = CUpdateDevice d ∧ aggregate outcome = Ok d ∧ news = [c].
Proof.
  unfold store. simpl. unfold update_device_if. simpl. destruct (aggregate outcome) as [d|e] eqn:Ha.
  - case_bool_decide; simpl.
    + exists []. rw app_nil_r. split; [done|]. by intros c ?%elem_of_nil.
    + destruct (update_dev d l); simpl; exists [CUpdateDevice d]; (split; [done|]);
        intros c ->%list_elem_of_singleton; by exists d.
  - exists []. simpl. rw app_nil_r. split; [done|]. by intros c ?%elem_of_nil.
Qed.

Lemma update_calls d news https (l : list Call) l1 :
  l1 = l ++ https → Forall (λ c, ∃ r, c = CHttp r) https →
  CUpdateDevice d ∈ drop (length l) (l1 ++ news) → CUpdateDevice d ∈ news.
Proof.
  intros -> Hh Hd. rw -app_assoc drop_app_length in Hd. apply elem_of_app in Hd as [Hd|]; [|done].
  rewrite Forall_forall in Hh. by destruct (Hh _ Hd).
Qed.

(** A run of the controller: that of the reconciler, then at most one update of the
    device, with its outcome or the error. *)
Lemma controller_calls key app device l :
  get_app key.1 l = Ok (Some app) → get_dev key.1 key.2 l = Ok (Some device) →
  ∃ news, (process device_ops key l).1 = (process_device ttn app device l).1 ++ news ∧
    ∀ d, CUpdateDevice d ∈ news → news = [CUpdateDevice d] ∧ ∃ outcome, aggregate outcome = Ok d ∧
      ((∃ out, (process_device ttn app device l).2 = Ok out ∧ outcome = outcome_of out) ∨
       ∃ message, device_recover message device = Ok outcome).
Proof.
  intros Happ Hdev. unfold process. cbn [op_get op_process_resource device_ops].
  unfold get_device_resource. cbn [rc_get_app rc_get_device traced_registry]. rw Happ Hdev. cbn [rbind].
  destruct (process_device ttn app device l) as [l1 r]. cbn [fst snd].
  assert (Hstore : ∀ outcome r', let l2 := (store device_ops (app, device) outcome r' l1).1 in
    (∃ out, r = Ok out ∧ outcome = outcome_of out) ∨ (∃ message, device_recover message device = Ok outcome) →
    ∃ news, l2 = l1 ++ news ∧ ∀ d, CUpdateDevice d ∈ news → news = [CUpdateDevice d] ∧
      ∃ outcome, aggregate outcome = Ok d ∧
      ((∃ out, r = Ok out ∧ outcome = outcome_of out) ∨ ∃ message, device_recover message device = Ok outcome)).
  { intros outcome r' l2 Hwhere. destruct (store_calls (app, device) outcome r' l1) as (news & Hl2 & Hnews).
    exists news. split; [done|]. intros d Hd. destruct (Hnews _ Hd) as (d' & [= <-] & Ha & Hone).
    split; [done|]. by exists outcome. }
  assert (Hrecover : ∀ message r', ∃ news,
    (recover_with device_ops message (app, device) r' l1).1 = l1 ++ news ∧
    ∀ d, CUpdateDevice d ∈ news → news = [CUpdateDevice d] ∧ ∃ outcome, aggregate outcome = Ok d ∧
      ((∃ out, r = Ok out ∧ outcome = outcome_of out) ∨ ∃ message, device_recover message device = Ok outcome)).
  { intros message r'. unfold recover_with. cbn [op_recover device_ops].
    destruct (device_recover message device) as [outcome|] eqn:Hrec; [apply Hstore; eauto|].
    exists []. simpl. rw app_nil_r. split; [done|]. by intros d ?%elem_of_nil. }
  destruct r as [[out|out delay]|f]; cbn [map_err].
  - apply Hstore. eauto.
  - apply Hstore. eauto.
  - destruct (fault f); apply Hrecover.
Qed.

(** Without the application and the device nothing is stored. *)
Lemma controller_absent key l :
  (∀ app device, get_app key.1 l = Ok (Some app) → get_dev key.1 key.2 l = Ok (Some device) → False) →
  (process device_ops key l).1 = l.
Proof.
  intros Habs. unfold process. cbn [op_get device_ops]. unfold get_device_resource.
  cbn [rc_get_app rc_get_device traced_registry].
  destruct (get_app key.1 l) as [[app|]|]; [| |done]; cbn [rbind];
    (destruct (get_dev key.1 key.2 l) as [[device|]|]; [|done..]); [|done].
  by destruct (Habs app device).
Qed.

Lemma recover_keeps_finalizer message device outcome :
  (∀ status, keeps_metadata (set_device_status status)) →
  device_recover message device = Ok outcome → Reg.d_finalizers outcome = Reg.d_finalizers device.
Proof.
  intros Hst Hrec. unfold device_recover in Hrec. destruct (device_status device) as [[]|]; simpl in Hrec; try done.
  all: destruct (set_device_status _ device) eqn:Hs; simplify_eq/=.
  all: by apply Hst in Hs as [Hf' _].
Qed.

(** C19: End to end: whatever network and registry answer, the controller of a device
    stores it without the finalizer it had only as its last call, only if the device is
    being deleted or has no configuration for the network any more, and only if the
    status of the application could be read.  If that has an application ID of the
    network, the network, asked with the key of the application, confirmed before for the
    network server, the join server, the application server and the identity server, in
    this order, that the device is gone; if it has none, the update is the only call, and
    the network is not asked. *)
Theorem ttn_finalizer_last key l d :
  (∀ names, keeps_metadata (set_gateway_names names)) →
  (∀ status, keeps_metadata (set_device_status status)) → keeps_metadata aggregate →
  let l' := (process device_ops key l).1 in
  CUpdateDevice d ∈ drop (length l) l' → FINALIZER ∉ Reg.d_finalizers d →
  ∃ app device, get_app key.1 l = Ok (Some app) ∧ get_dev key.1 key.2 l = Ok (Some device) ∧
    (FINALIZER ∈ Reg.d_finalizers device →
     (is_Some (Reg.d_deletion_timestamp device) ∨ device_spec device = None) ∧
     ∃ status, transpose (app_status app) = Ok status ∧
       match status ≫= as_app_id with
       | Some app_id =>
           ∃ api ctx l1, app_spec app = Some (Ok api) ∧ to_context api = Ok ctx ∧
             answered ttn ctx l (delete_requests app_id (Reg.d_name device)) l1 ∧ l' = l1 ++ [CUpdateDevice d]
       | None => l' = l ++ [CUpdateDevice d]
       end).
Proof.
  intros Hnames Hst Hagg l' Hd Hno.
  destruct (get_app key.1 l) as [[app|]|] eqn:Happ;
    try (by unfold l' in Hd; rw controller_absent in Hd; [congruence|]; rw drop_all in Hd; apply elem_of_nil in Hd).
  destruct (get_dev key.1 key.2 l) as [[device|]|] eqn:Hdev;
    try (by unfold l' in Hd; rw controller_absent in Hd; [congruence|]; rw drop_all in Hd; apply elem_of_nil in Hd).
  exists app, device. split_and!; [done..|]. intros Hin.
  destruct (controller_calls key app device l Happ Hdev) as (news & Hl' & Hnews). fold l' in Hl'.
  destruct (http_process_device ttn app device l) as [(rs & Hrs & Hh) _].
  rw Hl' in Hd. apply (update_calls d news rs l) in Hd; [|done..].
  destruct (Hnews d Hd) as (-> & outcome & Ha & Hwhere). apply Hagg in Ha as [Hf _].
  destruct Hwhere as [(out & Hout & ->)|[message Hrec%recover_keeps_finalizer]]; [|congruence|done].
  destruct (process_device ttn app device l) as [l1 r] eqn:Hrun. simpl in Hout. subst r.
  apply process_finalizer in Hrun as [Hfin|(Hwhy & spec & status & Hspec & Hstatus & Hdec)]; try done;
    [by rw -Hf in Hfin|].
  split; [done|]. exists status. split; [done|]. destruct (status ≫= as_app_id) as [app_id|] eqn:Hid.
  - destruct status as [status|]; [|done]. simpl in Hid.
    apply (device_deconstruct_ok ttn _ _ app_id) in Hdec as (api & ctx & -> & Hctx & Hans & _); [|done].
    exists api, ctx, l1. split_and!; [|done..]. by destruct (app_spec app) as [[]|]; simplify_eq/=.
  - apply device_deconstruct_unknown in Hdec as ->; done.
Qed.
End Controller.

Section Properties.
Context `{TtnSections}.
Context (ttn : list Call → TtnRequest TUrl → result Answer string).

(** *** Removal without a configuration *)

(** An application that was created in the network, and whose configuration was removed. *)
Definition configuration_lost (app : Reg.Application) : Prop :=
  app_spec app = None ∧ FINALIZER ∈ Reg.a_finalizers app ∧
  ∃ status, app_status app = Some (Ok status) ∧ is_Some (as_app_id status).

(** It is never removed from the network, whatever the network answers: the
    operator fails without a call, the error is permanent, and the application it
    stores then is in the same situation.  Deleting the application does not end. *)
Theorem ttn_removal_stuck reg_get reg_create reg_update endpoint_url fresh_password app l :
  configuration_lost app →
  process_app ttn reg_get reg_create reg_update endpoint_url fresh_password app l =
    (l, Err (Failed (Permanent "Missing API configuration."))).
Proof.
  intros (Hspec & Hin & status & Hstatus & [app_id Hid]).
  unfold process_app, app_eval_state. rw Hspec Hstatus. cbn [transpose rbind]. rw lift_run.
  unfold eval_resource. simpl.
  replace (existsb _ _) with true.
  2: { symmetry. apply existsb_exists. exists FINALIZER. by rw string_eqb_refl -list_elem_of_In. }
  destruct (bool_decide _); unfold app_deconstruct; simpl; by rw Hid.
Qed.

Lemma recover_keeps_lost message app app' :
  (∀ s a a', set_app_status s a = Ok a' →
    app_status a' = Some (Ok s) ∧ app_spec a' = app_spec a ∧ Reg.a_finalizers a' = Reg.a_finalizers a) →
  configuration_lost app → app_recover message app = Ok app' → configuration_lost app'.
Proof.
  intros Hlaws (Hspec & Hin & status & Hstatus & Hid). unfold app_recover. rw Hstatus. simpl.
  destruct (set_app_status _ app) eqn:Hset; simpl; [|done]. intros [= <-].
  apply Hlaws in Hset as (Hs & Hsp & Hf). unfold configuration_lost. rw Hs Hsp Hf.
  split_and!; [done..|]. eexists. split; [done|]. done.
Qed.

(** *** The webhook *)

(** The expected webhook has a field [uplink]; the one that was written has
    [uplink_message].  As long as the network does not report a field [uplink], the
    webhook is written again at every reconciliation. *)
Theorem webhook_always_updated endpoint_url m auth needed :
  map_get "uplink" m = None → need_webhook_update endpoint_url (Object m) auth = Some needed → needed = true.
Proof.
  unfold need_webhook_update. intros Hnone Hneed.
  apply bind_Some in Hneed as (v1 & Hv1 & Hneed). apply bind_Some in Hneed as (v2 & Hv2 & Hneed).
  apply bind_Some in Hneed as (v3 & Hv3 & Hneed). apply bind_Some in Hneed as (v4 & Hv4 & Hneed).
  injection Hneed as <-. rewrite bool_decide_eq_false_2 //. intros ->.
  destruct v3; simplify_eq/=; by rewrite ?map_get_insert in Hnone.
Qed.

(** *** The password of the gateway *)

(** If the first password of the gateway is a hash, a new password is added at every
    reconciliation, and the next one finds the hash again. *)
Theorem hashed_password_grows fresh_password gateway credentials pwd password gateway' :
  (∀ c d d' cs, add_credential c d = Ok d' → authentication d = Some (Ok cs) →
    authentication d' = Some (Ok (cs ++ [c]))) →
  authentication gateway = Some (Ok credentials) → find_password credentials = Some pwd →
  (∀ s, pwd ≠ Reg.Plain s) →
  gateway_password fresh_password gateway = Ok (password, gateway') →
  password = fresh_password ∧
  authentication gateway' = Some (Ok (credentials ++ [Reg.PasswordOnly (Reg.Plain password)])) ∧
  find_password (credentials ++ [Reg.PasswordOnly (Reg.Plain password)]) = Some pwd.
Proof.
  intros Hadd Hauth Hfind Hhash. unfold gateway_password. rw Hauth. simpl. rw Hfind.
  assert (Happ : ∀ c, find_password (credentials ++ [c]) = Some pwd).
  { intros c. clear Hauth. induction credentials as [|[]]; simplify_eq/=; auto. }
  destruct pwd as [s| |]; [by destruct (Hhash s)|..];
    intros (d & Hd & [= <- <-])%rbind_ok_inv; unfold permanent in Hd;
    destruct (add_credential _ gateway) eqn:Hset; simplify_eq/=; by rewrite (Hadd _ _ _ credentials Hset).
Qed.

(** *** Commands *)

(** A gateway the operator wrote sends the commands of its devices to the network,
    with the key of the application. *)
Theorem gateway_routes_commands `{DeviceAttributes} fresh_password app_id gateway ctx password gateway' rest targets :
  (∀ cs d d', set_commands cs d = Ok d' → device_commands d' = cs) →
  ensure_gateway_config fresh_password app_id gateway ctx = Ok (password, gateway') →
  device_enabled gateway' = true →
  ∃ url, turl_extend ["api"; "v3"; "as"; "applications"; app_id; "devices"] (cx_url ctx) = Some url ∧
    scan_gateways (gateway' :: rest) targets =
      External (mkExternalEndpoint (Some "ttnv3") "" (turl_text url)
        [("Authorization", "Bearer " +:+ cx_api_key ctx)]).
Proof.
  intros Hset. unfold ensure_gateway_config, downlink_endpoint.
  intros ([p g] & Hp & (e & He & (g' & Hg & [= <- <-])%rbind_ok_inv)%rbind_ok_inv)%rbind_ok_inv Hen.
  apply rbind_ok_inv in He as (url & Hurl%ok_or_ok & [= <-]). exists url. split; [done|].
  destruct (set_commands _ g) eqn:Hc; simplify_eq/=. rw Hen (Hset _ _ _ Hc). done.
Qed.
End Properties.
