(* ===== verification/MqttIntegration.v ===== *)
(** * The MQTT integration

    [mqtt-integration/src/service]: applications receive the events of their
    devices over MQTT, and send commands to them.  [app.rs] authenticates the
    user of a connection, [session.rs] keeps the streams of its subscriptions,
    and [stream.rs] passes on the events of one stream.  The MQTT server is
    [ntex]'s, the authorizations and the registry are asked through their
    clients, and the tasks that run the streams are those of the runtime. *)

From S2P Require Import Prelude Json Auth Registry CloudEvents Commands Pipeline HttpEndpoint Kafka EventStream CommandSend.

(** ** Connecting, [app.rs] *)

Inductive ServerError : Type := UnsupportedOperation | AuthenticationFailed.

(** The services behind the authentication: the user authentication service, if it is
    configured, knows access tokens, and the authenticator checks the tokens of the
    single sign-on. *)
Record Services := mkServices {
  sv_access_token : option (string → string → result (option UserDetails) string);
  sv_authenticator : option (string → result UserDetails string);
  sv_from_utf8 : string → option string;
}.

(** [App::authenticate] with an authenticator; the errors are only logged. *)
Definition authenticate (sv : Services) (validate_token : string → result UserDetails string)
    (username password : option string) : option UserInformation :=
  match username, password, sv_access_token sv with
  | Some username, Some password, Some access_token =>
      password ← sv_from_utf8 sv password;
      match access_token username password with
      | Ok (Some details) => Some (Authenticated details)
      | Ok None | Err _ => None
      end
  | Some username, None, _ =>
      match validate_token username with
      | Ok details => Some (Authenticated details)
      | Err _ => None
      end
  | None, Some password, _ =>
      password ← sv_from_utf8 sv password;
      match validate_token password with
      | Ok details => Some (Authenticated details)
      | Err _ => None
      end
  | None, None, _ => Some Anonymous
  | Some _, Some _, None => None
  end.

(** ** Sessions, [session.rs] *)

Inductive MqttQoS : Type := MqttAtMostOnce | MqttAtLeastOnce | MqttExactlyOnce.
Inductive QoS : Type := AtLeastOnce | AtMostOnce.
Inductive ContentMode : Type := Binary | Structured.

(** A stream; its event stream is that of the Kafka topic and the consumer group it was
    created with. *)
Record Stream := mkStream {
  st_kafka_topic : string;
  st_group : option string;
  st_topic : string;
  st_qos : QoS;
  st_id : option Z;
  st_mode : ContentMode;
}.

(** The handles the session holds on to, by topic, and the tasks that run. *)
Record Session := mkSession {
  s_client_id : string;
  s_user : UserInformation;
  s_streams : gmap string nat;
  s_running : gmap nat Stream;
  s_next : nat;
}.

Definition session_new (user : UserInformation) (client_id : string) : Session :=
  mkSession client_id user ∅ ∅ 0.

(** [connect]; without an authenticator everybody is anonymous. *)
Definition connect (sv : Services) (clean_session : bool) (username password : option string)
    (client_id : string) : result Session ServerError :=
  if clean_session then
    match sv_authenticator sv with
    | Some validate_token =>
        match authenticate sv validate_token username password with
        | Some user => Ok (session_new user client_id)
        | None => Err AuthenticationFailed
        end
    | None => Ok (session_new Anonymous client_id)
    end
  else Err UnsupportedOperation.

Inductive SubscribeAckReason : Type :=
| WildcardSubscriptionsNotSupported
| NotAuthorized
| TopicFilterInvalid
| UnspecifiedError.

(** What the session asks of others: authorizations, if they are enabled, the registry, and
    the Kafka consumers. *)
Record Clients := mkClients {
  cl_authorize : option (string → Permission.t → option string → result Auth.Outcome string);
  cl_get_app : string → result (option Reg.Application) string;
  cl_get_device_and_gateways : string → string → result (option (Reg.Device * list Reg.Device)) string;
  cl_consumer : string → option string → result unit string;
}.

(** [Session::authorize]; the roles of the user go along. *)
Definition authorize (authz : string → Permission.t → option string → result Auth.Outcome string)
    (user : UserInformation) (application : string) (permission : Permission.t) : result unit unit :=
  match authz application permission (user_id user) with
  | Ok Allow => Ok tt
  | Ok Deny | Err _ => Err tt
  end.

Definition ensure_allowed {E} (e : E) (cl : Clients) (user : UserInformation) (application : string)
    (permission : Permission.t) : result unit E :=
  match cl_authorize cl with
  | Some authz => map_err (λ _, e) (authorize authz user application permission)
  | None => Ok tt
  end.

(** The group of a shared subscription, or that of the client. *)
Definition topic_group (client_id : string) (topic : list string) : option string * list string :=
  match topic with
  | s :: group :: topic =>
      if string_eqb s "$share" || string_eqb s "$shared" then (Some group, topic)
      else (if is_empty client_id then None else Some client_id, s :: group :: topic)
  | other => (if is_empty client_id then None else Some client_id, other)
  end.

Definition topic_app (topic : list string) : result string SubscribeAckReason :=
  match topic with
  | [] => Err NotAuthorized
  | [kind; application] =>
      if string_eqb kind "a" || string_eqb kind "app" || string_eqb kind "application"
      then Ok application else Err TopicFilterInvalid
  | _ => Err TopicFilterInvalid
  end.

Definition attach_stream (stream : Stream) (s : Session) : Session :=
  mkSession (s_client_id s) (s_user s) (<[st_topic stream := s_next s]> (s_streams s))
    (<[s_next s := stream]> (s_running s)) (S (s_next s)).

Section Session.
Context `{Text}.

(** The checks of [subscribe_to], up to the stream it attaches. *)
Definition subscribe_stream (cl : Clients) (id : option Z) (original_topic : string) (qos : MqttQoS)
    (mode : ContentMode) (s : Session) : result Stream SubscribeAckReason :=
  let '(group_id, topic) := topic_group (s_client_id s) (split "/" original_topic) in
  let qos := match qos with MqttAtMostOnce => AtMostOnce | _ => AtLeastOnce end in
  guard? negb (existsb (λ seg, string_eqb seg "+" || string_eqb seg "#") topic)
    else WildcardSubscriptionsNotSupported in
  let? app := topic_app topic in
  let? _ := ensure_allowed NotAuthorized cl (s_user s) app Permission.Read in
  let? found := map_err (λ _, UnspecifiedError) (cl_get_app cl app) in
  let? app_res := ok_or UnspecifiedError found in
  let kafka_topic := make_topic KEvents (Reg.a_name app_res) in
  let group := (λ g, app +:+ "." +:+ g) <$> group_id in
  let? _ := map_err (λ _, UnspecifiedError) (cl_consumer cl kafka_topic group) in
  Ok (mkStream kafka_topic group (join "/" topic) qos id mode).

Definition subscribe_to (cl : Clients) (id : option Z) (original_topic : string) (qos : MqttQoS)
    (mode : ContentMode) (s : Session) : Session * result MqttQoS SubscribeAckReason :=
  match subscribe_stream cl id original_topic qos mode s with
  | Ok stream =>
      (attach_stream stream s,
       Ok match st_qos stream with AtMostOnce => MqttAtMostOnce | AtLeastOnce => MqttAtLeastOnce end)
  | Err reason => (s, Err reason)
  end.

Definition content_mode (user_properties : list (string * string)) : option ContentMode :=
  match im_get "content-mode" user_properties with
  | None => Some Structured
  | Some v =>
      if string_eqb v "structured" then Some Structured
      else if string_eqb v "binary" then Some Binary
      else None
  end.

Fixpoint subscribe_all (cl : Clients) (id : option Z) (mode : ContentMode)
    (subs : list (string * MqttQoS)) (s : Session)
    : Session * list (result MqttQoS SubscribeAckReason) :=
  match subs with
  | [] => (s, [])
  | (topic, qos) :: rest =>
      let '(s, ack) := subscribe_to cl id topic qos mode s in
      let '(s, acks) := subscribe_all cl id mode rest s in
      (s, ack :: acks)
  end.

Definition subscribe (cl : Clients) (id : option Z) (user_properties : list (string * string))
    (subs : list (string * MqttQoS)) (s : Session)
    : Session * result (list (result MqttQoS SubscribeAckReason)) ServerError :=
  match content_mode user_properties with
  | Some mode => let '(s, acks) := subscribe_all cl id mode subs s in (s, Ok acks)
  | None => (s, Err UnsupportedOperation)
  end.

(** [detach]: the task is aborted and waited for. *)
Definition detach (topic : string) (s : Session) : Session * bool :=
  match s_streams s !! topic with
  | Some handle =>
      (mkSession (s_client_id s) (s_user s) (base.delete topic (s_streams s))
         (base.delete handle (s_running s)) (s_next s), true)
  | None => (s, false)
  end.

Inductive UnsubscribeAck : Type := Unsubscribed | NoSubscriptionExisted.

Fixpoint unsubscribe (topics : list string) (s : Session) : Session * list UnsubscribeAck :=
  match topics with
  | [] => (s, [])
  | topic :: rest =>
      let '(s, found) := detach topic s in
      let '(s, acks) := unsubscribe rest s in
      (s, (if found then Unsubscribed else NoSubscriptionExisted) :: acks)
  end.

(** Dropping the session aborts the tasks it has handles of; what still runs is left. *)
Definition drop_session (s : Session) : gmap nat Stream :=
  foldr base.delete (s_running s) (map_to_list (s_streams s)).*2.

(** A stream that ends by itself; its handle stays. *)
Definition finished (handle : nat) (s : Session) : Session :=
  mkSession (s_client_id s) (s_user s) (s_streams s) (base.delete handle (s_running s)) (s_next s).
End Session.

(** ** Sending commands *)

Inductive PublishError : Type :=
| PUnsupportedOperation
| PNotAuthorized
| PInternalError.

Definition lower_char (c : ascii) : ascii := ascii_lower c.

(** [eq_ignore_ascii_case] *)
Definition eq_ignore_ascii_case (a b : string) : bool :=
  string_eqb (map_chars lower_char a) (map_chars lower_char b).

Section Publish.
Context `{DeviceAttributes, Web, PublishSections, CloudEventsSdk}.
Context (percent_encode : string → string) (from_slice : string → option Value) (instance : string).
Context (fresh : nat → string) (now : nat → Z).
Context (sink : nat → string → CE.Event → result PublishOutcome string).

(** What the client is told, and what the command led to. *)
Definition publish_command (cl : Clients) (topic : string) (payload : string) (s : Session)
    : result unit PublishError * option CommandResult :=
  match split "/" topic with
  | [kind; app; device; command] =>
      if eq_ignore_ascii_case kind "command" then
        match ensure_allowed PNotAuthorized cl (s_user s) app Permission.Write with
        | Err e => (Err e, None)
        | Ok _ =>
            match cl_get_app cl app, cl_get_device_and_gateways cl app device with
            | Ok (Some application), Ok (Some (dev, gateways)) =>
                let r := process_command percent_encode from_slice instance fresh now sink
                  application dev gateways (mkCommandOptions app device command None) payload in
                (Ok tt, Some r)
            | Ok _, Ok _ => (Err PNotAuthorized, None)
            | _, _ => (Err PInternalError, None)
            end
        end
      else (Err PUnsupportedOperation, None)
  | _ => (Err PUnsupportedOperation, None)
  end.
End Publish.

(** ** Passing on events, [stream.rs] *)

Inductive SinkVersion : Type := SinkV3 | SinkV5.

Record Message := mkMessage {
  m_topic : string;
  m_payload : string;
  m_content_type : option string;
  m_is_utf8 : option bool;
  m_user_properties : list (string * string);
  m_subscription_ids : option (list Z);
}.

(** The serialization of events and of JSON data, and the attributes and extensions as text. *)
Class EventText := {
  event_to_vec : CE.Event → result string string;
  data_to_vec : Value → result string string;
  event_attributes : CE.Event → list (string * string);
}.

(** What is stored and sent, in order; the outcome of sending is part of it. *)
Inductive Action : Type :=
| Send (offset : Z) (message : Message) (outcome : result unit string)
| Ack (offset : Z) (outcome : result unit string).

Section Stream.
Context `{EventText}.

Definition to_message (version : SinkVersion) (st : Stream) (event : CE.Event) : result Message string :=
  let sub_ids := (λ i, [i]) <$> st_id st in
  match version, st_mode st with
  | SinkV3, _ =>
      let? payload := event_to_vec event in
      Ok (mkMessage (st_topic st) payload None None [] None)
  | SinkV5, Structured =>
      let? payload := event_to_vec event in
      Ok (mkMessage (st_topic st) payload (Some "application/cloudevents+json; charset=utf-8")
            (Some true) [] sub_ids)
  | SinkV5, Binary =>
      let '(content_type, _, data, event) := take_data event in
      let? payload :=
        match data with
        | Some (CE.Binary b) => Ok b
        | Some (CE.String s) => Ok s
        | Some (CE.Json v) => data_to_vec v
        | None => Ok ""
        end in
      Ok (mkMessage (st_topic st) payload content_type None (event_attributes event) sub_ids)
  end.

Context (sends : nat → Message → result unit string) (acks : nat → result unit string).

(** The loop of [run_v3], [run_v5_structured] and [run_v5_binary] over the events there are;
    [n] counts them.  The result is an error if the stream processor failed. *)
Fixpoint run (version : SinkVersion) (st : Stream) (n : nat)
    (events : list (result (Z * CE.Event) string)) : list Action * result unit string :=
  match events with
  | [] => ([], Ok tt)
  | next :: rest =>
      match (let? (offset, event) := next in
             let? message := to_message version st event in Ok (offset, message)) with
      | Err e => ([], Err e)
      | Ok (offset, message) =>
          let sent := sends n message in
          match sent with
          | Err e => ([Send offset message sent], Err e)
          | Ok _ =>
              let acked := acks n in
              match acked with
              | Err e => ([Send offset message sent; Ack offset acked], Err e)
              | Ok _ =>
                  let '(trace, r) := run version st (S n) rest in
                  (Send offset message sent :: Ack offset acked :: trace, r)
              end
          end
      end
  end.

(** [Stream::run]: a processor that failed closes the connection. *)
Definition closes_sink (r : result unit string) : bool :=
  match r with Ok _ => false | Err _ => true end.
End Stream.

(** ** The streams of a session *)

(** A topic that names an application. *)
Definition app_topic (topic app : string) : Prop :=
  ∃ kind, kind ∈ ["a"; "app"; "application"] ∧ topic = kind +:+ "/" +:+ app.

Lemma topic_app_inv topic app : topic_app topic = Ok app → app_topic (join "/" topic) app.
Proof.
  destruct topic as [|kind [|a [|b l]]]; simpl; try done.
  destruct (_ || _) eqn:Hk; [|done]. intros [= <-]. exists kind. split; [|done].
  destruct (string_eqb_spec kind "a"), (string_eqb_spec kind "app"), (string_eqb_spec kind "application");
    subst; try set_solver; done.
Qed.

Section SessionProofs.
Context `{Text}.

(** The applications the user was allowed to read, at the time of asking. *)
Context (allowed : string → Prop).

Definition grants (cl : Clients) (user : UserInformation) : Prop :=
  ∀ app, ensure_allowed NotAuthorized cl user app Permission.Read = Ok tt → allowed app.

(** The registry answers a request for a name with the application of that name. *)
Definition registry_named (cl : Clients) : Prop :=
  ∀ app res, cl_get_app cl app = Ok (Some res) → Reg.a_name res = app.

(** The handle a new stream takes the place of. *)
Definition replaces (st : Stream) (s : Session) : gset nat :=
  match s_streams s !! st_topic st with Some h => {[ h ]} | None => ∅ end.

(** What a session may go through; the set is that of the handles replaced so far. *)
Inductive session_run (user : UserInformation) : Session → gset nat → Prop :=
| run_new client_id : session_run user (session_new user client_id) ∅
| run_subscribed s R cl id topic qos mode st :
    session_run user s R → grants cl user → registry_named cl → subscribe_stream cl id topic qos mode s = Ok st →
    session_run user (attach_stream st s) (R ∪ replaces st s)
| run_detach s R topic : session_run user s R → session_run user (detach topic s).1 R
| run_finished s R h : session_run user s R → session_run user (finished h s) R.

(** A stream of an application the user was allowed to read: it reads the events topic of
    that application in Kafka, with a consumer group that carries its name, and is published
    to its topic. *)
Definition stream_ok (st : Stream) : Prop :=
  ∃ app, allowed app ∧ st_kafka_topic st = make_topic KEvents app ∧ app_topic (st_topic st) app ∧
    ∀ g, st_group st = Some g → starts_with (app +:+ ".") g = true.

Record session_ok (s : Session) (R : gset nat) : Prop := {
  so_next h st : s_running s !! h = Some st → h < s_next s;
  so_handle t h : s_streams s !! t = Some h → h < s_next s ∧ h ∉ R ∧ ∃ app, app_topic t app;
  so_inj t t' h : s_streams s !! t = Some h → s_streams s !! t' = Some h → t = t';
  so_replaced h : h ∈ R → h < s_next s;
  so_held h st : s_running s !! h = Some st → h ∉ R → ∃ t, s_streams s !! t = Some h;
  so_stream h st : s_running s !! h = Some st → stream_ok st;
}.

(** What is checked before a stream is attached. *)
Lemma subscribe_stream_ok cl id topic qos mode s st :
  grants cl (s_user s) → registry_named cl →
  subscribe_stream cl id topic qos mode s = Ok st → stream_ok st.
Proof.
  intros Hg Hnamed. unfold subscribe_stream. destruct (topic_group _ _) as [group t].
  destruct (existsb _ t); [done|]. simpl.
  destruct (topic_app t) as [app|] eqn:Ha; [|done]. cbn [rbind].
  destruct (ensure_allowed _ _ _ _ _) as [[]|] eqn:He; [|done]. cbn [rbind].
  destruct (cl_get_app cl app) as [[a|]|] eqn:Hget; try done. cbn [rbind map_err ok_or].
  destruct (cl_consumer _ _ _); [|done]. cbn [rbind map_err]. intros [= <-].
  apply Hnamed in Hget. exists app. simpl. rw Hget.
  split_and!; [by apply Hg|done|by apply topic_app_inv|].
  intros g Hgr. destruct group as [g'|]; simplify_eq/=. rw -str_app_assoc. apply starts_with_app.
Qed.

Lemma session_run_user user s R : session_run user s R → s_user s = user.
Proof.
  induction 1 as [| | s R topic _ IH|]; try done. unfold detach. by destruct (s_streams s !! topic).
Qed.

Lemma attach_ok s R st : session_ok s R → stream_ok st → session_ok (attach_stream st s) (R ∪ replaces st s).
Proof.
  intros [Hn Hh Hi Hr Hheld Hs] Hst. unfold attach_stream, replaces.
  assert (Hfresh : ∀ t, s_streams s !! t ≠ Some (s_next s)).
  { intros t Ht. apply Hh in Ht as [Hlt _]. lia. }
  split; simpl.
  - intros h st' [[<- _]|[_ Hh']]%lookup_insert_Some; [lia|]. apply Hn in Hh'. lia.
  - intros t h [[<- <-]|[Hne Ht]]%lookup_insert_Some.
    + split_and!; [lia| |destruct Hst as (app & _ & _ & ? & _); by exists app]. intros [HR|HR]%elem_of_union; [apply Hr in HR; lia|].
      destruct (s_streams s !! st_topic st) as [h'|] eqn:Hold; [|set_solver].
      apply elem_of_singleton in HR as <-. by apply (Hfresh (st_topic st)).
    + destruct (Hh _ _ Ht) as (Hlt & HR & Happ). split_and!; [lia| |done].
      intros [?|HR']%elem_of_union; [done|].
      destruct (s_streams s !! st_topic st) as [h'|] eqn:Hold; [|set_solver].
      apply elem_of_singleton in HR' as ->. apply Hne. by apply (Hi _ _ h').
  - intros t t' h [[<- <-]|[Hne Ht]]%lookup_insert_Some [[<- Hx]|[Hne' Ht']]%lookup_insert_Some; try done.
    + by apply Hfresh in Ht'.
    + subst. by apply Hfresh in Ht.
    + by eapply Hi.
  - intros h [HR|HR]%elem_of_union; [apply Hr in HR; lia|].
    destruct (s_streams s !! st_topic st) as [h'|] eqn:Hold; [|set_solver].
    apply elem_of_singleton in HR as ->. apply Hh in Hold as [? _]. lia.
  - intros h st' [[<- <-]|[Hne Hrun]]%lookup_insert_Some HR.
    { exists (st_topic st). apply lookup_insert_eq. }
    apply not_elem_of_union in HR as [HR HR']. destruct (Hheld _ _ Hrun HR) as [t Ht].
    exists t. rw lookup_insert_ne //. intros <-. rw Ht in HR'. set_solver.
  - intros h st' [[_ <-]|[_ Hrun]]%lookup_insert_Some; [done|]. by eapply Hs.
Qed.

Lemma session_run_ok user s R : session_run user s R → session_ok s R.
Proof.
  induction 1 as [client_id|s R cl id topic qos mode st Hrun IH Hg Hnamed Hst|s R topic _ IH|s R h _ IH].
  - split; simpl; try done; set_solver.
  - apply attach_ok; [done|]. eapply subscribe_stream_ok, Hst; [|done]. by rw (session_run_user _ _ _ Hrun).
  - unfold detach. destruct (s_streams s !! topic) as [h|] eqn:Ht; [|done].
    destruct IH as [Hn Hh Hi Hr Hheld Hs]. split; simpl.
    + intros k st [_ Hk]%lookup_delete_Some. by eapply Hn.
    + intros t k [_ Hk]%lookup_delete_Some. by apply Hh.
    + intros t t' k [_ Hk]%lookup_delete_Some [_ Hk']%lookup_delete_Some. by eapply Hi.
    + done.
    + intros k st [Hne Hk]%lookup_delete_Some HR. destruct (Hheld _ _ Hk HR) as [t Ht'].
      exists t. rw lookup_delete_ne //. intros <-. congruence.
    + intros k st [_ Hk]%lookup_delete_Some. by eapply Hs.
  - destruct IH as [Hn Hh Hi Hr Hheld Hs]. split; simpl; try done.
    + intros k st [_ Hk]%lookup_delete_Some. by eapply Hn.
    + intros k st [_ Hk]%lookup_delete_Some. by eapply Hheld.
    + intros k st [_ Hk]%lookup_delete_Some. by eapply Hs.
Qed.


Lemma lookup_foldr_delete {A} (m : gmap nat A) (l : list nat) k v :
  foldr base.delete m l !! k = Some v ↔ m !! k = Some v ∧ k ∉ l.
Proof using Type.
  induction l as [|x l IH]; simpl; [set_solver|]. rw lookup_delete_Some IH not_elem_of_cons. naive_solver.
Qed.

(** When the connection is gone, the streams that go on are exactly those that the client had
    subscribed to again under the same topic: their handles were overwritten and nobody aborts them.
    Without such a subscription all streams are stopped. *)
Theorem dropped_session_streams user s R h st :
  session_run user s R →
  drop_session s !! h = Some st ↔ s_running s !! h = Some st ∧ h ∈ R.
Proof.
  intros [Hn Hh _ _ Hheld _]%session_run_ok. unfold drop_session. rw lookup_foldr_delete.
  assert (Hin : h ∈ (map_to_list (s_streams s)).*2 ↔ ∃ t, s_streams s !! t = Some h).
  { rw list_elem_of_fmap. split.
    - intros ([t k] & -> & Hk%elem_of_map_to_list). by exists t.
    - intros [t Ht]. exists (t, h). split; [done|]. by apply elem_of_map_to_list. }
  rw Hin. split; (intros [Hrun HR]; split; [done|]).
  - destruct (decide (h ∈ R)); [done|]. destruct HR. by apply (Hheld _ _ Hrun).
  - intros [t [_ [Hno _]]%Hh]. done.
Qed.

(** A shared subscription cannot be cancelled: streams are kept under the topic without its
    group, so that unsubscribing from the topic that was subscribed to finds nothing and changes
    nothing, whatever the client did before. *)
Theorem shared_not_unsubscribed user s R topic :
  session_run user s R → starts_with "$" topic = true → detach topic s = (s, false).
Proof.
  intros [_ Hh _ _ _ _]%session_run_ok Ht. unfold detach.
  destruct (s_streams s !! topic) as [h|] eqn:Hs; [|done].
  destruct (Hh _ _ Hs) as (_ & _ & app & kind & Hk & ->).
  apply elem_of_cons in Hk as [-> |Hk]; [done|]. apply elem_of_cons in Hk as [-> |Hk]; [done|].
  by apply list_elem_of_singleton in Hk as ->.
Qed.
End SessionProofs.

(** ** Commands *)

Section PublishProofs.
Context `{DeviceAttributes, Web, PublishSections, CloudEventsSdk}.
Context (percent_encode : string → string) (from_slice : string → option Value) (instance : string).
Context (fresh : nat → string) (now : nat → Z).
Context (sink : nat → string → CE.Event → result PublishOutcome string).

Local Notation publish_command := (publish_command percent_encode from_slice instance fresh now sink).

(** Nothing was sent, and the client is told so. *)
Ltac no_command := by (split; [split; [done|by intros []]|]).

(** A command is sent only for a user who may write to the application, and only to a device
    the registry has in it; and the client is told that publishing succeeded exactly if that is so,
    whatever became of the command: also if it was rejected or could not be sent. *)
Theorem publish_command_outcome cl topic payload s :
  let '(told, sent) := publish_command cl topic payload s in
  (told = Ok tt ↔ is_Some sent) ∧
  (∀ r, sent = Some r → ∃ kind app device command application dev gateways,
     split "/" topic = [kind; app; device; command] ∧ eq_ignore_ascii_case kind "command" = true ∧
     ensure_allowed PNotAuthorized cl (s_user s) app Permission.Write = Ok tt ∧
     cl_get_app cl app = Ok (Some application) ∧
     cl_get_device_and_gateways cl app device = Ok (Some (dev, gateways)) ∧
     r = process_command percent_encode from_slice instance fresh now sink application dev gateways
           (mkCommandOptions app device command None) payload).
Proof.
  unfold MqttIntegration.publish_command.
  destruct (split "/" topic) as [|kind [|app [|device [|command [|x l]]]]]; try no_command.
  destruct (eq_ignore_ascii_case kind "command") eqn:Hk; [|no_command].
  destruct (ensure_allowed _ _ _ _ _) as [[]|e] eqn:He; [|no_command].
  destruct (cl_get_app cl app) as [[a|]|] eqn:Ha, (cl_get_device_and_gateways cl app device) as [[[d gs]|]|] eqn:Hd;
    try no_command.
  split; [split; [by eexists|done]|]. intros r [= <-]. by exists kind, app, device, command, a, d, gs.
Qed.
End PublishProofs.

(** ** Passing on events *)

Section StreamProofs.
Context `{EventText}.
Context (sends : nat → Message → result unit string) (acks : nat → result unit string).
Local Notation run := (run sends acks).

(** The offsets that were sent, and those stored as done. *)
Definition sent (trace : list Action) : list Z :=
  omap (λ a, match a with Send k _ (Ok _) => Some k | _ => None end) trace.
Definition acked (trace : list Action) : list Z :=
  omap (λ a, match a with Ack k (Ok _) => Some k | _ => None end) trace.

(** The offsets of the events before the first failure to read. *)
Fixpoint offsets (events : list (result (Z * CE.Event) string)) : list Z :=
  match events with
  | Ok (k, _) :: rest => k :: offsets rest
  | _ => []
  end.

(** The messages a stream may send: those of its events. *)
Definition message_of (version : SinkVersion) (st : Stream) (events : list (result (Z * CE.Event) string))
    (k : Z) (m : Message) : Prop :=
  ∃ e, Ok (k, e) ∈ events ∧ to_message version st e = Ok m.

(** What holds of the actions taken so far: what is stored as done was sent before, what was sent
    are the first events of the stream, in their order, and each message is that of an event. *)
Record faithful (version : SinkVersion) (st : Stream) (events : list (result (Z * CE.Event) string))
    (l : list Action) : Prop := {
  fa_acked : acked l `prefix_of` sent l;
  fa_sent : sent l `prefix_of` offsets events;
  fa_message k m o : Send k m o ∈ l → message_of version st events k m;
}.

Lemma faithful_nil version st events : faithful version st events [].
Proof using Type. split; [done|apply prefix_nil|]. intros ? ? ? Hin. by apply elem_of_nil in Hin. Qed.

Lemma faithful_send version st events k e m o :
  to_message version st e = Ok m → faithful version st (Ok (k, e) :: events) [Send k m o].
Proof using Type.
  intros Hm. split.
  - apply prefix_nil.
  - destruct o; simpl; [apply prefix_cons|]; apply prefix_nil.
  - intros k' m' o' Hin%list_elem_of_singleton. simplify_eq. exists e. split; [by left|done].
Qed.

Lemma faithful_cons version st events k e m r l :
  to_message version st e = Ok m → (r = Ok tt ∧ faithful version st events l ∨ l = []) →
  faithful version st (Ok (k, e) :: events) (Send k m (Ok tt) :: Ack k r :: l).
Proof using Type.
  intros Hm Hl. assert (Hmsg : message_of version st (Ok (k, e) :: events) k m) by (exists e; split; [by left|done]).
  destruct Hl as [[-> [Ha Hs Hf]]| ->]; split.
  - by apply prefix_cons.
  - by apply prefix_cons.
  - intros k' m' o' [?|[?|Hin]%elem_of_cons]%elem_of_cons; simplify_eq; [done|].
    destruct (Hf _ _ _ Hin) as (e' & He & Hm'). exists e'. split; [by right|done].
  - destruct r; simpl; [done|apply prefix_nil].
  - apply prefix_cons, prefix_nil.
  - intros k' m' o' [?|[?|Hin]%elem_of_cons]%elem_of_cons; simplify_eq; [done|]. by apply elem_of_nil in Hin.
Qed.

Lemma prefix_cons_cases {A} (x : A) l l' :
  l `prefix_of` x :: l' → l = [] ∨ ∃ l'', l = x :: l'' ∧ l'' `prefix_of` l'.
Proof using Type.
  destruct l as [|y l]; [auto|]. intros Hp. right. exists l.
  split; [by rewrite (prefix_cons_inv_1 _ _ _ _ Hp)|by eapply prefix_cons_inv_2].
Qed.

Lemma run_faithful version st events n l :
  l `prefix_of` (run version st n events).1 → faithful version st events l.
Proof.
  revert n l. induction events as [|next events IH]; intros n l; cbn [MqttIntegration.run].
  { intros ->%prefix_nil_inv. apply faithful_nil. }
  destruct next as [[k e]|err]; cbn [rbind]; [|intros ->%prefix_nil_inv; apply faithful_nil].
  destruct (to_message version st e) as [m|err] eqn:Hm; cbn [rbind];
    [|intros ->%prefix_nil_inv; apply faithful_nil].
  destruct (sends n m) as [[]|err]; cbn [fst].
  2: { intros [->|(l' & -> & ->%prefix_nil_inv)]%prefix_cons_cases; [apply faithful_nil|by apply faithful_send]. }
  destruct (acks n) as [[]|err].
  - specialize (IH (S n)). destruct (run version st (S n) events) as [tr r]. cbn [fst] in *.
    intros [->|(l' & -> & [->|(l'' & -> & Hl)]%prefix_cons_cases)]%prefix_cons_cases;
      [apply faithful_nil|by apply faithful_send|]. apply faithful_cons; auto.
  - intros [->|(l' & -> & [->|(l'' & -> & ->%prefix_nil_inv)]%prefix_cons_cases)]%prefix_cons_cases;
      [apply faithful_nil|by apply faithful_send|]. apply faithful_cons; auto.
Qed.

Lemma run_complete version st events n :
  (run version st n events).2 = Ok tt → acked (run version st n events).1 = offsets events.
Proof.
  revert n. induction events as [|next events IH]; intros n; cbn [MqttIntegration.run]; [done|].
  destruct next as [[k e]|err]; cbn [rbind]; [|done].
  destruct (to_message version st e) as [m|err]; cbn [rbind]; [|done].
  destruct (sends n m) as [[]|err]; [|done]. destruct (acks n) as [[]|err]; [|done].
  specialize (IH (S n)). destruct (run version st (S n) events) as [tr r]. cbn [fst snd] in *.
  intros Hr%IH. simpl. by f_equal.
Qed.

(** C22: events are passed on at least once and in order: whenever the task that runs a stream is
    stopped, the offsets stored as done are of events that were sent before, without a gap, so that an
    event that was not sent is read again by the next consumer of the group; a message is always that
    of an event of the stream; and a stream that ends by itself has passed on all of its events. *)
Theorem stream_at_least_once version st events :
  (∀ l, l `prefix_of` (run version st 0 events).1 → faithful version st events l) ∧
  ((run version st 0 events).2 = Ok tt → acked (run version st 0 events).1 = offsets events).
Proof. split; [intros l; apply run_faithful|apply run_complete]. Qed.
End StreamProofs.

(** ** Users *)

(** A user who is connected is who they say they are: with an authenticator configured, a
    session is either of a user whose access token or whose sign-on token was accepted, or anonymous,
    if the client sent no credentials at all. *)
Theorem integration_user sv clean username password client_id s validate :
  sv_authenticator sv = Some validate → connect sv clean username password client_id = Ok s →
  clean = true ∧ s_streams s = ∅ ∧ s_running s = ∅ ∧
  match s_user s with
  | Anonymous => username = None ∧ password = None
  | Authenticated details =>
      (∃ u p p' f, username = Some u ∧ password = Some p ∧ sv_from_utf8 sv p = Some p' ∧
         sv_access_token sv = Some f ∧ f u p' = Ok (Some details)) ∨
      (∃ u, username = Some u ∧ password = None ∧ validate u = Ok details) ∨
      (∃ p p', username = None ∧ password = Some p ∧ sv_from_utf8 sv p = Some p' ∧
         validate p' = Ok details)
  end.
Proof.
  unfold connect, authenticate. intros -> Hc. destruct clean; [|done]. 
  destruct username as [u|], password as [p|], (sv_access_token sv) as [f|];
    try (destruct (sv_from_utf8 sv p) as [p'|] eqn:Hp; simpl in Hc; [|done]);
    try (destruct (f u p') as [[d|]|] eqn:Hf; try done);
    try (destruct (validate u) as [d|] eqn:Hv; try done);
    try (destruct (validate p') as [d|] eqn:Hv; try done);
    simplify_eq/=; split_and!; try done; naive_solver.
Qed.
