(* ===== verification/WebSocket.v ===== *)
(** * The WebSocket integration

    [websocket-integration/src]: an application receives its events over a
    WebSocket.  An actor per connection ([wshandler/mod.rs]) talks to the client
    and checks the connection and the token, and one service actor
    ([service.rs]) runs the streams; [route.rs] opens connections.  Actors
    handle one message at a time, in the order of their mailbox; the timers, the
    tokens and the Kafka consumers
    are those of the libraries used.  Times are in seconds. *)

From S2P Require Import Prelude Json Auth Registry CloudEvents Kafka EventStream.

(** ** Connections, [wshandler/mod.rs] *)

Definition AUTH_CHECK_INTERVAL : Z := 90.
Definition HEARTBEAT_INTERVAL : Z := 5.
Definition CLIENT_TIMEOUT : Z := 10.

Inductive CloseCode : Type := Policy | Protocol | CError | OtherCode (code : Z).

(** What a handler does to its context. *)
Inductive WsAction : Type :=
| Ping
| Pong (msg : string)
| TextMessage (s : string)
| Close (reason : option (CloseCode * string))
| Stop.

(** [client::Message] of [drogue_client] *)
Inductive ClientMessage : Type := RefreshAccessToken (token : string).

Inductive WsMessage : Type :=
| MPing (msg : string)
| MPong
| MBinary (data : string)
| MText (data : string)
| MClose (reason : option (CloseCode * string))
| MContinuation
| MNop
| MProtocolError.

(** The validation of sign-on tokens, giving the user and the expiration, and the
    authorization service. *)
Record AuthContext := mkAuthContext {
  ac_validate : string → result (UserDetails * Z) string;
  ac_authorize : string → Permission.t → option string → result Auth.Outcome string;
}.

Inductive AuthOutcome : Type := AuthAllow (expiration : Z) | AuthDeny.

Record WsHandler := mkWsHandler {
  w_application : string;
  w_group_id : option string;
  w_channel : option string;
  w_heartbeat : Z;
  w_id : string;
  w_auth_expiration : option Z;
  w_auth_context : option AuthContext;
}.

(** [WsHandler::new] at a time and with a new ID. *)
Definition ws_new (now : Z) (id application : string) (group_id channel : option string)
    (auth_expiration : option Z) (authenticator : option (string → result (UserDetails * Z) string))
    (user_auth : option (string → Permission.t → option string → result Auth.Outcome string)) : WsHandler :=
  mkWsHandler application group_id channel now id auth_expiration
    match authenticator, user_auth with
    | Some authenticator, Some user_auth => Some (mkAuthContext authenticator user_auth)
    | _, _ => None
    end.

Definition set_heartbeat (now : Z) (w : WsHandler) : WsHandler :=
  mkWsHandler (w_application w) (w_group_id w) (w_channel w) now (w_id w) (w_auth_expiration w) (w_auth_context w).
Definition set_expiration (e : Z) (w : WsHandler) : WsHandler :=
  mkWsHandler (w_application w) (w_group_id w) (w_channel w) (w_heartbeat w) (w_id w) (Some e) (w_auth_context w).

(** The body of the interval of [heartbeat] *)
Definition heartbeat (now : Z) (w : WsHandler) : list WsAction :=
  if (CLIENT_TIMEOUT <? now - w_heartbeat w)%Z then [Stop] else [Ping].

(** The body of the interval of [check_token_expiration] *)
Definition check_token_expiration (now : Z) (w : WsHandler) : list WsAction :=
  match w_auth_expiration w with
  | Some expiration =>
      if (expiration <? now)%Z then [Close (Some (Policy, "JWT token expired")); Stop] else []
  | None => []
  end.

(** [AuthContext::validate_token] *)
Definition validate_token (application : string) (ctx : AuthContext) (token : string)
    : result AuthOutcome string :=
  let? (details, exp) := ac_validate ctx token in
  let? outcome := ac_authorize ctx application Permission.Read (user_id (Authenticated details)) in
  Ok match outcome with Allow => AuthAllow exp | Deny => AuthDeny end.

Section Handler.
Context (parse_message : string → result ClientMessage string) (event_to_string : CE.Event → option string).

(** What is sent to the own address, and what is done at once. *)
Definition handle_protocol_message (r : result ClientMessage string) : list ClientMessage * list WsAction :=
  match r with
  | Ok msg => ([msg], [])
  | Err err => ([], [Close (Some (Protocol, err)); Stop])
  end.

(** [StreamHandler::handle] *)
Definition handle_message (now : Z) (msg : WsMessage) (w : WsHandler)
    : WsHandler * list ClientMessage * list WsAction :=
  match msg with
  | MPing msg => (set_heartbeat now w, [], [Pong msg])
  | MPong => (set_heartbeat now w, [], [])
  | MBinary data | MText data =>
      let '(out, actions) := handle_protocol_message (parse_message data) in (w, out, actions)
  | MClose reason => (w, [], [Close reason; Stop])
  | MContinuation => (w, [], [Stop])
  | MNop => (w, [], [])
  | MProtocolError => (w, [], [Stop])
  end.

(** [Handler<WsEvent>] *)
Definition handle_event (event : CE.Event) (w : WsHandler) : list WsAction :=
  if match w_channel w with
     | Some channel => negb (bool_decide (CE.subject event = Some channel))
     | None => false
     end
  then []
  else
    match event_to_string event with
    | Some evt => [TextMessage evt]
    | None => []
    end.

(** [Handler<StreamError>] *)
Definition handle_stream_error (error : string) : list WsAction :=
  [Close (Some (CError, error)); Stop].

(** [Handler<Protocol>]: the future, and what is done with its result. *)
Definition refresh (token : string) (w : WsHandler) : result AuthOutcome string :=
  match w_auth_context w with
  | Some ctx => validate_token (w_application w) ctx token
  | None => Err "Token authentication is not enabled"
  end.

Definition refreshed (r : result AuthOutcome string) (w : WsHandler) : WsHandler * list WsAction :=
  match r with
  | Ok (AuthAllow expiration) => (set_expiration expiration w, [])
  | Ok AuthDeny => (w, [Close (Some (Policy, "Failed to refresh token")); Stop])
  | Err err => (w, [Close (Some (CError, "Failed to refresh token: " +:+ err)); Stop])
  end.
End Handler.

(** ** The service, [service.rs] *)

Record ClientStream := mkClientStream { cs_application : string; cs_runner : nat }.

(** The clients, and the futures the context of the actor runs: for which client and
    application. *)
Record Service := mkService {
  sv_clients : gmap string ClientStream;
  sv_running : gmap nat (string * string);
  sv_next : nat;
}.

Definition service_new : Service := mkService ∅ ∅ 0.

(** [Handler<Subscribe>] *)
Definition handle_subscribe (id application : string) (s : Service) : Service :=
  mkService (<[id := mkClientStream application (sv_next s)]> (sv_clients s))
    (<[sv_next s := (id, application)]> (sv_running s)) (S (sv_next s)).

(** [Handler<Disconnect>] *)
Definition handle_disconnect (id : string) (s : Service) : Service :=
  match sv_clients s !! id with
  | Some c => mkService (base.delete id (sv_clients s)) (base.delete (cs_runner c) (sv_running s)) (sv_next s)
  | None => s
  end.

(** [Handler<StreamError>]; the client is told, if there is one. *)
Definition handle_service_error (id : string) (s : Service) : Service * list string :=
  match sv_clients s !! id with
  | Some c =>
      (mkService (base.delete id (sv_clients s)) (base.delete (cs_runner c) (sv_running s)) (sv_next s), [id])
  | None => (s, [])
  end.

(** [get_stream]: the topic and the group of the consumer. *)
Definition get_stream `{Text} (get_app : string → result (option Reg.Application) string)
    (consumer : string → option string → result unit string) (application : string)
    (group_id : option string) : result (string * option string) string :=
  let? found := map_err (λ _, "Request to registry error") (get_app application) in
  let? app_res := ok_or "Cannot find application" found in
  let topic := make_topic KEvents (Reg.a_name app_res) in
  let group := (λ g, application +:+ "." +:+ g) <$> group_id in
  let? _ := map_err (λ _, "Failed to subscribe to Kafka topic") (consumer topic group) in
  Ok (topic, group).

(** [run_stream]: the events that were sent to the connection; it always ends in an error. *)
Fixpoint run_stream (send : nat → bool) (n : nat) (events : list (result CE.Event string))
    : list CE.Event :=
  match events with
  | Ok event :: rest => event :: (if send n then run_stream send (S n) rest else [])
  | Err _ :: _ | [] => []
  end.

(** What the future of a subscription does: the events it sends. *)
Definition subscription `{Text} (get_app : string → result (option Reg.Application) string)
    (consumer : string → option string → result unit string) (application : string)
    (group_id : option string) (send : nat → bool)
    (events : string → option string → list (result CE.Event string)) : list CE.Event :=
  match get_stream get_app consumer application group_id with
  | Ok (topic, group) => run_stream send 0 (events topic group)
  | Err _ => []
  end.

(** ** How long a connection may go on *)

Section Timed.
Context (parse_message : string → result ClientMessage string) (event_to_string : CE.Event → option string).

(** A timer may fire late, and a token may be checked a while before its expiration is taken
    over; both by a bounded number of seconds. *)
Context (late slow : Z).

(** An open connection: the time, the actor, and when its two timers are due. *)
Record Conn := mkConn {
  c_now : Z;
  c_handler : WsHandler;
  c_check : Z;
  c_heartbeat : Z;
}.

(** The client is still connected after the actions. *)
Definition goes_on (actions : list WsAction) : bool :=
  negb (existsb (λ a, match a with Stop => true | _ => false end) actions).

(** [started], with a token that has not expired. *)
Definition started (now : Z) (w : WsHandler) : Conn :=
  mkConn now w (now + AUTH_CHECK_INTERVAL)%Z (now + HEARTBEAT_INTERVAL)%Z.

Inductive conn_step : Conn → Conn → Prop :=
| cs_time c t :
    (c_now c ≤ t)%Z → (t ≤ c_check c + late)%Z → (t ≤ c_heartbeat c + late)%Z →
    conn_step c (mkConn t (c_handler c) (c_check c) (c_heartbeat c))
| cs_check c :
    (c_check c ≤ c_now c)%Z → goes_on (check_token_expiration (c_now c) (c_handler c)) = true →
    conn_step c (mkConn (c_now c) (c_handler c) (c_now c + AUTH_CHECK_INTERVAL)%Z (c_heartbeat c))
| cs_heartbeat c :
    (c_heartbeat c ≤ c_now c)%Z → goes_on (heartbeat (c_now c) (c_handler c)) = true →
    conn_step c (mkConn (c_now c) (c_handler c) (c_check c) (c_now c + HEARTBEAT_INTERVAL)%Z)
| cs_message c msg w out actions :
    handle_message parse_message (c_now c) msg (c_handler c) = (w, out, actions) → goes_on actions = true →
    conn_step c (mkConn (c_now c) w (c_check c) (c_heartbeat c))
| cs_event c event :
    goes_on (handle_event event_to_string event (c_handler c)) = true → conn_step c c
| cs_refreshed c token w actions :
    (∀ e, refresh token (c_handler c) = Ok (AuthAllow e) → (c_now c ≤ e + slow)%Z) →
    refreshed (refresh token (c_handler c)) (c_handler c) = (w, actions) → goes_on actions = true →
    conn_step c (mkConn (c_now c) w (c_check c) (c_heartbeat c)).

Inductive conn_run : Conn → Prop :=
| cr_started now w :
    w_heartbeat w = now → (∀ e, w_auth_expiration w = Some e → (now ≤ e + slow)%Z) →
    conn_run (started now w)
| cr_step c c' : conn_run c → conn_step c c' → conn_run c'.

Hypothesis Hlate : (0 ≤ late)%Z.

(** The last check was within the validity of the token and within the patience with the
    client, and the next one is due in time. *)
Record conn_ok (c : Conn) : Prop := {
  ok_check : (c_check c ≤ c_now c + AUTH_CHECK_INTERVAL)%Z ∧ (c_now c ≤ c_check c + late)%Z;
  ok_heartbeat : (c_heartbeat c ≤ c_now c + HEARTBEAT_INTERVAL)%Z ∧ (c_now c ≤ c_heartbeat c + late)%Z;
  ok_token e : w_auth_expiration (c_handler c) = Some e → (c_check c ≤ e + slow + AUTH_CHECK_INTERVAL)%Z;
  ok_client : (c_heartbeat c ≤ w_heartbeat (c_handler c) + CLIENT_TIMEOUT + HEARTBEAT_INTERVAL)%Z;
}.

(** Messages leave the expiration, and count as a sign of life or change nothing. *)
Lemma handle_message_fields now msg w w' out actions :
  handle_message parse_message now msg w = (w', out, actions) →
  w_auth_expiration w' = w_auth_expiration w ∧ (w_heartbeat w' = now ∨ w_heartbeat w' = w_heartbeat w).
Proof using Type.
  destruct msg; simpl; unfold handle_protocol_message; try destruct (parse_message _);
    intros; simplify_eq/=; auto.
Qed.

Lemma conn_step_ok c c' : (0 ≤ slow)%Z → conn_ok c → conn_step c c' → conn_ok c'.
Proof.
  unfold AUTH_CHECK_INTERVAL, HEARTBEAT_INTERVAL, CLIENT_TIMEOUT.
  intros Hslow [Hc Hh Ht Hcl] Hs. destruct Hs as [c t|c Hdue Hgo|c Hdue Hgo|c msg w out actions Hm Hgo|c e Hgo|c token w actions Hv Hr Hgo];
    split; unfold AUTH_CHECK_INTERVAL, HEARTBEAT_INTERVAL, CLIENT_TIMEOUT in *; simpl in *; try lia; try done.
  - intros e He. unfold check_token_expiration in Hgo. rw He in Hgo.
    destruct (e <? c_now c)%Z eqn:Hlt; [done|]. lia.
  - unfold heartbeat, CLIENT_TIMEOUT in Hgo. destruct (_ <? _)%Z eqn:Hlt; [done|]. lia.
  - intros e He. apply handle_message_fields in Hm as [Hexp _]. rw Hexp in He. apply Ht in He. lia.
  - apply handle_message_fields in Hm as [_ [-> | ->]]; lia.
  - intros e He. unfold refreshed in Hr. destruct (refresh token (c_handler c)) as [[x|]|]; simplify_eq/=.
    specialize (Hv _ eq_refl). lia.
  - unfold refreshed in Hr. destruct (refresh token (c_handler c)) as [[x|]|]; by simplify_eq/=.
Qed.

Lemma conn_run_ok c : (0 ≤ slow)%Z → conn_run c → conn_ok c.
Proof.
  intros Hslow. induction 1 as [now w Hh He|c c' _ IH Hs]; [|by eapply conn_step_ok].
  split; unfold started, AUTH_CHECK_INTERVAL, HEARTBEAT_INTERVAL, CLIENT_TIMEOUT in *; simpl; try lia.
  intros e Hw. apply He in Hw. lia.
Qed.

(** C24: a connection does not outlive its token or its client: as long as it is open and events are
    passed on, no more than 90 seconds have passed since the token in use expired, and no more than 15
    since the last sign of life, but for the delays of the timers and of the validation. *)
Theorem connection_bounded c :
  (0 ≤ slow)%Z → conn_run c →
  (∀ e, w_auth_expiration (c_handler c) = Some e → (c_now c ≤ e + 90 + slow + late)%Z) ∧
  (c_now c ≤ w_heartbeat (c_handler c) + 15 + late)%Z.
Proof.
  intros Hslow [Hc Hh Ht Hcl]%conn_run_ok; [|done].
  unfold AUTH_CHECK_INTERVAL, HEARTBEAT_INTERVAL, CLIENT_TIMEOUT in *. split; [|lia].
  intros e He. apply Ht in He. lia.
Qed.
End Timed.

(** ** Connections and streams together *)

Module System.

Inductive ServiceMessage : Type :=
| Subscribe (id application : string)
| Disconnect (id : string).

(** The service, its mailbox, the failures it has told itself of and not yet handled, the
    connections that are open, those it has told of a failure, and all IDs so far. *)
Record t := mk {
  service : Service;
  mail : list ServiceMessage;
  notes : list string;
  live : gset string;
  told : gset string;
  seen : gset string;
}.

Definition init : t := mk service_new [] [] ∅ ∅ ∅.

(** The service handles a message. *)
Definition handle (m : ServiceMessage) (s : Service) : Service :=
  match m with
  | Subscribe id application => handle_subscribe id application s
  | Disconnect id => handle_disconnect id s
  end.

Inductive step : t → t → Prop :=
(* [started]: a connection with a new ID subscribes *)
| st_start y id application : id ∉ seen y →
    step y (mk (service y) (mail y ++ [Subscribe id application]) (notes y) ({[ id ]} ∪ live y)
              (told y) ({[ id ]} ∪ seen y))
(* [stopping]: for whatever reason *)
| st_stop y id : id ∈ live y →
    step y (mk (service y) (mail y ++ [Disconnect id]) (notes y) (live y ∖ {[ id ]}) (told y) (seen y))
| st_mail y m rest : mail y = m :: rest →
    step y (mk (handle m (service y)) rest (notes y) (live y) (told y) (seen y))
(* the future of a subscription ends, and the service is notified *)
| st_ended y r id application : sv_running (service y) !! r = Some (id, application) →
    step y (mk (mkService (sv_clients (service y)) (base.delete r (sv_running (service y))) (sv_next (service y)))
              (mail y) (notes y ++ [id]) (live y) (told y) (seen y))
| st_note y l1 id l2 s' tell : notes y = l1 ++ id :: l2 → handle_service_error id (service y) = (s', tell) →
    step y (mk s' (mail y) (l1 ++ l2) (live y) (list_to_set tell ∪ told y) (seen y)).

Inductive reachable : t → Prop :=
| r_init : reachable init
| r_step y y' : reachable y → step y y' → reachable y'.

(** A message in the mailbox, with what precedes and what follows it. *)
Lemma app_snoc_inv {A} (l l1 l2 : list A) (x y : A) :
  l ++ [x] = l1 ++ y :: l2 → (l2 = [] ∧ x = y ∧ l = l1) ∨ ∃ l', l2 = l' ++ [x] ∧ l = l1 ++ y :: l'.
Proof.
  destruct l2 as [|z l2 _] using rev_ind.
  - intros [-> [= ->]]%app_inj_tail. auto.
  - rw (app_assoc l1 (y :: l2) [z]). intros [-> [= ->]]%app_inj_tail. right. by exists l2.
Qed.

Record ok (y : t) : Prop := {
  ok_running r id app : sv_running (service y) !! r = Some (id, app) →
    sv_clients (service y) !! id = Some (mkClientStream app r);
  ok_clients id c : sv_clients (service y) !! id = Some c →
    cs_runner c < sv_next (service y) ∧ id ∈ seen y ∧ (id ∈ live y ∨ Disconnect id ∈ mail y) ∧
    (sv_running (service y) !! cs_runner c = Some (id, cs_application c) ∨ id ∈ notes y);
  ok_inj id id' c c' : sv_clients (service y) !! id = Some c → sv_clients (service y) !! id' = Some c' →
    cs_runner c = cs_runner c' → id = id';
  ok_mail l1 l2 id app : mail y = l1 ++ Subscribe id app :: l2 →
    sv_clients (service y) !! id = None ∧ id ∈ seen y ∧ (id ∈ live y ∨ Disconnect id ∈ l2) ∧
    (∀ app', Subscribe id app' ∉ l1 ++ l2) ∧ id ∉ notes y;
  ok_live id : id ∈ live y → id ∈ seen y ∧
    ((∃ app, Subscribe id app ∈ mail y) ∨ is_Some (sv_clients (service y) !! id) ∨ id ∈ told y);
  ok_disconnect id : Disconnect id ∈ mail y → id ∈ seen y ∧ id ∉ live y;
  ok_notes id : id ∈ notes y → id ∈ seen y;
}.

Lemma start_ok y id app :
  ok y → id ∉ seen y →
  ok (mk (service y) (mail y ++ [Subscribe id app]) (notes y) ({[ id ]} ∪ live y) (told y) ({[ id ]} ∪ seen y)).
Proof.
  intros [Hr Hc Hi Hm Hl Hd Hn] Hid. split; simpl; try done.
  - intros id' c Hid'. destruct (Hc _ _ Hid') as (? & ? & Hlive & ?). split_and!; [done|set_solver| |done].
    destruct Hlive; [left; set_solver|right]. apply elem_of_app. by left.
  - intros l1 l2 id' app' [(-> & [= <- <-] & <-)|(l' & -> & Hmail)]%app_snoc_inv.
    + split_and!.
      * destruct (sv_clients (service y) !! id) as [c|] eqn:E; [|done]. by apply Hc in E as (_ & ? & _).
      * set_solver.
      * left. set_solver.
      * intros app' [Hin|Hin%elem_of_nil]%elem_of_app; [|done].
        apply list_elem_of_split in Hin as (k1 & k2 & Hk). by apply Hm in Hk as (_ & ? & _).
      * by intros ?%Hn.
    + destruct (Hm _ _ _ _ Hmail) as (H1 & H2 & H3 & H4 & H5). split_and!; [done|set_solver| | |done].
      * destruct H3; [left; set_solver|right]. apply elem_of_app. by left.
      * intros a. rw app_assoc elem_of_app list_elem_of_singleton. intros [?|[= -> ->]]; [by eapply H4|done].
  - intros id' [->%elem_of_singleton|Hlive]%elem_of_union.
    + split; [set_solver|]. left. exists app. apply elem_of_app. right. by left.
    + destruct (Hl _ Hlive) as (? & [[a Ha]|?]); (split; [set_solver|]); [|by right].
      left. exists a. apply elem_of_app. by left.
  - intros id' [Hin|Hin%list_elem_of_singleton]%elem_of_app; [|done].
    apply Hd in Hin as [? ?]. set_solver.
  - intros id' ?%Hn. set_solver.
Qed.

Lemma stop_ok y id :
  ok y → id ∈ live y →
  ok (mk (service y) (mail y ++ [Disconnect id]) (notes y) (live y ∖ {[ id ]}) (told y) (seen y)).
Proof.
  intros [Hr Hc Hi Hm Hl Hd Hn] Hid. split; simpl; try done.
  - intros id' c Hid'. destruct (Hc _ _ Hid') as (? & ? & Hlive & ?). split_and!; [done|done| |done].
    rw elem_of_app list_elem_of_singleton. destruct (decide (id' = id)) as [->|]; [auto|].
    destruct Hlive; [left; set_solver|auto].
  - intros l1 l2 id' app' [(_ & Heq & _)|(l' & -> & Hmail)]%app_snoc_inv; [done|].
    destruct (Hm _ _ _ _ Hmail) as (H1 & H2 & H3 & H4 & H5). split_and!; [done|done| | |done].
    + rw elem_of_app list_elem_of_singleton. destruct (decide (id' = id)) as [->|]; [auto|].
      destruct H3; [left; set_solver|auto].
    + intros a. rw app_assoc elem_of_app list_elem_of_singleton. intros [?|?]; [by eapply H4|done].
  - intros id' [Hlive _]%elem_of_difference. destruct (Hl _ Hlive) as (? & [[a Ha]|?]); (split; [done|]); [|by right].
    left. exists a. apply elem_of_app. by left.
  - intros id' [Hin|[= ->]%list_elem_of_singleton]%elem_of_app.
    + apply Hd in Hin as [? ?]. set_solver.
    + split; [|set_solver]. by apply Hl.
Qed.

Lemma subscribe_ok y id app rest :
  ok y → mail y = Subscribe id app :: rest →
  ok (mk (handle_subscribe id app (service y)) rest (notes y) (live y) (told y) (seen y)).
Proof.
  intros [Hr Hc Hi Hm Hl Hd Hn] Hmail.
  destruct (Hm [] rest id app Hmail) as (Hno & Hseen & Hlv & Huniq & Hnote).
  assert (Hfresh : ∀ id' c, sv_clients (service y) !! id' = Some c → cs_runner c ≠ sv_next (service y)).
  { intros id' c Hc'. apply Hc in Hc' as [? _]. lia. }
  split; simpl; try done.
  - intros r id' app' [[<- [= <- <-]]|[Hne Hrun]]%lookup_insert_Some; [by rw lookup_insert_eq|].
    apply Hr in Hrun. rw lookup_insert_ne //. congruence.
  - intros id' c [[<- <-]|[Hne Hc']]%lookup_insert_Some; simpl.
    + split_and!; [lia|done|done|]. left. apply lookup_insert_eq.
    + destruct (Hc _ _ Hc') as (? & ? & Hlive & Hrun). split_and!; [lia|done| |].
      * destruct Hlive as [|Hin]; [auto|]. right. rw Hmail in Hin. by apply elem_of_cons in Hin as [|].
      * rw lookup_insert_ne //. by apply not_eq_sym, (Hfresh id').
  - intros id1 id2 c1 c2 [[<- <-]|[? H1]]%lookup_insert_Some [[<- <-]|[? H2]]%lookup_insert_Some; simpl; try done.
    + intros Heq. by destruct (Hfresh _ _ H2).
    + intros Heq. by destruct (Hfresh _ _ H1).
    + by apply (Hi _ _ _ _ H1 H2).
  - intros l1 l2 id' app' ->. destruct (Hm (Subscribe id app :: l1) l2 id' app') as (H1 & H2 & H3 & H4 & H5); [done|].
    split_and!; try done.
    + rw lookup_insert_ne //. intros <-. apply (H4 app). by left.
    + intros a Ha. apply (H4 a). by right.
  - intros id' Hlive. destruct (Hl _ Hlive) as (Hs & Hcase). split; [done|].
    destruct (decide (id' = id)) as [->|Hne]; [right; left; rw lookup_insert_eq; by eexists|].
    rw lookup_insert_ne //. destruct Hcase as [[a Ha]|?]; [|by right]. left. exists a.
    rw Hmail in Ha. apply elem_of_cons in Ha as [[= ? _]|?]; done.
  - intros id' Hin. apply Hd. rw Hmail. by right.
Qed.

(** Removing a client, whose stream ends. *)
Definition removed (id : string) (c : ClientStream) (s : Service) : Service :=
  mkService (base.delete id (sv_clients s)) (base.delete (cs_runner c) (sv_running s)) (sv_next s).

(** What is left when a client is removed, for whom it is not the last word. *)
Lemma client_removed_ok y id c m n told' :
  ok y → sv_clients (service y) !! id = Some c →
  (∀ l1 l2 id' app, m = l1 ++ Subscribe id' app :: l2 → ∃ l0, mail y = (l0 ++ l1) ++ Subscribe id' app :: l2) →
  (∀ x, x ∈ m → x ∈ mail y) → (∀ x, x ∈ mail y → x ≠ Disconnect id → x ∈ m) →
  (∀ id', id' ∈ n → id' ∈ notes y) → (∀ id', id' ∈ notes y → id' ≠ id → id' ∈ n) →
  (id ∉ live y ∨ id ∈ told') → told y ⊆ told' →
  ok (mk (removed id c (service y)) m n (live y) told' (seen y)).
Proof.
  intros [Hr Hc Hi Hm Hl Hd Hn] Hid Hsplit Hm1 Hm2 Hn1 Hn2 Hlast Htold. split; simpl; try done.
  - intros r id' app [Hne Hrun]%lookup_delete_Some. apply Hr in Hrun.
    rw lookup_delete_ne //. intros <-. rw Hid in Hrun. by simplify_eq/=.
  - intros id' c' [Hne Hc']%lookup_delete_Some. destruct (Hc _ _ Hc') as (? & ? & Hlive & Hrun).
    split_and!; [done|done| |].
    + destruct Hlive as [?|Hin]; [auto|]. right. apply Hm2; [done|]. congruence.
    + destruct Hrun as [Hrun|?]; [left|right; auto]. rw lookup_delete_ne //.
      intros Heq. apply Hne. by apply (Hi _ _ _ _ Hid Hc').
  - intros id1 id2 c1 c2 [_ H1]%lookup_delete_Some [_ H2]%lookup_delete_Some. by apply (Hi _ _ _ _ H1 H2).
  - intros l1 l2 id' app Heq. destruct (Hsplit _ _ _ _ Heq) as [l0 Hl0].
    destruct (Hm _ _ _ _ Hl0) as (H1 & H2 & H3 & H4 & H5). split_and!; try done.
    + by apply lookup_delete_None; right.
    + intros a Ha. apply (H4 a). rw -app_assoc elem_of_app. by right.
    + by intros ?%Hn1.
  - intros id' Hlive. destruct (Hl _ Hlive) as (Hs & Hcase). split; [done|].
    destruct (decide (id' = id)) as [->|Hne]; [by destruct Hlast; [|auto]|]. rw lookup_delete_ne //.
    destruct Hcase as [[a Ha]|[?|?]]; [|auto|right; right; set_solver]. left. exists a. by apply Hm2.
  - intros id' ?%Hm1. by apply Hd.
  - intros id' ?%Hn1. by apply Hn.
Qed.

Lemma disconnect_ok y id rest :
  ok y → mail y = Disconnect id :: rest →
  ok (mk (handle_disconnect id (service y)) rest (notes y) (live y) (told y) (seen y)).
Proof.
  intros Hok Hmail. pose proof Hok as [Hr Hc Hi Hm Hl Hd Hn].
  assert (Hdead : id ∉ live y) by (apply Hd; rw Hmail; by left).
  assert (Hsplit : ∀ l1 l2 id' app, rest = l1 ++ Subscribe id' app :: l2 →
    mail y = ([Disconnect id] ++ l1) ++ Subscribe id' app :: l2) by (intros ? ? ? ? ->; done).
  assert (Hin : ∀ x, x ∈ mail y → x ≠ Disconnect id → x ∈ rest).
  { rw Hmail. by intros x [?|?]%elem_of_cons ?. }
  unfold handle_disconnect. destruct (sv_clients (service y) !! id) as [c|] eqn:Hid.
  - apply client_removed_ok; auto; [by eauto|]. intros x Hx. rw Hmail. by right.
  - split; simpl; try done.
    + intros id' c Hc'. destruct (Hc _ _ Hc') as (? & ? & Hlive & ?). split_and!; try done.
      destruct Hlive; [auto|]. right. apply Hin; [done|]. congruence.
    + intros l1 l2 id' app Heq. destruct (Hm _ _ _ _ (Hsplit _ _ _ _ Heq)) as (H1 & H2 & H3 & H4 & H5).
      split_and!; try done. intros a Ha. apply (H4 a). by right.
    + intros id' Hlive. destruct (Hl _ Hlive) as (Hs & Hcase). split; [done|].
      destruct Hcase as [[a Ha]|?]; [left; exists a; by apply Hin|auto].
    + intros id' Hx. apply Hd. rw Hmail. by right.
Qed.

Lemma ended_ok y r id app :
  ok y → sv_running (service y) !! r = Some (id, app) →
  ok (mk (mkService (sv_clients (service y)) (base.delete r (sv_running (service y))) (sv_next (service y)))
        (mail y) (notes y ++ [id]) (live y) (told y) (seen y)).
Proof.
  intros [Hr Hc Hi Hm Hl Hd Hn] Hrun. pose proof (Hr _ _ _ Hrun) as Hid. split; simpl; try done.
  - intros r' id' app' [_ Hrun']%lookup_delete_Some. by apply Hr.
  - intros id' c Hc'. destruct (Hc _ _ Hc') as (? & ? & ? & Hcase). split_and!; try done.
    rw elem_of_app list_elem_of_singleton. destruct (decide (id' = id)) as [->|Hne]; [auto|].
    destruct Hcase as [Hrun'|?]; [left|auto]. rw lookup_delete_ne //. congruence.
  - intros l1 l2 id' app' Heq. destruct (Hm _ _ _ _ Heq) as (H1 & H2 & H3 & H4 & H5). split_and!; try done.
    rw elem_of_app list_elem_of_singleton. intros [?| ->]; congruence.
  - intros id' [?| ->%list_elem_of_singleton]%elem_of_app; [by apply Hn|]. by apply Hc in Hid as (_ & ? & _).
Qed.

Lemma note_ok y l1 id l2 s' tell :
  ok y → notes y = l1 ++ id :: l2 → handle_service_error id (service y) = (s', tell) →
  ok (mk s' (mail y) (l1 ++ l2) (live y) (list_to_set tell ∪ told y) (seen y)).
Proof.
  intros Hok Hnotes. pose proof Hok as [Hr Hc Hi Hm Hl Hd Hn].
  assert (Hsub : ∀ id', id' ∈ l1 ++ l2 → id' ∈ notes y).
  { rw Hnotes. intros id'. rw !elem_of_app elem_of_cons. naive_solver. }
  assert (Hrest : ∀ id', id' ∈ notes y → id' ≠ id → id' ∈ l1 ++ l2).
  { rw Hnotes. intros id'. rw !elem_of_app elem_of_cons. naive_solver. }
  unfold handle_service_error. destruct (sv_clients (service y) !! id) as [c|] eqn:Hid; intros [= <- <-].
  - apply client_removed_ok; auto; [|right|]; [|set_solver..].
    intros k1 k2 id' app Heq. by exists [].
  - split; simpl; try done.
    + intros id' c Hc'. destruct (Hc _ _ Hc') as (? & ? & ? & Hcase). split_and!; try done.
      destruct Hcase; [auto|]. right. apply Hrest; [done|]. congruence.
    + intros k1 k2 id' app Heq. destruct (Hm _ _ _ _ Heq) as (H1 & H2 & H3 & H4 & H5). split_and!; try done.
      by intros ?%Hsub.
    + intros id' Hlive. destruct (Hl _ Hlive) as (Hs & Hcase). split; [done|]. set_solver.
    + intros id' ?%Hsub. by apply Hn.
Qed.

Lemma reachable_ok y : reachable y → ok y.
Proof.
  induction 1 as [|y y' _ IH Hs].
  - split; simpl; try done; try set_solver; intros [] *; try done; by intros l2 id app [=].
  - destruct Hs as [y id app Hid|y id Hid|y m rest Hmail|y r id app Hrun|y l1 id l2 s' tell Hnotes Hs'].
    + by apply start_ok.
    + by apply stop_ok.
    + destruct m; simpl; [by eapply subscribe_ok|by eapply disconnect_ok].
    + by eapply ended_ok.
    + by eapply note_ok.
Qed.

(** C23: streams and connections belong to each other, in whatever order messages and failures come:
    a stream that runs is that of one registered client, for its application, whose connection is open
    or has a disconnect under way; and an open connection has its subscription under way, or has a
    stream that runs or whose failure is about to be told, or was told of the failure. *)
Theorem streams_match_connections y :
  reachable y →
  (∀ r id app, sv_running (service y) !! r = Some (id, app) →
     sv_clients (service y) !! id = Some (mkClientStream app r) ∧ (id ∈ live y ∨ Disconnect id ∈ mail y)) ∧
  (∀ id, id ∈ live y →
     (∃ app, Subscribe id app ∈ mail y) ∨
     (∃ c, sv_clients (service y) !! id = Some c ∧
        (sv_running (service y) !! cs_runner c = Some (id, cs_application c) ∨ id ∈ notes y)) ∨
     id ∈ told y).
Proof.
  intros [Hr Hc Hi Hm Hl Hd Hn]%reachable_ok. split.
  - intros r id app Hrun%Hr. split; [done|]. by apply Hc in Hrun as (_ & _ & ? & _).
  - intros id Hlive. destruct (Hl _ Hlive) as (_ & [?|[[c Hid]|?]]); auto. right. left. exists c.
    split; [done|]. by apply Hc in Hid as (_ & _ & _ & ?).
Qed.
End System.

(** ** How connections are opened, [route.rs] *)

Module Route.
Section Route.
Context (authenticator : option (string → result (UserDetails * Z) string))
  (user_auth : option (string → Permission.t → option string → result Auth.Outcome string)).

(** What the handlers get of a request: the query, and until when the user is authenticated, if
    the check of the credentials has told; with the time, and the ID that is drawn. *)
Record Request := mkRequest {
  rq_now : Z;
  rq_id : string;
  rq_group_id : option string;
  rq_auth_expiration : option Z;
}.

(** The validation of tokens and the authorization service are those the server has. *)
Definition start_websocket (application : string) (channel : option string) (r : Request) : WsHandler :=
  ws_new (rq_now r) (rq_id r) application (rq_group_id r) channel (rq_auth_expiration r) authenticator user_auth.

Definition start_connection (application : string) (r : Request) : WsHandler :=
  start_websocket application None r.

Definition start_connection_with_channel_filter (params : string * string) (r : Request) : WsHandler :=
  let '(application, channel) := params in start_websocket application (Some channel) r.

Context (parse_message : string → result ClientMessage string) (event_to_string : CE.Event → option string)
  (late slow : Z).

(** What was asked for with the request, and does not change. *)
Definition asked (w : WsHandler) := (w_application w, w_group_id w, w_channel w, w_id w, w_auth_context w).

Lemma handle_message_asked now msg w w' out actions :
  handle_message parse_message now msg w = (w', out, actions) → asked w' = asked w.
Proof using Type.
  destruct msg; cbn [handle_message]; unfold handle_protocol_message; try destruct (parse_message _);
    intros; by simplify_eq/=.
Qed.

Lemma refreshed_asked r w w' actions : refreshed r w = (w', actions) → asked w' = asked w.
Proof using Type. destruct r as [[]|]; intros; by simplify_eq/=. Qed.

Lemma run_asked c c' :
  rtc (conn_step parse_message event_to_string late slow) c c' → asked (c_handler c') = asked (c_handler c).
Proof using Type.
  induction 1 as [|c d c' Hs _ IH]; [done|]. rewrite IH.
  destruct Hs; cbn [c_handler]; eauto using handle_message_asked, refreshed_asked.
Qed.

(** However long it is open, a connection with a filter passes on the events of that channel only,
    and one without a filter all that can be encoded; both in the encoding of the event. *)
Theorem channel_filtered application channel r c event text :
  rtc (conn_step parse_message event_to_string late slow) (started (rq_now r) (start_websocket application channel r)) c →
  TextMessage text ∈ handle_event event_to_string event (c_handler c) ↔
  event_to_string event = Some text ∧ ∀ ch, channel = Some ch → CE.subject event = Some ch.
Proof using Type.
  intros Hrun%run_asked. unfold asked in Hrun. cbn in Hrun. injection Hrun as _ _ Hch _ _.
  unfold handle_event. rewrite Hch. destruct channel as [ch|]; [case_bool_decide; cbn [negb]|];
    destruct (event_to_string event); set_solver.
Qed.

(** Without single sign-on or without an authorization service, no token is taken later: the first
    message that brings one ends the connection. *)
Theorem refresh_disabled application channel r c token w actions :
  authenticator = None ∨ user_auth = None →
  rtc (conn_step parse_message event_to_string late slow) (started (rq_now r) (start_websocket application channel r)) c →
  refreshed (refresh token (c_handler c)) (c_handler c) = (w, actions) →
  goes_on actions = false.
Proof using Type.
  intros Hno Hrun%run_asked. unfold asked in Hrun. cbn in Hrun. injection Hrun as _ _ _ _ Hctx.
  unfold refresh. rewrite Hctx. destruct Hno as [-> | ->]; [|destruct authenticator]; by intros [= _ <-].
Qed.
End Route.
End Route.
