(* ===== verification/Listing.v ===== *)
(** * Listing applications and devices

    [list_apps] and [list_devices] of
    [device-management-service/src/service/management/mod.rs], over the queries
    of [Select]: the rows a query selects (a function on rows here, which
    [Select] relates to the text and parameters of the query), in the order of
    their names, cut to the page asked for, and then filtered again by
    [authorize].  The order of names is the collation of the database. *)

From stdpp Require Import sorting.
From S2P Require Import Prelude Json Versioning Auth Store Registry Management Select.

(** ** The rows of a query *)

Definition op_holds (ls : gmap string string) (op : Operation) : bool :=
  match op with
  | Eq k v => bool_decide (ls !! k = Some v)
  | NotEq k v => match ls !! k with Some x => negb (string_eqb x v) | None => false end
  | In k vs => match ls !! k with Some x => bool_decide (x ∈ vs) | None => false end
  | NotIn k vs => match ls !! k with Some x => negb (bool_decide (x ∈ vs)) | None => false end
  | Exists k => bool_decide (is_Some (ls !! k))
  | NotExists k => bool_decide (ls !! k = None)
  end.

Definition ops_hold (ls : option (gmap string string)) (ops : list Operation) : bool :=
  forallb (λ op, match ls with Some ls => op_holds ls op | None => false end) ops.

Definition visible (r : SqlRow) (u : UserInformation) : bool :=
  is_admin u || bool_decide (sr_owner r = Some (default "" (user_id u)))
  || match sr_members r with
     | Some ms => bool_decide (is_Some (im_get (default "" (user_id u)) ms))
                  || bool_decide (is_Some (im_get "" ms))
     | None => false
     end.

Lemma op_holds_spec ls op : op_holds ls op = true ↔ op_matches ls op.
Proof.
  destruct op as [k v|k v|k vs|k vs|k|k]; simpl; rw ?bool_decide_eq_true //;
    destruct (ls !! k) as [x|]; try naive_solver; rw ?negb_true_iff ?bool_decide_eq_true
      ?bool_decide_eq_false; try naive_solver.
Qed.

Lemma ops_hold_spec ls ops :
  ops_hold ls ops = true ↔ ∀ op, op ∈ ops → ∃ l, ls = Some l ∧ op_matches l op.
Proof.
  unfold ops_hold. rw forallb_forall. setoid_rewrite <- list_elem_of_In.
  destruct ls as [l|]; [setoid_rewrite op_holds_spec|]; naive_solver.
Qed.

Lemma visible_spec r u : visible r u = true ↔ row_listed r u.
Proof.
  rw row_listed_sql. unfold visible. rw !orb_true_iff bool_decide_eq_true.
  destruct (sr_members r) as [ms|]; rw ?orb_true_iff ?bool_decide_eq_true; naive_solver.
Qed.

(** LIMIT and OFFSET. *)
Definition page {A} (limit offset : option nat) (l : list A) : list A :=
  let l := drop (default 0 offset) l in
  match limit with
  | Some n => take n l
  | None => l
  end.

Section Listing.
Context `{UuidCodec}.
Context (name_le : relation string) `{∀ x y, Decision (name_le x y)}.

(** ORDER BY NAME *)
Definition by_name {R} (a b : string * R) : Prop := name_le a.1 b.1.
#[global] Instance by_name_dec {R} (a b : string * R) : Decision (by_name a b).
Proof. unfold by_name. apply _. Defined.

Definition select_apps (ops : list Operation) (u : UserInformation) (db : Db)
    : list (string * AppRow) :=
  merge_sort by_name (filter (λ nr,
    ops_hold (ar_labels nr.2) ops && visible (sql_row nr.1 nr.2) u = true)
    (map_to_list (applications db))).

(** The filter of the stream. *)
Definition listed (u : UserInformation) (nr : string * AppRow) : option Reg.Application :=
  let app := AppAccessor.from_row nr.1 nr.2 in
  match ensure app u Permission.Read with
  | Ok _ => Some (app_into app)
  | Err _ => None
  end.

Definition list_apps (u : UserInformation) (ops : list Operation) (limit offset : option nat)
    (db : Db) : list Reg.Application :=
  omap (listed u) (page limit offset (select_apps ops u db)).

Definition select_devices (app : string) (ops : list Operation) (db : Db) : list (string * DevRow) :=
  merge_sort by_name (omap (λ '((a, n), row),
      if string_eqb a app && ops_hold (dr_labels row) ops then Some (n, row) else None)
    (map_to_list (devices db))).

Definition list_devices (u : UserInformation) (app_id : string) (ops : list Operation)
    (limit offset : option nat) (db : Db) : result (list Reg.Device) ServiceError :=
  let? app := ok_or NotFound (AppAccessor.get app_id db) in
  let? _ := ensure_with app u Permission.Read NotFound in
  Ok ((λ nr, device_into (DevAccessor.from_row app_id nr.1 nr.2)) <$>
        page limit offset (select_devices app_id ops db)).

(** ** Facts *)

Lemma elem_of_select_apps ops u db n row :
  (n, row) ∈ select_apps ops u db ↔
  applications db !! n = Some row ∧
  (∀ op, op ∈ ops → ∃ l, ar_labels row = Some l ∧ op_matches l op) ∧ row_listed (sql_row n row) u.
Proof.
  unfold select_apps. rw merge_sort_Permutation list_elem_of_filter elem_of_map_to_list /=.
  rw andb_true_iff ops_hold_spec visible_spec. naive_solver.
Qed.

Lemma select_apps_sorted `{!Transitive name_le, !Total name_le} ops u db :
  StronglySorted by_name (select_apps ops u db).
Proof.
  assert (Transitive (@by_name AppRow)) by (intros ???; unfold by_name; apply transitivity).
  assert (Total (@by_name AppRow)) by (intros ??; unfold by_name; apply total, _).
  apply StronglySorted_merge_sort; apply _.
Qed.

Lemma select_apps_NoDup ops u db : NoDup (select_apps ops u db).*1.
Proof.
  unfold select_apps. rw merge_sort_Permutation.
  eapply sublist_NoDup; [apply (NoDup_fst_map_to_list (applications db))|].
  apply fmap_sublist, sublist_filter.
Qed.

Lemma listed_some u nr a :
  listed u nr = Some a ↔
  authorize (AppAccessor.from_row nr.1 nr.2) u Permission.Read = Allow ∧
  a = app_into (AppAccessor.from_row nr.1 nr.2).
Proof. unfold listed, ensure, ensure_with. destruct (authorize _ _ _); naive_solver. Qed.

Lemma omap_sorted {A B} (R : relation A) (S : relation B) (f : A → option B) l :
  (∀ x y a b, R x y → f x = Some a → f y = Some b → S a b) →
  StronglySorted R l → StronglySorted S (omap f l).
Proof.
  intros HRS. induction 1 as [|x l Hl IH Hx]; simpl; [constructor|].
  destruct (f x) as [a|] eqn:E; [|done]. constructor; [done|].
  apply Forall_forall. intros b (y & Hy & Hb)%list_elem_of_omap.
  rewrite Forall_forall in Hx. by eapply HRS; [apply Hx| |].
Qed.

(** What [authorize] sees of a row. *)
Lemma authorize_row n row u p :
  authorize (AppAccessor.from_row n row) u p = authorize (sql_row n row) u p.
Proof. done. Qed.

(** An application the user may read is in the list unless it has no owner. *)
Lemma readable_listed n row u :
  authorize (AppAccessor.from_row n row) u Permission.Read = Allow →
  row_listed (sql_row n row) u ↔
    is_Some (ar_owner row) ∨ is_admin u = true ∨ member_of (sql_row n row) u ∨ open_to_all (sql_row n row).
Proof.
  rw authorize_row. intros Ha. unfold row_listed. cbn [sr_owner sql_row]. split.
  - intros [?|[[? _]|[?|[?|[_ ->]]]]]; [by auto..|]. left. by eexists.
  - intros [?|[?|[?|?]]]; by auto.
Qed.

(** What the filter of the stream takes away: rows with an entry for the empty member
    (or owned by the empty name, and listed for an anonymous user). *)
Lemma listed_unreadable n row u :
  row_listed (sql_row n row) u → authorize (AppAccessor.from_row n row) u Permission.Read = Deny →
  open_to_all (sql_row n row) ∨ (u = Anonymous ∧ ar_owner row = Some "").
Proof.
  rw authorize_row. intros Hl Hd. destruct Hl as [Ha|[[_ ?]|[Hm|[?|?]]]]; [|congruence| |by left|by right].
  - assert (authorize (sql_row n row) u Permission.Read = Allow) by (apply authorize_spec; by left). congruence.
  - assert (authorize (sql_row n row) u Permission.Read = Allow); [|congruence].
    apply authorize_spec. destruct Hm as [m Hm]. do 3 right. exists m. split; [done|simpl; lia].
Qed.

Lemma omap_length_le {A B} (f : A → option B) (l : list A) : length (omap f l) ≤ length l.
Proof. induction l as [|x l IH]; [done|]. simpl. destruct (f x); [by apply le_n_S|by apply le_S]. Qed.

(** The rows a user may be shown and not read are the exceptional ones. *)
Definition filter_silent (u : UserInformation) (db : Db) : Prop :=
  ∀ n row, applications db !! n = Some row →
    open_to_all (sql_row n row) ∨ (u = Anonymous ∧ ar_owner row = Some "") →
    authorize (AppAccessor.from_row n row) u Permission.Read = Allow.

Lemma omap_all {A B} (f : A → option B) (g : A → B) (l : list A) :
  (∀ x, x ∈ l → f x = Some (g x)) → omap f l = g <$> l.
Proof.
  induction l as [|x l IH]; intros Hf; [done|]. simpl. rw Hf; [left|]. f_equal. apply IH.
  intros y Hy. apply Hf. by right.
Qed.

Lemma list_apps_pages u ops limit offset db :
  filter_silent u db → list_apps u ops limit offset db = page limit offset (list_apps u ops None None db).
Proof.
  intros Hsilent. set (g := λ nr : string * AppRow, app_into (AppAccessor.from_row nr.1 nr.2)).
  assert (Hall : ∀ nr, nr ∈ select_apps ops u db → listed u nr = Some (g nr)).
  { intros [n row] (Hrow & _ & Hl)%elem_of_select_apps. apply listed_some. split; [|done]. simpl.
    destruct (authorize (AppAccessor.from_row n row) u Permission.Read) eqn:Ha; [done|].
    pose proof (Hsilent n row Hrow (listed_unreadable _ _ _ Hl Ha)). congruence. }
  unfold list_apps. rw (omap_all (listed u) g (page None None _)).
  { intros nr. cbn [page default]. rw drop_0. apply Hall. }
  rw (omap_all (listed u) g (page limit offset _)).
  { intros nr Hnr. apply Hall. unfold page in Hnr. destruct limit as [k|].
    - eapply elem_of_sublist; [exact Hnr|]. etransitivity; [apply sublist_take|apply sublist_drop].
    - eapply elem_of_sublist; [exact Hnr|]. apply sublist_drop. }
  unfold page. cbn [default]. rw drop_0. destruct limit; by rw ?fmap_take fmap_drop.
Qed.

(** C27: the list of applications.  Without a page it has exactly the
    applications with matching labels that the user may read, those without an
    owner only if the user is an administrator or there is a member entry for
    the user or for everyone; in the order of their names and each of them once.
    A page has at most as many entries as asked for, and a page followed by the
    list from its end on is the list from its start on, so that reading page by
    page misses nothing and repeats nothing.  As pages are cut before the
    permissions are checked again, they may be shorter, even empty, before the
    end of the list; they are the pages of the list if no application is shared
    with the empty member (or owned by the empty name, for anonymous users) that
    the user may not read. *)
Theorem list_apps_correct `{!Transitive name_le, !Total name_le} u ops db :
  (∀ a, a ∈ list_apps u ops None None db ↔ ∃ n row,
     applications db !! n = Some row ∧ a = app_into (AppAccessor.from_row n row) ∧
     (∀ op, op ∈ ops → ∃ l, ar_labels row = Some l ∧ op_matches l op) ∧
     authorize (AppAccessor.from_row n row) u Permission.Read = Allow ∧
     (is_Some (ar_owner row) ∨ is_admin u = true ∨ member_of (sql_row n row) u ∨ open_to_all (sql_row n row))) ∧
  NoDup (Reg.a_name <$> list_apps u ops None None db) ∧
  StronglySorted (λ a b, name_le (Reg.a_name a) (Reg.a_name b)) (list_apps u ops None None db) ∧
  (∀ offset k, length (list_apps u ops (Some k) (Some offset) db) ≤ k) ∧
  (∀ offset k, list_apps u ops (Some k) (Some offset) db
     ++ list_apps u ops None (Some (offset + k)) db = list_apps u ops None (Some offset) db) ∧
  (filter_silent u db → ∀ limit offset,
     list_apps u ops limit offset db = page limit offset (list_apps u ops None None db)).
Proof.
  split_and!; [unfold list_apps..|by intros Hs limit offset; apply list_apps_pages].
  - intros a. cbn [page default]. rw list_elem_of_omap. split.
    + intros ([n row] & (? & ? & ?)%elem_of_select_apps & [? ->]%listed_some). exists n, row.
      split_and!; auto. by apply readable_listed.
    + intros (n & row & ? & -> & ? & ? & ?). exists (n, row).
      rw elem_of_select_apps listed_some. split_and!; auto. by apply readable_listed.
  - cbn [page default]. rw drop_0. pose proof (select_apps_NoDup ops u db) as Hnd.
    induction (select_apps ops u db) as [|nr l IH]; [constructor|]. simpl in *.
    apply NoDup_cons in Hnd as [Hn Hnd]. destruct (listed u nr) as [a|] eqn:Ha; [|by apply IH].
    simpl. constructor; [|by apply IH]. apply listed_some in Ha as [_ ->]. simpl.
    intros (b & Hb & (nr' & Hin & [_ ->]%listed_some)%list_elem_of_omap)%list_elem_of_fmap.
    apply Hn. simpl in Hb. rw Hb. by apply list_elem_of_fmap_2.
  - cbn [page default]. rw drop_0. eapply omap_sorted; [|apply select_apps_sorted; apply _].
    intros x y a b Hxy [_ ->]%listed_some [_ ->]%listed_some. done.
  - intros offset k. cbn [page default]. etransitivity; [apply omap_length_le|]. rw length_take. lia.
  - intros offset k. cbn [page default]. rw -omap_app -drop_drop take_drop //.
Qed.
End Listing.
