(* ===== verification/RegistryApi.v ===== *)
(** * The HTTP API of the registry

    [device-management-service/src/endpoints] and [lib.rs] with the endpoints
    of [admin-service/src/apps]: routes, the checks made before the service is
    called, the statuses of the answers, and the streaming of lists
    ([streamer.rs]).  The service is that of [Lifecycle] and [Listing].  What
    [actix] does with a request before the handlers, the decoders of bodies,
    the encoding of objects and the check of host names are given. *)

From S2P Require Import Prelude Json Versioning Auth Events Store Outbox Registry Management Admin Lifecycle Select Labels Listing Kafka.

(** ** Streaming an array, [streamer.rs] *)

Module Streamer.
Inductive State : Type := Start | Data | End_.

Section Streamer.
Context {T E : Type} (to_vec : T → result string string).

(** An item of the stream is an error of the source, or one of the serializer. *)
Inductive StreamError : Type := SourceError (e : E) | EncodeError (e : string).

(** [poll_next] with what the inner stream is ready with. *)
Definition poll_next (next : option (result T E)) (st : State) : State * option (result string StreamError) :=
  match st with
  | End_ => (End_, None)
  | _ =>
      let data := match st with Start => "[" | _ => "" end in
      match next with
      | Some (Err err) => (st, Some (Err (SourceError err)))
      | Some (Ok item) =>
          let data := match st with Data => data +:+ "," | _ => data end in
          match to_vec item with
          | Ok buffer => (Data, Some (Ok (data +:+ buffer)))
          | Err err => (st, Some (Err (EncodeError err)))
          end
      | None => (End_, Some (Ok (data +:+ "]")))
      end
  end.

(** Polled until it ends, or fails: an error ends the response. *)
Fixpoint collect (items : list (result T E)) (st : State) : list (result string StreamError) :=
  match items with
  | [] =>
      match poll_next None st with
      | (_, Some chunk) => [chunk]
      | (_, None) => []
      end
  | next :: rest =>
      match poll_next (Some next) st with
      | (st, Some (Ok chunk)) => Ok chunk :: collect rest st
      | (_, Some (Err e)) => [Err e]
      | (_, None) => []
      end
  end.

(** The text of chunks that are all there. *)
Fixpoint text_of (chunks : list (result string StreamError)) : option string :=
  match chunks with
  | [] => Some ""
  | Ok c :: rest => (λ t, c +:+ t) <$> text_of rest
  | Err _ :: _ => None
  end.

(** The items from the second on. *)
Fixpoint tail_text (texts : list string) : string :=
  match texts with
  | [] => ""
  | t :: rest => "," +:+ t +:+ tail_text rest
  end.

Lemma join_tail t texts : join "," (t :: texts) = t +:+ tail_text texts.
Proof.
  revert t. induction texts as [|u texts IH]; intros t; [by rw /= app_empty_r|].
  change (join "," (t :: u :: texts)) with (t +:+ "," +:+ join "," (u :: texts)). by rw IH.
Qed.

Lemma collect_data items texts :
  Forall2 (λ i t, to_vec i = Ok t) items texts →
  text_of (collect (Ok <$> items) Data) = Some (tail_text texts +:+ "]").
Proof.
  induction 1 as [|i t items texts Hi _ IH]; [done|]. rw fmap_cons. cbn [collect poll_next]. rw Hi.
  cbn [text_of]. rw IH /=. f_equal. by rw !app_cons app_empty_l !str_app_assoc.
Qed.

(** The chunks of a list make up the JSON array of its items, whatever their number. *)
Theorem streams_array items texts :
  Forall2 (λ i t, to_vec i = Ok t) items texts →
  text_of (collect (Ok <$> items) Start) = Some ("[" +:+ join "," texts +:+ "]").
Proof.
  destruct 1 as [|i t items texts Hi Hrest]; [done|]. rw fmap_cons. cbn [collect poll_next]. rw Hi.
  cbn [text_of]. rw (collect_data items texts Hrest) join_tail /=. f_equal.
  by rw !app_cons !app_empty_l !str_app_assoc.
Qed.

(** A response that is complete was made of a list without errors. *)
Theorem streams_no_error items st :
  is_Some (text_of (collect items st)) → st ≠ End_ → Forall (λ i, ∃ x, i = Ok x) items.
Proof.
  revert st. induction items as [|[x|e] items IH]; intros st Hs Hst; [constructor| |].
  - constructor; [by eexists|]. destruct st; [..|done]; cbn [collect poll_next] in Hs;
      (destruct (to_vec x) as [t|t]; cbn [text_of] in Hs; [|by apply is_Some_None in Hs]);
      apply (IH Data); try done; by apply fmap_is_Some in Hs.
  - destruct st; [..|done]; cbn [collect poll_next text_of] in Hs; by apply is_Some_None in Hs.
Qed.
End Streamer.

(** The tests of the source. *)
Example test_streamer_default :
  text_of (collect (E := unit) (λ s : string, Ok ("'" +:+ s +:+ "'")) [Ok "foo"; Ok "bar"] Start) = Some "['foo','bar']".
Proof. reflexivity. Qed.
Example test_streamer_empty : text_of (collect (E := unit) (λ s : string, Ok s) [] Start) = Some "[]".
Proof. reflexivity. Qed.
End Streamer.

(** ** Requests and answers *)

Inductive HttpMethod : Type := GET | POST | PUT | DELETE.

(** The path after the prefix [/api], as its segments; query and body are text. *)
Record HttpRequest := mkHttpRequest {
  rq_method : HttpMethod;
  rq_path : list string;
  rq_query : string;
  rq_body : string;
}.

Inductive ResponseBody : Type :=
| NoBody
| JsonBody (text : string)
| ArrayBody (chunks : list (result string (Streamer.StreamError (E := ServiceError))))
| ErrorBody (error : string).

Record HttpResponse := mkHttpResponse {
  hr_status : Z;
  hr_location : option string;
  hr_body : ResponseBody;
}.

Definition finish_with (status : Z) : HttpResponse := mkHttpResponse status None NoBody.

(** The name [error_response] gives to an error. *)
Definition error_name (e : ServiceError) : string :=
  match e with
  | Internal _ => "InternalError"
  | Pool => "PoolError"
  | Database _ => "DatabaseError"
  | NotAuthorized => "AuthenticationError"
  | NotFound => "NotFound"
  | Conflict _ => "Conflict"
  | ReferenceNotFound => "ReferenceNotFound"
  | BadRequest _ => "BadRequest"
  | OptimisticLockFailed => "OptimisticLockFailed"
  end.

Definition service_error (e : ServiceError) : HttpResponse :=
  mkHttpResponse (error_response e) None (ErrorBody (error_name e)).

(** [PostgresManagementServiceError::error_response] *)
Definition mgmt_error {E} (e : MgmtError E) : HttpResponse :=
  match e with
  | Service e => service_error e
  | EventSender _ => mkHttpResponse 502 None (ErrorBody "EventSenderError")
  end.

(** [ListParams] *)
Record ListParams := mkListParams { lp_labels : string; lp_limit : option nat; lp_offset : option nat }.

(** The decoders of [serde], the encoders, [url_for] and [hostname_validator]; a request
    whose body or query cannot be extracted is answered by [actix]. *)
Class ApiCodecs := {
  decode_app : string → option Reg.Application;
  decode_device : string → option Reg.Device;
  decode_delete : string → option (option Preconditions);
  decode_list : string → option ListParams;
  decode_transfer : string → option string;
  decode_members : string → option Members;
  app_json : Reg.Application → result string string;
  device_json : Reg.Device → result string string;
  transfer_json : string → result string string;
  members_json : Members → result string string;
  url_for : string → list string → result string string;
  hostname_valid : string → bool;
}.

(** A valid host name has nothing but letters, digits, dashes and dots. *)
Definition hostname_char (c : ascii) : bool :=
  between "a" "z" c || between "A" "Z" c || between "0" "9" c || bool_decide (c = "-"%char) || bool_decide (c = "."%char).
Class HostnameLaws `{ApiCodecs} : Prop := {
  hostname_chars s : hostname_valid s = true → all_chars hostname_char s = true;
}.

(** The resources of the two scopes. *)
Inductive Resource : Type :=
| RApps
| RApp (app : string)
| RDevices (app : string)
| RDevice (app device : string)
| RTransfer (app : string)
| RAccept (app : string)
| RMembers (app : string)
| RNone.

Definition resource_of (path : list string) : Resource :=
  match path with
  | "registry" :: "v1alpha1" :: "apps" :: rest =>
      match rest with
      | [] => RApps
      | [app] => RApp app
      | [app; "devices"] => RDevices app
      | [app; "devices"; device] => RDevice app device
      | _ => RNone
      end
  | ["admin"; "v1alpha1"; "apps"; app; "transfer-ownership"] => RTransfer app
  | ["admin"; "v1alpha1"; "apps"; app; "accept-ownership"] => RAccept app
  | ["admin"; "v1alpha1"; "apps"; app; "members"] => RMembers app
  | _ => RNone
  end.

(** ** Handlers *)

Section Handlers.
Context `{UuidCodec, ClientApi, Keycloak, ApiCodecs, Nom} {E : Type}.
Context (instance : string) (sender : list Event.t → result unit E) (nom_error : string → string).
Context (name_le : relation string) `{∀ x y, Decision (name_le x y)}.
Implicit Types (env : Env) (user : UserInformation) (db : Db).

(** What a request leaves, and what it is answered. *)
Record ApiResult := mkApiResult {
  ar_state : Db;
  ar_events : option (list Event.t);
  ar_answer : HttpResponse;
}.

Definition unchanged db (r : HttpResponse) : ApiResult := mkApiResult db None r.

(** Bodies and queries that cannot be decoded are refused before the handler. *)
Definition extract {A} (a : option A) db (k : A → ApiResult) : ApiResult :=
  match a with
  | Some a => k a
  | None => unchanged db (finish_with 400)
  end.

(** [.await?] on an operation, and the answer if it succeeds. *)
Definition performed (r : Response (E := E)) (answer : HttpResponse) : ApiResult :=
  mkApiResult (r_db r) (r_sent r)
    match r_result r with
    | Ok _ => answer
    | Err e => mgmt_error e
    end.

(** [url_for(..)?]; the error of [actix] is an internal one. *)
Definition with_location (location : result string string) db (k : string → ApiResult) : ApiResult :=
  match location with
  | Ok url => k url
  | Err _ => unchanged db (finish_with 500)
  end.

(** [HttpResponse::Ok().json(..)] *)
Definition json_answer (text : result string string) : HttpResponse :=
  match text with
  | Ok t => mkHttpResponse 200 None (JsonBody t)
  | Err _ => finish_with 500
  end.

Definition is_lowercase (s : string) : bool := string_eqb (map_chars ascii_lower s) s.

(** *** Applications, [endpoints/apps.rs] *)

Definition api_create_app env user (app : Reg.Application) db : ApiResult :=
  let name := Reg.a_name app in
  if is_empty name || negb (hostname_valid name) || negb (is_lowercase name) then unchanged db (finish_with 400)
  else
    with_location (url_for "app" [name]) db (λ location,
      performed (handle_request instance sender env user (CreateApp app) db)
        (mkHttpResponse 201 (Some location) NoBody)).

Definition api_update_app env user (app_id : string) (app : Reg.Application) db : ApiResult :=
  if is_empty app_id then unchanged db (finish_with 400)
  else if negb (string_eqb app_id (Reg.a_name app)) then unchanged db (finish_with 400)
  else performed (handle_request instance sender env user (UpdateApp app) db) (finish_with 204).

Definition api_delete_app env user (app : string) (params : option (option Preconditions)) db : ApiResult :=
  if is_empty app then unchanged db (finish_with 400)
  else performed (handle_request instance sender env user (DeleteApp app (default None params)) db) (finish_with 204).

Definition api_read_app user (app_id : string) db : HttpResponse :=
  if is_empty app_id then finish_with 400
  else
    match get_app user app_id db with
    | Ok None => finish_with 404
    | Ok (Some app) => json_answer (app_json app)
    | Err e => service_error e
    end.

(** The label selector of a list; [ServiceError::InvalidRequest] is a bad request. *)
Definition with_selector (labels : string) (k : list Operation → HttpResponse) : HttpResponse :=
  match parse_from nom_error labels with
  | Ok ops => k ops
  | Err _ => mkHttpResponse 400 None (ErrorBody "InvalidRequest")
  end.

Definition streaming {T} (to_vec : T → result string string) (items : list T) : HttpResponse :=
  mkHttpResponse 200 None (ArrayBody (Streamer.collect to_vec (Ok <$> items) Streamer.Start)).

Definition api_list_apps user (params : ListParams) db : HttpResponse :=
  with_selector (lp_labels params) (λ ops,
    streaming app_json (list_apps name_le user ops (lp_limit params) (lp_offset params) db)).

(** *** Devices, [endpoints/devices.rs]; names of the model are valid UTF-8 *)

Definition api_create_device env user (app_id : string) (device : Reg.Device) db : ApiResult :=
  let name := Reg.d_name device in
  if is_empty name || is_empty (Reg.d_application device) || (255 <? String.length name)%nat
  then unchanged db (finish_with 400)
  else
    with_location (url_for "device" [app_id; name]) db (λ location,
      performed (handle_request instance sender env user (CreateDevice device) db)
        (mkHttpResponse 201 (Some location) NoBody)).

Definition api_update_device env user (app_id device_id : string) (device : Reg.Device) db : ApiResult :=
  if is_empty app_id || is_empty device_id then unchanged db (finish_with 400)
  else if negb (string_eqb app_id (Reg.d_application device)) || negb (string_eqb device_id (Reg.d_name device))
  then unchanged db (finish_with 400)
  else performed (handle_request instance sender env user (UpdateDevice device) db) (finish_with 204).

Definition api_delete_device env user (app device : string) (params : option (option Preconditions)) db
    : ApiResult :=
  if is_empty app || is_empty device then unchanged db (finish_with 400)
  else performed (handle_request instance sender env user (DeleteDevice app device (default None params)) db)
    (finish_with 204).

Definition api_read_device user (app_id device_id : string) db : HttpResponse :=
  if is_empty app_id || is_empty device_id then finish_with 400
  else
    match get_device user app_id device_id db with
    | Ok None => finish_with 404
    | Ok (Some device) => json_answer (device_json device)
    | Err e => service_error e
    end.

Definition api_list_devices user (app_id : string) (params : ListParams) db : HttpResponse :=
  if is_empty app_id then finish_with 400
  else
    with_selector (lp_labels params) (λ ops,
      match list_devices name_le user app_id ops (lp_limit params) (lp_offset params) db with
      | Ok devices => streaming device_json devices
      | Err e => service_error e
      end).

(** *** Administration, [admin-service/src/apps/endpoints.rs] *)

Definition api_transfer env user (app_id new_user : string) db : ApiResult :=
  performed (handle_request instance sender env user (Transfer app_id new_user) db) (finish_with 202).

Definition api_read_transfer user (app_id : string) db : HttpResponse :=
  match read_transfer_state user app_id db with
  | Ok (Some new_user) => json_answer (transfer_json new_user)
  | Ok None => finish_with 204
  | Err e => service_error e
  end.

Definition api_cancel env user (app_id : string) db : ApiResult :=
  performed (handle_request instance sender env user (Cancel app_id) db) (finish_with 204).
Definition api_accept env user (app_id : string) db : ApiResult :=
  performed (handle_request instance sender env user (Accept app_id) db) (finish_with 204).

Definition api_get_members user (app_id : string) db : HttpResponse :=
  match get_members user app_id db with
  | Ok members => json_answer (members_json members)
  | Err e => service_error e
  end.

Definition api_set_members env user (app_id : string) (members : Members) db : ApiResult :=
  performed (handle_request instance sender env user (SetMembers app_id members) db) (finish_with 204).

(** ** Routes, the macros [crud!] and [app!] of [lib.rs] *)

Definition serve_request env user (rq : HttpRequest) db : ApiResult :=
  let body {A} (decode : string → option A) := extract (decode (rq_body rq)) db in
  let query := extract (decode_list (rq_query rq)) db in
  match resource_of (rq_path rq), rq_method rq with
  | RApps, POST => body decode_app (λ app, api_create_app env user app db)
  | RApps, GET => query (λ params, unchanged db (api_list_apps user params db))
  | RApp app, GET => unchanged db (api_read_app user app db)
  | RApp app, PUT => body decode_app (λ new, api_update_app env user app new db)
  | RApp app, DELETE => api_delete_app env user app (decode_delete (rq_body rq)) db
  | RDevices app, POST => body decode_device (λ device, api_create_device env user app device db)
  | RDevices app, GET => query (λ params, unchanged db (api_list_devices user app params db))
  | RDevice app device, GET => unchanged db (api_read_device user app device db)
  | RDevice app device, PUT => body decode_device (λ new, api_update_device env user app device new db)
  | RDevice app device, DELETE => api_delete_device env user app device (decode_delete (rq_body rq)) db
  | RTransfer app, GET => unchanged db (api_read_transfer user app db)
  | RTransfer app, PUT => body decode_transfer (λ new_user, api_transfer env user app new_user db)
  | RTransfer app, DELETE => api_cancel env user app db
  | RAccept app, PUT => api_accept env user app db
  | RMembers app, GET => unchanged db (api_get_members user app db)
  | RMembers app, PUT => body decode_members (λ members, api_set_members env user app members db)
  | RNone, _ => unchanged db (finish_with 404)
  | _, _ => unchanged db (finish_with 405)
  end.
End Handlers.

(** ** Names *)

(** No application and no device is added. *)
Definition no_new (db db' : Db) : Prop :=
  dom (applications db') ⊆ dom (applications db) ∧ dom (devices db') ⊆ dom (devices db).

#[global] Instance no_new_preorder : PreOrder no_new.
Proof. split; [intros db; split; reflexivity|]. intros a b c [H1 H2] [H3 H4]. split; by etransitivity. Qed.

Section NoNew.
Implicit Types db : Db.

Lemma no_new_same db db' : applications db' = applications db → devices db' = devices db → no_new db db'.
Proof. intros Ha Hd. unfold no_new. by rw Ha Hd. Qed.

Lemma app_aliases_no_new id aliases db db' : AppAccessor.insert_aliases id aliases db = Ok db' → no_new db db'.
Proof.
  revert db. induction aliases as [|a aliases IH]; intros db; simpl; [by intros [= <-]|].
  destruct (_ !! _); [done|]. intros Hi%IH. by transitivity (with_application_aliases
    (<[alias_value a := (alias_type a, id)]> (application_aliases db)) db).
Qed.

Lemma dev_aliases_no_new app d aliases db db' : DevAccessor.insert_aliases app d aliases db = Ok db' → no_new db db'.
Proof.
  revert db. induction aliases as [|a aliases IH]; intros db; simpl; [by intros [= <-]|].
  destruct (_ !! _); [done|]. intros Hi%IH. by transitivity (with_device_aliases
    (<[(app, alias_value a) := (alias_type a, d)]> (device_aliases db)) db).
Qed.

Lemma insert_known_app n r db : is_Some (applications db !! n) → no_new db (with_applications (<[n := r]> (applications db)) db).
Proof. intros Hn%elem_of_dom. split; [|done]. simpl. rw dom_insert. set_solver. Qed.

Lemma insert_known_device k r db : is_Some (devices db !! k) → no_new db (with_devices (<[k := r]> (devices db)) db).
Proof. intros Hn%elem_of_dom. split; [done|]. simpl. rw dom_insert. set_solver. Qed.

Lemma app_update_no_new fresh a aliases db db' : AppAccessor.update_data fresh a aliases db = Ok db' → no_new db db'.
Proof.
  unfold AppAccessor.update_data, update_aliases. destruct (applications db !! App.name a) as [row|] eqn:Hrow; [|done].
  assert (Hi := insert_known_app (App.name a) (AppAccessor.updated_row fresh a row) db ltac:(by eexists)).
  destruct aliases as [al|]; simpl; [|by intros [= <-]]. intros Hal%app_aliases_no_new. etransitivity; [exact Hi|exact Hal].
Qed.

Lemma device_update_no_new fresh d aliases db db' : DevAccessor.update fresh d aliases db = Ok db' → no_new db db'.
Proof.
  unfold DevAccessor.update, update_aliases. destruct (devices db !! _) as [row|] eqn:Hrow; [|done].
  assert (Hi := insert_known_device _ (DevAccessor.updated_row fresh d row) db ltac:(by eexists)).
  destruct aliases as [al|]; simpl; [|by intros [= <-]]. intros Hal%dev_aliases_no_new. etransitivity; [exact Hi|exact Hal].
Qed.

Lemma app_delete_no_new id db db' : AppAccessor.delete id db = Ok db' → no_new db db'.
Proof.
  unfold AppAccessor.delete. destruct (_ !! _); [|done]. intros [= <-]. split; simpl.
  - rw dom_delete. set_solver.
  - apply dom_filter_subseteq.
Qed.

Lemma device_delete_no_new app d db db' : DevAccessor.delete app d db = Ok db' → no_new db db'.
Proof.
  unfold DevAccessor.delete. destruct (_ !! _); [|done]. intros [= <-]. split; [done|]. simpl. rw dom_delete. set_solver.
Qed.

Lemma delete_devices_no_new app db : no_new db (DevAccessor.delete_app app db).1.
Proof. split; [done|]. simpl. apply dom_filter_subseteq. Qed.

Lemma alter_no_new f n db : no_new db (with_applications (alter f n (applications db)) db).
Proof. split; [|done]. simpl. by rw dom_alter_L. Qed.
End NoNew.

Create HintDb names.
#[export] Hint Resolve app_update_no_new device_update_no_new app_delete_no_new device_delete_no_new : names.

Section RequestNames.
Context `{UuidCodec, ClientApi, Keycloak, ApiCodecs, Nom} {E : Type}.
Context (instance : string) (sender : list Event.t → result unit E) (nom_error : string → string).
Context (name_le : relation string) `{∀ x y, Decision (name_le x y)}.
Implicit Types (env : Env) (user : UserInformation) (db : Db).

Lemma map_err_ok {A F G} (f : F → G) (r : result A F) a : map_err f r = Ok a → r = Ok a.
Proof. destruct r; naive_solver. Qed.

Lemma perform_update_no_new env identity app aliases eu ev db db' events :
  perform_update_app instance env identity app aliases eu ev db = Ok (db', events) → no_new db db'.
Proof.
  unfold perform_update_app. intros (c & _ & (? & _ & (? & _ & Hp)%rbind_ok_inv)%rbind_ok_inv)%rbind_ok_inv.
  cbv zeta in Hp. destruct (_ && _).
  - apply rbind_ok_inv in Hp as (db1 & Hd & [= <- _]). eauto with names.
  - case_bool_decide; [by injection Hp as <- _|]. destruct (advance_from _ _ _) as [app2 [r|e]]; [|done].
    apply rbind_ok_inv in Hp as (db1 & Hu%map_err_ok & [= <- _]). eauto with names.
Qed.

Lemma check_clean_no_new env app db db' : check_clean_app instance env app db = Ok db' → no_new db db'.
Proof.
  unfold check_clean_app. destruct (AppAccessor.get _ _); [|by intros [= <-]]. case_bool_decide; [by intros [= <-]|].
  destruct (_ <? _)%Z; [by intros [= <-]|]. intros ([db1 evs] & Hp & [= <-])%rbind_ok_inv. by eapply perform_update_no_new.
Qed.

Lemma update_device_no_new env user device db db' evs :
  update_device_tx instance env user device db = Ok (db', evs) → no_new db db'.
Proof.
  unfold update_device_tx. intros ([d al] & _ & Htx)%rbind_ok_inv. cbv zeta in Htx.
  do 4 apply rbind_ok_inv in Htx as (? & _ & Htx). destruct (_ && _).
  - apply rbind_ok_inv in Htx as (db1 & Hd & Htx). apply rbind_ok_inv in Htx as (db2 & Hc%check_clean_no_new & [= <- _]).
    transitivity db1; eauto with names.
  - case_bool_decide; [by injection Htx as <- _|]. destruct (advance_from _ _ _) as [d2 [r|e]]; [|done].
    apply rbind_ok_inv in Htx as (db1 & Hu%map_err_ok & [= <- _]). by eapply device_update_no_new in Hu.
Qed.

Lemma delete_device_no_new env user app device pre db db' evs :
  delete_device_tx instance env user app device pre db = Ok (db', evs) → no_new db db'.
Proof.
  unfold delete_device_tx. intros Htx. apply rbind_ok_inv in Htx as (? & _ & Htx). case_bool_decide; [|done].
  do 3 apply rbind_ok_inv in Htx as (? & _ & Htx). destruct (advance_revision _) as [d2 [r|e]]; [|done].
  apply rbind_ok_inv in Htx as ([db1 path] & Hd & [= <- _]). case_bool_decide.
  - apply rbind_ok_inv in Hd as (db2 & Hd & [= <- _]). by apply device_delete_no_new in Hd.
  - apply rbind_ok_inv in Hd as (db2 & Hd & [= <- _]). by apply device_update_no_new in Hd.
Qed.

Lemma delete_app_no_new env user app pre db db' evs :
  delete_app_tx instance env user app pre db = Ok (db', evs) → no_new db db'.
Proof.
  unfold delete_app_tx. intros Htx. apply rbind_ok_inv in Htx as (? & _ & Htx). case_bool_decide; [|done].
  do 2 apply rbind_ok_inv in Htx as (? & _ & Htx). pose proof (delete_devices_no_new app db) as Hdev.
  destruct (DevAccessor.delete_app app db) as [db0 remaining]. simpl in Hdev.
  destruct (advance_revision _) as [a2 [r|e]]; [|done].
  apply rbind_ok_inv in Htx as ([db1 path] & Hd & [= <- _]). transitivity db0; [done|]. case_bool_decide.
  - apply rbind_ok_inv in Hd as (db2 & Hd & [= <- _]). by apply app_delete_no_new in Hd.
  - apply rbind_ok_inv in Hd as (db2 & Hd & [= <- _]). by apply app_update_no_new in Hd.
Qed.

Lemma admin_no_new db r : (∀ db', r = Ok db' → no_new db db') → no_new db (r_db (admin_response (E := E) db r)).
Proof. destruct r; simpl; auto. reflexivity. Qed.

Lemma commit_no_new db tx :
  (∀ db' evs, tx = Ok (db', evs) → no_new db db') → no_new db (r_db (commit sender db tx)).
Proof. intros Htx. destruct tx as [[db' [evs|]]|e]; simpl; [by eapply Htx|by eapply Htx|reflexivity]. Qed.

Lemma create_app_names env user a db n :
  n ∈ dom (applications (r_db (create_app instance sender env user a db))) →
  n ∈ dom (applications db) ∨ n = Reg.a_name a.
Proof.
  unfold create_app, commit. destruct (create_app_tx _ _ _ _ _) as [[db' evs]|e] eqn:Htx; [|by left].
  assert (Hn : ∀ n, n ∈ dom (applications db') → n ∈ dom (applications db) ∨ n = Reg.a_name a).
  { unfold create_app_tx in Htx. apply rbind_ok_inv in Htx as ([app al] & (Hn & _)%app_to_entity_ok & Htx).
    apply rbind_ok_inv in Htx as (db1 & Hc%map_err_ok & [= <- _]). unfold AppAccessor.create in Hc.
    destruct (_ !! _); [done|]. apply app_aliases_no_new in Hc as [Ha _]. simpl in Ha. rw dom_insert in Ha.
    intros m Hm%Ha. apply elem_of_union in Hm as [->%elem_of_singleton|?]; [right; by rw -Hn|by left]. }
  destruct evs; simpl; apply Hn.
Qed.

Lemma create_app_devices env user a db : dom (devices (r_db (create_app instance sender env user a db))) ⊆ dom (devices db).
Proof.
  unfold create_app, commit. destruct (create_app_tx _ _ _ _ _) as [[db' evs]|e] eqn:Htx; [|done].
  assert (Hd : dom (devices db') ⊆ dom (devices db)).
  { unfold create_app_tx in Htx. apply rbind_ok_inv in Htx as ([app al] & _ & Htx).
    apply rbind_ok_inv in Htx as (db1 & Hc%map_err_ok & [= <- _]). unfold AppAccessor.create in Hc.
    destruct (_ !! _); [done|]. by apply app_aliases_no_new in Hc as [_ Hd]. }
  by destruct evs.
Qed.

Lemma create_device_names env user d db :
  let db' := r_db (create_device instance sender env user d db) in
  dom (applications db') ⊆ dom (applications db) ∧
  ∀ k, k ∈ dom (devices db') → k ∈ dom (devices db) ∨ k = (Reg.d_application d, Reg.d_name d).
Proof.
  cbv zeta. unfold create_device, commit. destruct (create_device_tx _ _ _ _ _) as [[db' evs]|e] eqn:Htx;
    [|split; [done|by left]].
  assert (Hn : dom (applications db') ⊆ dom (applications db) ∧
    ∀ k, k ∈ dom (devices db') → k ∈ dom (devices db) ∨ k = (Reg.d_application d, Reg.d_name d)).
  { unfold create_device_tx in Htx. apply rbind_ok_inv in Htx as ([dev al] & (Hn & Happ & _)%device_to_entity_ok & Htx).
    do 2 apply rbind_ok_inv in Htx as (? & _ & Htx). apply rbind_ok_inv in Htx as (db1 & Hc%map_err_ok & [= <- _]).
    unfold DevAccessor.create in Hc. destruct (devices db !! _); [done|]. destruct (applications db !! _); [|done].
    apply dev_aliases_no_new in Hc as [Ha Hd]. simpl in Ha, Hd. rw dom_insert in Hd. split; [done|].
    intros k Hk%Hd. apply elem_of_union in Hk as [->%elem_of_singleton|?]; [right; by rw -Hn -Happ|by left]. }
  by destruct evs.
Qed.

(** Other requests add nothing. *)
Lemma request_no_new env user r db :
  (∀ a, r ≠ CreateApp a) → (∀ d, r ≠ CreateDevice d) → no_new db (r_db (handle_request instance sender env user r db)).
Proof.
  intros Ha Hd. destruct r as [a|a|id pre|d|d|a d pre|a u|a|a|a m]; cbn [handle_request].
  - by destruct (Ha a).
  - apply commit_no_new. intros db' evs Htx. unfold update_app_tx in Htx.
    apply rbind_ok_inv in Htx as ([app al] & _ & Htx).
    by apply rbind_ok_inv in Htx as ([db1 e1] & Hp%perform_update_no_new & [= <- _]).
  - apply commit_no_new. intros db' evs. apply delete_app_no_new.
  - by destruct (Hd d).
  - apply commit_no_new. intros db' evs. apply update_device_no_new.
  - apply commit_no_new. intros db' evs. apply delete_device_no_new.
  - apply admin_no_new. intros db'. unfold transfer. intros Ht. split_all. apply alter_no_new.
  - apply admin_no_new. intros db'. unfold cancel. intros Ht. split_all. apply alter_no_new.
  - apply admin_no_new. intros db'. unfold accept. intros Ht. split_all. apply alter_no_new.
  - apply admin_no_new. intros db'. unfold set_members. intros Ht. split_all; apply alter_no_new.
Qed.

(** New names come with the requests that create them. *)
Lemma request_names env user r db :
  let db' := r_db (handle_request instance sender env user r db) in
  (∀ n, n ∈ dom (applications db') → n ∈ dom (applications db) ∨ ∃ a, r = CreateApp a ∧ n = Reg.a_name a) ∧
  (∀ k, k ∈ dom (devices db') → k ∈ dom (devices db) ∨
     ∃ d, r = CreateDevice d ∧ k = (Reg.d_application d, Reg.d_name d)).
Proof.
  cbv zeta. destruct r as [a| | |d| | | | | |] eqn:Hr; cbn [handle_request];
    try (rewrite <- Hr; destruct (request_no_new env user r db) as [Ha Hd]; [by subst..|]; subst r;
         cbn [handle_request] in Ha, Hd; split; intros x Hx; left; [by apply Ha|by apply Hd]).
  - split; [|intros k Hk; left; by apply create_app_devices in Hk].
    intros n [?| ->]%create_app_names; [by left|right; eauto].
  - destruct (create_device_names env user d db) as [Ha Hd]. split; [intros n Hn; left; by apply Ha|].
    intros k [?| ->]%Hd; [by left|right; eauto].
Qed.

(** ** What the API lets through *)

Definition app_name_ok (n : string) : Prop := n ≠ "" ∧ hostname_valid n = true ∧ is_lowercase n = true.
Definition device_name_ok (n : string) : Prop := n ≠ "" ∧ String.length n ≤ 255.

Definition admitted (r : Request) : Prop :=
  match r with
  | CreateApp a => app_name_ok (Reg.a_name a)
  | CreateDevice d => device_name_ok (Reg.d_name d) ∧ Reg.d_application d ≠ ""
  | _ => True
  end.

Lemma is_empty_false s : is_empty s = false → s ≠ "".
Proof. by destruct s. Qed.

(** A request is refused without effect, or is an admitted request to the service, answered
    with a success if that succeeds. *)
Inductive served env user db : ApiResult → Prop :=
| served_without a : served env user db (unchanged db a)
| served_request r ok :
    admitted r → (200 ≤ hr_status ok < 300)%Z →
    served env user db (performed (handle_request instance sender env user r db) ok).

Lemma extract_served {A} env user db (a : option A) k :
  (∀ a, served env user db (k a)) → served env user db (extract a db k).
Proof. intros Hk. destruct a; simpl; [done|constructor]. Qed.

Lemma serve_served env user rq db :
  served env user db (serve_request instance sender nom_error name_le env user rq db).
Proof.
  unfold serve_request. destruct (resource_of (rq_path rq)) as [|app|app|app device|app|app|app|], (rq_method rq);
    try apply served_without; try (apply extract_served; intros ?); try apply served_without.
  - unfold api_create_app. destruct (is_empty _) eqn:He; [constructor|]. destruct (hostname_valid _) eqn:Hh; [|constructor].
    destruct (is_lowercase _) eqn:Hl; [|constructor]. cbn [negb orb]. unfold with_location. destruct (url_for _ _); [|constructor].
    apply served_request; [|simpl; lia]. split_and!; try done. by apply is_empty_false.
  - unfold api_update_app. destruct (is_empty _); [constructor|]. destruct (string_eqb _ _); [|constructor].
    by apply served_request; [|simpl; lia].
  - unfold api_delete_app. destruct (is_empty _); [constructor|]. by apply served_request; [|simpl; lia].
  - unfold api_create_device. destruct (is_empty (Reg.d_name _)) eqn:He; [constructor|].
    destruct (is_empty (Reg.d_application _)) eqn:Ha; [constructor|].
    destruct (Nat.ltb_spec 255 (String.length (Reg.d_name a))); [constructor|]. cbn [negb orb]. unfold with_location.
    destruct (url_for _ _); [|constructor]. apply served_request; [|simpl; lia].
    split; [split; [by apply is_empty_false|done]|by apply is_empty_false].
  - unfold api_update_device. destruct (is_empty _ || _); [constructor|]. destruct (negb _ || _); [constructor|].
    by apply served_request; [|simpl; lia].
  - unfold api_delete_device. destruct (is_empty _ || _); [constructor|]. by apply served_request; [|simpl; lia].
  - by apply served_request; [|simpl; lia].
  - by apply served_request; [|simpl; lia].
  - by apply served_request; [|simpl; lia].
  - by apply served_request; [|simpl; lia].
Qed.

(** The states of a registry that is used over its API only. *)
Inductive api_reachable : Db → Prop :=
| api_empty : api_reachable empty_db
| api_request env user rq db :
    api_reachable db →
    api_reachable (ar_state (serve_request instance sender nom_error name_le env user rq db))
| api_seen ev db :
    api_reachable db → api_reachable (with_outbox (outbox_mark_seen (entry_of_event ev) (outbox db)).1 db).

(** The API refines the service: its states are states of the service. *)
Theorem api_refines db : api_reachable db → reachable instance sender db.
Proof.
  induction 1 as [|env user rq db _ IH|ev db _ IH]; [constructor| |by constructor].
  destruct (serve_served env user rq db) as [a|r ok _ _]; [done|]. by apply reachable_request.
Qed.

Lemma api_names db :
  api_reachable db →
  (∀ n, n ∈ dom (applications db) → app_name_ok n) ∧ (∀ a d, (a, d) ∈ dom (devices db) → device_name_ok d).
Proof.
  induction 1 as [|env user rq db _ [IHa IHd]|ev db _ IH]; [set_solver| |done].
  destruct (serve_served env user rq db) as [a|r ok Hadm _]; [done|].
  destruct (request_names env user r db) as [Ha Hd]. cbn [ar_state performed]. split.
  - intros n [?|(a & -> & ->)]%Ha; [by apply IHa|exact Hadm].
  - intros a d [?|(dev & -> & [= -> ->])]%Hd; [by eapply IHd|exact (proj1 Hadm)].
Qed.

Lemma hostname_no_backslash s : all_chars hostname_char s = true → has_char "\" s = false.
Proof.
  induction s as [|c s IH]; [done|]. simpl. intros [Hc Hs]%andb_true_iff. rw IH // orb_false_r.
  case_bool_decide; [by subst|done].
Qed.

(** C25: In a registry that is used over its API, applications never share Kafka resources
    but for the topic of commands, which is one for all: two resources (topics of events or
    commands, users, passwords) of applications in the registry have the same name exactly if
    they are the same resource of the same application, or both are the topic of commands, as
    long as no two applications have the same MD5 digest. *)
Theorem api_resources_distinct `{T : Text} `{!TextLaws T} `{!HostnameLaws} db r r' :
  api_reachable db → is_Some (applications db !! app_name r) → is_Some (applications db !! app_name r') →
  (md5_hex (app_name r) = md5_hex (app_name r') → app_name r = app_name r') →
  make_kafka_resource_name r = make_kafka_resource_name r' ↔
    r = r' ∨ ∃ a b, r = RCommands a ∧ r' = RCommands b.
Proof.
  intros [Hn _]%api_names Ha%elem_of_dom Hb%elem_of_dom Hmd5.
  destruct (Hn _ Ha) as (_ & Hha%hostname_chars%hostname_no_backslash & _).
  destruct (Hn _ Hb) as (_ & Hhb%hostname_chars%hostname_no_backslash & _). split.
  - by apply resource_names_distinct.
  - by intros [->|(a & b & -> & ->)].
Qed.

(** An answer that blames the client comes with no change at all: the database is as it
    was, and nothing was sent. *)
Theorem client_error_no_effect env user rq db :
  let r := serve_request instance sender nom_error name_le env user rq db in
  (400 ≤ hr_status (ar_answer r) < 500)%Z → ar_state r = db ∧ ar_events r = None.
Proof.
  cbv zeta. destruct (serve_served env user rq db) as [a|r ok _ Hok]; [done|]. cbn [performed ar_state ar_events ar_answer].
  destruct r; cbn [handle_request]; unfold create_app, update_app, Management.delete_app, create_device, update_device, delete_device;
    try (match goal with |- context [commit sender _ ?tx] => destruct tx as [[db' [evs|]]|e] end; simpl; [|lia|done];
         destruct (sender evs); simpl; lia).
  all: match goal with |- context [admin_response _ ?tx] => destruct tx as [db'|e] end; simpl; [lia|done].
Qed.

(** ** What the API does not check *)

(** The application a device is created in is that of the body; the one in the path is
    only used for the location that is returned. *)
Theorem create_device_ignores_path env user app device db url :
  device_name_ok (Reg.d_name device) → Reg.d_application device ≠ "" →
  url_for "device" [app; Reg.d_name device] = Ok url →
  api_create_device instance sender env user app device db =
    performed (handle_request instance sender env user (CreateDevice device) db)
      (mkHttpResponse 201 (Some url) NoBody).
Proof.
  intros [Hne Hlen] Happ Hurl. unfold api_create_device.
  assert (He : ∀ s, s ≠ "" → is_empty s = false) by (by intros []). rw !He // (proj2 (Nat.ltb_ge _ _)) //.
  cbn [orb]. unfold with_location. by rw Hurl.
Qed.

(** A delete request whose preconditions cannot be read deletes without preconditions. *)
Theorem malformed_preconditions_ignored env user rq app db :
  app ≠ "" → resource_of (rq_path rq) = RApp app → rq_method rq = DELETE → decode_delete (rq_body rq) = None →
  serve_request instance sender nom_error name_le env user rq db =
    performed (handle_request instance sender env user (DeleteApp app None) db) (finish_with 204).
Proof.
  intros Hne Hres Hm Hdec. unfold serve_request. rw Hres Hm. unfold api_delete_app. rw Hdec.
  assert (is_empty app = false) as -> by by destruct app. done.
Qed.

(** The answer to a list request is the JSON array of what the service lists. *)
Theorem list_answer user params ops db texts :
  parse_from nom_error (lp_labels params) = Ok ops →
  Forall2 (λ a t, app_json a = Ok t) (list_apps name_le user ops (lp_limit params) (lp_offset params) db) texts →
  ∃ chunks, api_list_apps nom_error name_le user params db = mkHttpResponse 200 None (ArrayBody chunks) ∧
    Streamer.text_of chunks = Some ("[" +:+ join "," texts +:+ "]").
Proof.
  intros Hops Htexts. unfold api_list_apps, with_selector. rw Hops. eexists. split; [done|].
  by apply Streamer.streams_array.
Qed.
End RequestNames.
