(* ===== verification/AuthWire.v ===== *)
(** * The authentication service over HTTP

    [service-api/src/auth/device/authn.rs]: the messages of device
    authentication as JSON; [authentication-service/src/endpoints.rs] and
    [service-common/src/client/device_auth.rs]: the HTTP interface of the
    service and its client; [endpoint-common/src/x509.rs]: the certificates of
    a connection.  The JSON of applications, devices and keys is that of
    [drogue_client], the certificates are those of the TLS libraries.  Bodies
    are JSON values; that structs may also be written as arrays is left out. *)

From Stdlib Require Import Ascii.
From Stdlib Require String.
From S2P Require Import Prelude Json Auth Store Registry DeviceAuth EndpointAuth StateClient RegistryApi.

(** ** Decoding *)

Class RegJson := {
  app_to_json : Reg.Application → Value;
  app_from_json : Value → result Reg.Application string;
  device_to_json : Reg.Device → Value;
  device_from_json : Value → result Reg.Device string;
  psk_to_json : Reg.PreSharedKey → Value;
  psk_from_json : Value → result Reg.PreSharedKey string;
  error_from_json : Value → result (string * string) string;
}.
Class RegJsonLaws `{RegJson} : Prop := {
  app_json_roundtrip a : app_from_json (app_to_json a) = Ok a;
  device_json_roundtrip d : device_from_json (device_to_json d) = Ok d;
  psk_json_roundtrip k : psk_from_json (psk_to_json k) = Ok k;
  device_json_not_null d : device_to_json d ≠ Null;
  error_json_decodes error message :
    error_from_json (json_object [("error", Str error); ("message", Str message)]) = Ok (error, message);
}.

Module Serde.
Definition as_struct (v : Value) : result Map string :=
  match v with Object m => Ok m | _ => Err "invalid type" end.

Definition as_string (v : Value) : result string string :=
  match v with Str s => Ok s | _ => Err "invalid type" end.

Definition field {A} (k : string) (decode : Value → result A string) (m : Map) : result A string :=
  match map_get k m with
  | Some v => decode v
  | None => Err ("missing field " +:+ k)
  end.

(** [#[serde(default)]] on an optional field. *)
Definition opt_field {A} (k : string) (decode : Value → result A string) (m : Map) : result (option A) string :=
  match map_get k m with
  | None | Some Null => Ok None
  | Some v => let? a := decode v in Ok (Some a)
  end.

(** [skip_serializing_if = "Option::is_none"] *)
Definition opt_entry {A} (k : string) (encode : A → Value) (a : option A) : list (string * Value) :=
  match a with Some a => [(k, encode a)] | None => [] end.

(** A variant of an enum: its name, with its content if it has one. *)
Definition variant (v : Value) : result (string * option Value) string :=
  match v with
  | Str name => Ok (name, None)
  | Object [(name, content)] => Ok (name, Some content)
  | _ => Err "expected a variant"
  end.

Definition unit_variant {A} (a : A) (content : option Value) : result A string :=
  match content with
  | None | Some Null => Ok a
  | _ => Err "expected a unit variant"
  end.

Definition content_variant {A} (decode : Value → result A string) (content : option Value) : result A string :=
  match content with
  | Some v => decode v
  | None => Err "expected the content of the variant"
  end.

Fixpoint decode_all {A} (decode : Value → result A string) (l : list Value) : result (list A) string :=
  match l with
  | [] => Ok []
  | v :: l => let? a := decode v in let? rest := decode_all decode l in Ok (a :: rest)
  end.

Definition as_vec {A} (decode : Value → result A string) (v : Value) : result (list A) string :=
  match v with Array l => decode_all decode l | _ => Err "invalid type" end.

(** [u8] *)
Definition byte_from_json (v : Value) : result ascii string :=
  match v with
  | Number n => if ((0 <=? n) && (n <? 256))%Z then Ok (ascii_of_nat (Z.to_nat n)) else Err "invalid value"
  | _ => Err "invalid type"
  end.

Definition byte_to_json (c : ascii) : Value := Number (Z.of_nat (nat_of_ascii c)).

Definition bytes_to_json (b : string) : Value := Array (byte_to_json <$> String.list_ascii_of_string b).
Definition bytes_from_json (v : Value) : result string string :=
  let? l := as_vec byte_from_json v in Ok (String.string_of_list_ascii l).

Lemma decode_all_map {A} (encode : A → Value) (decode : Value → result A string) l :
  (∀ a, decode (encode a) = Ok a) → decode_all decode (encode <$> l) = Ok l.
Proof. intros Hd. induction l as [|a l IH]; [done|]. rw fmap_cons /= Hd /= IH //. Qed.

Lemma byte_roundtrip c : byte_from_json (byte_to_json c) = Ok c.
Proof.
  unfold byte_from_json, byte_to_json. pose proof (nat_ascii_bounded c).
  rw (proj2 (Z.leb_le _ _)); [lia|]. rw (proj2 (Z.ltb_lt _ _)); [lia|]. simpl. by rw Nat2Z.id ascii_nat_embedding.
Qed.

Lemma bytes_roundtrip b : bytes_from_json (bytes_to_json b) = Ok b.
Proof.
  unfold bytes_from_json, bytes_to_json. cbn [as_vec]. rw (decode_all_map _ _ _ byte_roundtrip).
  cbn [rbind]. by rw String.string_of_list_ascii_of_string.
Qed.
End Serde.

(** ** The messages, [authn.rs] *)

Record PreSharedKeyRequest := mkPskRequest { kq_application : string; kq_device : string }.
Record AuthorizeGatewayRequest := mkGatewayRequest { gq_application : string; gq_device : string; gq_as : string }.

Module AuthnJson.
Import Serde.

Definition credential_to_json (c : Authn.Credential) : Value :=
  match c with
  | Authn.UsernamePassword username password =>
      json_object [("user", json_object [("username", Str username); ("password", Str password)])]
  | Authn.Password password => json_object [("pass", Str password)]
  | Authn.Certificate chain => json_object [("cert", Array (bytes_to_json <$> chain))]
  end.

Definition credential_from_json (v : Value) : result Authn.Credential string :=
  let? (name, content) := variant v in
  if string_eqb name "user" then
    content_variant (λ v,
      let? m := as_struct v in
      let? username := field "username" as_string m in
      let? password := field "password" as_string m in
      Ok (Authn.UsernamePassword username password)) content
  else if string_eqb name "pass" then
    content_variant (λ v, let? password := as_string v in Ok (Authn.Password password)) content
  else if string_eqb name "cert" then
    content_variant (λ v, let? chain := as_vec bytes_from_json v in Ok (Authn.Certificate chain)) content
  else Err "unknown variant".

Definition request_to_json (r : AuthenticationRequest) : Value :=
  json_object ([("application", Str (DeviceAuth.rq_application r)); ("device", Str (rq_device r));
    ("credential", credential_to_json (rq_credential r))] ++ opt_entry "as" Str (rq_as r)).

Definition request_from_json (v : Value) : result AuthenticationRequest string :=
  let? m := as_struct v in
  let? application := field "application" as_string m in
  let? device := field "device" as_string m in
  let? credential := field "credential" credential_from_json m in
  let? as_device := opt_field "as" as_string m in
  Ok (mkAuthRequest application device credential as_device).

Definition psk_request_to_json (r : PreSharedKeyRequest) : Value :=
  json_object [("application", Str (kq_application r)); ("device", Str (kq_device r))].

Definition psk_request_from_json (v : Value) : result PreSharedKeyRequest string :=
  let? m := as_struct v in
  let? application := field "application" as_string m in
  let? device := field "device" as_string m in
  Ok (mkPskRequest application device).

Definition gateway_request_to_json (r : AuthorizeGatewayRequest) : Value :=
  json_object [("application", Str (gq_application r)); ("device", Str (gq_device r)); ("as", Str (gq_as r))].

Definition gateway_request_from_json (v : Value) : result AuthorizeGatewayRequest string :=
  let? m := as_struct v in
  let? application := field "application" as_string m in
  let? device := field "device" as_string m in
  let? as_device := field "as" as_string m in
  Ok (mkGatewayRequest application device as_device).

Section Outcomes.
Context `{RegJson}.

Definition outcome_to_json (o : Authn.Outcome) : Value :=
  match o with
  | Authn.Pass application device as_device =>
      json_object [("pass", json_object ([("application", app_to_json application); ("device", device_to_json device)]
        ++ opt_entry "as" device_to_json as_device))]
  | Authn.Fail => Str "fail"
  end.

Definition outcome_from_json (v : Value) : result Authn.Outcome string :=
  let? (name, content) := variant v in
  if string_eqb name "pass" then
    content_variant (λ v,
      let? m := as_struct v in
      let? application := field "application" app_from_json m in
      let? device := field "device" device_from_json m in
      let? as_device := opt_field "as" device_from_json m in
      Ok (Authn.Pass application device as_device)) content
  else if string_eqb name "fail" then unit_variant Authn.Fail content
  else Err "unknown variant".

Definition gateway_to_json (o : Authn.GatewayOutcome) : Value :=
  match o with
  | Authn.GatewayPass as_device => json_object [("pass", json_object [("as", device_to_json as_device)])]
  | Authn.GatewayFail => Str "fail"
  end.

Definition gateway_from_json (v : Value) : result Authn.GatewayOutcome string :=
  let? (name, content) := variant v in
  if string_eqb name "pass" then
    content_variant (λ v,
      let? m := as_struct v in
      let? as_device := field "as" device_from_json m in
      Ok (Authn.GatewayPass as_device)) content
  else if string_eqb name "fail" then unit_variant Authn.GatewayFail content
  else Err "unknown variant".

(** Here the variants are not renamed. *)
Definition key_to_json (o : Authn.PreSharedKeyOutcome) : Value :=
  match o with
  | Authn.Found app device key =>
      json_object [("Found", json_object [("app", app_to_json app); ("device", device_to_json device);
        ("key", psk_to_json key)])]
  | Authn.KeyNotFound => Str "NotFound"
  end.

Definition key_from_json (v : Value) : result Authn.PreSharedKeyOutcome string :=
  let? (name, content) := variant v in
  if string_eqb name "Found" then
    content_variant (λ v,
      let? m := as_struct v in
      let? app := field "app" app_from_json m in
      let? device := field "device" device_from_json m in
      let? key := field "key" psk_from_json m in
      Ok (Authn.Found app device key)) content
  else if string_eqb name "NotFound" then unit_variant Authn.KeyNotFound content
  else Err "unknown variant".

(** The responses: a struct with the outcome. *)
Definition response_to_json (outcome : Value) : Value := json_object [("outcome", outcome)].
Definition response_from_json {A} (decode : Value → result A string) (v : Value) : result A string :=
  let? m := as_struct v in field "outcome" decode m.
End Outcomes.

(** *** Round trips *)

Lemma credential_roundtrip c : credential_from_json (credential_to_json c) = Ok c.
Proof.
  destruct c as [u p|p|chain]; try done.
  unfold credential_from_json, credential_to_json. cbn -[bytes_to_json bytes_from_json].
  by rw (decode_all_map _ _ _ bytes_roundtrip).
Qed.

Lemma request_roundtrip r : request_from_json (request_to_json r) = Ok r.
Proof.
  destruct r as [a d c x]. pose proof (credential_roundtrip c) as Hc. unfold request_to_json. simpl rq_credential.
  revert Hc. generalize (credential_to_json c) as j. intros j Hj.
  destruct x; cbv -[credential_from_json]; by rw Hj.
Qed.

Lemma psk_request_roundtrip r : psk_request_from_json (psk_request_to_json r) = Ok r.
Proof. by destruct r. Qed.

Lemma gateway_request_roundtrip r : gateway_request_from_json (gateway_request_to_json r) = Ok r.
Proof. by destruct r. Qed.

Section Roundtrips.
Context `{RegJsonLaws}.

(** The objects in between are opaque. *)
Ltac eval_json := cbv -[app_to_json app_from_json device_to_json device_from_json psk_to_json psk_from_json].

Lemma outcome_roundtrip o : response_from_json outcome_from_json (response_to_json (outcome_to_json o)) = Ok o.
Proof.
  destruct o as [a d [x|]|]; [..|done]; eval_json; rw app_json_roundtrip device_json_roundtrip; [|done].
  pose proof (device_json_not_null x). pose proof (device_json_roundtrip x) as Hx.
  destruct (device_to_json x); try done; by rw Hx.
Qed.

Lemma gateway_roundtrip o : response_from_json gateway_from_json (response_to_json (gateway_to_json o)) = Ok o.
Proof. destruct o as [x|]; [|done]. eval_json. by rw device_json_roundtrip. Qed.

Lemma psk_outcome_roundtrip o : response_from_json key_from_json (response_to_json (key_to_json o)) = Ok o.
Proof.
  destruct o as [a d k|]; [|done]. eval_json. by rw app_json_roundtrip device_json_roundtrip psk_json_roundtrip.
Qed.
End Roundtrips.
End AuthnJson.

(** ** The HTTP interface *)

(** A response with its body, if it is JSON. *)
Record JsonResponse := mkJsonResponse { jr_status : Z; jr_body : result Value string }.

Section Http.
Context `{RegJson} (error_message : ServiceError → string).

Definition service_error_json (e : ServiceError) : JsonResponse :=
  mkJsonResponse (error_response e)
    (Ok (json_object [("error", Str (error_name e)); ("message", Str (error_message e))])).

Definition answer {A} (encode : A → Value) (r : result A ServiceError) : JsonResponse :=
  match r with
  | Ok outcome => mkJsonResponse 200 (Ok (AuthnJson.response_to_json (encode outcome)))
  | Err e => service_error_json e
  end.

(** The service, and what [actix] answers to a body that cannot be decoded and to an unknown path. *)
Context (svc_authenticate : AuthenticationRequest → result Authn.Outcome ServiceError).
Context (svc_request_key : PreSharedKeyRequest → result Authn.PreSharedKeyOutcome ServiceError).
Context (svc_authorize_gateway : AuthorizeGatewayRequest → result Authn.GatewayOutcome ServiceError).
Context (rejected : string → JsonResponse) (no_route : JsonResponse).

Definition with_json {A} (decode : Value → result A string) (handler : A → JsonResponse) (body : Value) : JsonResponse :=
  match decode body with
  | Ok a => handler a
  | Err e => rejected e
  end.

Definition endpoint_authenticate : Value → JsonResponse :=
  with_json AuthnJson.request_from_json (λ req, answer AuthnJson.outcome_to_json (svc_authenticate req)).

Definition endpoint_request_key : Value → JsonResponse :=
  with_json AuthnJson.psk_request_from_json (λ req, answer AuthnJson.key_to_json (svc_request_key req)).

Definition endpoint_authorize_as : Value → JsonResponse :=
  with_json AuthnJson.gateway_request_from_json (λ req, answer AuthnJson.gateway_to_json (svc_authorize_gateway req)).

(** The routes below [/api/v1]. *)
Definition auth_app (path : string) (body : Value) : JsonResponse :=
  if string_eqb path "auth" then endpoint_authenticate body
  else if string_eqb path "keys" then endpoint_request_key body
  else if string_eqb path "authorize_as" then endpoint_authorize_as body
  else no_route.

(** *** The client *)

(** The token for the request, and what comes back for it. *)
Context (inject_token : result unit Wire.ClientError) (post : string → Value → result JsonResponse string).

(** [ReqwestAuthenticatorClient::request] *)
Definition client_request {U} (decode : Value → result U string) (path : string) (request : Value)
    : result U Wire.ClientError :=
  let? _ := inject_token in
  let? response := map_err Wire.Transport (post path request) in
  if (jr_status response =? 200)%Z then
    map_err (λ err, Wire.Request ("Failed to decode service response: " +:+ err))
      (let? v := jr_body response in decode v)
  else
    match (let? v := jr_body response in error_from_json v) with
    | Ok (error, message) => Err (Wire.Service (jr_status response) error message)
    | Err err => Err (Wire.Request ("Failed to decode service error response: " +:+ err))
    end.

Definition client_authenticate (request : AuthenticationRequest) : result Authn.Outcome Wire.ClientError :=
  client_request (AuthnJson.response_from_json AuthnJson.outcome_from_json) "auth" (AuthnJson.request_to_json request).

Definition client_request_psk (request : PreSharedKeyRequest) : result Authn.PreSharedKeyOutcome Wire.ClientError :=
  client_request (AuthnJson.response_from_json AuthnJson.key_from_json) "keys" (AuthnJson.psk_request_to_json request).

Definition client_authorize_as (request : AuthorizeGatewayRequest) : result Authn.GatewayOutcome Wire.ClientError :=
  client_request (AuthnJson.response_from_json AuthnJson.gateway_from_json) "authorize_as"
    (AuthnJson.gateway_request_to_json request).

(** *** Both together *)

Context `{!RegJsonLaws}.

(** The error of the service as the client reports it. *)
Definition seen_error (e : ServiceError) : Wire.ClientError :=
  Wire.Service (error_response e) (error_name e) (error_message e).

Lemma error_response_not_ok e : (error_response e =? 200)%Z = false.
Proof. by destruct e. Qed.

Lemma client_reads_answer {A} (encode : A → Value) decode path request (r : result A ServiceError) :
  (∀ a, AuthnJson.response_from_json decode (AuthnJson.response_to_json (encode a)) = Ok a) →
  inject_token = Ok tt → post path request = Ok (answer encode r) →
  client_request (AuthnJson.response_from_json decode) path request = map_err seen_error r.
Proof.
  intros Hrt Ht Hp. unfold client_request. rw Ht Hp. cbn [rbind map_err].
  destruct r as [a|e]; cbn [answer jr_status jr_body service_error_json map_err rbind].
  - rw Hrt //.
  - rw error_response_not_ok error_json_decodes //.
Qed.

(** The client's requests reach their handlers. *)
Lemma app_authenticate r :
  auth_app "auth" (AuthnJson.request_to_json r) = answer AuthnJson.outcome_to_json (svc_authenticate r).
Proof.
  unfold auth_app, endpoint_authenticate, with_json. change (string_eqb "auth" "auth") with true.
  by rw AuthnJson.request_roundtrip.
Qed.

Lemma app_request_key r :
  auth_app "keys" (AuthnJson.psk_request_to_json r) = answer AuthnJson.key_to_json (svc_request_key r).
Proof.
  unfold auth_app, endpoint_request_key, with_json. change (string_eqb "keys" "auth") with false.
  change (string_eqb "keys" "keys") with true. by rw AuthnJson.psk_request_roundtrip.
Qed.

Lemma app_authorize_as r :
  auth_app "authorize_as" (AuthnJson.gateway_request_to_json r)
  = answer AuthnJson.gateway_to_json (svc_authorize_gateway r).
Proof.
  unfold auth_app, endpoint_authorize_as, with_json. change (string_eqb "authorize_as" "auth") with false.
  change (string_eqb "authorize_as" "keys") with false. change (string_eqb "authorize_as" "authorize_as") with true.
  by rw AuthnJson.gateway_request_roundtrip.
Qed.

(** What arrives at the endpoints is what the service said, with its errors kept apart. *)
Theorem client_sees_service :
  inject_token = Ok tt → (∀ path body, post path body = Ok (auth_app path body)) →
  (∀ request, client_authenticate request = map_err seen_error (svc_authenticate request)) ∧
  (∀ request, client_request_psk request = map_err seen_error (svc_request_key request)) ∧
  (∀ request, client_authorize_as request = map_err seen_error (svc_authorize_gateway request)).
Proof.
  intros Ht Hp. split_and!; intros request.
  - apply (client_reads_answer AuthnJson.outcome_to_json); [apply AuthnJson.outcome_roundtrip|done|].
    by rw Hp app_authenticate.
  - apply (client_reads_answer AuthnJson.key_to_json); [apply AuthnJson.psk_outcome_roundtrip|done|].
    by rw Hp app_request_key.
  - apply (client_reads_answer AuthnJson.gateway_to_json); [apply AuthnJson.gateway_roundtrip|done|].
    by rw Hp app_authorize_as.
Qed.

(** Over a network that may fail, a request may be refused, but nothing is accepted that
    the service did not accept. *)
Theorem client_never_invents request o :
  (∀ path body r, post path body = Ok r → r = auth_app path body) →
  client_authenticate request = Ok o → svc_authenticate request = Ok o.
Proof.
  intros Hp Hc. assert (Hpost := Hp "auth" (AuthnJson.request_to_json request)).
  unfold client_authenticate, client_request in Hc.
  apply rbind_ok_inv in Hc as ([] & _ & (r & Hr & Hc)%rbind_ok_inv).
  destruct (post _ _) as [r'|] eqn:Hpr; [|done]. injection Hr as ->. rw (Hpost r eq_refl) app_authenticate in Hc.
  destruct (svc_authenticate request) as [o'|e]; cbn [answer jr_status jr_body service_error_json] in Hc.
  - cbn [rbind] in Hc. rw AuthnJson.outcome_roundtrip in Hc. by injection Hc as ->.
  - rw error_response_not_ok in Hc. cbn [rbind] in Hc. by rw error_json_decodes in Hc.
Qed.
End Http.

(** ** Endpoint, client and service together *)

Section EndToEnd.
Context `{RegJsonLaws, AuthCodecs, UuidCodec, ClientApi, AuthApi}.
Context (error_message : ServiceError → string) (connected : bool) (now : Z) (db : Db).
Context (rejected : string → JsonResponse) (no_route : JsonResponse).
Context (inject_token : result unit Wire.ClientError) (post : string → Value → result JsonResponse string).
Context (auth_error : Wire.ClientError → AuthError).

(** The service on the registry, if it gets a connection from its pool. *)
Definition on_registry {A} (a : A) : result A ServiceError := if connected then Ok a else Err Pool.

Definition registry_app : string → Value → JsonResponse :=
  auth_app error_message
    (λ rq, on_registry (authenticate now rq db))
    (λ rq, on_registry (request_key now (kq_application rq) (kq_device rq) db))
    (λ rq, on_registry (authorize_gateway (gq_application rq) (gq_device rq) (gq_as rq) db))
    rejected no_route.

(** What the endpoints call. *)
Definition remote_service (rq : AuthenticationRequest) : result Authn.Outcome AuthError :=
  map_err auth_error (client_authenticate inject_token post rq).

(** The endpoints may rely on the client as on the service itself. *)
Lemma remote_service_faithful rq o :
  (∀ path body r, post path body = Ok r → r = registry_app path body) →
  remote_service rq = Ok o → o = authenticate now rq db.
Proof.
  intros Hp Hr. unfold remote_service in Hr. destruct (client_authenticate inject_token post rq) as [o'|] eqn:Hc; [|done].
  injection Hr as ->. eapply client_never_invents in Hc; [|apply _|exact Hp]. unfold on_registry in Hc.
  destruct connected; [by injection Hc|done].
Qed.

(** A device that the HTTP endpoint accepts, by way of the client and the service over a
    network that may fail, was authenticated with what it presented, on the registry. *)
Theorem http_auth_end_to_end application device auth certs identity as_device a d x :
  (∀ path body r, post path body = Ok r → r = registry_app path body) →
  authenticate_http remote_service application device auth certs identity as_device = Ok (Authn.Pass a d x) →
  (identity = None ∧ presented now db (header_password auth) certs as_device a d x) ∨
  (identity = Some (mkVerified a d) ∧ header_password auth = None ∧ certs = None ∧ x = None).
Proof.
  intros Hp Ha. eapply passes_presented; [|by eapply authenticate_http_passes].
  intros rq o. by apply remote_service_faithful.
Qed.
End EndToEnd.

(** ** Client certificates, [x509.rs] *)

Module X509.
(** [collect::<Result<Vec<_>, _>>] *)
Fixpoint collect_der (certs : list (result string string)) : result (list string) string :=
  match certs with
  | [] => Ok []
  | c :: rest => let? der := c in let? ders := collect_der rest in Ok (der :: ders)
  end.

(** A failure counts as no certificates. *)
Definition or_none {A} (r : result A string) : option A := match r with Ok a => Some a | Err _ => None end.

(** A plain connection, [rustls], and the chain [OpenSSL] has built, for TCP and DTLS. *)
Definition client_certs_tcp : option (list string) := None.
Definition client_certs_rustls (peer_certificates : option (list string)) : option (list string) := peer_certificates.
Definition client_certs_openssl (verified_chain : option (list (result string string))) : option (list string) :=
  match verified_chain with
  | Some chain => or_none (collect_der chain)
  | None => None
  end.
Definition client_certs_dtls (ssl : option (option (list (result string string)))) : option (list string) :=
  match ssl with
  | Some verified_chain => client_certs_openssl verified_chain
  | None => None
  end.

(** [ntex]: the certificate of the peer is pushed to the end of its chain. *)
Definition client_certs_ntex (peer_cert : option (result string string))
    (peer_cert_chain : option (list (result string string))) : option (list string) :=
  match (c ← peer_cert; or_none c), peer_cert_chain with
  | Some peer, Some chain =>
      match or_none (collect_der chain) with
      | Some certs => Some (certs ++ [peer])
      | None => None
      end
  | _, _ => None
  end.

(** [FromRequest]: a handler that asks for the chain is not called without one. *)
Definition chain_from_request (extension : option (list string)) : result (list string) string :=
  ok_or "Missing certificate chain" extension.

Lemma collect_der_ok certs : collect_der (Ok <$> certs) = Ok certs.
Proof. induction certs as [|c certs IH]; [done|]. rw fmap_cons /= IH //. Qed.

Section Identity.
Context `{AuthCodecs, UuidCodec, ClientApi, AuthApi} (now : Z) (db : Db).

Definition local_service (rq : AuthenticationRequest) : result Authn.Outcome AuthError := Ok (authenticate now rq db).

(** The names are those of the first certificate, and the certificate that is verified is
    the last one. *)
Theorem cert_names_and_proof certs a d x :
  authenticate_cert local_service certs = Ok (Authn.Pass a d x) →
  ∃ first names app dev anchors anchor subject certificate nb na der cert_end,
    head certs = Some first ∧ cert_names first = Some names ∧
    AppAccessor.lookup names.1 db = Some app ∧ DevAccessor.lookup (App.name app) names.2 db = Some dev ∧
    a = app_into app ∧ d = strip_credentials (device_into dev) ∧
    section_anchor_status a = Some (Ok anchors) ∧ anchor ∈ anchors ∧
    anchor = Reg.Valid subject certificate nb na ∧ (nb ≤ now ≤ na)%Z ∧ pem_certificate certificate = Some der ∧
    last certs = Some cert_end ∧ verify_client_cert der cert_end (removelast certs) now = true.
Proof.
  unfold authenticate_cert, ids_from_cert, device_cert. destruct certs as [|first rest]; [done|].
  intros ([app_id device_id] & Hn & Ha)%rbind_ok_inv. apply ok_or_ok in Hn.
  unfold authenticate_with, local_service in Ha. injection Ha as Ha.
  apply authenticate_sound in Ha as (app & dev & Happ & _ & _ & Hdev & _ & Hv & -> & -> & _). simpl in *.
  unfold validate_credential in Hv. case_bool_decide; [done|].
  assert (Hc : validate_certificate (app_into app) (first :: rest) now = true).
  { by destruct (get_authentication _) as [[]|]. }
  apply validate_certificate_spec in Hc as (anchors & anchor & Hs & Hin & subject & certificate & nb & na & der & e & Hv').
  destruct Hv' as (-> & ? & ? & ? & _ & ?).
  by exists first, (app_id, device_id), app, dev, anchors, (Reg.Valid subject certificate nb na), subject, certificate, nb, na, der, e.
Qed.

(** So a device that presents only its own certificate is who the certificate says; but
    one that puts another certificate in front of its own one is taken for the device of
    the former: whatever its own certificate allows it, it is allowed for every device of
    the application, as long as superfluous intermediates do not make the verification
    fail. *)
Theorem front_certificate_impersonates own front app dev names :
  (∀ der e more, verify_client_cert der e [] now = true → verify_client_cert der e more now = true) →
  cert_names front = Some names → AppAccessor.lookup names.1 db = Some app →
  DevAccessor.lookup (App.name app) names.2 db = Some dev → validate_app (app_into app) = true →
  Dev.deletion_timestamp dev = None → (∀ e, get_authentication (device_into dev) ≠ Some (Err e)) →
  validate_certificate (app_into app) [own] now = true →
  authenticate_cert local_service [front; own]
  = Ok (Authn.Pass (app_into app) (strip_credentials (device_into dev)) None).
Proof.
  intros Hmore Hn Happ Hdev Hva Hdel Hga Hown. unfold authenticate_cert, ids_from_cert, device_cert. rw Hn. cbn [ok_or rbind].
  destruct names as [app_id device_id]. simpl in Happ, Hdev. unfold authenticate_with, local_service, authenticate. simpl.
  rw Happ Hva /= Hdev. assert (Hc : validate_certificate (app_into app) [front; own] now = true).
  { apply validate_certificate_spec in Hown as (anchors & anchor & Hs & Hin & s & c & nb & na & der & e & -> & [? ?] & He & Hp & Hr & Hv).
    apply validate_certificate_spec. exists anchors, (Reg.Valid s c nb na). split_and!; [done..|].
    exists s, c, nb, na, der, e. split_and!; try done. simpl. by apply Hmore. }
  unfold validate_credential. rw bool_decide_eq_false_2; [simpl; rw Hdel; by apply is_Some_None|].
  destruct (get_authentication (device_into dev)) as [[auth|e]|] eqn:Hg.
  - by rw Hc.
  - by destruct (Hga e).
  - by rw Hc.
Qed.

(** The transports do not agree on the order: [OpenSSL] puts the certificate of the peer
    first, [ntex] last. *)
Theorem transports_disagree peer chain :
  client_certs_openssl (Some (Ok <$> (peer :: chain))) = Some (peer :: chain) ∧
  client_certs_ntex (Some (Ok peer)) (Some (Ok <$> chain)) = Some (chain ++ [peer]) ∧
  (client_certs_openssl (Some (Ok <$> (peer :: chain))) = client_certs_ntex (Some (Ok peer)) (Some (Ok <$> chain)) ↔
   Forall (λ c, c = peer) chain).
Proof.
  assert (Ho : client_certs_openssl (Some (Ok <$> (peer :: chain))) = Some (peer :: chain)).
  { unfold client_certs_openssl. by rw collect_der_ok. }
  assert (Hn : client_certs_ntex (Some (Ok peer)) (Some (Ok <$> chain)) = Some (chain ++ [peer])).
  { unfold client_certs_ntex. simpl. by rw collect_der_ok. }
  split_and!; [done..|]. rw Ho Hn. clear Ho Hn. induction chain as [|c chain IH]; [by split|].
  split.
  - intros Heq. injection Heq as <- Hrest. constructor; [done|]. apply IH. by rw Hrest.
  - intros [-> Hrest]%Forall_cons. apply IH in Hrest. simpl. injection Hrest as Hrest. by rw -Hrest.
Qed.
End Identity.
End X509.
