(* ===== verification/UserAuth.v ===== *)
(** * User authentication and authorization over HTTP

    [user-auth-service/src]: the service other services ask what a user may do,
    and which user an access token belongs to;
    [access-token-service/src/endpoints.rs]: the HTTP interface of access
    tokens; [service-common/src/keycloak]: the Keycloak client and the answers
    to its errors.  The Keycloak API and the JSON of the answers are given. *)

From S2P Require Import Prelude Json Versioning Auth Events Store Registry Outbox Management Admin AccessToken RegistryApi.

(** ** The Keycloak client *)

Module KeycloakClient.
(** [KeycloakError] of the [keycloak] crate: the request failed, or was answered with an
    error, with its body if that could be decoded. *)
Inductive KeycloakError : Type :=
| ReqwestFailure (msg : string)
| HttpFailure (status : Z) (body : option (option string * option string)) (text : string).

Inductive Error : Type :=
| Internal (msg : string)
| Serialization (msg : string)
| Transport (msg : string)
| Client (err : KeycloakError)
| NotAuthorized
| NotFound.

Record ErrorInformation := mkError { ei_status : Z; ei_error : string; ei_message : string }.

Definition transport_error (msg : string) : ErrorInformation := mkError 502 "GatewayError" msg.

(** [StatusCode::from_u16] takes three digits. *)
Definition status_from_u16 (status : Z) : option Z :=
  if ((100 <=? status) && (status <? 1000))%Z then Some status else None.

(** [Error::error_response] *)
Definition kc_error_response (e : Error) : ErrorInformation :=
  match e with
  | Internal message => mkError 500 "InternalError" message
  | Transport err => transport_error err
  | Client (ReqwestFailure err) => transport_error err
  | Client (HttpFailure status body text) =>
      mkError (default 500%Z (status_from_u16 status))
        (default "UnknownError" (b ← body; b.1)) (default text (b ← body; b.2))
  | NotAuthorized => mkError 403 "NotAuthorized" "Not authorized"
  | Serialization err => mkError 500 "InternalError" err
  | NotFound => mkError 404 "NotFound" "User not found"
  end.

(** The fields of a user representation the client looks at. *)
Record UserRep := mkUserRep { ur_id : option string; ur_username : option string }.

(** The realm: the token, a user by ID, and the users that match a name exactly. *)
Class KeycloakApi := {
  acquire_token : result unit KeycloakError;
  user_with_id : string → result UserRep KeycloakError;
  users_get : string → result (list UserRep) KeycloakError;
}.

Section Client.
Context `{KeycloakApi}.

Definition admin : result unit Error := map_err Client acquire_token.

(** Outer [None]: the [unwrap] of a missing field panics. *)
Definition username_from_id (id : string) : option (result string Error) :=
  match admin with
  | Err e => Some (Err e)
  | Ok _ =>
      match user_with_id id with
      | Ok user => Ok <$> ur_username user
      | Err _ => Some (Err NotFound)
      end
  end.

(** [pop] takes the last user found. *)
Definition id_from_username (username : string) : option (result string Error) :=
  match admin with
  | Err e => Some (Err e)
  | Ok _ =>
      match users_get username with
      | Err e => Some (Err (Client e))
      | Ok users =>
          match last users with
          | Some user => Ok <$> ur_id user
          | None => Some (Err NotFound)
          end
      end
  end.

(** What Keycloak documents: users have an ID and a name, a user is found by its ID, and an
    exact search finds the users of that name, of which there is at most one. *)
Class KeycloakApiLaws : Prop := {
  users_named u users : users_get u = Ok users →
    (length users ≤ 1)%nat ∧ ∀ r, r ∈ users → ur_username r = Some u ∧ ∃ i, ur_id r = Some i ∧ user_with_id i = Ok r;
  users_by_id i r : user_with_id i = Ok r →
    ur_id r = Some i ∧ ∃ u, ur_username r = Some u ∧ ∃ users, users_get u = Ok users ∧ r ∈ users;
  users_not_empty i r : user_with_id i = Ok r → i ≠ EmptyString ∧ ur_username r ≠ Some EmptyString;
}.

Lemma last_of_one {A} (l : list A) x : (length l ≤ 1)%nat → x ∈ l → last l = Some x.
Proof.
  destruct l as [|y [|]]; simpl; intros Hl Hx; [by apply not_elem_of_nil in Hx| |lia].
  by apply list_elem_of_singleton in Hx as ->.
Qed.

(** The client maps names and IDs of users one to one, and does not panic. *)
Theorem keycloak_names `{!KeycloakApiLaws} u i :
  id_from_username u = Some (Ok i) ↔ username_from_id i = Some (Ok u).
Proof.
  unfold id_from_username, username_from_id. destruct admin; [|by split].
  split.
  - destruct (users_get u) as [users|] eqn:Hu; [|done]. destruct (users_named u users Hu) as [_ Hall].
    destruct (last users) as [r|] eqn:Hl; [|done]. apply last_Some_elem_of in Hl.
    destruct (Hall r Hl) as [Hn (j & Hj & Hr)]. rw Hj. intros [= <-]. by rw Hr /= Hn.
  - destruct (user_with_id i) as [r|] eqn:Hr; [|done]. destruct (users_by_id i r Hr) as [Hi (v & Hv & users & Hu & Hin)].
    rw Hv. intros [= ->]. rw Hu. destruct (users_named u users Hu) as [Hlen _]. by rw (last_of_one users r Hlen Hin) Hi.
Qed.

Theorem keycloak_no_panic `{!KeycloakApiLaws} x :
  is_Some (id_from_username x) ∧ is_Some (username_from_id x).
Proof.
  unfold id_from_username, username_from_id. destruct admin; [|by split; eexists]. split.
  - destruct (users_get x) as [users|] eqn:Hu; [|by eexists]. destruct (last users) as [r|] eqn:Hl; [|by eexists].
    apply last_Some_elem_of in Hl. by destruct (proj2 (users_named x users Hu) r Hl) as [_ (j & -> & _)]; eexists.
  - destruct (user_with_id x) as [r|] eqn:Hr; [|by eexists]. by destruct (users_by_id x r Hr) as [_ (v & -> & _)]; eexists.
Qed.
(** The administration service sees the client as names that are there or not. *)
Definition as_keycloak : Keycloak := {|
  Admin.id_from_username u := match id_from_username u with Some (Ok i) => Some i | _ => None end;
  Admin.username_from_id i := match username_from_id i with Some (Ok u) => Some u | _ => None end;
|}.

Lemma username_some i u : Admin.username_from_id (Keycloak := as_keycloak) i = Some u ↔ username_from_id i = Some (Ok u).
Proof. simpl. destruct (username_from_id i) as [[]|]; naive_solver. Qed.

Lemma id_some i u : Admin.id_from_username (Keycloak := as_keycloak) u = Some i ↔ id_from_username u = Some (Ok i).
Proof. simpl. destruct (id_from_username u) as [[]|]; naive_solver. Qed.

Lemma username_not_empty `{!KeycloakApiLaws} i u : username_from_id i = Some (Ok u) → i ≠ EmptyString ∧ u ≠ EmptyString.
Proof.
  unfold username_from_id. destruct admin; [|done]. destruct (user_with_id i) as [r|] eqn:Hr; [|done].
  destruct (users_not_empty i r Hr) as [Hi Hu]. destruct (ur_username r); [|done]. intros [= <-]. naive_solver.
Qed.

(** The client keeps what the administration service relies on. *)
#[global] Instance client_keycloak_laws `{!KeycloakApiLaws} : @KeycloakLaws as_keycloak.
Proof.
  split; intros u i.
  - rw id_some username_some. apply keycloak_names.
  - rw id_some username_some. apply keycloak_names.
  - rw username_some. by intros [_ ?]%username_not_empty.
  - rw id_some keycloak_names. by intros [? _]%username_not_empty.
Qed.
End Client.
End KeycloakClient.

(** ** Authorization, [user-auth-service/src/service.rs] *)

Record AuthorizationRequest := mkAuthzRequest {
  az_application : string;
  az_permission : Permission.t;
  az_user_id : option string;
  az_roles : list string;
}.

(** [From<Context> for UserInformation] *)
Definition user_information (request : AuthorizationRequest) : UserInformation :=
  match az_user_id request with
  | Some user => if negb (is_empty user) then Authenticated (mkUserDetails user (az_roles request)) else Anonymous
  | None => Anonymous
  end.

(** [PostgresAuthorizationService::authorize] *)
Definition svc_authorize (request : AuthorizationRequest) (db : Db) : Outcome :=
  match AppAccessor.get (az_application request) db with
  | Some application => authorize application (user_information request) (az_permission request)
  | None => Deny
  end.

(** The endpoint; the connection may fail. *)
Definition endpoint_authorize (connected : bool) (request : AuthorizationRequest) (db : Db) : result Outcome ServiceError :=
  if connected then Ok (svc_authorize request db) else Err Pool.

(** The service allows to read exactly what the registry would show to that user. *)
Theorem authz_read_agrees `{UuidCodec} request db :
  az_permission request = Permission.Read →
  svc_authorize request db = Allow ↔
  ∃ app, AppAccessor.get (az_application request) db = Some app ∧
    get_app (user_information request) (az_application request) db = Ok (Some (app_into app)).
Proof.
  intros Hp. unfold svc_authorize, get_app, ensure, ensure_with. rw Hp.
  destruct (AppAccessor.get _ db) as [app|]; [|naive_solver].
  destruct (authorize app _ Permission.Read); naive_solver.
Qed.

(** For devices it allows to read whatever the registry does. *)
Theorem authz_device_agrees `{UuidCodec} request device db :
  az_permission request = Permission.Read →
  svc_authorize request db = Deny ↔
  get_device (user_information request) (az_application request) device db = Err NotFound.
Proof.
  intros Hp. unfold svc_authorize, get_device, ensure_with. rw Hp.
  destruct (AppAccessor.get _ db) as [app|]; [|done]. simpl.
  by destruct (authorize app _ Permission.Read).
Qed.

(** Roles are of no use without a user: an anonymous request is never one of an administrator. *)
Theorem anonymous_never_admin request :
  is_admin (user_information request) = true →
  ∃ user, az_user_id request = Some user ∧ user ≠ EmptyString ∧ "drogue-admin" ∈ az_roles request.
Proof.
  unfold user_information. destruct (az_user_id request) as [user|]; [|done].
  destruct (is_empty user) eqn:He; [done|]. simpl. intros (r & Hin%list_elem_of_In & ->%string_eqb_eq)%existsb_exists.
  exists user. split_and!; [done| |done]. intros ->. done.
Qed.

(** *** Authenticating with a token, then asking for permission *)

Definition token_request (application : string) (permission : Permission.t) (details : UserDetails) : AuthorizationRequest :=
  mkAuthzRequest application permission (Some (ud_user_id details)) (ud_roles details).

Section Endpoints.
Context `{TokenApi, KeycloakRealm}.

(** The status and content of an answer. *)
Inductive AuthnOutcome : Type := Known (details : UserDetails) | Unknown.
Inductive TokenAnswer : Type :=
| TCreated (prefix token : string)
| TListed (tokens : list (string * Z * string))
| TDeleted
| TAuthenticated (outcome : AuthnOutcome)
| TFailed (status : Z).

Definition answer_status (a : TokenAnswer) : Z :=
  match a with
  | TCreated _ _ | TListed _ | TAuthenticated _ => 200
  | TDeleted => 204
  | TFailed status => status
  end.

(** The status of an error of Keycloak, of which the service says only that it is one. *)
Context (client_status : Z).
Definition token_error (e : TokenError) : TokenAnswer :=
  match e with
  | TNotAuthorized => TFailed (KeycloakClient.ei_status (KeycloakClient.kc_error_response KeycloakClient.NotAuthorized))
  | TClient => TFailed client_status
  end.

Definition endpoint_create (now : Z) (random_prefix random_key : string) (user : UserInformation) (description : string)
    (realm : Realm) : Realm * TokenAnswer :=
  match create now random_prefix random_key user description realm with
  | Ok (realm, (prefix, token)) => (realm, TCreated prefix token)
  | Err e => (realm, token_error e)
  end.

Definition endpoint_list (user : UserInformation) (realm : Realm) : TokenAnswer :=
  match list_tokens user realm with
  | Ok tokens => TListed tokens
  | Err e => token_error e
  end.

Definition endpoint_delete (prefix : string) (user : UserInformation) (realm : Realm) : Realm * TokenAnswer :=
  match delete user prefix realm with
  | Ok realm => (realm, TDeleted)
  | Err e => (realm, token_error e)
  end.

(** [None] if checking the token panics. *)
Definition endpoint_token_authenticate (user_id access_token : string) (realm : Realm) : option TokenAnswer :=
  match authenticate user_id access_token realm with
  | Some (Some details) => Some (TAuthenticated (Known details))
  | Some None => Some (TAuthenticated Unknown)
  | None => None
  end.

(** Without a user there are no tokens to see, make or remove, and the realm stays as it is. *)
Theorem tokens_need_user now rp rk description prefix realm :
  endpoint_create now rp rk Anonymous description realm = (realm, TFailed 403) ∧
  endpoint_list Anonymous realm = TFailed 403 ∧ endpoint_delete prefix Anonymous realm = (realm, TFailed 403).
Proof. done. Qed.

(** Whoever comes with an access token acts as the user the token belongs to, but never as
    an administrator: what it may do with an application that has an owner, that user is
    the owner or a member for. *)
Theorem token_never_admin username token realm details application permission db app owner :
  endpoint_token_authenticate username token realm = Some (TAuthenticated (Known details)) →
  AppAccessor.get application db = Some app → res_owner app = Some owner → ud_user_id details ≠ EmptyString →
  svc_authorize (token_request application permission details) db = Allow ↔
  owner = ud_user_id details ∨
  ∃ m, im_get (ud_user_id details) (res_members app) = Some m ∧ (rank permission ≤ role_rank (role m))%nat.
Proof.
  unfold endpoint_token_authenticate. destruct (authenticate username token realm) as [[d|]|] eqn:Ha; [|done..].
  intros [= <-] Hget Howner Hid. assert (Hroles : ud_roles d = []).
  { unfold authenticate in Ha. destruct (is_valid token) as [[prefix|]|]; try done. simpl in Ha.
    destruct (kc_find _ _) as [user|]; [|done]. destruct (kc_id user); [|done]. destruct (_ !! _); [|done].
    destruct (decode_data _) as [[[]]|]; [|done]. destruct (string_eqb _ _); by simplify_eq. }
  unfold svc_authorize, user_information, token_request. cbn [az_application az_permission az_user_id az_roles].
  rw Hget authorize_spec Howner Hroles.
  destruct (is_empty (ud_user_id d)) eqn:He; [by apply is_empty_true in He|]. simpl. naive_solver.
Qed.
End Endpoints.
