(* ===== verification/Services.v ===== *)
(** * How the services are put together

    The routes of the HTTP services and the middleware before them
    ([device-management-service/src/lib.rs], [console-backend/src/lib.rs],
    [command-endpoint/src/lib.rs], [device-state-service/src/lib.rs],
    [user-auth-service/src/lib.rs], [authentication-service/src/lib.rs],
    [websocket-integration/src/lib.rs], [http-endpoint/src/lib.rs]); the check
    of tokens ([service-common/src/auth/service/mod.rs]) with its errors
    ([service-common/src/error.rs]); and the endpoints that are announced
    ([service-common/src/endpoints.rs]).  Routing is that of [actix], given by
    its documented laws. *)

From S2P Require Import Prelude Json Versioning Auth Events Store Outbox Registry Management Admin Lifecycle Select Labels Listing Kafka RegistryApi.

(** ** Routes *)

Module Routes.
(** A segment of a pattern: a text, a variable, or all that is left. *)
Inductive Segment : Type := Lit (s : string) | Var (name : string) | Rest (name : string).

(** The middleware of a scope, in the order a request passes it. *)
Inductive Wrap : Type :=
| AuthN
| Authorize (p : Permission.t)
| OpenId
| OpenIdIf (enabled : bool)
| Cors.

(** The handlers of all services. *)
Inductive Handler : Type :=
| AppsCreate | AppsList | AppsRead | AppsUpdate | AppsDelete
| DevicesCreate | DevicesList | DevicesRead | DevicesUpdate | DevicesDelete
| ReadTransfer | TransferOwner | CancelTransfer | AcceptOwner | GetMembers | SetMembersOf
| TokensCreate | TokensList | TokensDelete | WhoAmI | GetInfo | ConsoleIndex | PublicEndpoints | DrogueVersion
| CommandIndex | SendCommand
| StateGet | StateInit | StatePing | StateCreate | StateDelete
| AuthorizeUser | AuthenticateToken
| AuthenticateDevice | RequestKey | AuthorizeAs
| StartConnection | StartFiltered
| EndpointIndex | PublishPlain | PublishTail | TtnV2 | TtnV3.

#[global] Instance wrap_eq_dec : EqDecision Wrap.
Proof. solve_decision. Defined.
#[global] Instance handler_eq_dec : EqDecision Handler.
Proof. solve_decision. Defined.

(** [web::resource] and [web::scope] *)
Inductive Service : Type :=
| Resource (pattern : list Segment) (wraps : list Wrap) (routes : list (HttpMethod * Handler))
| Scope (prefix : list Segment) (wraps : list Wrap) (inner : list Service).

Inductive Routed : Type := NotFound | MethodNotAllowed | To (h : Handler) (wraps : list Wrap).

Definition method_eqb (a b : HttpMethod) : bool :=
  match a, b with GET, GET | POST, POST | PUT, PUT | DELETE, DELETE => true | _, _ => false end.

(** What is left of a path, the texts between its slashes, after a prefix; a variable is a
    segment that is not empty. *)
Fixpoint strip (pattern : list Segment) (path : list string) : option (list string) :=
  match pattern, path with
  | [], _ => Some path
  | Rest _ :: _, _ :: _ => Some []
  | Lit s :: pattern, x :: path => if string_eqb s x then strip pattern path else None
  | Var _ :: pattern, x :: path => if is_empty x then None else strip pattern path
  | _ :: _, [] => None
  end.

Definition pattern_of (s : Service) : list Segment := match s with Resource p _ _ => p | Scope p _ _ => p end.

(** A resource takes a path that it matches as a whole, a scope one that it is a prefix of. *)
Definition takes (s : Service) (path : list string) : option (list string) :=
  match s with
  | Resource p _ _ => match strip p path with Some [] => Some [] | _ => None end
  | Scope p _ _ => strip p path
  end.

Definition find_route (m : HttpMethod) (routes : list (HttpMethod * Handler)) : option Handler :=
  snd <$> List.find (λ r, method_eqb r.1 m) routes.

Definition behind (wraps : list Wrap) (r : Routed) : Routed :=
  match r with To h inner => To h (wraps ++ inner) | _ => r end.

(** [actix]: services are asked in the order they were registered; the first that takes the
    path answers, and a scope whose services do not take the rest answers 404. *)
Class Router := {
  route : list Service → HttpMethod → list string → Routed;
  route_none m path : route [] m path = NotFound;
  route_skip s services m path : takes s path = None → route (s :: services) m path = route services m path;
  route_resource p ws rs services m path : takes (Resource p ws rs) path = Some [] →
    route (Resource p ws rs :: services) m path
    = match find_route m rs with Some h => To h ws | None => MethodNotAllowed end;
  route_scope p ws inner services m path rest : takes (Scope p ws inner) path = Some rest →
    route (Scope p ws inner :: services) m path = behind ws (route inner m rest);
}.

(** A router with these laws. *)
Fixpoint route_one (s : Service) (m : HttpMethod) (path : list string) : option Routed :=
  match s with
  | Resource p ws rs =>
      match strip p path with
      | Some [] => Some match find_route m rs with Some h => To h ws | None => MethodNotAllowed end
      | _ => None
      end
  | Scope p ws inner =>
      match strip p path with
      | Some rest => Some (behind ws
          ((fix first (l : list Service) : Routed :=
             match l with
             | [] => NotFound
             | s :: l => match route_one s m rest with Some r => r | None => first l end
             end) inner))
      | None => None
      end
  end.
Fixpoint route_first (l : list Service) (m : HttpMethod) (path : list string) : Routed :=
  match l with
  | [] => NotFound
  | s :: l => match route_one s m path with Some r => r | None => route_first l m path end
  end.

Lemma route_one_scope p ws inner m path rest :
  strip p path = Some rest → route_one (Scope p ws inner) m path = Some (behind ws (route_first inner m rest)).
Proof.
  intros Hs. cbn [route_one]. rw Hs. do 2 f_equal. clear Hs. induction inner as [|s l IH]; [done|]. cbn [route_first].
  destruct (route_one s m rest); [done|]. apply IH.
Qed.

#[global] Program Instance first_router : Router := {| route := route_first |}.
Next Obligation. done. Qed.
Next Obligation.
  intros s services m path Ht. cbn [route_first]. destruct s as [p ws rs|p ws inner]; cbn [takes route_one] in *.
  - by destruct (strip p path) as [[|]|].
  - by rw Ht.
Qed.
Next Obligation.
  intros p ws rs services m path Ht. cbn [route_first takes route_one] in *. by destruct (strip p path) as [[|]|].
Qed.
Next Obligation. intros p ws inner services m path rest Ht. cbn [route_first]. by rw (route_one_scope _ _ _ _ _ _ Ht). Qed.

(** All that can be reached, with what is before it. *)
Fixpoint reachable_of (before : list Wrap) (s : Service) : list (Handler * list Wrap) :=
  match s with
  | Resource _ ws rs => (λ r, (r.2, before ++ ws)) <$> rs
  | Scope _ ws inner =>
      (fix all (l : list Service) : list (Handler * list Wrap) :=
         match l with [] => [] | s :: l => reachable_of (before ++ ws) s ++ all l end) inner
  end.
Definition reachable_in (before : list Wrap) (l : list Service) : list (Handler * list Wrap) :=
  concat (reachable_of before <$> l).

Lemma reachable_of_scope before p ws inner : reachable_of before (Scope p ws inner) = reachable_in (before ++ ws) inner.
Proof. cbn [reachable_of]. unfold reachable_in. induction inner as [|s l IH]; [done|]. rw fmap_cons. cbn [concat]. by rw IH. Qed.

Section Router.
Context `{Router}.

(** Scopes nest finitely: induction for services and their lists. *)
Lemma route_sound_one s : ∀ services before m path h ws,
  (∀ h ws, route services m path = To h ws → (h, before ++ ws) ∈ reachable_in before services) →
  route (s :: services) m path = To h ws → (h, before ++ ws) ∈ reachable_in before (s :: services).
Proof.
  revert s. fix IH 1. intros s services before m path h ws Hl. unfold reachable_in. rw fmap_cons. cbn [concat]. rw elem_of_app.
  destruct (takes s path) as [rest|] eqn:Ht; cycle 1.
  { rw (route_skip _ _ _ _ Ht). intros Hr. right. by apply Hl. }
  destruct s as [p ws' rs|p ws' inner].
  - assert (rest = []) as -> by (cbn [takes] in Ht; destruct (strip p path) as [[|]|]; congruence).
    rw (route_resource _ _ _ _ _ _ Ht). unfold find_route. destruct (List.find _ rs) as [[m' h']|] eqn:Hf; [|done].
    simpl. intros [= <- <-]. left. apply List.find_some in Hf as [Hin _]. apply list_elem_of_fmap.
    exists (m', h'). split; [done|]. by apply list_elem_of_In.
  - rw (route_scope _ _ _ _ _ _ _ Ht). intros Heq. left. rw reachable_of_scope.
    assert (Hin : ∀ h ws, route inner m rest = To h ws → (h, (before ++ ws') ++ ws) ∈ reachable_in (before ++ ws') inner).
    { clear -IH. induction inner as [|s inner IHi]; intros h ws Hr; [by rw route_none in Hr|]. by eapply IH; [|exact Hr]. }
    destruct (route inner m rest) as [| |h' w'] eqn:Hr; [done..|]. injection Heq as <- <-.
    rw app_assoc. by apply Hin.
Qed.

(** What answers a request is one of the handlers of the tables, behind its middleware. *)
Lemma route_sound services m path h ws : route services m path = To h ws → (h, ws) ∈ reachable_in [] services.
Proof.
  revert h ws. induction services as [|s services IH]; intros h ws Hr; [by rw route_none in Hr|]. revert Hr.
  by apply (route_sound_one s services []).
Qed.

(** Routers with these laws agree. *)
Lemma route_agree services m path : route services m path = route_first services m path.
Proof.
  revert path. revert services.
  assert (Hone : ∀ s services path, (∀ path, route services m path = route_first services m path) →
    route (s :: services) m path = route_first (s :: services) m path).
  { fix IH 1. intros s services path Hl. destruct (takes s path) as [rest|] eqn:Ht; cycle 1.
    { rw (route_skip _ _ _ _ Ht) Hl. symmetry. exact (route_skip (Router := first_router) _ _ _ _ Ht). }
    destruct s as [p ws rs|p ws inner].
    - assert (rest = []) as -> by (cbn [takes] in Ht; destruct (strip p path) as [[|]|]; congruence).
      rw (route_resource _ _ _ _ _ _ Ht). symmetry. apply (route_resource (Router := first_router) _ _ _ _ _ _ Ht).
    - rw (route_scope _ _ _ _ _ _ _ Ht). etrans; [|symmetry; apply (route_scope (Router := first_router) _ _ _ _ _ _ _ Ht)].
      f_equal. cbn [route first_router]. clear -IH. revert rest. induction inner as [|s inner IHi]; intros rest; [apply route_none|].
      by apply IH. }
  induction services as [|s services IH]; intros path; [apply route_none|]. by apply Hone.
Qed.
End Router.
End Routes.

(** ** The check of tokens *)

Module OpenIdAuth.
(** [service-common/src/error.rs] *)
Inductive ServiceError : Type :=
| TokenError
| InternalError (msg : string)
| AuthenticationError
| ServiceUnavailable (msg : string)
| InvalidRequest (msg : string)
| Serializer (msg : string)
| NotFound (ty name : string)
| Client (msg : string).

Definition error_response (e : ServiceError) : Z * string * string :=
  match e with
  | TokenError => (500, "TokenError", "Failed to decode token")%Z
  | InternalError m => (500, "InternalError", m)%Z
  | AuthenticationError => (403, "AuthenticationError", "Not authorized")%Z
  | ServiceUnavailable m => (503, "ServiceUnavailable", m)%Z
  | InvalidRequest m => (400, "InvalidRequest", m)%Z
  | Serializer m => (500, "Serializer", m)%Z
  | NotFound ty name => (404, "NotFound", "Not found " +:+ ty +:+ " / " +:+ name)%Z
  | Client m => (503, "ClientError", m)%Z
  end.

Inductive AuthenticatorError : Type := Missing | Failed.

(** An authenticator checks a token and gives the claims in it. *)
Definition Authenticator : Type := string → result UserDetails AuthenticatorError.

Definition openid_validator (authenticator : option Authenticator) (token : string) : result UserInformation ServiceError :=
  match authenticator with
  | None => Err (InternalError "Missing authenticator instance")
  | Some validate =>
      match validate token with
      | Ok payload => Ok (Authenticated payload)
      | Err Missing => Err (InternalError "Missing OpenID client")
      | Err Failed => Err AuthenticationError
      end
  end.

(** The middleware of the internal services: that of the device state service is always
    there, those of the other two only with an authenticator. *)
Definition openid_auth (enabled : bool) (authenticator : option Authenticator) (token : string) : result UserInformation ServiceError :=
  if enabled then openid_validator authenticator token else Ok Anonymous.

Definition state_auth (authenticator : option Authenticator) (token : string) := openid_auth true authenticator token.
Definition conditional_auth (authenticator : option Authenticator) (token : string) :=
  openid_auth (match authenticator with Some _ => true | None => false end) authenticator token.

(** Only a token the authenticator accepts makes a user. *)
Lemma validator_ok authenticator token user :
  openid_validator authenticator token = Ok user ↔
  ∃ validate d, authenticator = Some validate ∧ validate token = Ok d ∧ user = Authenticated d.
Proof.
  unfold openid_validator. split.
  - destruct authenticator as [v|]; [|done]. destruct (v token) as [d|[]] eqn:Hv; intros [= <-]. by exists v, d.
  - intros (v & d & -> & -> & ->). done.
Qed.

(** Where the authentication is disabled the internal services answer without it, except for
    the device state service, which answers nothing but errors. *)
Theorem disabled_auth token :
  conditional_auth None token = Ok Anonymous ∧
  state_auth None token = Err (InternalError "Missing authenticator instance").
Proof. done. Qed.

Theorem enabled_auth validate token : conditional_auth (Some validate) token = state_auth (Some validate) token.
Proof. done. Qed.
End OpenIdAuth.

(** ** The services *)

Module Tables.
Import Routes.

(** [crud!] of the device management service. *)
Definition crud (base : list Segment) (names name : string) (create list_ read update delete : Handler) : list Service :=
  [Resource (base ++ [Lit names]) [] [(POST, create); (GET, list_)];
   Resource (base ++ [Lit names; Var name]) [] [(GET, read); (PUT, update); (DELETE, delete)]].

Definition registry_scope : Service :=
  Scope [Lit "api"; Lit "registry"; Lit "v1alpha1"] [Cors; AuthN]
    (crud [] "apps" "app" AppsCreate AppsList AppsRead AppsUpdate AppsDelete
     ++ crud [Lit "apps"; Var "app"] "devices" "device" DevicesCreate DevicesList DevicesRead DevicesUpdate DevicesDelete).

Definition admin_scope : Service :=
  Scope [Lit "api"; Lit "admin"; Lit "v1alpha1"] [Cors; AuthN]
    [Resource [Lit "apps"; Var "appId"; Lit "transfer-ownership"] []
       [(GET, ReadTransfer); (PUT, TransferOwner); (DELETE, CancelTransfer)];
     Resource [Lit "apps"; Var "appId"; Lit "accept-ownership"] [] [(PUT, AcceptOwner)];
     Resource [Lit "apps"; Var "appId"; Lit "members"] [] [(GET, GetMembers); (PUT, SetMembersOf)]].

Definition device_management : list Service := [registry_scope; admin_scope].

Definition whoami_scope : Service :=
  Scope [Lit "api"; Lit "admin"; Lit "v1alpha1"] [AuthN]
    [Resource [Lit "user"; Lit "whoami"] [] [(GET, WhoAmI)]].

Definition console_backend : list Service :=
  [Scope [Lit "api"; Lit "tokens"; Lit "v1alpha1"] [AuthN]
     [Resource [] [] [(POST, TokensCreate); (GET, TokensList)];
      Resource [Var "prefix"] [] [(DELETE, TokensDelete)]];
   whoami_scope;
   Scope [Lit "api"; Lit "console"; Lit "v1alpha1"] [] [Resource [Lit "info"] [AuthN] [(GET, GetInfo)]];
   Resource [Lit EmptyString] [] [(GET, ConsoleIndex)];
   Scope [Lit ".well-known"] []
     [Resource [Lit "drogue-endpoints"] [] [(GET, PublicEndpoints)];
      Resource [Lit "drogue-version"] [] [(GET, DrogueVersion)]]].

Definition command_endpoint : list Service :=
  [Resource [Lit EmptyString] [] [(GET, CommandIndex)];
   Scope [Lit "api"; Lit "command"; Lit "v1alpha1"; Lit "apps"; Var "application"; Lit "devices"; Var "deviceId"]
     [AuthN; Authorize Permission.Read] [Resource [] [] [(POST, SendCommand)]]].

Definition device_state : list Service :=
  [Scope [Lit "api"; Lit "state"; Lit "v1alpha1"] [OpenId]
     [Resource [Lit "states"; Var "application"; Var "device"] [] [(GET, StateGet)];
      Resource [Lit "sessions"] [] [(PUT, StateInit)];
      Resource [Lit "sessions"; Var "session"] [] [(POST, StatePing)];
      Resource [Lit "sessions"; Var "session"; Lit "states"; Var "application"; Var "device"] []
        [(PUT, StateCreate); (DELETE, StateDelete)]]].

(** With an authenticator, if one is configured. *)
Definition user_auth (enable_auth : bool) : list Service :=
  [Scope [Lit "api"] [OpenIdIf enable_auth]
     [Scope [Lit "v1"; Lit "user"] [] [Resource [Lit "authz"] [] [(POST, AuthorizeUser)]];
      Resource [Lit "user"; Lit "v1alpha1"; Lit "authz"] [] [(POST, AuthorizeUser)];
      Resource [Lit "user"; Lit "v1alpha1"; Lit "authn"] [] [(POST, AuthenticateToken)]]].

Definition authentication (enable_auth : bool) : list Service :=
  [Scope [Lit "api"; Lit "v1"] [OpenIdIf enable_auth]
     [Resource [Lit "auth"] [] [(POST, AuthenticateDevice)];
      Resource [Lit "keys"] [] [(POST, RequestKey)];
      Resource [Lit "authorize_as"] [] [(POST, AuthorizeAs)]]].

Definition websocket_integration : list Service :=
  [Scope [Var "application"] [AuthN; Authorize Permission.Read]
     [Resource [Var "channel"] [] [(GET, StartFiltered)]; Resource [] [] [(GET, StartConnection)]]].

(** The devices are authenticated by the handlers. *)
Definition http_endpoint : list Service :=
  [Resource [Lit EmptyString] [] [(GET, EndpointIndex)];
   Scope [Lit "v1"] []
     [Resource [Var "channel"] [] [(POST, PublishPlain)];
      Resource [Var "channel"; Rest "suffix"] [] [(POST, PublishTail)]];
   Scope [Lit "ttn"] []
     [Resource [Lit EmptyString] [] [(POST, TtnV2)]; Resource [Lit "v2"] [] [(POST, TtnV2)]; Resource [Lit "v3"] [] [(POST, TtnV3)]]].

(** The API server of the all-in-one server: three services in one. *)
Definition composite : list Service := console_backend ++ device_management ++ command_endpoint.

(** *** Who gets through *)

(** What a request brings to be authenticated with: a token, or a user and an access token. *)
Record Request := mkRequest {
  rq_method : HttpMethod;
  rq_path : list string;
  rq_bearer : option string;
  rq_basic : option (string * string);
}.

(** The client of the user authentication service. *)
Record UserAuth := mkUserAuth {
  ua_authenticate : string → string → option UserDetails;
  ua_authorize : string → Permission.t → UserInformation → Outcome;
}.

(** What a service was configured with; authentication is disabled if there is no
    authenticator. *)
Record AuthConfig := mkAuthConfig {
  ac_openid : option OpenIdAuth.Authenticator;
  ac_user_auth : option UserAuth;
}.

Definition enable_auth (config : AuthConfig) : bool :=
  match ac_openid config with Some _ => true | None => false end.

(** Someone vouches for the user: the authenticator for the token, or the user authentication
    service for the access token. *)
Definition vouched (config : AuthConfig) (req : Request) (d : UserDetails) : Prop :=
  (∃ validate token, ac_openid config = Some validate ∧ rq_bearer req = Some token ∧ validate token = Ok d) ∨
  (∃ client user token, ac_user_auth config = Some client ∧ rq_basic req = Some (user, token) ∧
     ua_authenticate client user token = Some d).

(** The middleware of [drogue_bazaar]: with an authenticator, [AuthN] lets through only
    users someone vouches for; with a client, [ApplicationAuthorizer] asks it about the
    application named in the path.  Of a service without authenticator or client nothing is
    known. *)
Class Middleware := {
  authn : AuthConfig → Request → option UserInformation;
  match_info : Request → string → option string;
  app_authorizer : option UserAuth → Permission.t → Request → option UserInformation → bool;
  authn_sound config req user : enable_auth config = true → authn config req = Some user →
    ∃ d, user = Authenticated d ∧ vouched config req d;
  app_authorizer_sound client p req user : app_authorizer (Some client) p req user = true →
    ∃ application u, match_info req "application" = Some application ∧ user = Some u ∧
      ua_authorize client application p u = Allow;
}.

(** A middleware with these laws: a token is looked at first, and the application is the fifth
    text of a path for commands, and the first of any other. *)
Definition plain_application (req : Request) : option string :=
  match rq_path req with
  | ["api"; "command"; _; "apps"; application; "devices"; _] => Some application
  | path => head path
  end.

Definition plain_authn (config : AuthConfig) (req : Request) : option UserInformation :=
  match ac_openid config, rq_bearer req, rq_basic req, ac_user_auth config with
  | None, _, _, _ => Some Anonymous
  | Some validate, Some token, _, _ =>
      match validate token with Ok d => Some (Authenticated d) | Err _ => None end
  | Some _, None, Some (name, token), Some client => Authenticated <$> ua_authenticate client name token
  | _, _, _, _ => None
  end.

Definition plain_authorizer (client : option UserAuth) (p : Permission.t) (req : Request)
    (user : option UserInformation) : bool :=
  match client, plain_application req, user with
  | None, _, _ => true
  | Some client, Some application, Some u => bool_decide (ua_authorize client application p u = Allow)
  | _, _, _ => false
  end.

#[global] Instance plain_middleware : Middleware.
Proof.
  refine {| authn := plain_authn; match_info := λ req _, plain_application req;
    app_authorizer := plain_authorizer |}.
  - intros config req user. unfold enable_auth, vouched, plain_authn.
    destruct (ac_openid config) as [validate|]; [|done]. intros _. destruct (rq_bearer req) as [token|].
    + destruct (validate token) as [d|] eqn:Hv; [|done]. intros [= <-]. exists d. split; [done|]. left. by exists validate, token.
    + destruct (rq_basic req) as [[name token]|]; [|done]. destruct (ac_user_auth config) as [client|]; [|done].
      destruct (ua_authenticate client name token) as [d|] eqn:Hu; [|done]. intros [= <-].
      exists d. split; [done|]. right. by exists client, name, token.
  - intros client p req user. unfold plain_authorizer. destruct (plain_application req) as [application|]; [|done].
    destruct user as [u|]; [|done]. intros Ha%bool_decide_eq_true. by exists application, u.
Defined.

Section Protected.
Context `{Router, Middleware}.

(** [HttpAuthentication::bearer] with [openid_validator]: without a token the request is
    refused. *)
Definition bearer (config : AuthConfig) (req : Request) : option UserInformation :=
  token ← rq_bearer req;
  match OpenIdAuth.openid_validator (ac_openid config) token with Ok user => Some user | Err _ => None end.

(** A request on its way through the middleware; [user] is what an authentication has put into
    the request, [None] in the end that it was refused. *)
Fixpoint pass (config : AuthConfig) (req : Request) (ws : list Wrap) (user : option UserInformation)
    : option (option UserInformation) :=
  match ws with
  | [] => Some user
  | AuthN :: ws => u ← authn config req; pass config req ws (Some u)
  | OpenId :: ws | OpenIdIf true :: ws => u ← bearer config req; pass config req ws (Some u)
  | Authorize p :: ws => if app_authorizer (ac_user_auth config) p req user then pass config req ws user else None
  | OpenIdIf false :: ws | Cors :: ws => pass config req ws user
  end.

(** The handler that is called, and the user it is told. *)
Definition serve (config : AuthConfig) (services : list Service) (req : Request)
    : option (Handler * option UserInformation) :=
  match route services (rq_method req) (rq_path req) with
  | To h ws => (λ user, (h, user)) <$> pass config req ws None
  | _ => None
  end.

(** What anyone may ask. *)
Definition public (h : Handler) : bool :=
  match h with ConsoleIndex | CommandIndex | PublicEndpoints | DrogueVersion => true | _ => false end.

(** What needs the permission to read the application. *)
Definition needs_read (h : Handler) : bool :=
  match h with SendCommand | StartConnection | StartFiltered => true | _ => false end.

Definition of_state_service (h : Handler) : bool :=
  match h with StateGet | StateInit | StatePing | StateCreate | StateDelete => true | _ => false end.

(** All services but the endpoints for devices, as they are set up with a configuration. *)
Definition user_services (config : AuthConfig) : list (list Service) :=
  [device_management; console_backend; command_endpoint; device_state; user_auth (enable_auth config);
   authentication (enable_auth config); websocket_integration; composite].

Definition authenticates (w : Wrap) : bool :=
  match w with AuthN | OpenId => true | OpenIdIf e => e | _ => false end.

(** Middleware that authenticates leaves a user someone vouches for. *)
Lemma pass_authenticated config req ws user user' :
  enable_auth config = true → pass config req ws user = Some user' →
  (∃ w, w ∈ ws ∧ authenticates w = true) ∨ (∃ d, user = Some (Authenticated d) ∧ vouched config req d) →
  ∃ d, user' = Some (Authenticated d) ∧ vouched config req d.
Proof.
  intros Hon. revert user. induction ws as [|w ws IH]; intros user Hp Hw.
  { simpl in Hp. injection Hp as ->. by destruct Hw as [(w & ?%elem_of_nil & _)|]. }
  assert (Hbearer : ∀ u, bearer config req = Some u → ∃ d, u = Authenticated d ∧ vouched config req d).
  { intros u. unfold bearer. destruct (rq_bearer req) as [token|] eqn:Hb; [|done]. simpl.
    destruct (OpenIdAuth.openid_validator _ token) as [u'|] eqn:Hv; [|done]. intros [= <-].
    apply OpenIdAuth.validator_ok in Hv as (validate & d & Ho & Hd & ->). exists d. split; [done|]. left.
    by exists validate, token. }
  assert (Hkeep : authenticates w = false → (∃ w, w ∈ ws ∧ authenticates w = true) ∨
    (∃ d, user = Some (Authenticated d) ∧ vouched config req d)).
  { intros Hf. destruct Hw as [(w' & [->|Hin]%elem_of_cons & Ha)|]; [congruence|left; by exists w'|by right]. }
  destruct w as [|p| |[]|]; cbn [pass] in Hp.
  - destruct (authn config req) as [u|] eqn:Hu; [|done]. eapply IH; [exact Hp|]. right.
    apply authn_sound in Hu as (d & -> & Hd); [|done]. by exists d.
  - destruct (app_authorizer _ _ _ _); [|done]. eapply IH; [exact Hp|]. by apply Hkeep.
  - destruct (bearer config req) as [u|] eqn:Hu; [|done]. eapply IH; [exact Hp|]. right.
    destruct (Hbearer u eq_refl) as (d & -> & Hd). by exists d.
  - destruct (bearer config req) as [u|] eqn:Hu; [|done]. eapply IH; [exact Hp|]. right.
    destruct (Hbearer u eq_refl) as (d & -> & Hd). by exists d.
  - eapply IH; [exact Hp|]. by apply Hkeep.
  - eapply IH; [exact Hp|]. by apply Hkeep.
Qed.

Lemma pass_openid_off config req ws user :
  ac_openid config = None → OpenId ∈ ws → pass config req ws user = None.
Proof.
  intros Hoff. assert (Hb : bearer config req = None).
  { unfold bearer. destruct (rq_bearer req); [|done]. simpl. by rw Hoff. }
  revert user. induction ws as [|w ws IH]; intros user Hin; [by apply elem_of_nil in Hin|].
  apply elem_of_cons in Hin as [<-|Hin]; [by simpl; rw Hb|].
  destruct w as [|p| |[]|]; cbn [pass]; rw ?Hb //; [|case_match; [|done]|..]; try by apply IH.
  destruct (authn config req); [|done]. by apply IH.
Qed.

(** What has to hold of a handler and the middleware before it. *)
Definition guarded (on : bool) (hw : Handler * list Wrap) : Prop :=
  (on = true → public hw.1 = true ∨ ∃ w, w ∈ hw.2 ∧ authenticates w = true) ∧
  (needs_read hw.1 = true → hw.2 = [AuthN; Authorize Permission.Read]) ∧
  (of_state_service hw.1 = true → OpenId ∈ hw.2).

Definition guarded_b (on : bool) (hw : Handler * list Wrap) : bool :=
  (negb on || public hw.1 || existsb authenticates hw.2) &&
  (negb (needs_read hw.1) || bool_decide (hw.2 = [AuthN; Authorize Permission.Read])) &&
  (negb (of_state_service hw.1) || bool_decide (OpenId ∈ hw.2)).

Lemma guarded_b_true on hw : guarded_b on hw = true → guarded on hw.
Proof.
  unfold guarded_b, guarded. rw !andb_true_iff !orb_true_iff !negb_true_iff !bool_decide_eq_true.
  intros [[Hp Hr] Hs]. split_and!.
  - intros ->. destruct Hp as [[?|?]|Hw]; [done|by left|right].
    apply existsb_exists in Hw as (w & Hw%list_elem_of_In & Ha). by exists w.
  - intros Hn. by destruct Hr as [?|?]; [congruence|].
  - intros Hn. by destruct Hs as [?|?]; [congruence|].
Qed.

Lemma services_guarded config services m path h ws :
  services ∈ user_services config → route services m path = To h ws → guarded (enable_auth config) (h, ws).
Proof.
  intros Hin Hr%route_sound. apply guarded_b_true. unfold user_services in Hin.
  assert (Hall : ∀ on, Forall (λ s, Forall (λ hw, guarded_b on hw = true) (reachable_in [] s))
    [device_management; console_backend; command_endpoint; device_state; user_auth on;
     authentication on; websocket_integration; composite]) by (intros []; by_decide).
  specialize (Hall (enable_auth config)). rewrite Forall_forall in Hall. specialize (Hall _ Hin).
  rewrite Forall_forall in Hall. by apply Hall.
Qed.

End Protected.

(** A user sends a command with an access token. *)
Definition token_config : AuthConfig :=
  mkAuthConfig (Some (λ _, Err OpenIdAuth.Failed))
    (Some (mkUserAuth (λ user token, if string_eqb token "secret" then Some (mkUserDetails user []) else None)
      (λ application p u, Allow))).
Definition command_request : Request :=
  mkRequest POST ["api"; "command"; "v1alpha1"; "apps"; "a"; "devices"; "d"] None (Some ("alice", "secret")).


(** *** The API of the registry *)

(** What [RegistryApi] takes a path below [/api] for, as handlers. *)
Definition handler_of (r : RegistryApi.Resource) (m : HttpMethod) : option Handler :=
  match r, m with
  | RApps, POST => Some AppsCreate
  | RApps, GET => Some AppsList
  | RApp _, GET => Some AppsRead
  | RApp _, PUT => Some AppsUpdate
  | RApp _, DELETE => Some AppsDelete
  | RDevices _, POST => Some DevicesCreate
  | RDevices _, GET => Some DevicesList
  | RDevice _ _, GET => Some DevicesRead
  | RDevice _ _, PUT => Some DevicesUpdate
  | RDevice _ _, DELETE => Some DevicesDelete
  | RTransfer _, GET => Some ReadTransfer
  | RTransfer _, PUT => Some TransferOwner
  | RTransfer _, DELETE => Some CancelTransfer
  | RAccept _, PUT => Some AcceptOwner
  | RMembers _, GET => Some GetMembers
  | RMembers _, PUT => Some SetMembersOf
  | _, _ => None
  end.

(** The path of a resource, and the names in it. *)
Definition path_of (r : RegistryApi.Resource) : list string :=
  match r with
  | RApps => ["registry"; "v1alpha1"; "apps"]
  | RApp a => ["registry"; "v1alpha1"; "apps"; a]
  | RDevices a => ["registry"; "v1alpha1"; "apps"; a; "devices"]
  | RDevice a d => ["registry"; "v1alpha1"; "apps"; a; "devices"; d]
  | RTransfer a => ["admin"; "v1alpha1"; "apps"; a; "transfer-ownership"]
  | RAccept a => ["admin"; "v1alpha1"; "apps"; a; "accept-ownership"]
  | RMembers a => ["admin"; "v1alpha1"; "apps"; a; "members"]
  | RNone => []
  end.
Definition names_of (r : RegistryApi.Resource) : list string :=
  match r with
  | RApp a | RDevices a | RTransfer a | RAccept a | RMembers a => [a]
  | RDevice a d => [a; d]
  | _ => []
  end.

Lemma resource_of_path r : resource_of (path_of r) = r.
Proof. by destruct r. Qed.

Lemma strip_lit x p path rest : strip (Lit x :: p) path = Some rest → ∃ path', path = x :: path' ∧ strip p path' = Some rest.
Proof. destruct path as [|y path]; [done|]. cbn [strip]. destruct (string_eqb_spec x y) as [->|]; [eauto|done]. Qed.
Lemma strip_var n p path rest :
  strip (Var n :: p) path = Some rest → ∃ x path', path = x :: path' ∧ x ≠ EmptyString ∧ strip p path' = Some rest.
Proof. destruct path as [|[|c y] path]; [done..|]. cbn [strip is_empty]. eauto. Qed.
Lemma strip_nil path rest : strip [] path = Some rest → path = rest.
Proof. by destruct path; intros [= <-]. Qed.

Lemma route_first_in l m path h ws : route_first l m path = To h ws → ∃ s, s ∈ l ∧ route_one s m path = Some (To h ws).
Proof.
  induction l as [|s l IH]; [done|]. cbn [route_first]. destruct (route_one s m path) as [r|] eqn:Hr.
  - intros ->. exists s. split; [left|done].
  - intros (s' & Hs & Hr')%IH. exists s'. split; [by right|done].
Qed.
Lemma route_resource_in p ws rs m path h ws' :
  route_one (Resource p ws rs) m path = Some (To h ws') → strip p path = Some [] ∧ find_route m rs = Some h ∧ ws' = ws.
Proof. cbn [route_one]. destruct (strip p path) as [[|]|]; [|done..]. destruct (find_route m rs); naive_solver. Qed.
Lemma route_scope_in p ws inner m path h ws' :
  route_one (Scope p ws inner) m path = Some (To h ws') →
  ∃ rest ws0, strip p path = Some rest ∧ route_first inner m rest = To h ws0 ∧ ws' = ws ++ ws0.
Proof.
  destruct (strip p path) as [rest|] eqn:Hs; [|cbn [route_one]; by rw Hs].
  rw (route_one_scope _ _ _ _ _ _ Hs). destruct (route_first inner m rest) as [| |h' w'] eqn:Hf; try done.
  cbn [behind]. intros [= <- <-]. exists rest, w'. by rw Hf.
Qed.

(** Reads a path off the patterns it passed. *)
Ltac read_path :=
  repeat match goal with
  | H : strip (Lit _ :: _) _ = Some _ |- _ => apply strip_lit in H as (? & -> & H)
  | H : strip (Var _ :: _) _ = Some _ |- _ => apply strip_var in H as (? & ? & -> & ? & H)
  | H : strip [] _ = Some _ |- _ => apply strip_nil in H as ->
  end.

Section Registry.
Context `{Router}.

(** The handlers a request for the registry reaches are those [RegistryApi] models for its
    path, and no others. *)
Theorem registry_routes m path h ws :
  route device_management m path = To h ws ↔
  ∃ r, path = "api" :: path_of r ∧ Forall (λ n, n ≠ EmptyString) (names_of r) ∧ handler_of r m = Some h ∧ ws = [Cors; AuthN].
Proof.
  rw route_agree. split.
  - intros (sc & Hsc & Hr)%route_first_in.
    assert (Hws : ∃ p inner, sc = Scope p [Cors; AuthN] inner) by (set_unfold; destruct Hsc as [->|[->|[]]]; eauto).
    destruct Hws as (p0 & inner & ->). apply route_scope_in in Hr as (rest & ws0 & Hp & (s & Hs & Hr)%route_first_in & ->).
    assert (Hres : ∃ p rs, s = Resource p [] rs).
    { set_unfold in Hsc. destruct Hsc as [[= -> ->]|[[= -> ->]|[]]]; set_unfold in Hs; naive_solver. }
    destruct Hres as (p & rs & ->). apply route_resource_in in Hr as (Hrest & Hf & ->). rw app_nil_r.
    set_unfold in Hsc. destruct Hsc as [[= -> ->]|[[= -> ->]|[]]]; set_unfold in Hs.
    + destruct Hs as [[= -> ->]|[[= -> ->]|[[= -> ->]|[[= -> ->]|[]]]]]; read_path.
      * exists RApps. destruct m; naive_solver.
      * eexists (RApp _). destruct m; naive_solver.
      * eexists (RDevices _). destruct m; naive_solver.
      * eexists (RDevice _ _). destruct m; naive_solver.
    + destruct Hs as [[= -> ->]|[[= -> ->]|[[= -> ->]|[]]]]; read_path.
      * eexists (RTransfer _). destruct m; naive_solver.
      * eexists (RAccept _). destruct m; naive_solver.
      * eexists (RMembers _). destruct m; naive_solver.
  - intros (r & -> & Hn & Hh & ->).
    destruct r as [|[|c a]|[|c a]|[|c a] [|c' d]|[|c a]|[|c a]|[|c a]|]; cbn [names_of] in Hn; rewrite ?Forall_cons in Hn;
      try naive_solver; clear Hn; destruct m; try done; injection Hh as <-; by vm_compute.
Qed.

(** *** Three services in one

    The console and the registry both have a scope for the administration.  That of the
    console is registered first and takes all of its paths: members and ownership cannot be
    reached on a server that has both. *)
Theorem composite_shadows_admin m r :
  (∃ a, r = RTransfer a ∨ r = RAccept a ∨ r = RMembers a) → route composite m ("api" :: path_of r) = NotFound.
Proof. intros (a & Hr). rw route_agree. destruct Hr as [->|[->| ->]]; by vm_compute. Qed.

(** All else of the registry is there. *)
Theorem composite_registry m r :
  (∃ a d, r = RApps ∨ r = RApp a ∨ r = RDevices a ∨ r = RDevice a d) →
  route composite m ("api" :: path_of r) = route device_management m ("api" :: path_of r).
Proof. intros (a & d & Hr). rw !route_agree. destruct Hr as [->|[->|[->| ->]]]; by destruct a, d, m; vm_compute. Qed.
End Registry.
End Tables.

(** ** The endpoints that are announced, [service-common/src/endpoints.rs] *)

Module Announced.
(** [service-api/src/endpoints.rs]; an endpoint with a URL is that URL. *)
Record MqttEndpoint := mkMqttEndpoint { me_host : string; me_port : Z }.

Record Endpoints := mkEndpoints {
  e_api : option string;
  e_console : option string;
  e_coap : option string;
  e_http : option string;
  e_mqtt : option MqttEndpoint;
  e_mqtt_ws : option string;
  e_mqtt_ws_browser : option string;
  e_mqtt_integration : option MqttEndpoint;
  e_mqtt_integration_ws : option string;
  e_mqtt_integration_ws_browser : option string;
  e_websocket_integration : option string;
  e_issuer_url : option string;
  e_redirect_url : option string;
  e_registry : option string;
  e_command_url : option string;
  e_local_certs : bool;
  e_kafka_bootstrap_servers : option string;
}.

Definition DEFAULT_REALM : string := "drogue".
Definition mqtts_port : Z := 8883.

(** [EndpointConfig]; [default] is what [serde] makes of an empty environment. *)
Record EndpointConfig := mkEndpointConfig {
  api_url : option string;
  console_url : option string;
  issuer_url : option string;
  sso_url : option string;
  redirect_url : option string;
  coap_endpoint_url : option string;
  http_endpoint_url : option string;
  mqtt_endpoint_host : option string;
  mqtt_endpoint_port : Z;
  mqtt_endpoint_ws_url : option string;
  mqtt_endpoint_ws_browser_url : option string;
  mqtt_integration_host : option string;
  mqtt_integration_port : Z;
  mqtt_integration_ws_url : option string;
  mqtt_integration_ws_browser_url : option string;
  device_registry_url : option string;
  command_endpoint_url : option string;
  kafka_bootstrap_servers : option string;
  websocket_integration_url : option string;
  local_certs : bool;
}.
Definition empty_config : EndpointConfig :=
  mkEndpointConfig None None None None None None None None mqtts_port None None None mqtts_port None None None None None None false.

Definition sso_to_issuer_url (sso realm : string) : string := sso +:+ "/realms/" +:+ realm.

(** [EnvEndpointSource::eval_endpoints] *)
Definition eval_endpoints (c : EndpointConfig) : Endpoints :=
  mkEndpoints (api_url c) (console_url c) (coap_endpoint_url c) (http_endpoint_url c)
    ((λ host, mkMqttEndpoint host (mqtt_endpoint_port c)) <$> mqtt_endpoint_host c)
    (mqtt_endpoint_ws_url c) (mqtt_endpoint_ws_browser_url c)
    ((λ host, mkMqttEndpoint host (mqtt_integration_port c)) <$> mqtt_integration_host c)
    (mqtt_integration_ws_url c) (mqtt_integration_ws_browser_url c) (websocket_integration_url c)
    match issuer_url c with
    | Some u => Some u
    | None => (λ sso, sso_to_issuer_url sso DEFAULT_REALM) <$> sso_url c
    end
    (redirect_url c) (device_registry_url c) (command_endpoint_url c) (local_certs c) (kafka_bootstrap_servers c).

(** [create_endpoint_source], given the variable [ENDPOINT_SOURCE] (inner [None]: it is no
    UTF-8), how it is shown, and the configuration the environment has. *)
Definition create_endpoint_source (show : option string → string) (source : option (option string))
    (config : result EndpointConfig string) : result EndpointConfig string :=
  match default (Some "env") source with
  | Some "env" => config
  | other => Err ("Unsupported endpoint source: '" +:+ show other +:+ "'")
  end.

(** The issuer is the one configured, or that of the realm below the SSO server. *)
Theorem issuer_announced c :
  e_issuer_url (eval_endpoints c) = None ↔ issuer_url c = None ∧ sso_url c = None.
Proof. unfold eval_endpoints. simpl. destruct (issuer_url c), (sso_url c); naive_solver. Qed.

Theorem mqtt_announced c h p :
  e_mqtt (eval_endpoints c) = Some (mkMqttEndpoint h p) ↔ mqtt_endpoint_host c = Some h ∧ p = mqtt_endpoint_port c.
Proof. unfold eval_endpoints. simpl. destruct (mqtt_endpoint_host c); naive_solver. Qed.
End Announced.
