(* ===== verification/Server.v ===== *)
(** * The all-in-one server

    [server/src]: all services in one process.  The arguments ([main.rs]), the
    configuration and the endpoints it announces ([config.rs]), the set-up of
    Keycloak ([keycloak.rs]), and which services are started, where and how.
    The command line parser, Keycloak and the services themselves are given. *)

From S2P Require Import Prelude Trace Json Auth Services.
Import Services.Announced.

(** ** Arguments, [main.rs] *)

(** An argument of the command [run]: a flag or a value, and what it goes with. *)
Record Arg := mkArg { a_name : string; a_flag : bool; a_requires : list string; a_conflicts : list string }.

Definition flag (name : string) : Arg := mkArg name true [] [].
Definition value (name : string) : Arg := mkArg name false [] [].

Definition run_args : list Arg :=
  [flag "insecure"; value "bind-address"; flag "enable-all"; flag "enable-api";
   mkArg "enable-console-frontend" true ["ui-dist"] [];
   mkArg "disable-console-frontend" true [] ["enable-console-frontend"; "ui-dist"];
   flag "enable-device-registry"; flag "enable-device-state"; flag "enable-user-authentication-service";
   flag "enable-authentication-service"; flag "enable-coap-endpoint"; flag "enable-http-endpoint";
   flag "enable-mqtt-endpoint"; flag "enable-mqtt-integration"; flag "enable-websocket-integration";
   flag "enable-command-endpoint"; value "server-key"; value "server-cert"; value "database-host"; value "database-port";
   value "database-name"; value "database-user"; value "database-password"; value "keycloak-url"; value "keycloak-realm";
   value "keycloak-user"; value "keycloak-password"; value "drogue-admin-user"; value "drogue-admin-password";
   value "kafka-bootstrap-servers"; value "ui-dist"].

(** [ArgMatches]; the port of the database is a [u16]. *)
Record Matches := mkMatches { m_flags : gset string; m_values : gmap string string; m_database_port : option Z }.

Definition get_flag (name : string) (m : Matches) : bool := bool_decide (name ∈ m_flags m).
Definition get_one (name : string) (m : Matches) : option string := m_values m !! name.
Definition is_given (name : string) (m : Matches) : bool := match get_one name m with Some _ => true | None => false end.
Definition present (a : string) (m : Matches) : bool := get_flag a m || is_given a m.

(** What the parser accepts: with an argument those it requires, and none it conflicts with. *)
Definition parsed (m : Matches) : Prop :=
  Forall (λ a, present (a_name a) m = true →
    Forall (λ r, present r m = true) (a_requires a) ∧ Forall (λ c, present c m = false) (a_conflicts a)) run_args ∧
  get_flag "ui-dist" m = false.

(** The level of the log. *)
Inductive LevelFilter : Type := Off | Warn | Info | Debug | Trace_.
Definition log_level (quiet : bool) (verbose : nat) : LevelFilter :=
  match quiet, verbose with
  | true, _ => Off
  | false, 0%nat => Warn
  | false, 1%nat => Info
  | false, 2%nat => Debug
  | false, _ => Trace_
  end.

(** ** Configuration, [config.rs] *)

Record Endpoint := mkEndpoint { ep_host : string; ep_port : Z }.

#[global] Instance endpoint_eq_dec : EqDecision Endpoint.
Proof. solve_decision. Defined.

Definition endpoint_string (e : Endpoint) : string := ep_host e +:+ ":" +:+ pretty.pretty (ep_port e).

Record Database := mkDatabase { db_endpoint : Endpoint; db_name : string; db_user : string; db_password : string }.
Record KeycloakServer := mkKeycloakServer { kc_url : string; kc_realm : string; kc_user : string; kc_password : string }.

Record ServerConfig := mkServerConfig {
  console : Endpoint;
  frontend : Endpoint;
  mqtt : Endpoint;
  mqtt_ws : Endpoint;
  mqtt_ws_browser : Endpoint;
  http : Endpoint;
  coap : Endpoint;
  mqtt_integration : Endpoint;
  mqtt_integration_ws : Endpoint;
  mqtt_integration_ws_browser : Endpoint;
  websocket_integration : Endpoint;
  command : Endpoint;
  registry : Endpoint;
  device_auth : Endpoint;
  user_auth : Endpoint;
  device_state : Endpoint;
  database : Database;
  admin_user : string;
  admin_password : string;
  keycloak : KeycloakServer;
  bootstrap_servers : string;
  tls_insecure : bool;
}.

Definition with_tls (m : Matches) : bool := is_given "server-cert" m && is_given "server-key" m.

Definition or_else (name dflt : string) (m : Matches) : string := default dflt (get_one name m).

Definition server_config (m : Matches) : ServerConfig :=
  let at_port p := mkEndpoint (or_else "bind-address" "localhost" m) p in
  let tls := with_tls m in
  {| console := at_port 8011%Z;
     frontend := at_port 8010%Z;
     mqtt := at_port (if tls then 8883 else 1883)%Z;
     mqtt_ws := at_port (if tls then 20443 else 20880)%Z;
     mqtt_ws_browser := at_port (if tls then 21443 else 21880)%Z;
     http := at_port 8088%Z;
     coap := at_port (if tls then 5684 else 5683)%Z;
     mqtt_integration := at_port 18883%Z;
     mqtt_integration_ws := at_port 10443%Z;
     mqtt_integration_ws_browser := at_port 11443%Z;
     websocket_integration := at_port 10002%Z;
     command := at_port 10003%Z;
     registry := at_port 10004%Z;
     device_auth := at_port 10005%Z;
     user_auth := at_port 10006%Z;
     device_state := at_port 10007%Z;
     database := mkDatabase (mkEndpoint (or_else "database-host" "localhost" m) (default 5432%Z (m_database_port m)))
       (or_else "database-name" "drogue" m) (or_else "database-user" "admin" m) (or_else "database-password" "admin123456" m);
     admin_user := or_else "drogue-admin-user" "admin" m;
     admin_password := or_else "drogue-admin-password" "admin123456" m;
     keycloak := mkKeycloakServer (or_else "keycloak-url" "http://localhost:8081" m) (or_else "keycloak-realm" "drogue" m)
       (or_else "keycloak-user" "admin" m) (or_else "keycloak-password" "admin123456" m);
     bootstrap_servers := or_else "kafka-bootstrap-servers" "localhost:9092" m;
     tls_insecure := get_flag "insecure" m |}.

(** [scheme://host:port] *)
Definition url_of (scheme : string) (e : Endpoint) : string := scheme +:+ "://" +:+ endpoint_string e.

Definition http_prefix (tls : bool) : string := if tls then "https" else "http".
Definition coap_prefix (tls : bool) : string := if tls then "coaps" else "coap".
Definition mqtt_prefix (tls : bool) : string := if tls then "mqtts" else "mqtt".
Definition ws_prefix (tls : bool) : string := if tls then "wss" else "ws".

(** [endpoints]: what is announced to clients. *)
Definition endpoints (c : ServerConfig) (tls : bool) : Endpoints :=
  let api := url_of "http" (console c) in
  let web e := Some (url_of (http_prefix tls) e) in
  {| e_api := Some api;
     e_console := Some (url_of "http" (frontend c));
     e_coap := Some (url_of "coap" (coap c));
     e_http := web (http c);
     e_mqtt := Some (mkMqttEndpoint (ep_host (mqtt c)) (ep_port (mqtt c)));
     e_mqtt_ws := web (mqtt_ws c);
     e_mqtt_ws_browser := web (mqtt_ws_browser c);
     e_mqtt_integration := Some (mkMqttEndpoint (ep_host (mqtt_integration c)) (ep_port (mqtt_integration c)));
     e_mqtt_integration_ws := web (mqtt_integration_ws c);
     e_mqtt_integration_ws_browser := web (mqtt_integration_ws_browser c);
     e_websocket_integration := Some (url_of (ws_prefix tls) (websocket_integration c));
     e_issuer_url := Some (kc_url (keycloak c) +:+ "/realms/" +:+ kc_realm (keycloak c));
     e_redirect_url := Some (url_of "http" (frontend c));
     e_registry := Some api;
     e_command_url := Some api;
     e_local_certs := false;
     e_kafka_bootstrap_servers := Some (bootstrap_servers c) |}.

(** ** What is started, [main.rs] *)

Inductive ServiceKind : Type :=
| DeviceStateService
| UserAuthService
| AuthenticationService
| ApiServer
| HttpEndpointService
| WebSocketIntegration
| MqttEndpointService
| MqttEndpointWs
| MqttIntegrationService
| MqttIntegrationWs
| CoapEndpointService
| ConsoleFrontend.

#[global] Instance kind_eq_dec : EqDecision ServiceKind.
Proof. solve_decision. Defined.

(** A service: where it listens, whether with TLS, whether client certificates are accepted
    (where the configuration says so), and the consumer group it reads commands with. *)
Record Started := mkStarted {
  sv_kind : ServiceKind;
  sv_bind : Endpoint;
  sv_tls : bool;
  sv_client_certs : option bool;
  sv_group : option string;
}.

(** A service is started at once, which may fail, or a task is spawned that starts services. *)
Inductive Task : Type :=
| Now (s : Started)
| Spawned (l : list Started).

Definition services_of (t : Task) : list Started := match t with Now s => [s] | Spawned l => l end.

Definition enabled (name : string) (m : Matches) : bool := get_flag name m || get_flag "enable-all" m.
Definition if_enabled {A} (b : bool) (l : list A) : list A := if b then l else [].

Definition device_state_task (c : ServerConfig) : Task := Now (mkStarted DeviceStateService (device_state c) false None None).
Definition user_auth_task (c : ServerConfig) : Task := Now (mkStarted UserAuthService (user_auth c) false None None).
Definition authentication_task (c : ServerConfig) : Task := Now (mkStarted AuthenticationService (device_auth c) false None None).
Definition api_task (c : ServerConfig) : Task := Now (mkStarted ApiServer (console c) false None None).
Definition http_task (c : ServerConfig) (tls : bool) : Task :=
  Now (mkStarted HttpEndpointService (http c) tls None (Some "http_endpoint")).
Definition websocket_task (c : ServerConfig) (tls : bool) : Task :=
  Spawned [mkStarted WebSocketIntegration (websocket_integration c) tls None None].

Definition mqtt_endpoints (c : ServerConfig) (m : Matches) : list Started :=
  if_enabled (enabled "enable-mqtt-endpoint" m)
    [mkStarted MqttEndpointService (mqtt c) (with_tls m) (Some true) (Some "mqtt_endpoint");
     mkStarted MqttEndpointWs (mqtt_ws c) (with_tls m) (Some false) (Some "mqtt_endpoint_ws")].

Definition mqtt_integrations (c : ServerConfig) (m : Matches) : list Started :=
  if_enabled (enabled "enable-mqtt-integration" m)
    [mkStarted MqttIntegrationService (mqtt_integration c) (with_tls m) (Some true) None;
     mkStarted MqttIntegrationWs (mqtt_integration_ws c) (with_tls m) (Some false) None].

(** The MQTT services run only if there are both endpoints and integrations. *)
Definition mqtt_task (c : ServerConfig) (m : Matches) : list Task :=
  match mqtt_endpoints c m, mqtt_integrations c m with
  | (_ :: _) as es, (_ :: _) as ins => [Spawned (es ++ ins)]
  | _, _ => []
  end.

Definition coap_task (c : ServerConfig) (tls : bool) : Task :=
  Now (mkStarted CoapEndpointService (coap c) tls (Some true) (Some "coap_endpoint")).

Definition with_frontend (m : Matches) : bool :=
  (get_flag "enable-console-frontend" m || (get_flag "enable-all" m && is_given "ui-dist" m))
  && negb (get_flag "disable-console-frontend" m).

(** The files of the console: [unwrap] of the path. *)
Definition frontend_task (c : ServerConfig) (m : Matches) : option Task :=
  if is_given "ui-dist" m then Some (Spawned [mkStarted ConsoleFrontend (frontend c) false None None]) else None.

(** What is started before the frontend, in order. *)
Definition backend_tasks (c : ServerConfig) (m : Matches) : list Task :=
  let tls := with_tls m in
  if_enabled (enabled "enable-device-state" m) [device_state_task c]
  ++ if_enabled (enabled "enable-user-authentication-service" m) [user_auth_task c]
  ++ if_enabled (enabled "enable-authentication-service" m) [authentication_task c]
  ++ if_enabled (enabled "enable-api" m) [api_task c]
  ++ if_enabled (enabled "enable-http-endpoint" m) [http_task c tls]
  ++ if_enabled (enabled "enable-websocket-integration" m) [websocket_task c tls]
  ++ mqtt_task c m
  ++ if_enabled (enabled "enable-coap-endpoint" m) [coap_task c tls].

(** All tasks, where the path of the console is given if it is needed. *)
Definition tasks (c : ServerConfig) (m : Matches) : list Task :=
  backend_tasks c m ++ if_enabled (with_frontend m) (option_list (frontend_task c m)).

Definition plan (c : ServerConfig) (m : Matches) : list Started := tasks c m ≫= services_of.

(** The services a service calls, by URL. *)
Definition clients (c : ServerConfig) (k : ServiceKind) : list string :=
  let registry_url := url_of "http" (console c) in
  let device_auth_url := url_of "http" (device_auth c) in
  let user_auth_url := url_of "http" (user_auth c) in
  match k with
  | DeviceStateService => [registry_url]
  | UserAuthService | AuthenticationService | ConsoleFrontend => []
  | ApiServer | WebSocketIntegration | MqttIntegrationService | MqttIntegrationWs => [registry_url; user_auth_url]
  | HttpEndpointService | CoapEndpointService => [device_auth_url]
  | MqttEndpointService | MqttEndpointWs => [device_auth_url; url_of "http" (device_state c)]
  end.

(** The URL under which a service is reached. *)
Definition service_scheme (s : Started) : string :=
  match sv_kind s with
  | HttpEndpointService | MqttEndpointWs | MqttIntegrationWs => http_prefix (sv_tls s)
  | WebSocketIntegration => ws_prefix (sv_tls s)
  | CoapEndpointService => coap_prefix (sv_tls s)
  | MqttEndpointService | MqttIntegrationService => mqtt_prefix (sv_tls s)
  | _ => "http"
  end.
Definition service_url (s : Started) : string := url_of (service_scheme s) (sv_bind s).

(** What the server prints, [run]. *)
Definition printed (c : ServerConfig) (tls active : bool) : list (string * string) :=
  [("API", url_of "http" (console c));
   ("Console", if active then url_of "http" (frontend c) else "<not active>");
   ("HTTP", url_of (http_prefix tls) (http c));
   ("MQTT", url_of (mqtt_prefix tls) (mqtt c));
   ("CoAP", url_of (coap_prefix tls) (coap c));
   ("WebSocket", url_of (ws_prefix tls) (websocket_integration c));
   ("MQTT integration", url_of (mqtt_prefix tls) (mqtt_integration c));
   ("Command", url_of "http" (command c))].

(** ** Keycloak, [keycloak.rs] *)

Definition SERVICE_CLIENT_SECRET : string := "a73d4e96-461b-11ec-8d66-d45ddf138840".

(** The fields of the representations that are set. *)
Record ClientRepresentation := mkClient {
  cl_client_id : string;
  cl_implicit_flow : bool;
  cl_standard_flow : bool;
  cl_direct_access_grants : bool;
  cl_service_accounts : bool;
  cl_redirect_uris : option (list string);
  cl_public : bool;
  cl_secret : string;
  cl_audience : string;
}.

Record UserRepresentation := mkUser { us_username : string; us_password : string }.

Definition drogue_client : ClientRepresentation :=
  mkClient "drogue" true true false false (Some ["*"]) true SERVICE_CLIENT_SECRET "drogue".
Definition services_client : ClientRepresentation :=
  mkClient "services" false false false true None false SERVICE_CLIENT_SECRET "services".

Inductive KeycloakError : Type :=
| HttpFailure (status : Z)
| OtherFailure.

Section Run.
Context {KcRole : Type}.

Inductive KcCall : Type :=
| AcquireToken (url user password : string)
| PostRealm (realm : string)
| PostClient (realm : string) (c : ClientRepresentation)
| PostRole (realm name : string)
| GetRole (realm name : string)
| PostComposites (realm role : string) (l : list KcRole)
| PostUser (realm : string) (u : UserRepresentation).

(** What the server does to others: the database, Keycloak, Kafka, its services. *)
Inductive ServerCall : Type :=
| InitMain
| Migrate (url : string)
| Kc (c : KcCall)
| CreateAdmin (bootstrap : string)
| CreateTopic (topic : string)
| Start (t : Task)
| RunMain.

(** What ends the process before it runs: an error or a panic. *)
Inductive ServerError : Type :=
| InitFailed
| MigrationFailed
| KeycloakFailed (e : KeycloakError)
| DefaultRolesFailed
| RolesNotRetrieved
| TopicFailed
| InvalidUrl
| StartFailed (s : Started)
| NoFrontend
| RunFailed.

(** The outside: each answers depending on all calls so far. *)
Record World := mkWorld {
  w_init : list ServerCall → bool;
  w_migrate : list ServerCall → bool;
  w_kc : list ServerCall → KcCall → result unit KeycloakError;
  w_role : list ServerCall → string → string → result KcRole KeycloakError;
  w_topic : list ServerCall → string → bool;
  w_url : string → bool;
  w_start : list ServerCall → Started → bool;
  w_run : list ServerCall → bool;
}.

Context (w : World).

Definition Prog := Traced ServerCall ServerError.

Definition check (e : ServerError) (b : bool) : result unit ServerError := if b then Ok tt else Err e.

Definition do (c : ServerCall) (e : ServerError) (answer : list ServerCall → bool) : Prog unit :=
  call c (λ l, check e (answer l)).

(** [ignore_conflict] *)
Definition ignore_conflict (r : result unit KeycloakError) : result unit KeycloakError :=
  match r with
  | Ok x => Ok x
  | Err (HttpFailure 409) => Ok tt
  | Err e => Err e
  end.

Definition keycloak_result (r : result unit KeycloakError) : result unit ServerError :=
  match r with Ok x => Ok x | Err e => Err (KeycloakFailed e) end.

Definition create (c : KcCall) : Prog unit := call (Kc c) (λ l, keycloak_result (ignore_conflict (w_kc w l c))).

(** The answer to a read is looked at later. *)
Definition get_role (realm name : string) : Prog (result KcRole KeycloakError) :=
  call (Kc (GetRole realm name)) (λ l, Ok (w_role w l realm name)).

Definition default_roles (realm : string) : string := "default-roles-" +:+ realm.

Definition post_default_roles (realm : string) (roles : list KcRole) : Prog unit :=
  let c := PostComposites realm (default_roles realm) roles in
  call (Kc c) (λ l, match w_kc w l c with Ok x => Ok x | Err _ => Err DefaultRolesFailed end).

(** [configure_keycloak] *)
Definition configure_keycloak (c : ServerConfig) : Prog unit :=
  let server := keycloak c in
  let realm := kc_realm server in
  let token := AcquireToken (kc_url server) (kc_user server) (kc_password server) in
  let! _ := call (Kc token) (λ l, keycloak_result (w_kc w l token)) in
  let! _ := create (PostRealm realm) in
  let! _ := create (PostClient realm drogue_client) in
  let! _ := create (PostClient realm services_client) in
  let! _ := create (PostRole realm "drogue-admin") in
  let! _ := create (PostRole realm "drogue-user") in
  let! user_role := get_role realm "drogue-user" in
  let! admin_role := get_role realm "drogue-admin" in
  let! _ := match user_role, admin_role with
    | Ok user_role, Ok admin_role => post_default_roles realm [admin_role; user_role]
    | _, _ => fail RolesNotRetrieved
    end in
  create (PostUser realm (mkUser (admin_user c) (admin_password c))).

(** ** Database and topics, [db.rs], [kafka.rs] *)

Definition database_url (db : Database) : string :=
  "postgres://" +:+ db_user db +:+ ":" +:+ db_password db +:+ "@" +:+ endpoint_string (db_endpoint db) +:+ "/" +:+ db_name db.

Definition run_migrations (db : Database) : Prog unit := do (Migrate (database_url db)) MigrationFailed (w_migrate w).

Fixpoint create_each (topics : list string) : Prog unit :=
  match topics with
  | [] => ret tt
  | t :: topics =>
      let! _ := do (CreateTopic t) TopicFailed (λ l, w_topic w l t) in
      create_each topics
  end.

(** [create_topics] *)
Definition create_topics (bootstrap : string) (topics : list string) : Prog unit :=
  let! _ := do (CreateAdmin bootstrap) TopicFailed (λ l, w_topic w l bootstrap) in
  create_each topics.

(** ** [cmd_run] *)

(** The URLs the configurations of the clients are made of. *)
Definition client_urls (c : ServerConfig) (tls : bool) : list string :=
  option_list (e_issuer_url (endpoints c tls)) ++ [kc_url (keycloak c)] ++ option_list (e_registry (endpoints c tls))
  ++ [url_of "http" (device_auth c); url_of "http" (user_auth c); url_of "http" (device_state c)].

(** Starting a service is a step that can fail; a spawned task fails, if at all, later. *)
Definition start_task (t : Task) : Prog unit :=
  match t with
  | Now s => do (Start t) (StartFailed s) (λ l, w_start w l s)
  | Spawned _ => call (Start t) (λ _, Ok tt)
  end.

Fixpoint start_all (l : list Task) : Prog unit :=
  match l with
  | [] => ret tt
  | t :: l => let! _ := start_task t in start_all l
  end.

(** [run]: nothing to run ends the program, successfully. *)
Definition run (started : list Task) : Prog unit :=
  match started with
  | [] => ret tt
  | _ => do RunMain RunFailed (w_run w)
  end.

Definition frontend_tasks (c : ServerConfig) (m : Matches) : result (list Task) ServerError :=
  if with_frontend m then
    match frontend_task c m with Some t => Ok [t] | None => Err NoFrontend end
  else Ok [].

(** The outer systems are made ready... *)
Definition prepare (m : Matches) : Prog unit :=
  let c := server_config m in
  let! _ := do InitMain InitFailed (w_init w) in
  let! _ := run_migrations (database c) in
  let! _ := configure_keycloak c in
  let! _ := create_topics (bootstrap_servers c) ["iot-commands"] in
  from_result (check InvalidUrl (forallb (w_url w) (client_urls c (with_tls m)))).

(** ... then the services are started. *)
Definition launch (m : Matches) : Prog unit :=
  let c := server_config m in
  let! _ := start_all (backend_tasks c m) in
  let! f := from_result (frontend_tasks c m) in
  let! _ := start_all f in
  run (backend_tasks c m ++ f).

Definition cmd_run (m : Matches) : Prog unit := let! _ := prepare m in launch m.

(** [main]: the status the process exits with; a panic is 101. *)
Definition main (sub : option Matches) : list ServerCall * Z :=
  match sub with
  | Some m => match cmd_run m [] with (l, Ok _) => (l, 0%Z) | (l, Err _) => (l, 101%Z) end
  | None => ([], 1%Z)
  end.

(** ** Starting *)

Definition is_start (c : ServerCall) : Prop := match c with Start _ | RunMain => True | _ => False end.

Lemma create_calls (P : ServerCall → Prop) c : P (Kc c) → calls_only P (λ _, True) (create c).
Proof. intros Hc. by apply calls_only_call. Qed.

Lemma do_calls (P : ServerCall → Prop) c e answer : P c → calls_only P (λ _, True) (do c e answer).
Proof. intros Hc. by apply calls_only_call. Qed.

Lemma create_each_calls (P : ServerCall → Prop) topics :
  (∀ t, P (CreateTopic t)) → calls_only P (λ _, True) (create_each topics).
Proof.
  intros Hp. induction topics as [|t topics IH]; [apply calls_only_ret|].
  apply calls_only_bind; [by apply do_calls|done].
Qed.

Lemma configure_calls (P : ServerCall → Prop) c : (∀ k, P (Kc k)) → calls_only P (λ _, True) (configure_keycloak c).
Proof.
  intros Hp. unfold configure_keycloak, get_role, post_default_roles.
  repeat (first [apply calls_only_bind; [|intros ?] | apply create_calls; done | apply calls_only_call; done]).
  destruct a5 as [u|e]; [|by apply calls_only_fail]. destruct a6 as [a'|e]; [|by apply calls_only_fail].
  by apply calls_only_call.
Qed.

Lemma prepare_calls m : calls_only (λ c, ¬ is_start c) (λ _, True) (prepare m).
Proof.
  unfold prepare, run_migrations, create_topics.
  repeat (first [apply configure_calls; by cbn; tauto | apply create_each_calls; by cbn; tauto | apply do_calls; by cbn; tauto
                 | apply calls_only_bind; [|intros ?]]).
  by apply calls_only_result.
Qed.

Lemma start_all_calls l : calls_only (λ c, ∃ t, c = Start t ∧ t ∈ l) (λ _, True) (start_all l).
Proof.
  assert (∀ l', l' ⊆ l → calls_only (λ c, ∃ t, c = Start t ∧ t ∈ l) (λ _, True) (start_all l')) as H; [|by apply H].
  induction l' as [|t l' IH]; intros Hl; [apply calls_only_ret|].
  assert (t ∈ l) as Ht by set_solver. assert (l' ⊆ l) as Hl' by set_solver.
  apply calls_only_bind; [|by intros; apply IH].
  destruct t; apply calls_only_call; naive_solver.
Qed.

Lemma run_calls (P : ServerCall → Prop) started : P RunMain → calls_only P (λ _, True) (run started).
Proof. intros Hp. destruct started; [apply calls_only_ret|by apply do_calls]. Qed.

Lemma frontend_tasks_in c m f : frontend_tasks c m = Ok f → f = if_enabled (with_frontend m) (option_list (frontend_task c m)).
Proof. unfold frontend_tasks. destruct (with_frontend m); [|naive_solver]. destruct (frontend_task c m); naive_solver. Qed.

Definition planned (m : Matches) (c : ServerCall) : Prop :=
  match c with Start t => t ∈ tasks (server_config m) m | RunMain => True | _ => False end.

Lemma calls_only_mono {A} (P P' : ServerCall → Prop) (Q : ServerError → Prop) (p : Prog A) :
  (∀ c, P c → P' c) → calls_only P Q p → calls_only P' Q p.
Proof. intros Hp H l. destruct (H l) as [(news & -> & Hn) He]. split; [|done]. exists news. split; [done|]. by eapply Forall_impl. Qed.

Lemma launch_calls m : calls_only (planned m) (λ _, True) (launch m).
Proof.
  unfold launch. apply calls_only_bind; [|intros _].
  { eapply calls_only_mono; [|apply start_all_calls]. intros ? (t & -> & Ht). apply elem_of_app. by left. }
  unfold bind at 1. unfold from_result. destruct (frontend_tasks _ _) as [f|e] eqn:Hf; [|apply calls_only_fail; done].
  apply frontend_tasks_in in Hf. apply calls_only_bind; [|intros _; by apply run_calls].
  eapply calls_only_mono; [|apply start_all_calls]. intros ? (t & -> & Ht). apply elem_of_app. right. by rw -Hf.
Qed.

(** A service is started only when the schema is migrated, Keycloak is set up, the topic of the commands
    is created and the configuration is in order; then only the services that are enabled are started. *)
Theorem started_after_setup m l t : (cmd_run m []).1 = l → Start t ∈ l →
  ∃ l1 l2, prepare m [] = (l1, Ok tt) ∧ l = l1 ++ l2 ∧ Forall (λ c, ¬ is_start c) l1 ∧ Forall (planned m) l2.
Proof.
  intros <- Ht. unfold cmd_run, bind in *. destruct (prepare_calls m []) as [(l1 & Hl1 & Hn1) _].
  destruct (prepare m []) as [l' [[]|e]] eqn:Hp; simpl in Hl1; subst l'.
  - destruct (launch_calls m l1) as [(l2 & Hl2 & Hn2) _]. rw Hl2. by exists l1, l2.
  - simpl in Ht. rewrite Forall_forall in Hn1. by destruct (Hn1 _ Ht).
Qed.

Lemma start_all_ok l : ∀ h h', start_all l h = (h', Ok tt) → h' = h ++ (Start <$> l).
Proof.
  induction l as [|t l IH]; intros h h'; [intros [= ->]; symmetry; apply app_nil_r|].
  intros (h1 & [] & H1 & H2)%bind_ok. apply IH in H2 as ->. rw fmap_cons cons_middle app_assoc. f_equal.
  destruct t; by apply call_ok in H1 as [-> _].
Qed.

Lemma launch_ok m h h' : launch m h = (h', Ok tt) →
  h' = h ++ (Start <$> tasks (server_config m) m) ++ (if tasks (server_config m) m is [] then [] else [RunMain]).
Proof.
  intros (h1 & [] & ->%start_all_ok & (? & f & [-> Hf]%from_result_ok & (h2 & [] & ->%start_all_ok & Hr)%bind_ok)%bind_ok)%bind_ok.
  apply frontend_tasks_in in Hf. subst f. fold (tasks (server_config m) m) in Hr. revert Hr.
  rw -(app_assoc h) -fmap_app. fold (tasks (server_config m) m). unfold run.
  destruct (tasks _ m); [by intros [= <-]|]. by intros [-> _]%call_ok; rw -app_assoc.
Qed.

(** A start that succeeds has started the enabled services, each once and in order, and then runs
    unless there is none. *)
Theorem all_started m l : cmd_run m [] = (l, Ok tt) →
  ∃ l1, prepare m [] = (l1, Ok tt) ∧
    l = l1 ++ (Start <$> tasks (server_config m) m) ++ (if tasks (server_config m) m is [] then [] else [RunMain]).
Proof. intros (l1 & [] & Hp & Hl%launch_ok)%bind_ok. by exists l1. Qed.

Lemma parsed_requires m a : parsed m → a ∈ run_args → present (a_name a) m = true →
  Forall (λ r, present r m = true) (a_requires a).
Proof. intros [Hp _] Ha Hm. rewrite Forall_forall in Hp. by apply Hp. Qed.

Lemma parsed_ui m : parsed m → with_frontend m = true → is_given "ui-dist" m = true.
Proof.
  intros Hp [[Hf|[_ Hi]%andb_true_iff]%orb_true_iff _]%andb_true_iff; [|done].
  assert (present "enable-console-frontend" m = true) as He by (unfold present; by rw Hf).
  pose proof (parsed_requires m (mkArg "enable-console-frontend" true ["ui-dist"] []) Hp ltac:(set_solver) He) as Hr.
  inversion Hr as [|? ? Hu _]; subst. destruct Hp as [_ Hu']. unfold present in Hu. by rw Hu' in Hu.
Qed.

(** The arguments the parser accepts never lead to the panic on the missing path of the console. *)
Theorem frontend_has_files m h : parsed m → (launch m h).2 ≠ Err NoFrontend.
Proof.
  intros Hp. unfold launch. assert (∀ l h, (start_all l h).2 ≠ Err NoFrontend) as Hs.
  { induction l as [|[s|ts] l IH]; intros h'; [done| |]; cbn [start_all start_task].
    - unfold bind, do, call, check. destruct (w_start _ _ _); [apply IH|done].
    - unfold bind, call. apply IH. }
  unfold bind at 1. pose proof (Hs (backend_tasks (server_config m) m) h).
  destruct (start_all _ h) as [h1 [[]|e]]; [|naive_solver].
  unfold bind at 1. unfold from_result, frontend_tasks, frontend_task.
  destruct (with_frontend m) eqn:Hw; [rw (parsed_ui m Hp Hw)|];
    (unfold bind; match goal with |- context [start_all ?l ?x] => pose proof (Hs l x); destruct (start_all l x) as [h2 [[]|e]] end;
     [|naive_solver]; unfold run; destruct (_ ++ _); [done|]; unfold do, call, check; by destruct (w_run _ _)).
Qed.

(** ** The set-up of Keycloak *)

(** The calls of a set-up that succeeds, with the roles Keycloak answered. *)
Definition kc_script (c : ServerConfig) (admin_role user_role : KcRole) : list KcCall :=
  let server := keycloak c in
  let realm := kc_realm server in
  [AcquireToken (kc_url server) (kc_user server) (kc_password server); PostRealm realm; PostClient realm drogue_client;
   PostClient realm services_client; PostRole realm "drogue-admin"; PostRole realm "drogue-user";
   GetRole realm "drogue-user"; GetRole realm "drogue-admin";
   PostComposites realm (default_roles realm) [admin_role; user_role];
   PostUser realm (mkUser (admin_user c) (admin_password c))].

(** A call that is answered so that the set-up goes on. *)
Definition accepted (h : list ServerCall) (k : KcCall) (admin_role user_role : KcRole) : Prop :=
  match k with
  | AcquireToken _ _ _ | PostComposites _ _ _ => w_kc w h k = Ok tt
  | GetRole realm name => w_role w h realm name = Ok (if string_eqb name "drogue-user" then user_role else admin_role)
  | _ => ignore_conflict (w_kc w h k) = Ok tt
  end.

Fixpoint all_accepted (h : list ServerCall) (l : list KcCall) (a u : KcRole) : Prop :=
  match l with
  | [] => True
  | k :: l => accepted h k a u ∧ all_accepted (h ++ [Kc k]) l a u
  end.

Lemma create_iff k h h' x : create k h = (h', Ok x) ↔ h' = h ++ [Kc k] ∧ ignore_conflict (w_kc w h k) = Ok tt.
Proof. unfold create, call, keycloak_result. destruct x. destruct (ignore_conflict _) as [[]|]; naive_solver. Qed.

(** The steps of a computation that succeeds, and of one whose calls are answered well. *)
Ltac taken Hm lem := let x := fresh "x" in apply bind_ok in Hm as (? & x & [-> ?]%lem & Hm).

Lemma configure_ok c h h' : configure_keycloak c h = (h', Ok tt) →
  ∃ a u, h' = h ++ (Kc <$> kc_script c a u) ∧ all_accepted h (kc_script c a u) a u.
Proof.
  unfold configure_keycloak, get_role, post_default_roles. intros Hm. taken Hm @call_ok.
  do 5 taken Hm create_iff. do 2 taken Hm @call_ok.
  destruct x5 as [u|], x6 as [a|]; try (by apply bind_ok in Hm as (? & ? & ? & ?)). simplify_eq.
  taken Hm @call_ok. apply create_iff in Hm as [-> Hm].
  exists a, u. rw -!app_assoc. split; [done|]. cbn [kc_script all_accepted accepted].
  unfold keycloak_result in *. repeat match goal with H : context [match w_kc ?w ?h ?k with _ => _ end] |- _ =>
    destruct (w_kc w h k) as [[]|] eqn:?; [clear H|done] end.
  naive_solver.
Qed.

(** Reading the trace back: a set-up whose calls are answered well succeeds. *)
Lemma configure_run c h a u : all_accepted h (kc_script c a u) a u →
  configure_keycloak c h = (h ++ (Kc <$> kc_script c a u), Ok tt).
Proof.
  cbn [kc_script all_accepted accepted]. intros (H1 & H2 & H3 & H4 & H5 & H6 & Hu & Ha & Hc & H7 & _).
  unfold configure_keycloak, get_role, post_default_roles, create, bind, call.
  rw H1. cbn [keycloak_result]. rw H2 H3 H4 H5 H6. cbn [keycloak_result]. simpl in Hu, Ha. rw Hu Ha Hc H7.
  cbn [keycloak_result]. by rw -!app_assoc.
Qed.

(** Keycloak keeps what was created: what was accepted once is accepted again (a conflict is reported
    for what exists), and a role read again is the same. *)
Class Persistent := {
  kc_again h1 h2 k : w_kc w h1 k = Ok tt → (match k with AcquireToken _ _ _ | PostComposites _ _ _ => True | _ => False end) →
    w_kc w (h1 ++ Kc k :: h2) k = Ok tt;
  kc_exists h1 h2 k : w_kc w h1 k = Ok tt ∨ w_kc w h1 k = Err (HttpFailure 409) →
    (match k with AcquireToken _ _ _ | PostComposites _ _ _ => False | _ => True end) →
    w_kc w (h1 ++ Kc k :: h2) k = Err (HttpFailure 409);
  kc_role_kept h1 h2 realm name r : w_role w h1 realm name = Ok r → w_role w (h1 ++ Kc (GetRole realm name) :: h2) realm name = Ok r;
}.

Lemma ignore_conflict_ok r : ignore_conflict r = Ok tt ↔ r = Ok tt ∨ r = Err (HttpFailure 409).
Proof.
  destruct r as [[]|[status|]]; cbn; [naive_solver| |naive_solver].
  destruct (decide (status = 409)%Z) as [->|Hn]; [naive_solver|]. split; [|naive_solver].
  intros H. exfalso. destruct status as [|q|q]; try done. repeat (destruct q as [q|q|]; try done).
Qed.

Lemma accepted_again `{!Persistent} h1 h2 k a u : accepted h1 k a u → accepted (h1 ++ Kc k :: h2) k a u.
Proof.
  destruct k; cbn [accepted]; try (rw !ignore_conflict_ok; intros Hr; right; by apply kc_exists).
  - intros Hr. by apply kc_again.
  - apply kc_role_kept.
  - intros Hr. by apply kc_again.
Qed.

Lemma all_accepted_again `{!Persistent} l a u : ∀ h1 h2 h3, all_accepted h1 l a u →
  (∃ h, h2 = h1 ++ (Kc <$> l) ++ h) → all_accepted (h2 ++ h3) l a u.
Proof.
  induction l as [|k l IH]; intros h1 h2 h3; [done|]. cbn [all_accepted]. intros [Hk Hl] [h ->]. split.
  - rw -app_assoc. by apply accepted_again.
  - rw -app_assoc. apply (IH (h1 ++ [Kc k])); [done|]. exists h. by rw -app_assoc.
Qed.

(** A server that is restarted finds everything in place: the set-up of Keycloak that succeeded once
    succeeds again, with the same calls, whatever happened in between. *)
Theorem restart_configures `{!Persistent} c h h1 h2 : configure_keycloak c h = (h1, Ok tt) →
  ∃ l, h1 = h ++ l ∧ configure_keycloak c (h1 ++ h2) = (h1 ++ h2 ++ l, Ok tt).
Proof.
  intros (a & u & -> & Hl)%configure_ok. eexists. split; [done|]. rw app_assoc. apply configure_run.
  eapply all_accepted_again; [done|]. exists []. by rw app_nil_r.
Qed.

(** The set-up makes the role of the administrator one of the default roles of the realm, so a user
    whose token carries the default roles may do everything, with any application. *)
Theorem default_roles_administer {R} `{Auth.Resource R} c h h' d (resource : R) p : configure_keycloak c h = (h', Ok tt) →
  "drogue-admin" ∈ Auth.ud_roles d →
  (∃ h1 a roles, w_role w h1 (kc_realm (keycloak c)) "drogue-admin" = Ok a ∧ a ∈ roles ∧
    Kc (PostComposites (kc_realm (keycloak c)) (default_roles (kc_realm (keycloak c))) roles) ∈ h') ∧
  Auth.authorize resource (Auth.Authenticated d) p = Auth.Allow.
Proof.
  intros (a & u & -> & Hl)%configure_ok Hd. split.
  - cbn [kc_script all_accepted accepted] in Hl. destruct Hl as (_ & _ & _ & _ & _ & _ & _ & Ha & _).
    eexists _, a, [a; u]. split; [exact Ha|]. split; [set_solver|]. apply elem_of_app. right.
    apply list_elem_of_fmap. eexists. split; [done|]. unfold kc_script. set_solver.
  - apply Auth.authorize_spec. left. cbn. unfold Auth.is_admin_details. apply existsb_exists.
    exists "drogue-admin". split; [by apply list_elem_of_In|done].
Qed.

End Run.
Arguments KcCall : clear implicits.
Arguments ServerCall : clear implicits.
Arguments World : clear implicits.

(** ** Ports, groups and addresses *)

Lemma if_enabled_sublist {A} b (l : list A) : if_enabled b l `sublist_of` l.
Proof. destruct b; [done|apply sublist_nil_l]. Qed.

(** Everything that can be started. *)
Definition everything (c : ServerConfig) (tls : bool) : list Started :=
  [mkStarted DeviceStateService (device_state c) false None None; mkStarted UserAuthService (user_auth c) false None None;
   mkStarted AuthenticationService (device_auth c) false None None; mkStarted ApiServer (console c) false None None;
   mkStarted HttpEndpointService (http c) tls None (Some "http_endpoint");
   mkStarted WebSocketIntegration (websocket_integration c) tls None None;
   mkStarted MqttEndpointService (mqtt c) tls (Some true) (Some "mqtt_endpoint");
   mkStarted MqttEndpointWs (mqtt_ws c) tls (Some false) (Some "mqtt_endpoint_ws");
   mkStarted MqttIntegrationService (mqtt_integration c) tls (Some true) None;
   mkStarted MqttIntegrationWs (mqtt_integration_ws c) tls (Some false) None;
   mkStarted CoapEndpointService (coap c) tls (Some true) (Some "coap_endpoint");
   mkStarted ConsoleFrontend (frontend c) false None None].

Lemma mqtt_task_services c m : (mqtt_task c m ≫= services_of) =
  if_enabled (enabled "enable-mqtt-endpoint" m && enabled "enable-mqtt-integration" m)
    (mqtt_endpoints c m ++ mqtt_integrations c m).
Proof.
  unfold mqtt_task, mqtt_endpoints, mqtt_integrations.
  by destruct (enabled "enable-mqtt-endpoint" m), (enabled "enable-mqtt-integration" m).
Qed.

Lemma if_enabled_services b (l : list Task) : (if_enabled b l ≫= services_of) = if_enabled b (l ≫= services_of).
Proof. by destruct b. Qed.

Lemma plan_sublist c m : plan c m `sublist_of` everything c (with_tls m).
Proof.
  unfold plan, tasks, backend_tasks. rw !bind_app !if_enabled_services mqtt_task_services -!app_assoc.
  unfold everything.
  do 6 (match goal with |- _ `sublist_of` ?x :: ?l => apply (sublist_app _ [x] _ l) end; [apply if_enabled_sublist|]).
  match goal with |- _ `sublist_of` ?a :: ?b :: ?x :: ?y :: ?l => apply (sublist_app _ [a; b; x; y] _ l) end.
  { unfold mqtt_endpoints, mqtt_integrations.
    by destruct (enabled "enable-mqtt-endpoint" m), (enabled "enable-mqtt-integration" m); try apply sublist_nil_l. }
  match goal with |- _ `sublist_of` ?x :: ?l => apply (sublist_app _ [x] _ l) end; [apply if_enabled_sublist|].
  unfold frontend_task. destruct (is_given "ui-dist" m); [apply if_enabled_sublist|].
  destruct (with_frontend m); apply sublist_nil_l.
Qed.

Lemma everything_ports m : NoDup (sv_bind <$> everything (server_config m) (with_tls m)).
Proof.
  apply (NoDup_fmap_1 ep_port). rw -list_fmap_compose. unfold everything, server_config. cbn.
  destruct (with_tls m); by_decide.
Qed.

Lemma omap_Some_fmap {A B} (f : A → B) (l : list A) : omap (Some ∘ f) l = f <$> l.
Proof. induction l as [|x l IH]; [done|]. cbn. by f_equal. Qed.

Lemma omap_sublist {A B} (f : A → option B) (l1 l2 : list A) : l1 `sublist_of` l2 → omap f l1 `sublist_of` omap f l2.
Proof.
  induction 1 as [|x l1 l2 H IH|x l1 l2 H IH]; cbn; [done| |]; destruct (f x); try done;
    [by apply sublist_skip|by apply sublist_cons].
Qed.

(** Whatever is enabled, no two services listen on the same address. *)
Theorem addresses_distinct m : NoDup (sv_bind <$> plan (server_config m) m).
Proof. eapply sublist_NoDup; [apply everything_ports|]. rw -!omap_Some_fmap. apply omap_sublist, plan_sublist. Qed.

(** Two services never share a consumer group, so each sees every command. *)
Theorem groups_distinct m : NoDup (omap sv_group (plan (server_config m) m)).
Proof.
  eapply (sublist_NoDup _ (omap sv_group (everything (server_config m) (with_tls m)))); [cbn; by_decide|].
  apply omap_sublist, plan_sublist.
Qed.

Lemma enabled_all name m : get_flag "enable-all" m = true → enabled name m = true.
Proof. intros H. unfold enabled. by rw H orb_true_r. Qed.

(** With everything enabled, all but the console is there. *)
Lemma plan_all c m : get_flag "enable-all" m = true →
  plan c m = take 11 (everything c (with_tls m))
             ++ if_enabled (with_frontend m && is_given "ui-dist" m) [mkStarted ConsoleFrontend (frontend c) false None None].
Proof.
  intros H. unfold plan, tasks, backend_tasks, mqtt_task, mqtt_endpoints, mqtt_integrations. rw !enabled_all //.
  rw bind_app. unfold frontend_task. by destruct (with_frontend m), (is_given "ui-dist" m).
Qed.

Lemma elem_of_take_le {A} n k (l : list A) x : n ≤ k → x ∈ take n l → x ∈ take k l.
Proof. intros Hn H. apply (subseteq_take n). rw take_take. by replace (n `min` k)%nat with n by lia. Qed.

(** With everything enabled, every service finds those it calls: at the URL it is configured with
    a service listens, without TLS. *)
Theorem services_wired m s url : get_flag "enable-all" m = true →
  s ∈ plan (server_config m) m → url ∈ clients (server_config m) (sv_kind s) →
  ∃ s', s' ∈ plan (server_config m) m ∧ sv_tls s' = false ∧ service_url s' = url.
Proof.
  intros Hall _ Hu. rw (plan_all _ _ Hall).
  assert (∃ s', s' ∈ take 4 (everything (server_config m) (with_tls m)) ∧ sv_tls s' = false ∧ service_url s' = url) as (s' & Hs & H).
  { set (c := server_config m) in *.
    assert (url ∈ url_of "http" <$> [device_state c; user_auth c; device_auth c; console c]) as Hc
      by (destruct (sv_kind s); cbn in Hu |- *; set_solver).
    apply list_elem_of_fmap in Hc as (e & -> & He). repeat (apply elem_of_cons in He as [->|He]); [..|by apply not_elem_of_nil in He].
    1: exists (mkStarted DeviceStateService (device_state c) false None None).
    2: exists (mkStarted UserAuthService (user_auth c) false None None).
    3: exists (mkStarted AuthenticationService (device_auth c) false None None).
    4: exists (mkStarted ApiServer (console c) false None None).
    all: split; [|done].
    - by apply (list_elem_of_lookup_2 _ 0).
    - by apply (list_elem_of_lookup_2 _ 1).
    - by apply (list_elem_of_lookup_2 _ 2).
    - by apply (list_elem_of_lookup_2 _ 3). }
  exists s'. split; [|done]. apply elem_of_app. left. apply (elem_of_take_le 4); [lia|done].
Qed.

Lemma url_of_inj scheme scheme' h p p' : scheme ∈ ["http"; "https"; "ws"; "wss"; "coap"; "coaps"; "mqtt"; "mqtts"] →
  scheme' ∈ ["http"; "https"; "ws"; "wss"; "coap"; "coaps"; "mqtt"; "mqtts"] →
  url_of scheme (mkEndpoint h p) = url_of scheme' (mkEndpoint h p') → scheme = scheme' ∧ p = p'.
Proof.
  intros Hs Hs' H. unfold url_of, endpoint_string in H. cbn [ep_host ep_port] in H.
  repeat (apply elem_of_cons in Hs as [->|Hs]); try (by apply not_elem_of_nil in Hs);
    repeat (apply elem_of_cons in Hs' as [->|Hs']); try (by apply not_elem_of_nil in Hs');
    cbn [String.append] in H; try discriminate H; (split; [done|]); injection H as H;
    apply (inj (String.append h)) in H; injection H as H;
    by apply (inj (String.append "")), (inj pretty.pretty) in H.
Qed.

(** A URL at which something started listens. *)
Definition served (m : Matches) (url : option string) : Prop :=
  ∃ s, s ∈ plan (server_config m) m ∧ Some (service_url s) = url.

Definition known_schemes : list string := ["http"; "https"; "ws"; "wss"; "coap"; "coaps"; "mqtt"; "mqtts"].

Definition address (s : Started) : string * Z := (service_scheme s, ep_port (sv_bind s)).

Lemma scheme_known s : service_scheme s ∈ known_schemes.
Proof. destruct s as [[] ? [] ? ?]; cbn; set_solver. Qed.

Lemma everything_host m s : s ∈ everything (server_config m) (with_tls m) →
  sv_bind s = mkEndpoint (or_else "bind-address" "localhost" m) (ep_port (sv_bind s)).
Proof.
  intros Hs. unfold everything, server_config in Hs. cbn in Hs.
  repeat (apply elem_of_cons in Hs as [->|Hs]); try done. by apply not_elem_of_nil in Hs.
Qed.

Lemma served_address m scheme p : scheme ∈ known_schemes →
  served m (Some (url_of scheme (mkEndpoint (or_else "bind-address" "localhost" m) p))) →
  (scheme, p) ∈ address <$> everything (server_config m) (with_tls m).
Proof.
  intros Hk (s & Hp & Hu). apply (inj Some) in Hu.
  assert (s ∈ everything (server_config m) (with_tls m)) as He by (by eapply elem_of_sublist, plan_sublist).
  apply list_elem_of_fmap. exists s. split; [|done]. unfold service_url in Hu. rw (everything_host m s He) in Hu.
  apply url_of_inj in Hu as [H1 H2]; [|apply scheme_known|done]. unfold address. by rw H1 H2.
Qed.

Lemma served_all m i s : get_flag "enable-all" m = true → take 11 (everything (server_config m) (with_tls m)) !! i = Some s →
  served m (Some (service_url s)).
Proof. intros Hall Hs. exists s. split; [|done]. rw (plan_all _ _ Hall). apply elem_of_app. left. by eapply list_elem_of_lookup_2. Qed.

(** With everything enabled, what is announced to clients is served there and under the announced scheme,
    except: the console unless it is given its files, CoAP when TLS is on, and the addresses for MQTT
    over websockets from a browser, where nothing listens. *)
Theorem announced_served m : get_flag "enable-all" m = true →
  let e := endpoints (server_config m) (with_tls m) in
  served m (e_api e) ∧ served m (e_registry e) ∧ served m (e_command_url e) ∧ served m (e_http e) ∧
  served m (e_mqtt_ws e) ∧ served m (e_mqtt_integration_ws e) ∧ served m (e_websocket_integration e) ∧
  (served m (e_coap e) ↔ with_tls m = false) ∧
  ¬ served m (e_mqtt_ws_browser e) ∧ ¬ served m (e_mqtt_integration_ws_browser e).
Proof.
  intros Hall e. subst e. set (c := server_config m). set (tls := with_tls m).
  assert (served m (Some (url_of "http" (console c)))) as Ha by exact (served_all m 3 _ Hall eq_refl).
  pose proof (served_all m 10 _ Hall eq_refl : served m (Some (url_of (coap_prefix tls) (coap c)))) as Hc.
  split_and!; [exact Ha..|exact (served_all m 4 _ Hall eq_refl)|exact (served_all m 7 _ Hall eq_refl)
    |exact (served_all m 9 _ Hall eq_refl)|exact (served_all m 5 _ Hall eq_refl)| | |].
  - split; [|by intros Ht; rw Ht in Hc].
    intros H. apply served_address in H; [|by_decide]. revert H. unfold tls. cbn. destruct (with_tls m); [|done]. by_decide.
  - intros H. apply served_address in H; [|destruct tls; by_decide]. revert H. unfold tls. cbn. destruct (with_tls m); by_decide.
  - intros H. apply served_address in H; [|destruct tls; by_decide]. revert H. unfold tls. cbn. destruct (with_tls m); by_decide.
Qed.

(** The address printed for commands is served by nothing: they are sent through the API. *)
Theorem command_not_served m : ¬ served m (Some (url_of "http" (command (server_config m)))).
Proof. intros H. apply served_address in H; [|by_decide]. revert H. cbn. destruct (with_tls m); by_decide. Qed.

Definition is_mqtt (k : ServiceKind) : bool :=
  match k with MqttEndpointService | MqttEndpointWs | MqttIntegrationService | MqttIntegrationWs => true | _ => false end.

(** The MQTT services come all or not at all: one asked for without the other is not started. *)
Theorem mqtt_needs_both m s : s ∈ plan (server_config m) m → is_mqtt (sv_kind s) = true →
  enabled "enable-mqtt-endpoint" m = true ∧ enabled "enable-mqtt-integration" m = true.
Proof.
  unfold plan, tasks, backend_tasks. rw !bind_app !if_enabled_services mqtt_task_services.
  assert (∀ b t, existsb (λ s, is_mqtt (sv_kind s)) (services_of t) = false →
    s ∈ if_enabled b ([t] ≫= services_of) → is_mqtt (sv_kind s) = true → False) as Hno.
  { intros b t Hf Hs Hk. destruct b; [|by apply not_elem_of_nil in Hs]. cbn in Hs. rw app_nil_r in Hs.
    apply not_true_iff_false in Hf. apply Hf, existsb_exists. exists s. split; [by apply list_elem_of_In|done]. }
  intros Hs Hk. repeat (apply elem_of_app in Hs as [Hs|Hs]); try (exfalso; by eapply Hno; [| |exact Hk]; [|exact Hs]).
  - destruct (enabled "enable-mqtt-endpoint" m); [|by apply not_elem_of_nil in Hs].
    destruct (enabled "enable-mqtt-integration" m); [done|by apply not_elem_of_nil in Hs].
  - unfold frontend_task in Hs. destruct (with_frontend m), (is_given "ui-dist" m); try (by apply not_elem_of_nil in Hs).
    apply list_elem_of_singleton in Hs as ->. done.
Qed.

(** ** A run *)

Module Examples.
(** A world where everything works, and Keycloak keeps what it is told. *)
#[global] Instance client_eq_dec : EqDecision ClientRepresentation.
Proof. solve_decision. Defined.
#[global] Instance user_eq_dec : EqDecision UserRepresentation.
Proof. solve_decision. Defined.
#[global] Instance started_eq_dec : EqDecision Started.
Proof. solve_decision. Defined.
#[global] Instance task_eq_dec : EqDecision Task.
Proof. solve_decision. Defined.
#[global] Instance kc_call_eq_dec : EqDecision (KcCall string).
Proof. solve_decision. Defined.
#[global] Instance server_call_eq_dec : EqDecision (ServerCall string).
Proof. solve_decision. Defined.

Definition keycloak_answer (h : list (ServerCall string)) (k : KcCall string) : result unit KeycloakError :=
  match k with
  | AcquireToken _ _ _ | PostComposites _ _ _ => Ok tt
  | _ => if bool_decide (Kc k ∈ h) then Err (HttpFailure 409) else Ok tt
  end.

Definition works : World string :=
  mkWorld (λ _, true) (λ _, true) keycloak_answer (λ _ _ name, Ok name) (λ _ _, true) (λ _, true) (λ _ _, true) (λ _, true).

#[global] Instance works_persistent : Persistent works.
Proof.
  split; [by intros ? ? [] ? ?| |done].
  intros h1 h2 k _ Hk. destruct k; try done; cbn; (case_bool_decide as Hn; [done|]); destruct Hn;
    apply elem_of_app; right; apply list_elem_of_here.
Qed.

Definition all_flags : Matches := mkMatches {["enable-all"]} ∅ None.
Definition mqtt_only : Matches := mkMatches {["enable-mqtt-endpoint"]} ∅ None.

(** [--enable-all], without the files of the console. *)
Example run_all : let (l, status) := main works (Some all_flags) in
  status = 0%Z ∧ omap (λ c, match c with Start t => Some (sv_kind <$> services_of t) | _ => None end) l =
    [[DeviceStateService]; [UserAuthService]; [AuthenticationService]; [ApiServer]; [HttpEndpointService];
     [WebSocketIntegration]; [MqttEndpointService; MqttEndpointWs; MqttIntegrationService; MqttIntegrationWs];
     [CoapEndpointService]].
Proof. vm_compute. done. Qed.

(** [--enable-mqtt-endpoint] alone prepares everything, starts nothing and ends. *)
Example run_mqtt_only : let (l, status) := main works (Some mqtt_only) in
  status = 0%Z ∧ tasks (server_config mqtt_only) mqtt_only = [] ∧ RunMain ∉ l.
Proof. vm_compute. split; [done|]. split; [done|]. by apply (bool_decide_eq_false_1 (RunMain ∈ _)). Qed.
End Examples.
