(* ===== verification/Console.v ===== *)
(** * The console: helpers and requests

    [console-frontend/src/utils]: paging through lists and quoting for shells;
    [console-frontend/src/backend]: requests to the API and what becomes of
    their answers.  The browser, the tables of Unicode and the decoders of
    answers are given. *)

From S2P Require Import Prelude Json Kafka.

(** ** Paging, [utils/paging.rs] *)

Module Paging.
Definition two32 : Z := Eval vm_compute in (2 ^ 32)%Z.

Record PagingOptions := mkPaging { offset : Z; limit : Z }.

Definition default_paging : PagingOptions := mkPaging 0 20.

(** [u32]: [None] is an overflow, which panics or wraps, depending on the build. *)
Definition u32_checked (x : Z) : option Z := if (x <? two32)%Z then Some x else None.
Definition saturating_sub (x y : Z) : Z := Z.max 0 (x - y).

Definition previous (p : PagingOptions) : PagingOptions := mkPaging (saturating_sub (offset p) (limit p)) (limit p).
Definition next (p : PagingOptions) : option PagingOptions :=
  o ← u32_checked (offset p + limit p); Some (mkPaging o (limit p)).
Definition first (p : PagingOptions) : PagingOptions := mkPaging 0 (limit p).
Definition last_page (p : PagingOptions) (max : Z) : PagingOptions := mkPaging (saturating_sub max (limit p)) (limit p).
Definition page (p : PagingOptions) (n : Z) : option PagingOptions :=
  x ← u32_checked (limit p * n); Some (mkPaging (saturating_sub x (limit p)) (limit p)).

(** [Navigate] of the index pages: there is no total, and so no last page. *)
Inductive Navigation : Type := First | Previous | Next | Last | Page (n : Z).

Definition navigate (nav : Navigation) (p : PagingOptions) : option PagingOptions :=
  match nav with
  | First => Some (first p)
  | Previous => Some (previous p)
  | Next => next p
  | Last => next p
  | Page n => page p n
  end.

(** What the registry answers to the limit and offset. *)
Definition shown {A} (p : PagingOptions) (l : list A) : list A := take (Z.to_nat (limit p)) (drop (Z.to_nat (offset p)) l).

Definition paging_ok (p : PagingOptions) : Prop := (0 ≤ offset p < two32)%Z ∧ (0 < limit p < two32)%Z.

(** Going on and back again is where one was, and pages are numbered from one. *)
Theorem paging_moves p q :
  paging_ok p → next p = Some q →
  paging_ok q ∧ previous q = p ∧ offset q = (offset p + limit p)%Z.
Proof.
  intros [Ho Hl] Hn. unfold next, u32_checked in Hn. destruct (Z.ltb_spec (offset p + limit p) two32); [|done].
  simpl in Hn. injection Hn as <-. unfold paging_ok, previous, saturating_sub. cbn [offset limit].
  split_and!; try lia. replace (Z.max 0 (offset p + limit p - limit p)) with (offset p) by lia. by destruct p.
Qed.

Theorem page_number p n q :
  paging_ok p → (1 ≤ n)%Z → page p n = Some q → offset q = ((n - 1) * limit p)%Z ∧ limit q = limit p.
Proof.
  intros [_ Hl] Hn Hp. unfold page, u32_checked in Hp. destruct (Z.ltb_spec (limit p * n) two32); [|done].
  injection Hp as <-. cbn [offset limit saturating_sub]. split; [|done]. unfold saturating_sub. nia.
Qed.

(** The pages up to a number show the beginning of the list, every entry once. *)
Definition pages_of (p : PagingOptions) (n : nat) : list PagingOptions :=
  (λ i, mkPaging (Z.of_nat i * limit p) (limit p)) <$> seq 0 n.

Lemma pages_cover {A} p n (l : list A) :
  paging_ok p → concat ((λ q, shown q l) <$> pages_of p n) = take (n * Z.to_nat (limit p)) l.
Proof.
  intros [_ Hl]. unfold pages_of. rw -list_fmap_compose.
  assert (Hgen : ∀ i, concat (((λ q, shown q l) ∘ (λ i, mkPaging (Z.of_nat i * limit p) (limit p))) <$> seq i n)
    = take (n * Z.to_nat (limit p)) (drop (i * Z.to_nat (limit p)) l)).
  { induction n as [|n IH]; intros i; [done|]. cbn [seq]. rw fmap_cons. cbn [concat]. rw IH.
    unfold shown, compose. cbn [limit offset].
    replace (Z.to_nat (Z.of_nat i * limit p)) with (i * Z.to_nat (limit p))%nat by (rw Z2Nat.inj_mul; lia).
    replace (S i * Z.to_nat (limit p))%nat with (i * Z.to_nat (limit p) + Z.to_nat (limit p))%nat by lia.
    replace (S n * Z.to_nat (limit p))%nat with (Z.to_nat (limit p) + n * Z.to_nat (limit p))%nat by lia.
    rw -(drop_drop l). by rw take_take_drop. }
  rw (Hgen 0). done.
Qed.

(** The last page of the index is the next one. *)
Theorem last_is_next p : navigate Last p = navigate Next p.
Proof. done. Qed.
End Paging.

(** ** Quoting, [utils/shell.rs] *)

Module Shell.
(** [str::replace] of a character by a text. *)
Fixpoint replace (c : ascii) (by_ : string) (s : string) : string :=
  match s with
  | EmptyString => EmptyString
  | String x s => (if bool_decide (x = c) then by_ else String x EmptyString) +:+ replace c by_ s
  end.

Definition backslash : ascii := "092"%char.
Definition quote : ascii := "'"%char.
Definition dquote : ascii := "034"%char.
Definition one (c : ascii) : string := String c EmptyString.

Definition shell_quote (s : string) : string :=
  replace quote (one backslash +:+ one quote) (replace backslash (one backslash +:+ one backslash) s).

(** Letters and digits of ASCII, and bytes of other characters. *)
Definition word_char (c : ascii) : bool :=
  between "a" "z" c || between "A" "Z" c || between "0" "9" c || bool_decide (c = "-"%char) || bool_decide (c = "_"%char).
Definition non_ascii (c : ascii) : bool := match c with Ascii.Ascii _ _ _ _ _ _ _ b7 => b7 end.

(** [chars().all(|c| c.is_alphanumeric() || matches!(c, '-' | '_'))]; of ASCII characters
    those of [word_char] pass. *)
Class Alphanumeric := {
  all_alphanumeric : string → bool;
  alphanumeric_ascii s : all_alphanumeric s = true → all_chars (λ c, word_char c || non_ascii c) s = true;
}.

Definition shell_single_quote `{Alphanumeric} (s : string) : string :=
  if is_empty s then one dquote +:+ one dquote
  else if all_alphanumeric s then s
  else one quote +:+ replace quote (one quote +:+ one dquote +:+ one quote +:+ one dquote +:+ one quote) s +:+ one quote.

(** How a shell reads one word: quotes of both kinds and the backslash, and [None] for
    anything that has a meaning of its own, or a quote that is not closed. *)
Inductive Mode : Type := Bare | Single | Double.

Definition special (c : ascii) : bool :=
  existsb (λ x, bool_decide (c = x))
    [" "; "009"; "010"; "013"; ";"; "|"; "&"; "<"; ">"; "("; ")"; "{"; "}"; "$"; "`"; "*"; "?"; "["; "]"; "#"; "~"; "!"; "="; "%"]%char.

Fixpoint read_word (mode : Mode) (s : string) : option string :=
  match mode, s with
  | Bare, EmptyString => Some EmptyString
  | _, EmptyString => None
  | Bare, String c s =>
      if bool_decide (c = quote) then read_word Single s
      else if bool_decide (c = dquote) then read_word Double s
      else if bool_decide (c = backslash) then
        match s with
        | EmptyString => None
        | String d s => String d <$> read_word Bare s
        end
      else if special c then None
      else String c <$> read_word Bare s
  | Single, String c s => if bool_decide (c = quote) then read_word Bare s else String c <$> read_word Single s
  | Double, String c s =>
      if bool_decide (c = dquote) then read_word Bare s
      else if bool_decide (c = backslash) || bool_decide (c = "$"%char) || bool_decide (c = "`"%char) then None
      else String c <$> read_word Double s
  end.

Lemma word_char_plain : ∀ c, word_char c || non_ascii c = true →
  bool_decide (c = quote) = false ∧ bool_decide (c = dquote) = false ∧ bool_decide (c = backslash) = false ∧ special c = false.
Proof. intros [[] [] [] [] [] [] [] []]; vm_compute; intuition congruence. Qed.

Lemma read_plain s : all_chars (λ c, word_char c || non_ascii c) s = true → read_word Bare s = Some s.
Proof.
  induction s as [|c s IH]; [done|]. cbn [all_chars]. intros [Hc Hs]%andb_true_iff.
  destruct (word_char_plain c Hc) as (H1 & H2 & H3 & H4). cbn [read_word]. rw H1 H2 H3 H4 IH //.
Qed.

(** The text between single quotes, with the quotes in it taken out and put back. *)
Lemma read_quoted s rest :
  read_word Single (replace quote (one quote +:+ one dquote +:+ one quote +:+ one dquote +:+ one quote) s +:+ rest)
  = (λ w, s +:+ w) <$> read_word Single rest.
Proof.
  induction s as [|c s IH]; [cbn [replace]; rw app_empty_l; by destruct (read_word Single rest)|]. cbn [replace]. case_bool_decide as Hc.
  - subst c. rw str_app_assoc. revert IH. generalize (replace quote
      (one quote +:+ one dquote +:+ one quote +:+ one dquote +:+ one quote) s +:+ rest). intros r IH. simpl.
    rw IH. by destruct (read_word Single rest).
  - rw app_cons app_empty_l app_cons. cbn [read_word]. rw bool_decide_eq_false_2; [done|]. rw IH. by destruct (read_word Single rest).
Qed.

(** A shell reads back exactly the text that was quoted, whatever is in it. *)
Theorem single_quote_roundtrip `{Alphanumeric} s : read_word Bare (shell_single_quote s) = Some s.
Proof.
  unfold shell_single_quote. destruct (is_empty s) eqn:He; [apply is_empty_true in He as ->; done|].
  destruct (all_alphanumeric s) eqn:Ha; [by apply read_plain, alphanumeric_ascii|].
  unfold one at 1. rw app_cons app_empty_l. cbn [read_word]. rw read_quoted. simpl. by rw app_empty_r.
Qed.

(** The other function is put between single quotes by its callers, where a shell knows no
    backslash: texts with a quote or a backslash do not come out as they were, and what
    follows a quote is not quoted. *)
Definition in_quotes (s : string) : string := one quote +:+ shell_quote s +:+ one quote.

Lemma replace_none c by_ s : has_char c s = false → replace c by_ s = s.
Proof.
  induction s as [|x s IH]; [done|]. simpl. intros [Hx Hs]%orb_false_iff. rw Hx IH //.
Qed.

Theorem quote_plain s :
  has_char quote s = false → has_char backslash s = false → read_word Bare (in_quotes s) = Some s.
Proof.
  intros Hq Hb. unfold in_quotes, shell_quote. rw (replace_none backslash) // replace_none //.
  unfold one at 1. rw app_cons app_empty_l. cbn [read_word].
  assert (Hr : ∀ r, read_word Single (s +:+ r) = (λ w, s +:+ w) <$> read_word Single r).
  { clear Hb. intros r. induction s as [|x s IH]; [rw app_empty_l; by destruct (read_word Single r)|]. simpl in Hq.
    apply orb_false_iff in Hq as [Hx Hs]. rw app_cons. cbn [read_word]. rw bool_decide_eq_false_2.
    - intros ->. by rw bool_decide_eq_true_2 in Hx.
    - rw IH //. by destruct (read_word Single r). }
  rw Hr. simpl. by rw app_empty_r.
Qed.

Example quote_broken :
  read_word Bare (in_quotes "it's") = None ∧ read_word Bare (in_quotes (one backslash)) = Some (one backslash +:+ one backslash) ∧
  in_quotes "'; rm -rf x; '" = one quote +:+ one backslash +:+ one quote +:+ "; rm -rf x; " +:+ one backslash +:+ one quote +:+ one quote.
Proof. by vm_compute. Qed.

(** The test of the source expects the empty text to stay empty. *)
Example empty_is_quoted `{Alphanumeric} : shell_single_quote EmptyString = one dquote +:+ one dquote.
Proof. done. Qed.
End Shell.

(** ** Requests, [backend/mod.rs] and [backend/request] *)

Module Request.
(** [drogue_client::error::ErrorInformation] *)
Record ErrorInformation := mkErrorInformation { ei_error : string; ei_message : string }.

(** *** Answers *)

(** [ResponsePayload] *)
Class ResponsePayload (T : Type) := convert_target : string → result T string.

#[global] Instance unit_payload : ResponsePayload () := λ _, Ok tt.
Definition json_payload {T} (from_slice : string → result T string) : ResponsePayload T := from_slice.
Definition option_payload {T} (from_slice : string → result T string) : ResponsePayload (option T) :=
  λ data, if is_empty data then Ok None else let? v := from_slice data in Ok (Some v).

Inductive JsonResponse (T E : Type) : Type :=
| JsonSuccess (code : Z) (data : T)
| JsonFailure (code : Z) (info : E)
| JsonInvalid (code : Z) (err data : string).
Arguments JsonSuccess {T E} _ _.
Arguments JsonFailure {T E} _ _.
Arguments JsonInvalid {T E} _ _ _.

(** [StatusCode::from_u16] *)
Definition status_code (status : Z) : option Z := if ((100 <=? status) && (status <=? 999))%Z then Some status else None.
Definition is_success (code : Z) : bool := ((200 <=? code) && (code <=? 299))%Z.

Definition convert_json {T E} (pt : ResponsePayload T) (pe : ResponsePayload E) (number : Z → string)
    (status : Z) (data : string) : result (JsonResponse T E) string :=
  match status_code status with
  | None => Err ("Invalid status code: " +:+ number status)
  | Some code => Ok
      (if is_success code then
         match @convert_target _ pt data with
         | Ok d => JsonSuccess code d
         | Err e => JsonInvalid code e data
         end
       else
         match @convert_target _ pe data with
         | Ok d => JsonFailure code d
         | Err e => JsonInvalid code e data
         end)
  end.

Inductive ApiError : Type :=
| Response (info : ErrorInformation) (code : Z)
| Unknown (data : string) (code : Z)
| InternalError (err : string).

Inductive ApiResponse (T : Type) : Type :=
| Success (data : T) (code : Z)
| Failure (err : ApiError).
Arguments Success {T} _ _.
Arguments Failure {T} _.

(** [JsonHandler::execute] and [ApiHandler::execute]; the error of [fetch] is text. *)
Definition json_handler {T E} (pt : ResponsePayload T) (pe : ResponsePayload E) (number : Z → string)
    (response : result (Z * string) string) : result (JsonResponse T E) string :=
  match response with
  | Err e => Err e
  | Ok (status, data) => convert_json pt pe number status data
  end.

Definition api_handler {T} (pt : ResponsePayload T) (pe : ResponsePayload ErrorInformation) (number : Z → string)
    (response : result (Z * string) string) : ApiResponse T :=
  match response with
  | Err e => Failure (InternalError e)
  | Ok (status, data) =>
      match convert_json pt pe number status data with
      | Ok (JsonSuccess code d) => Success d code
      | Ok (JsonFailure code info) => Failure (Response info code)
      | Ok (JsonInvalid code _ d) => Failure (Unknown d code)
      | Err e => Failure (InternalError e)
      end
  end.

(** [error.rs]; a code is shown with its reason. *)
Definition error_description (show_code : Z → string) (e : ApiError) : string :=
  match e with
  | Response info _ => ei_message info
  | InternalError e => "Internal error: " +:+ e
  | Unknown _ code => "Unknown response (code: " +:+ show_code code +:+ ")"
  end.
Definition response_description {T} (show_code : Z → string) (r : ApiResponse T) : string :=
  match r with
  | Success _ code => "Invalid response code: " +:+ show_code code
  | Failure e => error_description show_code e
  end.

(** [ErrorNotification]; [notify] makes one of a title and an error. *)
Record ErrorNotification := mkNotification { n_title : string; n_description : string }.

(** A success is the decoded payload of an answer of the 2xx family and nothing else; a
    reported error is one the server gave. *)
Theorem api_success_iff {T} (pt : ResponsePayload T) pe number response (d : T) code :
  api_handler pt pe number response = Success d code ↔
  ∃ data, response = Ok (code, data) ∧ (200 ≤ code ≤ 299)%Z ∧ @convert_target _ pt data = Ok d.
Proof.
  unfold api_handler, convert_json, status_code, is_success. split.
  - destruct response as [[s data]|e]; [|done]. destruct ((100 <=? s) && (s <=? 999))%Z; [|done].
    destruct ((200 <=? s) && (s <=? 299))%Z eqn:Hs; [destruct (@convert_target _ pt data) eqn:Hc|destruct (@convert_target _ pe data)];
      try done. intros [= -> ->]. exists data. split_and!; try done; lia.
  - intros (data & -> & Hc & Hd). replace ((100 <=? code) && (code <=? 999))%Z with true by lia.
    replace ((200 <=? code) && (code <=? 299))%Z with true by lia. by rw Hd.
Qed.

Theorem api_reported_iff {T} (pt : ResponsePayload T) pe number response info code :
  api_handler pt pe number response = Failure (Response info code) ↔
  ∃ data, response = Ok (code, data) ∧ (100 ≤ code ≤ 999)%Z ∧ ¬ (200 ≤ code ≤ 299)%Z ∧ @convert_target _ pe data = Ok info.
Proof.
  unfold api_handler, convert_json, status_code, is_success. split.
  - destruct response as [[s data]|e]; [|done]. destruct ((100 <=? s) && (s <=? 999))%Z eqn:H1; [|done].
    destruct ((200 <=? s) && (s <=? 299))%Z eqn:Hs; [destruct (@convert_target _ pt data)|destruct (@convert_target _ pe data) eqn:Hc];
      try done. intros [= -> ->]. exists data. split_and!; try done; lia.
  - intros (data & -> & Hc & Hn & Hd). replace ((100 <=? code) && (code <=? 999))%Z with true by lia.
    replace ((200 <=? code) && (code <=? 299))%Z with false by lia. by rw Hd.
Qed.

(** The tests of the source. *)
Example test_no_content : convert_json unit_payload unit_payload (λ _, EmptyString) 204 EmptyString = Ok (JsonSuccess 204 tt).
Proof. done. Qed.

(** *** Making a request *)

(** [RequestBuilder]; the options of [fetch] are their texts. *)
Record RequestBuilder := mkBuilder {
  rb_method : string;
  rb_url : string;
  rb_query : list (string * string);
  rb_headers : list (string * string);
  rb_body : option string;
  rb_content_type : option string;
  rb_cache : option string;
  rb_mode : option string;
  rb_redirect : option string;
  rb_credentials : option string;
}.

Definition new_builder (method url : string) : RequestBuilder :=
  mkBuilder method url [] [] None None None None None None.

Definition add_query (k v : string) (r : RequestBuilder) : RequestBuilder :=
  mkBuilder (rb_method r) (rb_url r) (rb_query r ++ [(k, v)]) (rb_headers r) (rb_body r) (rb_content_type r)
    (rb_cache r) (rb_mode r) (rb_redirect r) (rb_credentials r).
Definition add_header (k v : string) (r : RequestBuilder) : RequestBuilder :=
  mkBuilder (rb_method r) (rb_url r) (rb_query r) (rb_headers r ++ [(k, v)]) (rb_body r) (rb_content_type r)
    (rb_cache r) (rb_mode r) (rb_redirect r) (rb_credentials r).
Definition set_options (cache mode redirect : string) (r : RequestBuilder) : RequestBuilder :=
  mkBuilder (rb_method r) (rb_url r) (rb_query r) (rb_headers r) (rb_body r) (rb_content_type r)
    (Some cache) (Some mode) (Some redirect) (rb_credentials r).

(** [RequestPayload]: nothing, or JSON that was or was not encoded. *)
Inductive RequestPayload : Type := Nothing | JsonData (encoded : result string string).
Definition payload_type (p : RequestPayload) : option string :=
  match p with Nothing => None | JsonData _ => Some "application/json" end.
Definition payload_js (p : RequestPayload) : result (option string) string :=
  match p with
  | Nothing => Ok None
  | JsonData (Ok t) => Ok (Some t)
  | JsonData (Err e) => Err e
  end.

Definition set_body (p : RequestPayload) (r : RequestBuilder) : result RequestBuilder string :=
  let? b := payload_js p in
  Ok (mkBuilder (rb_method r) (rb_url r) (rb_query r) (rb_headers r) b (payload_type p)
    (rb_cache r) (rb_mode r) (rb_redirect r) (rb_credentials r)).

(** [Request::new]: what is given to [fetch]. *)
Record FetchRequest := mkFetch {
  f_method : string;
  f_url : string;
  f_headers : list (string * string);
  f_body : option string;
  f_options : list (string * option string);
}.

Definition query_string (query : list (string * string)) : string :=
  join "&" ((λ '(k, v), k +:+ "=" +:+ v) <$> query).

Definition new_request (r : RequestBuilder) : FetchRequest :=
  mkFetch (rb_method r)
    match rb_query r with
    | [] => rb_url r
    | q => rb_url r +:+ "?" +:+ query_string q
    end
    (match rb_content_type r with Some t => [("Content-Type", t)] | None => [] end ++ rb_headers r)
    (rb_body r)
    [("cache", rb_cache r); ("credentials", rb_credentials r); ("redirect", rb_redirect r); ("mode", rb_mode r)].

(** [BackendInformation]: its URL, with another path. *)
Record Backend := mkBackend { set_path : string → string; access_token : string }.

Definition unauth_request_with (b : Backend) (method path : string) (query : list (string * string)) (p : RequestPayload)
    (headers : list (string * string)) : result FetchRequest string :=
  let r := new_builder method (set_path b path) in
  let r := foldl (λ r '(k, v), add_header k v r) r headers in
  let r := foldl (λ r '(k, v), add_query k v r) r query in
  match set_body p r with
  | Ok r => Ok (new_request (set_options "no-cache" "cors" "follow" r))
  | Err e => Err ("Payload conversion error: " +:+ e)
  end.

Definition request_with (b : Backend) (method path : string) (query : list (string * string)) (p : RequestPayload)
    (headers : list (string * string)) : result FetchRequest string :=
  unauth_request_with b method path query p (headers ++ [("Authorization", "Bearer " +:+ access_token b)]).

Lemma add_headers_all hs r :
  foldl (λ r '(k, v), add_header k v r) r hs
  = mkBuilder (rb_method r) (rb_url r) (rb_query r) (rb_headers r ++ hs) (rb_body r) (rb_content_type r)
      (rb_cache r) (rb_mode r) (rb_redirect r) (rb_credentials r).
Proof.
  revert r. induction hs as [|[k v] hs IH]; intros r; cbn [foldl]; [rw app_nil_r; by destruct r|].
  rw IH /= -app_assoc //.
Qed.
Lemma add_queries_all qs r :
  foldl (λ r '(k, v), add_query k v r) r qs
  = mkBuilder (rb_method r) (rb_url r) (rb_query r ++ qs) (rb_headers r) (rb_body r) (rb_content_type r)
      (rb_cache r) (rb_mode r) (rb_redirect r) (rb_credentials r).
Proof.
  revert r. induction qs as [|[k v] qs IH]; intros r; cbn [foldl]; [rw app_nil_r; by destruct r|].
  rw IH /= -app_assoc //.
Qed.

(** Every request of the console has the token of the user and the body, if it has one, as
    JSON; only a payload that cannot be encoded is not sent. *)
Theorem request_shape b method path query p headers :
  request_with b method path query p headers =
  match payload_js p with
  | Ok body => Ok (mkFetch method
      match query with [] => set_path b path | _ => set_path b path +:+ "?" +:+ query_string query end
      (match payload_type p with Some t => [("Content-Type", t)] | None => [] end
        ++ headers ++ [("Authorization", "Bearer " +:+ access_token b)])
      body [("cache", Some "no-cache"); ("credentials", None); ("redirect", Some "follow"); ("mode", Some "cors")])
  | Err e => Err ("Payload conversion error: " +:+ e)
  end.
Proof.
  unfold request_with, unauth_request_with. rw add_headers_all add_queries_all. unfold set_body.
  destruct (payload_js p); [|done]. by destruct query.
Qed.

(** How a server reads a query, before it decodes the texts. *)
Definition read_query (q : string) : list (string * string) :=
  (λ kv, default (kv, EmptyString) (split_once "="%char kv)) <$> split "&"%char q.

Lemma split_join_amp (l : list string) :
  l ≠ [] → Forall (λ s, has_char "&"%char s = false) l → split "&"%char (join "&" l) = l.
Proof.
  induction l as [|x [|y l] IH]; intros Hne Hf; [done|..]; apply Forall_cons in Hf as [Hx Hl]; cbn [join].
  - by apply split_no_sep.
  - rw split_app //. f_equal. by apply IH.
Qed.

(** A query without the characters that separate is read as it was meant. *)
Theorem query_plain q :
  q ≠ [] → Forall (λ '(k, v), has_char "&"%char k = false ∧ has_char "="%char k = false ∧ has_char "&"%char v = false) q →
  read_query (query_string q) = q.
Proof.
  intros Hne Hq. unfold read_query, query_string. rw split_join_amp; [by destruct q| |].
  - apply Forall_fmap. eapply Forall_impl; [exact Hq|]. intros [k v] (Hk & _ & Hv). simpl. rw !has_char_app Hk Hv //.
  - rw -list_fmap_compose. clear Hne. induction Hq as [|[k v] q (_ & Hk & _) _ IH]; [done|].
    rw fmap_cons IH. f_equal. unfold compose. rw split_once_app //.
Qed.

(** The values are not escaped: the description of a new access token that has an ampersand
    is cut there, and what follows is a parameter of its own. *)
Definition create_token_query (description : string) : list (string * string) := [("description", description)].

Example description_cut :
  read_query (query_string (create_token_query "R&D")) = [("description", "R"); ("D", EmptyString)].
Proof. by vm_compute. Qed.

(** *** Handles

    Every request has a flag which its handle clears when it is dropped; the answer of a
    request whose flag is cleared becomes no message.  [K] says what was asked. *)
Section Handles.
Context {K : Type}.

Record Net := mkNet { n_next : nat; n_requests : gmap nat (K * bool) }.
Definition empty_net : Net := mkNet 0 ∅.

(** [Request::start] *)
Definition start (k : K) (n : Net) : nat * Net :=
  (n_next n, mkNet (S (n_next n)) (<[n_next n := (k, true)]> (n_requests n))).

(** [Drop for RequestHandle]: the flag is cleared, and the request aborted if it was set. *)
Definition drop_handle (h : option nat) (n : Net) : Net :=
  match h with
  | Some i => mkNet (n_next n) (alter (λ '(k, _), (k, false)) i (n_requests n))
  | None => n
  end.

(** [ComponentHandler::execute]: the messages an answer becomes. *)
Definition answered {M} (i : nat) (mapper : K → M) (n : Net) : list M :=
  match n_requests n !! i with
  | Some (k, true) => [mapper k]
  | _ => []
  end.

(** The requests whose answers count are those the component has a handle of. *)
Definition handles_ok (held : gset nat) (n : Net) : Prop :=
  (∀ i, i ∈ held ↔ ∃ k, n_requests n !! i = Some (k, true)) ∧ (∀ i kb, n_requests n !! i = Some kb → (i < n_next n)%nat).

Lemma handles_empty : handles_ok ∅ empty_net.
Proof. split; simpl; [|intros i kb; by rw lookup_empty]. intros i. rw lookup_empty. split; [set_solver|]. by intros (? & ?). Qed.

Lemma handles_start held k n : handles_ok held n → handles_ok ({[(start k n).1]} ∪ held) (start k n).2.
Proof.
  intros [Hh Hn]. split; simpl.
  - intros i. rw elem_of_union elem_of_singleton Hh. destruct (decide (i = n_next n)) as [->|Hne].
    + rw lookup_insert_eq. split; [eauto|by left].
    + rw lookup_insert_ne; [done|]. naive_solver.
  - intros i kb. destruct (decide (i = n_next n)) as [->|Hne]; [lia|]. rw lookup_insert_ne; [done|]. intros Hi%Hn. lia.
Qed.

Lemma handles_drop held h n :
  handles_ok held n → handles_ok (match h with Some i => held ∖ {[i]} | None => held end) (drop_handle h n).
Proof.
  intros [Hh Hn]. destruct h as [i|]; [|done]. split; simpl.
  - intros j. rw elem_of_difference elem_of_singleton Hh lookup_alter. destruct (decide (j = i)) as [->|Hne].
    + rw decide_True //. split; [by intros [_ ?]|]. intros [k Hk]. by destruct (n_requests n !! i) as [[? []]|].
    + rw decide_False //. naive_solver.
  - intros j kb. rw lookup_alter. case_decide as Hj; [|by apply Hn]. subst j.
    destruct (n_requests n !! i) eqn:Hi; [|done]. intros _. by eapply Hn.
Qed.

(** The answer of a request without a handle is no message. *)
Lemma answered_held {M} held i (mapper : K → M) n m :
  handles_ok held n → m ∈ answered i mapper n → i ∈ held.
Proof.
  intros [Hh _] Hm. apply Hh. unfold answered in Hm. destruct (n_requests n !! i) as [[k []]|]; [eauto|set_solver..].
Qed.
End Handles.
Arguments Net : clear implicits.
End Request.
