(* ===== verification/ConsoleAdmin.v ===== *)
(** * The administration page of the console

    [console-frontend/src/pages/apps/details/admin.rs]:
    the members of an application and the transfer of its ownership, as a
    user edits them.  The page is composed with the API of the registry. *)

From S2P Require Import Prelude Json Versioning Auth Events Store Outbox Registry Management Admin Lifecycle Select Labels Listing Kafka RegistryApi Console.
Import Console.Request.

(** ** Members *)

Record User := mkUser { u_id : string; u_role : Role }.

(** [Users] *)
Record Users := mkUsers { us_app : string; us_members : list User; us_resource_version : string }.

Definition users_from (members : Members) (app : string) : Users :=
  mkUsers app ((λ '(user, entry), mkUser user (role entry)) <$> m_members members) (default "" (m_resource_version members)).

Definition serialize (us : Users) : Members :=
  mkMembers (Some (us_resource_version us))
    (foldl (λ m u, im_insert (u_id u) (mkMember (u_role u)) m) [] (us_members us)).

Definition users_delete (id : string) (us : Users) : Users :=
  mkUsers (us_app us) (base.filter (λ u, u_id u ≠ id) (us_members us)) (us_resource_version us).

(** [contains], with [User::eq]: only the names are compared. *)
Definition users_contains (id : string) (us : Users) : bool := existsb (λ u, string_eqb (u_id u) id) (us_members us).

Definition users_add (id : string) (r : Role) (us : Users) : result Users string :=
  if users_contains id us then Err "User is already a member"
  else Ok (mkUsers (us_app us) (us_members us ++ [mkUser id r]) (us_resource_version us)).

Lemma users_contains_spec id us : id ∈ (u_id <$> us_members us) ↔ users_contains id us = true.
Proof.
  unfold users_contains. rewrite existsb_exists. split.
  - intros (u & -> & Hu)%list_elem_of_fmap. exists u. rw string_eqb_refl. split; [|done]. by apply list_elem_of_In.
  - intros (u & Hu & He%string_eqb_eq). subst id. apply list_elem_of_fmap_2. by apply list_elem_of_In.
Qed.

(** What is sent is what is shown. *)
Definition entry_of (u : User) : string * MemberEntry := (u_id u, mkMember (u_role u)).

Lemma serialize_entries us :
  NoDup (u_id <$> us_members us) → m_members (serialize us) = entry_of <$> us_members us.
Proof.
  intros Hnd. unfold serialize. cbn [m_members].
  assert (Hgen : ∀ l acc, NoDup (acc.*1 ++ (u_id <$> l)) →
    foldl (λ m u, im_insert (u_id u) (mkMember (u_role u)) m) acc l = acc ++ (entry_of <$> l)).
  { induction l as [|u l IH]; intros acc Ha; [by rw app_nil_r|]. cbn [foldl]. rw fmap_cons in Ha.
    assert (Hn : u_id u ∉ acc.*1) by (apply NoDup_app in Ha; set_solver).
    rw im_insert_new // IH; [rw fmap_app -app_assoc //|]. rw fmap_cons -app_assoc //. }
  by rw (Hgen _ []).
Qed.

Lemma entries_from members app : entry_of <$> us_members (users_from members app) = m_members members.
Proof.
  unfold users_from. cbn [us_members]. rw -list_fmap_compose -{2}(list_fmap_id (m_members members)).
  apply list_fmap_ext. by intros i [u [r]] _.
Qed.

Lemma ids_from members app : u_id <$> us_members (users_from members app) = (m_members members).*1.
Proof.
  unfold users_from. cbn [us_members]. rw -list_fmap_compose. apply list_fmap_ext. by intros i [u r] _.
Qed.

(** Members that are only shown are sent back unchanged. *)
Theorem serialize_from members app :
  NoDup (m_members members).*1 →
  serialize (users_from members app) = mkMembers (Some (default "" (m_resource_version members))) (m_members members).
Proof.
  intros Hnd. rw -(entries_from members app) -serialize_entries //. by rw ids_from.
Qed.

Theorem users_add_ok id r us us' :
  users_add id r us = Ok us' → NoDup (u_id <$> us_members us) →
  NoDup (u_id <$> us_members us') ∧
  serialize us' = mkMembers (Some (us_resource_version us)) ((entry_of <$> us_members us) ++ [(id, mkMember r)]).
Proof.
  unfold users_add. destruct (users_contains id us) eqn:Hc; [done|]. intros [= <-] Hnd.
  assert (Hn : id ∉ (u_id <$> us_members us)) by (intros Hin%users_contains_spec; congruence).
  assert (Hnd' : NoDup (u_id <$> us_members us ++ [mkUser id r])).
  { rw fmap_app. apply NoDup_app. split_and!; [done|set_solver|]. apply NoDup_singleton. }
  split; [done|]. pose proof (serialize_entries (mkUsers (us_app us) (us_members us ++ [mkUser id r]) (us_resource_version us)) Hnd') as Hs.
  cbn [us_members] in Hs. rw fmap_app in Hs. rw -Hs. done.
Qed.

Lemma users_delete_nodup id us :
  NoDup (u_id <$> us_members us) → NoDup (u_id <$> us_members (users_delete id us)).
Proof.
  unfold users_delete. cbn [us_members]. induction (us_members us) as [|u l IH]; [done|]. rw fmap_cons NoDup_cons. intros [Hu Hl].
  rw filter_cons. case_decide; [|by apply IH]. rw fmap_cons NoDup_cons. split; [|by apply IH].
  intros (v & Hv & [_ Hin]%list_elem_of_filter)%list_elem_of_fmap. apply Hu. rw Hv. by apply list_elem_of_fmap_2.
Qed.

Theorem users_delete_ok id us :
  NoDup (u_id <$> us_members us) →
  m_members (serialize (users_delete id us)) = base.filter (λ m, m.1 ≠ id) (entry_of <$> us_members us).
Proof.
  intros Hnd. rw serialize_entries; [by apply users_delete_nodup|]. unfold users_delete. cbn [us_members]. clear Hnd.
  induction (us_members us) as [|u l IH]; [done|]. rw fmap_cons !filter_cons. repeat case_decide; try done.
  by rw fmap_cons IH.
Qed.

(** ** The page *)

(** The encoders and decoders of [serde], the encoding of paths, how numbers and codes are
    shown, and the page that explains a failed [fetch]. *)
Class ConsoleCodecs := {
  url_encode : string → string;
  show_number : Z → string;
  show_code : Z → string;
  from_members : string → result Members string;
  from_transfer : string → result string string;
  from_error : string → result ErrorInformation string;
  members_vec : Members → result string string;
  transfer_vec : string → result string string;
}.

(** What is asked; the answer to a transfer shows a link. *)
Inductive Call : Type :=
| LoadMembersCall
| SubmitCall
| TransferCall (link : string)
| CancelCall
| LoadTransferCall.

Inductive Msg : Type :=
| LoadMembers
| SetMembersMsg (members : Members)
| AddMember
| DeleteMember (id : string)
| NewMemberRole (r : Role)
| NewMemberId (id : string)
| NewOwner (id : string)
| TransferOwner
| TransferPending (transfer : option string)
| CancelTransfer
| ErrorMsg (err : ErrorNotification)
| Reset_
| Stop_ (err : option ErrorNotification).

Inductive Toast : Type := Danger (n : ErrorNotification) | SuccessToast (text : string) | TransferToast (link : string).

Record Props := mkProps { p_backend : Backend; p_name : string; p_console : option string }.

(** [Admin], with the requests it has made and the toasts it has shown. *)
Record Page := mkPage {
  fetch : option nat;
  transfer_fetch : option nat;
  members : option Users;
  new_member_id : string;
  new_member_role : Role;
  new_owner : string;
  pending_transfer : bool;
  can_transfer : bool;
  stopped : bool;
  toasts : list Toast;
  net : Net (Call * FetchRequest);
}.

(** Storing a handle drops the one that was there. *)
Definition set_fetch (h : option nat) (p : Page) : Page :=
  mkPage h (transfer_fetch p) (members p) (new_member_id p) (new_member_role p) (new_owner p) (pending_transfer p)
    (can_transfer p) (stopped p) (toasts p) (drop_handle (fetch p) (net p)).
Definition set_transfer_fetch (h : option nat) (p : Page) : Page :=
  mkPage (fetch p) h (members p) (new_member_id p) (new_member_role p) (new_owner p) (pending_transfer p)
    (can_transfer p) (stopped p) (toasts p) (drop_handle (transfer_fetch p) (net p)).
Definition set_net n (p : Page) : Page :=
  mkPage (fetch p) (transfer_fetch p) (members p) (new_member_id p) (new_member_role p) (new_owner p) (pending_transfer p)
    (can_transfer p) (stopped p) (toasts p) n.
Definition set_members_of m (p : Page) : Page :=
  mkPage (fetch p) (transfer_fetch p) m (new_member_id p) (new_member_role p) (new_owner p) (pending_transfer p)
    (can_transfer p) (stopped p) (toasts p) (net p).
Definition set_new_member id r (p : Page) : Page :=
  mkPage (fetch p) (transfer_fetch p) (members p) id r (new_owner p) (pending_transfer p)
    (can_transfer p) (stopped p) (toasts p) (net p).
Definition set_transfer owner pending can (p : Page) : Page :=
  mkPage (fetch p) (transfer_fetch p) (members p) (new_member_id p) (new_member_role p) owner pending
    can (stopped p) (toasts p) (net p).
Definition set_stop (p : Page) : Page :=
  mkPage (fetch p) (transfer_fetch p) (members p) (new_member_id p) (new_member_role p) (new_owner p) (pending_transfer p)
    (can_transfer p) true (toasts p) (net p).
Definition toast (t : Toast) (p : Page) : Page :=
  mkPage (fetch p) (transfer_fetch p) (members p) (new_member_id p) (new_member_role p) (new_owner p) (pending_transfer p)
    (can_transfer p) (stopped p) (toasts p ++ [t]) (net p).

(** [create], before the message it sends itself. *)
Definition create_page : Page := mkPage None None None "" Reader "" false false false [] empty_net.

Section Page.
Context `{ConsoleCodecs} (props : Props).
Implicit Types (p : Page).

Definition admin_path (what : string) : string :=
  "/api/admin/v1alpha1/apps/" +:+ url_encode (p_name props) +:+ "/" +:+ what.

(** A call that was started, and its handle. *)
Definition start_call (c : Call) (method path : string) (payload : RequestPayload) p : result (nat * Page) string :=
  match request_with (p_backend props) method path [] payload [] with
  | Ok r => let '(i, n) := start (c, r) (net p) in Ok (i, set_net n p)
  | Err e => Err e
  end.

Definition load_members p := start_call LoadMembersCall "GET" (admin_path "members") Nothing p.
Definition load_transfer_state p := start_call LoadTransferCall "GET" (admin_path "transfer-ownership") Nothing p.
Definition cancel_transfer p := start_call CancelCall "DELETE" (admin_path "transfer-ownership") Nothing p.
Definition transfer_owner_call p :=
  let link := match p_console props with
              | Some console => console +:+ "/transfer/" +:+ url_encode (p_name props)
              | None => "Error while creating the link"
              end in
  start_call (TransferCall link) "PUT" (admin_path "transfer-ownership") (JsonData (transfer_vec (new_owner p))) p.
Definition submit p : result (nat * Page) string :=
  match members p with
  | Some m => start_call SubmitCall "PUT" (admin_path "members") (JsonData (members_vec (serialize m))) p
  | None => Err "Nothing to save"
  end.

(** [load]: both are started; if one fails the handle of the other is dropped. *)
Definition load p : result (nat * nat * Page) string :=
  match load_members p with
  | Ok (i, p1) =>
      match load_transfer_state p1 with
      | Ok (j, p2) => Ok (i, j, p2)
      | Err e => Err e
      end
  | Err e => Err e
  end.

(** Toast of an error, as [error]. *)
Definition error_toast (title description : string) p : Page := toast (Danger (mkNotification title description)) p.

(** [update]: the page, and the messages it sends itself. *)
Definition update (msg : Msg) p : Page * list Msg :=
  match msg with
  | LoadMembers =>
      match load p with
      | Ok (i, j, p) => (set_transfer_fetch (Some j) (set_fetch (Some i) p), [])
      | Err e => (error_toast "Failed to load" e p, [])
      end
  | SetMembersMsg m => (set_fetch None (set_members_of (Some (users_from m (p_name props))) p), [])
  | AddMember =>
      match members p with
      | Some m =>
          match users_add (new_member_id p) (new_member_role p) m with
          | Err e => (error_toast "Failed to add user" e p, [])
          | Ok m =>
              match submit (set_members_of (Some m) p) with
              | Ok (i, p) => (set_fetch (Some i) p, [])
              | Err e => (error_toast "Failed to update" e (set_members_of (Some m) p), [])
              end
          end
      | None => (p, [])
      end
  | DeleteMember id =>
      match members p with
      | Some m =>
          match submit (set_members_of (Some (users_delete id m)) p) with
          | Ok (i, p) => (set_fetch (Some i) p, [])
          | Err e => (error_toast "Failed to update" e (set_members_of (Some (users_delete id m)) p), [])
          end
      | None => (p, [])
      end
  | NewMemberId id => (set_new_member id (new_member_role p) p, [])
  | NewMemberRole r => (set_new_member (new_member_id p) r p, [])
  | NewOwner id => (set_transfer id (pending_transfer p) (can_transfer p) p, [])
  | TransferOwner =>
      match transfer_owner_call p with
      | Ok (i, p) => (set_fetch (Some i) p, [])
      | Err e => (error_toast "Failed to transfer app" e p, [])
      end
  | TransferPending transfer =>
      let p := set_transfer_fetch None p in
      match transfer with
      | Some new_user => (set_transfer new_user true true p, [])
      | None => (set_transfer (new_owner p) false true p, [])
      end
  | CancelTransfer =>
      match cancel_transfer p with
      | Ok (i, p) => (set_transfer_fetch (Some i) p, [])
      | Err e => (error_toast "Failed to cancel" e p, [])
      end
  | ErrorMsg err => (set_fetch None (toast (Danger err) p), [LoadMembers])
  | Reset_ => (set_fetch None p, [LoadMembers])
  | Stop_ err => (match err with Some err => toast (Danger err) (set_stop p) | None => set_stop p end, [])
  end.

(** A message and those it leads to. *)
Definition dispatch (msg : Msg) p : Page :=
  let '(p, sent) := update msg p in foldl (λ p m, (update m p).1) p sent.

(** The callbacks of the requests: a toast, and the message the answer becomes. *)
Definition on_answer (c : Call) (response : result (Z * string) string) : option Toast * Msg :=
  let describe := error_description show_code in
  match c with
  | LoadMembersCall => (None,
      match api_handler from_members from_error show_number response with
      | Success m _ => SetMembersMsg m
      | Failure (Response _ 404) =>
          Stop_ (Some (mkNotification "Failed to fetch members" "You are not an administrator for this app"))
      | Failure e => Stop_ (Some (mkNotification "Failed to fetch members" (describe e)))
      end)
  | SubmitCall =>
      match api_handler unit_payload from_error show_number response with
      | Success _ 204 => (Some (SuccessToast "Application members saved."), LoadMembers)
      | Success _ code => (None, ErrorMsg (mkNotification "Update failed" ("Unknown response code: " +:+ show_code code)))
      | Failure e => (None, ErrorMsg (mkNotification "Update failed" (describe e)))
      end
  | TransferCall link =>
      match api_handler unit_payload from_error show_number response with
      | Success _ 202 => (Some (TransferToast link), Reset_)
      | Success _ code => (None, ErrorMsg (mkNotification "Transfer failed" ("Invalid response code: " +:+ show_code code)))
      | Failure e => (None, ErrorMsg (mkNotification "Transfer failed" (describe e)))
      end
  | CancelCall => (None,
      match api_handler unit_payload from_error show_number response with
      | Success _ _ => TransferPending None
      | Failure e => ErrorMsg (mkNotification "Unable to cancel transfer" (describe e))
      end)
  | LoadTransferCall => (None,
      match api_handler (option_payload from_transfer) from_error show_number response with
      | Success t (200 | 204) => TransferPending t
      | Success _ _ => Stop_ (Some (mkNotification "Failed to load transfer state" "Unknown response"))
      | Failure (Response _ 404) => Stop_ None
      | Failure e => Stop_ (Some (mkNotification "Failed loading transfer state" (describe e)))
      end)
  end.

(** An answer arrives. *)
Definition receive (i : nat) (response : result (Z * string) string) p : Page :=
  match answered i (λ k, on_answer k.1 response) (net p) with
  | [(t, msg)] => dispatch msg (match t with Some t => toast t p | None => p end)
  | _ => p
  end.

Definition changed p : bool := negb (stopped p).
End Page.

(** ** Handles *)

Definition handle_set (h : option nat) : gset nat := match h with Some i => {[i]} | None => ∅ end.
Definition held (p : Page) : gset nat := handle_set (fetch p) ∪ handle_set (transfer_fetch p).

(** The requests that count are those of the two handles, and of others not yet stored. *)
Definition ok_with (extra : gset nat) (p : Page) : Prop :=
  handles_ok (extra ∪ held p) (net p) ∧ extra ## held p ∧ handle_set (fetch p) ## handle_set (transfer_fetch p).
Definition page_ok (p : Page) : Prop := ok_with ∅ p.

Lemma handles_ok_eq {K} (a b : gset nat) (n : Net K) : a = b → handles_ok a n → handles_ok b n.
Proof. by intros ->. Qed.

Lemma drop_set {K} (a : gset nat) h (n : Net K) : handles_ok a n → handles_ok (a ∖ handle_set h) (drop_handle h n).
Proof.
  intros Ha. eapply handles_ok_eq; [|by apply handles_drop]. destruct h; [done|]. simpl. set_solver.
Qed.

Lemma set_fetch_with extra h p : ok_with extra p → handle_set h ⊆ extra → ok_with (extra ∖ handle_set h) (set_fetch h p).
Proof.
  intros (Hh & Hd & Ht) Hs. unfold ok_with, held in *. simpl. split_and!; [|set_solver..].
  eapply handles_ok_eq; [|by apply drop_set, Hh]. apply set_eq. intros i. destruct (decide (i ∈ handle_set h)); set_solver.
Qed.

Lemma set_transfer_fetch_with extra h p :
  ok_with extra p → handle_set h ⊆ extra → ok_with (extra ∖ handle_set h) (set_transfer_fetch h p).
Proof.
  intros (Hh & Hd & Ht) Hs. unfold ok_with, held in *. simpl. split_and!; [|set_solver..].
  eapply handles_ok_eq; [|by apply drop_set, Hh]. apply set_eq. intros i. destruct (decide (i ∈ handle_set h)); set_solver.
Qed.

Lemma set_fetch_none p : page_ok p → page_ok (set_fetch None p).
Proof. intros Hp. apply (set_fetch_with ∅ None) in Hp; [|done]. unfold page_ok. by rw difference_empty_L in Hp. Qed.
Lemma set_transfer_fetch_none p : page_ok p → page_ok (set_transfer_fetch None p).
Proof. intros Hp. apply (set_transfer_fetch_with ∅ None) in Hp; [|done]. unfold page_ok. by rw difference_empty_L in Hp. Qed.

Section Invariant.
Context `{ConsoleCodecs} (props : Props).
Implicit Types (p : Page).

Lemma start_call_with extra c method path payload p i p' :
  ok_with extra p → start_call props c method path payload p = Ok (i, p') →
  ok_with ({[i]} ∪ extra) p' ∧ i ∉ extra ∧ fetch p' = fetch p ∧ transfer_fetch p' = transfer_fetch p ∧ members p' = members p.
Proof.
  intros (Hh & Hd & Ht). unfold start_call. destruct (request_with _ _ _ _ _ _) as [r|]; [|done].
  cbn [start]. intros [= <- <-]. simpl. pose proof Hh as [Hh1 Hh2].
  assert (Hn : n_next (net p) ∉ extra ∪ held p) by (intros [k Hk]%Hh1; apply Hh2 in Hk; lia).
  split; [|set_solver]. unfold ok_with, held in *. simpl. split_and!; [|set_solver..].
  eapply handles_ok_eq; [|exact (handles_start _ (c, r) _ Hh)]. simpl. set_solver.
Qed.

Lemma store_fetch c method path payload p i p' :
  page_ok p → start_call props c method path payload p = Ok (i, p') → page_ok (set_fetch (Some i) p').
Proof.
  intros Hp Hs. apply (start_call_with ∅) in Hs as (Ho & _); [|done].
  apply (set_fetch_with _ (Some i)) in Ho; [|simpl; set_solver]. unfold page_ok.
  by replace (({[i]} ∪ ∅) ∖ handle_set (Some i)) with (∅ : gset nat) in Ho by (simpl; set_solver).
Qed.

Lemma store_transfer_fetch c method path payload p i p' :
  page_ok p → start_call props c method path payload p = Ok (i, p') → page_ok (set_transfer_fetch (Some i) p').
Proof.
  intros Hp Hs. apply (start_call_with ∅) in Hs as (Ho & _); [|done].
  apply (set_transfer_fetch_with _ (Some i)) in Ho; [|simpl; set_solver]. unfold page_ok.
  by replace (({[i]} ∪ ∅) ∖ handle_set (Some i)) with (∅ : gset nat) in Ho by (simpl; set_solver).
Qed.

Lemma load_ok p i j p' :
  page_ok p → load props p = Ok (i, j, p') → page_ok (set_transfer_fetch (Some j) (set_fetch (Some i) p')).
Proof.
  intros Hp. unfold load, load_members, load_transfer_state.
  destruct (start_call _ LoadMembersCall _ _ _ _) as [[i1 p1]|] eqn:H1; [|done].
  destruct (start_call _ LoadTransferCall _ _ _ _) as [[j1 p2]|] eqn:H2; [|done]. intros [= <- <- <-].
  apply (start_call_with ∅) in H1 as (Ho & _); [|done]. apply (start_call_with ({[i1]} ∪ ∅)) in H2 as (Ho2 & Hj & _); [|exact Ho].
  apply (set_fetch_with _ (Some i1)) in Ho2; [|simpl; set_solver].
  apply (set_transfer_fetch_with _ (Some j1)) in Ho2; [|simpl; set_solver]. unfold page_ok.
  match type of Ho2 with ok_with ?a _ => replace a with (∅ : gset nat) in Ho2 by (simpl; set_solver) end. done.
Qed.

Lemma update_ok msg p : page_ok p → page_ok (update props msg p).1.
Proof.
  intros Hp. destruct msg; cbn [update].
  - destruct (load props p) as [[[i j] p']|] eqn:Hl; [by eapply load_ok|done].
  - by apply set_fetch_none.
  - destruct (members p) as [m|]; [|done]. destruct (users_add _ _ m) as [m'|]; [|done].
    destruct (submit props _) as [[i p']|] eqn:Hs; [|done]. unfold submit in Hs. simpl in Hs.
    by eapply store_fetch; [|exact Hs].
  - destruct (members p) as [m|]; [|done].
    destruct (submit props _) as [[i p']|] eqn:Hs; [|done]. unfold submit in Hs. simpl in Hs.
    by eapply store_fetch; [|exact Hs].
  - done.
  - done.
  - done.
  - destruct (transfer_owner_call props p) as [[i p']|] eqn:Hs; [|done]. by eapply store_fetch; [|exact Hs].
  - apply set_transfer_fetch_none in Hp. by destruct transfer.
  - destruct (cancel_transfer props p) as [[i p']|] eqn:Hs; [|done]. by eapply store_transfer_fetch; [|exact Hs].
  - by apply set_fetch_none.
  - by apply set_fetch_none.
  - by destruct err.
Qed.

Lemma dispatch_ok msg p : page_ok p → page_ok (dispatch props msg p).
Proof.
  intros Hp. unfold dispatch. apply (update_ok msg) in Hp. destruct (update props msg p) as [p1 sent]. simpl in Hp.
  revert p1 Hp. induction sent as [|m sent IH]; intros p1 Hp; [done|]. cbn [foldl]. by apply IH, update_ok.
Qed.

Lemma receive_ok i response p : page_ok p → page_ok (receive props i response p).
Proof.
  intros Hp. unfold receive. destruct (answered _ _ _) as [|[t msg] [|? ?]]; try done. apply dispatch_ok. by destruct t.
Qed.

(** The life of a page: what its user does, and the answers that arrive, in any order. *)
Inductive Input : Type := User_ (msg : Msg) | Answer (i : nat) (response : result (Z * string) string).
Definition page_step p (x : Input) : Page :=
  match x with User_ msg => dispatch props msg p | Answer i response => receive props i response p end.
Definition page_run (l : list Input) : Page := foldl page_step (dispatch props LoadMembers create_page) l.

Lemma create_ok : page_ok create_page.
Proof.
  unfold page_ok, ok_with. split_and!; [|set_solver..]. eapply handles_ok_eq; [|apply handles_empty].
  unfold held. simpl. set_solver.
Qed.

Lemma page_run_ok l : page_ok (page_run l).
Proof.
  unfold page_run. pose proof (dispatch_ok LoadMembers create_page create_ok) as Hp. revert Hp.
  generalize (dispatch props LoadMembers create_page). induction l as [|x l IH]; intros p Hp; [done|]. cbn [foldl].
  apply IH. destruct x; [by apply dispatch_ok|by apply receive_ok].
Qed.

(** Whatever the user does and in whatever order answers arrive, an answer has an effect
    only if it is that of the last request of its kind: the answer to a request that was
    replaced by another changes nothing. *)
Theorem replaced_requests_ignored l i response :
  fetch (page_run l) ≠ Some i → transfer_fetch (page_run l) ≠ Some i →
  receive props i response (page_run l) = page_run l.
Proof.
  intros Hf Ht. unfold receive. destruct (answered i (λ k, on_answer k.1 response) (net (page_run l))) as [|x xs] eqn:Ha; [done|].
  exfalso. assert (Hx : x ∈ answered i (λ k, on_answer k.1 response) (net (page_run l))) by (rw Ha; set_solver).
  apply (answered_held (∅ ∪ held (page_run l))) in Hx; [|apply page_run_ok].
  unfold held, handle_set in Hx. destruct (fetch (page_run l)), (transfer_fetch (page_run l)); set_solver.
Qed.
End Invariant.

(** ** With the registry *)

(** A browser, its server and the formats between them: paths are read as they were written,
    for names of applications, members and errors as they were encoded. *)
Class AdminWire `{ApiCodecs, ConsoleCodecs} (b : Backend) (server_path : string → list string) (error_text : string → string)
    : Prop := {
  path_read name what :
    all_chars hostname_char name = true → has_char "/"%char what = false →
    server_path (set_path b ("/api/admin/v1alpha1/apps/" +:+ url_encode name +:+ "/" +:+ what))
    = ["admin"; "v1alpha1"; "apps"; name; what];
  members_sent m : NoDup (m_members m).*1 → ∃ s, members_vec m = Ok s ∧ decode_members s = Some m;
  members_read m : NoDup (m_members m).*1 → ∃ s, members_json m = Ok s ∧ from_members s = Ok m;
  errors_read e : ∃ info, from_error (error_text e) = Ok info ∧ ei_error info = e;
}.

Definition method_of (s : string) : HttpMethod :=
  if string_eqb s "PUT" then PUT else if string_eqb s "POST" then POST else if string_eqb s "DELETE" then DELETE else GET.

Section System.
Context `{UuidCodec, ClientApi, Keycloak, ApiCodecs, Nom, ConsoleCodecs} {E : Type}.
Context (instance : string) (sender : list Event.t → result unit E) (nom_error : string → string).
Context (name_le : relation string) `{∀ x y, Decision (name_le x y)}.
Context (props : Props) (server_path : string → list string) (error_text : string → string).
Context `{!AdminWire (p_backend props) server_path error_text}.
Implicit Types (env : Env) (user : UserInformation) (db : Db) (p : Page).

Definition body_text (b : ResponseBody) : string :=
  match b with
  | NoBody => ""
  | JsonBody t => t
  | ArrayBody chunks => default "" (Streamer.text_of chunks)
  | ErrorBody e => error_text e
  end.

Definition serve_fetch env user (r : FetchRequest) db : ApiResult :=
  serve_request instance sender nom_error name_le env user
    (mkHttpRequest (method_of (f_method r)) (server_path (f_url r)) "" (default "" (f_body r))) db.

(** The registry answers a request of the page, and the answer arrives. *)
Definition exchange env user (i : nat) p db : Page * Db :=
  match n_requests (net p) !! i with
  | Some ((_, r), _) =>
      let res := serve_fetch env user r db in
      (receive props i (Ok (hr_status (ar_answer res), body_text (hr_body (ar_answer res)))) p, ar_state res)
  | None => (p, db)
  end.

Notation name := (p_name props).

Lemma exchange_ok env user i p db : page_ok p → page_ok (exchange env user i p db).1.
Proof.
  intros Hp. unfold exchange. destruct (n_requests (net p) !! i) as [[[c r] a]|]; [|done]. by apply receive_ok.
Qed.

(** The request of a call to the API of administration. *)
Definition call_fetch (method what : string) (content_type : list (string * string)) (body : option string) : FetchRequest :=
  mkFetch method (set_path (p_backend props) (admin_path props what))
    (content_type ++ [("Authorization", "Bearer " +:+ access_token (p_backend props))])
    body [("cache", Some "no-cache"); ("credentials", None); ("redirect", Some "follow"); ("mode", Some "cors")].

(** A page that waits for the answer to a call. *)
Definition waits (i : nat) (c : Call) (r : FetchRequest) p : Prop :=
  page_ok p ∧ fetch p = Some i ∧ n_requests (net p) !! i = Some ((c, r), true).

Lemma start_call_nothing c method what p :
  start_call props c method (admin_path props what) Nothing p
  = let '(i, n) := start (c, call_fetch method what [] None) (net p) in Ok (i, set_net n p).
Proof. unfold start_call. by rw request_shape. Qed.

Lemma start_call_json c method what s p :
  start_call props c method (admin_path props what) (JsonData (Ok s)) p
  = let '(i, n) := start (c, call_fetch method what [("Content-Type", "application/json")] (Some s)) (net p) in Ok (i, set_net n p).
Proof. unfold start_call. by rw request_shape. Qed.

Lemma drop_other {K} h i (n : Net K) : h ≠ Some i → n_requests (drop_handle h n) !! i = n_requests n !! i.
Proof. destruct h as [j|]; [|done]. intros Hne. simpl. by rw lookup_alter_ne; [congruence|]. Qed.

Lemma fresh_not_held p : page_ok p → fetch p ≠ Some (n_next (net p)) ∧ transfer_fetch p ≠ Some (n_next (net p)).
Proof.
  intros ((Hh & Hn) & _). assert (Hf : n_next (net p) ∉ ∅ ∪ held p) by (intros [k Hk]%Hh; apply Hn in Hk; lia).
  unfold held, handle_set in Hf. split; intros He; rw He in Hf; set_solver.
Qed.

Lemma reload_waits p :
  page_ok p →
  waits (n_next (net p)) LoadMembersCall (call_fetch "GET" "members" [] None) (dispatch props LoadMembers p) ∧
  members (dispatch props LoadMembers p) = members p.
Proof.
  intros Hp. pose proof (dispatch_ok props LoadMembers p Hp) as Hd. destruct (fresh_not_held p Hp) as [Hf Ht].
  revert Hd. unfold waits, dispatch. cbn [update]. unfold load, load_members. rw start_call_nothing. cbn [start].
  unfold load_transfer_state. rw start_call_nothing. cbn [start foldl]. intros Hd. simpl in *. split_and!; try done.
  rw (drop_other (transfer_fetch p)) // (drop_other (fetch p)) //. simpl.
  rw lookup_insert_ne; [lia|]. apply lookup_insert_eq.
Qed.

Lemma reload_toasts p : toasts (dispatch props LoadMembers p) = toasts p.
Proof.
  unfold dispatch. cbn [update]. unfold load, load_members. rw start_call_nothing. cbn [start].
  unfold load_transfer_state. by rw start_call_nothing.
Qed.

Lemma dispatch_error err p :
  dispatch props (ErrorMsg err) p = dispatch props LoadMembers (set_fetch None (toast (Danger err) p)).
Proof.
  unfold dispatch. cbn [update foldl]. unfold load, load_members. rw start_call_nothing. cbn [start].
  unfold load_transfer_state. by rw start_call_nothing.
Qed.

Lemma waits_receive i c r p response :
  waits i c r p →
  receive props i response p
  = dispatch props (on_answer c response).2 (match (on_answer c response).1 with Some t => toast t p | None => p end).
Proof.
  intros (_ & _ & Hi). unfold receive, answered. rw Hi. cbn [fst]. by destruct (on_answer c response).
Qed.

Lemma get_serve env user db :
  all_chars hostname_char name = true →
  serve_fetch env user (call_fetch "GET" "members" [] None) db = unchanged db (api_get_members user name db).
Proof. intros Hn. unfold serve_fetch, call_fetch, admin_path. cbn [f_url f_method]. by rw path_read. Qed.

Lemma put_serve env user s m db :
  all_chars hostname_char name = true → decode_members s = Some m →
  serve_fetch env user (call_fetch "PUT" "members" [("Content-Type", "application/json")] (Some s)) db
  = api_set_members instance sender env user name m db.
Proof.
  intros Hn Hs. unfold serve_fetch, call_fetch, admin_path. cbn [f_url f_method f_body default]. rw path_read //.
  unfold serve_request. cbn. by rw Hs.
Qed.

Lemma im_insert_nodup {V} k (v : V) m : NoDup m.*1 → NoDup (im_insert k v m).*1.
Proof.
  destruct (decide (k ∈ m.*1)) as [Hk|Hk].
  - intros Hnd. replace (im_insert k v m).*1 with m.*1; [done|]. clear Hnd. induction m as [|[k' v'] m IH]; [set_solver|].
    simpl. destruct (string_eqb_spec k k') as [->|Hne]; [done|]. simpl. f_equal. apply IH. simpl in Hk. set_solver.
  - rw im_insert_new //. intros Hnd. rw fmap_app. apply NoDup_app. split_and!; [done|set_solver|apply NoDup_singleton].
Qed.

Lemma get_members_nodup user db m : get_members user name db = Ok m → NoDup (m_members m).*1.
Proof.
  unfold get_members. intros Hg. split_all. simpl. unfold members_to_names.
  assert (Hgen : ∀ (l acc : list (string * MemberEntry)), NoDup acc.*1 → NoDup (foldl (λ acc '(k, v),
      if is_empty k then im_insert k v acc
      else match username_from_id k with Some u => im_insert u v acc | None => acc end) acc l).*1).
  { induction l as [|[k v] l IH]; intros acc Ha; [done|]. cbn [foldl]. apply IH. destruct (is_empty k); [by apply im_insert_nodup|].
    destruct (username_from_id k); [by apply im_insert_nodup|done]. }
  apply Hgen, NoDup_nil_2.
Qed.

(** A page that waits for the members shows those the registry has. *)
Lemma load_shows env user i p db m :
  all_chars hostname_char name = true →
  waits i LoadMembersCall (call_fetch "GET" "members" [] None) p → get_members user name db = Ok m →
  members (exchange env user i p db).1 = Some (users_from m name) ∧ (exchange env user i p db).2 = db.
Proof.
  intros Hn Hw Hg. pose proof Hw as (_ & _ & Hi). unfold exchange. rw Hi get_serve //. unfold api_get_members.
  rw Hg. destruct (members_read m (get_members_nodup user db m Hg)) as (s & Hs & Hd). cbn [unchanged ar_state ar_answer snd fst].
  split; [|done]. rw Hs (waits_receive i _ _ p _ Hw). cbn [json_answer hr_status hr_body body_text on_answer].
  rw (proj2 (api_success_iff from_members from_error show_number (Ok (200, s)%Z) m 200)); [by exists s|]. done.
Qed.

(** An error of the registry, as a page reads it. *)
Lemma refused_answer e :
  ∃ info, ei_error info = RegistryApi.error_name e ∧
    api_handler unit_payload from_error show_number (Ok (error_response e, error_text (RegistryApi.error_name e)))
    = Failure (Response info (error_response e)).
Proof.
  destruct (errors_read (RegistryApi.error_name e)) as (info & He & Hname). exists info. split; [done|].
  apply api_reported_iff. assert (Hc : (400 ≤ error_response e ≤ 599)%Z) by (destruct e; simpl; lia).
  eexists. split_and!; [done|lia..|done].
Qed.

(** What becomes of members that were submitted: they are what the registry now has, or the
    registry refused them and is as it was; then the page asks for the members again. *)
Lemma submit_exchange env user i s p db us :
  all_chars hostname_char name = true →
  decode_members s = Some (serialize us) →
  waits i SubmitCall (call_fetch "PUT" "members" [("Content-Type", "application/json")] (Some s)) p →
  ∃ j, waits j LoadMembersCall (call_fetch "GET" "members" [] None) (exchange env user i p db).1 ∧
  match set_members user name (serialize us) db with
  | Ok db' => (exchange env user i p db).2 = db' ∧
      SuccessToast "Application members saved." ∈ toasts (exchange env user i p db).1
  | Err e => (exchange env user i p db).2 = db ∧
      ∃ info, ei_error info = RegistryApi.error_name e ∧
        Danger (mkNotification "Update failed" (ei_message info)) ∈ toasts (exchange env user i p db).1
  end.
Proof.
  intros Hn Hd Hw. pose proof Hw as (Hp & _ & Hi). unfold exchange. rw Hi (put_serve env user s _ db Hn Hd).
  unfold api_set_members, handle_request, performed. cbn [ar_answer ar_state snd fst].
  rw (waits_receive i _ _ p _ Hw). destruct (set_members user name (serialize us) db) as [db'|e]; cbn [admin_response r_result r_db].
  - exists (n_next (net p)). cbn [finish_with hr_status hr_body body_text on_answer fst snd].
    change (api_handler unit_payload from_error show_number (Ok (204, "")%Z)) with (@Success () tt 204). cbn [fst snd].
    split; [by apply (proj1 (reload_waits (toast _ p) Hp))|]. split; [done|]. rw reload_toasts. simpl. set_solver.
  - destruct (refused_answer e) as (info & Hname & He). eexists.
    cbn [mgmt_error RegistryApi.service_error hr_status hr_body body_text on_answer fst snd]. rw He.
    cbn [fst snd error_description]. rw dispatch_error.
      split; [exact (proj1 (reload_waits (set_fetch None (toast _ p)) (set_fetch_none (toast _ p) Hp)))|].
      split; [done|]. exists info. split; [done|]. rw reload_toasts. simpl. set_solver.
Qed.

Lemma submit_waits us p :
  page_ok p → NoDup (u_id <$> us_members us) →
  ∃ i s q, submit props (set_members_of (Some us) p) = Ok (i, q) ∧ decode_members s = Some (serialize us) ∧
    waits i SubmitCall (call_fetch "PUT" "members" [("Content-Type", "application/json")] (Some s)) (set_fetch (Some i) q) ∧
    members (set_fetch (Some i) q) = Some us.
Proof.
  intros Hp Hnd. destruct (members_sent (serialize us)) as (s & Hs & Hd).
  { rw serialize_entries //. by rw -list_fmap_compose. }
  destruct (fresh_not_held p Hp) as [Hf _].
  assert (Hsub : submit props (set_members_of (Some us) p) = start_call props SubmitCall "PUT" (admin_path props "members")
    (JsonData (Ok s)) (set_members_of (Some us) p)) by (unfold submit; simpl; by rw Hs).
  destruct (start_call props SubmitCall "PUT" (admin_path props "members") (JsonData (Ok s)) (set_members_of (Some us) p))
    as [[i q]|] eqn:Hc; [|by rw start_call_json in Hc].
  exists i, s, q. split; [done|]. split; [done|]. split; [unfold waits; split_and!; [|done|]|].
  - by eapply (store_fetch props _ _ _ _ (set_members_of (Some us) p)).
  - rw start_call_json in Hc. cbn [start] in Hc. injection Hc as <- <-. simpl. rw drop_other //. simpl. apply lookup_insert_eq.
  - rw start_call_json in Hc. by injection Hc as <- <-.
Qed.

(** The members shown and the new one, as they are sent. *)
Definition wanted_members (us : Users) (p : Page) : list (string * MemberEntry) :=
  (entry_of <$> us_members us) ++ [(new_member_id p, mkMember (new_member_role p))].

(** The registry has exactly the wanted members, by their IDs, and the new one is among them in
    its role; the user may administrate the application, and the members shown were read at
    the version the application has. *)
Definition member_added (user : UserInformation) (us : Users) (p : Page) (db db' : Db) : Prop :=
  members_stored name (wanted_members us p) db db' ∧
  (∃ i app', member_id (new_member_id p) = Some i ∧ AppAccessor.get name db' = Some app' ∧
     im_get i (App.members app') = Some (mkMember (new_member_role p))) ∧
  ∃ app, AppAccessor.get name db = Some app ∧ authorize app user Permission.Admin = Allow ∧
    us_resource_version us = uuid_to_string (App.resource_version app).

Lemma member_added_set user us p db db' :
  set_members user name (mkMembers (Some (us_resource_version us)) (wanted_members us p)) db = Ok db' →
  member_added user us p db db'.
Proof.
  intros Hs. pose proof (set_members_outcome user name
    (mkMembers (Some (us_resource_version us)) (wanted_members us p)) db) as Ho.
  rw Hs in Ho. destruct Ho as [Hst (app & Hget & Hau & Hv)]. split_and!; [done| |].
  - destruct Hst as (_ & app' & _ & Hget' & Hknown & Hm & _).
    destruct (Hknown (new_member_id p)) as [i Hi].
    { unfold wanted_members. cbn [m_members]. rw fmap_app. apply elem_of_app. right. by left. }
    exists i, app'. split_and!; [done..|]. rw Hm. by apply resolved_last.
  - exists app. split_and!; [done..|]. by apply Hv.
Qed.

(** C40: a user adds a member to those the page shows.  If it is shown already, nothing is sent and
    the page says so.  Otherwise the members are sent, and when the registry has answered, it
    has exactly the members shown and the new one, each name by the ID of its user (if two
    names are of one user, with the role of the later, so that the new member always has the
    role it was given), and nothing else of it changed; or it is as it was, for one of the
    reasons to refuse members, and the page tells the error.  When the page has asked again it
    shows what the registry has. *)
Theorem add_member_end_to_end env1 env2 user p us db :
  all_chars hostname_char name = true → page_ok p →
  members p = Some us → NoDup (u_id <$> us_members us) →
  let q := dispatch props AddMember p in
  (new_member_id p ∈ (u_id <$> us_members us) →
     net q = net p ∧ fetch q = fetch p ∧ members q = Some us ∧
     Danger (mkNotification "Failed to add user" "User is already a member") ∈ toasts q) ∧
  (new_member_id p ∉ (u_id <$> us_members us) →
   ∃ i j, let r := exchange env1 user i q db in let t := exchange env2 user j r.1 r.2 in
    fetch q = Some i ∧ fetch r.1 = Some j ∧ t.2 = r.2 ∧
    (∀ m, get_members user name r.2 = Ok m → members t.1 = Some (users_from m name)) ∧
    (member_added user us p db r.2 ∧ SuccessToast "Application members saved." ∈ toasts r.1 ∨
     r.2 = db ∧ ∃ e info,
       members_refused user name (mkMembers (Some (us_resource_version us)) (wanted_members us p)) db e ∧
       ei_error info = RegistryApi.error_name e ∧
       Danger (mkNotification "Update failed" (ei_message info)) ∈ toasts r.1)).
Proof.
  intros Hn Hp Hm Hnd q. split.
  { intros Hin%users_contains_spec. unfold q, dispatch. cbn [update]. unfold users_add. rw Hm Hin.
    simpl. split_and!; try done. set_solver. }
  intros Hnew. destruct (users_add (new_member_id p) (new_member_role p) us) as [us'|] eqn:Ha; cycle 1.
  { unfold users_add in Ha. destruct (users_contains (new_member_id p) us) eqn:Hc; [|done].
    by apply users_contains_spec in Hc. }
  destruct (users_add_ok _ _ _ _ Ha Hnd) as [Hnd' Hser].
  destruct (submit_waits us' p Hp Hnd') as (i & s & q' & Hsub & Hdec & Hw & _).
  assert (Hq : q = set_fetch (Some i) q') by (unfold q, dispatch; cbn [update]; by rw Hm Ha Hsub).
  destruct (submit_exchange env1 user i s _ db us' Hn Hdec Hw) as (j & Hwj & Hres). rw Hser in Hres.
  exists i, j. cbn zeta. rw Hq. pose proof Hwj as (_ & Hfj & Hij).
  split; [apply Hw|]. split; [done|]. split; [|split].
  - unfold exchange at 1. rw Hij get_serve //.
  - intros m Hg. by apply load_shows.
  - pose proof (set_members_outcome user name (mkMembers (Some (us_resource_version us)) (wanted_members us p)) db) as Ho.
    pose proof (member_added_set user us p db) as Hadd. fold (wanted_members us p) in Hres.
    destruct (set_members user name _ db) as [db'|e]; destruct Hres as [Hdb Hres].
    + left. split; [|done]. rw Hdb. by apply Hadd.
    + right. split; [done|]. destruct Hres as (info & ? & ?). by exists e, info.
Qed.

(** ** Two administrators

    The registry does not change the version of an application when it sets the members, so
    that the version the page sends along does not tell that another page has changed them. *)
Lemma set_members_version user m db db' app :
  set_members user name m db = Ok db' → AppAccessor.get name db = Some app →
  ∃ app', AppAccessor.get name db' = Some app' ∧ App.resource_version app' = App.resource_version app.
Proof.
  unfold set_members. intros Hs Ha. rw Ha in Hs. split_all; rw get_set_members Ha; eauto.
Qed.

Theorem members_lost_update user1 user2 m db us1 us2 db1 id1 id2 r1 r2 :
  get_members user1 name db = Ok m → get_members user2 name db = Ok m →
  users_add id1 r1 (users_from m name) = Ok us1 → users_add id2 r2 (users_from m name) = Ok us2 →
  set_members user1 name (serialize us1) db = Ok db1 →
  (∃ app, AppAccessor.get name db1 = Some app ∧ ensure_with app user2 Permission.Admin NotFound = Ok tt) →
  is_Some (match names_to_members (m_members (serialize us2)) [] with Ok l => Some l | Err _ => None end) →
  ∃ db2 app2, set_members user2 name (serialize us2) db1 = Ok db2 ∧ AppAccessor.get name db2 = Some app2 ∧
    names_to_members (m_members m ++ [(id2, mkMember r2)]) [] = Ok (App.members app2) ∧ id1 ∉ (m_members m).*1.
Proof.
  intros Hm1 Hm2 Ha1 Ha2 Hs1 (app1 & Hg1 & He) [l Hl].
  pose proof (get_members_nodup _ _ _ Hm1) as Hnd.
  destruct (users_add_ok _ _ _ _ Ha2) as [_ Hser]; [by rw ids_from|].
  unfold get_members in Hm2. apply rbind_ok_inv in Hm2 as (app & Hget%ok_or_ok & Hm2). apply rbind_ok_inv in Hm2 as (? & _ & [= <-]).
  destruct (set_members_version _ _ _ _ _ Hs1 Hget) as (app1' & Hg1' & Hv). rw Hg1 in Hg1'. injection Hg1' as <-.
  rw entries_from in Hser. destruct (names_to_members (m_members (serialize us2)) []) as [l'|] eqn:Hnm; [|done].
  rw Hser in Hnm *. cbn [m_members] in Hnm. exists (AppAccessor.set_members name l' db1). eexists.
  rw get_set_members Hg1. cbn [fmap option_fmap option_map App.members]. split; [|split; [done|split; [done|]]].
  - unfold set_members. rw Hg1 /= Hv string_eqb_refl /= He /=. by rw Hnm.
  - rw -(ids_from _ name). intros Hin%users_contains_spec. unfold users_add in Ha1. by rw Hin in Ha1.
Qed.
End System.
