(* ===== verification/ConsolePages.v ===== *)
(** * Pages of the console

    [console-frontend/src/components/spy.rs], the events of an application as
    they come in; [pages/devices/index.rs] and [pages/devices/details.rs], the list
    of devices and the page of one; [pages/apps/ownership.rs], accepting an
    application.  What a page shows is its state, not the HTML made of it. *)

From S2P Require Import Prelude Json Versioning Auth Events Store Outbox Registry Management Admin Lifecycle Select Labels Listing Kafka RegistryApi CloudEvents Console ConsoleAdmin.
Import Console.Request.

(** ** The spy, [components/spy.rs] *)

Module Spy.
Definition DEFAULT_MAX_SIZE : nat := 200.

(** [OAuth2Context]: the token of a user who is authenticated. *)
Definition OAuth2 : Type := option string.

(** A connection: the application it is for, the token it was opened with, the messages sent,
    and whether it is open. *)
Record Socket := mkSocket { so_app : string; so_token : string; so_sent : list string; so_open : bool }.

Record t := mk {
  ws : option nat;
  oauth2 : option OAuth2;
  events : list CE.Event;
  application : string;
  device : string;
  channel : string;
  running : bool;
  total_received : nat;
  errors : list ErrorNotification;
  sockets : gmap nat Socket;
}.

Inductive Msg : Type :=
| Start (app_id : option string)
| StartPressed
| Stop
| Clear
| Event (event : CE.Event)
| Error (err : string)
| Failed (err : string)
| SetApplication (application : string)
| SetDevice (device : string)
| SetChannel (channel : string)
| OAuth2Context (oauth2 : OAuth2).

Definition create (app dev : option string) (auth : option OAuth2) : t :=
  mk None auth [] (default "" app) (default "" dev) "" false 0 [] ∅.

(** [Entry] *)
Definition entry_device (e : CE.Event) : string := default "" (CE.ext_to_string <$> CE.extension EXT_DEVICE e).
Definition entry_channel (e : CE.Event) : string := default "" (CE.subject e).

Definition app_id_filter (s : t) : option string := if is_empty (application s) then None else Some (application s).

(** The filter of the page. *)
Definition shows (dev chan : string) (e : CE.Event) : bool :=
  (is_empty dev || string_eqb dev (entry_device e)) && (is_empty chan || string_eqb chan (entry_channel e)).

(** [while self.events.len() > DEFAULT_MAX_SIZE { self.events.pop(); }] *)
Fixpoint trim (fuel : nat) (l : list CE.Event) : list CE.Event :=
  match fuel with
  | O => l
  | S fuel => if (DEFAULT_MAX_SIZE <? length l)%nat then trim fuel (removelast l) else l
  end.

(** The state with another connection, events or text. *)
Definition set_ws w r (sk : gmap nat Socket) (s : t) : t :=
  mk w (oauth2 s) (events s) (application s) (device s) (channel s) r (total_received s) (errors s) sk.
Definition set_events e n (s : t) : t :=
  mk (ws s) (oauth2 s) e (application s) (device s) (channel s) (running s) n (errors s) (sockets s).
Definition set_filters a d c (s : t) : t :=
  mk (ws s) (oauth2 s) (events s) a d c (running s) (total_received s) (errors s) (sockets s).
Definition set_oauth2 o (s : t) : t :=
  mk (ws s) o (events s) (application s) (device s) (channel s) (running s) (total_received s) (errors s) (sockets s).
Definition add_error (title description : string) (s : t) : t :=
  mk (ws s) (oauth2 s) (events s) (application s) (device s) (channel s) (running s) (total_received s)
    (errors s ++ [mkNotification title description]) (sockets s).

Definition close_socket (s : Socket) : Socket := mkSocket (so_app s) (so_token s) (so_sent s) false.
Definition send_socket (m : string) (s : Socket) : Socket := mkSocket (so_app s) (so_token s) (so_sent s ++ [m]) (so_open s).

Section Update.
Context (endpoint : option string) (parse_url : string → bool) (refresh_message : string → result string string).

(** [start]: [None] is the panic of an address that is no URL. *)
Definition start (app_id : option string) (s : t) : option t :=
  match endpoint, app_id with
  | Some ws_url, Some app =>
      if parse_url ws_url then
        match oauth2 s with
        | Some (Some access_token) =>
            let i := fresh (dom (sockets s)) in
            Some (set_ws (Some i) true (<[i := mkSocket app access_token [] true]> (sockets s)) s)
        | _ => Some s
        end
      else None
  | _, _ => Some s
  end.

(** [stop] and [destroy] *)
Definition close_ws (s : t) : gmap nat Socket :=
  match ws s with Some i => alter close_socket i (sockets s) | None => sockets s end.
Definition stop (s : t) : t := set_ws None false (close_ws s) s.
Definition destroy (s : t) : t := set_ws None (running s) (close_ws s) s.

Definition update (msg : Msg) (s : t) : option (t * list Msg) :=
  match msg with
  | Start app_id => (λ s, (s, [])) <$> start app_id s
  | StartPressed => Some (s, [Start (app_id_filter s)])
  | Stop => Some (stop s, [])
  | Clear => Some (set_events [] 0 s, [])
  | Event event =>
      let es := if shows (device s) (channel s) event then event :: events s else events s in
      Some (set_events (trim (length es) es) (S (total_received s)) s, [])
  | Error err => Some (add_error "Failed to process event" err s, [])
  | Failed err =>
      Some (set_ws (ws s) false (sockets s)
        (add_error "Source error" ("Connection to the websocket service failed (" +:+ err +:+ ")") s), [])
  | SetApplication a => Some (set_filters a (device s) (channel s) s, [])
  | OAuth2Context o =>
      let sk := match ws s, o with
                | Some i, Some token =>
                    match refresh_message token with
                    | Ok m => alter (send_socket m) i (sockets s)
                    | Err _ => sockets s
                    end
                | _, _ => sockets s
                end in
      Some (set_oauth2 (Some o) (set_ws (ws s) (running s) sk s), [])
  | SetDevice d => Some (set_filters (application s) d (channel s) s, [])
  | SetChannel c => Some (set_filters (application s) (device s) c s, [])
  end.

(** A message and the one it sends. *)
Definition dispatch (msg : Msg) (s : t) : option t :=
  match update msg s with
  | Some (s, sent) => foldl (λ s m, s ← s; fst <$> update m s) (Some s) sent
  | None => None
  end.

(** ** The table *)

Lemma trim_take fuel l : (length l ≤ fuel + DEFAULT_MAX_SIZE)%nat → trim fuel l = take DEFAULT_MAX_SIZE l.
Proof.
  revert l. induction fuel as [|fuel IH]; intros l Hl; cbn [trim]; [rw take_ge //; lia|].
  destruct (Nat.ltb_spec DEFAULT_MAX_SIZE (length l)) as [Hlt|Hge]; [|rw take_ge //; lia].
  destruct l as [|x l] using rev_ind; [simpl in Hlt; lia|]. rw removelast_last. rw length_app /= in Hl Hlt.
  rw IH; [lia|]. rw take_app_le //. lia.
Qed.

Lemma trim_all l : trim (length l) l = take DEFAULT_MAX_SIZE l.
Proof. apply trim_take. lia. Qed.

(** The table has the latest events that pass the filter, newest first, and never more than
    it may; all events are counted. *)
Theorem spy_table evs s :
  (length (events s) ≤ DEFAULT_MAX_SIZE)%nat →
  ∃ s', foldl (λ s e, s ← s; dispatch (Event e) s) (Some s) evs = Some s' ∧
    events s' = take DEFAULT_MAX_SIZE (base.filter (shows (device s) (channel s)) (reverse evs) ++ events s) ∧
    total_received s' = (length evs + total_received s)%nat ∧ (length (events s') ≤ DEFAULT_MAX_SIZE)%nat.
Proof.
  revert s. induction evs as [|e evs IH]; intros s Hl.
  { exists s. rw take_ge //. }
  cbn [foldl]. set (es := if shows (device s) (channel s) e then e :: events s else events s).
  set (s1 := set_events (trim (length es) es) (S (total_received s)) s).
  change (Some s ≫= λ s, dispatch (Event e) s) with (Some s1).
  assert (He : events s1 = take DEFAULT_MAX_SIZE es) by apply trim_all.
  destruct (IH s1) as (s' & Hr & Hev & Ht & Hlen); [rw He length_take; lia|].
  exists s'. split; [done|]. change (device s1) with (device s) in Hev. change (channel s1) with (channel s) in Hev.
  split_and!; [|rw Ht /=; lia|done]. rw Hev He reverse_cons filter_app -app_assoc.
  assert (Hes : base.filter (shows (device s) (channel s)) [e] ++ events s = es).
  { unfold es. rw filter_cons. destruct (shows (device s) (channel s) e); done. }
  rw Hes. set (l := base.filter _ (reverse evs)). rw !take_app take_take. f_equal. f_equal. lia.
Qed.

(** ** Connections *)

(** What the user can press, and what connections do; a connection fails when it is closed,
    and the callbacks of one that was replaced are gone. *)
Inductive Input : Type :=
| Press (msg : Msg)
| Message (i : nat) (event : result CE.Event string)
| Closed (i : nat) (reason : string)
| NewToken (o : OAuth2).

Definition offered (msg : Msg) (s : t) : bool :=
  match msg with
  | StartPressed => negb (running s) && negb (is_empty (application s))
  | Stop => running s
  | SetApplication _ => negb (running s)
  | Clear | SetDevice _ | SetChannel _ => true
  | _ => false
  end.

Definition step (s : t) (x : Input) : option t :=
  match x with
  | Press msg => if offered msg s then dispatch msg s else Some s
  | Message i event =>
      if bool_decide (ws s = Some i) then dispatch (match event with Ok e => Event e | Err e => Error e end) s else Some s
  | Closed i reason =>
      let s := set_ws (ws s) (running s) (alter close_socket i (sockets s)) s in
      if bool_decide (ws s = Some i) then dispatch (Failed reason) s else Some s
  | NewToken o => dispatch (OAuth2Context o) s
  end.

(** The only connection that is open is that of a spy that runs, and it is for the
    application the page shows. *)
Definition one_connection (s : t) : Prop :=
  (∀ i k, sockets s !! i = Some k → so_open k = true → ws s = Some i ∧ running s = true ∧ so_app k = application s) ∧
  (running s = true → is_Some (ws s)).

Lemma close_ws_closed s i k : one_connection s → close_ws s !! i = Some k → so_open k = false.
Proof.
  intros [Ho _] Hk. destruct (so_open k) eqn:He; [|done]. exfalso. unfold close_ws in Hk.
  destruct (ws s) as [j|] eqn:Hw; [|destruct (Ho i k Hk He) as [? _]; congruence].
  rw lookup_alter in Hk. case_decide as Hij.
  - subst i. destruct (sockets s !! j); [|done]. simpl in Hk. by injection Hk as <-.
  - destruct (Ho i k Hk He) as [? _]. congruence.
Qed.

Lemma same_connections s s' :
  ws s' = ws s → running s' = running s → application s' = application s → sockets s' = sockets s →
  one_connection s → one_connection s'.
Proof. intros Hw Hr Ha Hs [H1 H2]. unfold one_connection. by rw Hw Hr Ha Hs. Qed.

Lemma start_connection app s s' :
  one_connection s → running s = false → app_id_filter s = Some app → start (Some app) s = Some s' → one_connection s'.
Proof.
  intros [Ho Hr] Hn Ha. unfold start. destruct endpoint as [u|]; [|by intros [= <-]]. destruct (parse_url u); [|done].
  destruct (oauth2 s) as [[tok|]|]; intros [= <-]; [|done..]. split; [|done]. simpl. intros i k.
  destruct (decide (i = fresh (dom (sockets s)))) as [->|Hne].
  - rw lookup_insert_eq. intros [= <-] _. simpl. split_and!; try done. unfold app_id_filter in Ha.
    destruct (is_empty (application s)); congruence.
  - rw lookup_insert_ne; [congruence|]. intros Hk Hop. destruct (Ho i k Hk Hop) as (_ & Hrun & _). congruence.
Qed.

Lemma step_connection s x s' : one_connection s → step s x = Some s' → one_connection s'.
Proof.
  intros Hone. pose proof Hone as [Ho Hr]. destruct x as [msg|i ev|i reason|o]; unfold step.
  - destruct (offered msg s) eqn:Hof; [|by intros [= <-]]. destruct msg; try done; unfold dispatch; cbn.
    + apply andb_true_iff in Hof as [Hn Ha]. apply negb_true_iff in Hn, Ha.
      unfold app_id_filter at 1. rw Ha. destruct (start _ s) as [s1|] eqn:Hs; [|done]. intros [= <-].
      eapply start_connection; [exact Hone|exact Hn| |exact Hs]. unfold app_id_filter. by rw Ha.
    + intros [= <-]. split; [|done]. simpl. intros i k Hk Hop. apply close_ws_closed in Hk; [congruence|done].
    + intros [= <-]. by eapply same_connections.
    + intros [= <-]. split; [|done]. simpl in *. intros i k Hk Hop. destruct (Ho i k Hk Hop) as (_ & Hrun & _). by rw Hrun in Hof.
    + intros [= <-]. by eapply same_connections.
    + intros [= <-]. by eapply same_connections.
  - case_bool_decide; [|by intros [= <-]]. destruct ev; unfold dispatch; cbn; intros [= <-]; by eapply same_connections.
  - assert (Hc : ∀ j k, alter close_socket i (sockets s) !! j = Some k → so_open k = true → j ≠ i ∧ sockets s !! j = Some k).
    { intros j k. rw lookup_alter. case_decide as Hij; [|done]. subst j. destruct (sockets s !! i); [|done].
      simpl. by intros [= <-]. }
    cbn [ws set_ws]. case_bool_decide as Hw.
    + unfold dispatch; cbn. intros [= <-]. split; [|done]. simpl. intros j k Hk Hop. destruct (Hc j k Hk Hop) as [Hne Hj].
      destruct (Ho j k Hj Hop) as [Hwj _]. congruence.
    + intros [= <-]. split; [|done]. simpl. intros j k Hk Hop. destruct (Hc j k Hk Hop) as [Hne Hj]. by apply Ho.
  - unfold dispatch; cbn. intros [= <-]. split; [|done]. simpl. intros i k.
    destruct (ws s) as [w|] eqn:Hw; [|apply Ho]. destruct o as [tok|]; [|apply Ho]. destruct (refresh_message tok); [|apply Ho].
    rw lookup_alter. case_decide as Hi; [|apply Ho]. subst i. destruct (sockets s !! w) as [k0|] eqn:Hk0; [|done].
    simpl. intros [= <-]. simpl. by apply Ho.
Qed.

(** Whatever happens to the page and its connections, at most one connection is open, and
    when the page goes none is. *)
Theorem spy_connections app dev auth l s :
  foldl (λ s x, s ← s; step s x) (Some (create app dev auth)) l = Some s →
  one_connection s ∧ (∀ i k, sockets (destroy s) !! i = Some k → so_open k = false).
Proof.
  assert (Hi : one_connection (create app dev auth)).
  { split; [|done]. simpl. intros i k. by rw lookup_empty. }
  revert Hi. generalize (create app dev auth). induction l as [|x l IH]; intros s0 Hs0; cbn [foldl].
  - intros [= <-]. split; [done|]. intros i k. by apply close_ws_closed.
  - change (Some s0 ≫= λ s, step s x) with (step s0 x). destruct (step s0 x) as [s1|] eqn:Hs.
    + intros Hf. eapply (IH s1); [by eapply step_connection|done].
    + intros Hf. exfalso. clear -Hf. induction l; [done|]. by apply IHl.
Qed.
End Update.
End Spy.

(** ** Rendering payloads, [components/spy.rs] *)

Module Render.
(** [chunks(n)] of a text, and the lines they are joined to. *)
Fixpoint chunks (fuel n : nat) (l : list ascii) : list (list ascii) :=
  match fuel, l with
  | _, [] => []
  | O, _ => []
  | S fuel, l => take n l :: chunks fuel n (drop n l)
  end.

Definition newline : string := String.String "010"%char EmptyString.

Definition base64_block (encode : string → string) (input : string) : string :=
  let text := String.list_ascii_of_string (encode input) in
  join newline (String.string_of_list_ascii <$> chunks (length text) 120 text).

Lemma chunks_concat fuel n l : (0 < n)%nat → (length l ≤ fuel)%nat → concat (chunks fuel n l) = l.
Proof.
  intros Hn. revert l. induction fuel as [|fuel IH]; intros l Hl; [destruct l; [done|simpl in Hl; lia]|].
  destruct l as [|c l]; [done|]. cbn [chunks concat]. rw IH; [rw length_drop /=; simpl in Hl; lia|]. by rw take_drop.
Qed.

Lemma chunks_short fuel n l : Forall (λ c, (length c ≤ n)%nat) (chunks fuel n l).
Proof.
  revert l. induction fuel as [|fuel IH]; intros l; destruct l as [|c l]; try constructor; [|apply IH]. rw length_take. lia.
Qed.

(** The lines of the block are at most 120 characters long, and together they are the text. *)
Theorem base64_block_lines encode input :
  ∃ lines, base64_block encode input = join newline lines ∧
    concat (String.list_ascii_of_string <$> lines) = String.list_ascii_of_string (encode input) ∧
    Forall (λ l, (String.length l ≤ 120)%nat) lines.
Proof.
  eexists. split; [done|]. split.
  - rw -list_fmap_compose. rw (list_fmap_ext _ id).
    + intros i l _. apply String.list_ascii_of_string_of_list_ascii.
    + rw list_fmap_id. apply chunks_concat; lia.
  - apply Forall_fmap. eapply Forall_impl; [apply chunks_short|]. intros l Hl. unfold compose.
    replace (String.length (String.string_of_list_ascii l)) with (length l); [done|]. clear. induction l; simpl; congruence.
Qed.

(** The sign for what was left out, in UTF-8. *)
Definition ellipsis : string := String.String "226"%char (String.String "128"%char (String.String "166"%char EmptyString)).

(** [render_blob]: at most 25 bytes, in hexadecimal. *)
Definition render_blob (hex : ascii → string) (show : nat → string) (blob : string) : string :=
  let bytes := String.list_ascii_of_string blob in
  let max := Nat.min (length bytes) 25 in
  "[" +:+ show (length bytes) +:+ "; [" +:+ join ", " (hex <$> take max bytes) +:+ "]"
    +:+ (if (max <? length bytes)%nat then ", " +:+ ellipsis else EmptyString) +:+ "]".

(** [truncate_str], given the graphemes of the text. *)
Fixpoint truncate_from (len : nat) (graphemes : list string) (r : string) : string :=
  match graphemes with
  | [] => r
  | c :: rest =>
      if (len <? String.length r)%nat || has_char "010"%char r || has_char "013"%char r then r +:+ ellipsis
      else truncate_from len rest (r +:+ c)
  end.
Definition truncate_str (len : nat) (graphemes : list string) : string := truncate_from len graphemes EmptyString.

Definition text_of (graphemes : list string) : string := join EmptyString graphemes.

Lemma text_of_cons c gs : text_of (c :: gs) = c +:+ text_of gs.
Proof. destruct gs; [|done]. unfold text_of. cbn [join]. by rw app_empty_r. Qed.

Lemma truncate_from_prefix len gs r :
  truncate_from len gs r = r +:+ text_of gs ∨
  ∃ a c b, gs = a ++ c :: b ∧ truncate_from len gs r = r +:+ text_of a +:+ ellipsis.
Proof.
  revert r. induction gs as [|c gs IH]; intros r; cbn [truncate_from]; [left; by rw app_empty_r|].
  destruct (_ || _); [right; by exists [], c, gs|]. destruct (IH (r +:+ c)) as [He|(a & d & b & -> & He)].
  - left. by rw He text_of_cons str_app_assoc.
  - right. exists (c :: a), d, b. split; [done|]. by rw He text_of_cons !str_app_assoc.
Qed.

(** A text is shown whole, or cut between two characters and marked. *)
Theorem truncate_prefix len gs :
  truncate_str len gs = text_of gs ∨ ∃ a c b, gs = a ++ c :: b ∧ truncate_str len gs = text_of a +:+ ellipsis.
Proof. destruct (truncate_from_prefix len gs EmptyString) as [He|(a & c & b & -> & He)]; [by left|right; by exists a, c, b]. Qed.

Lemma truncate_from_whole len gs r :
  (String.length (r +:+ text_of gs) ≤ len)%nat →
  has_char "010"%char (r +:+ text_of gs) = false → has_char "013"%char (r +:+ text_of gs) = false →
  truncate_from len gs r = r +:+ text_of gs.
Proof.
  revert r. induction gs as [|c gs IH]; intros r Hl Hn Hr; cbn [truncate_from]; [by rw app_empty_r|].
  rw text_of_cons in Hl Hn Hr *. pose proof Hn as Hn'. pose proof Hr as Hr'. rw !has_char_app in Hn' Hr'.
  apply orb_false_iff in Hn' as [Hn1 _], Hr' as [Hr1 _]. rw str_length_app in Hl.
  assert (Hlt : (len <? String.length r)%nat = false) by (apply Nat.ltb_ge; lia). rw Hlt. rw Hn1 Hr1. cbn [orb].
  rw IH; rw str_app_assoc //. rw str_length_app //.
Qed.

(** A short text of one line is not cut. *)
Theorem truncate_whole len gs :
  (String.length (text_of gs) ≤ len)%nat →
  has_char "010"%char (text_of gs) = false → has_char "013"%char (text_of gs) = false → truncate_str len gs = text_of gs.
Proof. intros Hl Hn Hr. by apply (truncate_from_whole len gs EmptyString). Qed.
End Render.

(** ** The list of devices, [pages/devices/index.rs] *)

Module Index.
Import Paging.

Inductive Call : Type := LoadAppsCall | LoadCall | DeleteCall.

(** What a page does beside its state: toasts, dialogs, the context of the console, routes. *)
Inductive Effect (D : Type) : Type :=
| ErrorToast (n : ErrorNotification)
| SuccessNote (text : string)
| OpenCreate (app : string)
| OpenClone (d : D) (app : string)
| SetContext (app : string)
| PushIndex (app : string)
| PushDetails (app name : string).
Arguments ErrorToast {D} _.
Arguments SuccessNote {D} _.
Arguments OpenCreate {D} _.
Arguments OpenClone {D} _ _.
Arguments SetContext {D} _.
Arguments PushIndex {D} _.
Arguments PushDetails {D} _ _.

Section Index.
Context {D : Type} `{ConsoleCodecs} (backend : Backend).
Context (from_devices : string → result (list D) string) (from_apps : string → result (list string) string).

Record t := mk {
  fetch_task : option nat;
  entries : list D;
  app : string;
  app_filter : string;
  apps : list string;
  paging_options : PagingOptions;
  effects : list (Effect D);
  net : Net (Call * FetchRequest);
}.

Inductive Msg : Type :=
| LoadApps
| Load
| Navigate (nav : Navigation)
| SetLimit (limit : Z)
| SetData (entries : list D)
| SetApps (apps : list string)
| SetApp (app : string)
| Error (err : ErrorNotification)
| AppSearch (value : string)
| ShowOverview (name : string)
| Delete (name : string)
| Clone (d : D)
| TriggerModal
| DeletionComplete.

Definition set_task h (p : t) : t :=
  mk h (entries p) (app p) (app_filter p) (apps p) (paging_options p) (effects p) (drop_handle (fetch_task p) (net p)).
Definition set_entries e (p : t) : t :=
  mk (fetch_task p) e (app p) (app_filter p) (apps p) (paging_options p) (effects p) (net p).
Definition set_app a f l (p : t) : t :=
  mk (fetch_task p) (entries p) a f l (paging_options p) (effects p) (net p).
Definition set_paging o (p : t) : t :=
  mk (fetch_task p) (entries p) (app p) (app_filter p) (apps p) o (effects p) (net p).
Definition effect e (p : t) : t :=
  mk (fetch_task p) (entries p) (app p) (app_filter p) (apps p) (paging_options p) (effects p ++ e) (net p).
Definition set_requests n (p : t) : t :=
  mk (fetch_task p) (entries p) (app p) (app_filter p) (apps p) (paging_options p) (effects p) n.

Definition create (a : string) : t := mk None [] a "" [] default_paging [] empty_net.

Definition devices_path (a : string) : string := "/api/registry/v1alpha1/apps/" +:+ url_encode a +:+ "/devices".
Definition paging_query (o : PagingOptions) : list (string * string) :=
  [("limit", show_number (limit o)); ("offset", show_number (offset o))].

Definition load_request (a : string) (o : PagingOptions) : result FetchRequest string :=
  request_with backend "GET" (devices_path a) (paging_query o) Nothing [].
Definition load_apps_request : result FetchRequest string :=
  request_with backend "GET" "/api/registry/v1alpha1/apps" [] Nothing [].
Definition delete_request (a name : string) : result FetchRequest string :=
  request_with backend "DELETE" (devices_path a +:+ "/" +:+ url_encode name) [] Nothing [].

(** A request is started and its handle stored, or the error shown. *)
Definition begin (c : Call) (title : string) (r : result FetchRequest string) (p : t) : t :=
  match r with
  | Ok r => let '(i, n) := start (c, r) (net p) in set_task (Some i) (set_requests n p)
  | Err e => effect [ErrorToast (mkNotification title e)] p
  end.

(** [update]; [None] is an overflow of the paging. *)
Definition update (msg : Msg) (p : t) : option (t * list Msg) :=
  match msg with
  | LoadApps => Some (begin LoadAppsCall "Failed to fetch" load_apps_request p, [])
  | Load => Some (begin LoadCall "Failed to fetch" (load_request (app p) (paging_options p)) p, [])
  | Navigate nav => o ← navigate nav (paging_options p); Some (set_paging o p, [Load])
  | SetLimit l => Some (set_paging (mkPaging (offset (paging_options p)) l) p, [Load])
  | SetApps l =>
      let sent := if is_empty (app p) then match l with a :: _ => [SetApp a] | [] => [] end else [Load] in
      Some (set_app (app p) (app_filter p) l (set_task None p), sent)
  | SetData es => Some (set_task None (set_entries es p), [])
  | SetApp a =>
      if string_eqb (app p) a then Some (p, [])
      else Some (effect [SetContext a; PushIndex a] (set_paging default_paging p), [])
  | Error n => Some (effect [ErrorToast n] p, [])
  | ShowOverview name => Some (effect [PushDetails (app p) name] p, [])
  | AppSearch v => Some (set_app (app p) v (apps p) p, [])
  | TriggerModal => Some (effect [OpenCreate (app p)] p, [])
  | Delete name => Some (begin DeleteCall "Failed to delete" (delete_request (app p) name) p, [])
  | DeletionComplete => Some (effect [SuccessNote "Device deleted"] p, [Load])
  | Clone d => Some (effect [OpenClone d (app p)] p, [])
  end.

Fixpoint dispatch (fuel : nat) (queue : list Msg) (p : t) : option t :=
  match queue, fuel with
  | [], _ => Some p
  | _, O => None
  | m :: queue, S fuel =>
      match update m p with
      | Some (p, sent) => dispatch fuel (queue ++ sent) p
      | None => None
      end
  end.

(** [changed]: another application was routed to. *)
Definition changed (a : string) (p : t) : option t :=
  if string_eqb (app p) a then Some p else dispatch 3 [Load] (set_app a (app_filter p) (apps p) p).

Definition on_answer (c : Call) (response : result (Z * string) string) : Msg :=
  let describe := error_description show_code in
  match c with
  | LoadCall =>
      match api_handler from_devices from_error show_number response with
      | Success es _ => SetData es
      | Failure e => Error (mkNotification "Failed to load device" (describe e))
      end
  | LoadAppsCall =>
      match api_handler from_apps from_error show_number response with
      | Success l _ => SetApps l
      | Failure e => Error (mkNotification "Failed to load applications" (describe e))
      end
  | DeleteCall =>
      match api_handler unit_payload from_error show_number response with
      | Success _ 204 => DeletionComplete
      | Success _ code => Error (mkNotification "Failed to delete" ("Unknown message code: " +:+ show_code code))
      | Failure e => Error (mkNotification "Failed to delete" (describe e))
      end
  end.

Definition receive (i : nat) (response : result (Z * string) string) (p : t) : option t :=
  match answered i (λ k, on_answer k.1 response) (net p) with
  | [msg] => dispatch 3 [msg] p
  | _ => Some p
  end.

(** The applications to choose from. *)
Definition visible_apps (contains : string → string → bool) (p : t) : list string :=
  base.filter (λ a, is_empty (app_filter p) || contains a (app_filter p)) (apps p).

(** *** What the page waits for *)

Definition asks (p : t) : Prop :=
  handles_ok (handle_set (fetch_task p)) (net p) ∧
  ∀ i r, fetch_task p = Some i → n_requests (net p) !! i = Some ((LoadCall, r), true) →
    ∃ o, load_request (app p) o = Ok r.

Lemma set_task_none p : asks p → asks (set_task None p).
Proof.
  intros [Hh _]. split; [|done]. apply (drop_set _ (fetch_task p)) in Hh. eapply handles_ok_eq; [|exact Hh]. simpl. set_solver.
Qed.

Lemma begin_fresh c title x p :
  handles_ok (handle_set (fetch_task p)) (net p) → (c = LoadCall → ∃ o, load_request (app p) o = Ok x) →
  asks (begin c title (Ok x) p).
Proof.
  intros Hh Hc. unfold begin. cbn [start].
  assert (Hn : fetch_task p ≠ Some (n_next (net p))).
  { intros Hf. destruct Hh as [Hh1 Hh2]. destruct (proj1 (Hh1 (n_next (net p)))) as [k Hk]; [rw Hf; simpl; set_solver|].
    apply Hh2 in Hk. lia. }
  split.
  - pose proof (drop_set _ (fetch_task p) _ (handles_start _ (c, x) _ Hh)) as Hd. eapply handles_ok_eq; [|exact Hd].
    simpl. destruct (fetch_task p) as [j|]; simpl; [|set_solver]. assert (j ≠ n_next (net p)) by congruence. set_solver.
  - simpl. intros i r [= <-]. rw drop_other //. simpl. rw lookup_insert_eq. intros [= Hcc <-]. by apply Hc.
Qed.

Lemma begin_asks c title r p :
  asks p → (∀ x, r = Ok x → c = LoadCall → ∃ o, load_request (app p) o = Ok x) → asks (begin c title r p).
Proof. intros [Hh Hr] Hc. destruct r as [x|e]; [|done]. apply begin_fresh; auto. Qed.

Lemma updated (p p' : t) (sent sent' : list Msg) : Some (p, sent) = Some (p', sent') → p = p' ∧ sent = sent'.
Proof. naive_solver. Qed.

Lemma update_asks msg p p' sent : asks p → update msg p = Some (p', sent) → asks p'.
Proof.
  intros Hp. destruct msg; cbn [update].
  - intros [<- _]%updated. apply begin_asks; [done|]. by intros.
  - intros [<- _]%updated. apply begin_asks; [done|]. intros x Hx _. by exists (paging_options p).
  - destruct (navigate nav (paging_options p)); [|done]. by intros [<- _]%updated.
  - by intros [<- _]%updated.
  - intros [<- _]%updated. by apply (set_task_none (set_entries entries0 p)).
  - intros [<- _]%updated. by apply set_task_none in Hp.
  - destruct (string_eqb (app p) app0); by intros [<- _]%updated.
  - by intros [<- _]%updated.
  - by intros [<- _]%updated.
  - by intros [<- _]%updated.
  - intros [<- _]%updated. apply begin_asks; [done|]. by intros.
  - by intros [<- _]%updated.
  - by intros [<- _]%updated.
  - by intros [<- _]%updated.
Qed.

Lemma dispatch_asks fuel queue p p' : asks p → dispatch fuel queue p = Some p' → asks p'.
Proof.
  revert queue p. induction fuel as [|fuel IH]; intros [|m queue] p Hp; cbn [dispatch]; try done; try by intros [= <-].
  destruct (update m p) as [[q sent]|] eqn:Hu; [|done]. apply IH. by eapply update_asks.
Qed.

(** A message and those that follow are processed, unless the paging overflows: no message
    leads to more than two others. *)
Lemma dispatch_total msg p :
  (∀ nav, msg = Navigate nav → is_Some (navigate nav (paging_options p))) → is_Some (dispatch 3 [msg] p).
Proof.
  intros Hnav. destruct msg; cbn [dispatch update]; rewrite ?app_nil_l; cbn [dispatch update app]; eauto.
  - destruct (Hnav nav eq_refl) as [o Ho]. rw Ho. simpl. eauto.
  - destruct (is_empty (app p)); simpl; [|eauto]. destruct apps0 as [|a l]; simpl; [eauto|].
    destruct (string_eqb (app p) a); eauto.
  - destruct (string_eqb (app p) app0); simpl; eauto.
Qed.

(** *** The life of the page *)

Inductive Input : Type := User_ (msg : Msg) | Routed (a : string) | Answer (i : nat) (response : result (Z * string) string).

Definition page_step (p : t) (x : Input) : option t :=
  match x with
  | User_ msg => dispatch 3 [msg] p
  | Routed a => changed a p
  | Answer i response => receive i response p
  end.
Definition page_run (a : string) (l : list Input) : option t :=
  foldl (λ p x, p ← p; page_step p x) (dispatch 3 [LoadApps] (create a)) l.

Lemma step_asks p x p' : asks p → page_step p x = Some p' → asks p'.
Proof.
  intros Hp. destruct x as [msg|a|i response]; cbn [page_step].
  - by apply dispatch_asks.
  - unfold changed. destruct (string_eqb (app p) a); [by intros [= <-]|]. cbn [dispatch update app].
    intros Hq%(inj Some). subst p'. destruct Hp as [Hh _]. cbn [set_app app paging_options].
    destruct (load_request a (paging_options p)) as [r|] eqn:Hr; [|unfold load_request in Hr; by rw request_shape in Hr].
    apply begin_fresh; [done|]. intros _. by exists (paging_options p).
  - unfold receive. destruct (answered _ _ _) as [|m [|? ?]]; try by intros [= <-]. by apply dispatch_asks.
Qed.

(** Whatever the user does, wherever he is routed to and in whatever order answers arrive:
    the devices the page waits for are those of the application it shows, so that the list
    that arrives is never that of another one. *)
Theorem devices_of_app a l p i r :
  page_run a l = Some p → fetch_task p = Some i → n_requests (net p) !! i = Some ((LoadCall, r), true) →
  ∃ o, load_request (app p) o = Ok r.
Proof.
  unfold page_run. intros Hrun Hi Hr. enough (Hp : asks p) by (destruct Hp as [_ Hp]; by eapply Hp). clear Hi Hr.
  assert (Hc : asks (create a)) by (split; [apply handles_empty|done]).
  assert (Hgen : ∀ o : option t, (∀ q, o = Some q → asks q) → foldl (λ p x, p ← p; page_step p x) o l = Some p → asks p).
  { clear Hrun. induction l as [|x l IH]; intros o Ho; cbn [foldl]; [by apply Ho|]. apply IH. intros q Hq.
    destruct o as [q0|]; [|done]. by eapply step_asks; [apply Ho|]. }
  eapply Hgen; [|exact Hrun]. intros q Hq. by eapply dispatch_asks.
Qed.

(** Another application is shown from the page of the one before. *)
Theorem changed_keeps_paging a p p' : changed a p = Some p' → paging_options p' = paging_options p.
Proof.
  unfold changed. destruct (string_eqb (app p) a); [by intros [= <-]|]. cbn [dispatch update app].
  unfold begin. destruct (load_request _ _); by intros [= <-].
Qed.
End Index.
End Index.

(** ** Accepting an application, [pages/apps/ownership.rs] *)

Module Ownership.
Inductive Call : Type := LoadCall | AcceptCall | CancelCall.

Inductive Msg : Type :=
| Accept_
| Error (err : ErrorNotification)
| Success_
| Done_
| Decline
| TransferPending (pending : bool)
| Load.

Inductive Effect : Type := ErrorToast (n : ErrorNotification) | SuccessNote (text : string) | PushDetails (name : string).

(** [Ownership]; the timer sends [Done] after three seconds. *)
Record t := mk {
  fetch_task : option nat;
  timeout : bool;
  transfer_active : bool;
  effects : list Effect;
  net : Net (Call * FetchRequest);
}.

Definition create : t := mk None false false [] empty_net.

Section Page.
Context `{ConsoleCodecs} (props : Props).

Definition effect e (p : t) : t := mk (fetch_task p) (timeout p) (transfer_active p) (effects p ++ [e]) (net p).
Definition set_task h (p : t) : t := mk h (timeout p) (transfer_active p) (effects p) (drop_handle (fetch_task p) (net p)).

Definition begin (c : Call) (method path title : string) (p : t) : t :=
  match request_with (p_backend props) method path [] Nothing [] with
  | Ok r => let '(i, n) := start (c, r) (net p) in set_task (Some i) (mk (fetch_task p) (timeout p) (transfer_active p) (effects p) n)
  | Err e => effect (ErrorToast (mkNotification title e)) p
  end.

Definition update (msg : Msg) (p : t) : t :=
  match msg with
  | Load => begin LoadCall "GET" (admin_path props "transfer-ownership") "Failed to load transfer state" p
  | Accept_ => begin AcceptCall "PUT" (admin_path props "accept-ownership") "Failed to fetch" p
  | Decline => begin CancelCall "DELETE" (admin_path props "transfer-ownership") "Failed to cancel" p
  | Error n => effect (ErrorToast n) p
  | Done_ => effect (PushDetails (p_name props)) p
  | TransferPending pending =>
      let p := set_task None p in
      let p := mk (fetch_task p) (timeout p) pending (effects p) (net p) in
      if pending then p
      else effect (ErrorToast (mkNotification "Transfer unavailable"
        "This application transfer is not active. Maybe it was cancelled")) p
  | Success_ =>
      let p := effect (SuccessNote "Ownership transfer completed. You are now the owner of this application.") p in
      mk (fetch_task p) true (transfer_active p) (effects p) (net p)
  end.

Definition on_answer (c : Call) (response : result (Z * string) string) : Msg :=
  let answer := api_handler unit_payload from_error show_number response in
  let failed title := Error (mkNotification title (response_description show_code answer)) in
  match c, answer with
  | LoadCall, Success _ 200 => TransferPending true
  | LoadCall, Success _ 204 => TransferPending false
  | LoadCall, _ => failed "Failed to fetch transfer state"
  | AcceptCall, Success _ 204 => Success_
  | AcceptCall, _ => failed "Failed to accept ownership"
  | CancelCall, Success _ 204 => TransferPending false
  | CancelCall, _ => failed "Failed to cancel transfer"
  end.

Definition receive (i : nat) (response : result (Z * string) string) (p : t) : t :=
  match answered i (λ k, on_answer k.1 response) (net p) with
  | [msg] => update msg p
  | _ => p
  end.

(** The buttons are enabled. *)
Definition can_decide (p : t) : bool := match fetch_task p with Some _ => false | None => transfer_active p end.
End Page.

Section System.
Context `{UuidCodec, ClientApi, Keycloak, ApiCodecs, Nom, ConsoleCodecs} {E : Type}.
Context (instance : string) (sender : list Event.t → result unit E) (nom_error : string → string).
Context (name_le : relation string) `{∀ x y, Decision (name_le x y)}.
Context (props : Props) (server_path : string → list string) (error_text : string → string).
Context `{!AdminWire (p_backend props) server_path error_text}.
Implicit Types (env : Env) (user : UserInformation) (db : Db).

Notation name := (p_name props).
Notation serve := (serve_fetch instance sender nom_error name_le server_path).

Definition exchange env user (i : nat) (p : t) db : t * Db :=
  match n_requests (net p) !! i with
  | Some ((_, r), _) =>
      let res := serve env user r db in
      (receive props i (Ok (hr_status (ar_answer res), body_text error_text (hr_body (ar_answer res)))) p, ar_state res)
  | None => (p, db)
  end.

Definition accept_fetch : FetchRequest := call_fetch props "PUT" "accept-ownership" [] None.

Lemma accept_serve env user db :
  all_chars hostname_char name = true → serve env user accept_fetch db = api_accept instance sender env user name db.
Proof. intros Hn. unfold serve_fetch, accept_fetch, call_fetch, admin_path. cbn [f_url f_method]. by rw path_read. Qed.

Lemma accept_begins p :
  let q := update props Accept_ p in let i := n_next (net p) in
  (∀ j, fetch_task p = Some j → (j < i)%nat) →
  fetch_task q = Some i ∧ n_requests (net q) !! i = Some ((AcceptCall, accept_fetch), true) ∧ effects q = effects p.
Proof.
  intros q i Hlt. unfold q, update, begin. rw request_shape. cbn [payload_js start]. simpl. split_and!; try done.
  rw drop_other; [intros Hf; apply Hlt in Hf; unfold i in Hf; lia|]. simpl. apply lookup_insert_eq.
Qed.

(** A user who accepts an application is told that he is its owner exactly if the registry has
    made him the owner; otherwise nothing has changed and he is told what the registry said, but he
    cannot decide again: the buttons stay disabled. *)
Theorem accept_end_to_end env user p db :
  all_chars hostname_char name = true → (∀ j, fetch_task p = Some j → (j < n_next (net p))%nat) →
  let q := update props Accept_ p in
  let r := exchange env user (n_next (net p)) q db in
  match accept user name db with
  | Ok db' => r.2 = db' ∧ timeout r.1 = true ∧
      effects r.1 = effects p ++ [SuccessNote "Ownership transfer completed. You are now the owner of this application."]
  | Err e => r.2 = db ∧ timeout r.1 = timeout p ∧ can_decide r.1 = false ∧ ∃ info, ei_error info = RegistryApi.error_name e ∧
      effects r.1 = effects p ++ [ErrorToast (mkNotification "Failed to accept ownership" (ei_message info))]
  end.
Proof.
  intros Hn Hlt q r. destruct (accept_begins p Hlt) as (Hf & Hi & He). fold q in Hf, Hi, He.
  assert (Ht : timeout q = timeout p) by (unfold q, update, begin; by rw request_shape).
  unfold r, exchange. rw Hi accept_serve //. unfold api_accept, handle_request, performed, receive, answered. rw Hi.
  cbn [ar_answer ar_state fst snd]. destruct (accept user name db) as [db'|e]; cbn [admin_response r_result r_db].
  - split_and!; try done.
  - split; [done|]. destruct (refused_answer props server_path error_text e) as (info & Hname & Herr).
    cbn [mgmt_error RegistryApi.service_error hr_status hr_body body_text]. unfold on_answer. rw Herr.
    cbn [response_description error_description update]. split; [done|].
    split; [unfold can_decide; cbn [effect fetch_task]; by rw Hf|]. exists info. done.
Qed.
End System.
End Ownership.

(** ** Editing a device, [pages/devices/details.rs] *)

Module Details.
Inductive Call : Type := LoadCall | UpdateCall.

Section Details.
Context {T : Type} `{ConsoleCodecs} (backend : Backend).
Context (from_device : string → result T string) (device_vec : T → result string string).
Context (to_yaml : T → option string) (from_yaml : string → result T string).
Context (props_app props_name : string).

Inductive Msg : Type :=
| Load
| Reset_
| SetData (content : T)
| Error (err : ErrorNotification)
| SaveEditor
| Delete
| Clone
| ShowApp (app : string).

Inductive Effect : Type :=
| ErrorToast (n : ErrorNotification)
| OpenDelete (name app : string)
| OpenClone (content : T) (app : string)
| PushApp (app : string).

(** [Details]; the model of the editor is its text, which the user changes. *)
Record t := mk {
  fetch_task : option nat;
  content : option T;
  yaml : option string;
  effects : list Effect;
  net : Net (Call * FetchRequest);
}.

Definition create : t := mk None None None [] empty_net.

Definition set_task h (p : t) : t := mk h (content p) (yaml p) (effects p) (drop_handle (fetch_task p) (net p)).
Definition set_content c y (p : t) : t := mk (fetch_task p) c y (effects p) (net p).
Definition effect e (p : t) : t := mk (fetch_task p) (content p) (yaml p) (effects p ++ [e]) (net p).
Definition set_requests n (p : t) : t := mk (fetch_task p) (content p) (yaml p) (effects p) n.

(** [trim_start_matches] of dashes and ends of lines. *)
Definition trimmed (c : ascii) : bool :=
  bool_decide (c = "-"%char) || bool_decide (c = "010"%char) || bool_decide (c = "013"%char).
Fixpoint trim_start (s : string) : string :=
  match s with
  | String.String c s' => if trimmed c then trim_start s' else s
  | EmptyString => EmptyString
  end.

(** [reset] *)
Definition reset (p : t) : t :=
  set_content (content p)
    match content p with
    | Some c => Some (trim_start (default EmptyString (to_yaml c)))
    | None => None
    end p.

Definition device_path : string :=
  "/api/registry/v1alpha1/apps/" +:+ url_encode props_app +:+ "/devices/" +:+ url_encode props_name.

Definition begin (c : Call) (title : string) (r : result FetchRequest string) (p : t) : t :=
  match r with
  | Ok r => let '(i, n) := start (c, r) (net p) in set_task (Some i) (set_requests n p)
  | Err e => effect (ErrorToast (mkNotification title e)) p
  end.

Definition load_request : result FetchRequest string := request_with backend "GET" device_path [] Nothing [].
Definition update_request (d : T) : result FetchRequest string :=
  request_with backend "PUT" device_path [] (JsonData (device_vec d)) [].
Definition update_yaml (text : string) : result FetchRequest string := let? d := from_yaml text in update_request d.

(** [update]; [None] is the panic of cloning before a device was loaded. *)
Definition update (msg : Msg) (p : t) : option t :=
  match msg with
  | Load => Some (begin LoadCall "Failed to load" load_request p)
  | SetData c => Some (set_task None (reset (set_content (Some c) (yaml p) p)))
  | Reset_ => Some (reset p)
  | SaveEditor => Some
      match yaml p with
      | Some text => begin UpdateCall "Failed to update" (update_yaml text) p
      | None => p
      end
  | Error n => Some (set_task None (effect (ErrorToast n) p))
  | Delete => Some (effect (OpenDelete props_name props_app) p)
  | Clone => c ← content p; Some (effect (OpenClone c props_app) p)
  | ShowApp a => Some (effect (PushApp a) p)
  end.

Definition on_answer (c : Call) (response : result (Z * string) string) : Msg :=
  let describe := error_description show_code in
  match c with
  | LoadCall =>
      match api_handler from_device from_error show_number response with
      | Success d _ => SetData d
      | Failure e => Error (mkNotification "Failed to load" (describe e))
      end
  | UpdateCall =>
      match api_handler unit_payload from_error show_number response with
      | Success _ _ => Load
      | Failure e => Error (mkNotification "Failed to update" (describe e))
      end
  end.

Definition receive (i : nat) (response : result (Z * string) string) (p : t) : option t :=
  match answered i (λ k, on_answer k.1 response) (net p) with
  | [msg] => update msg p
  | _ => Some p
  end.

(** The user changes the text. *)
Definition edit (text : string) (p : t) : t := set_content (content p) (Some text) p.

(** The buttons of the editor are enabled. *)
Definition enabled (p : t) : bool := match fetch_task p with Some _ => false | None => true end.

Lemma reset_yaml p c : content p = Some c → yaml (reset p) = Some (trim_start (default EmptyString (to_yaml c))).
Proof. intros Hc. unfold reset. simpl. by rw Hc. Qed.

(** A page whose buttons are enabled saves: its text is sent as the device it describes. *)
Lemma save_begins p text d s :
  enabled p = true → yaml p = Some text → from_yaml text = Ok d → device_vec d = Ok s →
  ∃ i q r, update SaveEditor p = Some q ∧ fetch_task q = Some i ∧
    n_requests (net q) !! i = Some ((UpdateCall, r), true) ∧ f_method r = "PUT" ∧ f_body r = Some s ∧
    yaml q = Some text ∧ content q = content p ∧ effects q = effects p ∧ n_next (net q) ≠ i.
Proof.
  intros He Hy Hf Hd. unfold enabled in He. destruct (fetch_task p) eqn:Ht; [done|].
  cbn [update]. rw Hy. unfold update_yaml. rw Hf. cbn [rbind]. unfold update_request. rw request_shape Hd. cbn [payload_js].
  unfold begin. cbn [start]. do 3 eexists. split; [done|]. simpl. rw Ht. simpl. split; [done|].
  split; [apply lookup_insert_eq|]. done.
Qed.

(** What was saved is on the page again when the answers have come in; what could not be
    saved stays in the editor, and can be saved again. *)
Theorem save_outcome p text d s response :
  enabled p = true → yaml p = Some text → from_yaml text = Ok d → device_vec d = Ok s →
  ∃ i q q', update SaveEditor p = Some q ∧ fetch_task q = Some i ∧ receive i response q = Some q' ∧
    match api_handler unit_payload from_error show_number response with
    | Success _ _ => ∃ j, fetch_task q' = Some j ∧ effects q' = effects p ∧
        ∀ body d' code, from_device body = Ok d' → (200 ≤ code ≤ 299)%Z →
          ∃ q'', receive j (Ok (code, body)) q' = Some q'' ∧ content q'' = Some d' ∧
            yaml q'' = Some (trim_start (default EmptyString (to_yaml d'))) ∧ enabled q'' = true
    | Failure e => yaml q' = Some text ∧ content q' = content p ∧ enabled q' = true ∧
        effects q' = effects p ++ [ErrorToast (mkNotification "Failed to update" (error_description show_code e))]
    end.
Proof.
  intros He Hy Hf Hd. destruct (save_begins p text d s He Hy Hf Hd) as (i & q & r & Hu & Hi & Hr & _ & _ & Hq & Hc & Hef & Hne).
  exists i, q. unfold receive at 1, answered. rw Hr. cbn [fst on_answer].
  destruct (api_handler unit_payload from_error show_number response) as [x code|e].
  - cbn [update]. unfold load_request. rw request_shape. cbn [payload_js payload_type]. unfold begin. cbn [start].
    eexists. split; [done|]. split; [done|]. split; [done|]. eexists. split; [done|]. split; [done|].
    intros body d' code' Hb Hcode. unfold receive, answered. cbn [net set_task set_requests].
    rw drop_other; [simpl; congruence|]. simpl. rw lookup_insert_eq. cbn [fst on_answer].
    rw (proj2 (api_success_iff from_device from_error show_number (Ok (code', body)) d' code')); [by exists body|].
    eexists. split; [done|]. done.
  - eexists. split; [done|]. split; [done|]. split; [done|]. simpl. by rw Hef.
Qed.
End Details.
End Details.
