(* ===== verification/ConsoleDialogs.v ===== *)
(** * Dialogs of the console, and the pages that open them

    [console-frontend/src/pages]: creating, cloning and deleting applications and
    devices ([apps/create.rs], [apps/details/delete.rs], [devices/create.rs],
    [devices/clone.rs], [devices/delete.rs]), access tokens ([access_tokens]), the
    list of applications ([apps/index.rs]) and the page of an application
    ([apps/details/mod.rs]); with the registry behind them. *)

From S2P Require Import Prelude Json Versioning Auth Events Store Outbox Registry Management Admin Lifecycle Select Labels Listing Kafka RegistryApi Console ConsoleAdmin.
Import Console.Request Console.Paging.

(** ** Dialogs *)

Module Dialog.
Inductive Msg : Type :=
| Success_
| Error (err : ErrorNotification)
| Submit
| Input (text : string)
| Cancel_.

(** What a dialog does to the console around it. *)
Inductive Effect : Type :=
| OnClose
| CloseBackdrop
| ErrorToast (n : ErrorNotification)
| SuccessNote (text : string)
| PushApps
| PushApp (name : string)
| PushDevices (app : string)
| PushDevice (app name : string).

(** A dialog: its input if it has one, the request it made and the task it keeps. *)
Record t := mk {
  fetch_task : option nat;
  input : string;
  effects : list Effect;
  net : Net FetchRequest;
}.

Definition create : t := mk None EmptyString [] empty_net.

Definition set_task h (p : t) : t := mk h (input p) (effects p) (drop_handle (fetch_task p) (net p)).
Definition effect e (p : t) : t := mk (fetch_task p) (input p) (effects p ++ e) (net p).

(** What sets one dialog apart: its request, what it takes an answer for, what it says. *)
Record Kind := mkKind {
  k_request : string → result FetchRequest string;
  k_failed : string;
  k_answer : result (Z * string) string → Msg;
  k_note : string;
  k_route : string → Effect;
}.

Section Kind.
Context (k : Kind).

(** A dialog that creates has no button to cancel, one that deletes has no input. *)
Definition update (msg : Msg) (p : t) : t :=
  match msg with
  | Error n => effect [CloseBackdrop; ErrorToast n] p
  | Submit =>
      match k_request k (input p) with
      | Ok r => let '(i, n) := start r (net p) in set_task (Some i) (mk (fetch_task p) (input p) (effects p) n)
      | Err e => effect [ErrorToast (mkNotification (k_failed k) e)] p
      end
  | Success_ => effect [OnClose; CloseBackdrop; SuccessNote (k_note k); k_route k (input p)] p
  | Input text => mk (fetch_task p) text (effects p) (net p)
  | Cancel_ => effect [OnClose; CloseBackdrop] p
  end.

Definition receive (i : nat) (response : result (Z * string) string) (p : t) : t :=
  match answered i (λ _, k_answer k response) (net p) with
  | [msg] => update msg p
  | _ => p
  end.

(** A request that was made, the text being as it was then. *)
Definition asked (r : FetchRequest) (i : nat) (p : t) : Prop :=
  fetch_task p = Some i ∧ n_requests (net p) !! i = Some (r, true).

Lemma submit_asks p r : k_request k (input p) = Ok r → (∀ j, fetch_task p = Some j → (j < n_next (net p))%nat) →
  asked r (n_next (net p)) (update Submit p) ∧ input (update Submit p) = input p ∧ effects (update Submit p) = effects p.
Proof.
  intros Hr Hlt. cbn [update]. rw Hr. cbn [start]. split; [|done]. split; [done|].
  unfold set_task. cbn [net fetch_task]. destruct (fetch_task p) as [j|] eqn:Hj; cbn [drop_handle n_requests].
  - specialize (Hlt j eq_refl). rw lookup_alter_ne; [lia|]. apply lookup_insert_eq.
  - apply lookup_insert_eq.
Qed.

Lemma receive_asked i r response p : asked r i p → receive i response p = update (k_answer k response) p.
Proof. intros [_ Hr]. unfold receive, answered. by rw Hr. Qed.

(** A second click drops the request of the first: its answer is not heard, whatever the registry did. *)
Theorem second_click p r i response : k_request k (input p) = Ok r → asked r i p → (i < n_next (net p))%nat →
  receive i response (update Submit p) = update Submit p ∧ asked r (n_next (net p)) (update Submit p).
Proof.
  intros Hr [Hf Hi] Hlt.
  split; [|by apply submit_asks; [|intros j Hj; rw Hf in Hj; injection Hj as <-]].
  cbn [update]. rw Hr. cbn [start]. unfold receive, answered, set_task. cbn [net fetch_task]. rw Hf. cbn [drop_handle n_requests].
  rw lookup_alter_eq lookup_insert_ne; [lia|]. by rw Hi.
Qed.
End Kind.

(** *** The dialogs *)

Section Kinds.
Context `{ConsoleCodecs} (backend : Backend) (value_vec : Value → result string string).

Definition text (s : string) : Value := Str s.

Definition named (fields : list (string * Value)) : Value :=
  Object [("metadata", Object fields); ("spec", Object [])].

Definition created_answer (response : result (Z * string) string) : Msg :=
  match api_handler unit_payload from_error show_number response with
  | Success _ 201 => Success_
  | other => Error (mkNotification "Failed to create" (response_description show_code other))
  end.

Definition deleted_answer (response : result (Z * string) string) : Msg :=
  match api_handler unit_payload from_error show_number response with
  | Success _ 204 => Success_
  | Success _ code => Error (mkNotification "Failed to delete" ("Unknown message code: " +:+ show_code code))
  | Failure e => Error (mkNotification "Failed to delete" (error_description show_code e))
  end.

Definition apps_path : string := "/api/registry/v1alpha1/apps".
Definition app_path (a : string) : string := "/api/registry/v1alpha1/apps/" +:+ url_encode a.
Definition devices_path (a : string) : string := "/api/registry/v1alpha1/apps/" +:+ url_encode a +:+ "/devices".
Definition device_path (a d : string) : string :=
  "/api/registry/v1alpha1/apps/" +:+ url_encode a +:+ "/devices/" +:+ url_encode d.

(** [apps/create.rs] *)
Definition app_create_request (name : string) : result FetchRequest string :=
  request_with backend "POST" apps_path [] (JsonData (value_vec (named [("name", text name)]))) [].
Definition app_create_answer (response : result (Z * string) string) : Msg :=
  match api_handler unit_payload from_error show_number response with
  | Success _ _ => Success_
  | Failure e => Error (mkNotification "Failed to create" (error_description show_code e))
  end.
Definition app_create : Kind :=
  mkKind app_create_request "Failed to create" app_create_answer "Application successfully created" PushApp.
Definition app_create_enabled (hostname_valid : string → bool) (p : t) : bool :=
  hostname_valid (input p) && match fetch_task p with Some _ => false | None => true end.

(** [devices/create.rs] *)
Definition device_create_request (app name : string) : result FetchRequest string :=
  request_with backend "POST" (devices_path app) []
    (JsonData (value_vec (named [("name", text name); ("application", text app)]))) [].
Definition device_create (app : string) : Kind :=
  mkKind (device_create_request app) "Failed to create" created_answer "Device successfully created" (PushDevice app).
Definition device_create_enabled (p : t) : bool :=
  ((1 <=? String.length (input p)) && (String.length (input p) <=? 255))%nat
  && match fetch_task p with Some _ => false | None => true end.

(** [devices/clone.rs] *)
Section Clone.
Context {D : Type} (with_name : string → D → D) (device_vec : D → result string string).
Definition device_clone_request (app : string) (data : D) (name : string) : result FetchRequest string :=
  request_with backend "POST" (devices_path app) [] (JsonData (device_vec (with_name name data))) [].
Definition device_clone (app : string) (data : D) : Kind :=
  mkKind (device_clone_request app data) "Failed to create" created_answer "Device cloned" (PushDevice app).
End Clone.

(** [apps/details/delete.rs] *)
Definition app_delete_request (name : string) : result FetchRequest string :=
  request_with backend "DELETE" (app_path name) [] Nothing [].
Definition app_delete (name : string) : Kind :=
  mkKind (λ _, app_delete_request name) "Failed to Delete" deleted_answer "Application deleted" (λ _, PushApps).

(** [devices/delete.rs] *)
Definition device_delete_request (app name : string) : result FetchRequest string :=
  request_with backend "DELETE" (device_path app name) [] Nothing [].
Definition device_delete (app name : string) : Kind :=
  mkKind (λ _, device_delete_request app name) "Failed to Delete" deleted_answer "Device deleted" (λ _, PushDevices app).
End Kinds.

(** *** With the registry *)

Definition plain (name : string) : Prop :=
  all_chars hostname_char name = true ∧ name ≠ EmptyString ∧ name ≠ "." ∧ name ≠ "..".

(** Paths are read as they were written, for plain names; bodies and errors as they were encoded. *)
Class RegistryWire `{ApiCodecs, ConsoleCodecs} (b : Backend) (value_vec : Value → result string string)
    (server_path : string → list string) (error_text : string → string) : Prop := {
  apps_path_read : server_path (set_path b apps_path) = ["registry"; "v1alpha1"; "apps"];
  app_path_read a : plain a → server_path (set_path b (app_path a)) = ["registry"; "v1alpha1"; "apps"; a];
  devices_path_read a : plain a → server_path (set_path b (devices_path a)) = ["registry"; "v1alpha1"; "apps"; a; "devices"];
  device_path_read a d : plain a → plain d →
    server_path (set_path b (device_path a d)) = ["registry"; "v1alpha1"; "apps"; a; "devices"; d];
  no_preconditions : default None (decode_delete "") = None;
  app_sent name : ∃ s app, value_vec (named [("name", text name)]) = Ok s ∧ decode_app s = Some app ∧ Reg.a_name app = name;
  device_sent app name : ∃ s d, value_vec (named [("name", text name); ("application", text app)]) = Ok s ∧
    decode_device s = Some d ∧ Reg.d_name d = name ∧ Reg.d_application d = app;
  registry_errors_read e : ∃ info, from_error (error_text e) = Ok info ∧ ei_error info = e;
}.

Section System.
Context `{UuidCodec, ClientApi, Keycloak, ApiCodecs, Nom, ConsoleCodecs} {E : Type}.
Context (instance : string) (sender : list Event.t → result unit E) (nom_error : string → string).
Context (name_le : relation string) `{∀ x y, Decision (name_le x y)}.
Context (backend : Backend) (value_vec : Value → result string string).
Context (server_path : string → list string) (error_text : string → string).
Context `{!RegistryWire backend value_vec server_path error_text}.
Implicit Types (env : Env) (user : UserInformation) (db : Db) (p : t).

Notation serve := (serve_fetch instance sender nom_error name_le server_path).
Notation request env user r db := (handle_request instance sender env user r db).

(** The user confirms, the registry answers and the answer arrives. *)
Definition confirm (k : Kind) env user p db : t * Db :=
  let q := update k Submit p in
  match n_requests (net q) !! n_next (net p) with
  | Some (r, _) =>
      let res := serve env user r db in
      (receive k (n_next (net p)) (Ok (hr_status (ar_answer res), body_text error_text (hr_body (ar_answer res)))) q, ar_state res)
  | None => (q, db)
  end.

Lemma confirm_asks k env user p db r :
  k_request k (input p) = Ok r → (∀ j, fetch_task p = Some j → (j < n_next (net p))%nat) →
  confirm k env user p db =
  let res := serve env user r db in
  (update k (k_answer k (Ok (hr_status (ar_answer res), body_text error_text (hr_body (ar_answer res))))) (update k Submit p),
   ar_state res).
Proof.
  intros Hr Hlt. destruct (submit_asks k p r Hr Hlt) as (Hq & _ & _). unfold confirm. pose proof Hq as [_ Hi]. rw Hi.
  cbn zeta. f_equal. by apply (receive_asked k _ r).
Qed.

Lemma nonempty s : s ≠ EmptyString → is_empty s = false.
Proof. by destruct s. Qed.

(** An error of the management service, as a dialog reads it. *)
Lemma mgmt_answer (e : MgmtError E) : ∃ info code,
  api_handler unit_payload from_error show_number (Ok (hr_status (mgmt_error e), body_text error_text (hr_body (mgmt_error e))))
  = Failure (Response info code).
Proof.
  destruct e as [e|e]; cbn [mgmt_error RegistryApi.service_error hr_status hr_body body_text].
  - destruct (registry_errors_read (RegistryApi.error_name e)) as (info & He & _). exists info, (error_response e).
    apply api_reported_iff. assert (Hc : (400 ≤ error_response e ≤ 599)%Z) by (destruct e; simpl; lia).
    eexists. split_and!; [done|lia..|done].
  - destruct (registry_errors_read "EventSenderError") as (info & He & _). exists info, 502%Z.
    apply api_reported_iff. eexists. split_and!; [done|lia..|done].
Qed.

(** What a dialog says of an operation: that it was done, or what the registry reported. *)
Definition told (k : Kind) (name : string) (r : result unit (MgmtError E)) (l : list Effect) : Prop :=
  match r with
  | Ok _ => l = [OnClose; CloseBackdrop; SuccessNote (k_note k); k_route k name]
  | Err _ => ∃ title message, l = [CloseBackdrop; ErrorToast (mkNotification title message)]
  end.

Lemma told_deleted k p (resp : Management.Response (E := E)) :
  k_answer k = deleted_answer →
  let a := ar_answer (performed resp (finish_with 204)) in
  ∃ l, effects (update k (k_answer k (Ok (hr_status a, body_text error_text (hr_body a)))) p) = effects p ++ l ∧
    told k (input p) (r_result resp) l.
Proof.
  intros Hk. cbn [ar_answer performed]. rw Hk. destruct (r_result resp) as [u|e].
  - eexists. split; [done|]. done.
  - destruct (mgmt_answer e) as (info & code & He). unfold deleted_answer. rw He. cbn [update effect effects].
    eexists. split; [done|]. cbn. eauto.
Qed.

Lemma told_created k p (resp : Management.Response (E := E)) location :
  (k_answer k = created_answer ∨ k_answer k = app_create_answer) →
  let a := ar_answer (performed resp (mkHttpResponse 201 (Some location) NoBody)) in
  ∃ l, effects (update k (k_answer k (Ok (hr_status a, body_text error_text (hr_body a)))) p) = effects p ++ l ∧
    told k (input p) (r_result resp) l.
Proof.
  intros Hk. cbn [ar_answer performed]. destruct (r_result resp) as [u|e].
  - destruct Hk as [Hk|Hk]; rw Hk; eexists; (split; [done|]); done.
  - destruct (mgmt_answer e) as (info & code & He).
    destruct Hk as [Hk|Hk]; rw Hk; [unfold created_answer|unfold app_create_answer]; rw He; cbn [update effect effects];
      eexists; (split; [done|]); cbn; eauto.
Qed.

(** A dialog whose request is the operation [resp] says what became of it. *)
Lemma told_end_to_end k env user p db f (resp : Management.Response (E := E)) answer :
  k_request k (input p) = Ok f → (∀ j, fetch_task p = Some j → (j < n_next (net p))%nat) →
  serve env user f db = performed resp answer →
  (∀ q, let a := ar_answer (performed resp answer) in
    ∃ l, effects (update k (k_answer k (Ok (hr_status a, body_text error_text (hr_body a)))) q) = effects q ++ l ∧
    told k (input q) (r_result resp) l) →
  (confirm k env user p db).2 = r_db resp ∧
  ∃ l, effects (confirm k env user p db).1 = effects p ++ l ∧ told k (input p) (r_result resp) l.
Proof.
  intros Hf Hlt Hs Ht. destruct (submit_asks k p f Hf Hlt) as (_ & Hin & Heff).
  rw (confirm_asks k env user p db f Hf Hlt) Hs. cbn zeta. split; [done|]. rw -Heff -Hin. apply Ht.
Qed.

(** Deleting a device: what the dialog says is what the registry did. *)
Theorem delete_device_end_to_end env user p db a d :
  plain a → plain d → (∀ j, fetch_task p = Some j → (j < n_next (net p))%nat) →
  let k := device_delete backend a d in
  let r := confirm k env user p db in
  let resp := request env user (DeleteDevice a d None) db in
  r.2 = r_db resp ∧ ∃ l, effects r.1 = effects p ++ l ∧ told k (input p) (r_result resp) l.
Proof.
  intros Ha Hd Hlt k r resp. eapply told_end_to_end; [|done| |by intros q; apply told_deleted].
  - unfold k. cbn [device_delete k_request]. unfold device_delete_request. by rw request_shape.
  - unfold serve_fetch. cbn [f_url f_method f_body default]. rw (device_path_read a d Ha Hd).
    unfold serve_request. cbn. unfold api_delete_device. destruct Ha as (_ & Ha & _), Hd as (_ & Hd & _).
    rw (nonempty a Ha) (nonempty d Hd). cbn. by rw no_preconditions.
Qed.

(** Deleting an application. *)
Theorem delete_app_end_to_end env user p db a :
  plain a → (∀ j, fetch_task p = Some j → (j < n_next (net p))%nat) →
  let k := app_delete backend a in
  let r := confirm k env user p db in
  let resp := request env user (DeleteApp a None) db in
  r.2 = r_db resp ∧ ∃ l, effects r.1 = effects p ++ l ∧ told k (input p) (r_result resp) l.
Proof.
  intros Ha Hlt k r resp. eapply told_end_to_end; [|done| |by intros q; apply told_deleted].
  - unfold k. cbn [app_delete k_request]. unfold app_delete_request. by rw request_shape.
  - unfold serve_fetch. cbn [f_url f_method f_body default]. rw (app_path_read a Ha).
    unfold serve_request. cbn. unfold api_delete_app. destruct Ha as (_ & Ha & _). rw (nonempty a Ha). by rw no_preconditions.
Qed.

(** Creating a device with a name the dialog allows. *)
Theorem create_device_end_to_end env user p db a location :
  plain a → device_create_enabled p = true → url_for "device" [a; input p] = Ok location →
  let k := device_create backend value_vec a in
  let r := confirm k env user p db in
  ∃ d, Reg.d_name d = input p ∧ Reg.d_application d = a ∧
  let resp := request env user (CreateDevice d) db in
  r.2 = r_db resp ∧ ∃ l, effects r.1 = effects p ++ l ∧ told k (input p) (r_result resp) l.
Proof.
  intros Ha He Hu k r. destruct (device_sent a (input p)) as (s & d & Hs & Hd & Hn & Happ). exists d. split_and!; [done..|].
  cbn zeta. unfold device_create_enabled in He. apply andb_true_iff in He as [[Hlo Hhi]%andb_true_iff Hf].
  eapply told_end_to_end; [| | |intros q; apply told_created; by left].
  - unfold k. cbn [device_create k_request]. unfold device_create_request. by rw request_shape Hs.
  - intros j Hj. by rw Hj in Hf.
  - unfold serve_fetch. cbn [f_url f_method f_body default]. rw (devices_path_read a Ha).
    unfold serve_request. cbn. rw Hd. cbn [extract]. unfold api_create_device. rw Hn Happ.
    apply Nat.leb_le in Hlo, Hhi. rw nonempty; [by intros Hi; rw Hi in Hlo; cbn in Hlo; lia|].
    destruct Ha as (_ & Ha & _). rw (nonempty a Ha). cbn [orb].
    rw (proj2 (Nat.ltb_ge 255 (String.length (input p)))) //. cbn. by rw Hu.
Qed.

(** The dialog for applications offers what the API refuses: names with capital letters. *)
Theorem create_app_capitals env user p db e :
  app_create_enabled hostname_valid p = true → is_lowercase (input p) = false → from_error "" = Err e →
  let k := app_create backend value_vec in
  let r := confirm k env user p db in
  r.2 = db ∧ effects r.1 = effects p ++ [CloseBackdrop;
    ErrorToast (mkNotification "Failed to create" ("Unknown response (code: " +:+ show_code 400 +:+ ")"))].
Proof.
  intros He Hl Hempty k r. destruct (app_sent (input p)) as (s & app & Hs & Hd & Hn).
  unfold app_create_enabled in He. apply andb_true_iff in He as [Hv Hf].
  assert (Hlt : ∀ j, fetch_task p = Some j → (j < n_next (net p))%nat) by (intros j Hj; by rw Hj in Hf).
  assert (∃ f, k_request k (input p) = Ok f ∧ serve env user f db = unchanged db (finish_with 400)) as (f & Hreq & Hserve).
  { unfold k. cbn [app_create k_request]. unfold app_create_request. rw request_shape Hs. eexists. split; [done|].
    unfold serve_fetch. cbn [f_url f_method f_body default]. rw apps_path_read. unfold serve_request. cbn. rw Hd. cbn [extract].
    unfold api_create_app. by rw Hn Hl orb_true_r. }
  destruct (submit_asks k p f Hreq Hlt) as (_ & _ & Heff). unfold r. rw (confirm_asks k env user p db f Hreq Hlt) Hserve.
  split; [done|]. rw -Heff. cbn [fst unchanged ar_answer finish_with hr_status hr_body body_text].
  unfold k at 2. cbn [app_create k_answer]. unfold app_create_answer, api_handler, convert_json. cbn [status_code is_success].
  unfold convert_target. cbn. by rw Hempty.
Qed.

(** The page the dialog leads to is that of the text that is in the dialog when the answer arrives,
    which is another one than was created if the user has gone on typing. *)
Theorem route_follows_input k p r i response name :
  asked r i p → k_answer k response = Success_ →
  effects (receive k i response (update k (Input name) p)) =
    effects p ++ [OnClose; CloseBackdrop; SuccessNote (k_note k); k_route k name].
Proof. intros Ha Hk. rw (receive_asked k i r); [exact Ha|]. by rw Hk. Qed.
End System.
End Dialog.

(** ** Access tokens, [access_tokens/create.rs] and [access_tokens/mod.rs] *)

Module TokenDialog.
Inductive Msg : Type :=
| Success_ (token : string)
| Error (err : ErrorNotification)
| Create
| Description (text : string).

Inductive Effect : Type := CloseBackdrop | ErrorToast (n : ErrorNotification) | OpenCreated (token : string).

Record t := mk { fetch_task : option nat; description : string; effects : list Effect; net : Net FetchRequest }.
Definition create : t := mk None EmptyString [] empty_net.

Section Dialog.
Context `{ConsoleCodecs} (backend : Backend) (from_created : string → result string string).

Definition effect e (p : t) : t := mk (fetch_task p) (description p) (effects p ++ e) (net p).

Definition create_request (text : string) : result FetchRequest string :=
  request_with backend "POST" "/api/tokens/v1alpha1" (create_token_query text) Nothing [].

Definition update (msg : Msg) (p : t) : t :=
  match msg with
  | Error n => effect [CloseBackdrop; ErrorToast n] p
  | Create =>
      match create_request (description p) with
      | Ok r => let '(i, n) := start r (net p) in mk (Some i) (description p) (effects p) (drop_handle (fetch_task p) n)
      | Err e => effect [ErrorToast (mkNotification "Failed to create" e)] p
      end
  | Success_ token => effect [OpenCreated token] p
  | Description text => mk (fetch_task p) text (effects p) (net p)
  end.

Definition on_answer (response : result (Z * string) string) : Msg :=
  match api_handler from_created from_error show_number response with
  | Success token _ => Success_ token
  | Failure e => Error (mkNotification "Creation failed" (error_description show_code e))
  end.

Definition receive (i : nat) (response : result (Z * string) string) (p : t) : t :=
  match answered i (λ _, on_answer response) (net p) with
  | [msg] => update msg p
  | _ => p
  end.

Definition enabled (p : t) : bool := match fetch_task p with Some _ => false | None => true end.

(** The secret of a new token is shown exactly when the server has answered with it. *)
Theorem token_shown p response token :
  enabled p = true → effects p = [] →
  OpenCreated token ∈ effects (receive (n_next (net p)) response (update Create p)) ↔
  ∃ code body, response = Ok (code, body) ∧ (200 ≤ code ≤ 299)%Z ∧ from_created body = Ok token.
Proof.
  intros He Hp. unfold enabled in He. destruct (fetch_task p) eqn:Hf; [done|].
  cbn [update]. unfold create_request. rw request_shape. cbn [payload_js start]. rw Hf. cbn [drop_handle].
  unfold receive, answered. cbn [net n_requests]. rw lookup_insert_eq. unfold on_answer.
  destruct (api_handler from_created from_error show_number response) as [d code|e] eqn:Ha.
  - cbn [update effect effects]. rw Hp. apply api_success_iff in Ha as (body & Hr & Hc & Hb). unfold convert_target in Hb. split.
    + intros Hin. assert (token = d) as -> by set_solver. by exists code, body.
    + intros (code' & body' & Hr' & _ & Hb'). rw Hr in Hr'. injection Hr' as <- <-. rw Hb in Hb'. injection Hb' as <-. set_solver.
  - cbn [update effect effects]. rw Hp. split; [set_solver|]. intros (code & body & -> & Hc & Hb). exfalso.
    rw (proj2 (api_success_iff from_created from_error show_number (Ok (code, body)) token code)) in Ha; [|done]. by exists body.
Qed.
End Dialog.
End TokenDialog.

Module Tokens.
Inductive Call : Type := LoadCall | DeleteCall.

Section Tokens.
Context {T : Type} `{ConsoleCodecs} (backend : Backend) (from_tokens : string → result (list T) string) (prefix : T → string).

Inductive Msg : Type :=
| CreateModal
| Load
| SetData (tokens : list T)
| Delete (token : T)
| Deleted
| Error (err : ErrorNotification).

Inductive Effect : Type := ErrorToast (n : ErrorNotification) | DeletedToast | OpenCreate.

Record t := mk { tokens : list T; fetch_task : option nat; effects : list Effect; net : Net (Call * FetchRequest) }.
Definition create : t := mk [] None [] empty_net.

Definition set_task h (p : t) : t := mk (tokens p) h (effects p) (drop_handle (fetch_task p) (net p)).
Definition effect e (p : t) : t := mk (tokens p) (fetch_task p) (effects p ++ [e]) (net p).

Definition begin (c : Call) (title : string) (r : result FetchRequest string) (p : t) : t :=
  match r with
  | Ok r => let '(i, n) := start (c, r) (net p) in set_task (Some i) (mk (tokens p) (fetch_task p) (effects p) n)
  | Err e => effect (ErrorToast (mkNotification title e)) p
  end.

Definition load_request : result FetchRequest string := request_with backend "GET" "/api/tokens/v1alpha1" [] Nothing [].
Definition delete_request (token : T) : result FetchRequest string :=
  request_with backend "DELETE" ("/api/tokens/v1alpha1/" +:+ prefix token) [] Nothing [].

(** [update], with the messages the page sends itself. *)
Definition update (msg : Msg) (p : t) : t * list Msg :=
  match msg with
  | Load => (begin LoadCall "Failed to fetch" load_request p, [])
  | SetData l => let p := set_task None p in (mk l (fetch_task p) (effects p) (net p), [])
  | Error n => (effect (ErrorToast n) p, [])
  | Delete token => (begin DeleteCall "Failed to delete token" (delete_request token) p, [])
  | Deleted => (effect DeletedToast (set_task None p), [Load])
  | CreateModal => (effect OpenCreate p, [])
  end.

Definition dispatch (msg : Msg) (p : t) : t :=
  let '(p, sent) := update msg p in foldl (λ p m, (update m p).1) p sent.

Definition on_answer (c : Call) (response : result (Z * string) string) : Msg :=
  let describe := error_description show_code in
  match c with
  | LoadCall =>
      match api_handler from_tokens from_error show_number response with
      | Success l _ => SetData l
      | Failure e => Error (mkNotification "Failed to load" (describe e))
      end
  | DeleteCall =>
      match api_handler unit_payload from_error show_number response with
      | Success _ _ => Deleted
      | Failure e => Error (mkNotification "Failed to delete" (describe e))
      end
  end.

Definition receive (i : nat) (response : result (Z * string) string) (p : t) : t :=
  match answered i (λ k, on_answer k.1 response) (net p) with
  | [msg] => dispatch msg p
  | _ => p
  end.

Definition waits (c : Call) (i : nat) (p : t) : Prop :=
  fetch_task p = Some i ∧ ∃ r, n_requests (net p) !! i = Some ((c, r), true).

Lemma begin_waits c title r p : (∀ j, fetch_task p = Some j → (j < n_next (net p))%nat) →
  waits c (n_next (net p)) (begin c title (Ok r) p) ∧ tokens (begin c title (Ok r) p) = tokens p.
Proof.
  intros Hlt. unfold begin. cbn [start]. split; [|done]. split; [done|]. exists r. unfold set_task. cbn [net fetch_task].
  rw drop_other; [intros Hj; apply Hlt in Hj; lia|]. apply lookup_insert_eq.
Qed.

(** When a token was deleted the page asks for the tokens again and shows what the server has then. *)
Theorem deleted_reloads i p response code body l :
  waits DeleteCall i p → (i < n_next (net p))%nat →
  api_handler unit_payload from_error show_number response = Success tt code →
  from_tokens body = Ok l →
  ∃ j, waits LoadCall j (receive i response p) ∧ tokens (receive j (Ok (200%Z, body)) (receive i response p)) = l.
Proof.
  intros [Hf [r Hr]] Hlt Ha Hb. exists (n_next (net p)).
  assert (receive i response p = begin LoadCall "Failed to fetch" load_request (effect DeletedToast (set_task None p))) as Hrec.
  { unfold receive, answered. rw Hr. cbn [fst on_answer]. rw Ha. done. }
  assert (∃ f, load_request = Ok f) as [f Hload] by (unfold load_request; rw request_shape; cbn; eauto).
  rw Hrec Hload. destruct (begin_waits LoadCall "Failed to fetch" f (effect DeletedToast (set_task None p))) as [Hw _]; [done|].
  assert (n_next (net (effect DeletedToast (set_task None p))) = n_next (net p)) as Hn by (cbn; by rw Hf).
  rw Hn in Hw. split; [exact Hw|]. destruct Hw as (_ & r' & Hr'). unfold receive at 1, answered. rw Hr'. cbn [fst on_answer].
  by rw (proj2 (api_success_iff from_tokens from_error show_number (Ok (200%Z, body)) l 200%Z)); [exists body|].
Qed.
End Tokens.
End Tokens.

(** ** The list of applications, [apps/index.rs] *)

Module AppIndex.
Inductive Call : Type := LoadCall | DeleteCall.

Section Index.
Context {A : Type} `{ConsoleCodecs} (backend : Backend) (from_apps : string → result (list A) string).

Inductive Msg : Type :=
| Load
| SetData (entries : list A)
| Error (err : ErrorNotification)
| ShowOverview (name : string)
| Delete (name : string)
| TriggerModal
| Navigate (nav : Navigation)
| SetLimit (limit : Z)
| DeletionComplete.

Inductive Effect : Type :=
| ErrorToast (n : ErrorNotification)
| SuccessNote (text : string)
| OpenCreate
| SetContext (app : string)
| PushDetails (name : string).

Record t := mk {
  entries : list A;
  fetch_task : option nat;
  paging_options : PagingOptions;
  effects : list Effect;
  net : Net (Call * FetchRequest);
}.

Definition create : t := mk [] None default_paging [] empty_net.

Definition set_task h (p : t) : t := mk (entries p) h (paging_options p) (effects p) (drop_handle (fetch_task p) (net p)).
Definition set_paging o (p : t) : t := mk (entries p) (fetch_task p) o (effects p) (net p).
Definition effect e (p : t) : t := mk (entries p) (fetch_task p) (paging_options p) (effects p ++ e) (net p).

Definition load_request (o : PagingOptions) : result FetchRequest string :=
  request_with backend "GET" Dialog.apps_path
    [("limit", show_number (limit o)); ("offset", show_number (offset o))] Nothing [].
Definition delete_request (name : string) : result FetchRequest string :=
  request_with backend "DELETE" (Dialog.app_path name) [] Nothing [].

Definition begin (c : Call) (title : string) (r : result FetchRequest string) (p : t) : t :=
  match r with
  | Ok r => let '(i, n) := start (c, r) (net p) in
      set_task (Some i) (mk (entries p) (fetch_task p) (paging_options p) (effects p) n)
  | Err e => effect [ErrorToast (mkNotification title e)] p
  end.

(** [update]; [None] is an overflow of the paging. *)
Definition update (msg : Msg) (p : t) : option (t * list Msg) :=
  match msg with
  | Load => Some (begin LoadCall "Failed to fetch" (load_request (paging_options p)) p, [])
  | SetData l => let p := set_task None p in Some (mk l (fetch_task p) (paging_options p) (effects p) (net p), [])
  | Error n => Some (effect [ErrorToast n] p, [])
  | ShowOverview name => Some (effect [SetContext name; PushDetails name] p, [])
  | Delete name => Some (begin DeleteCall "Failed to delete" (delete_request name) p, [])
  | TriggerModal => Some (effect [OpenCreate] p, [])
  | SetLimit l => Some (set_paging (mkPaging (offset (paging_options p)) l) p, [Load])
  | Navigate nav => o ← navigate nav (paging_options p); Some (set_paging o p, [Load])
  | DeletionComplete => Some (effect [SuccessNote "Application deleted"] p, [Load])
  end.

Definition dispatch (msg : Msg) (p : t) : option t :=
  '(p, sent) ← update msg p;
  match sent with
  | [] => Some p
  | m :: _ => fst <$> update m p
  end.

Definition on_answer (c : Call) (response : result (Z * string) string) : Msg :=
  match c with
  | LoadCall =>
      match api_handler from_apps from_error show_number response with
      | Success l _ => SetData l
      | Failure e => Error (mkNotification "Failed to load" (error_description show_code e))
      end
  | DeleteCall =>
      match api_handler unit_payload from_error show_number response with
      | Success _ 204 => DeletionComplete
      | Success _ code => Error (mkNotification "Failed to delete" ("Unknown message code: " +:+ show_code code))
      | Failure e => Error (mkNotification "Failed to delete" (error_description show_code e))
      end
  end.

Definition receive (i : nat) (response : result (Z * string) string) (p : t) : option t :=
  match answered i (λ k, on_answer k.1 response) (net p) with
  | [msg] => dispatch msg p
  | _ => Some p
  end.

(** The list the page waits for is that of the page number it shows. *)
Definition asks (p : t) : Prop :=
  handles_ok (handle_set (fetch_task p)) (net p) ∧
  ∀ i r, fetch_task p = Some i → n_requests (net p) !! i = Some ((LoadCall, r), true) → load_request (paging_options p) = Ok r.

Lemma apps_begin_asks c title r p :
  handles_ok (handle_set (fetch_task p)) (net p) → (c = LoadCall → load_request (paging_options p) = Ok r) →
  asks (begin c title (Ok r) p).
Proof.
  intros Hh Hc. unfold begin. cbn [start].
  assert (Hn : fetch_task p ≠ Some (n_next (net p))).
  { intros Hf. destruct Hh as [Hh1 Hh2]. destruct (proj1 (Hh1 (n_next (net p)))) as [k Hk]; [rw Hf; simpl; set_solver|].
    apply Hh2 in Hk. lia. }
  split.
  - pose proof (drop_set _ (fetch_task p) _ (handles_start _ (c, r) _ Hh)) as Hd. eapply handles_ok_eq; [|exact Hd].
    simpl. destruct (fetch_task p) as [j|]; simpl; [|set_solver]. assert (j ≠ n_next (net p)) by congruence. set_solver.
  - simpl. intros i r' [= <-]. rw drop_other //. simpl. rw lookup_insert_eq. intros [= Hcc <-]. by apply Hc.
Qed.

Lemma load_asks p p' : handles_ok (handle_set (fetch_task p)) (net p) → update Load p = Some (p', []) → asks p'.
Proof.
  intros Hh. cbn [update]. destruct (load_request (paging_options p)) as [r|] eqn:Hr; [|unfold load_request in Hr; by rw request_shape in Hr].
  intros Hu%(inj Some). apply (f_equal fst) in Hu. cbn [fst] in Hu. subst p'.
  exact (apps_begin_asks LoadCall "Failed to fetch" r p Hh (λ _, Hr)).
Qed.

Lemma apps_dispatch_asks msg p p' : asks p → dispatch msg p = Some p' → asks p'.
Proof.
  intros [Hh Ha]. assert (∀ q q', handles_ok (handle_set (fetch_task q)) (net q) → fst <$> update Load q = Some q' → asks q') as Hload.
  { intros q q' Hq. cbn [update]. intros Hu%(inj Some). eapply load_asks; [exact Hq|]. cbn [update]. by f_equal; f_equal. }
  destruct msg; unfold dispatch; cbn [update mbind option_bind].
  - intros Hu%(inj Some). subst. eapply load_asks; [exact Hh|done].
  - intros Hu%(inj Some). subst. split; [|done]. apply (drop_set _ (fetch_task p)) in Hh.
    eapply handles_ok_eq; [|exact Hh]. simpl. set_solver.
  - intros Hu%(inj Some). subst. done.
  - intros Hu%(inj Some). subst. done.
  - intros Hu%(inj Some). subst. unfold delete_request. rw request_shape. cbn [payload_js payload_type].
    by apply (apps_begin_asks DeleteCall "Failed to delete").
  - intros Hu%(inj Some). subst. done.
  - destruct (navigate nav (paging_options p)) as [o|]; [|done]. cbn [mbind option_bind]. by apply (Hload (set_paging o p)).
  - by apply (Hload (set_paging (mkPaging _ _) p)).
  - by apply (Hload (effect _ p)).
Qed.

Inductive Event_ : Type := User_ (msg : Msg) | Answer (i : nat) (response : result (Z * string) string).

Definition page_step (p : t) (x : Event_) : option t :=
  match x with User_ msg => dispatch msg p | Answer i response => receive i response p end.

(** Whatever is clicked and in whatever order answers arrive: the applications the page waits for
    are those of the page number it shows. *)
Theorem apps_of_page l p i r :
  foldl (λ p x, p ← p; page_step p x) (dispatch Load create) l = Some p →
  fetch_task p = Some i → n_requests (net p) !! i = Some ((LoadCall, r), true) → load_request (paging_options p) = Ok r.
Proof.
  intros Hrun Hi Hr. enough (Hp : asks p) by (destruct Hp as [_ Hp]; by eapply Hp). clear Hi Hr.
  assert (Hgen : ∀ o : option t, (∀ q, o = Some q → asks q) → foldl (λ p x, p ← p; page_step p x) o l = Some p → asks p).
  { clear Hrun. induction l as [|x l IH]; intros o Ho; cbn [foldl]; [by apply Ho|]. apply IH. intros q Hq.
    destruct o as [q0|]; [|done]. specialize (Ho q0 eq_refl). cbn [mbind option_bind] in Hq.
    destruct x as [msg|j response]; cbn [page_step] in Hq; [by eapply apps_dispatch_asks|].
    unfold receive in Hq. destruct (answered _ _ _) as [|m [|? ?]]; [by injection Hq as <-|by eapply apps_dispatch_asks|by injection Hq as <-]. }
  eapply Hgen; [|exact Hrun]. intros q Hq. eapply apps_dispatch_asks; [|exact Hq]. split; [apply handles_empty|done].
Qed.

(** But deleting an application gives up the list that was asked for; when the deletion fails, the list
    stays that of the page before. *)
Theorem failed_delete_stale q i r name response e :
  fetch_task q = Some i → n_requests (net q) !! i = Some ((LoadCall, r), true) → (i < n_next (net q))%nat →
  api_handler unit_payload from_error show_number response = Failure e →
  ∃ q1 q2, dispatch (Delete name) q = Some q1 ∧ receive (n_next (net q)) response q1 = Some q2 ∧
    entries q2 = entries q ∧ paging_options q2 = paging_options q ∧ ∀ answer, receive i answer q2 = Some q2.
Proof.
  intros Hf Hr Hlt He. assert (∃ f, delete_request name = Ok f) as [f Hreq].
  { unfold delete_request. rw request_shape. cbn. eauto. }
  unfold dispatch. cbn [update mbind option_bind]. unfold begin. rw Hreq. cbn [start].
  set (q1 := set_task _ _). assert (Hj : n_requests (net q1) !! n_next (net q) = Some ((DeleteCall, f), true)).
  { unfold q1, set_task. cbn. rw Hf. cbn. rw lookup_alter_ne; [lia|]. apply lookup_insert_eq. }
  assert (Hi : n_requests (net q1) !! i = Some ((LoadCall, r), false)).
  { unfold q1, set_task. cbn. rw Hf. cbn. rw lookup_alter_eq lookup_insert_ne; [lia|]. by rw Hr. }
  exists q1, (effect [ErrorToast (mkNotification "Failed to delete" (error_description show_code e))] q1). split; [done|].
  split; [unfold receive, answered; rw Hj; cbn [fst on_answer]; by rw He|]. split; [done|]. split; [done|].
  intros answer. unfold receive, answered. cbn [net effect]. by rw Hi.
Qed.
End Index.
End AppIndex.

(** ** The page of an application, [apps/details/mod.rs] *)

Module AppDetails.
Inductive Call : Type := LoadCall | RoleCall | UpdateCall.
Inductive Section_ : Type := Overview | Integrations | Yaml | Debug | Administration.

Section Details.
Context {T : Type} `{ConsoleCodecs} (props : Props).
Context (from_app : string → result T string) (app_vec : T → result string string).
Context (to_yaml : T → option string) (from_yaml : string → result T string).

Inductive Msg : Type :=
| Load
| Reset_
| SetData (content : T)
| Error (err : ErrorNotification)
| SaveEditor
| SetAdmin (is_admin : bool)
| Delete.

Inductive Effect : Type := ErrorToast (n : ErrorNotification) | OpenDelete (name : string).

(** [Details]; the model of the editor is its text, which the user changes. *)
Record t := mk {
  fetch_task : option nat;
  fetch_role : option nat;
  content : option T;
  yaml : option string;
  is_admin : bool;
  effects : list Effect;
  net : Net (Call * FetchRequest);
}.

Definition create : t := mk None None None None false [] empty_net.

Definition set_task h (p : t) : t :=
  mk h (fetch_role p) (content p) (yaml p) (is_admin p) (effects p) (drop_handle (fetch_task p) (net p)).
Definition set_role h (p : t) : t :=
  mk (fetch_task p) h (content p) (yaml p) (is_admin p) (effects p) (drop_handle (fetch_role p) (net p)).
Definition set_net n (p : t) : t := mk (fetch_task p) (fetch_role p) (content p) (yaml p) (is_admin p) (effects p) n.
Definition set_content c y (p : t) : t := mk (fetch_task p) (fetch_role p) c y (is_admin p) (effects p) (net p).
Definition effect e (p : t) : t := mk (fetch_task p) (fetch_role p) (content p) (yaml p) (is_admin p) (effects p ++ [e]) (net p).

(** [reset] *)
Definition reset (p : t) : t :=
  set_content (content p) match content p with Some c => to_yaml c | None => None end p.

Definition load_request : result FetchRequest string :=
  request_with (p_backend props) "GET" (Dialog.app_path (p_name props)) [] Nothing [].
Definition role_request : result FetchRequest string :=
  request_with (p_backend props) "GET" (admin_path props "members") [] Nothing [].
Definition update_request (app : T) : result FetchRequest string :=
  request_with (p_backend props) "PUT" (Dialog.app_path (p_name props)) [] (JsonData (app_vec app)) [].
Definition update_yaml (text : string) : result FetchRequest string := let? app := from_yaml text in update_request app.

(** [load]: both requests, or none; the first is given up if the second cannot be made. *)
Definition load (p : t) : result (nat * nat * t) (string * t) :=
  match load_request with
  | Err e => Err (e, p)
  | Ok r =>
      let '(i, n) := start (LoadCall, r) (net p) in
      match role_request with
      | Err e => Err (e, set_net (drop_handle (Some i) n) p)
      | Ok r => let '(j, n) := start (RoleCall, r) n in Ok (i, j, set_net n p)
      end
  end.

Definition update (msg : Msg) (p : t) : t :=
  match msg with
  | Load =>
      match load p with
      | Ok (i, j, p) => set_role (Some j) (set_task (Some i) p)
      | Err (e, p) => effect (ErrorToast (mkNotification "Failed to load" e)) p
      end
  | SetData c => set_task None (reset (set_content (Some c) (yaml p) p))
  | Reset_ => reset p
  | SaveEditor =>
      match yaml p with
      | Some text =>
          match update_yaml text with
          | Ok r => let '(i, n) := start (UpdateCall, r) (net p) in set_task (Some i) (set_net n p)
          | Err e => effect (ErrorToast (mkNotification "Failed to update" e)) p
          end
      | None => p
      end
  | Error n => set_task None (effect (ErrorToast n) p)
  | SetAdmin b =>
      let p := set_role None p in
      mk (fetch_task p) (fetch_role p) (content p) (yaml p) b (effects p) (net p)
  | Delete => effect (OpenDelete (p_name props)) p
  end.

Definition on_answer (c : Call) (response : result (Z * string) string) : Msg :=
  let describe := error_description show_code in
  match c with
  | LoadCall =>
      match api_handler from_app from_error show_number response with
      | Success c _ => SetData c
      | Failure e => Error (mkNotification "Failed to load" (describe e))
      end
  | RoleCall =>
      match api_handler unit_payload from_error show_number response with
      | Success _ _ => SetAdmin true
      | Failure _ => SetAdmin false
      end
  | UpdateCall =>
      match api_handler unit_payload from_error show_number response with
      | Success _ _ => Load
      | Failure e => Error (mkNotification "Failed to update" (describe e))
      end
  end.

Definition receive (i : nat) (response : result (Z * string) string) (p : t) : t :=
  match answered i (λ k, on_answer k.1 response) (net p) with
  | [msg] => update msg p
  | _ => p
  end.

(** The tabs of [render_content]. *)
Definition tabs (p : t) : list Section_ :=
  [Overview; Integrations; Yaml; Debug]
  ++ if is_admin p && match fetch_role p with Some _ => false | None => true end then [Administration] else [].

(** The buttons of the editor. *)
Definition enabled (p : t) : bool := match fetch_task p with Some _ => false | None => true end.

(** The labels of [render_overview]. *)
Definition label_text (kv : string * string) : string := if is_empty kv.2 then kv.1 else kv.1 +:+ "=" +:+ kv.2.

(** Each handle is of a request that was made before. *)
Definition handles_old (p : t) : Prop :=
  ∀ i, fetch_task p = Some i ∨ fetch_role p = Some i → (i < n_next (net p))%nat.

Lemma load_waits p : handles_old p →
  ∃ q f g, update Load p = q ∧ fetch_task q = Some (n_next (net p)) ∧ fetch_role q = Some (S (n_next (net p))) ∧
    n_requests (net q) !! n_next (net p) = Some ((LoadCall, f), true) ∧ load_request = Ok f ∧
    n_requests (net q) !! S (n_next (net p)) = Some ((RoleCall, g), true) ∧ role_request = Ok g.
Proof.
  intros Ho. assert (∃ f, load_request = Ok f) as [f Hf] by (unfold load_request; rw request_shape; cbn; eauto).
  assert (∃ g, role_request = Ok g) as [g Hg] by (unfold role_request; rw request_shape; cbn; eauto).
  cbn [update]. unfold load. rw Hf Hg. cbn [start]. eexists _, f, g. split; [done|]. split; [done|]. split; [done|].
  assert (fetch_task p ≠ Some (n_next (net p)) ∧ fetch_role p ≠ Some (n_next (net p)) ∧
    fetch_task p ≠ Some (S (n_next (net p))) ∧ fetch_role p ≠ Some (S (n_next (net p)))) as (H1' & H2' & H3' & H4').
  { split_and!; intros Hi; first [pose proof (Ho _ (or_introl Hi))|pose proof (Ho _ (or_intror Hi))]; lia. }
  unfold set_role, set_task. cbn [net fetch_role fetch_task set_net].
  rewrite !drop_other //. cbn [n_requests n_next].
  split; [rewrite lookup_insert_ne; [lia|apply lookup_insert_eq]|]. split; [done|]. split; [apply lookup_insert_eq|done].
Qed.
End Details.

Section System.
Context `{UuidCodec, ClientApi, Keycloak, ApiCodecs, Nom, ConsoleCodecs} {E T : Type}.
Context (instance : string) (sender : list Event.t → result unit E) (nom_error : string → string).
Context (name_le : relation string) `{∀ x y, Decision (name_le x y)}.
Context (props : Props) (server_path : string → list string) (error_text : string → string).
Context `{!AdminWire (p_backend props) server_path error_text}.
Context (from_app : string → result T string) (app_vec : T → result string string).
Context (to_yaml : T → option string) (from_yaml : string → result T string).
Implicit Types (env : Env) (user : UserInformation) (db : Db) (p : t (T := T)).

Notation name := (p_name props).
Notation serve := (serve_fetch instance sender nom_error name_le server_path).
Notation receive := (receive props from_app app_vec to_yaml from_yaml).
Notation update := (update props app_vec to_yaml from_yaml).

Lemma members_readable user db :
  (∃ m, get_members user name db = Ok m) ↔
  ∃ app, AppAccessor.get name db = Some app ∧ authorize app user Permission.Admin = Allow.
Proof.
  unfold get_members. destruct (AppAccessor.get name db) as [app|]; cbn [ok_or rbind];
    [|by split; [intros [? ?]|intros (? & ? & ?)]].
  unfold ensure_with. destruct (authorize app user Permission.Admin) eqn:Ha; cbn [rbind]; split; intros (x & Hx);
    [by exists app|by eexists|done|destruct Hx as [Hx Hy]; injection Hx as <-; by rw Ha in Hy].
Qed.

(** The tab for the administration is offered exactly to those who may administer the application. *)
Theorem admin_tab env user p db :
  all_chars hostname_char name = true → handles_old p →
  let q := update Load p in
  let j := S (n_next (net p)) in
  ∃ g, n_requests (net q) !! j = Some ((RoleCall, g), true) ∧
    let res := ar_answer (serve env user g db) in
    Administration ∈ tabs (receive j (Ok (hr_status res, body_text error_text (hr_body res))) q) ↔
    ∃ app, AppAccessor.get name db = Some app ∧ authorize app user Permission.Admin = Allow.
Proof.
  intros Hn Ho q j. destruct (load_waits props app_vec to_yaml from_yaml p Ho) as (q' & f & g & Hq & _ & _ & _ & _ & Hr & Hg).
  fold q in Hq. subst q'. exists g. split; [done|]. cbn zeta. rw -members_readable.
  assert (Hs : serve env user g db = unchanged db (api_get_members user name db)).
  { unfold role_request in Hg. rw request_shape in Hg. cbn [payload_js] in Hg. injection Hg as <-.
    unfold serve_fetch. cbn [f_url f_method]. unfold admin_path. by rw path_read. }
  rw Hs. unfold AppDetails.receive, answered, j. rw Hr. cbn [fst on_answer unchanged ar_answer]. unfold api_get_members.
  destruct (get_members user name db) as [m|e] eqn:Hm.
  - destruct (members_read m) as (s & Hs' & _); [by eapply get_members_nodup|]. rw Hs'. cbn.
    split; [by exists m|]. intros _. do 4 apply list_elem_of_further. apply list_elem_of_here.
  - cbn [RegistryApi.service_error hr_status hr_body body_text].
    destruct (refused_answer props server_path error_text e) as (info & _ & Herr). rw Herr.
    cbn. split; [intros Hin|by intros [? ?]]. rewrite !elem_of_cons in Hin. destruct Hin as [?|[?|[?|[?|Hin]]]]; [done..|].
    by apply not_elem_of_nil in Hin.
Qed.
End System.
End AppDetails.
