(* ===== verification/ConsoleExamples.v ===== *)
(** * The examples of the console

    [console-frontend/src/examples]: the command lines that are offered to be
    copied, for the data the user has entered, and [pages/apps/details/integrations.rs],
    the same for the integrations of an application; what a shell makes of them,
    and that the topics in them are those the endpoints and integrations know. *)

From S2P Require Import Prelude Json Versioning Auth Events Store Outbox Registry Management Kafka Commands MqttSession MqttInbox MqttIntegration TopicOperators Console ConsoleAdmin Services.
Import Console.Shell Services.Announced.

(** ** How a shell reads a line *)

Module Line.
Definition newline : ascii := "010"%char.
Definition blank (c : ascii) : bool := bool_decide (c = " "%char) || bool_decide (c = "009"%char).

(** Characters with a meaning of their own outside of quotes. *)
Definition line_special (c : ascii) : bool :=
  existsb (λ x, bool_decide (c = x)) ["010"; ";"; "|"; "&"; "<"; ">"; "("; ")"; "{"; "}"; "$"; "`"; "*"; "?"; "["; "]"; "#"; "~"; "!"]%char.

Definition put (cur : option string) (s : string) : option string := Some (default EmptyString cur +:+ s).

(** The words of a line, or [None] where there is more to it than words. *)
Fixpoint read_line (mode : Mode) (cur : option string) (s : string) : option (list string) :=
  match mode, s with
  | Bare, EmptyString => Some (option_list cur)
  | _, EmptyString => None
  | Bare, String c s =>
      if blank c then (λ l, option_list cur ++ l) <$> read_line Bare None s
      else if bool_decide (c = quote) then read_line Single (put cur EmptyString) s
      else if bool_decide (c = dquote) then read_line Double (put cur EmptyString) s
      else if bool_decide (c = backslash) then
        match s with
        | EmptyString => None
        | String d s => read_line Bare (if bool_decide (d = newline) then cur else put cur (one d)) s
        end
      else if line_special c then None
      else read_line Bare (put cur (one c)) s
  | Single, String c s => if bool_decide (c = quote) then read_line Bare cur s else read_line Single (put cur (one c)) s
  | Double, String c s =>
      if bool_decide (c = dquote) then read_line Bare cur s
      else if bool_decide (c = backslash) || bool_decide (c = "$"%char) || bool_decide (c = "`"%char) then None
      else read_line Double (put cur (one c)) s
  end.

(** A text that is read as a part of a word. *)
Definition denotes (w x : string) : Prop := ∀ cur rest, read_line Bare cur (w +:+ rest) = read_line Bare (put cur x) rest.

Lemma put_put cur a b : put (put cur a) b = put cur (a +:+ b).
Proof. unfold put. simpl. by rw str_app_assoc. Qed.

Lemma denotes_app w w' x x' : denotes w x → denotes w' x' → denotes (w +:+ w') (x +:+ x').
Proof. intros Hw Hw' cur rest. rw str_app_assoc Hw Hw'. by rw put_put. Qed.

Definition bare (c : ascii) : bool :=
  negb (blank c || bool_decide (c = quote) || bool_decide (c = dquote) || bool_decide (c = backslash) || line_special c).

Lemma denotes_bare s : s ≠ EmptyString → all_chars bare s = true → denotes s s.
Proof.
  induction s as [|c s IH]; [done|]. intros _. cbn [all_chars]. intros [Hc Hs]%andb_true_iff cur rest. rw app_cons. cbn [read_line].
  unfold bare in Hc. apply negb_true_iff in Hc. do 4 (apply orb_false_iff in Hc as [Hc ?]). rewrite Hc.
  repeat match goal with H : _ = false |- _ => rewrite H; clear H end.
  destruct s as [|c' s]; [done|]. rw IH //. by rw put_put.
Qed.

Lemma read_single s rest : ∀ cur, has_char quote s = false →
  read_line Single cur (s +:+ String quote rest) = read_line Bare (if is_empty s then cur else put cur s) rest.
Proof.
  induction s as [|c s IH]; intros cur; [done|]. simpl. intros [Hc Hs]%orb_false_iff.
  rw Hc IH //. destruct s; [done|]. simpl. by rw put_put.
Qed.

(** A text without quotes between single quotes. *)
Lemma denotes_single s : has_char quote s = false → denotes (one quote +:+ s +:+ one quote) s.
Proof.
  intros Hs cur rest. rw !str_app_assoc. unfold one at 1. rw app_cons app_empty_l. cbn [read_line].
  change (one quote +:+ rest) with (String quote rest). rewrite (bool_decide_eq_true_2 (quote = quote)) //.
  change (blank quote) with false. cbn iota. rw read_single //. destruct s; [done|]. cbn [is_empty]. by rw put_put.
Qed.

Lemma read_single_replaced s rest : ∀ cur,
  read_line Single cur (replace quote (one quote +:+ one dquote +:+ one quote +:+ one dquote +:+ one quote) s +:+ String quote rest)
  = read_line Bare (if is_empty s then cur else put cur s) rest.
Proof.
  induction s as [|c s IH]; intros cur; [done|]. cbn [replace]. case_bool_decide as Hc.
  - subst c. rw str_app_assoc. revert IH.
    generalize (replace quote (one quote +:+ one dquote +:+ one quote +:+ one dquote +:+ one quote) s +:+ String quote rest).
    intros r IH. simpl. rw IH. rewrite !put_put. by destruct s.
  - rw app_cons app_empty_l app_cons. cbn [read_line]. rw bool_decide_eq_false_2 // IH. cbn [is_empty].
    destruct s; [done|]. cbn [is_empty]. by rw put_put.
Qed.

Lemma put_empty cur s : put (put cur EmptyString) s = put cur s.
Proof. by rw put_put. Qed.

Lemma word_bare : ∀ c, word_char c || non_ascii c = true → bare c = true.
Proof. intros [[] [] [] [] [] [] [] []]; vm_compute; intuition congruence. Qed.

(** Whatever text is quoted by [shell_single_quote] is one word, and that text. *)
Lemma denotes_quoted `{Alphanumeric} s : denotes (shell_single_quote s) s.
Proof.
  unfold shell_single_quote. destruct (is_empty s) eqn:He.
  { apply is_empty_true in He as ->. intros cur rest. done. }
  assert (s ≠ EmptyString) as Hne by (by intros ->).
  destruct (all_alphanumeric s) eqn:Ha.
  { apply denotes_bare; [done|]. eapply all_chars_impl; [exact word_bare|]. by apply alphanumeric_ascii. }
  intros cur rest. rw !str_app_assoc. unfold one at 1. rw app_cons app_empty_l. cbn [read_line].
  change (blank quote) with false. rewrite (bool_decide_eq_true_2 (quote = quote)) //. cbn iota.
  change (one quote +:+ rest) with (String quote rest). rw read_single_replaced He. by rw put_empty.
Qed.

(** A line of words. *)
Lemma read_words ws xs : Forall2 denotes ws xs → read_line Bare None (join " " ws) = Some xs.
Proof.
  induction 1 as [|w x ws xs Hw Hws IH]; [done|]. destruct ws as [|w' ws].
  - inversion Hws; subst. cbn [join]. rw -(app_empty_r w) Hw. done.
  - change (join " " (w :: w' :: ws)) with (w +:+ " " +:+ join " " (w' :: ws)). revert IH. generalize (join " " (w' :: ws)).
    intros j IH. rw Hw. change (" " +:+ j) with (String " " j). cbn [read_line]. change (blank " ") with true. cbn iota. by rw IH.
Qed.
End Line.

(** ** The data, [examples/data.rs] *)

Record ExampleData := mkData {
  app_id : string;
  device_id : string;
  password : string;
  payload : string;
  binary_mode : bool;
  consumer_group : option string;
  drg_token : bool;
  enable_local_cert : bool;
  cmd_empty_message : bool;
  cmd_name : string;
  cmd_payload : string;
}.

#[global] Instance example_data_eq_dec : EqDecision ExampleData.
Proof. solve_decision. Defined.

Definition dq (s : string) : string := one dquote +:+ s +:+ one dquote.

Definition default_data : ExampleData :=
  mkData "example-app" "device1" "hey-rodney" ("{" +:+ dq "temp" +:+ ":42}") false None true true false
    "set-temp" ("{" +:+ dq "target-temp" +:+ ":23}").

Definition local_certs_of (d : ExampleData) (offer_local_certs : bool) : bool := offer_local_certs && enable_local_cert d.

(** What the pages change: [data.rs], [consume.rs], [commands.rs]. *)
Inductive Edit : Type :=
| ApplicationId (s : string)
| DeviceId (s : string)
| Password_ (s : string)
| Payload_ (s : string)
| LocalCerts (b : bool).

Definition edit (m : Edit) (d : ExampleData) : ExampleData :=
  match d with
  | mkData a dv p pl bm cg dt lc ce cn cp =>
      match m with
      | ApplicationId s => mkData s dv p pl bm cg dt lc ce cn cp
      | DeviceId s => mkData a s p pl bm cg dt lc ce cn cp
      | Password_ s => mkData a dv s pl bm cg dt lc ce cn cp
      | Payload_ s => mkData a dv p s bm cg dt lc ce cn cp
      | LocalCerts b => mkData a dv p pl bm cg dt b ce cn cp
      end
  end.

Inductive ConsumeEdit : Type :=
| SetBinaryMode (b : bool)
| SetSharedConsumerMode (b : bool)
| SetConsumerGroup (s : string)
| SetDrgToken (b : bool).

Definition consume_edit (m : ConsumeEdit) (d : ExampleData) : ExampleData :=
  match d with
  | mkData a dv p pl bm cg dt lc ce cn cp =>
      match m with
      | SetBinaryMode b => mkData a dv p pl b cg dt lc ce cn cp
      | SetSharedConsumerMode b => mkData a dv p pl bm (if b then Some "group-id" else None) dt lc ce cn cp
      | SetConsumerGroup s => mkData a dv p pl bm (Some s) dt lc ce cn cp
      | SetDrgToken b => mkData a dv p pl bm cg b lc ce cn cp
      end
  end.

Inductive CommandEdit : Type :=
| DrgToken (b : bool)
| CommandEmptyMessage (b : bool)
| CommandName (s : string)
| CommandPayload (s : string).

Definition command_edit (m : CommandEdit) (d : ExampleData) : ExampleData :=
  match d with
  | mkData a dv p pl bm cg dt lc ce cn cp =>
      match m with
      | DrgToken b => mkData a dv p pl bm cg b lc ce cn cp
      | CommandEmptyMessage b => mkData a dv p pl bm cg dt lc b cn cp
      | CommandName s => mkData a dv p pl bm cg dt lc ce s cp
      | CommandPayload s => mkData a dv p pl bm cg dt lc ce cn s
      end
  end.

(** [MutableContext::apply], [utils/context.rs]: the new data and whether it is another. *)
Definition apply_edit (f : ExampleData → ExampleData) (d : ExampleData) : ExampleData * bool :=
  (f d, bool_decide (f d ≠ d)).

(** The group the consumer page accepts. *)
Definition group_valid (s : string) : bool :=
  negb (is_empty s) && all_chars (λ c, negb (bool_decide (c = "#"%char) || bool_decide (c = "+"%char) || bool_decide (c = "/"%char))) s.

(** ** The lines *)

Section Lines.
Context `{Alphanumeric, ConsoleCodecs} (base64 : string → string) (json_text : Value → string).

Definition verify (b : bool) : string := if b then "--verify build/certs/endpoints/root-cert.pem " else EmptyString.
Definition cafile (b : bool) : string := if b then "--cafile build/certs/endpoints/root-cert.pem " else EmptyString.
Definition port_text (p : Z) : string := pretty.pretty p.

Definition device_auth (d : ExampleData) : string :=
  url_encode (device_id d) +:+ "@" +:+ app_id d +:+ ":" +:+ password d.

(** [register.rs] *)
Definition login_line (api : string) : string := "drg login " +:+ shell_quote api.
Definition create_app_line (d : ExampleData) : string := "drg create app " +:+ app_id d.
Definition credentials (d : ExampleData) : Value :=
  Object [("credentials", Object [("credentials", Array [Object [("pass", Str (password d))]])])].
Definition create_device_line (d : ExampleData) : string :=
  "drg create device --app " +:+ app_id d +:+ " " +:+ shell_quote (device_id d) +:+ " --spec "
  +:+ shell_single_quote (json_text (credentials d)).

(** [publish.rs] *)
Definition publish_http_line (d : ExampleData) (local : bool) (url : string) : string :=
  "echo '" +:+ shell_quote (payload d) +:+ "' | http --auth '" +:+ shell_quote (device_auth d) +:+ "' "
  +:+ verify (local_certs_of d local) +:+ "POST " +:+ url +:+ "/v1/foo".
Definition publish_coap_line (d : ExampleData) (url : string) : string :=
  "echo '" +:+ shell_quote (payload d) +:+ "' | coap post -O '4209,Basic " +:+ shell_quote (base64 (device_auth d)) +:+ "' "
  +:+ url +:+ "/v1/foo".
Definition publish_mqtt_line (d : ExampleData) (local : bool) (m : MqttEndpoint) : string :=
  "mqtt pub -h " +:+ me_host m +:+ " -p " +:+ port_text (me_port m) +:+ " -u '" +:+ shell_quote (url_encode (device_id d)) +:+ "@"
  +:+ app_id d +:+ "' -pw '" +:+ shell_quote (password d) +:+ "' -s " +:+ cafile (local_certs_of d local) +:+ "-t temp -m "
  +:+ shell_single_quote (payload d).

(** [consume.rs] *)
Definition consume_topic (d : ExampleData) : string :=
  match consumer_group d with
  | None => "app/" +:+ app_id d
  | Some group => "$share/" +:+ group +:+ "/app/" +:+ app_id d
  end.
Definition token_text (d : ExampleData) (token : string) : string := if drg_token d then "$(drg whoami -t)" else token.
Definition consume_mqtt_line (d : ExampleData) (token : string) (local : bool) (m : MqttEndpoint) : string :=
  "mqtt sub -h " +:+ me_host m +:+ " -p " +:+ port_text (me_port m) +:+ " -s " +:+ cafile (local_certs_of d local) +:+ "-t '"
  +:+ consume_topic d +:+ "' " +:+ (if binary_mode d then " -up content-mode=binary" else EmptyString) +:+ " -pw "
  +:+ dq (token_text d token).
Definition consume_websocket_line (d : ExampleData) (token : string) (url : string) : string :=
  "websocat " +:+ url +:+ "/" +:+ app_id d +:+ " -H=" +:+ dq ("Authorization: Bearer " +:+ token_text d token).
Definition stream_line (d : ExampleData) : string := "drg stream -a " +:+ app_id d.

(** [commands.rs] *)
Definition piped (empty : bool) (text : string) : string := if empty then EmptyString else "echo " +:+ shell_single_quote text +:+ " | ".
Definition wait_http_line (d : ExampleData) (local : bool) (url : string) : string :=
  piped (cmd_empty_message d) (payload d) +:+ "http --auth " +:+ shell_quote (device_auth d) +:+ " " +:+ verify (local_certs_of d local)
  +:+ "POST " +:+ url +:+ "/v1/foo?ct=30".
Definition wait_coap_line (d : ExampleData) (url : string) : string :=
  piped (cmd_empty_message d) (payload d) +:+ "coap post -O '4209,Basic " +:+ shell_quote (base64 (device_auth d)) +:+ "' " +:+ url
  +:+ "/v1/foo?ct=30".
Definition inbox_topic : string := "command/inbox/#".
Definition wait_mqtt_line (d : ExampleData) (local : bool) (m : MqttEndpoint) : string :=
  "mqtt sub -h " +:+ me_host m +:+ " -p " +:+ port_text (me_port m) +:+ " -u '" +:+ shell_quote (url_encode (device_id d)) +:+ "@"
  +:+ app_id d +:+ "' -pw '" +:+ shell_quote (password d) +:+ "' -s " +:+ cafile (local_certs_of d local) +:+ "-t " +:+ inbox_topic.
Definition send_http_line (d : ExampleData) (token : string) (url : string) : string :=
  piped (is_empty (cmd_payload d)) (cmd_payload d) +:+ "http POST " +:+ url +:+ "/api/command/v1alpha1/apps/" +:+ url_encode (app_id d)
  +:+ "/devices/" +:+ url_encode (device_id d) +:+ " command==" +:+ shell_quote (cmd_name d) +:+ " "
  +:+ dq ("Authorization:Bearer " +:+ token_text d token).
Definition command_topic (d : ExampleData) : string := "command/" +:+ app_id d +:+ "/" +:+ device_id d.
Definition send_mqtt_line (d : ExampleData) (token : string) (local : bool) (m : MqttEndpoint) : string :=
  "mqtt pub -h " +:+ me_host m +:+ " -p " +:+ port_text (me_port m) +:+ " -s " +:+ cafile (local_certs_of d local) +:+ " -pw "
  +:+ dq (token_text d token) +:+ " -t '" +:+ command_topic d +:+ "/" +:+ cmd_name d +:+ "' -m " +:+ shell_single_quote (cmd_payload d).

(** The lines a page offers, for the endpoints that are announced. *)
Definition register_lines (d : ExampleData) (e : Endpoints) : list string :=
  option_list (login_line <$> e_api e) ++ [create_app_line d; create_device_line d].
Definition publish_lines (d : ExampleData) (e : Endpoints) : list string :=
  option_list (publish_http_line d (e_local_certs e) <$> e_http e) ++ option_list (publish_coap_line d <$> e_coap e)
  ++ option_list (publish_mqtt_line d (e_local_certs e) <$> e_mqtt e).
Definition consume_lines (d : ExampleData) (token : string) (e : Endpoints) : list string :=
  option_list (consume_mqtt_line d token (e_local_certs e) <$> e_mqtt_integration e)
  ++ match e_websocket_integration e with Some ws => [stream_line d; consume_websocket_line d token ws] | None => [] end.
Definition command_lines (d : ExampleData) (token : string) (e : Endpoints) : list string :=
  option_list (wait_http_line d (e_local_certs e) <$> e_http e) ++ option_list (wait_coap_line d <$> e_coap e)
  ++ option_list (wait_mqtt_line d (e_local_certs e) <$> e_mqtt e)
  ++ match e_command_url e with
     | Some url => send_http_line d token url :: option_list (send_mqtt_line d token (e_local_certs e) <$> e_mqtt_integration e)
     | None => []
     end.
End Lines.

(** ** What a shell makes of them *)

Section Read.
Context `{Alphanumeric, ConsoleCodecs} (base64 : string → string) (json_text : Value → string).
Import Line.

Lemma bare_plain s : all_chars bare s = true → has_char quote s = false ∧ has_char backslash s = false.
Proof.
  induction s as [|c s IH]; [done|]. cbn [all_chars has_char]. intros [Hc Hs]%andb_true_iff. destruct (IH Hs) as [-> ->].
  unfold bare in Hc. apply negb_true_iff in Hc. do 4 (apply orb_false_iff in Hc as [Hc ?]).
  rewrite !orb_false_r. done.
Qed.

Lemma shell_quote_plain s : has_char quote s = false → has_char backslash s = false → shell_quote s = s.
Proof. intros Hq Hb. unfold shell_quote. by rw (replace_none backslash) // replace_none. Qed.

(** A text that needs no quotes. *)
Definition plain_word (s : string) : Prop := s ≠ EmptyString ∧ all_chars bare s = true.

Lemma denotes_plain s : plain_word s → denotes s s.
Proof. intros [Hn Hb]. by apply denotes_bare. Qed.

Lemma denotes_literal s : bool_decide (s = EmptyString) || negb (all_chars bare s) = false → denotes s s.
Proof.
  intros [Hn Hb]%orb_false_iff. apply negb_false_iff in Hb. apply denotes_bare; [|done].
  intros ->. by rw bool_decide_eq_true_2 in Hn.
Qed.

(** The device is created with the data that was entered. *)
Theorem create_device_read d :
  plain_word (app_id d) → plain_word (device_id d) →
  read_line Bare None (create_device_line json_text d) =
    Some ["drg"; "create"; "device"; "--app"; app_id d; device_id d; "--spec"; json_text (credentials d)].
Proof.
  intros Ha Hd. destruct (bare_plain _ (proj2 Hd)) as [Hq Hb].
  unfold create_device_line. rw shell_quote_plain //.
  apply (read_words ["drg"; "create"; "device"; "--app"; app_id d; device_id d; "--spec"; shell_single_quote (json_text (credentials d))]).
  repeat first [apply Forall2_nil; done | apply Forall2_cons; split | apply denotes_quoted | by apply denotes_plain | by apply denotes_literal].
Qed.

(** Data is published over MQTT as the device, with the password and the payload that were entered, whatever
    the payload is; the password must not have quotes or backslashes. *)
Theorem publish_mqtt_read d local m :
  plain_word (me_host m) → plain_word (port_text (me_port m)) →
  has_char quote (url_encode (device_id d)) = false → has_char backslash (url_encode (device_id d)) = false →
  has_char quote (app_id d) = false → has_char quote (password d) = false → has_char backslash (password d) = false →
  read_line Bare None (publish_mqtt_line d local m) =
    Some (["mqtt"; "pub"; "-h"; me_host m; "-p"; port_text (me_port m); "-u"; url_encode (device_id d) +:+ "@" +:+ app_id d;
           "-pw"; password d; "-s"]
          ++ (if local_certs_of d local then ["--cafile"; "build/certs/endpoints/root-cert.pem"] else [])
          ++ ["-t"; "temp"; "-m"; payload d]).
Proof.
  intros Hh Hp Hdq Hdb Haq Hpq Hpb. unfold publish_mqtt_line. rw shell_quote_plain // (shell_quote_plain (password d)) //.
  set (user := url_encode (device_id d) +:+ "@" +:+ app_id d).
  assert (Hu : has_char quote user = false) by (unfold user; rewrite !has_char_app; by rewrite Hdq Haq).
  set (ws := ["mqtt"; "pub"; "-h"; me_host m; "-p"; port_text (me_port m); "-u"; one quote +:+ user +:+ one quote;
              "-pw"; one quote +:+ password d +:+ one quote; "-s"]
          ++ (if local_certs_of d local then ["--cafile"; "build/certs/endpoints/root-cert.pem"] else [])
          ++ ["-t"; "temp"; "-m"; shell_single_quote (payload d)]).
  trans (read_line Bare None (join " " ws)).
  - f_equal. unfold ws, user. destruct (local_certs_of d local); cbn [app join cafile]; by rewrite !str_app_assoc.
  - apply read_words. unfold ws. apply Forall2_app; [|apply Forall2_app; [destruct (local_certs_of d local)|]];
      repeat first [apply Forall2_nil; done | apply Forall2_cons; split | apply denotes_quoted | by apply denotes_single
                    | by apply denotes_plain | by apply denotes_literal].
Qed.

(** The credentials of the line that waits for commands are not quoted: a password with a blank is cut there. *)
Theorem wait_http_auth_cut d a b :
  plain_word (url_encode (device_id d)) → plain_word (app_id d) → plain_word a → plain_word b → password d = a +:+ " " +:+ b →
  read_line Bare None ("http --auth " +:+ shell_quote (device_auth d)) =
    Some ["http"; "--auth"; url_encode (device_id d) +:+ "@" +:+ app_id d +:+ ":" +:+ a; b].
Proof.
  intros [Hn Hd] [_ Ha] [Hna Hpa] Hb Hp. unfold device_auth. rw Hp.
  assert (Hq : ∀ c, c = quote ∨ c = backslash → has_char c (url_encode (device_id d) +:+ "@" +:+ app_id d +:+ ":" +:+ a +:+ " " +:+ b) = false).
  { destruct (bare_plain _ Hd), (bare_plain _ Ha), (bare_plain _ Hpa), (bare_plain _ (proj2 Hb)).
    intros c [->| ->]; rewrite !has_char_app; repeat match goal with H : has_char _ _ = false |- _ => rewrite H; clear H end; done. }
  rw shell_quote_plain; [apply Hq; by left|apply Hq; by right|].
  trans (read_line Bare None (join " " ["http"; "--auth"; url_encode (device_id d) +:+ "@" +:+ app_id d +:+ ":" +:+ a; b])).
  - f_equal. cbn [join]. by rewrite !str_app_assoc.
  - apply read_words. repeat first [apply Forall2_nil; done | apply Forall2_cons; split | by apply denotes_literal | by apply denotes_plain].
    apply denotes_bare; [by destruct (url_encode (device_id d))|]. rewrite !all_chars_app. by rewrite Hd Ha Hpa.
Qed.
End Read.

(** ** The topics are those of the services *)

(** The topic of the consumer is one of the application, shared by the group that was entered. *)
Theorem consume_topic_read d client_id :
  has_char "/" (app_id d) = false → (∀ g, consumer_group d = Some g → group_valid g = true) →
  let '(group, topic) := topic_group client_id (split "/" (consume_topic d)) in
  topic = ["app"; app_id d] ∧ topic_app topic = Ok (app_id d) ∧
  group = match consumer_group d with Some g => Some g | None => if is_empty client_id then None else Some client_id end.
Proof.
  intros Ha Hg. unfold consume_topic. destruct (consumer_group d) as [g|].
  - assert (Hs : has_char "/" g = false).
    { specialize (Hg g eq_refl). unfold group_valid in Hg. apply andb_true_iff in Hg as [_ Hg]. induction g as [|c g IH]; [done|].
      cbn [all_chars has_char] in *. apply andb_true_iff in Hg as [Hc Hg]. apply negb_true_iff in Hc.
      apply orb_false_iff in Hc as [_ Hc]. rewrite Hc. by apply IH. }
    change ("$share/" +:+ g +:+ "/app/" +:+ app_id d) with ("$share" +:+ String "/" (g +:+ String "/" ("app" +:+ String "/" (app_id d)))).
    rewrite !MqttInbox.split_concat (split_no_sep "/" g Hs) (split_no_sep "/" (app_id d) Ha). done.
  - change ("app/" +:+ app_id d) with ("app" +:+ String "/" (app_id d)).
    rewrite MqttInbox.split_concat (split_no_sep "/" (app_id d) Ha). done.
Qed.

(** Commands are sent to the device and application that were entered. *)
Theorem command_topic_read d :
  has_char "/" (app_id d) = false → has_char "/" (device_id d) = false → has_char "/" (cmd_name d) = false →
  split "/" (command_topic d +:+ "/" +:+ cmd_name d) = ["command"; app_id d; device_id d; cmd_name d].
Proof.
  intros Ha Hd Hc. unfold command_topic. rewrite !str_app_assoc.
  change ("command/" +:+ app_id d +:+ "/" +:+ device_id d +:+ "/" +:+ cmd_name d)
    with ("command" +:+ String "/" (app_id d +:+ String "/" (device_id d +:+ String "/" (cmd_name d)))).
  rewrite !MqttInbox.split_concat. by rewrite (split_no_sep "/" _ Ha) (split_no_sep "/" _ Hd) (split_no_sep "/" _ Hc).
Qed.

(** The subscription of the example is one for all commands, and what is published to its topic
    goes to the channel of that name, in every dialect that takes plain channels. *)
Theorem example_topics_accepted dialect :
  parse_subscribe dialect inbox_topic = Ok (mkSubscribeFilter DWildcard None, mkEncoder false) ∧
  parse_publish DrogueV1 "temp" = Ok (mkPublishTopic "temp" None) ∧
  parse_publish (PlainTopic false) "temp" = Ok (mkPublishTopic "temp" None) ∧
  parse_publish (PlainTopic true) "temp" = Err Syntax.
Proof. by destruct dialect. Qed.

(** ** The integrations of an application, [pages/apps/details/integrations.rs] *)

Module Integrations.
Import Line.

Record KafkaInfo := mkKafkaInfo { ki_bootstrap : string; ki_topic : string; ki_user : KafkaUserStatus }.

Inductive Card : Type := KafkaCard (info : KafkaInfo) | MqttCard (m : MqttEndpoint) | WebsocketCard (url : string).

Definition jaas_config (u : KafkaUserStatus) : string :=
  "org.apache.kafka.common.security.scram.ScramLoginModule required username=" +:+ dq (ku_username u) +:+ " password="
  +:+ dq (ku_password u) +:+ ";".

Definition consumer_properties (u : KafkaUserStatus) : list (string * string) :=
  [("security.protocol", "SASL_SSL"); ("sasl.mechanism", "SCRAM-SHA-512"); ("sasl.jaas.config", jaas_config u)].

Section Details.
Context `{Alphanumeric, Text, KafkaSections} (write_properties : list (string * string) → string).

Definition kafka_info (e : Endpoints) (app : Reg.Application) : option KafkaInfo :=
  match e_kafka_bootstrap_servers e, (s ← kafka_status app; match s with Ok s => ks_user s | Err _ => None end) with
  | Some bootstrap, Some user => Some (mkKafkaInfo bootstrap (make_topic KEvents (Reg.a_name app)) user)
  | _, _ => None
  end.

(** [render]: the cards that are shown. *)
Definition cards (e : Endpoints) (app : Reg.Application) : list Card :=
  option_list (KafkaCard <$> kafka_info e app) ++ option_list (MqttCard <$> e_mqtt_integration e)
  ++ option_list (WebsocketCard <$> e_websocket_integration e).

Definition newline_text : string := one newline.
Definition continuation : string := " " +:+ one backslash +:+ one newline +:+ one "009"%char.

(** The command line of [render_kafka_examples]. *)
Definition podman_raw (info : KafkaInfo) : string :=
  "podman run --rm -ti docker.io/bitnami/kafka:latest kafka-console-consumer.sh" +:+ newline_text
  +:+ "--topic " +:+ ki_topic info +:+ newline_text +:+ "--bootstrap-server " +:+ ki_bootstrap info
  +:+ join EmptyString ((λ kv, newline_text +:+ "--consumer-property " +:+ kv.1 +:+ "=" +:+ shell_single_quote kv.2)
                       <$> consumer_properties (ki_user info)).
Definition podman_line (info : KafkaInfo) : string := replace newline continuation (podman_raw info).

(** Properties for Quarkus. *)
Definition quarkus_properties (info : KafkaInfo) : list (string * string) :=
  (λ kv, ("mp.messaging.incoming.drogue-iot-incoming." +:+ kv.1, kv.2))
  <$> ("topic", ki_topic info) :: ("connector", "smallrye-kafka") :: consumer_properties (ki_user info).
Definition quarkus_text (info : KafkaInfo) : string :=
  write_properties (quarkus_properties info) +:+ newline_text +:+ "# or use " +:+ dq "latest" +:+ " to start with the most recent event"
  +:+ newline_text +:+ "mp.messaging.incoming.drogue-iot-incoming.auto.offset.reset=earliest".

(** [render_mqtt_quarkus] *)
Definition mqtt_outgoing (m : MqttEndpoint) (user : option string) : Map :=
  [("connector", Str "smallrye-mqtt"); ("host", Str (me_host m)); ("password", Str "<api-key>"); ("port", Number (me_port m));
   ("ssl", Bool true); ("username", Str (default "<you>" user))].
Definition mqtt_incoming (m : MqttEndpoint) (user : option string) (app : Reg.Application) : Map :=
  map_insert "topic" (Str ("app/" +:+ Reg.a_name app)) (mqtt_outgoing m user).
Definition mqtt_quarkus (m : MqttEndpoint) (user : option string) (app : Reg.Application) : Value :=
  Object [("mp", Object [("messaging", Object
    [("incoming", Object [("drogue-iot-incoming", Object (mqtt_incoming m user app))]);
     ("outgoing", Object [("drogue-iot-outgoing", Object (mqtt_outgoing m user))])])])].

(** What [render_mqtt_basic] and [render_ws_basic] offer to copy. *)
Definition mqtt_subscription (app : Reg.Application) : string := "app/" +:+ Reg.a_name app.
Definition mqtt_shared_subscription (app : Reg.Application) : string := "$share/<group>/app/" +:+ Reg.a_name app.
Definition mqtt_commands (app : Reg.Application) : string := "command/" +:+ Reg.a_name app +:+ "/<device>/<command>".

(** [render_ws_example] *)
Definition websocat_line (url token : string) (app : Reg.Application) : string :=
  "websocat " +:+ url +:+ "/" +:+ Reg.a_name app +:+ " -H=" +:+ dq ("Authorization: Bearer " +:+ token).
(** *** What a shell makes of the command line *)

(** Words with blanks or continued lines between them. *)
Fixpoint spread (w : string) (l : list (bool * string)) : string :=
  match l with
  | [] => w
  | (continued, w') :: l => w +:+ (if continued then continuation else " ") +:+ spread w' l
  end.

Lemma read_spread l : ∀ w x xs, denotes w x → Forall2 (λ p y, denotes p.2 y) l xs → read_line Bare None (spread w l) = Some (x :: xs).
Proof.
  induction l as [|[b w'] l IH]; intros w x xs Hw Hl; inversion Hl; subst.
  - cbn [spread]. rw -(app_empty_r w) Hw. done.
  - cbn [spread snd] in *. rw Hw. match goal with Hw' : denotes w' ?y, Hl' : Forall2 _ l ?ys |- _ => pose proof (IH w' y ys Hw' Hl') as Hr end.
    revert Hr. generalize (spread w' l). intros j Hr. destruct b.
    + change (continuation +:+ j) with (String " " (String backslash (String newline (String "009"%char j)))). simpl. by rw Hr.
    + change (" " +:+ j) with (String " " j). simpl. by rw Hr.
Qed.

Lemma replace_app c by_ a b : replace c by_ (a +:+ b) = replace c by_ a +:+ replace c by_ b.
Proof. induction a as [|x a IH]; [done|]. rw app_cons. cbn [replace]. by rw IH str_app_assoc. Qed.

Lemma has_char_replace c d by_ s : has_char c s = false → has_char c by_ = false → has_char c (replace d by_ s) = false.
Proof.
  intros Hs Hb. induction s as [|x s IH]; [done|]. cbn [has_char] in Hs. apply orb_false_iff in Hs as [Hx Hs].
  cbn [replace]. rewrite has_char_app (IH Hs) orb_false_r. destruct (bool_decide (x = d)); [done|]. cbn [has_char]. by rewrite Hx.
Qed.

Lemma quoted_no_newline s : has_char newline s = false → has_char newline (shell_single_quote s) = false.
Proof.
  intros Hs. unfold shell_single_quote. destruct (is_empty s); [done|]. destruct (all_alphanumeric s); [done|].
  rewrite !has_char_app. rewrite has_char_replace //.
Qed.

Lemma bare_no_newline s : all_chars bare s = true → has_char newline s = false.
Proof.
  induction s as [|c s IH]; [done|]. cbn [all_chars has_char]. intros [Hc Hs]%andb_true_iff. rewrite (IH Hs) orb_false_r.
  case_bool_decide as Hn; [|done]. subst c. done.
Qed.

(** The line reads the events of the application: it is a command with the topic, the servers and the
    properties of the consumer, each of them one word whatever the name and password of the user are. *)
Theorem podman_read info :
  plain_word (ki_topic info) → plain_word (ki_bootstrap info) →
  has_char newline (ku_username (ki_user info)) = false → has_char newline (ku_password (ki_user info)) = false →
  read_line Bare None (podman_line info) =
    Some (["podman"; "run"; "--rm"; "-ti"; "docker.io/bitnami/kafka:latest"; "kafka-console-consumer.sh"; "--topic"; ki_topic info;
           "--bootstrap-server"; ki_bootstrap info]
          ++ (consumer_properties (ki_user info) ≫= λ kv, ["--consumer-property"; kv.1 +:+ "=" +:+ kv.2])).
Proof.
  intros Ht Hb Hu Hp. set (q := shell_single_quote (jaas_config (ki_user info))).
  set (p1 := shell_single_quote "SASL_SSL"). set (p2 := shell_single_quote "SCRAM-SHA-512").
  assert (Hq : has_char newline q = false).
  { apply quoted_no_newline. unfold jaas_config, dq. rewrite !has_char_app. by rewrite Hu Hp. }
  assert (Hp1 : has_char newline p1 = false) by by apply quoted_no_newline.
  assert (Hp2 : has_char newline p2 = false) by by apply quoted_no_newline.
  trans (read_line Bare None (spread "podman"
    [(false, "run"); (false, "--rm"); (false, "-ti"); (false, "docker.io/bitnami/kafka:latest"); (false, "kafka-console-consumer.sh");
     (true, "--topic"); (false, ki_topic info); (true, "--bootstrap-server"); (false, ki_bootstrap info);
     (true, "--consumer-property"); (false, "security.protocol=" +:+ p1);
     (true, "--consumer-property"); (false, "sasl.mechanism=" +:+ p2);
     (true, "--consumer-property"); (false, "sasl.jaas.config=" +:+ q)])).
  - f_equal. unfold podman_line, podman_raw, consumer_properties. cbn [fmap list_fmap join fst snd]. fold q p1 p2.
    pose proof (bare_no_newline _ (proj2 Ht)) as Htn. pose proof (bare_no_newline _ (proj2 Hb)) as Hbn.
    rewrite !replace_app. rewrite (replace_none newline continuation (ki_topic info)) //
      (replace_none newline continuation (ki_bootstrap info)) // (replace_none newline continuation q) //
      (replace_none newline continuation p1) // (replace_none newline continuation p2) //.
  - apply (read_spread _ "podman" "podman"); [by apply denotes_literal|].
    repeat first [apply Forall2_nil; done | apply Forall2_cons; split | by apply denotes_literal | by apply denotes_plain
                  | cbn [snd]; apply (denotes_app _ _ "security.protocol="); [by apply denotes_literal|apply denotes_quoted]
                  | cbn [snd]; apply (denotes_app _ _ "sasl.mechanism="); [by apply denotes_literal|apply denotes_quoted]
                  | cbn [snd]; apply (denotes_app _ _ "sasl.jaas.config="); [by apply denotes_literal|apply denotes_quoted]].
Qed.
End Details.
End Integrations.
