(* ===== verification/ConsoleBackend.v ===== *)
(** * The backend of the console, and how the console starts

    [console-backend/src]: who the user is, the endpoints, the demos and the
    description of the API; [console-common/src/info.rs], the information the two
    sides share; [console-frontend/src/app.rs], how the console gets it;
    [pages/overview.rs] and [examples/mod.rs], where it is shown. *)

From S2P Require Import Prelude Json Auth Console ConsoleAdmin Services.
Import Services.Announced.

(** ** Endpoints as JSON, [service-api/src/endpoints.rs] and [console-common/src/info.rs] *)

Module Info.
Definition url_value (u : string) : Value := Object [("url", Str u)].
Definition mqtt_value (m : MqttEndpoint) : Value := Object [("host", Str (me_host m)); ("port", Number (me_port m))].

(** The fields of [Endpoints], those without a value left out. *)
Definition fields (e : Endpoints) : list (string * option Value) :=
  [("api", Str <$> e_api e);
   ("console", Str <$> e_console e);
   ("coap", url_value <$> e_coap e);
   ("http", url_value <$> e_http e);
   ("mqtt", mqtt_value <$> e_mqtt e);
   ("mqtt_ws", url_value <$> e_mqtt_ws e);
   ("mqtt_ws_browser", url_value <$> e_mqtt_ws_browser e);
   ("mqtt_integration", mqtt_value <$> e_mqtt_integration e);
   ("mqtt_integration_ws", url_value <$> e_mqtt_integration_ws e);
   ("mqtt_integration_ws_browser", url_value <$> e_mqtt_integration_ws_browser e);
   ("websocket_integration", url_value <$> e_websocket_integration e);
   ("issuer_url", Str <$> e_issuer_url e);
   ("redirect_url", Str <$> e_redirect_url e);
   ("registry", url_value <$> e_registry e);
   ("command_url", Str <$> e_command_url e);
   ("local_certs", if e_local_certs e then Some (Bool true) else None);
   ("kafka_bootstrap_servers", Str <$> e_kafka_bootstrap_servers e)].

Definition present (l : list (string * option Value)) : Map := omap (λ kv, (kv.1,.) <$> kv.2) l.
Definition encode (e : Endpoints) : Map := present (fields e).

(** Optional fields: missing or null is nothing, of the wrong kind is an error. *)
Definition opt {A} (read : Value → option A) (k : string) (m : Map) : option (option A) :=
  match map_get k m with
  | None | Some Null => Some None
  | Some v => Some <$> read v
  end.
Definition as_str (v : Value) : option string := match v with Str s => Some s | _ => None end.
Definition as_url (v : Value) : option string :=
  match v with Object m => u ← map_get "url" m; as_str u | _ => None end.
Definition as_mqtt (v : Value) : option MqttEndpoint :=
  match v with
  | Object m =>
      host ← (h ← map_get "host" m; as_str h);
      port ← (p ← map_get "port" m; match p with Number n => if ((0 <=? n) && (n <? 65536))%Z then Some n else None | _ => None end);
      Some (mkMqttEndpoint host port)
  | _ => None
  end.
Definition as_flag (k : string) (m : Map) : option bool :=
  match map_get k m with None => Some false | Some (Bool b) => Some b | Some _ => None end.

Definition decode (m : Map) : option Endpoints :=
  api ← opt as_str "api" m;
  console ← opt as_str "console" m;
  coap ← opt as_url "coap" m;
  http ← opt as_url "http" m;
  mqtt ← opt as_mqtt "mqtt" m;
  mqtt_ws ← opt as_url "mqtt_ws" m;
  mqtt_ws_browser ← opt as_url "mqtt_ws_browser" m;
  mqtt_integration ← opt as_mqtt "mqtt_integration" m;
  mqtt_integration_ws ← opt as_url "mqtt_integration_ws" m;
  mqtt_integration_ws_browser ← opt as_url "mqtt_integration_ws_browser" m;
  websocket_integration ← opt as_url "websocket_integration" m;
  issuer_url ← opt as_str "issuer_url" m;
  redirect_url ← opt as_str "redirect_url" m;
  registry ← opt as_url "registry" m;
  command_url ← opt as_str "command_url" m;
  local_certs ← as_flag "local_certs" m;
  kafka ← opt as_str "kafka_bootstrap_servers" m;
  Some (mkEndpoints api console coap http mqtt mqtt_ws mqtt_ws_browser mqtt_integration mqtt_integration_ws
    mqtt_integration_ws_browser websocket_integration issuer_url redirect_url registry command_url local_certs kafka).

(** [EndpointInformation] *)
Record EndpointInformation := mkInfo { ei_endpoints : Endpoints; ei_demos : list (string * string) }.

Definition demo_value (d : string * string) : Value := Array [Str d.1; Str d.2].
Definition as_demo (v : Value) : option (string * string) :=
  match v with Array [Str a; Str b] => Some (a, b) | _ => None end.
Definition encode_info (i : EndpointInformation) : Map :=
  present (fields (ei_endpoints i)
    ++ [("demos", match ei_demos i with [] => None | l => Some (Array (demo_value <$> l)) end)]).
Definition decode_info (m : Map) : option EndpointInformation :=
  e ← decode m;
  demos ← match map_get "demos" m with
          | None => Some []
          | Some (Array l) => mapM as_demo l
          | Some _ => None
          end;
  Some (mkInfo e demos).

Lemma present_get l k o : NoDup l.*1 → (k, o) ∈ l → map_get k (present l) = o.
Proof.
  unfold map_get, present. induction l as [|[k' o'] l IH]; intros Hd Hin; [by apply not_elem_of_nil in Hin|].
  apply NoDup_cons in Hd as [Hk Hd]. apply elem_of_cons in Hin as [[= -> ->]|Hin].
  - cbn [omap list_omap fst snd]. destruct o' as [v|]; cbn [fmap option_fmap option_map im_get].
    + by rewrite string_eqb_refl.
    + clear IH Hd. induction l as [|[k1 o1] l IH]; [done|]. cbn [omap list_omap fst snd].
      destruct o1 as [v|]; cbn [fmap option_fmap option_map im_get]; [|apply IH; set_solver].
      destruct (string_eqb_spec k' k1) as [->|]; [set_solver|]. apply IH. set_solver.
  - assert (k ≠ k') as Hne. { intros ->. apply Hk, list_elem_of_fmap. by exists (k', o). }
    cbn [omap list_omap fst snd]. destruct o' as [v|]; cbn [fmap option_fmap option_map im_get]; [|by apply IH].
    destruct (string_eqb_spec k k') as [->|]; [done|]. by apply IH.
Qed.

Lemma field_of l e i k o : fields e !! i = Some (k, o) → NoDup (fields e ++ l).*1 → map_get k (present (fields e ++ l)) = o.
Proof. intros Hi Hd. apply present_get; [done|]. apply elem_of_app. left. by eapply list_elem_of_lookup_2. Qed.

Lemma opt_str k m o : map_get k m = Str <$> o → opt as_str k m = Some o.
Proof. unfold opt. intros ->. by destruct o. Qed.
Lemma opt_url k m o : map_get k m = url_value <$> o → opt as_url k m = Some o.
Proof. unfold opt. intros ->. by destruct o. Qed.

(** A port of 16 bits. *)
Definition port_ok (o : option MqttEndpoint) : Prop := ∀ m, o = Some m → (0 ≤ me_port m < 65536)%Z.

Lemma opt_mqtt k m o : port_ok o → map_get k m = mqtt_value <$> o → opt as_mqtt k m = Some o.
Proof.
  unfold opt. intros Hp ->. destruct o as [[h p]|]; [|done]. specialize (Hp _ eq_refl). cbn in Hp. cbn -[Z.leb Z.ltb].
  change (string_eqb "host" "host") with true. change (string_eqb "port" "host") with false. change (string_eqb "port" "port") with true.
  cbn -[Z.leb Z.ltb]. by replace ((0 <=? p) && (p <? 65536))%Z with true by lia.
Qed.

Lemma decode_present l e : NoDup (fields e ++ l).*1 → port_ok (e_mqtt e) → port_ok (e_mqtt_integration e) →
  decode (present (fields e ++ l)) = Some e.
Proof.
  intros Hd Hm Hi. pose proof (λ i k o H, field_of l e i k o H Hd) as Hf. unfold decode.
  rewrite (opt_str "api" _ _ (Hf 0 _ _ eq_refl)) (opt_str "console" _ _ (Hf 1 _ _ eq_refl)) (opt_url "coap" _ _ (Hf 2 _ _ eq_refl))
    (opt_url "http" _ _ (Hf 3 _ _ eq_refl)) (opt_mqtt "mqtt" _ _ Hm (Hf 4 _ _ eq_refl)) (opt_url "mqtt_ws" _ _ (Hf 5 _ _ eq_refl))
    (opt_url "mqtt_ws_browser" _ _ (Hf 6 _ _ eq_refl)) (opt_mqtt "mqtt_integration" _ _ Hi (Hf 7 _ _ eq_refl))
    (opt_url "mqtt_integration_ws" _ _ (Hf 8 _ _ eq_refl)) (opt_url "mqtt_integration_ws_browser" _ _ (Hf 9 _ _ eq_refl))
    (opt_url "websocket_integration" _ _ (Hf 10 _ _ eq_refl)) (opt_str "issuer_url" _ _ (Hf 11 _ _ eq_refl))
    (opt_str "redirect_url" _ _ (Hf 12 _ _ eq_refl)) (opt_url "registry" _ _ (Hf 13 _ _ eq_refl))
    (opt_str "command_url" _ _ (Hf 14 _ _ eq_refl)) (opt_str "kafka_bootstrap_servers" _ _ (Hf 16 _ _ eq_refl)).
  unfold as_flag. rewrite (Hf 15 _ _ eq_refl). cbn. destruct e as [? ? ? ? ? ? ? ? ? ? ? ? ? ? ? [] ?]; done.
Qed.

(** What the backend sends is what the console reads. *)
Theorem info_roundtrip i : port_ok (e_mqtt (ei_endpoints i)) → port_ok (e_mqtt_integration (ei_endpoints i)) →
  decode_info (encode_info i) = Some i.
Proof.
  intros Hm Hi. destruct i as [e demos]. cbn [ei_endpoints] in *. unfold decode_info, encode_info. cbn [ei_endpoints ei_demos].
  set (l := [("demos", _)]). assert (Hd : NoDup (fields e ++ l).*1) by (cbn; by_decide).
  rewrite (decode_present l e Hd Hm Hi). cbn [mbind option_bind].
  rewrite (present_get (fields e ++ l) "demos" (match demos with [] => None | _ => Some (Array (demo_value <$> demos)) end) Hd);
    [apply elem_of_app; right; unfold l; destruct demos; apply list_elem_of_here|].
  destruct demos as [|d demos]; [done|]. cbn iota.
  assert (mapM as_demo (demo_value <$> d :: demos) = Some (d :: demos)) as ->; [|done].
  clear. induction (d :: demos) as [|[a b] l IH]; [done|]. rewrite fmap_cons. cbn [mapM]. cbn [demo_value as_demo fst snd mbind option_bind].
  change (mapM as_demo (demo_value <$> l)) with (mapM as_demo (demo_value <$> l)) in IH. by rewrite IH.
Qed.

(** The public endpoints are read as information without demos. *)
Theorem public_no_demos e : port_ok (e_mqtt e) → port_ok (e_mqtt_integration e) →
  decode_info (encode e) = Some (mkInfo e []).
Proof.
  intros Hm Hi. unfold decode_info, encode. rewrite -(app_nil_r (fields e)).
  assert (Hd : NoDup (fields e ++ []).*1) by (rewrite app_nil_r; cbn; by_decide).
  rewrite (decode_present [] e Hd Hm Hi). cbn [mbind option_bind].
  assert (map_get "demos" (present (fields e ++ [])) = None) as ->; [|done].
  rewrite app_nil_r. apply map_get_none. unfold present, map_keys. intros Hin.
  apply list_elem_of_fmap in Hin as ([k v] & Hk & Hin). cbn [fst] in Hk. subst k.
  apply list_elem_of_omap in Hin as ([k o] & Hin & Ho). cbn [fst snd] in Ho. destruct o as [v'|]; [|done]. injection Ho as -> ->.
  assert ("demos" ∈ (fields e).*1) as Hx by (apply list_elem_of_fmap; by exists ("demos", Some v)).
  revert Hx. cbn. by_decide.
Qed.
End Info.

(** ** The handlers, [console-backend/src] *)

Module Backend.
Import Info.

(** [ConfigMap::data] *)
Definition ConfigMap : Type := option (gmap string string).

(** [demos.rs], without the cache: the label and the link of each. *)
Definition demos_of (maps : list ConfigMap) : list (string * string) :=
  omap (λ cm, data ← cm; label ← data !! "label"; href ← data !! "href"; Some (label, href)) maps.

(** [#[cached(time = 300, result = true, ...)]]: a result is kept for five minutes, an error not at all. *)
Definition Cache : Type := option (Z * list (string * string)).
Definition get_demos (now : Z) (listed : option (list ConfigMap)) (c : Cache)
    : Cache * result (list (string * string)) OpenIdAuth.ServiceError :=
  match c with
  | Some (at_, demos) =>
      if (now <? at_ + 300)%Z then (c, Ok demos)
      else
        match listed with
        | Some l => (Some (now, demos_of l), Ok (demos_of l))
        | None => (None, Err (OpenIdAuth.ServiceUnavailable "Failed to enumerate demos"))
        end
  | None =>
      match listed with
      | Some l => (Some (now, demos_of l), Ok (demos_of l))
      | None => (None, Err (OpenIdAuth.ServiceUnavailable "Failed to enumerate demos"))
      end
  end.

(** [info.rs]; the answer of the cluster is taken only if there is one to ask. *)
Inductive DemoFetcher : Type := NoDemos | Kube (listed : option (list ConfigMap)).
Definition fetch_demos (f : DemoFetcher) (now : Z) (c : Cache) : Cache * list (string * string) :=
  match f with
  | NoDemos => (c, [])
  | Kube listed =>
      match get_demos now listed c with
      | (c, Ok l) => (c, l)
      | (c, Err _) => (c, [])
      end
  end.

Definition get_info (e : Endpoints) (f : DemoFetcher) (now : Z) (c : Cache) : Cache * Map :=
  let '(c, demos) := fetch_demos f now c in (c, encode_info (mkInfo e demos)).
Definition get_public_endpoints (e : Endpoints) : Map := encode e.
Definition get_drogue_version (version : string) : Value := json_object [("version", Str version)].

(** [admin.rs] *)
Definition whoami (u : UserInformation) : Value :=
  json_object [("id", match user_id u with Some id => Str id | None => Null end)].

(** The demos that are told are at most five minutes old, and none if the cluster cannot be asked. *)
Theorem demos_fresh f now c c' l :
  fetch_demos f now c = (c', l) → l ≠ [] →
  (∃ maps, f = Kube (Some maps) ∧ l = demos_of maps) ∨ (∃ at_, c = Some (at_, l) ∧ (now < at_ + 300)%Z).
Proof.
  unfold fetch_demos, get_demos. destruct f as [|listed]; [by intros [= <- <-]|]. intros H Hl.
  destruct c as [[at_ demos]|].
  - destruct (now <? at_ + 300)%Z eqn:Ht; [injection H as <- <-; right; exists at_; split; [done|lia]|].
    destruct listed as [maps|]; [|by injection H as <- <-]. injection H as <- <-. left. by exists maps.
  - destruct listed as [maps|]; [|by injection H as <- <-]. injection H as <- <-. left. by exists maps.
Qed.

(** *** The description of the API, [api.rs] *)

(** [value[k] = ..]: a null becomes an object; [None] is the panic on anything else. *)
Definition set_key (k : string) (f : Value → option Value) (v : Value) : option Value :=
  match v with
  | Null => x ← f Null; Some (Object [(k, x)])
  | Object m => x ← f (default Null (map_get k m)); Some (Object (map_insert k x m))
  | _ => None
  end.
Definition assign (v : Value) (_ : Value) : option Value := Some v.

Definition server_entry (url : string) : Value :=
  Array [json_object [("url", Str url); ("description", Str "Drogue Cloud API")]].
Definition security_entry : Value := Array [Object [("Drogue Cloud SSO", Array [])]].
Definition scheme_entry (auth_url : string) : Value :=
  Object [("Drogue Cloud SSO", json_object
    [("type", Str "oauth2"); ("description", Str "SSO");
     ("flows", Object [("implicit", json_object
        [("authorizationUrl", Str auth_url); ("scopes", Object [("openid", Str "OpenID Connect")])])])])].

(** [spec]: an error of the document, or a panic. *)
Definition spec (document : result Value string) (e : Endpoints) (scheme host auth_url : string) : result (option Value) string :=
  let? api := document in
  let url := default (scheme +:+ "://" +:+ host) (e_api e) in
  Ok (api ← set_key "servers" (assign (server_entry url)) api;
      api ← set_key "security" (assign security_entry) api;
      set_key "components" (set_key "securitySchemes" (assign (scheme_entry auth_url))) api).

(** [index] *)
Definition index (r : result (option Value) string) : option (Z * option Value) :=
  match r with
  | Ok (Some v) => Some (200%Z, Some v)
  | Ok None => None
  | Err _ => Some (500%Z, None)
  end.

(** The description is that of the file with the server, the security and its schemes set;
    everything else is as in the file. *)
Theorem spec_outcome m comps e scheme host auth_url :
  map_get "components" m = Some (Object comps) →
  ∃ m' comps', spec (Ok (Object m)) e scheme host auth_url = Ok (Some (Object m')) ∧
    map_get "servers" m' = Some (server_entry (default (scheme +:+ "://" +:+ host) (e_api e))) ∧
    map_get "security" m' = Some security_entry ∧
    map_get "components" m' = Some (Object comps') ∧ map_get "securitySchemes" comps' = Some (scheme_entry auth_url) ∧
    (∀ k, k ∉ ["servers"; "security"; "components"] → map_get k m' = map_get k m) ∧
    (∀ k, k ≠ "securitySchemes" → map_get k comps' = map_get k comps).
Proof.
  intros Hc. unfold spec. cbn [rbind set_key assign mbind option_bind].
  eexists _, (map_insert "securitySchemes" (scheme_entry auth_url) comps).
  assert (map_get "components" (map_insert "security" security_entry
    (map_insert "servers" (server_entry (default (scheme +:+ "://" +:+ host) (e_api e))) m)) = Some (Object comps)) as Hc'.
  { by rewrite !map_get_insert. }
  rewrite Hc'. cbn [default set_key assign mbind option_bind]. split; [done|].
  split_and!; try (by rewrite !map_get_insert).
  - intros k Hk. rewrite !map_get_insert. destruct (string_eqb_spec k "components"), (string_eqb_spec k "security"), (string_eqb_spec k "servers"); set_solver.
  - intros k Hk. rewrite map_get_insert. by destruct (string_eqb_spec k "securitySchemes").
Qed.
End Backend.

(** ** How the console starts, [app.rs] *)

Module Start.
Import Info.

Inductive BackendError : Type :=
| Generic (text : string)
| RequestFailed
| ErrorResponse (info : Request.ErrorInformation)
| UnknownResponse.

(** The answer to a request: it failed, or a status and a body. *)
Definition Answer : Type := option (Z * string).

(** [ResponseExt::client_response] *)
Definition client_response {T} (from : string → option T) (from_error : string → option Request.ErrorInformation) (a : Answer)
    : result T BackendError :=
  match a with
  | None => Err RequestFailed
  | Some (status, body) =>
      if ((200 <=? status) && (status <=? 299))%Z then
        match from body with Some t => Ok t | None => Err RequestFailed end
      else if ((400 <=? status) && (status <=? 599))%Z then
        Err (match from_error body with Some i => ErrorResponse i | None => RequestFailed end)
      else Err UnknownResponse
  end.

Section Start.
Context {B : Type} (from_backend : string → option B) (from_json : string → option Map)
  (from_error : string → option Request.ErrorInformation).

(** [fetch_info]: the place of the page, as a URL, with another path and without a query. *)
Definition fetch_info (href : result string string) (parse : string → option string) (set_path : string → string → string)
    (get : string → Answer) : result B BackendError :=
  match href with
  | Err e => Err (Generic ("Unable to get base URL: " +:+ e))
  | Ok href =>
      match parse href with
      | None => Err (Generic "Unable to parse base URL")
      | Some url => client_response from_backend from_error (get (set_path "/endpoints/backend.json" url))
      end
  end.

Definition read_info (body : string) : option EndpointInformation := m ← from_json body; decode_info m.

(** [fetch_login] *)
Definition fetch_login (backend_url : B → string → string) (get : string → Answer) (b : B) : result (B * EndpointInformation) BackendError :=
  let? endpoints := client_response read_info from_error (get (backend_url b "/.well-known/drogue-endpoints")) in
  Ok (b, endpoints).

(** [Application]: what is shown. *)
Inductive Shown : Type :=
| Nothing_
| Failed (e : BackendError)
| Running (b : B) (i : EndpointInformation).

(** [fetch_client] and [SetInfo] *)
Definition start href parse set_path backend_url get : Shown :=
  match (let? b := fetch_info href parse set_path get in fetch_login backend_url get b) with
  | Ok (b, i) => Running b i
  | Err e => Failed e
  end.

(** *** The overview, [pages/overview.rs] *)

Definition labelled (label : string) (o : option string) : list (string * string) := option_list ((label,.) <$> o).
Definition mqtt_card (label : string) (o : option MqttEndpoint) : list (string * string) :=
  labelled label ((λ m, me_host m +:+ ":" +:+ pretty.pretty (me_port m)) <$> o).

Definition service_cards (e : Endpoints) : list (string * string) :=
  labelled "API" (e_api e) ++ labelled "Command line client" ((λ api, "drg login " +:+ api) <$> e_api e)
  ++ labelled "Kafka bootstrap servers" (e_kafka_bootstrap_servers e).
Definition endpoint_cards (e : Endpoints) : list (string * string) :=
  labelled "CoAP endpoint" (e_coap e) ++ labelled "HTTP endpoint" (e_http e) ++ mqtt_card "MQTT endpoint" (e_mqtt e)
  ++ labelled "MQTT over Websocket endpoint" (e_mqtt_ws e)
  ++ labelled "MQTT over Websocket endpoint for browser" (e_mqtt_ws_browser e) ++ labelled "Command endpoint" (e_command_url e).
Definition integration_cards (e : Endpoints) : list (string * string) :=
  mqtt_card "MQTT integration" (e_mqtt_integration e) ++ labelled "Websocket integration" (e_websocket_integration e)
  ++ labelled "MQTT over Websocket integration" (e_mqtt_integration_ws e)
  ++ labelled "MQTT over Websocket integration for browser" (e_mqtt_integration_ws_browser e).
Definition demo_cards (i : EndpointInformation) : list (string * string) := ei_demos i.

(** *** With the backend *)

(** The console that starts with a backend shows the endpoints that backend announces; but, whatever demos
    the backend knows, it shows none: they are not part of the public endpoints it starts with. *)
Theorem console_starts href url parse set_path backend_url get b body e text :
  href = Ok url → parse url = Some url → get (set_path "/endpoints/backend.json" url) = Some (200%Z, body) → from_backend body = Some b →
  get (backend_url b "/.well-known/drogue-endpoints") = Some (200%Z, text) → from_json text = Some (Backend.get_public_endpoints e) →
  port_ok (e_mqtt e) → port_ok (e_mqtt_integration e) →
  start href parse set_path backend_url get = Running b (mkInfo e []) ∧ demo_cards (mkInfo e []) = [].
Proof.
  intros -> Hp Hb Hfb He Ht Hm Hi. split; [|done]. unfold start, fetch_info. rewrite Hp Hb. cbn. rewrite Hfb. cbn [rbind].
  unfold fetch_login. rewrite He. cbn. unfold read_info. rewrite Ht. cbn [mbind option_bind].
  unfold Backend.get_public_endpoints. by rewrite (public_no_demos e Hm Hi).
Qed.
End Start.
End Start.

(** ** The page of the examples, [examples/mod.rs] *)

Module ExamplePage.
Inductive Example_ : Type := Register | Consume | Publish | Commands_.
Definition title (x : Example_) : string :=
  match x with
  | Register => "Registering devices"
  | Consume => "Consuming data"
  | Publish => "Publishing data"
  | Commands_ => "Command & control"
  end.

Section Page.
Context {D : Type} `{EqDecision D} `{ConsoleCodecs} (backend : Request.Backend) (from_endpoints : string → result Endpoints string).

Inductive Msg : Type :=
| FetchOverview
| FetchOverviewFailed
| OverviewUpdate (e : Endpoints)
| SetExampleData (f : D → D).

Record t := mk { ft : option nat; endpoints : option Endpoints; data : D; net : Request.Net Request.FetchRequest }.

Definition info_request : result Request.FetchRequest string :=
  Request.request_with backend "GET" "/api/console/v1alpha1/info" [] Request.Nothing [].

(** [update]: the page and whether it is drawn again; [None] is the panic of a request that cannot be made. *)
Definition update (msg : Msg) (p : t) : option (t * bool) :=
  match msg with
  | FetchOverview =>
      match info_request with
      | Ok r => let '(i, n) := Request.start r (net p) in
          Some (mk (Some i) (endpoints p) (data p) (Request.drop_handle (ft p) n), true)
      | Err _ => None
      end
  | FetchOverviewFailed => Some (p, false)
  | OverviewUpdate e => Some (mk (ft p) (Some e) (data p) (net p), true)
  | SetExampleData f => Some (mk (ft p) (endpoints p) (f (data p)) (net p), bool_decide (f (data p) ≠ data p))
  end.

Definition on_answer (response : result (Z * string) string) : Msg :=
  match Request.api_handler from_endpoints from_error show_number response with
  | Request.Success e _ => OverviewUpdate e
  | Request.Failure _ => FetchOverviewFailed
  end.

(** The request of the page can always be made, so that its [unwrap] never panics. *)
Theorem example_page_total msg p : is_Some (update msg p).
Proof. destruct msg; cbn; eauto. Qed.
End Page.
End ExamplePage.
