(* ===== verification/ConsoleShell.v ===== *)
(** * The frame of the console

    [console-frontend/src/console.rs]: the routes, the page each of them shows, the
    menu and the user's menu; [components/placeholder.rs], what is shown to those
    who are not logged in; [components/about.rs] and [pages/token.rs];
    [pages/mod.rs], the state of a resource.  What the pages and dialogs do to the
    frame are their effects, which are carried out here. *)

From S2P Require Import Prelude Json Versioning Auth Events Store Outbox Registry Management Admin Lifecycle Select Labels Listing Kafka RegistryApi Reconcile Console ConsoleAdmin ConsolePages ConsoleDialogs ConsoleBackend.
Import Console.Request.

(** ** Routes, [console.rs], [pages/apps/mod.rs], [pages/devices/mod.rs] *)

Module Routes.
Inductive ApplicationContext : Type := Any | Single (app : string).
#[export] Instance context_eq : EqDecision ApplicationContext.
Proof. solve_decision. Defined.

(** [Display] and [FromStr] *)
Definition context_text (c : ApplicationContext) : string := match c with Any => EmptyString | Single app => app end.
Definition context_from (s : string) : ApplicationContext := if is_empty s then Any else Single s.

Inductive DeviceSection : Type := DeviceOverview | DeviceYaml | DeviceDebug.
Inductive AppPages : Type := AppDetailsPage (name : string) (details : AppDetails.Section_) | AppsIndex.
Inductive DevicePages : Type :=
| DeviceDetailsPage (app : ApplicationContext) (name : string) (details : DeviceSection)
| DevicesIndex (app : ApplicationContext).

Inductive AppRoute : Type :=
| SpyRoute
| ExamplesRoute (e : ExamplePage.Example_)
| AccessTokens
| CurrentToken
| Ownership (id : string)
| Applications (p : AppPages)
| Devices (p : DevicePages)
| Overview.

(** The tabs of an application and of a device: their section of the route, and the route of a section. *)
Definition app_section (r : AppRoute) : option AppDetails.Section_ :=
  match r with Applications (AppDetailsPage _ details) => Some details | _ => None end.
Definition app_tab (name : string) (child : AppDetails.Section_) : AppRoute := Applications (AppDetailsPage name child).
Definition device_section (r : AppRoute) : option DeviceSection :=
  match r with Devices (DeviceDetailsPage _ _ details) => Some details | _ => None end.
Definition device_tab (app name : string) (child : DeviceSection) : AppRoute :=
  Devices (DeviceDetailsPage (Single app) name child).

(** [is_applications] and [is_devices], which the entries of the menu are active with. *)
Definition is_applications (r : AppRoute) : bool := match r with Applications _ => true | _ => false end.
Definition is_devices (r : AppRoute) : bool := match r with Devices _ => true | _ => false end.

(** The pages, with what the frame gives to them. *)
Inductive Page : Type :=
| OverviewPage
| AppListPage
| AppPage (name : string) (details : AppDetails.Section_)
| OwnershipPage (name : string)
| DeviceListPage (app : string)
| DevicePage (app name : string) (details : DeviceSection)
| SpyPage
| TokensPage
| CurrentTokenPage
| ExamplePage_ (e : ExamplePage.Example_).

(** The address of the browser: a value that a route is written with comes back as [via] of it,
    [url_decode] is that of [percent_encoding]. *)
Class Address `{ConsoleCodecs} := { url_decode : string → string; via : string → string }.

(** The characters that have no meaning in the path of a URL and need no escape. *)
Definition unreserved (c : ascii) : bool := hostname_char c || bool_decide (c = "_"%char) || bool_decide (c = "~"%char).
Definition segment (s : string) : Prop := all_chars unreserved s = true ∧ s ≠ EmptyString ∧ s ≠ "." ∧ s ≠ "..".

(** Decoding undoes encoding and leaves what has no escape; the address keeps segments that need no escape,
    and those that are encoded. *)
Class AddressLaws `{Address} : Prop := {
  decode_encode s : url_decode (url_encode s) = s;
  decode_plain s : has_char "%" s = false → url_decode s = s;
  via_segment s : segment s → via s = s;
  via_encoded s : s ≠ EmptyString → via (url_encode s) = url_encode s;
}.

Section Switch.
Context `{Address}.

(** The route the router sees after one was pushed. *)
Definition context_via (c : ApplicationContext) : ApplicationContext := context_from (via (context_text c)).
Definition reroute (r : AppRoute) : AppRoute :=
  match r with
  | Ownership id => Ownership (via id)
  | Applications (AppDetailsPage name details) => Applications (AppDetailsPage (via name) details)
  | Devices (DeviceDetailsPage app name details) => Devices (DeviceDetailsPage (context_via app) (via name) details)
  | Devices (DevicesIndex app) => Devices (DevicesIndex (context_via app))
  | r => r
  end.

(** The switch of [Console::view] *)
Definition switch (r : AppRoute) : Page :=
  match r with
  | Overview => OverviewPage
  | Applications AppsIndex => AppListPage
  | Applications (AppDetailsPage name details) => AppPage (url_decode name) details
  | Ownership id => OwnershipPage (url_decode id)
  | Devices (DevicesIndex app) => DeviceListPage (context_text app)
  | Devices (DeviceDetailsPage app name details) => DevicePage (url_decode (context_text app)) (url_decode name) details
  | SpyRoute => SpyPage
  | AccessTokens => TokensPage
  | CurrentToken => CurrentTokenPage
  | ExamplesRoute e => ExamplePage_ e
  end.
End Switch.

Lemma context_roundtrip c : c ≠ Single EmptyString → context_from (context_text c) = c.
Proof. destruct c as [|app]; [done|]. intros Hne. unfold context_from. cbn. by destruct app. Qed.

Lemma unreserved_no_percent s : all_chars unreserved s = true → has_char "%" s = false.
Proof.
  induction s as [|c s IH]; [done|]. cbn [all_chars has_char]. intros [Hc Hs]%andb_true_iff. rewrite (IH Hs) orb_false_r.
  apply bool_decide_eq_false. intros ->. by vm_compute in Hc.
Qed.

Lemma plain_segment s : Dialog.plain s → segment s.
Proof.
  intros (Hs & ? & ? & ?). split_and!; try done. eapply all_chars_impl; [|exact Hs]. intros c Hc. unfold unreserved. by rw Hc.
Qed.

(** An address the browser opens: what the page of the members writes into a link is what the page that
    accepts an application is for. *)
Theorem transfer_link_opens `{AddressLaws} name :
  name ≠ EmptyString → switch (reroute (Ownership (url_encode name))) = OwnershipPage name.
Proof. intros Hne. cbn. by rewrite (via_encoded _ Hne) decode_encode. Qed.

(** A route whose names need no escape shows the page of these names. *)
Lemma segment_shown `{AddressLaws} s : segment s → via s = s ∧ url_decode s = s.
Proof. intros Hs. split; [by apply via_segment|]. apply decode_plain, unreserved_no_percent, Hs. Qed.

Lemma context_shown `{AddressLaws} a : segment a → context_via (Single a) = Single a.
Proof.
  intros Hs. unfold context_via. cbn [context_text]. rewrite (proj1 (segment_shown a Hs)). unfold context_from.
  destruct Hs as (_ & Hne & _). by destruct a.
Qed.

Theorem pages_shown `{AddressLaws} a d s t :
  segment a → segment d →
  switch (reroute (app_tab a s)) = AppPage a s ∧
  switch (reroute (device_tab a d t)) = DevicePage a d t ∧
  switch (reroute (Devices (DevicesIndex (Single a)))) = DeviceListPage a.
Proof.
  intros Ha Hd. destruct (segment_shown a Ha) as [Hva Hda]. destruct (segment_shown d Hd) as [Hvd Hdd].
  unfold app_tab, device_tab. cbn [reroute switch]. rewrite !context_shown //. cbn [context_text].
  by rewrite Hva Hvd Hda Hdd.
Qed.

(** A device whose name looks like an encoded one is not reached: its route shows the page of another name. *)
Theorem escaped_name_misread `{AddressLaws} a d t :
  segment a → d ≠ EmptyString → url_encode d ≠ d →
  switch (reroute (device_tab a (url_encode d) t)) = DevicePage a d t ∧ DevicePage a d t ≠ DevicePage a (url_encode d) t.
Proof.
  intros Ha Hne Hd. split; [|congruence]. unfold device_tab. cbn [reroute switch]. rewrite (context_shown a Ha).
  cbn [context_text]. by rewrite (proj2 (segment_shown a Ha)) (via_encoded d Hne) decode_encode.
Qed.

End Routes.

(** ** The frame, [Console] *)

Module Frame.
Import Routes.

(** The menu: the titles of its groups, the entries, and where they lead. *)
Definition menu (app : ApplicationContext) : list (string * list (string * AppRoute)) := [
  ("Home", [("Overview", Overview); ("Applications", Applications AppsIndex); ("Devices", Devices (DevicesIndex app))]);
  ("Getting started",
    (λ e, (ExamplePage.title e, ExamplesRoute e)) <$>
      [ExamplePage.Register; ExamplePage.Consume; ExamplePage.Publish; ExamplePage.Commands_]);
  ("Tools", [("Spy", SpyRoute)]);
  ("API", [("Access tokens", AccessTokens)])].

(** The entry of the group [API] that leaves the console. *)
Definition menu_link : string * string := ("API specification", "/api").

(** The claims of the token of a user, as the library has them. *)
Record Claims := mkClaims {
  subject : string;
  preferred_username : option string;
  full_name : option string;
  issuer : string;
  email : option string;
}.

(** The user's menu: the name that is shown, the image, and the entries with the page they open in another tab. *)
Section UserMenu.
(** The hash of an address in hexadecimal, and a URL with a segment added to its path. *)
Context (md5 : string → string) (push_path : string → string → option string).

Definition account_url (issuer : string) : string := default issuer (push_path issuer "account").
Definition image (email : option string) : string :=
  match email with
  | Some email => "https://www.gravatar.com/avatar/" +:+ md5 email +:+ "?D=mp"
  | None => "/assets/images/img_avatar.svg"
  end.
Definition user_id_and_name (c : option Claims) : string * string :=
  match c with Some c => (subject c, default EmptyString (preferred_username c)) | None => (EmptyString, EmptyString) end.
Definition user_items (c : option Claims) : list (string * option string) :=
  ("Current Token", None) :: match c with Some c => [("Account", Some (account_url (issuer c)))] | None => [] end ++ [("Logout", None)].
Definition user_toggle (c : option Claims) : string * string :=
  (default (user_id_and_name c).2 (c ≫= full_name), image (c ≫= email)).
End UserMenu.

(** What the frame does beside its state. *)
Inductive Effect : Type := LoggedOut | OpenAbout.

Inductive Msg : Type :=
| Logout
| About
| ToCurrentToken
| SetAppCtx (mutator : ApplicationContext → ApplicationContext).

(** The context of the pages, the route the router is at, and what was done. *)
Record t := mk { app_ctx : ApplicationContext; route : AppRoute; effects : list Effect }.

Definition create (r : AppRoute) : t := mk Any r [].

Section Frame.
Context `{Address}.

Definition push (r : AppRoute) (c : t) : t := mk (app_ctx c) (reroute r) (effects c).

(** [update]: the frame, and whether it is drawn again. *)
Definition update (msg : Msg) (c : t) : t * bool :=
  match msg with
  | Logout => (mk (app_ctx c) (route c) (effects c ++ [LoggedOut]), true)
  | About => (mk (app_ctx c) (route c) (effects c ++ [OpenAbout]), true)
  | ToCurrentToken => (push CurrentToken c, true)
  | SetAppCtx f => (mk (f (app_ctx c)) (route c) (effects c), bool_decide (f (app_ctx c) ≠ app_ctx c))
  end.

Definition shown (c : t) : Page := switch (route c).

(** A click on an entry of the menu. *)
Definition click (r : AppRoute) (c : t) : t := push r c.

(** What the pages and dialogs ask of the frame, in the order they do. *)
Definition set_context (app : string) (c : t) : t := (update (SetAppCtx (λ _, Single app)) c).1.

Definition of_apps (e : AppIndex.Effect) (c : t) : t :=
  match e with
  | AppIndex.SetContext app => set_context app c
  | AppIndex.PushDetails name => push (app_tab name AppDetails.Overview) c
  | _ => c
  end.
Definition of_devices {D} (e : ConsolePages.Index.Effect D) (c : t) : t :=
  match e with
  | ConsolePages.Index.SetContext app => set_context app c
  | ConsolePages.Index.PushIndex app => push (Devices (DevicesIndex (Single app))) c
  | ConsolePages.Index.PushDetails app name => push (device_tab app name DeviceOverview) c
  | _ => c
  end.
Definition of_dialog (e : Dialog.Effect) (c : t) : t :=
  match e with
  | Dialog.PushApps => push (Applications AppsIndex) c
  | Dialog.PushApp name => push (app_tab name AppDetails.Overview) c
  | Dialog.PushDevices app => push (Devices (DevicesIndex (Single app))) c
  | Dialog.PushDevice app name => push (device_tab app name DeviceOverview) c
  | _ => c
  end.

Definition carry {E} (run : E → t → t) (l : list E) (c : t) : t := foldl (λ c e, run e c) c l.

(** A click on an application shows its page, and makes the devices of the menu those of this application. *)
Theorem click_app {A} `{!AddressLaws} backend (p : AppIndex.t (A := A)) c a q sent :
  segment a → AppIndex.update backend (AppIndex.ShowOverview a) p = Some (q, sent) →
  ∃ l, AppIndex.effects q = AppIndex.effects p ++ l ∧
  let c' := carry of_apps l c in
  shown c' = AppPage a AppDetails.Overview ∧ is_applications (route c') = true ∧
  ∃ r, ("Devices", r) ∈ mjoin (snd <$> menu (app_ctx c')) ∧ shown (click r c') = DeviceListPage a.
Proof.
  intros Ha [= <- <-]. eexists. split; [done|]. cbn [carry foldl of_apps]. destruct (pages_shown a a AppDetails.Overview DeviceOverview Ha Ha) as (Hpage & _ & Hlist).
  split_and!; [exact Hpage|done|]. exists (Devices (DevicesIndex (Single a))). split; [|exact Hlist].
  cbn. rewrite !elem_of_cons. auto.
Qed.

(** Another application chosen in the list of devices: the list and the menu are those of this application. *)
Theorem choose_app {D} `{!AddressLaws} backend (p : ConsolePages.Index.t (D := D)) c a q sent :
  segment a → ConsolePages.Index.app p ≠ a → ConsolePages.Index.update backend (ConsolePages.Index.SetApp a) p = Some (q, sent) →
  ∃ l, ConsolePages.Index.effects q = ConsolePages.Index.effects p ++ l ∧
  let c' := carry of_devices l c in shown c' = DeviceListPage a ∧ app_ctx c' = Single a.
Proof.
  intros Ha Hne. cbn [ConsolePages.Index.update]. destruct (string_eqb _ a) eqn:Heq; [by apply string_eqb_eq in Heq|].
  intros [= <- <-]. eexists. split; [done|]. cbn [carry foldl of_devices]. split; [|done].
  exact (proj2 (proj2 (pages_shown a a AppDetails.Overview DeviceOverview Ha Ha))).
Qed.

(** A dialog that reports what the registry did leads to the page of what was made, or stays where it was. *)
Lemma told_shown {E} k name (r : result unit (MgmtError E)) l c :
  Dialog.told k name r l →
  carry of_dialog l c = match r with Ok _ => of_dialog (Dialog.k_route k name) c | Err _ => c end.
Proof. destruct r; [by intros ->|]. by intros (title & message & ->). Qed.
End Frame.

(** *** With the registry *)

Section System.
Context `{UuidCodec, ClientApi, Keycloak, ApiCodecs, Nom, AddressLaws} {E : Type}.
Context (instance : string) (sender : list Event.t → result unit E) (nom_error : string → string).
Context (name_le : relation string) `{∀ x y, Decision (name_le x y)}.
Context (backend : Backend) (value_vec : Value → result string string).
Context (server_path : string → list string) (error_text : string → string).
Context `{!Dialog.RegistryWire backend value_vec server_path error_text}.
Implicit Types (env : Env) (user : UserInformation) (db : Db) (p : Dialog.t).

Notation confirm := (Dialog.confirm instance sender nom_error name_le server_path error_text).
Notation request env user r db := (handle_request instance sender env user r db).

(** The user creates a device: if the registry has it then, its page is shown, and otherwise the page
    that was there. *)
Theorem created_device_shown env user p db c a location :
  Dialog.plain a → segment (Dialog.input p) → Dialog.device_create_enabled p = true →
  url_for "device" [a; Dialog.input p] = Ok location →
  let r := confirm (Dialog.device_create backend value_vec a) env user p db in
  ∃ d l, Reg.d_name d = Dialog.input p ∧ Reg.d_application d = a ∧
  Dialog.effects r.1 = Dialog.effects p ++ l ∧
  let resp := request env user (CreateDevice d) db in
  r.2 = r_db resp ∧
  shown (carry of_dialog l c) =
    match r_result resp with Ok _ => DevicePage a (Dialog.input p) DeviceOverview | Err _ => shown c end.
Proof.
  intros Ha Hd He Hu r.
  destruct (Dialog.create_device_end_to_end instance sender nom_error name_le backend value_vec server_path error_text
    env user p db a location Ha He Hu) as (d & Hn & Happ & Hdb & l & Heff & Hl).
  exists d, l. cbn zeta. split_and!; try done. rw (told_shown _ _ _ _ c Hl). destruct (r_result _); [|done].
  exact (proj1 (proj2 (pages_shown a _ AppDetails.Overview DeviceOverview (plain_segment a Ha) Hd))).
Qed.

(** The user deletes a device: the list of the devices of the application is shown if it is gone. *)
Theorem deleted_device_shown env user p db c a d :
  Dialog.plain a → Dialog.plain d → (∀ j, Dialog.fetch_task p = Some j → (j < n_next (Dialog.net p))%nat) →
  let r := confirm (Dialog.device_delete backend a d) env user p db in
  ∃ l, Dialog.effects r.1 = Dialog.effects p ++ l ∧
  let resp := request env user (DeleteDevice a d None) db in
  r.2 = r_db resp ∧
  shown (carry of_dialog l c) = match r_result resp with Ok _ => DeviceListPage a | Err _ => shown c end.
Proof.
  intros Ha Hd Hlt r.
  destruct (Dialog.delete_device_end_to_end instance sender nom_error name_le backend value_vec server_path error_text
    env user p db a d Ha Hd Hlt) as (Hdb & l & Heff & Hl).
  exists l. cbn zeta. split_and!; try done. rw (told_shown _ _ _ _ c Hl). destruct (r_result _); [|done].
  exact (proj2 (proj2 (pages_shown a a AppDetails.Overview DeviceOverview (plain_segment a Ha) (plain_segment a Ha)))).
Qed.
End System.
End Frame.

(** ** Who is not logged in, [components/placeholder.rs], and [AppMain] *)

Module Login.
Import Routes.

Record IdpInfo := mkIdp { idp_id : string; icon_html : string; href : option string; label : option string }.

(** What [BackendInformation] has for the login. *)
Record LoginInfo := mkLogin { login_note : option string; idps : list IdpInfo; footer_band : list string }.

(** What a click does: open a page, or start the login with a query. *)
Inductive Click : Type := Open (url : string) | StartLogin (query : list (string * string)).

Record Link := mkLink { l_label : string; l_icon : string; l_click : Click }.

(** [idp_links] *)
Definition idp_link (idp : IdpInfo) : Link :=
  mkLink (default EmptyString (label idp)) (icon_html idp)
    match href idp with
    | Some href => Open href
    | None => StartLogin [("kc_idp_hint", idp_id idp)]
    end.
Definition idp_links (info : LoginInfo) : list Link := idp_link <$> idps info.

(** [render_main_footer]: the links and the band, if there is anything to show. *)
Definition render_main_footer (info : LoginInfo) : option (list Link * list string) :=
  match idps info, footer_band info with
  | [], [] => None
  | _, _ => Some (idp_links info, footer_band info)
  end.

(** [render_login]: the note below, the button, and the footer. *)
Record LoginPage := mkLoginPage { lp_note : option string; lp_button : Click; lp_footer : option (list Link * list string) }.
Definition render_login (info : LoginInfo) : LoginPage :=
  mkLoginPage (login_note info) (StartLogin []) (render_main_footer info).

(** [OAuth2Context] of the library, with the tokens of an [Authentication]. *)
Inductive OAuth2Context : Type :=
| NotInitialized
| NotAuthenticated
| Authenticated_ (access_token : string) (refresh_token : option string)
| AuthFailed.

(** What is on the screen; a redirect starts the login, or goes to a route after a logout. *)
Inductive Screen : Type :=
| Blank
| LoginScreen (page : LoginPage)
| LoginRedirect (logout : AppRoute)
| PageScreen (page : Page).

(** [Placeholder::view] *)
Definition placeholder (info : LoginInfo) (r : AppRoute) : Screen :=
  match r with
  | Overview => LoginScreen (render_login info)
  | _ => LoginRedirect Overview
  end.

(** [AppMain]: the library shows [Console] to those who are authenticated and [Placeholder] to those who are not. *)
Definition screen `{Address} (info : LoginInfo) (auth : OAuth2Context) (r : AppRoute) : Screen :=
  match auth with
  | Authenticated_ _ _ => PageScreen (switch r)
  | NotAuthenticated => placeholder info r
  | NotInitialized | AuthFailed => Blank
  end.

(** [CurrentToken]: the context it was told last, and what it shows. *)
Definition token_update (auth : OAuth2Context) (_ : option OAuth2Context) : option OAuth2Context := Some auth.
Definition current_token (auth : option OAuth2Context) : string :=
  match auth with Some (Authenticated_ _ (Some refresh_token)) => refresh_token | _ => EmptyString end.

(** Every way to log in that the backend names is offered, once and in its order: as the page it names, or
    as a login with the provider as a hint. *)
Theorem providers_offered info :
  idps info ≠ [] →
  ∃ band links, lp_footer (render_login info) = Some (links, band) ∧ length links = length (idps info) ∧
  ∀ i idp, idps info !! i = Some idp → ∃ link, links !! i = Some link ∧
    (∀ url, l_click link = Open url ↔ href idp = Some url) ∧
    (∀ q, l_click link = StartLogin q ↔ href idp = None ∧ q = [("kc_idp_hint", idp_id idp)]).
Proof.
  intros Hne. exists (footer_band info), (idp_links info). split_and!.
  - cbn. unfold render_main_footer. by destruct (idps info).
  - apply length_fmap.
  - intros i idp Hi. exists (idp_link idp). unfold idp_links. rewrite list_lookup_fmap Hi. split; [done|].
    unfold idp_link. cbn. destruct (href idp); naive_solver.
Qed.

(** Pages are for those who are logged in. From wherever the others come, after the logout that a redirect
    is for they are at the login. *)
Theorem login_required `{Address} info auth r :
  (∀ p, screen info auth r = PageScreen p ↔ (∃ a t, auth = Authenticated_ a t) ∧ p = switch r) ∧
  (∀ r', screen info auth r = LoginRedirect r' → screen info auth r' = LoginScreen (render_login info)).
Proof.
  split.
  - intros p. destruct auth; cbn; [naive_solver| |naive_solver|naive_solver].
    unfold placeholder. destruct r; naive_solver.
  - intros r'. destruct auth; cbn; try done. unfold placeholder. by destruct r; intros [= <-].
Qed.
End Login.

(** ** About, [components/about.rs] *)

Module About.
Section About.
Context `{ConsoleCodecs} (backend : Backend) (from_version : string → result string string).

Inductive Msg : Type := FetchInfo | Info (version : string) | Error (err : ErrorNotification).

Record t := mk { toasts : list ErrorNotification; info : option string; task : option nat; net : Net FetchRequest }.
Definition create : t := mk [] None None empty_net.

Definition version_request : result FetchRequest string :=
  request_with backend "GET" "/.well-known/drogue-version" [] Nothing [].

Definition update (msg : Msg) (p : t) : t :=
  match msg with
  | FetchInfo =>
      match version_request with
      | Ok r => let '(i, n) := start r (net p) in mk (toasts p) (info p) (Some i) (drop_handle (task p) n)
      | Err e => mk (toasts p ++ [mkNotification "Failed to fetch information" e]) (info p) (task p) (net p)
      end
  | Info v => mk (toasts p) (Some v) (task p) (net p)
  | Error n => mk (toasts p ++ [n]) (info p) (task p) (net p)
  end.

Definition on_answer (response : result (Z * string) string) : Msg :=
  match api_handler from_version from_error show_number response with
  | Success v _ => Info v
  | Failure e => Error (mkNotification "Failed to load information" (error_description show_code e))
  end.

Definition receive (i : nat) (response : result (Z * string) string) (p : t) : t :=
  match answered i (λ _, on_answer response) (net p) with
  | [msg] => update msg p
  | _ => p
  end.

(** The dialog asks once it is opened, and shows the version the backend answers with, or one message. *)
Theorem about_shows response :
  let p := update FetchInfo create in
  ∃ r, version_request = Ok r ∧ n_requests (net p) !! 0 = Some (r, true) ∧
  let q := receive 0 response p in
  match api_handler from_version from_error show_number response with
  | Success v _ => info q = Some v ∧ toasts q = []
  | Failure _ => info q = None ∧ length (toasts q) = 1
  end.
Proof.
  eexists. split; [done|]. split; [done|]. cbn zeta. unfold receive, on_answer. cbn.
  by destruct (api_handler _ _ _ response).
Qed.
End About.
End About.

(** ** The state of a resource, [pages/mod.rs] *)

Module Ready.

Inductive Shown : Type := IsReady | NotReady | Unknown.

(** [render_condition]; a section that is missing or cannot be read has no conditions. *)
Definition render_condition (conditions : option (list Condition)) (name : string) : Shown :=
  match c_status <$> (conditions ≫= List.find (λ c, string_eqb (c_type c) name)) with
  | Some status => if string_eqb status "True" then IsReady else if string_eqb status "False" then NotReady else Unknown
  | None => Unknown
  end.
Definition render_state (conditions : option (list Condition)) : Shown := render_condition conditions "Ready".

Definition shown_status (s : option bool) : Shown :=
  match s with Some true => IsReady | Some false => NotReady | None => Unknown end.

(** The console shows what an operator has last set. *)
Theorem operator_state_shown `{ConditionsLaws} name s cs :
  render_condition (Some (Reconcile.update name s cs)) name = shown_status (cs_status s).
Proof.
  unfold render_condition. cbn [mbind option_bind]. destruct (List.find _ _) as [c|] eqn:Hf.
  - apply List.find_some in Hf as [Hin Ht%string_eqb_eq]. apply list_elem_of_In in Hin. cbn.
    rewrite (update_status _ _ _ _ Hin Ht). by destruct (cs_status s) as [[]|].
  - destruct (update_set name s cs) as (c & Hin & Ht). apply list_elem_of_In in Hin.
    pose proof (List.find_none _ _ Hf c Hin) as Hn. cbn in Hn. by rewrite Ht string_eqb_refl in Hn.
Qed.
End Ready.

(** ** An address *)

Module Examples.
Import Routes.

(** Escapes of bytes, as [percent_encoding] documents them; the address changes nothing. *)
Definition hex_digit (n : nat) : ascii := default "0"%char (String.get n "0123456789ABCDEF").
Definition hex_value (c : ascii) : option nat :=
  if between "0" "9" c then Some (nat_of_ascii c - 48)
  else if between "A" "F" c then Some (nat_of_ascii c - 55)
  else if between "a" "f" c then Some (nat_of_ascii c - 87) else None.
Definition escape (c : ascii) (s : string) : string :=
  if between "a" "z" c || between "A" "Z" c || between "0" "9" c then String c s
  else String "%" (String (hex_digit (nat_of_ascii c / 16)) (String (hex_digit (nat_of_ascii c mod 16)) s)).
Fixpoint encode (s : string) : string := match s with EmptyString => EmptyString | String c s => escape c (encode s) end.
Fixpoint decode (s : string) : string :=
  match s with
  | EmptyString => EmptyString
  | String c rest =>
      match (if bool_decide (c = "%"%char) then rest else EmptyString) with
      | String h (String l _) =>
          match rest, hex_value h, hex_value l with
          | String _ (String _ rest'), Some h, Some l => String (ascii_of_nat (16 * h + l)) (decode rest')
          | _, _, _ => String c (decode rest)
          end
      | _ => String c (decode rest)
      end
  end.

#[local] Instance console_codecs : ConsoleCodecs := {|
  url_encode := encode;
  show_number _ := EmptyString; show_code _ := EmptyString;
  from_members _ := Err EmptyString; from_transfer _ := Err EmptyString; from_error _ := Err EmptyString;
  members_vec _ := Err EmptyString; transfer_vec _ := Err EmptyString |}.
#[local] Instance address : Address := {| url_decode := decode; via := id |}.

Lemma decode_escape c s : decode (escape c s) = String c (decode s).
Proof. by destruct c as [[] [] [] [] [] [] [] []]. Qed.

#[local] Instance address_laws : AddressLaws.
Proof.
  split; try done.
  - intros s. cbn. induction s as [|c s IH]; [done|]. cbn [encode]. by rewrite decode_escape IH.
  - intros s. cbn. induction s as [|c s IH]; [done|]. cbn [has_char]. intros [Hc Hs]%orb_false_iff.
    cbn [decode]. rewrite Hc. by rewrite IH.
Qed.

Example link_with_blank : switch (reroute (Ownership (url_encode "my app"))) = OwnershipPage "my app".
Proof. by apply transfer_link_opens. Qed.

Example percent_device :
  switch (reroute (device_tab "app" "50%25" DeviceOverview)) = DevicePage "app" "50%" DeviceOverview ∧
  DevicePage "app" "50%" DeviceOverview ≠ DevicePage "app" "50%25" DeviceOverview.
Proof.
  change "50%25" with (url_encode "50%"). by apply (escaped_name_misread "app" "50%" DeviceOverview).
Qed.
End Examples.
