(* ===== verification/StateWitnesses.v ===== *)
(** * Concrete runs of endpoints with the device state service

    Instances of the theorems about the client of the device state service and
    about endpoints sharing it. *)

From S2P Require Import Prelude Store DeviceState StateClient StateSystem.

(** ** Calls that fail *)

(** A service that fails a number of times, and then answers. *)
Definition flaky : DeviceStateClient nat := {|
  api_create _ _ _ _ _ n := (pred n, match n with 0 => Ok Created | _ => Err (Wire.Transport "down") end);
  api_delete _ _ _ _ _ n := (pred n, match n with 0 => Ok tt | _ => Err (Wire.Transport "down") end);
  api_ping _ n := (pred n, match n with 0 => Ok (100%Z, []) | _ => Err (Wire.Transport "down") end);
  api_init n := (pred n, match n with 0 => Ok ("s", 100%Z) | _ => Err (Wire.Transport "down") end);
|}.
#[local] Existing Instance flaky.

Definition two_retries : Controller.StateController := Controller.mkController "s" "mqtt" 2.

(** Three failures with two retries: the process is aborted if the runner was
    already told to stop. *)
Lemma delete_retries_witness :
  Controller.delete 4 two_retries "app" "dev" "t" false true 3 = Some (0, false, Controller.DeleteDone) ∧
  Controller.delete 4 two_retries "app" "dev" "t" false false 3 = Some (1, false, Controller.DeleteAbort).
Proof.
  split;
    [rewrite (delete_retries two_retries "app" "dev" "t" false 3 true 3)
    |rewrite (delete_retries two_retries "app" "dev" "t" false 3 false 3)];
    try by_eval; try (split; by vm_compute); try (by vm_compute);
    intros i Hi; exists (Wire.Transport "down"); do 3 (destruct i as [|i]; [by_eval|]); lia.
Defined.

Definition runner : Runner.StateRunner := Runner.mkRunner "s" 5000 1000.

Lemma ping_ends_witness :
  ∃ w' m' notes x,
    Runner.ping 101 (λ i, (100 * Z.of_nat i)%Z) runner 9950 ∅ 1 = Some (w', m', notes, x) ∧
    (match x with Ok _ => True | Err _ => m' = ∅ ∧ notes = [] end).
Proof.
  destruct (Runner.ping_ends (λ i, (100 * Z.of_nat i)%Z) runner 9950 ∅ 1) as (w' & m' & notes & x & Hp & Hx);
    [intros i; lia|split; by vm_compute|].
  exists w', m', notes, x. split; [exact Hp|]. by destruct x as [[? ?]|].
Defined.

(** ** Creating over a bad network *)

(** The first response is lost, the recovery succeeds with its second call. *)
Definition bad_world : World :=
  mkWorld (mkStateDb {[1%Z := 0%Z]} ∅)
    [mkTurn [] 5 0 ResponseLost; mkTurn [SPing 6 "x"] 6 0 RequestLost].

Lemma create_outcome_witness :
  ∃ w' sh' notes,
    @Controller.create _ (service_client 10 of_text text_of) 3 9
      (Controller.mkController (text_of 1) "mqtt" 5) "app" "dev" "uid" "t" None 1
      (Controller.mkShared ∅ true) bad_world = Some (w', sh', notes, Controller.StateFailed) ∧
    no_token "t" (w_db w') ∧ Controller.mux sh' = ∅.
Proof.
  destruct (create_outcome 10 of_text text_of 3 9 (Controller.mkController (text_of 1) "mqtt" 5) 1
    "app" "dev" "uid" "t" None 1 (Controller.mkShared ∅ true) bad_world) as (w' & sh' & notes & o & Hc & Ho).
  - by_eval.
  - by intros k row.
  - repeat constructor.
  - simpl. lia.
  - assert (Heq : o = Controller.StateFailed) by (vm_compute in Hc; by simplify_eq).
    subst o. exists w', sh', notes. split; [exact Hc|exact Ho].
Defined.

(** ** Two endpoints *)

Lemma text_roundtrip u : of_text (text_of u) = Some u.
Proof. apply (@uuid_parse_to_string bits_codec bits_codec_laws). Qed.

(** Two connections to one endpoint, the second for another device, and an
    attempt to take over the first at another endpoint. *)
Definition two_run : list Cmd :=
  let st := mkState "uid" "mqtt" None in
  [CInit 1 1 0; CInit 2 2 0;
   CBegin 1 ("app", "dev") "t1" 1; CCreate 1 "t1" st 0 Delivered;
   CBegin 1 ("app", "dev2") "t3" 3; CCreate 1 "t3" st 0 ResponseLost; CDelete 1 "t3" true Delivered;
   CBegin 2 ("app", "dev") "t2" 2; CCreate 2 "t2" st 1 Delivered].

Definition two_ep : Ep :=
  mkEp 1 {[("app", "dev") := Mux.mkEntry "t1" 1]} {["t1" := (("app", "dev"), PLive, 1)]} [] [].
Definition two_row : StateRow := mkStateRow 1 "t1" 0 true (Some (mkState "uid" "mqtt" None)).
Definition two_sys : Sys := default empty_sys (run_cmds 10 of_text text_of two_run empty_sys).

Lemma two_reach : sys_reach 10 of_text text_of two_sys.
Proof.
  apply (run_cmds_reach 10 of_text text_of two_run empty_sys); [constructor|by_eval].
Qed.

Lemma device_exclusive_witness :
  ∃ row, states (sys_db two_sys) !! ("app", "dev") = Some row ∧ st_session row = 1%Z ∧
    st_token row = "t1".
Proof.
  apply (proj1 (proj2 (device_exclusive 10 of_text text_of text_roundtrip two_sys two_reach))
    1 two_ep "t1" 1 ("app", "dev")); [by_eval|by_eval|eexists; by_eval].
Defined.

Lemma lost_is_told_witness :
  ∃ cause, (1, cause) ∈ (Mux.handle_all [("app", "dev")] (ep_mux two_ep)).2.
Proof.
  apply (lost_is_told 10 of_text text_of text_roundtrip two_sys 1 two_ep "t1" ("app", "dev") 1 two_row 2
    (svc_ping 10 of_text text_of 2 1 (sys_db two_sys)).1.1 [] 12 [("app", "dev")] two_reach);
    [by_eval|by_eval|eexists; by_eval|by_eval|by_eval|by_eval].
Defined.
