(* ===== verification/EndpointWitnesses.v ===== *)
(** * Concrete runs of the endpoint components

    Instances of the theorems about command routing, MQTT sessions and
    publishing, at a small endpoint. *)

From S2P Require Import Prelude Json Registry CloudEvents Commands Pipeline MqttSession MqttConnect MqttServer.

(** ** Commands and sessions *)

(** Topics that match when they are equal. *)
Definition exact_topics : MqttTopics := {|
  topic_filter_valid := λ _, true;
  topic_name_valid := λ _, true;
  topic_is_match := string_eqb;
|}.
#[local] Existing Instance exact_topics.

Definition gw_filter : CommandFilter := filter_proxied_device "app1" "gw" "dev1".
Definition gw_handle : SubscriptionHandle := mkHandle gw_filter 7.
Definition gw_commands : Commands :=
  mkCommands {[mkAddress "app1" "gw" "dev1" := {[7%Z := mkTarget 1 Always]}]} ∅.

Lemma gw_run : commands_run [mkSub gw_filter gw_handle 1] gw_commands.
Proof.
  apply (run_subscribe [] commands_new [7%Z] 1 gw_filter gw_commands gw_handle); [constructor| |].
  - apply not_elem_of_nil.
  - by_eval.
Qed.

Definition gw_command : Command := mkCommand (mkAddress "app1" "gw" "dev1") "on" None.

Lemma commands_routed_witness :
  1 ∈ send gw_command gw_commands ∧ NoDup (send gw_command gw_commands).
Proof.
  destruct (commands_routed [mkSub gw_filter gw_handle 1] gw_commands gw_command 1 gw_run)
    as (Hs & Hn & _). split; [|exact Hn]. apply Hs. exists (mkSub gw_filter gw_handle 1).
  split; [by left|]. split; [done|]. split_and!; try done. by intros d [= <-].
Defined.

(** A gateway that subscribes to its own commands only. *)
Definition gw_id : Id := mkId "app1" "gw".
Definition own_topic : string := "command/inbox//#".
Definition own_inbox : InboxSubscription :=
  mkInbox (mkSub (filter_device "app1" "gw") (mkHandle (filter_wildcard "app1" "gw") 3) 2)
    (mkEncoder false).
Definition own_session : Session := mkSession gw_id DrogueV1 {[own_topic := own_inbox]} Connected true.
Definition own_commands : Commands :=
  mkCommands {[mkAddress "app1" "gw" "dev1" := {[7%Z := mkTarget 1 Always]}]}
    {[mkId "app1" "gw" := {[3%Z := mkTarget 2 Always]}]}.

Lemma own_run : session_run gw_id DrogueV1 own_session [mkSub gw_filter gw_handle 1] own_commands.
Proof.
  apply (sr_subscribe gw_id DrogueV1 (session_new gw_id DrogueV1) [mkSub gw_filter gw_handle 1]
    gw_commands [3%Z] 2 own_topic own_session own_commands Confirmed).
  - constructor. apply gw_run.
  - by_decide.
  - by_eval.
Qed.

(** The server takes the packet of version 5 that subscribes to it, and later learns that
    the peer is gone. *)
Definition own_endpoint : Served unit := mkServed own_session own_commands 3 tt.
Definition no_publish (_ : string) (_ : option string) (_ : string) (_ : Session) (x : unit)
    : unit * result unit PublishError := (x, Ok tt).
Definition draw_three (_ : nat) : list Z := [3%Z].

Definition subscribe_own : Input := InControl5 (C5Subscribe None [] [(own_topic, Qos1)]).

Lemma own_server_run :
  server_run draw_three no_publish gw_id DrogueV1 [subscribe_own] own_endpoint [mkSub gw_filter gw_handle 1].
Proof.
  apply (srv_input _ _ _ _ [] (mkServed (session_new gw_id DrogueV1) gw_commands 2 tt) _ subscribe_own).
  - constructor; [apply gw_run|]. repeat constructor.
  - by_eval.
Qed.

Definition left_endpoint : Served unit :=
  default own_endpoint (serve draw_three no_publish (InControl5 (C5PeerGone None)) own_endpoint).

Lemma server_inbox_witness :
  2 ∈ send gw_command own_commands ∧ ¬ is_Some (s_inbox (ep_session left_endpoint) !! own_topic).
Proof.
  destruct (server_inbox draw_three no_publish gw_id DrogueV1 _ own_endpoint [mkSub gw_filter gw_handle 1]
    gw_command own_server_run) as (_ & Hin & _).
  destruct (server_inbox draw_three no_publish gw_id DrogueV1 [InControl5 (C5PeerGone None); subscribe_own]
    left_endpoint [mkSub gw_filter gw_handle 1] gw_command) as (Hsub & _).
  { eapply srv_input; [exact own_server_run|]. by_eval. }
  split.
  - apply (Hin own_topic own_inbox eq_refl). split_and!; [done..|]. right. exists "". split_and!; auto.
  - intros [[]|[_ []]]%Hsub. done.
Defined.

Lemma own_inbox_gets_all_witness :
  2 ∈ send gw_command own_commands ∧
  encode_command_topic (mkEncoder false) gw_command = "command/inbox/dev1/on".
Proof.
  apply (own_inbox_gets_all gw_id DrogueV1 own_session [mkSub gw_filter gw_handle 1] own_commands
    own_inbox "dev1" "on" None own_run); done.
Defined.

(** A cache of capacity one. *)
Definition single_cache (V : Type) : LruCache string V := {|
  Cache := option (string * V);
  cache_get := λ k c,
    (match c with Some (k', v) => if string_eqb k k' then Some v else None | None => None end, c);
  cache_pop := λ k c,
    match c with Some (k', v) => if string_eqb k k' then None else c | None => None end;
  cache_put := λ k v _, Some (k, v);
  cache_retain := λ f c, match c with Some (k, v) => if f v then c else None | None => None end;
  cache_is_full := λ c, bool_decide (is_Some (fst <$> c));
  cache_peek := λ k c,
    match c with Some (k', v) => if string_eqb k k' then Some v else None | None => None end;
|}.

Lemma single_cache_laws V : @LruLaws string V (single_cache V).
Proof.
  split; simpl; try done.
  - intros k k' [[x v]|] v'; [|done]. by destruct (string_eqb k' x).
  - intros k k' v c v'. destruct (string_eqb_spec k k'); [|done]. intros [= <-]. auto.
  - intros k f [[x v]|] v'; [|done]. by destruct (f v).
Qed.

(** The service allows a device until time 5. *)
Definition auth_until_5 (t : Z) (k : string) : result (option string) string :=
  if (t <? 5)%Z then Ok (Some k) else Ok None.
Definition empty_cache : @DeviceCache string (single_cache _) := @mkDeviceCache _ (single_cache _) None 0.
Definition filled_cache : @DeviceCache string (single_cache _) :=
  @mkDeviceCache _ (single_cache _) (Some ("dev1", mkCacheEntry (Some "dev1") 14%Z)) 0.

Lemma cache_fresh_witness :
  ∃ t, auth_until_5 t "dev1" = Ok (Some "dev1") ∧ (t ≤ 9)%Z ∧ (8 < t + 10)%Z.
Proof.
  refine (proj1 (@cache_fresh string (single_cache _) (single_cache_laws _) auth_until_5 10 0
    [(3, 4, "dev1")%Z] empty_cache 4 filled_cache 8 9 "dev1" filled_cache (Ok "dev1") _ _ _ _ _)
    "dev1" eq_refl); [lia|done|by_eval|lia|by_eval].
Defined.

(** ** Publishing *)

Definition no_externals : Externals := {|
  Endpoint := Empty_set;
  call := λ _ _, Err "none";
  url_parse := λ u, Ok u;
  status_display := λ _, "status";
|}.
#[local] Existing Instance no_externals.
#[local] Existing Instance ref_sdk.

Definition a_device (uid name : string) : Reg.Device :=
  Reg.mkDevice uid name "app1" ∅ ∅ 0 1 "v1" None [] [] [].
Definition tagging_app : PublishApp (list (Rule Empty_set)) :=
  mkPublishApp "app1" "u1" None (Some (Ok [mkRule WAlways [SSetExtension "tag" "x"]])).

(** The gateway may act for the first device only. *)
Definition auth_dev1 (_ : Z) (k : string) : result (option Reg.Device) string :=
  if string_eqb k "dev1" then Ok (Some (a_device "u2" "dev1")) else Ok None.
Definition no_devices : @DeviceCache Reg.Device (single_cache _) :=
  @mkDeviceCache _ (single_cache _) None 0.
Definition dev1_cached : @DeviceCache Reg.Device (single_cache _) :=
  @mkDeviceCache _ (single_cache _) (Some ("dev1", mkCacheEntry (Some (a_device "u2" "dev1")) 14%Z)) 0.

(** A sink that takes all events, and one that takes those of the gateway. *)
Definition open_sink (_ : string) (_ : CE.Event) : result PublishOutcome string := Ok PAccepted.
Definition strict_sink (_ : string) (e : CE.Event) : result PublishOutcome string :=
  match address_from_event e with
  | Some a => if string_eqb (ca_gateway_id a) "gw" then Ok PAccepted else Ok PQueueFull
  | None => Err "no address"
  end.

(** The gateway publishes for the device, and the strict sink takes it. *)
Definition gw_publish (sink : string → CE.Event → result PublishOutcome string) :=
  @session_publish no_externals ref_sdk (single_cache _) (λ s, s) (λ _, None) "drogue" sink
    10 8 9 (auth_dev1 9) tagging_app (a_device "u3" "gw") "id1" "temp/dev1" None "21" own_session
    dev1_cached.

Lemma session_publish_origin_witness :
  gw_publish open_sink = gw_publish strict_sink ∧ gw_publish strict_sink = (dev1_cached, Ok tt).
Proof.
  split; [|vm_compute; reflexivity]. unfold gw_publish.
  apply (@session_publish_origin no_externals ref_sdk ref_sdk_laws (single_cache _)
    (single_cache_laws _) (λ s, s) (λ _, None) "drogue" auth_dev1 10 open_sink strict_sink
    0 [(3, 4, "dev1")%Z] no_devices 4 dev1_cached 8 9 tagging_app
    [mkRule WAlways [SSetExtension "tag" "x"]] (a_device "u3" "gw") "id1" "temp/dev1" None "21"
    own_session); [lia|done|by_eval|lia|done| |].
  - repeat constructor. by_decide.
  - intros d e _ (_ & _ & Ha). unfold strict_sink. by rw Ha.
Defined.
