(* ===== verification/Witnesses.v ===== *)
(** * Concrete runs

    One instance of every theorem that has hypotheses: a small registry that
    is built by its own handlers, a queue, a device state database and a
    Keycloak realm, at which the hypotheses hold and the conclusions are
    evaluated.  The parameters of the model are the executable instances of
    the component files. *)

From S2P Require Import Prelude Json Versioning Auth CloudEvents Events Store Outbox Registry Management Admin Lifecycle Guarantees Select WorkQueue Reconcile DeviceState DeviceAuth AccessToken Listing.

#[local] Existing Instance bits_codec.
#[local] Existing Instance plain_client.
#[local] Existing Instance identity_keycloak.

(** ** A registry with two users *)

Definition alice : UserDetails := mkUserDetails "alice" [].
Definition bob : UserDetails := mkUserDetails "bob" [].
Definition as_alice : UserInformation := Authenticated alice.
Definition as_bob : UserInformation := Authenticated bob.

Definition sender_ok : list Event.t → result unit string := λ _, Ok tt.

(** An environment that draws UUIDs from [n] on. *)
Definition at_time (n : Z) : Env := mkEnv n (10 * n + 1) (10 * n + 2) (10 * n + 3).

Definition app1 : Reg.Application :=
  Reg.mkApplication "" "app1" ∅ ∅ 0 0 "" None [] [] [].

(** A device with the given version, finalizers and spec. *)
Definition dev1 (version : string) (fins : list string) (spec : Map) : Reg.Device :=
  Reg.mkDevice "" "dev1" "app1" ∅ ∅ 0 0 version None fins spec [].

Definition handle := handle_request "drogue" sender_ok.

(** Alice creates an application, and a device with a finalizer. *)
Definition db1 : Db := r_db (handle (at_time 1) as_alice (CreateApp app1) empty_db).
Definition db2 : Db :=
  r_db (handle (at_time 2) as_alice (CreateDevice (dev1 "" ["fin"] [("a", Number 1)])) db1).

Definition row1 : AppRow :=
  mkAppRow 11 (Some ∅) (Some ∅) 1 12 0 0 None [] (Some "alice") None None (entity_data [] []).
Definition row2 : DevRow :=
  mkDevRow 23 (Some ∅) (Some ∅) 2 22 0 0 None ["fin"] (entity_data [("a", Number 1)] []).

Lemma db2_row1 : applications db2 !! "app1" = Some row1.
Proof. by_eval. Qed.
Lemma db2_row2 : devices db2 !! ("app1", "dev1") = Some row2.
Proof. by_eval. Qed.

Definition ent1 : App.t := AppAccessor.from_row "app1" row1.

Lemma db2_app1 : AppAccessor.get "app1" db2 = Some ent1.
Proof. by_eval. Qed.

Lemma row2_ok : dev_row_ok row2.
Proof. by split. Qed.

Lemma map_ok_nil : map_ok [].
Proof. by apply NoDup_nil. Qed.
Lemma map_ok_a v : map_ok [("a", v)].
Proof. apply NoDup_singleton. Qed.
#[local] Hint Resolve row2_ok map_ok_nil map_ok_a : drogue.

Lemma advance_from_diff_correct_witness :
  let new := Dev.mk "app1" 0 "dev1" ∅ ∅ 0 0 0 0 None ["fin"] (entity_data [("a", Number 2)] []) in
  let current := DevAccessor.from_row "app1" "dev1" row2 in
  ∃ new', advance_from (diff_paths current new) current new = (new', Ok 1%Z) ∧
    Dev.revision new' = 1%Z ∧ Dev.generation new' = 1%Z.
Proof.
  intros new current.
  destruct (advance_from_diff_correct current new [("a", Number 1)] [] [("a", Number 2)] [])
    as (new' & Ha & Hr & Hg & _); try (vm_compute; done); auto with drogue.
  exists new'. split_and!; [done|done|]. apply Hg. exists "a". by vm_compute.
Defined.

Lemma authorize_monotone_witness :
  authorize ent1 as_alice Permission.Owner = Allow ∧ authorize ent1 as_alice Permission.Read = Allow.
Proof.
  split; [by_eval|]. apply (authorize_monotone ent1 as_alice Permission.Owner Permission.Read);
    [simpl; lia|by_eval].
Defined.

Lemma event_cloud_roundtrip_witness :
  let ev := Event.Device "drogue" "app1" "dev1" "u" ".spec.a" 7 in
  ∃ ce, @into_cloud_event ref_sdk "id" 5 ev = Ok ce ∧
    from_cloud_event (λ _, None) (λ _, None) ce = Ok ev.
Proof.
  apply (@event_cloud_roundtrip ref_sdk (λ _, None) (λ _, None) ref_sdk_laws). by split.
Defined.

Lemma db2_reachable : reachable "drogue" sender_ok db2.
Proof. repeat constructor. Qed.

Lemma registry_consistent_witness :
  AppAccessor.lookup "app1" db2 = AppAccessor.get "app1" db2 ∧ AppAccessor.get "app1" db2 = Some ent1.
Proof.
  split; [|by_eval].
  destruct (registry_consistent "drogue" sender_ok db2 db2_reachable) as (_ & Ha & _).
  apply Ha. eexists. apply db2_row1.
Defined.

(** Bob's request changes nothing. *)
Lemma unauthorized_no_effect_witness :
  ∃ e, handle (at_time 3) as_bob (DeleteApp "app1" None) db2 = mkResponse db2 None (Err (Service e)).
Proof.
  apply (unauthorized_no_effect "drogue" sender_ok (at_time 3) as_bob (DeleteApp "app1" None)
    "app1" Permission.Admin ent1); [done|apply db2_app1|by_eval].
Defined.

Lemma devices_hidden_witness :
  get_device as_bob "app1" "dev1" db2 = Err NotFound ∧
  get_device as_alice "app1" "dev1" db2 ≠ Err NotFound.
Proof.
  split; [|by vm_compute].
  apply (devices_hidden "drogue" sender_ok (at_time 3) as_bob "app1" "dev1" (dev1 "" [] []) None);
    [done|]. intros app. rw db2_app1. intros [= <-]. by_eval.
Defined.

(** Alice writes a new spec, under the version she read. *)
Definition dev1_new : Reg.Device := dev1 (uuid_to_string 22) ["fin"] [("a", Number 2)].
Definition row3 : DevRow :=
  mkDevRow 23 (Some ∅) (Some ∅) 2 32 1 1 None ["fin"] (entity_data [("a", Number 2)] []).
Definition db3 : Db := r_db (update_device "drogue" sender_ok (at_time 3) as_alice dev1_new db2).

Lemma db3_row3 : devices db3 !! ("app1", "dev1") = Some row3.
Proof. by_eval. Qed.
Lemma row3_new : row3 ≠ row2.
Proof. by vm_compute. Qed.

Lemma update_device_effect_witness :
  ∃ row, devices db3 !! ("app1", "dev1") = Some row ∧ dr_resource_version row = 32%Z ∧
    as_u64 (dr_revision row) = 1%Z ∧ as_u64 (dr_generation row) = 1%Z.
Proof.
  destruct (update_device_effect "drogue" sender_ok (at_time 3) as_alice dev1_new db2 row2 row3
    [("a", Number 1)] [] db2_row2 row2_ok eq_refl (map_ok_a _) map_ok_nil (map_ok_a _) map_ok_nil
    db3_row3 row3_new) as (_ & _ & _ & _ & _ & _ & _ & Hv & Hr & Hg & _).
  exists row3. split; [apply db3_row3|]. split; [exact Hv|]. split; [exact Hr|].
  apply Hg. exists "a". by vm_compute.
Defined.

Lemma device_no_lost_update_witness :
  ∃ e, update_device "drogue" sender_ok (at_time 4) as_alice
         (dev1 (uuid_to_string 22) ["fin"] [("b", Null)]) db3 = mkResponse db3 None (Err (Service e)).
Proof.
  apply (device_no_lost_update "drogue" sender_ok (at_time 3) (at_time 4) as_alice as_alice
    dev1_new (dev1 (uuid_to_string 22) ["fin"] [("b", Null)]) db2 row2 row3);
    [done|done|apply db2_row2|apply db3_row3|apply row3_new|by vm_compute].
Defined.

Lemma device_read_write_noop_witness :
  ∃ d, get_device as_alice "app1" "dev1" db2 = Ok (Some d) ∧
    update_device "drogue" sender_ok (at_time 3) as_alice d db2 = mkResponse db2 None (Ok tt).
Proof.
  eexists. split; [reflexivity|].
  apply (device_read_write_noop "drogue" sender_ok (at_time 3) as_alice "app1" "dev1" db2 _ ent1
    row2 [("a", Number 1)] []); auto with drogue; by_eval.
Defined.

Definition created_event : Event.t := Event.Device "drogue" "app1" "dev1" (uuid_to_string 21) "." 0.

Lemma sent_events_persisted_witness :
  ∃ row, outbox db2 !! entry_key (entry_of_event created_event) = Some row ∧
    covered (entry_of_event created_event) row.
Proof.
  apply (sent_events_persisted "drogue" sender_ok (at_time 2) as_alice
    (CreateDevice (dev1 "" ["fin"] [("a", Number 1)])) db1 [created_event] created_event);
    [by_eval|by left].
Defined.

(** Alice deletes the application while the device still has a finalizer. *)
Definition del3 := delete_app_tx "drogue" (at_time 3) as_alice "app1" None db2.
Definition db4 : Db := match del3 with Ok (db, _) => db | Err _ => db2 end.
Definition row4 : AppRow :=
  mkAppRow 11 (Some ∅) (Some ∅) 1 32 0 1 (Some 3%Z) ["has-devices"] (Some "alice") None None
    (entity_data [] []).

Lemma delete_app_outcome_witness :
  ∃ row', applications db4 !! "app1" = Some row' ∧ ar_deletion_timestamp row' = Some 3%Z ∧
    ar_finalizers row' = ["has-devices"].
Proof.
  destruct (delete_app_outcome "drogue" (at_time 3) as_alice "app1" None db2 db4
    (Some [Event.Application "drogue" "app1" (uuid_to_string 11) ".metadata" 1]) row1)
    as (_ & _ & Hb); [by_eval|apply db2_row1|].
  destruct Hb as (row' & Hr & Hd & _ & Hf & _).
  { right. exists "dev1", row2. split; [apply db2_row2|done]. }
  exists row'. split; [exact Hr|]. split; [exact Hd|]. apply Hf. exists "dev1", row2. by_eval.
Defined.

Lemma deleted_app_is_closed_witness :
  create_device "drogue" sender_ok (at_time 4) as_alice (dev1 "" [] []) db4
    = mkResponse db4 None (Err (Service ReferenceNotFound)).
Proof.
  apply (deleted_app_is_closed "drogue" sender_ok (at_time 4) as_alice "app1"
    (AppAccessor.from_row "app1" row4) (dev1 "" [] []) None); [by_eval|done|done].
Defined.

(** The device is deleted too, and loses its finalizer. *)
Definition db5 : Db := r_db (handle (at_time 5) as_alice (DeleteDevice "app1" "dev1" None) db4).
Definition row5 : DevRow :=
  mkDevRow 23 (Some ∅) (Some ∅) 2 52 0 1 (Some 5%Z) ["fin"] (entity_data [("a", Number 1)] []).

Lemma db5_row4 : applications db5 !! "app1" = Some row4.
Proof. by_eval. Qed.
Lemma db5_devices : devices db5 = {[("app1", "dev1") := row5]}.
Proof. by_eval. Qed.
Lemma db5_row5 : devices db5 !! ("app1", "dev1") = Some row5.
Proof. rw db5_devices. apply lookup_singleton_eq. Qed.
Lemma db5_only n : is_Some (devices db5 !! ("app1", n)) → n = "dev1".
Proof.
  rw db5_devices. intros [row Hn]. apply lookup_singleton_Some in Hn as [Hk _]. congruence.
Qed.


Definition update_event : Event.t :=
  Event.Application "drogue" "app1" (uuid_to_string 0) ".spec.a" 1.

Lemma change_event_uids_witness :
  ar_uid row1 = 11%Z ∧ Event.uid update_event = uuid_to_string uuid_nil ∧
  dr_uid row2 = 23%Z ∧ Event.uid created_event = uuid_to_string 21.
Proof.
  split; [done|]. split.
  { apply (change_event_uids "drogue" sender_ok (at_time 3) as_alice db2) with
      (a := Reg.mkApplication "" "app1" ∅ ∅ 0 0 "" None [] [("a", Number 1)] [])
      (events := [update_event]); [by_eval|by left]. }
  split; [done|].
  apply (change_event_uids "drogue" sender_ok (at_time 2) as_alice db1) with
    (d := dev1 "" ["fin"] [("a", Number 1)]) (db' := db2) (events := [created_event]);
    [by_eval|by left].
Defined.

(** ** Administration *)

Definition ms : list (string * MemberEntry) := [("bob", mkMember Manager); ("", mkMember Reader)].
Definition db_members : Db :=
  match set_members as_alice "app1" (mkMembers None ms) db2 with Ok db => db | Err _ => db2 end.

Lemma set_get_members_witness :
  ∃ rv, get_members as_alice "app1" db_members = Ok (mkMembers (Some rv) ms).
Proof.
  apply (set_get_members as_alice "app1" None ms db2 db_members); [by_eval| |by_eval].
  by_decide.
Defined.

Lemma transfer_then_accept_witness :
  ∃ db1 db2' app2, transfer as_alice "app1" "bob" db2 = Ok db1 ∧
    accept as_bob "app1" db1 = Ok db2' ∧ AppAccessor.get "app1" db2' = Some app2 ∧
    App.owner app2 = Some "bob" ∧ authorize app2 as_alice Permission.Read = Deny.
Proof.
  destruct (transfer_then_accept alice bob "bob" "app1" ent1 db2)
    as (d1 & d2 & app2 & Ht & Ha & Hg & Ho & _ & _ & _ & Hd); [apply db2_app1|done..|].
  exists d1, d2, app2. split_and!; try done. by apply Hd.
Defined.

Definition db_offer : Db :=
  match transfer as_alice "app1" "bob" db2 with Ok db => db | Err _ => db2 end.
Definition db_taken : Db :=
  match accept as_bob "app1" db_offer with Ok db => db | Err _ => db2 end.

Lemma accept_only_receiver_witness :
  ∃ app', AppAccessor.get "app1" db_taken = Some app' ∧ App.owner app' = Some "bob" ∧
    App.transfer_owner app' = None.
Proof. apply (accept_only_receiver bob "app1" db_offer db_taken). by_eval. Defined.

Lemma accept_anonymous_disowns_witness :
  ∃ db' app', accept Anonymous "app1" db2 = Ok db' ∧ AppAccessor.get "app1" db' = Some app' ∧
    App.owner app' = None ∧ ∀ identity p, authorize app' identity p = Allow.
Proof. apply (accept_anonymous_disowns "app1" ent1 db2); [apply db2_app1|done]. Defined.

(** ** Queries *)

Lemma auth_read_aligned_witness :
  row_listed (sql_row "app1" row1) as_alice ↔ authorize ent1 as_alice Permission.Read = Allow.
Proof. apply (auth_read_aligned row1 "app1" alice); by_decide || done. Defined.

Lemma auth_read_not_aligned_witness :
  ∃ row, ar_owner row = None ∧ ¬ row_listed (sql_row "app1" row) as_bob ∧
    authorize (AppAccessor.from_row "app1" row) as_bob Permission.Read = Allow.
Proof. apply (auth_read_not_aligned "app1" bob). done. Defined.

Definition alice_query : SelectBuilder.t :=
  app_query "SELECT" (Some "app1") [] None None (Some as_alice) Lock.None ["NAME"].

(** The query of Alice selects her application. *)
Lemma app_query_correct_witness :
  ∃ cs, selected (SelectBuilder.params alice_query) (sql_row "app1" row1) cs.
Proof.
  destruct (app_query_correct "SELECT" (Some "app1") [] None None (Some as_alice) Lock.None ["NAME"])
    as (cs & _ & _ & Hsel & Hread & _).
  exists cs. apply Hsel. split_and!.
  - by intros n [= <-].
  - by intros op ?%elem_of_nil.
  - intros u [= <-]. apply Hread; [by eexists|by intros []|by left|by_eval].
Defined.

(** ** Queues *)

Definition one_key : Queue := {["dev" := mkQRow 5 0]}.

(** Two devices are due, one with a slash in its name; the first acknowledgement fails. *)
Definition slash_keys : Queue := {["a/b/c" := mkQRow 5 0; "a/d" := mkQRow 6 0]}.
Definition slow_turns (i : nat) : Turn := mkTurn (10 + Z.of_nat i) true (0 <? i)%nat.

Lemma fetch_correct_witness :
  ∃ q' (r : result (option (Entry (string * string))) unit) j,
    fetch slow_turns 4 0 slash_keys = Some (q', r) ∧ j ≤ 3 ∧
    q' !! "a/d" = Some (mkQRow 6 0) ∧ r = Ok (Some (mkEntry ("a", "d") 6%Z 0%Z)).
Proof.
  destruct (fetch_correct (K := string * string) slow_turns slash_keys) as [Hends _].
  destruct (Hends 1) as (q' & r & j & Hf & Hq & Hj & _); [by_decide|].
  exists q', r, j. split_and!; [exact Hf|exact Hj|by rw (Hq "a/d" ("a", "d"))|].
  assert (Hc : fetch (K := string * string) slow_turns 4 0 slash_keys =
    Some ({["a/d" := mkQRow 6 0]}, Ok (Some (mkEntry ("a", "d") 6%Z 0%Z)))) by by_eval.
  change (S (size slash_keys + 1)) with 4%nat in Hf. congruence.
Defined.

(** A key is added, selected, added again while it is processed, by a writer whose clock is
    behind, and acknowledged: it stays in the queue. *)
Definition readded : list QLabel :=
  [LAdd 5 5 "dev" 0; LSelect 10 (Some ("dev", mkQRow 5 0))] ++
  LAdd 4 20 "dev" 0 :: [LAck "dev" (mkQRow 5 0)].

Lemma added_work_not_lost_witness :
  ∃ s, qrun_single (mkQState ∅ [] 0) readded s ∧ is_Some (qs_queue s !! "dev").
Proof.
  assert (Hrun : qrun_single (mkQState ∅ [] 0) readded
    (mkQState (do_ack "dev" 5 0 (WorkQueue.insert 4 20 "dev" 0 one_key)) [] 20)).
  { eapply single_cons; [done|by constructor|]. eapply single_cons; [done| |].
    { apply (qstep_select one_key [] 5 10). done. }
    eapply single_cons; [done|by constructor|]. eapply single_cons; [done| |constructor].
    apply (qstep_ack _ [] []). }
  eexists. split; [exact Hrun|].
  refine (added_work_not_lost "dev" [_; _] [LAck "dev" (mkQRow 5 0)] 4 20 0 _ (or_introl Hrun) _).
  constructor; [by intros []|constructor].
Defined.

Definition entry5 : Entry string := mkEntry "dev" 5%Z 0%Z.

Lemma worker_done_correct_witness :
  worker_done (K := string) true true 12 12 entry5 (Ok (Some ("dev", 30%Z))) one_key !! "dev" =
    Some (mkQRow 42 1).
Proof.
  refine (worker_done_correct (K := string) (λ _, mkTurn 10 true true) 2 0 10 12 12 true true entry5
    one_key one_key (Ok (Some ("dev", 30%Z))) _ _ _ _); [by_eval|done|done|]. by intros rt after [= <- <-].
Defined.

(** ** Reconciliation *)

#[local] Existing Instance ref_conditions.

Definition step_ok : Step nat := simple_step (C := nat) "First" (λ c, Ok (Continue (S c))).
Definition step_next : Step nat := simple_step (C := nat) "Second" (λ c, Ok (Continue (S c))).

Lemma ready_iff_complete_witness :
  cs_status (ready_state (update CONDITION_RECONCILED default_status
    (progress_conditions (run [step_ok; step_next] [] 0)))) = Some true.
Proof.
  apply (ready_iff_complete [step_ok; step_next] [] 0 default_status);
    [by_decide|by_decide|by intros x ?%elem_of_nil|by_eval].
Defined.

Lemma finalizer_first_witness :
  ∃ cs', run [has_finalizer (λ c : nat, (S c, true)); step_ok] [] 0 = ProgRetry 1 None cs'.
Proof. apply (finalizer_first (λ c : nat, (S c, true)) [step_ok] [] 0 1); [done|]. by repeat constructor. Defined.

(** ** Device states *)

(** Two sessions, the first of which stopped pinging. *)
Definition state1 : DeviceStateData := mkState "u" "mqtt" None.
Definition srow : StateRow := mkStateRow 1 "t1" 0 false (Some state1).
Definition sdb : StateDb := mkStateDb {[1%Z := 0%Z; 2%Z := 50%Z]} {[("app1", "dev1") := srow]}.
Definition found : string → result (option unit) unit := λ _, Ok (Some tt).
Definition accepted : Publish → PublishResult := λ _, Accepted.
Definition pg_uuid_of (s : string) : option Uuid :=
  if string_eqb s "s1" then Some 1%Z else if string_eqb s "s2" then Some 2%Z else None.

Lemma sdb_state k row : states sdb !! k = Some row ↔ k = ("app1", "dev1") ∧ row = srow.
Proof. unfold sdb. simpl. rw lookup_singleton_Some. naive_solver. Qed.

Lemma sdb_ok : state_db_ok sdb.
Proof. intros k row [-> ->]%sdb_state. by eexists. Qed.

(** The session that pinged lately survives, the other one goes, and its device with it. *)
Lemma prune_correct_witness :
  ∃ db' sent, prune 10 found accepted (λ _, 30%Z) (λ _ _, false) 3 0 sdb = Some (db', sent, Ok tt) ∧
    sessions db' !! 2%Z = Some 50%Z ∧ sessions db' !! 1%Z = None ∧
    states db' !! ("app1", "dev1") = None ∧ disconnected ("app1", "dev1") srow ∈ sent.
Proof.
  destruct (prune_correct 10 found accepted (λ _, 30%Z) (λ _ _, false) sdb sdb_ok)
    as (db' & sent & r & j & Hp & Hj & Hold & Hkeep & Hst & Htold & Hleft).
  assert (Hr : r = Ok tt).
  { assert (Hc : ∃ x, prune 10 found accepted (λ _, 30%Z) (λ _ _, false) 3 0 sdb = Some (x, Ok tt))
      by (eexists; by_eval).
    destruct Hc as [x Hc]. change (S (size (sessions sdb))) with 3%nat in Hp. congruence. }
  assert (H1 : sessions db' !! 1%Z = None).
  { destruct (sessions db' !! 1%Z) as [ts|] eqn:E; [|done]. pose proof (Hold _ _ E) as Hts.
    assert (H0 : sessions sdb !! 1%Z = Some 0%Z) by by_eval. rw Hts in H0. injection H0 as ->. rw Hr in Hleft.
    by destruct (Hleft eq_refl _ _ E). }
  assert (Hd : states db' !! ("app1", "dev1") = None).
  { destruct (states db' !! _) as [row|] eqn:E; [|done]. apply Hst in E as [[_ ->]%sdb_state [x Hx]].
    simpl in Hx. rw H1 in Hx. discriminate Hx. }
  rw Hr in Hp. exists db', sent. split; [exact Hp|]. split; [|split; [exact H1|split; [exact Hd|]]].
  - destruct (Hkeep 2%Z 50%Z) as [H|(n & _ & Hexp & _)]; [by_eval|exact H|lia].
  - refine (Htold ("app1", "dev1") srow _ Hd eq_refl). apply sdb_state. split; reflexivity.
Defined.

(** A device connects, the application is known, and the registry fails when it disconnects;
    then its session is pruned. *)
Definition good : Outside := mkOutside found accepted.
Definition registry_down : Outside := mkOutside (λ _, Err tt) accepted.

Definition reconnects : list (Outside * StateOp) :=
  [(good, SInit 0 1); (good, SCreate 1 "s1" "app1" "dev1" "t1" state1);
   (registry_down, SDelete "s1" "app1" "dev1" "t1" true); (good, SPruneSession 1)].

Lemma connection_events_alternate_witness :
  ∃ db sent, outside_run 10 pg_uuid_of (mkStateDb ∅ ∅) reconnects = (db, sent) ∧
    alternates true (connections "app1" "dev1" sent) true.
Proof.
  destruct (connection_events_alternate 10 pg_uuid_of "app1" "dev1" reconnects) as [Halt _].
  assert (Hrun : (outside_run 10 pg_uuid_of (mkStateDb ∅ ∅) reconnects).1 = mkStateDb ∅ ∅) by by_eval.
  destruct (outside_run _ _ _ _) as [db sent]. simpl in Hrun. subst db. exists (mkStateDb ∅ ∅), sent.
  split; [done|]. apply Halt.
  do 3 (split; [split; [by split|exact I]|]). split; [|exact I]. split; [by split|left; by_eval].
Defined.

Lemma ping_xor_prune_witness :
  (ping 10 pg_uuid_of 30 "s1" sdb).2 = Err NotInitialized ∧ is_Some (next_expired 10 30 (λ _, false) sdb).
Proof.
  destruct (ping_xor_prune 10 pg_uuid_of 30 "s1" 1 0 sdb) as [[(e & l & _ & _ & _) Hlt]|(Hp & _ & Hn)];
    [done|by_eval|lia|done].
Defined.

Lemma takeover_witness :
  ∃ db1, DeviceState.create pg_uuid_of found accepted 5 "s2" "app1" "dev1" "t2" state1 sdb
           = (db1, [], Ok Occupied) ∧ DeviceState.get "app1" "dev1" db1 = None.
Proof.
  destruct (takeover 10 pg_uuid_of found accepted 5 6 "s1" "s2" 1 2 "app1" "dev1" "t1" "t2" state1
    srow sdb 0) as (db1 & Hc & _ & Hg & _); [(done || by eexists)..|].
  exists db1. split; [exact Hc|exact Hg].
Defined.

(** ** Device authentication *)

(** Every device has the password [pw], under the key [credentials]. *)
Definition password_client : ClientApi := {|
  section_anchors := λ _, None;
  section_aliases := λ _, None;
  get_authentication := λ _, Some (Ok [Reg.PasswordOnly (Reg.Plain "pw")]);
  pem_parse_many := λ _, Ok [];
  parse_x509_certificate := λ _, Err "no certificate";
  anchors_to_value := λ _, Ok (Array []);
|}.

Definition password_api : AuthApi := {|
  section_core := λ _, None;
  section_gateway := λ _, None;
  section_anchor_status := λ _, None;
  authentication_key := "authentication";
  credentials_key := "credentials";
  bcrypt_verify := λ _ _, None;
  sha512_check := λ _ _, false;
  pem_certificate := λ _, None;
  root_store_accepts := λ _, false;
  verify_client_cert := λ _ _ _ _, false;
  psk_is_valid := λ _ _, false;
  psk_before := λ _ _, false;
|}.

Definition login (password : string) : AuthenticationRequest :=
  mkAuthRequest "app1" "dev1" (Authn.Password password) None.

Definition login_device : Reg.Device :=
  @strip_credentials password_api (device_into (DevAccessor.from_row "app1" "dev1" row2)).

Lemma login_passes :
  @DeviceAuth.authenticate bits_codec password_client password_api 5 (login "pw") db2
    = Authn.Pass (app_into ent1) login_device None.
Proof. by_eval. Qed.

Lemma authenticate_sound_witness :
  ∃ app dev, AppAccessor.lookup "app1" db2 = Some app ∧
    DevAccessor.lookup (App.name app) "dev1" db2 = Some dev ∧ Dev.deletion_timestamp dev = None.
Proof.
  destruct (@authenticate_sound bits_codec password_client password_api 5 (login "pw") db2
    (app_into ent1) login_device None login_passes) as (app & dev & Ha & _ & _ & Hd & Ht & _).
  by exists app, dev.
Defined.

Lemma authenticate_no_credentials_witness :
  map_get "credentials" (Reg.d_spec login_device) = None.
Proof.
  destruct (@authenticate_no_credentials bits_codec password_client password_api 5 (login "pw") db2
    (app_into ent1) login_device None login_passes) as [Hno _].
  apply Hno; [by left|by right].
Defined.

(** ** Access tokens *)

(** A checksum that is always printed as [0], and an entry that is its hash. *)
Definition demo_tokens : TokenApi := {|
  checksum_ieee := λ _, 0%Z;
  crc32_update_ieee := λ _ _, 0%Z;
  base62_encode := λ _, "0";
  sha3_512_hex := λ s, s;
  encode_entry := λ h t d, uuid_to_string t +:+ "/" +:+ uuid_to_string (Z.of_nat (slen h)) +:+ "/" +:+ h +:+ d;
  decode_entry := λ s,
    '(t, s) ← split_once "/" s;
    '(n, s) ← split_once "/" s;
    t ← uuid_parse_str t;
    n ← uuid_parse_str n;
    Some (str_take (Z.to_nat n) s, t, str_drop (Z.to_nat n) s);
|}.

Lemma bits_no_slash p : has_char "/" (bits_of p) = false.
Proof. induction p as [p IH|p IH|]; simpl; [exact IH|exact IH|done]. Qed.

Lemma uuid_no_slash u : has_char "/" (uuid_to_string u) = false.
Proof. destruct u; simpl; [done|apply bits_no_slash..]. Qed.

Lemma demo_tokens_laws : @TokenLaws demo_tokens.
Proof.
  split; try done; [simpl; lia|]. intros h t d. cbn [decode_entry encode_entry demo_tokens].
  rw split_once_app; [apply uuid_no_slash|]. cbn [mbind option_bind].
  rw split_once_app; [apply uuid_no_slash|]. cbn [mbind option_bind].
  rw !uuid_parse_to_string. cbn [mbind option_bind].
  by rw Nat2Z.id str_take_app str_drop_app.
Qed.

Definition rnd_prefix : string := "abc123".
Definition rnd_key : string := "0123456789abcdefghij0123456789".

Lemma generated_token_valid_witness :
  is_valid (H := demo_tokens) (generate_access_token (H := demo_tokens) rnd_prefix rnd_key).1.2
    = Some (Some "drg_abc123").
Proof. by apply (@generated_token_valid demo_tokens demo_tokens_laws rnd_prefix rnd_key). Defined.

Definition realm1 : Realm := {["alice" := mkKcUser (Some "alice") "Alice" None]}.

Lemma token_lifecycle_witness :
  ∃ r1 prefix token r2,
    @create demo_tokens ref_realm 5 rnd_prefix rnd_key as_alice "laptop" realm1 = Ok (r1, (prefix, token)) ∧
    @authenticate demo_tokens ref_realm "Alice" token r1 = Some (Some (mkUserDetails "alice" [])) ∧
    @delete ref_realm as_alice prefix r1 = Ok r2 ∧
    @authenticate demo_tokens ref_realm "Alice" token r2 = Some None.
Proof.
  apply (@token_lifecycle demo_tokens demo_tokens_laws ref_realm ref_realm_laws 5 rnd_prefix rnd_key
    alice "laptop" (mkKcUser (Some "alice") "Alice" None) realm1); try done.
  intros id' u' Hl _. unfold realm1 in Hl. by apply lookup_singleton_Some in Hl as [<- _].
Defined.

Definition demo_token : string := "drg_abc123_0123456789abcdefghij01234567890".
Definition realm2 : Realm :=
  {["alice" := mkKcUser (Some "alice") "Alice"
      (Some {["access_token_drg_abc123" := Array [Str (@encode_entry demo_tokens demo_token 5 "laptop")]]})]}.

Lemma token_authenticate_sound_witness :
  is_admin (Authenticated (mkUserDetails "alice" [])) = false ∧
  @authenticate demo_tokens ref_realm "Alice" demo_token realm2 = Some (Some (mkUserDetails "alice" [])).
Proof.
  split; [|by_eval].
  apply (@token_authenticate_sound demo_tokens ref_realm ref_realm_laws "Alice" demo_token realm2).
  by_eval.
Defined.

(** ** Listing *)

Lemma list_apps_correct_witness :
  app_into ent1 ∈ list_apps String.le as_alice [] None None db2.
Proof.
  apply (list_apps_correct String.le as_alice [] db2). exists "app1", row1.
  split; [apply db2_row1|]. split; [done|]. split; [by intros op ?%elem_of_nil|].
  split; [by_eval|]. left. by eexists.
Defined.
