(* ===== verification/ApiWitnesses.v ===== *)
(** * Concrete runs of the HTTP API of the registry

    Two applications that are created over the API, with bodies that are the
    names of what they stand for, and host names checked for their characters. *)

From S2P Require Import Prelude Json Versioning Auth Events Store Outbox Registry Management Admin Lifecycle Select Labels Listing Kafka RegistryApi Witnesses.

#[local] Existing Instance bits_codec.
#[local] Existing Instance plain_client.
#[local] Existing Instance identity_keycloak.
#[local] Existing Instance ref_nom.

Definition named (name : string) : Reg.Application := Reg.mkApplication "" name ∅ ∅ 0 0 "" None [] [] [].

#[local] Instance name_codecs : ApiCodecs := {|
  decode_app := λ s, Some (named s);
  decode_device := λ s, Some (dev1 "" [] []);
  decode_delete := λ s, if is_empty s then Some None else None;
  decode_list := λ s, Some (mkListParams s None None);
  decode_transfer := Some;
  decode_members := λ _, None;
  app_json := λ a, Ok (Reg.a_name a);
  device_json := λ d, Ok (Reg.d_name d);
  transfer_json := λ s, Ok s;
  members_json := λ _, Ok "";
  url_for := λ resource parts, Ok (join "/" (resource :: parts));
  hostname_valid := λ s, negb (is_empty s) && all_chars hostname_char s;
|}.

#[local] Instance name_codecs_laws : HostnameLaws.
Proof. constructor. simpl. by intros s [_ ?]%andb_true_iff. Qed.

(** Digests that tell two names apart. *)
Definition two_digests : Text := {|
  to_lowercase := map_chars ascii_lower;
  md5_hex s := if string_eqb s "app1" then "901890a8e9c8cf6d5a1a542b229febff" else "03f19ca8da08c40c2d036c8915d383e2";
|}.
#[local] Instance two_digests_laws : TextLaws two_digests.
Proof.
  constructor.
  - intros s. simpl. by destruct (string_eqb s _).
  - intros s. simpl. by destruct (string_eqb s _).
  - intros a b _. eexists. apply map_chars_app.
  - done.
Qed.

Definition name_order : relation string := λ _ _, True.
#[local] Instance name_order_dec x y : Decision (name_order x y) := left I.

Definition post_app (n : Z) (name : string) (db : Db) : ApiResult :=
  serve_request "drogue" sender_ok (λ _, "error") name_order (at_time n) as_alice
    (mkHttpRequest POST ["registry"; "v1alpha1"; "apps"] "" name) db.
Definition two_apps : Db := ar_state (post_app 2 "app2" (ar_state (post_app 1 "app1" empty_db))).

Lemma two_apps_reachable : api_reachable "drogue" sender_ok (λ _, "error") name_order two_apps.
Proof. do 2 apply api_request. apply api_empty. Qed.

Lemma api_resources_distinct_witness :
  make_kafka_resource_name (T := two_digests) (REvents "app1") ≠
  make_kafka_resource_name (T := two_digests) (REvents "app2").
Proof.
  destruct (api_resources_distinct (T := two_digests) "drogue" sender_ok (λ _, "error") name_order two_apps
    (REvents "app1") (REvents "app2") two_apps_reachable) as [Hsame _].
  - eexists. by vm_compute.
  - eexists. by vm_compute.
  - done.
  - intros Heq. by destruct (Hsame Heq) as [?|(a & b & ? & _)].
Defined.

(** A name with a capital letter is refused. *)
Lemma client_error_no_effect_witness :
  hr_status (ar_answer (post_app 1 "App" empty_db)) = 400%Z ∧ ar_state (post_app 1 "App" empty_db) = empty_db.
Proof.
  assert (Hs : hr_status (ar_answer (post_app 1 "App" empty_db)) = 400%Z) by by_eval. split; [exact Hs|].
  apply (client_error_no_effect "drogue" sender_ok (λ _, "error") name_order (at_time 1) as_alice
    (mkHttpRequest POST ["registry"; "v1alpha1"; "apps"] "" "App") empty_db).
  unfold post_app in Hs. rewrite Hs. lia.
Defined.
