(* ===== verification/ConsoleWitnesses.v ===== *)
(** * Concrete runs of the console

    The administration page against a registry with one application: paths are
    left as they are, and members are written as the bits of their number. *)

From S2P Require Import Prelude Json Versioning Auth Events Store Outbox Registry Management Admin Lifecycle Select Labels Listing Kafka RegistryApi Console ConsoleAdmin Witnesses ApiWitnesses.
Import Console.Request.

#[local] Existing Instance bits_codec.
#[local] Existing Instance plain_client.
#[local] Existing Instance identity_keycloak.
#[local] Existing Instance ref_nom.

(** ** Members as text *)

#[local] Instance role_countable : Countable Role.
Proof.
  refine {| encode r := match r with Auth.Admin => 1 | Manager => 2 | Reader => 3 end%positive;
    decode p := match p with 1 => Some Auth.Admin | 2 => Some Manager | _ => Some Reader end%positive |}.
  by intros [].
Defined.

Definition members_text (m : Members) : string :=
  bits_of (encode (m_resource_version m, (λ e, (e.1, role e.2)) <$> m_members m)).
Definition text_members (s : string) : option Members :=
  (λ x : option string * list (string * Role), mkMembers x.1 ((λ e, (e.1, mkMember e.2)) <$> x.2)) <$> (parse_bits s ≫= decode).

Lemma text_members_text m : text_members (members_text m) = Some m.
Proof.
  unfold text_members, members_text. rw parse_bits_of /= decode_encode /=. f_equal. destruct m as [rv l]. f_equal. simpl.
  rw -list_fmap_compose -{2}(list_fmap_id l). apply list_fmap_ext. by intros i [k [r]] _.
Qed.

#[local] Instance members_codecs : ApiCodecs := {|
  decode_app := decode_app (ApiCodecs := name_codecs);
  decode_device := decode_device (ApiCodecs := name_codecs);
  decode_delete := decode_delete (ApiCodecs := name_codecs);
  decode_list := decode_list (ApiCodecs := name_codecs);
  decode_transfer := Some;
  decode_members := text_members;
  app_json := app_json (ApiCodecs := name_codecs);
  device_json := device_json (ApiCodecs := name_codecs);
  transfer_json := λ s, Ok s;
  members_json := λ m, Ok (members_text m);
  url_for := url_for (ApiCodecs := name_codecs);
  hostname_valid := hostname_valid (ApiCodecs := name_codecs);
|}.

#[local] Instance plain_console : ConsoleCodecs := {|
  url_encode := id;
  show_number := pretty.pretty;
  show_code := pretty.pretty;
  from_members := λ s, match text_members s with Some m => Ok m | None => Err "expected members" end;
  from_transfer := λ s, Ok s;
  from_error := λ s, Ok (mkErrorInformation s s);
  members_vec := λ m, Ok (members_text m);
  transfer_vec := λ s, Ok s;
|}.

Definition plain_backend : Backend := mkBackend id "token".
Definition plain_path (url : string) : list string := split "/"%char (default url (strip_prefix "/api/" url)).

Lemma hostname_no_slash s : all_chars hostname_char s = true → has_char "/"%char s = false.
Proof.
  induction s as [|c s IH]; [done|]. cbn [all_chars]. intros [Hc Hs]%andb_true_iff. simpl. rw IH // orb_false_r.
  apply bool_decide_eq_false_2. intros ->. by vm_compute in Hc.
Qed.

#[local] Instance plain_wire : AdminWire plain_backend plain_path id.
Proof.
  split.
  - intros name what Hn Hw. unfold plain_path. cbn [set_path plain_backend url_encode plain_console].
    unfold id. change ("/api/admin/v1alpha1/apps/" +:+ name +:+ "/" +:+ what)
      with ("/api/" +:+ "admin" +:+ String "/" ("v1alpha1" +:+ String "/" ("apps" +:+ String "/" (name +:+ String "/" what)))).
    rw strip_prefix_app. cbn [default]. rw !split_app //; [by apply hostname_no_slash|]. by rw split_no_sep.
  - intros m _. exists (members_text m). split; [done|]. apply text_members_text.
  - intros m _. exists (members_text m). split; [done|]. cbn [from_members plain_console]. by rw text_members_text.
  - intros e. by exists (mkErrorInformation e e).
Qed.

(** ** A member is added *)

Definition app1_props : Props := mkProps plain_backend "app1" None.

Definition exchange_app1 n user i p db : Page * Db :=
  exchange "drogue" sender_ok (λ _, "error") name_order app1_props plain_path id (at_time n) user i p db.

(** Alice opens the page, sees no members, and enters the name of Bob. *)
Definition alice_page : Page :=
  dispatch app1_props (NewMemberId "bob")
    (exchange_app1 3 as_alice 0 (dispatch app1_props LoadMembers create_page) db1).1.

Lemma alice_page_ok : page_ok alice_page.
Proof. unfold alice_page, exchange_app1. apply dispatch_ok, exchange_ok, dispatch_ok, create_ok. Qed.

Definition no_users : Users := default (mkUsers "" [] "") (members alice_page).
Definition bob_saved : Page * Db := exchange_app1 4 as_alice 2 (dispatch app1_props AddMember alice_page) db1.
Definition bob_members : Members :=
  match get_members as_alice "app1" bob_saved.2 with Ok m => m | Err _ => mkMembers None [] end.

Lemma add_member_end_to_end_witness :
  members alice_page = Some no_users ∧ us_members no_users = [] ∧
  fetch (dispatch app1_props AddMember alice_page) = Some 2%nat ∧
  member_added app1_props as_alice no_users alice_page db1 bob_saved.2 ∧
  (us_members <$> members (exchange_app1 5 as_alice 3 bob_saved.1 bob_saved.2).1) = Some [mkUser "bob" Reader].
Proof.
  assert (Hm : members alice_page = Some no_users) by by_eval.
  split; [exact Hm|]. split; [by_eval|].
  destruct (add_member_end_to_end "drogue" sender_ok (λ _, "error") name_order app1_props plain_path id
    (at_time 4) (at_time 5) as_alice alice_page no_users db1) as [_ Hnew].
  - by_eval.
  - exact alice_page_ok.
  - exact Hm.
  - vm_compute. constructor.
  - destruct Hnew as (i & j & Hi & Hj & _ & Hs & Hres); [vm_compute; intros Hin; inversion Hin|].
    assert (Hi2 : fetch (dispatch app1_props AddMember alice_page) = Some 2%nat) by by_eval.
    assert (i = 2%nat) as -> by congruence. split; [exact Hi2|].
    assert (Hj3 : fetch bob_saved.1 = Some 3%nat) by by_eval.
    unfold bob_saved, exchange_app1 in *. assert (j = 3%nat) as -> by congruence. split.
    + destruct Hres as [[Hadd _]|(_ & e & info & Href & _)]; [exact Hadd|].
      exfalso. vm_compute in Href. destruct Href as [[_ (v & [= <-] & Hv)]|[[_ ?]|(k & Hk & Hno & _)]];
        [by destruct Hv|done|].
      apply list_elem_of_singleton in Hk as ->. by vm_compute in Hno.
    + rewrite (Hs bob_members); by_eval.
Defined.

(** A second page that was opened before Bob was added adds Carol: it is told that the members
    were saved, and Bob is no member any more. *)
Definition second_page : Page := dispatch app1_props (NewMemberId "carol") alice_page.
Definition carol_saved : Page * Db := exchange_app1 6 as_alice 2 (dispatch app1_props AddMember second_page) bob_saved.2.

Example bob_is_lost :
  toasts carol_saved.1 = [SuccessToast "Application members saved."] ∧
  App.members <$> AppAccessor.get "app1" bob_saved.2 = Some [("bob", mkMember Reader)] ∧
  App.members <$> AppAccessor.get "app1" carol_saved.2 = Some [("carol", mkMember Reader)].
Proof. split_and!; by_eval. Qed.
