(* ===== verification/AccessWitnesses.v ===== *)
(** * Concrete requests of devices

    Instances of the theorems about what devices do over HTTP, CoAP and MQTT: a
    registry with one device, and codecs that leave text alone. *)

From S2P Require Import Prelude Json Versioning Auth Store Outbox Registry DeviceAuth CloudEvents Commands CommandWait Pipeline MqttSession DeviceState StateClient EndpointAuth HttpEndpoint CoapEndpoint MqttConnect EndpointWitnesses Witnesses.

Definition plain_codecs : AuthCodecs := {|
  percent_decode := id;
  base64_decode := Some;
  from_utf8 := Some;
  header_to_str := Some;
  cert_names := λ _, None;
|}.
#[local] Existing Instance plain_codecs.
#[local] Existing Instance exact_topics.
#[local] Existing Instance no_externals.
#[local] Existing Instance ref_sdk.
#[local] Existing Instance bits_codec.
#[local] Existing Instance password_client.
#[local] Existing Instance password_api.

(** ** Authentication *)

Definition the_service (rq : AuthenticationRequest) : result Authn.Outcome AuthError :=
  Ok (DeviceAuth.authenticate 5 rq db2).

Lemma the_service_ok rq o : the_service rq = Ok o → o = DeviceAuth.authenticate 5 rq db2.
Proof. by intros [= <-]. Qed.

Definition dev1_header : string := "Basic dev1@app1:pw".

Definition the_psk (app dev : string) : result Authn.PreSharedKeyOutcome AuthError :=
  Ok (request_key 5 app dev db2).

Lemma the_psk_ok app dev o : the_psk app dev = Ok o → o = request_key 5 app dev db2.
Proof. by intros [= <-]. Qed.


(** ** Waiting for a command *)

Definition no_bytes (_ : CE.Data) : option string := None.

(** A device waits, and takes the first command. *)
Definition wait_run : list Action :=
  ABegin [7%Z] 1 (filter_proxied_device "app1" "dev1" "dev1") (Some 30%Z) ::
  burst "app1" "dev1" 1 ++ [ARecv 1].

Definition taken : Command := mkCommand (mkAddress "app1" "dev1" "dev1") "on" None.

Lemma waiting_sound_witness :
  taken ∈ sent_by no_bytes wait_run ∧ wants (filter_proxied_device "app1" "dev1" "dev1") taken.
Proof.
  destruct (acts no_bytes wait_run system_new) as [s|] eqn:E; [|by vm_compute in E].
  destruct (waiting_sound no_bytes wait_run s E) as (H & _ & _).
  assert (Hw : sy_waiters s !! 1 = Some (mkWaiter (mkSub (filter_proxied_device "app1" "dev1" "dev1")
    (mkHandle (filter_wildcard "app1" "dev1") 7) 1) [] (Leaving (Some taken)))).
  { vm_compute in E. injection E as <-. by_eval. }
  exact (H 1 _ taken Hw eq_refl).
Defined.

(** A command on its way to a device. *)
Definition sending_run : list Action :=
  [ABegin [7%Z] 1 (filter_proxied_device "app1" "dev1" "dev1") (Some 30%Z);
   ADispatch (command_event "app1" "dev1" "on")].

Lemma dispatch_blocked_witness :
  ∃ s, acts no_bytes sending_run system_new = Some s ∧
    ((∃ ch, blocked ch s) ∨ ∃ l' s', acts no_bytes l' s = Some s' ∧ (∀ ch, ADrop ch ∉ l') ∧
       sy_dispatch s' ≠ sy_dispatch s).
Proof.
  destruct (acts no_bytes sending_run system_new) as [s|] eqn:E; [|by vm_compute in E].
  exists s. split; [done|]. apply (dispatch_blocked no_bytes sending_run s E).
  vm_compute in E. injection E as <-. discriminate.
Defined.

(** A request that is dropped while it waits. *)
Definition drop_run : list Action :=
  [ABegin [7%Z] 1 (filter_proxied_device "app1" "dev1" "dev1") (Some 30%Z); ADrop 1].
Definition dropped_sub : Sub :=
  mkSub (filter_proxied_device "app1" "dev1" "dev1") (mkHandle (filter_wildcard "app1" "dev1") 7) 1.

Lemma dropped_subscription_stays_witness :
  ∃ s, acts no_bytes drop_run system_new = Some s ∧
    ∀ l' s', acts no_bytes l' s = Some s' → registered (sy_commands s') dropped_sub.
Proof.
  destruct (acts no_bytes drop_run system_new) as [s|] eqn:E; [|by vm_compute in E].
  exists s. split; [done|]. intros l' s' Hl.
  refine (proj2 (dropped_subscription_stays no_bytes drop_run s 1 (mkWaiter dropped_sub [] CommandWait.Dropped) E _ eq_refl
    l' s' Hl)).
  vm_compute in E. injection E as <-. by_eval.
Defined.

(** ** Publishing *)

Definition no_sections : @PublishSections no_externals :=
  {| section_commands := λ _, None; section_publish := λ _, None |}.
#[local] Existing Instance no_sections.

(** A sink that takes events with an address only. *)
Definition address_sink (_ : string) (e : CE.Event) : result PublishOutcome string :=
  match address_from_event e with
  | Some _ => Ok PAccepted
  | None => Err "no address"
  end.

Lemma address_sinks_agree req as_device : sinks_agree 5 db2 "drogue" req as_device open_sink address_sink.
Proof.
  intros a d x e _ He.
  assert (Hr : processor_rules Downstream (publish_app a) = Ok []) by done.
  destruct (published_names_origin "drogue" Downstream (publish_app a) [] _ _ e Hr
    (List.Forall_nil _) He)
    as (_ & _ & Ha).
  unfold address_sink. by rw Ha.
Qed.

Definition no_ttn : TtnCodec := {|
  v2_from_slice := λ _, Err "not supported";
  v3_from_slice := λ _, Err "not supported";
  value_to_string := λ _, "";
|}.
#[local] Existing Instance no_ttn.

Definition no_options : QueryOptions := mkQueryOptions (mkCommonOptions None None None) None (Some 30%Z).
Definition dev1_request : HttpRequest := mkHttpRequest (Some dev1_header) None None None.

Definition dev1_publish (sink : string → CE.Event → result PublishOutcome string) :=
  http_publish the_service id (λ _, None) "drogue" sink "id1" 6 "temp" None no_options dev1_request "21".


Definition plain_coap : CoapCodecs := {|
  utf8_error := λ _, "";
  options_from_bytes := λ _, Err "none";
  header_from_bytes := Some;
|}.
#[local] Existing Instance plain_coap.

Definition dev1_packet : CoapRequest :=
  mkCoapRequest (Some ["v1"; "temp"]) None (Some [dev1_header]) (Some TextPlain) "21"
    (Some (mkCoapResponse None [] "")).
Definition dev1_coap (sink : string → CE.Event → result PublishOutcome string) :=
  publish_handler (λ _, "") the_service id (λ _, None) "drogue" sink "id1" 6 false dev1_packet None None.

Lemma coap_publish_origin_witness :
  dev1_coap address_sink = dev1_coap open_sink ∧
  dev1_coap address_sink = AwaitCommand (filter_proxied_device "app1" "dev1" "dev1") None.
Proof.
  split; [|by_eval]. symmetry. unfold dev1_coap.
  apply (@coap_publish_origin plain_codecs plain_coap no_externals no_sections ref_sdk ref_sdk_laws bits_codec
    password_client password_api (λ _, "") the_service 5 db2 the_service_ok id (λ _, None) "drogue"
    open_sink address_sink "id1" 6 false dev1_packet None None).
  apply address_sinks_agree.
Defined.

(** ** Connecting over MQTT *)

Definition no_mqtt : MqttSections := {| device_mqtt := λ _, None; app_mqtt := λ _, None |}.
#[local] Existing Instance no_mqtt.

(** A service that creates the states it is asked for, and counts the calls. *)
Definition counting_client : DeviceStateClient nat := {|
  api_create := λ _ _ _ _ _ n, (S n, Ok Created);
  api_delete := λ _ _ _ _ _ n, (S n, Ok tt);
  api_ping := λ _ n, (S n, Ok (0%Z, []));
  api_init := λ n, (S n, Ok ("s1", 0%Z));
|}.
#[local] Existing Instance counting_client.

Definition no_psk (app dev : string) : result Authn.PreSharedKeyOutcome AuthError :=
  Ok (request_key 5 app dev db2).
Lemma no_psk_ok app dev o : no_psk app dev = Ok o → o = request_key 5 app dev db2.
Proof. by intros [= <-]. Qed.

Definition mqtt_states : Controller.StateController := Controller.mkController "s1" "mqtt" 3.
Definition dev1_connect : Connect :=
  mkConnect V5 true (Some "dev1@app1") (Some "pw") "client" None None None.
Definition dev1_accepted : Connection :=
  Accept (app_into ent1) login_device (session_new (mkId "app1" "dev1") DrogueV1)
    (Controller.mkHandle false "app1" "dev1" "token") 4.
Definition dev1_shared : Controller.Shared :=
  Controller.mkShared {[("app1", "dev1") := Mux.mkEntry "token" 4]} true.

Lemma connect_sound_witness :
  @connected_as plain_codecs bits_codec password_client password_api false 5 db2 dev1_connect (app_into ent1)
    login_device ∧
  Controller.mux dev1_shared !! ("app1", "dev1") = Some (Mux.mkEntry "token" 4).
Proof.
  destruct (@connect_sound plain_codecs no_mqtt bits_codec password_client password_api nat counting_client
    the_service no_psk mqtt_states 3 5 false 5 db2 the_service_ok no_psk_ok "token" 4 dev1_connect
    (Controller.mkShared ∅ true) 0 1 dev1_shared [] dev1_accepted) as (_ & Hc & _ & _ & _ & _ & Hm & _);
    [by_eval|]. split; [exact Hc|exact Hm].
Defined.
