(* ===== verification/IntegrationWitnesses.v ===== *)
(** * Concrete runs of the integrations

    Instances of the theorems about sending commands, and about the MQTT and the
    WebSocket integration: a device behind a gateway, and clients that come and
    go. *)

From S2P Require Import Prelude Json Auth Registry CloudEvents Commands Pipeline HttpEndpoint Kafka EventStream CommandSend EndpointWitnesses AccessWitnesses MqttIntegration WebSocket.

#[local] Existing Instance exact_topics.
#[local] Existing Instance no_externals.
#[local] Existing Instance no_sections.
#[local] Existing Instance ref_sdk.
#[local] Existing Instance test_text.

(** ** Commands *)

(** Devices are enabled and name no external endpoints; there is no web. *)
Definition plain_devices : DeviceAttributes :=
  {| device_enabled := λ _, true; device_commands := λ _, [] |}.
Definition no_web : Web := {|
  Url := string;
  to_method := λ m, Ok (if is_empty m then None else Some m);
  parse_url := λ u, Ok u;
  url_extend := λ l u, Some (join "/" (u :: l));
  header_name := λ n, Ok n;
  header_value := λ v, Ok v;
  base64_encode := λ s, s;
  json_to_string := λ _, Ok "{}";
  http_send := λ _, Err "no route";
|}.
#[local] Existing Instance plain_devices.
#[local] Existing Instance no_web.

Definition the_app : Reg.Application := Reg.mkApplication "u1" "app1" ∅ ∅ 0 1 "v1" None [] [] [].
Definition on_command : CommandOptions := mkCommandOptions "app1" "dev1" "on" (Some "text/plain").
Definition binary_bytes (d : CE.Data) : option string :=
  match d with CE.Binary b => Some b | _ => None end.
Definition gw_sub : Sub := mkSub gw_filter gw_handle 1.

(** The gateway that waits for commands of the device gets the one that was sent. *)
Lemma command_reaches_subscribers_witness :
  ∃ e, open_sink "app1" e = Ok PAccepted ∧
    command_from_event binary_bytes e = Ok (mkCommand (mkAddress "app1" "gw" "dev1") "on" (Some "now")) ∧
    1 ∈ send (mkCommand (mkAddress "app1" "gw" "dev1") "on" (Some "now")) gw_commands.
Proof.
  destruct (@command_reaches_subscribers plain_devices no_web no_externals no_sections ref_sdk ref_sdk_laws
    id (λ _, None) "drogue" (λ _, "id") (λ _, 5%Z) (λ _, open_sink) exact_topics binary_bytes the_app
    (a_device "u2" "dev1") [a_device "u3" "gw"] on_command "now" 1 "gw")
    as (e & rules & He & Hr & Hout & Hplain); [by_eval..|].
  destruct (Hplain eq_refl) as [Hs Hcmd]. specialize (Hcmd "now" eq_refl). injection Hr as <-.
  exists e. split; [exact Hs|]. split; [exact Hcmd|].
  destruct Hout as [|(e' & Hp & _ & _ & Hsend)]; [done|]. injection Hp as <-.
  apply (Hsend _ Hcmd [gw_sub] gw_commands gw_sub gw_run); [by left|].
  split_and!; try done. by intros d' [= <-].
Defined.

(** ** The MQTT integration *)

Definition as_user : UserInformation := Authenticated (mkUserDetails "alice" []).

(** Alice may read the one application, whose consumers can be created. *)
Definition the_clients : Clients := {|
  cl_authorize := Some (λ app _ _, if string_eqb app "app1" then Ok Allow else Ok Deny);
  cl_get_app := λ app, Ok (if string_eqb app "app1" then Some the_app else None);
  cl_get_device_and_gateways := λ _ _, Ok None;
  cl_consumer := λ _ _, Ok tt;
|}.

Lemma the_clients_named : registry_named the_clients.
Proof. intros app res. simpl. by destruct (string_eqb_spec app "app1") as [->|]; intros [= <-]. Qed.

Definition only_app1 (app : string) : Prop := app = "app1".

Lemma the_clients_grant : grants only_app1 the_clients as_user.
Proof.
  intros app. unfold ensure_allowed, authorize. simpl. unfold only_app1.
  by destruct (string_eqb_spec app "app1") as [->|].
Qed.

Definition shared_topic : string := "$share/group/app/app1".
Definition app1_stream : MqttIntegration.Stream :=
  mkStream "events-app1" (Some "app1.group") "app/app1" AtLeastOnce None Structured.
Definition one_session : MqttIntegration.Session := attach_stream app1_stream (session_new as_user "client").
Definition two_session : MqttIntegration.Session := attach_stream app1_stream one_session.

Lemma one_session_run : session_run only_app1 as_user one_session ∅.
Proof.
  replace (∅ : gset nat) with (∅ ∪ replaces app1_stream (session_new as_user "client")) by (by_eval).
  apply (run_subscribed only_app1 as_user _ _ the_clients None shared_topic MqttAtLeastOnce Structured).
  - constructor.
  - apply the_clients_grant.
  - apply the_clients_named.
  - by_eval.
Qed.

(** The same subscription again. *)
Lemma two_session_run : session_run only_app1 as_user two_session {[ 0 ]}.
Proof.
  replace ({[ 0 ]} : gset nat) with (∅ ∪ replaces app1_stream one_session) by (by_eval).
  apply (run_subscribed only_app1 as_user _ _ the_clients None shared_topic MqttAtLeastOnce Structured).
  - apply one_session_run.
  - apply the_clients_grant.
  - apply the_clients_named.
  - by_eval.
Qed.


(** The first stream goes on when the client is gone. *)
Lemma dropped_session_streams_witness : drop_session two_session !! 0 = Some app1_stream.
Proof.
  apply (dropped_session_streams only_app1 as_user two_session {[ 0 ]} 0 app1_stream two_session_run).
  split; [by_eval|set_solver].
Defined.

Lemma shared_not_unsubscribed_witness : detach shared_topic one_session = (one_session, false).
Proof.
  apply (shared_not_unsubscribed only_app1 as_user one_session ∅ shared_topic one_session_run). by_eval.
Defined.

(** A client with a user name and an access token. *)
Definition token_services : Services := {|
  sv_access_token := Some (λ u p, Ok (if string_eqb p "token" then Some (mkUserDetails u []) else None));
  sv_authenticator := Some (λ _, Err "not a token");
  sv_from_utf8 := Some;
|}.

Lemma integration_user_witness :
  connect token_services true (Some "alice") (Some "token") "client" = Ok (session_new as_user "client") ∧
  ∃ f, sv_access_token token_services = Some f ∧ f "alice" "token" = Ok (Some (mkUserDetails "alice" [])).
Proof.
  split; [by_eval|].
  destruct (integration_user token_services true (Some "alice") (Some "token") "client"
    (session_new as_user "client") (λ _, Err "not a token")) as (_ & _ & _ & Hu); [by_eval..|].
  destruct Hu as [(u & p & p' & f & Hu & Hp & Hp' & Hf & Hk)|[(u & _ & Hn & _)|(p & p' & Hn & _)]]; [|done..].
  exists f. split; [exact Hf|]. injection Hu as <-. injection Hp as <-. by injection Hp' as <-.
Defined.

(** ** The WebSocket integration *)

Definition ws_handler : WsHandler := ws_new 100 "id1" "app1" None None (Some 130%Z) None None.

(** The client answers a ping after four seconds. *)
Definition ws_conn : Conn := mkConn 104 (set_heartbeat 104 ws_handler) 190 105.

Lemma ws_conn_run : conn_run (λ _, Err "no message") (λ _, None) 1 2 ws_conn.
Proof.
  eapply cr_step; [eapply cr_step; [apply (cr_started _ _ 1 2 100 ws_handler)|]|].
  - done.
  - intros e [= <-]. lia.
  - apply (cs_time _ _ 1 2 _ 104); simpl; unfold AUTH_CHECK_INTERVAL, HEARTBEAT_INTERVAL; lia.
  - exact (cs_message (λ _, Err "no message") (λ _, None) 1 2 (mkConn 104 ws_handler 190 105) MPong
      (set_heartbeat 104 ws_handler) [] [] eq_refl eq_refl).
Qed.

Lemma connection_bounded_witness : (104 ≤ 130 + 90 + 2 + 1)%Z ∧ (104 ≤ 104 + 15 + 1)%Z.
Proof.
  destruct (connection_bounded (λ _, Err "no message") (λ _, None) 1 2 ltac:(lia) ws_conn ltac:(lia) ws_conn_run)
    as [He Hh]. split; [exact (He 130%Z eq_refl)|exact Hh].
Defined.

(** A connection whose subscription was handled. *)
Definition ws_system : System.t :=
  System.mk (handle_subscribe "id1" "app1" service_new) [] [] ({[ "id1" ]} ∪ ∅) ∅ ({[ "id1" ]} ∪ ∅).

Lemma ws_system_reachable : System.reachable ws_system.
Proof.
  set (y := System.mk service_new [System.Subscribe "id1" "app1"] [] ({[ "id1" ]} ∪ ∅) ∅ ({[ "id1" ]} ∪ ∅)).
  apply (System.r_step y).
  - apply (System.r_step System.init); [constructor|].
    apply (System.st_start System.init "id1" "app1"). apply not_elem_of_empty.
  - exact (System.st_mail y (System.Subscribe "id1" "app1") [] eq_refl).
Qed.

Lemma streams_match_connections_witness :
  sv_clients (System.service ws_system) !! "id1" = Some (mkClientStream "app1" 0).
Proof.
  destruct (System.streams_match_connections ws_system ws_system_reachable) as [Hr _].
  by destruct (Hr 0 "id1" "app1") as [Hc _]; [by_eval|].
Defined.
