(* ===== verification/OperatorWitnesses.v ===== *)
(** * Concrete runs of the operators

    The hypotheses of the theorems of [Operators], [Ttn] and [DittoOperator] hold on concrete
    resources, with URLs as text and the sections found by their keys. *)

From S2P Require Import Prelude Json Versioning Auth Events Store Outbox Registry Management Admin Lifecycle Witnesses WorkQueue Reconcile CommandSend Operators OperatorNotices Ttn Trace DittoClient DittoOperator.

(** ** What the operators are told *)

Section Told.
#[local] Existing Instance bits_codec.
#[local] Existing Instance plain_client.
#[local] Existing Instance identity_keycloak.

(** Alice configures the application for The Things Network. *)
Definition app1_ttn : Reg.Application :=
  Reg.mkApplication "" "app1" ∅ ∅ 0 0 "" None [] [("ttn", Object [])] [].

Lemma registry_tells_operators_witness :
  tells (Management.update_app "drogue" sender_ok (at_time 3) as_alice app1_ttn db2) ttn_app_relevant "app1".
Proof.
  destruct (registry_tells_operators "drogue" sender_ok (at_time 3) as_alice db2) as [Happ _].
  destruct (Happ ["ttn"] ttn_app_relevant) as [Hup _]; [by left|].
  apply (Hup app1_ttn row1
    (mkAppRow 11 (Some ∅) (Some ∅) 1 32 1 1 None [] (Some "alice") None None (entity_data [("ttn", Object [])] [])));
    [by_eval|by_eval|].
  exists [], [], [("ttn", Object [])], []. split_and!; try done; try (by apply NoDup_nil).
  - by apply NoDup_singleton.
  - right. exists "ttn". split; [by left|done].
Defined.
End Told.

#[local] Instance text_web : TtnWeb := {|
  TUrl := string;
  turl_parse := λ s, Ok s;
  turl_extend := λ l u, Some (join "/" (u :: l));
  turl_query := λ k v u, u +:+ "?" +:+ k +:+ "=" +:+ v;
  turl_host := λ u, Some u;
  turl_text := λ u, u;
  basic_auth := λ u p, Some (u +:+ ":" +:+ p);
  status_display := λ _, "status";
|}.

Definition eu1 : TtnAppApi string := mkTtnAppApi "key" (RRegion "eu1") (OUser "alice") None.
Definition known_app : TtnAppStatus := mkTtnAppStatus (reconciled 1) (Some "app1").
Definition sensor : TtnDeviceSpec := mkTtnDeviceSpec "eui" "join" "secret" None None false true "EU".
Definition at_key {A} (m : Map) (a : A) : option (result A string) := (λ _, Ok a) <$> map_get "ttn" m.

Definition with_commands (d : Reg.Device) : Reg.Device :=
  device_with (Reg.d_finalizers d) (map_insert "commands" Null (Reg.d_spec d)) (Reg.d_status d) d.

#[local] Instance key_sections : TtnSections := {|
  app_spec := λ a, at_key (Reg.a_spec a) eu1;
  app_status := λ a, at_key (Reg.a_status a) known_app;
  set_app_status := λ _ a, Ok a;
  device_spec := λ d, at_key (Reg.d_spec d) sensor;
  device_status := λ d, at_key (Reg.d_status d) (mkTtnDeviceStatus (reconciled 1));
  set_device_status := λ _ d, Ok d;
  gateway_names := λ _, Some (Ok [TTN_GATEWAY_NAME]);
  set_gateway_names := λ _ d, Ok d;
  gateway_key := "gatewaySelector";
  set_commands := λ _ d, Ok (with_commands d);
  authentication := λ _, None;
  add_credential := λ _ d, Ok d;
|}.

(** The network does what it is asked, or has nothing to remove. *)
Definition willing (l : list Call) (r : TtnRequest string) : result Answer string :=
  Ok (mkAnswer (match tr_method r with DELETE => 404 | _ => 200 end) (Ok Null) (Ok "")).

Definition lora_app : Reg.Application :=
  Reg.mkApplication "u1" "app1" ∅ ∅ 0 1 "v1" None ["ttn"] [("ttn", Null)] [("ttn", Null)].
Definition lora_device (deleted : option Z) : Reg.Device :=
  Reg.mkDevice "u2" "dev1" "app1" ∅ ∅ 0 1 "v1" deleted ["ttn"] [("ttn", Null)] [("ttn", Null)].

(** Deleting the device, from the registry to the network and back. *)
Definition deleting : list Call :=
  (process (device_ops willing (λ _ _, Ok (Some lora_app)) (λ _ _ _, Ok (Some (lora_device (Some 5%Z))))
     (λ _ _, Ok tt) Ok) ("app1", "dev1") []).1.

Lemma ttn_finalizer_last_witness :
  ∃ ctx l1, to_context eu1 = Ok ctx ∧ answered willing ctx [] (delete_requests "app1" "dev1") l1 ∧
    deleting = l1 ++ [CUpdateDevice (removed_device (lora_device (Some 5%Z)))].
Proof.
  destruct (ttn_finalizer_last willing (λ _ _, Ok (Some lora_app))
    (λ _ _ _, Ok (Some (lora_device (Some 5%Z)))) (λ _ _, Ok tt) Ok ("app1", "dev1")
    [] (removed_device (lora_device (Some 5%Z)))) as (app & device & Happ & Hdev & Hlast).
  - by intros names d d' [= <-].
  - by intros status d d' [= <-].
  - by intros d d' [= <-].
  - change (CUpdateDevice (removed_device (lora_device (Some 5%Z))) ∈ deleting).
    replace deleting with (take 4 deleting ++ [CUpdateDevice (removed_device (lora_device (Some 5%Z)))])
      by (vm_compute; reflexivity).
    apply elem_of_app. right. by left.
  - change (FINALIZER ∉ @nil string). by intros ?%elem_of_nil.
  - injection Happ as <-. injection Hdev as <-.
    destruct Hlast as (_ & status & Hstatus & Hrest); [by left|]. injection Hstatus as <-.
    destruct Hrest as (api & ctx & l1 & Hapi & Hctx & Hans & Hl). injection Hapi as <-. by exists ctx, l1.
Defined.

(** A new device is created with the four servers. *)
Lemma ttn_device_written_witness :
  device_ensured willing "dev1" eu1 "app1" sensor []
    (process_device willing lora_app (lora_device None) []).1.
Proof.
  destruct (process_device willing lora_app (lora_device None) []) as [l' r] eqn:Hrun.
  destruct (ttn_device_written willing lora_app (lora_device None) [] l' (lora_device None))
    as (api & spec & Hapi & Hspec & Hens).
  - by intros names d d' [= <-].
  - done.
  - by eexists.
  - rewrite Hrun. revert Hrun. vm_compute. by intros [= <- <-].
  - injection Hapi as <-. injection Hspec as <-. exact Hens.
Defined.

(** Without its configuration the application stays. *)
Definition orphan_app : Reg.Application :=
  Reg.mkApplication "u1" "app1" ∅ ∅ 0 1 "v1" (Some 5%Z) ["ttn"] [] [("ttn", Null)].

Lemma ttn_removal_stuck_witness :
  configuration_lost orphan_app ∧
  process_app willing (λ _ _ _, Ok None) (λ _ _, Ok tt) (λ _ _, Ok tt) "http://endpoint" "pwd" orphan_app [] =
    ([], Err (Failed (Permanent "Missing API configuration."))).
Proof.
  assert (Hlost : configuration_lost orphan_app).
  { split_and!; [done|by left|]. exists known_app. by split; [|eexists]. }
  split; [exact Hlost|]. apply (ttn_removal_stuck willing). exact Hlost.
Defined.

(** A Ditto that knows one of the connections, and no policy. *)
#[local] Instance text_ditto : DittoWeb := {|
  DUrl := string;
  durl_join := λ s u, Ok (u +:+ s);
  durl_timeout := λ _ u, u +:+ "?timeout=20";
  status_error := λ code _, mkReqwest "error" false false (Some code);
  status_error_status := λ code _, eq_refl;
  code_text := λ _, "code";
  decode_connectivity := λ v, match v with
    | Number n => Ok [("id", mkConnectivityEntry n None)]
    | _ => Err "no number"
    end;
  decode_namespace := λ _, Ok [("ns", mkNamespaceEntry 200 "app1")];
|}.

#[local] Instance plain_setup : DittoSetup := {|
  ditto_spec := λ _, None;
  has_label_flag := λ k m, bool_decide (is_Some (m !! k));
  remove_ready := λ t cs, filter (λ c, c_type c ≠ t) cs;
  KUrl := string;
  kurl_parse := λ s, Ok s;
  kurl_set_username := λ s u, Some (s +:+ "@" +:+ u);
  kurl_set_password := λ _ u, Some u;
  kurl_text := λ u, u;
  urlencode := λ l, Ok (join "&" ((λ '(k, v), k +:+ "=" +:+ v) <$> l));
  to_ditto_js := "in";
  from_ditto_js := "out";
|}.

#[local] Instance plain_status : StatusSections Reg.Application := {|
  ditto_status := λ _, None;
  set_ditto_status := λ _ a, Ok a;
  clear_ditto_status := λ a, a;
  all_conditions := λ _, None;
  set_all_conditions := λ _ a, Ok a;
|}.

Definition twin_store (l : list (DCall DUrl)) (c : DCall DUrl) : result DAnswer ReqwestError :=
  let code := match l with [] => 404%Z | _ => 200%Z end in
  Ok (mkDAnswer (match dc_method c with HttpDelete => 404 | _ => 200 end) (Ok (Number code)) (Ok "")).

Definition twin_app : Reg.Application :=
  Reg.mkApplication "u1" "app1" ∅ ∅ 0 1 "v1" (Some 5%Z) ["ditto"] [] [].

Definition removing : list (DCall DUrl) * result (ProcessOutcome Reg.Application) ReconcileError :=
  ditto_app_deconstruct twin_store (λ _ _, Ok tt) "http://ditto" false (λ _, "code") twin_app [].

Lemma ditto_app_removed_witness : length removing.1 = 6 ∧ ∃ app', removing.2 = Ok (PComplete app') ∧
  DITTO_FINALIZER ∉ Reg.a_finalizers app'.
Proof.
  destruct (ditto_app_removed twin_store (λ _ _, Ok tt) "http://ditto" false (λ _, "code") twin_app []
    removing.1 (PComplete (app_with_finalizers [] twin_app)))
    as [(app' & Happ & Hfin) (l1 & l2 & l3 & l4 & l5 & _ & _ & _ & _ & _ & _ & Hlen)].
  - split; [by intros cs r r' [= <-]|done].
  - by vm_compute.
  - split; [exact Hlen|]. exists app'. split; [|exact Hfin]. rewrite <- Happ. by vm_compute.
Defined.
